(* ===== verification/_CoqProject ===== *)
-Q . S2P
Prelude.v
TaskProto.v
Waiters.v
Sema.v
SchedLock.v
RunQueue.v
RunSteps.v
Worker.v
Threads.v
Idle.v
IoReg.v
MultiWait.v
Resource.v
Channels.v
ChannelEnds.v
Tasks.v
Noise.v
LogTime.v
LogQueue.v
LogFormat.v
Io.v
Clock.v
PlainWait.v
Blocking.v
Sockets.v
NoiseStream.v
NoiseSession.v
NetOps.v
UnixPaths.v
NetHosted.v
SockOpts.v
RocList.v
Copy.v
PipePool.v
CopyBoth.v
CopyStreams.v
Stdin.v
RocMem.v
RocValues.v
RocRefs.v
AbiLayout.v
AbiTypes.v
AbiRelease.v
RocInterface.v
AbiHosted.v
HostExports.v
AbiOwned.v
LogHosted.v
AbiCodec.v
RefAtomics.v
Stdio.v
Args.v
Crypto.v
Random.v
NetResults.v
FilesHosted.v
Select.v
Signals.v
Limits.v
Alloc.v
Start.v
HostContext.v
Files.v
TlsNames.v
TlsConfig.v
Tls.v
TlsPoll.v
TlsSession.v
StreamWatch.v
