(* ===== verification/Prelude.v ===== *)
(** * roc-net: a verification development of the host

    roc-net is a platform for programs written in Roc: a host, in Rust, that
    runs a program's tasks on worker threads and gives it sockets, channels,
    TLS and Noise streams, logging, standard input and signals.  This library
    models the host's own logic ([src/*.rs]) and proves what makes it correct.
    What is not the host's (the operating system, the libraries for TLS and
    cryptography, the Roc program itself) appears as parameters.

    ** The program, and which file models which part

    The scheduler ([src/sched.rs]) runs tasks, which are coroutines, on a
    fixed number of workers.  A task that must wait suspends; a wake-up names
    the one wait it is for.
    - [TaskProto.v]: one task and any number of threads that wake, cancel and
      run it ([wake], [schedule], [cancel], [begin_wait], [wait_suspended],
      [park], [MultiWait::abandon], [run_task]); a step is one access to the
      task's atomics.
    - [Waiters.v], [Sema.v]: the lists of wakers, and the wait loop that all
      of the host's conditions are waited for with, as an abstract system of
      units and tasks.  [SchedLock.v] (locks, slots for helper threads),
      [Resource.v] and [Channels.v] refine it.
    - [RunQueue.v], [RunSteps.v]: the queues of ready tasks, stealing and
      injection; the same with their critical sections interleaved, and the
      tasks that are in a worker's hands between two of them.  [Worker.v],
      [Idle.v]: timers, the worker's turns, the budget; who wakes an idle
      worker.  [Threads.v]: threads and their thread-locals, coroutines that
      move between them, stacks, and [run_main].
    - [IoReg.v]: sockets registered with workers' event queues.  [MultiWait.v]:
      one wait on several of them, as a Select's.
    - [Io.v]: errors, the monad of operations that wait, [wait_io] and [sleep].
      [PlainWait.v]: the wait of a thread that runs no task.  [Clock.v]
      ([src/time.rs]): the program's clocks and its sleep.
    - [Blocking.v] ([blocking], and [src/resolve.rs]): calls on threads of
      their own, and the name lookups made that way.

    On top of it:
    - [Resource.v] ([src/resource.rs]): the heap of slots that Roc's handles
      point to.  [Channels.v], [ChannelEnds.v] ([src/channels.rs]), [Tasks.v]
      ([src/tasks.rs]): channels; their ends behind handles; spawning, joining,
      cancelling, scopes.
    - [Sockets.v] ([src/sockets.rs]), [NetOps.v], [NetHosted.v], [RocList.v]
      ([src/net.rs]): socket operations under deadlines; connecting, binding,
      accepting, reading; every hosted function with the references it owns;
      reading into a Roc list.  [UnixPaths.v]: whose the files of Unix
      listeners are, with the system calls of each listen as steps of their
      own that may fail and between which others act.  [SockOpts.v] ([src/sockopts.rs]): options of
      open sockets.
    - [Noise.v], [NoiseStream.v], [NoiseSession.v] ([src/noise.rs]): the Noise
      transport's frames and nonces; reading a stream of them from the socket;
      opening a session, writing to it, and the two sides together.
    - [Tls.v], [TlsPoll.v], [TlsSession.v], [TlsNames.v], [TlsConfig.v]
      ([src/tls.rs]): TLS streams around rustls, as steps; polling them; what
      tasks do with them, operations and polls interleaved, and making
      sessions; which certificate a server
      presents; what a configuration trusts and presents.
      [StreamWatch.v] ([src/tls.rs], [src/noise.rs]): Selects that wait on TLS
      and Noise streams, and the releases of locks that wake them.
    - [Copy.v], [CopyBoth.v] ([src/copy.rs]): copying one stream to another,
      buffered or spliced; both ways at once.  [PipePool.v]: the buffers and
      pipes that copies leave to each other.  [CopyStreams.v] (and
      [src/sockets.rs]): what each kind of stream does for a copy.
    - [Select.v] ([src/select.rs]): waiting on several sources.
    - [Stdin.v] ([src/stdin.rs]), [Signals.v] ([src/signals.rs]): lines and
      signals, each with a thread of its own.
    - [LogTime.v], [LogQueue.v], [LogFormat.v], [LogHosted.v] ([src/log.rs]):
      timestamps, the queue and its writer, the two line formats, and logging
      from Roc's memory.
    - [Files.v] ([src/files.rs]): writing files so that a crash leaves the old
      or the new.  [FilesHosted.v]: the hosted functions around it, with
      reading and the environment.  [Limits.v] ([src/limits.rs]): settings from the environment.
      [Alloc.v] ([src/alloc.rs]): the allocator Roc code uses.  [Random.v]
      ([src/random.rs]): random bytes, in a list made by hand.

    Between the host and the program ([src/roc_platform_abi.rs],
    [src/lib.rs], [src/crypto.rs]):
    - [RocMem.v]: memory as bytes, with undefined behaviour explicit.
      [RocValues.v]: strings, lists, boxes and callables in it, and every
      operation on their references.  [RocRefs.v]: what these operations do to
      the blocks of memory, and the machine of a program that makes, copies,
      slices and releases values.  [RefAtomics.v]: one count, many threads.
    - [AbiLayout.v]: a universe of the types that cross the boundary, their
      layouts, and releasing by type.  [AbiTypes.v]: the generated
      declarations, one by one, in the order of use.  [AbiRelease.v],
      [AbiCodec.v]: what the generated functions do, and that the generated
      accessors read what is written.  [AbiOwned.v]: the release policies and the wrapper
      that owns a value.
    - [RocInterface.v] ([platform/Host.roc], [platform/main.roc]): the hosted
      functions as the platform declares them.  [AbiHosted.v]: as the generated
      code does, with their argument structs and what each releases.
      [HostExports.v]: as the host's modules export them.
    - [Stdio.v], [Args.v], [Start.v] ([src/lib.rs]): the hosted line
      functions; the program's arguments; whose a pointer is that is freed,
      and clearing caches.  [HostContext.v] (and [src/main.rs]): the context of
      Roc code, the glue's own allocator and handlers, and [run].  [Crypto.v] ([src/crypto.rs]): the hosted
      cryptographic functions.  [NetResults.v] ([src/net.rs]): how results and
      errors become values of the generated types.

    This file holds what they share: machine integers, tactics, and lemmas on
    lists and relations.

    ** How the models correspond to the code

    Names are the source's.  A function that holds a mutex is one step (a
    function on the state under the mutex); code that several threads run
    over atomics is a state machine with one step per access, so the theorems
    hold for every interleaving.  Statuses of waits are explicit ([Sema.St]:
    not waiting, parked, notified, stopped).  Code that threads errors and the
    outside world through many calls is written in a state monad ([Io.io],
    and [NetHosted.hio], which also keeps a ledger of what was done with each
    reference).  Calls to the outside are classes of operations ([Sched],
    [NetOs], [NetHost], [SocketHeap], [SelectOps], [Copy.Ops], [Rustls],
    [Wire], [Sock], [Resolver], [Crypto.Library], [SockOpts.OptOs],
    [TlsConfig.Rustls], [PlainWait.PollOs], [TlsWorld], [CopyOs]), with a class of
    laws each for what the code relies on; every such class has a small
    instance, which the witnesses of the theorems run.  Integers keep their
    width where it matters ([wrap]).

    Loops that wait for the outside take fuel, and running out of it is
    [None], never a result.  Theorems about results hold for any fuel; that
    enough fuel exists is a theorem where the loop ends by itself
    ([TlsPoll.fill_now_returns]; [Tls.try_read_ends]: as many turns as bytes
    are kept; [Copy.copy_to_returns]: as many turns as the streams do things, and at
    least a pipe's capacity for draining it; [CopyBoth.copy_both_ends]: 20
    steps; [PlainWait.plain_wait_ends]: a turn for each interruption and each
    hour; [NoiseStream.noise_stream_in_order]: two more than the bytes left;
    [TlsSession.tls_write_returns]: as many tries as the socket leaves
    unanswered).

    ** What the theorems show

    - Scheduling: a task is never queued or run twice at once
      ([task_single_owner]); wherever a task is resumed it knows itself and its
      worker, on a stack of its own ([running_task_known],
      [stacks_not_shared]), and the program exits with [main!]'s code
      ([main_code_returned]); a wake-up for a wait is not lost and a cancelled
      task does not stay asleep ([no_lost_wakeup], [wake_delivers],
      [cancelled_task_not_parked]); every task is in one run queue or in one
      thread's hands ([run_queues_keep_tasks]); a scope that is closed has
      waited for its children ([scope_waits_for_children]); an injected task has a worker coming for it
      ([injected_task_has_a_worker]); timers fire when they are due
      ([timers_fire_exactly]); a task waiting on a socket is watched for by
      some worker, and events reach the socket they are for; a wait on several
      sockets misses none and is left on none ([multi_wait_attended]); a
      thread's own wait ends by its deadline ([plain_wait_ends]) and a sleep
      is as long as the clock says ([sleep_by_the_clock]); the wall clock does
      not run against the time ([wall_clock_clamped]).
    - Waiting: locks exclude each other, nobody sleeps next to a free lock,
      slot, value or line ([free_lock_has_a_taker],
      [channel_no_forgotten_sleeper], [stdin_sleeper_served],
      [signal_not_lost]); a Select leaves no registration behind and reports
      what happened ([select_leaves_nothing], [select_outcome]), and does not
      wait on a TLS or Noise stream that has something for it with nobody
      about to tell it ([watcher_attended]).
    - Ownership: a slot of the heap is in exactly one condition, a channel is
      closed by whichever of its ends goes ([gone_end_closes]), a hosted
      function gives up each reference once and fills or frees the slot it
      claimed ([hosted_calls_account]), reading into a list changes nothing
      anyone else sees ([fill_list_safe]); a Unix listener's file is its own
      until it goes, if no path is listened on while a closed listener of it is
      held ([listener_keeps_its_path]).
    - The boundary: the platform, the generated code and the host's exports
      agree on every function ([interface_conforms]); each releases the
      arguments it is given ([arguments_released], [owned_released_once]); Roc
      code has one allocator, which does what the glue's default one would, a size
      that overflows included ([one_allocator], [default_allocator_refined]); whatever a program does with strings, lists and boxes,
      references count what is held, nothing is freed twice or used after, and
      every value reads as what it was made of ([references_safe],
      [str_roundtrip]); with several threads the last reference frees, once
      ([last_reference_frees]); the asserted layouts are those of the
      declarations ([layouts_asserted]), each generated [decref] and [incref]
      is the one its type calls for ([generated_by_type]), gives up exactly
      what a value owns ([generated_release_exact]), and the generated tags and payload
      accessors read back what a value is ([accessors_read_back]); a freed pointer reaches its owner, and a socket
      is closed by the last of its handles ([dealloc_routed],
      [socket_closed_by_last]); hosted functions take what they are given and
      return what they say ([crypto_accounted], [crypto_refuses],
      [print_line_accounted], [input_line_returned]); the program gets the
      arguments it was started with ([main_args_in_order]); clearing caches
      covers the range and ends ([clear_cache_covers]); every outcome and error
      of a socket or a file has its own value, which carries the answer's own
      handle, bytes or text ([net_results_told], [datagram_told], [files_told]); the list made by
      hand for random bytes is the generated one ([random_list_as_generated]).
    - Helper threads: a call returns its function's own value, or nothing past
      its deadline, and isn't left asleep beside the value
      ([blocking_returns_value]); names are looked up so, and literals not at
      all ([names_resolved]).
    - Data: channels are bounded queues in order; writes deliver all bytes in
      order; Noise frames read back, with no nonce used twice; a copy moves
      exactly the bytes asked for, and returns their number
      ([copy_to_exact]), and a stream cut short is not passed off as
      complete; a line of input does not depend on how it arrives, and what is
      taken for UTF-8 is UTF-8; log lines are accounted for, are one line each
      and read back as JSON with the keys the platform writes kept apart from
      the program's, [truncated] excepted ([json_line_reads_back]), and are of
      the values Roc passed ([log_write_exact]); timestamps follow the calendar; a TLS stream
      gives rustls what arrives, and the socket what rustls makes, in order
      however its users interleave ([tls_bytes_in_order]), all operations and
      polls of its tasks being runs of the same steps, with nothing lost or
      reordered unless a call failed or the stream was aborted
      ([task_operations_in_order]), and it ends with a
      [close_notify] unless it was aborted ([shutdown_says_so],
      [drop_says_so]); a Noise stream's reads, waiting or not, are what the
      peer wrote, in order ([noise_stream_in_order]), between the two sides of
      any session, with failed writes, cuts and tampering told for what they
      are ([session_delivers]); a buffer that reads share
      leaks nothing between them ([scratch_never_leaks]); pipes that copies reuse do not carry one
      connection's bytes to another ([pipes_never_mix]).
    - Files and memory: a file written atomically is the old or the new at any
      moment, and a new one replaces nothing ([write_atomic_all_or_nothing],
      [write_new_keeps_what_is_there]); memory is freed and resized with the
      layout it was allocated with ([alloc_layouts_match]).
    - Limits and errors: at most so many tasks; accepting ends for a reason;
      a reachable address is connected to if an attempt is left; a TLS
      handshake is over by its deadline ([handshake_by_deadline]); limits set
      by the environment are ones the host can work with ([limits_usable]); the
      system is asked for the socket options the program asked for
      ([options_asked]).
    - Trust: a TLS configuration trusts and presents what its files hold and
      nothing else, or is refused with an error that names the file at fault
      ([configured_as_asked]).

    Some theorems are about what the code does not do as it means to:
    [stale_cancel_reported] and [searching_can_leak] (races in the scheduler),
    [failed_rearm_leaves_waiter], [closed_listener_deletes_anothers_file] and
    [stale_file_race] (files of Unix listeners),
    [scope_misses_late_child], [stale_handle_resolves],
    [unix_abort_passes_truncation], [stdin_failed_start_strands],
    [realloc_unchecked], [inner_contention_strands], [full_socket_strands] and
    [select_spins] (Selects on TLS streams), and the last part of
    [catch_outcome] (descriptors left open).

    ** What to keep in mind

    The contract of [park] that the wait loops are proved against ([end_ok]),
    and [SchedLaws]'s that a wait times out only past its deadline, are what
    [TaskProto.v] proves except in the race of [stale_cancel_reported].  In
    [Idle.v] starting a worker's thread does not fail.  [hosted_calls_account]
    assumes of the two calls that take two handles that the first one is
    valid; otherwise the second is not given up.  [CopyBoth.v] takes from
    [wait_finished] that it returns after the helper is done, or cancelled
    where that is allowed.  That a Select's wait leaves its waker on no socket
    ([SelectLaws]) is what [MultiWait.v] proves, except after
    [failed_rearm_leaves_waiter].  [MultiWait.v] has one task's waits on
    several sockets, each of which may return before it was claimed; the
    task's other waits are [TaskProto.v]'s.  [scope_waits_for_children] leaves
    out a wait that was told of a cancellation ([told_cancelled]), as in that
    race.  A field of a log line named [truncated] is not told from the
    platform's own mark ([truncated_field_passes_for_mark]).

    Memory accesses are sequentially consistent in all models.  Numbers of
    waits ([NEXT_WAIT], [Waiters]' [next]) do not wrap: there are 2^64 of
    them.  [Idle.worker_step] leaves out what a turn of the loop does that
    puts no worker to sleep: its own [answer_notification], and the poll with
    a zero timeout.  [StreamWatch.v] begins where the TLS handshake is over.
    [Resource.v] and [ChannelEnds.v] free a slot in the step that gives up its
    last reference.  In [Start.v] handles are released one after another;
    concurrent releases are [RefAtomics.v]'s.

    ** Not modelled

    Of the generated glue ([src/roc_platform_abi.rs]): vectors, decimals and
    the printing of values for debugging.  Of the one-time warnings (a worker
    or a stack that could not be had): that they are logged once.  Of
    [src/sockopts.rs], [src/copy.rs] and [src/sockets.rs], what is for other
    systems than Linux.  The load generators of [bench/] are not part of the
    host.
    Context switches and thread creation are below the level of
    these models; the raw memory of the slots of [Resource.v] is not that of
    [RocMem.v]. *)

From stdpp Require Export base tactics numbers list list_numbers gmap relations.

(** ** Scope and notation *)

Declare Scope roc_scope.
Delimit Scope roc_scope with roc.

Create HintDb roc.
#[export] Hint Constants Opaque : roc.
#[export] Hint Variables Opaque : roc.

(** ** Machine integers

    A [w]-bit unsigned integer is a [Z] in [0, 2^w); the release profile of
    the host has no overflow checks, so [+] wraps. *)

Section MachineInts.
Local Open Scope Z_scope.

Definition wrap (w x : Z) : Z := x mod 2 ^ w.
Definition U64_MAX : Z := 18446744073709551615.
Definition USIZE_MAX : Z := U64_MAX.
Definition u64_add (a b : Z) : Z := wrap 64 (a + b).
Definition u64_shl (a k : Z) : Z := wrap 64 (Z.shiftl a k).
Definition u64_lt (x : Z) : bool := (0 <=? x) && (x <=? U64_MAX).
Definition checked_add (a b : Z) : option Z :=
  if a + b <=? U64_MAX then Some (a + b) else None.
Definition checked_sub (a b : Z) : option Z :=
  if b <=? a then Some (a - b) else None.
Definition saturating_sub (a b : Z) : Z := Z.max 0 (a - b).
Definition saturating_mul (a b : Z) : Z := Z.min (a * b) U64_MAX.

End MachineInts.

#[global] Arguments wrap : simpl never.
#[global] Arguments Z.shiftl : simpl never.
#[global] Arguments Z.shiftr : simpl never.
#[global] Arguments Z.land : simpl never.
#[global] Arguments Z.lor : simpl never.
#[global] Arguments u64_add : simpl never.
#[global] Arguments u64_shl : simpl never.

(** A low field of [k] bits beside a shifted one: the packing of tokens. *)
Lemma pack_low (k a b : Z) :
  (0 <= k -> 0 <= a -> 0 <= b < 2 ^ k -> Z.land (Z.lor (Z.shiftl a k) b) (Z.ones k) = b)%Z.
Proof.
  intros Hk Ha Hb. rewrite Z.land_ones by done.
  apply Z.bits_inj'. intros n Hn. destruct (Z.ltb_spec n k).
  - rewrite Z.mod_pow2_bits_low by lia. rewrite Z.lor_spec, Z.shiftl_spec_low by lia. done.
  - rewrite Z.mod_pow2_bits_high by lia. symmetry. rewrite <- (Z.mod_small b (2 ^ k)) by done.
    by rewrite Z.mod_pow2_bits_high by lia.
Qed.

Lemma pack_high (k a b : Z) :
  (0 <= k -> 0 <= a -> 0 <= b < 2 ^ k -> Z.shiftr (Z.lor (Z.shiftl a k) b) k = a)%Z.
Proof.
  intros Hk Ha Hb. rewrite Z.shiftr_lor, Z.shiftr_shiftl_l, Z.sub_diag, Z.shiftl_0_r by lia.
  rewrite (Z.shiftr_div_pow2 b), Z.div_small by done. apply Z.lor_0_r.
Qed.

(** ** Moments and deadlines

    [Instant]s are nanoseconds on the monotonic clock; [None] is no deadline. *)

Abbreviation instant := Z (only parsing).
Abbreviation deadline := (option Z) (only parsing).

(** [deadline.is_some_and(|at| Instant::now() >= at)] *)
Definition past (d : deadline) (now : instant) : bool :=
  match d with Some t => (t <=? now)%Z | None => false end.

(** The last moment an [Instant] can name: [i64] seconds and nanoseconds. *)
Definition INSTANT_MAX : Z := 9223372036854775807 * 1000000000 + 999999999.

(** [Instant::checked_add] *)
Definition instant_checked_add (now ns : Z) : option Z :=
  if (now + ns <=? INSTANT_MAX)%Z then Some (now + ns)%Z else None.

(** ** Reachability *)

(** An invariant of every step holds in every reachable state. *)
Lemma rtc_invariant {A} (R : relation A) (P : A -> Prop) :
  (forall x y, P x -> R x y -> P y) -> forall x y, rtc R x y -> P x -> P y.
Proof. intros Hstep x y H. induction H; eauto. Qed.

(** ** Tactics *)

(** Splits conjunctions, disjunctions and existentials in the context. *)
Ltac destr :=
  repeat match goal with
  | H : _ /\ _ |- _ => destruct H
  | H : exists _, _ |- _ => destruct H
  | H : _ \/ _ |- _ => destruct H
  | H : (_ && _)%bool = true |- _ => apply andb_true_iff in H
  | H : (_ || _)%bool = false |- _ => apply orb_false_iff in H
  end.

(** Case analysis on the conditions of the goal (not of the context). *)
Ltac case_goal :=
  match goal with |- context [if ?b then _ else _] => destruct b eqn:? end.

(** A singleton split in the middle has nothing on either side. *)
Lemma app_cons_singleton {A} (l1 l2 : list A) (x y : A) :
  l1 ++ x :: l2 = [y] -> l1 = [] /\ l2 = [] /\ x = y.
Proof.
  destruct l1 as [|z [|? l1]]; simpl; intros H; simplify_eq; auto.
Qed.

Lemma app_cons_not_nil' {A} (l1 l2 : list A) (x : A) : l1 ++ x :: l2 = [] -> False.
Proof. by destruct l1. Qed.

(** [alter] on a list, by what is there. *)
Lemma alter_insert {A} (f : A -> A) (i : nat) (l : list A) x : l !! i = Some x -> alter f i l = <[i := f x]> l.
Proof.
  intros H. apply list_eq. intros j. destruct (decide (j = i)) as [->|Hne].
  - rewrite list_lookup_alter, decide_True by done.
    rewrite list_lookup_insert_eq by (by eapply lookup_lt_Some). by rewrite H.
  - by rewrite list_lookup_alter_ne, list_lookup_insert_ne.
Qed.

Lemma alter_none {A} (f : A -> A) (i : nat) (l : list A) : l !! i = None -> alter f i l = l.
Proof.
  intros H. apply list_eq. intros j. destruct (decide (j = i)) as [->|Hne].
  - by rewrite list_lookup_alter, decide_True, H by done.
  - by rewrite list_lookup_alter_ne.
Qed.
