(* ===== verification/TaskProto.v ===== *)
(** * The wake-up protocol of one task ([src/sched.rs], Tasks)

    One task's atomics ([state], [wait], [woke], [cancelled], [cancellable]),
    with every thread that touches them as a program counter: threads ending
    one of its waits ([wake], [schedule]), threads cancelling it
    ([TaskRef::cancel]), and workers that popped it from a run queue
    ([Worker::run_task]) with the coroutine code that starts and ends waits
    ([begin_wait], [park], [wait_suspended], [MultiWait::abandon]).  One step
    is one atomic access, so all interleavings of the atomic accesses are
    steps of the system (sequential consistency; the code's accesses to
    [wait] and [cancelled] that need it are [SeqCst]). *)
From S2P Require Import Prelude.
Local Open Scope Z_scope.

(** How a wait ended ([enum Woke]). *)
Inductive Woke := Ready | TimedOut | Cancelled.

#[export] Instance Woke_eq_dec : EqDecision Woke.
Proof. solve_decision. Defined.

Definition woke_as_u8 (w : Woke) : Z :=
  match w with Ready => 0 | TimedOut => 1 | Cancelled => 2 end.

Definition from_u8 (value : Z) : Woke :=
  if value =? 1 then TimedOut else if value =? 2 then Cancelled else Ready.

(** Task state bits. *)
Definition RUNNING : Z := 1.
Definition NOTIFIED : Z := 2.
Definition DONE : Z := 4.

(** The task's atomics. *)
Record Task := mkTask {
  state : Z;
  wait : Z;
  woke : Z;
  cancelled : bool;
  cancellable : bool;
}.

Definition set_state (v : Z) (t : Task) : Task :=
  mkTask v (wait t) (woke t) (cancelled t) (cancellable t).
Definition set_wait (v : Z) (t : Task) : Task :=
  mkTask (state t) v (woke t) (cancelled t) (cancellable t).
Definition set_woke (v : Z) (t : Task) : Task :=
  mkTask (state t) (wait t) v (cancelled t) (cancellable t).
Definition set_cancelled (v : bool) (t : Task) : Task :=
  mkTask (state t) (wait t) (woke t) v (cancellable t).
Definition set_cancellable (v : bool) (t : Task) : Task :=
  mkTask (state t) (wait t) (woke t) (cancelled t) v.

(** [new_task]: on no queue yet, but counted as notified. *)
Definition new_task : Task := mkTask NOTIFIED 0 (woke_as_u8 Ready) false false.

(** ** [wake] and [schedule] *)

(** A thread inside [wake], after it claimed the wait: about to store [woke];
    in [schedule], about to load [state]; about to compare-exchange the state
    it saw; past it, about to [push] the task on a run queue. *)
Inductive WakerPc :=
  | WStoreWoke (w : Woke)
  | WLoadState
  | WCas (seen : Z)
  | WPush.

(** [task.wait.compare_exchange(wait, 0)] *)
Definition claim_wait (w : Z) (t : Task) : option Task :=
  if wait t =? w then Some (set_wait 0 t) else None.

(** The top of [schedule]'s loop: return if the state seen is notified or
    done, else go on to the compare-exchange. *)
Definition schedule_loop (seen : Z) : option WakerPc :=
  if negb (Z.land seen (Z.lor NOTIFIED DONE) =? 0) then None else Some (WCas seen).

(** One atomic access of [wake]/[schedule]: the task's atomics after it, how
    many times it pushed the task on a queue, and the next position ([None]:
    the thread returned). *)
Definition waker_step (t : Task) (pc : WakerPc) : Task * nat * option WakerPc :=
  match pc with
  | WStoreWoke w => (set_woke (woke_as_u8 w) t, 0%nat, Some WLoadState)
  | WLoadState => (t, 0%nat, schedule_loop (state t))
  | WCas seen =>
      if state t =? seen then
        let t' := set_state (Z.lor seen NOTIFIED) t in
        if negb (Z.land seen RUNNING =? 0) then (t', 0%nat, None) else (t', 0%nat, Some WPush)
      else (t, 0%nat, schedule_loop (state t))
  | WPush => (t, 1%nat, None)
  end.

(** ** [TaskRef::cancel] *)

Inductive CancelPc :=
  | CLoadWait
  | CLoadCancellable (w : Z)
  | CClaim (w : Z).

Inductive CancelNext := CDone | CAt (pc : CancelPc) | CWake.

(** One access of [cancel] after it set the flag; [CWake]: it claimed the
    wait and goes on inside [wake] with [Woke::Cancelled]. *)
Definition cancel_step (t : Task) (pc : CancelPc) : Task * CancelNext :=
  match pc with
  | CLoadWait => (t, if wait t =? 0 then CDone else CAt (CLoadCancellable (wait t)))
  | CLoadCancellable w => (t, if cancellable t then CAt (CClaim w) else CDone)
  | CClaim w => match claim_wait w t with
                | Some t' => (t', CWake)
                | None => (t, CDone)
                end
  end.

(** ** The worker and the coroutine *)

(** Where a suspended coroutine will resume. *)
Inductive CoPos :=
  | CoStart
  | CoYielded
  | CoWaiting (id : Z) (c : bool).

(** A worker that holds the task: [WPopped] took it from a queue; the [B...]
    positions are inside [begin_wait] (with whether the wait is cancellable);
    [WRun o] is running Roc or host code, [o] the wait begun and not yet
    ended; [WReadWoke]/[WReturned] end [wait_suspended]; the rest is
    [run_task] after the coroutine handed control back. *)
Inductive WorkerPc :=
  | WPopped
  | WRun (o : option (Z * bool))
  | BStoreWoke (c : bool)
  | BStoreCancellable (c : bool)
  | BStoreWait (c : bool)
  | BCheck (id : Z) (c : bool)
  | BClaim (id : Z) (c : bool)
  | BSelf (id : Z) (c : bool) (pc : WakerPc)
  | WReadWoke (id : Z) (c : bool)
  | WReturned (id : Z) (c : bool) (w : Woke)
  | WSuspWait
  | WSuspFail
  | WSuspYield
  | WPushBack
  | WRet.

(** What the running coroutine chooses to do next. *)
Inductive CoAct :=
  | ActBegin (c : bool)
  | ActSuspend
  | ActParkEarly
  | ActGiveUp
  | ActAbandon
  | ActYield
  | ActReturn.

(** The task with the threads that act on it.  [queued] counts its
    occurrences in all run queues (the shared one included). *)
Record Sys := mkSys {
  task : Task;
  queued : nat;
  wakers : list WakerPc;
  cancels : list CancelPc;
  workers : list WorkerPc;
  co : CoPos;
  next_wait : Z;
}.

(** After [spawn] (or [run_main]) pushed the new task. *)
Definition init : Sys := mkSys new_task 1 [] [] [] CoStart 1.

(** Where the coroutine goes on when resumed. *)
Definition resume (p : CoPos) : WorkerPc :=
  match p with
  | CoStart | CoYielded => WRun None
  | CoWaiting id c => WReadWoke id c
  end.

(** One access by the worker that holds the task (the coroutine's choices
    apart): the atomics, pushes, the saved coroutine position, the next wait
    id and the next position ([None]: the worker let the task go). *)
Definition worker_step (t : Task) (p : CoPos) (nw : Z) (pc : WorkerPc)
  : option (Task * nat * CoPos * Z * option WorkerPc) :=
  match pc with
  | WPopped => Some (set_state RUNNING t, 0%nat, p, nw, Some (resume p))
  | WReadWoke id c => Some (t, 0%nat, p, nw, Some (WReturned id c (from_u8 (woke t))))
  | WReturned _ _ _ => Some (t, 0%nat, p, nw, Some (WRun None))
  | BStoreWoke c => Some (set_woke (woke_as_u8 Ready) t, 0%nat, p, nw, Some (BStoreCancellable c))
  | BStoreCancellable c => Some (set_cancellable c t, 0%nat, p, nw, Some (BStoreWait c))
  | BStoreWait c => Some (set_wait nw t, 0%nat, p, nw + 1, Some (BCheck nw c))
  | BCheck id c =>
      Some (t, 0%nat, p, nw,
            Some (if c && cancelled t then BClaim id c else WRun (Some (id, c))))
  | BClaim id c =>
      Some (match claim_wait id t with
            | Some t' => (t', 0%nat, p, nw, Some (BSelf id c (WStoreWoke Cancelled)))
            | None => (t, 0%nat, p, nw, Some (WRun (Some (id, c))))
            end)
  | BSelf id c pc =>
      let '(t', n, pc') := waker_step t pc in
      Some (t', n, p, nw, Some (match pc' with
                                | Some pc' => BSelf id c pc'
                                | None => WRun (Some (id, c))
                                end))
  | WSuspWait =>
      Some (if state t =? RUNNING then (set_state 0 t, 0%nat, p, nw, None)
            else (t, 0%nat, p, nw, Some WSuspFail))
  | WSuspFail | WSuspYield => Some (set_state NOTIFIED t, 0%nat, p, nw, Some WPushBack)
  | WPushBack => Some (t, 1%nat, p, nw, None)
  | WRet => Some (set_state DONE t, 0%nat, p, nw, None)
  | WRun _ => None
  end.

(** The coroutine's choices in [WRun]: start a wait ([begin_wait]); suspend in
    the wait begun ([wait_suspended]); return at once because the wait was
    claimed already ([park]); leave it open and go on (an error return of
    [wait_io] between the two); give it up ([MultiWait::abandon]); yield;
    return. *)
Definition co_step (t : Task) (p : CoPos) (o : option (Z * bool)) (a : CoAct)
  : option (Task * CoPos * WorkerPc) :=
  match a, o with
  | ActBegin c, _ => Some (t, p, BStoreWoke c)
  | ActSuspend, Some (id, c) => Some (t, CoWaiting id c, WSuspWait)
  | ActParkEarly, Some _ => if wait t =? 0 then Some (t, p, WRun None) else None
  | ActGiveUp, Some _ => Some (t, p, WRun None)
  | ActAbandon, Some (id, _) =>
      Some (default t (claim_wait id t), p, WRun None)
  | ActYield, None => Some (t, CoYielded, WSuspYield)
  | ActReturn, None => Some (t, p, WRet)
  | _, _ => None
  end.

(** ** The interleaving *)

Inductive step : Sys -> Sys -> Prop :=
  (** A thread calls [wake] for the wait the task is in, and claims it. *)
  | step_claim t q ws cs wk p nw w v :
      w <> 0 -> v <> Cancelled -> wait t = w ->
      step (mkSys t q ws cs wk p nw)
           (mkSys (set_wait 0 t) q (WStoreWoke v :: ws) cs wk p nw)
  (** A waker takes its next step. *)
  | step_waker t q ws1 pc ws2 cs wk p nw t' n pc' :
      waker_step t pc = (t', n, pc') ->
      step (mkSys t q (ws1 ++ pc :: ws2) cs wk p nw)
           (mkSys t' (q + n) (ws1 ++ option_list pc' ++ ws2) cs wk p nw)
  (** A thread calls [cancel], setting the flag. *)
  | step_cancel_set t q ws cs wk p nw :
      step (mkSys t q ws cs wk p nw)
           (mkSys (set_cancelled true t) q ws (CLoadWait :: cs) wk p nw)
  | step_cancel t q ws cs1 pc cs2 wk p nw t' nx :
      cancel_step t pc = (t', nx) ->
      step (mkSys t q ws (cs1 ++ pc :: cs2) wk p nw)
           (mkSys t' q (if nx is CWake then WStoreWoke Cancelled :: ws else ws)
                  (cs1 ++ (if nx is CAt pc' then [pc'] else []) ++ cs2) wk p nw)
  (** A worker pops the task from a queue holding it. *)
  | step_pop t q ws cs wk p nw :
      step (mkSys t (S q) ws cs wk p nw) (mkSys t q ws cs (WPopped :: wk) p nw)
  | step_worker t q ws cs wk1 pc wk2 p nw t' n p' nw' pc' :
      worker_step t p nw pc = Some (t', n, p', nw', pc') ->
      step (mkSys t q ws cs (wk1 ++ pc :: wk2) p nw)
           (mkSys t' (q + n) ws cs (wk1 ++ option_list pc' ++ wk2) p' nw')
  | step_co t q ws cs wk1 o wk2 p nw a t' p' pc' :
      co_step t p o a = Some (t', p', pc') ->
      step (mkSys t q ws cs (wk1 ++ WRun o :: wk2) p nw)
           (mkSys t' q ws cs (wk1 ++ pc' :: wk2) p' nw)
  (** Another task takes a wait id. *)
  | step_env t q ws cs wk p nw :
      step (mkSys t q ws cs wk p nw) (mkSys t q ws cs wk p (nw + 1)).

Definition reachable (s : Sys) : Prop := rtc step init s.

Lemma claim_wait_spec w t :
  (wait t = w /\ claim_wait w t = Some (set_wait 0 t)) \/ (wait t <> w /\ claim_wait w t = None).
Proof. unfold claim_wait. destruct (Z.eqb_spec (wait t) w); auto. Qed.

(** ** Who holds the task *)

Definition is_push (pc : WakerPc) : bool := if pc is WPush then true else false.
Definition pushes (ws : list WakerPc) : nat := length (List.filter is_push ws).

(** Positions a worker can be at while the task's state says [RUNNING]. *)
Definition running_pc (st : Z) (pc : WorkerPc) : bool :=
  match pc with
  | WPopped | WPushBack => false
  | WSuspFail => st =? 3
  | BSelf _ _ WPush => false
  | BSelf _ _ (WCas seen) => seen =? 1
  | _ => true
  end.

(** The state value says where the task is: parked with nobody holding it,
    held by exactly one running worker, or notified and in exactly one place
    (one queue, one thread about to push it, one worker between queue and
    run), or done. *)
Inductive Own : Z -> nat -> nat -> list WorkerPc -> Prop :=
  | own_parked : Own 0 0 0 []
  | own_running st pc : st = 1 \/ st = 3 -> running_pc st pc = true -> Own st 0 0 [pc]
  | own_queued : Own 2 1 0 []
  | own_push : Own 2 0 1 []
  | own_held pc : pc = WPopped \/ pc = WPushBack -> Own 2 0 0 [pc]
  | own_done : Own 4 0 0 [].

Definition cas_ok (pc : WakerPc) : Prop :=
  match pc with WCas seen => seen = 0 \/ seen = 1 | _ => True end.

Record InvOwn (s : Sys) : Prop := {
  own_ok : Own (state (task s)) (queued s) (pushes (wakers s)) (workers s);
  cas_all : Forall cas_ok (wakers s);
}.

Lemma pushes_app l1 l2 : pushes (l1 ++ l2) = (pushes l1 + pushes l2)%nat.
Proof. unfold pushes. by rewrite List.filter_app, length_app. Qed.

Lemma own_state st q n wk : Own st q n wk -> st = 0 \/ st = 1 \/ st = 2 \/ st = 3 \/ st = 4.
Proof. inversion 1; subst; tauto. Qed.

Lemma schedule_loop_spec st :
  st = 0 \/ st = 1 \/ st = 2 \/ st = 3 \/ st = 4 ->
  (schedule_loop st = None /\ (st = 2 \/ st = 3 \/ st = 4)) \/
  (schedule_loop st = Some (WCas st) /\ (st = 0 \/ st = 1)).
Proof. intros [->|[->|[->|[->| ->]]]]; vm_compute; auto. Qed.

Lemma schedule_loop_cas st :
  st = 0 \/ st = 1 \/ st = 2 \/ st = 3 \/ st = 4 ->
  pushes (option_list (schedule_loop st)) = 0%nat /\
  Forall cas_ok (option_list (schedule_loop st)).
Proof.
  intros [->|[->|[->|[->| ->]]]]; vm_compute; split; auto; repeat constructor; auto.
Qed.

Lemma running_pc_mono pc : running_pc 1 pc = true -> running_pc 3 pc = true.
Proof. by destruct pc. Qed.

(** A waker's step keeps the ownership invariant. *)
Lemma waker_step_own t pc t' n pc' q k wk :
  waker_step t pc = (t', n, pc') -> cas_ok pc ->
  Own (state t) q (pushes [pc] + k) wk ->
  Own (state t') (q + n) (pushes (option_list pc') + k) wk /\
  Forall cas_ok (option_list pc').
Proof.
  intros Hs Hc Ho. pose proof (own_state _ _ _ _ Ho) as Hst.
  destruct pc as [w| |seen|]; simpl in Hs, Hc.
  - simplify_eq. rewrite Nat.add_0_r. split; [done|]. by repeat constructor.
  - simplify_eq. rewrite Nat.add_0_r.
    destruct (schedule_loop_cas _ Hst) as [-> ?]. done.
  - case_match eqn:E.
    + apply Z.eqb_eq in E; subst seen.
      destruct Hc as [Hc|Hc]; rewrite Hc in *; simpl in Hs; simplify_eq; simpl;
        rewrite Nat.add_0_r; inversion Ho; subst; simpl in *; try (exfalso; lia).
      * split; [|by repeat constructor]. replace k with 0%nat by lia.
        change (Z.lor 0 NOTIFIED) with 2. constructor.
      * split; [|constructor]. change (Z.lor 1 NOTIFIED) with 3. replace k with 0%nat by lia. constructor; [auto|]. by apply running_pc_mono.
    + simplify_eq. rewrite Nat.add_0_r.
      destruct (schedule_loop_cas _ Hst) as [-> ?]. done.
  - simplify_eq. simpl in *. inversion Ho; subst; try lia.
    split; [|constructor]. simpl. constructor.
Qed.

Lemma Forall_mid {A} (P : A -> Prop) l1 x l2 :
  Forall P (l1 ++ x :: l2) <-> P x /\ Forall P (l1 ++ l2).
Proof. rewrite !Forall_app, Forall_cons. tauto. Qed.

(** A worker's own [wake] (in [begin_wait]) finds its task running, so it
    only marks it. *)
Lemma self_wake_running t pc t' n pc' :
  waker_step t pc = (t', n, pc') ->
  state t = 1 \/ state t = 3 -> running_pc (state t) (BSelf 0 true pc) = true ->
  n = 0%nat /\ (state t' = 1 \/ state t' = 3) /\
  (state t = 3 -> state t' = 3) /\ wait t' = wait t /\
  match pc' with
  | Some pc' => running_pc (state t') (BSelf 0 true pc') = true
  | None => state t' = 3
  end.
Proof.
  intros Hs Hst Hr. destruct t as [st w wk cd cl]; simpl in *.
  destruct pc as [v| |seen|]; simpl in *; try discriminate.
  - simplify_eq. simpl. tauto.
  - destruct Hst; subst; vm_compute in Hs; simplify_eq; simpl; tauto.
  - apply Z.eqb_eq in Hr. subst seen.
    destruct Hst; subst; vm_compute in Hs; simplify_eq; simpl; tauto.
Qed.

(** What a worker step does to the task's ownership. *)
Lemma worker_step_own t p nw pc t' n p' nw' pc' :
  worker_step t p nw pc = Some (t', n, p', nw', pc') ->
  Own (state t) 0 0 [pc] -> Own (state t') n 0 (option_list pc').
Proof.
  intros Hs Ho. inversion Ho as [|st pc0 Hst Hr| | |pc0 Hp|]; subst.
  - destruct pc; simpl in *; try discriminate Hr; simplify_eq; simpl;
      try (constructor; [done|]; done).
    + constructor; [done|]. by case_match.
    + destruct (claim_wait id t) as [t1|] eqn:Ec; simplify_eq; simpl; [|by constructor].
      unfold claim_wait in Ec. case_match; simplify_eq. by constructor.
    + destruct (waker_step t pc) as [[t1 n1] pc1] eqn:E. simplify_eq.
      destruct (self_wake_running _ _ _ _ _ E Hst Hr) as (-> & ? & ? & ? & Hn).
      simpl. constructor; [done|]. by destruct pc1.
    + case_match eqn:E; simplify_eq; simpl; constructor; auto.
      unfold RUNNING in E. destruct Hst as [Hst|Hst]; rewrite Hst in *; done.
    + apply own_held; auto.
    + apply own_held; auto.
    + apply own_done.
  - destruct Hp as [->| ->]; simpl in Hs; simplify_eq; simpl.
    + constructor; [auto|]. by destruct p'.
    + rewrite <- H. constructor.
Qed.

Lemma co_step_own t p o a t' p' pc' :
  co_step t p o a = Some (t', p', pc') ->
  state t' = state t /\ running_pc (state t) pc' = true.
Proof.
  intros H. destruct a, o as [[? ?]|]; simpl in H; try discriminate; try case_match; simplify_eq; auto.
  unfold claim_wait. split; [by case_match|done].
Qed.

Lemma own_one st q k wk1 pc wk2 :
  Own st q k (wk1 ++ pc :: wk2) -> q = 0%nat /\ k = 0%nat /\ wk1 = [] /\ wk2 = [] /\ Own st 0 0 [pc].
Proof.
  intros Ho. inversion Ho as [|st' pc0 Hst Hr| | |pc0 Hp|]; subst;
    try (exfalso; by eapply app_cons_not_nil');
    match goal with H : _ = wk1 ++ pc :: wk2 |- _ =>
      symmetry in H; apply app_cons_singleton in H as (-> & -> & ->) end;
    repeat split; try done; by constructor.
Qed.

Lemma cancel_step_state t pc t' nx : cancel_step t pc = (t', nx) -> state t' = state t.
Proof.
  destruct pc; simpl; unfold claim_wait; intros; repeat case_match; by simplify_eq.
Qed.

(** Every step keeps it. *)
Lemma inv_own_step s s' : InvOwn s -> step s s' -> InvOwn s'.
Proof.
  intros [Ho Hc] Hs. destruct Hs; simpl in *.
  - split; simpl; [done|]. by constructor.
  - apply Forall_mid in Hc as [Hpc Hc].
    rewrite pushes_app in Ho. change (pc :: ws2) with ([pc] ++ ws2) in Ho. rewrite pushes_app in Ho.
    replace (pushes ws1 + (pushes [pc] + pushes ws2))%nat
      with (pushes [pc] + (pushes ws1 + pushes ws2))%nat in Ho by lia.
    destruct (waker_step_own _ _ _ _ _ _ _ _ H Hpc Ho) as [Ho' Hc'].
    split; simpl.
    + rewrite !pushes_app. by replace (pushes ws1 + (pushes (option_list pc') + pushes ws2))%nat
        with (pushes (option_list pc') + (pushes ws1 + pushes ws2))%nat by lia.
    + rewrite Forall_app in Hc |- *. rewrite Forall_app. tauto.
  - split; simpl; done.
  - split; simpl.
    + rewrite (cancel_step_state _ _ _ _ H). by destruct nx.
    + destruct nx; [done..|]. by constructor.
  - inversion Ho; subst; try lia. split; simpl; [|done].
    match goal with E : 2 = state t, E2 : _ = pushes ws |- _ => rewrite <- E, <- E2 end. by apply own_held; left.
  - apply own_one in Ho as (-> & Hk & -> & -> & Ho). split; simpl; [|done].
    rewrite app_nil_r, Hk. eapply worker_step_own; eauto.
  - apply own_one in Ho as (-> & Hk & -> & -> & Ho). split; simpl; [|done].
    destruct (co_step_own _ _ _ _ _ _ _ H) as [-> Hr]. rewrite Hk.
    inversion Ho as [|st' pc0 Hst Hr0| | |pc0 Hp|]; subst; [by constructor|].
    destruct Hp; discriminate.
  - by split.
Qed.

(** ** No wake-up is lost *)

(** The worker has begun a wait and not suspended in it yet. *)
Definition begun (pc : WorkerPc) : bool :=
  match pc with
  | WRun (Some _) | BCheck _ _ | BClaim _ _ | WSuspWait => true
  | _ => false
  end.

(** The wait is open, or a thread that claimed it has yet to notify the task. *)
Definition covered (s : Sys) : Prop := wait (task s) <> 0 \/ wakers s <> [].

Record InvWake (s : Sys) : Prop := {
  wake_parked : state (task s) = 0 -> covered s;
  wake_begun : forall pc, workers s = [pc] -> begun pc = true -> state (task s) = 3 \/ covered s;
  wake_ids : 0 < next_wait s;
}.

(** A waker that returns leaves the task notified or done, unless it pushed it. *)
Lemma waker_exit t pc t' n pc' :
  waker_step t pc = (t', n, pc') -> cas_ok pc ->
  state t = 0 \/ state t = 1 \/ state t = 2 \/ state t = 3 \/ state t = 4 ->
  wait t' = wait t /\ (state t = 3 -> state t' = 3) /\ (state t' = 0 -> state t = 0) /\
  (pc' = None -> is_push pc = false -> state t' <> 0 /\ state t' <> 1).
Proof.
  intros Hs Hc Hst. destruct t as [st w wk cd cl]; simpl in *.
  destruct pc as [v| |seen|]; simpl in *.
  - simplify_eq. simpl. naive_solver.
  - simplify_eq. simpl. destr; subst; vm_compute; intuition congruence.
  - destr; subst; vm_compute in Hs; simplify_eq; simpl; intuition congruence.
  - simplify_eq. simpl. naive_solver.
Qed.

Lemma own_no_push st q ws wk :
  Own st q (pushes ws) wk -> st <> 2 -> Forall (fun pc => is_push pc = false) ws.
Proof.
  intros Ho Hn. assert (pushes ws = 0%nat) as Hp by (inversion Ho; subst; congruence || done).
  clear Ho. induction ws as [|pc ws IH]; constructor.
  - destruct pc; done.
  - apply IH. unfold pushes in *. simpl in Hp. destruct (is_push pc); simpl in *; [lia|done].
Qed.

Lemma own_begun st q k wk pc : Own st q k wk -> wk = [pc] -> begun pc = true -> st = 1 \/ st = 3.
Proof.
  intros Ho -> Hb. inversion Ho as [|st' pc0 Hst Hr| | |pc0 Hp|]; subst; [done|].
  destruct Hp; subst; discriminate.
Qed.

Lemma inv_wake_worker t p nw pc t' n p' nw' pc' ws cs :
  worker_step t p nw pc = Some (t', n, p', nw', pc') ->
  Own (state t) 0 0 [pc] ->
  InvWake (mkSys t 0 ws cs [pc] p nw) ->
  InvWake (mkSys t' n ws cs (option_list pc') p' nw').
Proof.
  intros Hs Ho [Hp Hb Hi]. unfold covered in *. simpl in *. specialize (Hb _ eq_refl).
  assert (forall pc0 pc1 : WorkerPc, [pc0] = [pc1] -> pc0 = pc1) as Hinj by congruence.
  inversion Ho as [|st pc0 Hst Hr| | |pc0 Hp0|]; subst.
  - destruct pc; simpl in *; try discriminate Hr; simplify_eq; simpl.
    all: try (split; simpl; [lia|intros ? <-%Hinj; discriminate|lia]).
    + split; simpl; [lia| |lia]. unfold covered; simpl. intros. right. left. lia.
    + split; simpl; [lia| |done]. unfold covered; simpl. intros. by apply Hb.
    + destruct (claim_wait id t) eqn:Ec; simplify_eq; simpl.
      * unfold claim_wait in Ec. case_match; simplify_eq.
        split; simpl; [lia| |done]. intros ? <-%Hinj. discriminate.
      * split; simpl; [lia| |done]. unfold covered; simpl. intros. by apply Hb.
    + destruct (waker_step t pc) as [[t1 n1] pc1] eqn:E. simplify_eq.
      destruct (self_wake_running _ _ _ _ _ E Hst Hr) as (-> & ? & ? & ? & Hn).
      split; simpl; [lia| |done]. intros ? <-%Hinj. destruct pc1; [discriminate|auto].
    + case_match eqn:E; simplify_eq; simpl.
      * apply Z.eqb_eq in E. unfold RUNNING in E.
        split; simpl; [|discriminate|done]. intros _. unfold covered; simpl.
        destruct Hb as [?|?]; auto. lia.
      * split; simpl; [lia| |done]. intros ? <-%Hinj. discriminate.
    + split; simpl; [discriminate|intros ? <-%Hinj; discriminate|done].
    + split; simpl; [discriminate|intros ? <-%Hinj; discriminate|done].
    + split; simpl; [discriminate|discriminate|done].
  - destruct Hp0 as [->| ->]; simpl in Hs; simplify_eq; simpl.
    + split; simpl; [discriminate| |done]. intros ? <-%Hinj. destruct p'; discriminate.
    + split; simpl; [congruence|discriminate|done].
Qed.

Lemma inv_wake_waker t q ws1 pc ws2 cs wk p nw t' n pc' :
  waker_step t pc = (t', n, pc') ->
  InvOwn (mkSys t q (ws1 ++ pc :: ws2) cs wk p nw) ->
  InvWake (mkSys t q (ws1 ++ pc :: ws2) cs wk p nw) ->
  InvWake (mkSys t' (q + n) (ws1 ++ option_list pc' ++ ws2) cs wk p nw).
Proof.
  intros H Hown [Hp Hb Hi].
  assert (InvOwn (mkSys t' (q + n) (ws1 ++ option_list pc' ++ ws2) cs wk p nw)) as [Ho' _].
  { eapply inv_own_step; [exact Hown|by constructor]. }
  destruct Hown as [Ho Hc]. unfold covered in *. simpl in *.
  pose proof (own_state _ _ _ _ Ho) as Hst. apply Forall_mid in Hc as [Hpc Hc].
  destruct (waker_exit _ _ _ _ _ H Hpc Hst) as (Hw & H3 & H0 & Hx).
  assert (state t <> 2 -> pc' = None -> state t' <> 0 /\ state t' <> 1) as Hx'.
  { intros Hn He. apply Hx; [done|]. pose proof (own_no_push _ _ _ _ Ho Hn) as Hf.
    by apply Forall_mid in Hf as [Hf _]. }
  assert (pc' <> None -> ws1 ++ option_list pc' ++ ws2 <> []) as Hne.
  { intros Hn. destruct pc'; [by destruct ws1|done]. }
  split; unfold covered; simpl; [| |done].
  - intros H0'. specialize (H0 H0'). rewrite Hw.
    destruct (decide (pc' = None)) as [He|He]; [|auto].
    destruct (Hx' ltac:(lia) He). congruence.
  - intros pc0 -> Hbg. pose proof (own_begun _ _ _ _ _ Ho eq_refl Hbg) as Hr.
    rewrite Hw. destruct (decide (pc' = None)) as [He|He]; [|auto].
    destruct (Hx' ltac:(lia) He) as [? ?].
    destruct (own_begun _ _ _ _ _ Ho' eq_refl Hbg); [congruence|auto].
Qed.

Lemma inv_wake_co t p o a t' p' pc' q ws cs nw :
  co_step t p o a = Some (t', p', pc') ->
  Own (state t) 0 0 [WRun o] ->
  InvWake (mkSys t q ws cs [WRun o] p nw) ->
  InvWake (mkSys t' q ws cs [pc'] p' nw).
Proof.
  intros H Ho [Hp Hb Hi]. unfold covered in *. simpl in *. specialize (Hb _ eq_refl).
  assert (state t = 1 \/ state t = 3) as Hr.
  { inversion Ho as [|? ? Hst ?| | |? Hp0|]; [done|]. destruct Hp0; discriminate. }
  assert (state t' = state t) as E by (eapply co_step_own; eauto).
  assert (begun pc' = true -> o <> None /\ t' = t) as Hbg.
  { destruct a, o as [[? ?]|]; simpl in H; try discriminate; try case_match; simplify_eq; done. }
  split; unfold covered; simpl; [lia| |done].
  intros pc0 [= <-] Hb'. destruct (Hbg Hb') as [? ->]. apply Hb. by destruct o.
Qed.

Lemma inv_wake_step s s' : InvOwn s -> InvWake s -> step s s' -> InvWake s'.
Proof.
  intros Hown Hwake Hs. destruct Hs.
  - destruct Hwake as [Hp Hb Hi]. split; simpl; [| |done]; right; [|right]; done.
  - by eapply inv_wake_waker.
  - destruct Hwake as [Hp Hb Hi]. by split.
  - destruct Hwake as [Hp Hb Hi]. assert (state t' = state t) as E by eauto using cancel_step_state.
    assert (nx = CWake \/ wait t' = wait t) as Hw.
    { destruct pc; simpl in H; unfold claim_wait in H; repeat case_match; simplify_eq; auto. }
    unfold covered in *. simpl in *.
    split; unfold covered; simpl; rewrite ?E; [| |done].
    + intros H0. destruct Hw as [->|Hw]; [by right|]. rewrite Hw. destruct nx; auto.
    + intros pc0 Hwk Hbg. destruct Hw as [->|Hw]; [by right; right|]. rewrite Hw.
      destruct nx; eauto.
  - destruct Hown as [Ho _], Hwake as [Hp Hb Hi]. simpl in *.
    split; simpl; [done| |done]. intros pc0 [= <- _]. discriminate.
  - destruct Hown as [Ho _]. simpl in Ho. apply own_one in Ho as (-> & _ & -> & -> & Ho).
    rewrite app_nil_r. simpl in *. by eapply inv_wake_worker.
  - destruct Hown as [Ho _]. simpl in Ho. apply own_one in Ho as (-> & _ & -> & -> & Ho).
    simpl in *. by eapply inv_wake_co.
  - destruct Hwake as [Hp Hb Hi]. split; simpl in *; auto. lia.
Qed.

(** ** Cancelling reaches every cancellable wait *)

(** The worker is inside [begin_wait], between storing [cancellable] and the
    check of [cancelled] (or the claim it leads to). *)
Definition mid (pc : WorkerPc) : bool :=
  match pc with BStoreWait _ | BCheck _ _ | BClaim _ _ => true | _ => false end.

Definition mid_ok (t : Task) (pc : WorkerPc) : Prop :=
  match pc with
  | BStoreWait c => cancellable t = c
  | BCheck id c | BClaim id c => cancellable t = c /\ (wait t = id \/ wait t = 0)
  | _ => True
  end.

(** A canceller that will still claim the wait [w]. *)
Definition will_claim (w : Z) (pc : CancelPc) : Prop :=
  pc = CLoadWait \/ pc = CLoadCancellable w \/ pc = CClaim w.

Record InvCancel (s : Sys) : Prop := {
  canc_open : cancelled (task s) = true -> cancellable (task s) = true -> wait (task s) <> 0 ->
    (exists pc, workers s = [pc] /\ mid pc = true) \/ Exists (will_claim (wait (task s))) (cancels s);
  canc_mid : forall pc, workers s = [pc] -> mid_ok (task s) pc;
}.

Lemma waker_step_keeps t pc t' n pc' :
  waker_step t pc = (t', n, pc') ->
  wait t' = wait t /\ cancelled t' = cancelled t /\ cancellable t' = cancellable t.
Proof. destruct pc; simpl; intros; repeat case_match; simplify_eq; done. Qed.

Lemma mid_ok_same t t' pc :
  (wait t' = wait t \/ wait t' = 0) -> cancellable t' = cancellable t -> mid_ok t pc -> mid_ok t' pc.
Proof.
  destruct pc; simpl; intros [Hw|Hw] Hc; rewrite ?Hw, ?Hc; intuition congruence.
Qed.

Lemma Exists_mid {A} (P : A -> Prop) l1 x l2 :
  Exists P (l1 ++ x :: l2) <-> P x \/ Exists P (l1 ++ l2).
Proof. rewrite !Exists_app, Exists_cons. tauto. Qed.

Lemma inv_cancel_cancel t q ws cs1 pc cs2 wk p nw t' nx ws' :
  cancel_step t pc = (t', nx) ->
  InvCancel (mkSys t q ws (cs1 ++ pc :: cs2) wk p nw) ->
  InvCancel (mkSys t' q ws' (cs1 ++ (if nx is CAt pc' then [pc'] else []) ++ cs2) wk p nw).
Proof.
  intros H [Ho Hm]. simpl in *. rewrite Exists_mid in Ho.
  assert (forall pc', Exists (will_claim (wait t')) (cs1 ++ [pc'] ++ cs2) <->
    will_claim (wait t') pc' \/ Exists (will_claim (wait t')) (cs1 ++ cs2)) as Hex.
  { intros pc'. simpl. apply Exists_mid. }
  destruct pc as [|w|w]; simpl in H.
  - case_match eqn:E; simplify_eq; (split; simpl; [|done]).
    + apply Z.eqb_eq in E. congruence.
    + intros Hd Hc Hw. destruct (Ho Hd ltac:(done) Hw) as [?|[?|?]]; [by left|..]; right; apply Hex; [|by right].
      left. right. by left.
  - case_match eqn:E; simplify_eq; (split; simpl; [|done]).
    + intros Hd Hc Hw. destruct (Ho Hd ltac:(done) Hw) as [?|[Hx|?]]; [by left|..]; right; apply Hex; [|by right].
      destruct Hx as [?|[?|?]]; simplify_eq. left. right. by right.
    + congruence.
  - destruct (claim_wait_spec w t) as [[E Hcl]|[E Hcl]]; rewrite Hcl in H; simplify_eq;
      (split; simpl; [try done|]).
    + intros pc0 Hpc0. eapply mid_ok_same; [..|by apply Hm]; auto.
    + intros Hd Hc Hw.
      destruct (Ho Hd ltac:(done) Hw) as [?|[Hx|?]]; [by left| |by right].
      destruct Hx as [?|[?|?]]; simplify_eq.
    + done.
Qed.

Lemma inv_cancel_worker t p nw pc t' n p' nw' pc' ws cs q :
  worker_step t p nw pc = Some (t', n, p', nw', pc') ->
  InvCancel (mkSys t q ws cs [pc] p nw) ->
  InvCancel (mkSys t' (q + n) ws cs (option_list pc') p' nw').
Proof.
  intros Hs [Ho Hm]. simpl in *. specialize (Hm _ eq_refl).
  assert (mid pc = false -> cancelled t = true -> cancellable t = true -> wait t <> 0 ->
          Exists (will_claim (wait t)) cs) as Hex.
  { intros Hn Hd Hc Hw. destruct (Ho Hd Hc Hw) as [(pc0 & [= <-] & ?)|?]; [congruence|done]. }
  destruct pc; simpl in *; try discriminate; simplify_eq; simpl.
  all: try (split; simpl; [auto|by intros ? [= <-]]; fail).
  - split; simpl; [auto|]. intros ? [= <-]. by destruct p'.
  - split; simpl; [|by intros ? [= <-]]. intros. left. eauto.
  - split; simpl; [|intros ? [= <-]; simpl; auto]. intros. left. eauto.
  - destruct Hm as [Hc Hw]. destruct (c && cancelled t') eqn:E.
    + split; simpl; [intros; left; eauto|intros ? [= <-]; done].
    + split; simpl; [|by intros ? [= <-]].
      intros Hd Hcl. apply andb_false_iff in E as [E|E]; congruence.
  - destruct Hm as [Hc Hw].
    destruct (claim_wait_spec id t) as [[E Hcl]|[E Hcl]]; rewrite Hcl in Hs; simplify_eq; simpl.
    + split; simpl; [done|by intros ? [= <-]].
    + split; simpl; [naive_solver|by intros ? [= <-]].
  - destruct (waker_step t pc) as [[t1 n1] pc1] eqn:E. simplify_eq.
    destruct (waker_step_keeps _ _ _ _ _ E) as (Ew & Ed & Ec).
    split; simpl; rewrite ?Ew, ?Ed, ?Ec; [auto|]. intros ? [= <-]. by destruct pc1.
  - case_match; simplify_eq; (split; simpl; [auto|]); [done|by intros ? [= <-]].
Qed.

Lemma inv_cancel_step s s' : InvOwn s -> InvCancel s -> step s s' -> InvCancel s'.
Proof.
  intros [Hown _] Hinv Hs. destruct Hs; simpl in Hown.
  - destruct Hinv as [Ho Hm]. split; simpl; [done|].
    intros pc Hpc. eapply mid_ok_same; [..|by apply Hm]; auto.
  - destruct Hinv as [Ho Hm]. simpl in *.
    destruct (waker_step_keeps _ _ _ _ _ H) as (Ew & Ed & Ec).
    split; simpl; rewrite ?Ew, ?Ed, ?Ec; [done|].
    intros pc0 Hpc. eapply mid_ok_same; [..|by apply Hm]; auto.
  - destruct Hinv as [Ho Hm]. split; simpl; [|done].
    intros. right. left. by left.
  - by eapply inv_cancel_cancel.
  - destruct Hinv as [Ho Hm]. inversion Hown; subst. split; simpl in *; [|by intros ? [= <-]].
    intros Hd Hc Hw. destruct (Ho Hd Hc Hw) as [(? & ? & ?)|?]; [done|by right].
  - apply own_one in Hown as (-> & _ & -> & -> & _). rewrite app_nil_r. simpl in *.
    by eapply (inv_cancel_worker _ _ _ _ _ _ _ _ _ _ _ 0).
  - apply own_one in Hown as (-> & _ & -> & -> & _). simpl in *. destruct Hinv as [Ho Hm]. simpl in *.
    assert (mid pc' = false /\ cancelled t' = cancelled t /\ cancellable t' = cancellable t /\
            (wait t' = wait t \/ wait t' = 0)) as (Hmid & Ed & Ec & Ew).
    { destruct a, o as [[? ?]|]; simpl in H; try discriminate; try case_match; simplify_eq; auto.
      unfold claim_wait. by case_match; simpl; auto. }
    split; simpl; rewrite ?Ed, ?Ec.
    + intros Hd Hc Hw. destruct Ew as [Ew|Ew]; [|congruence]. rewrite Ew in *.
      destruct (Ho Hd Hc Hw) as [(? & [= <-] & ?)|?]; [done|by right].
    + intros ? [= <-]. by destruct pc'.
  - destruct Hinv as [Ho Hm]. by split.
Qed.

(** ** Running a schedule *)

Inductive Act :=
  | AClaim (v : Woke) | AWaker (i : nat) | ACancelSet | ACancel (i : nat)
  | APop | AWorker | ACo (a : CoAct).

(** One chosen step, computed; [None] if it isn't enabled. *)
Definition act (a : Act) (s : Sys) : option Sys :=
  let 'mkSys t q ws cs wk p nw := s in
  match a with
  | AClaim v =>
      if (wait t =? 0) || bool_decide (v = Cancelled) then None
      else Some (mkSys (set_wait 0 t) q (WStoreWoke v :: ws) cs wk p nw)
  | AWaker i =>
      pc ← ws !! i;
      let '(t', n, pc') := waker_step t pc in
      Some (mkSys t' (q + n) (take i ws ++ option_list pc' ++ drop (S i) ws) cs wk p nw)
  | ACancelSet => Some (mkSys (set_cancelled true t) q ws (CLoadWait :: cs) wk p nw)
  | ACancel i =>
      pc ← cs !! i;
      let '(t', nx) := cancel_step t pc in
      Some (mkSys t' q (if nx is CWake then WStoreWoke Cancelled :: ws else ws)
              (take i cs ++ (if nx is CAt pc' then [pc'] else []) ++ drop (S i) cs) wk p nw)
  | APop => if q is S q then Some (mkSys t q ws cs (WPopped :: wk) p nw) else None
  | AWorker =>
      match wk with
      | pc :: wk2 =>
          '(t', n, p', nw', pc') ← worker_step t p nw pc;
          Some (mkSys t' (q + n) ws cs (option_list pc' ++ wk2) p' nw')
      | [] => None
      end
  | ACo a =>
      match wk with
      | WRun o :: wk2 =>
          '(t', p', pc') ← co_step t p o a;
          Some (mkSys t' q ws cs (pc' :: wk2) p' nw)
      | _ => None
      end
  end.

Fixpoint run_acts (l : list Act) (s : Sys) : option Sys :=
  match l with [] => Some s | a :: l => s' ← act a s; run_acts l s' end.

Lemma act_step a s s' : act a s = Some s' -> step s s'.
Proof.
  destruct s as [t q ws cs wk p nw]. destruct a; simpl; intros H.
  - case_match eqn:E; simplify_eq. apply orb_false_iff in E as [E1 E2].
    apply Z.eqb_neq in E1. apply bool_decide_eq_false in E2. by econstructor.
  - destruct (ws !! i) as [pc|] eqn:E; simplify_eq/=.
    destruct (waker_step t pc) as [[t' n] pc'] eqn:E'. simplify_eq.
    rewrite <- (take_drop_middle ws i pc E) at 1. by constructor.
  - simplify_eq. constructor.
  - destruct (cs !! i) as [pc|] eqn:E; simplify_eq/=.
    destruct (cancel_step t pc) as [t' nx] eqn:E'. simplify_eq.
    rewrite <- (take_drop_middle cs i pc E) at 1. by constructor.
  - destruct q; simplify_eq. constructor.
  - destruct wk as [|pc wk2]; simplify_eq/=.
    destruct (worker_step t p nw pc) as [[[[[t' n] p'] nw'] pc']|] eqn:E; simplify_eq/=.
    by apply (step_worker t q ws cs [] pc wk2).
  - destruct wk as [|[] wk2]; simplify_eq/=.
    destruct (co_step t p o a) as [[[t' p'] pc']|] eqn:E; simplify_eq/=.
    by apply (step_co t q ws cs [] o wk2 p nw a).
Qed.

Lemma run_acts_reachable l s : run_acts l init = Some s -> reachable s.
Proof.
  unfold reachable. generalize init. induction l as [|a l IH]; simpl; intros s0 H.
  - simplify_eq. constructor.
  - destruct (act a s0) as [s1|] eqn:E; simplify_eq/=. econstructor; eauto using act_step.
Qed.

Lemma inv_own_init : InvOwn init.
Proof. split; simpl; [apply own_queued|constructor]. Qed.

Lemma reachable_inv s : reachable s -> InvOwn s /\ InvWake s /\ InvCancel s.
Proof.
  intros Hr. eapply (rtc_invariant step (fun s => InvOwn s /\ InvWake s /\ InvCancel s)); [|exact Hr|].
  - intros x y (?&?&?) ?. eauto 6 using inv_own_step, inv_wake_step, inv_cancel_step.
  - split; [apply inv_own_init|]. split; split; simpl; try done; discriminate.
Qed.

(** ** Properties *)

(** C1: however wake-ups, cancellations and workers interleave, a task is in at
    most one place: on one run queue, in the hands of one thread about to
    queue it, or held by one worker.  So its coroutine and timer (an
    [UnsafeCell] each) are never touched by two workers at once, and it is
    never resumed twice for one wake-up. *)
Theorem task_single_owner s :
  reachable s -> (queued s + pushes (wakers s) + length (workers s) <= 1)%nat.
Proof.
  intros [[Ho _] _]%reachable_inv. inversion Ho; subst; simpl; lia.
Qed.

(** Popped and run up to its first cancellable wait, and parked in it. *)
Definition park_acts : list Act :=
  [APop; AWorker; ACo (ActBegin true); AWorker; AWorker; AWorker; AWorker; ACo ActSuspend; AWorker].

Lemma task_single_owner_witness :
  exists s, run_acts [APop; AWorker] init = Some s /\
    (queued s + pushes (wakers s) + length (workers s) <= 1)%nat.
Proof.
  eexists. split; [reflexivity|]. apply task_single_owner.
  apply (run_acts_reachable [APop; AWorker]). reflexivity.
Defined.

(** C2: no wake-up is lost: a task that is parked (on no queue, held by nobody)
    with no waker still on its way is in a wait that is still open, so
    whoever it waits for can still wake it. *)
Theorem no_lost_wakeup s :
  reachable s -> state (task s) = 0 -> wakers s = [] -> wait (task s) <> 0.
Proof.
  intros (_ & [Hp _ _] & _)%reachable_inv H0 Hw. by destruct (Hp H0).
Qed.

Lemma no_lost_wakeup_witness :
  exists s, run_acts park_acts init = Some s /\ wait (task s) <> 0.
Proof.
  eexists. split; [reflexivity|].
  refine (no_lost_wakeup _ (run_acts_reachable park_acts _ eq_refl) eq_refl eq_refl).
Defined.

(** a wake-up that claimed a parked task's wait reaches a run queue: its
    remaining steps alone put the task on one. *)
Theorem wake_delivers s ws1 pc ws2 :
  reachable s -> state (task s) = 0 -> wakers s = ws1 ++ pc :: ws2 ->
  exists s', rtc step s s' /\ queued s' = 1%nat /\ state (task s') = NOTIFIED.
Proof.
  intros ([Ho Hc] & _ & _)%reachable_inv H0 Hw.
  destruct s as [t q ws cs wk p nw]. simpl in *. subst ws.
  pose proof (own_no_push _ _ _ _ Ho ltac:(lia)) as Hf. apply Forall_mid in Hf as [Hf _].
  apply Forall_mid in Hc as [Hc _].
  assert (q = 0%nat) as -> by (inversion Ho; subst; lia).
  assert (forall t q pc, rtc step (mkSys t q (ws1 ++ pc :: ws2) cs wk p nw)
    (mkSys (waker_step t pc).1.1 (q + (waker_step t pc).1.2)
           (ws1 ++ option_list (waker_step t pc).2 ++ ws2) cs wk p nw)) as Hstep.
  { intros t0 q0 pc0. apply rtc_once. constructor. by destruct (waker_step t0 pc0) as [[? ?] ?]. }
  assert (forall t, state t = 0 -> exists s',
    rtc step (mkSys t 0 (ws1 ++ WCas 0 :: ws2) cs wk p nw) s' /\ queued s' = 1%nat /\
    state (task s') = NOTIFIED) as Hcas.
  { intros t0 Ht0. eexists. split; [|split].
    - etransitivity; [apply Hstep|]. simpl. rewrite Ht0. simpl. apply Hstep.
    - simpl. done.
    - simpl. done. }
  assert (forall t, state t = 0 -> exists s',
    rtc step (mkSys t 0 (ws1 ++ WLoadState :: ws2) cs wk p nw) s' /\ queued s' = 1%nat /\
    state (task s') = NOTIFIED) as Hload.
  { intros t0 Ht0. destruct (Hcas t0 Ht0) as (s' & ? & ?). exists s'. split; [|done].
    etransitivity; [apply Hstep|]. simpl. by rewrite Ht0. }
  destruct pc as [v| |seen|]; simpl in Hf, Hc; [|by auto| |discriminate].
  - destruct (Hload (set_woke (woke_as_u8 v) t) H0) as (s' & ? & ?). exists s'. split; [|done].
    etransitivity; [apply Hstep|]. done.
  - destruct Hc as [->| ->]; [by auto|].
    destruct (Hcas t H0) as (s' & ? & ?). exists s'. split; [|done].
    etransitivity; [apply Hstep|]. simpl. by rewrite H0.
Qed.

Lemma wake_delivers_witness :
  exists s s', run_acts (park_acts ++ [AClaim Ready]) init = Some s /\
    rtc step s s' /\ queued s' = 1%nat /\ state (task s') = NOTIFIED.
Proof.
  eexists.
  destruct (wake_delivers _ [] (WStoreWoke Ready) []
    (run_acts_reachable (park_acts ++ [AClaim Ready]) _ eq_refl) eq_refl eq_refl) as (s' & Hs').
  exists s'. split; [reflexivity|exact Hs'].
Defined.

(** C3: cancelling works: once every [cancel] call and wake-up under way has
    finished, a cancelled task is not parked in a wait that may be ended by
    cancelling, however the cancel raced with the start of the wait. *)
Theorem cancelled_task_not_parked s :
  reachable s -> cancelled (task s) = true -> cancels s = [] -> wakers s = [] ->
  state (task s) = 0 -> cancellable (task s) = false.
Proof.
  intros ([Ho _] & [Hp _ _] & [Hopen _])%reachable_inv Hd Hcs Hws H0.
  destruct (cancellable (task s)) eqn:Hc; [|done]. exfalso.
  assert (wait (task s) <> 0) as Hw by (by destruct (Hp H0)).
  destruct (Hopen Hd eq_refl Hw) as [(pc & Hwk & _)|Hex].
  - rewrite Hwk, H0 in Ho. inversion Ho; subst. lia.
  - rewrite Hcs in Hex. by inversion Hex.
Qed.

(** Cancelled in between the store of the wait id and the check, then parked in
    an uncancellable wait. *)
Definition cancel_acts : list Act :=
  [APop; AWorker; ACo (ActBegin false); AWorker; AWorker; AWorker; ACancelSet; AWorker;
   ACo ActSuspend; AWorker; ACancel 0; ACancel 0].

Lemma cancelled_task_not_parked_witness :
  exists s, run_acts cancel_acts init = Some s /\ cancellable (task s) = false.
Proof.
  eexists. split; [reflexivity|].
  refine (cancelled_task_not_parked _ (run_acts_reachable cancel_acts _ eq_refl)
            eq_refl eq_refl eq_refl eq_refl).
Defined.

(** The cancel claims a cancellable wait just begun and is held up before it
    stores how the wait ended; the task's [park] returns at once and the
    task starts an uncancellable wait; only then does the store land. *)
Definition stale_acts : list Act :=
  [APop; AWorker; ACo (ActBegin true); AWorker; AWorker; AWorker; AWorker;
   ACancelSet; ACancel 0; ACancel 0; ACancel 0;
   ACo ActParkEarly; ACo (ActBegin false); AWorker; AWorker; AWorker; AWorker;
   AWaker 0; AWaker 0; AWaker 0; ACo ActSuspend; AWorker; AWorker; AWorker;
   APop; AWorker; AWorker].

(** [wake] claims the wait and stores how it ended in two steps, so the
    store can land in the task's next wait: a wait begun as not cancellable
    can report [Cancelled].  ([TaskRef::wait_finished(false)] then returns
    before the task it waits for has finished.) *)
Theorem stale_cancel_reported :
  exists s id, reachable s /\ workers s = [WReturned id false Cancelled].
Proof.
  destruct (run_acts stale_acts init) as [s|] eqn:E; [|discriminate E].
  exists s, 2. split; [by eapply run_acts_reachable|].
  vm_compute in E. by simplify_eq.
Qed.
