(* ===== verification/Waiters.v ===== *)
(** * [sched::Waiters]: tasks waiting for a condition ([src/sched.rs])

    The list of wakers kept inside the state a condition is about.  Ending a
    wait is the scheduler's business, so it is an interface here
    ([WakeWorld]): [wake] says whether the wait was still open, and after it
    that wait is closed and no other changed. *)
From S2P Require Import Prelude.
Local Open Scope Z_scope.

(** [TaskWaker]: one particular wait of a task, or a plain thread. *)
Inductive TaskWaker :=
  | WTask (task : nat) (wait : Z)
  | WThread (thread : nat).

#[export] Instance TaskWaker_eq_dec : EqDecision TaskWaker.
Proof. solve_decision. Defined.

(** What ending waits does to the world outside the list. *)
Class WakeWorld (W : Type) := {
  is_open : TaskWaker -> W -> bool;
  wake : TaskWaker -> W -> W * bool;
}.

(** [wake] returns whether the wait was open, closes it, and leaves every
    other wait as it was. *)
Class WakeLaws (W : Type) `{WakeWorld W} := {
  wake_open k w : (wake k w).2 = is_open k w;
  wake_closed_id k w : is_open k w = false -> (wake k w).1 = w;
  wake_other k k' w : k <> k' -> is_open k' (wake k w).1 = is_open k' w;
}.

(** ** The list *)

Record Waiters := mkWaiters {
  entries : list (Z * TaskWaker);
  next : Z;
}.

Definition Waiters_new : Waiters := mkWaiters [] 0.

Definition add_waker (k : TaskWaker) (ws : Waiters) : Waiters * Z :=
  let n := next ws + 1 in
  (mkWaiters (entries ws ++ [(n, k)]) n, n).

Definition remove (id : Z) (ws : Waiters) : Waiters :=
  mkWaiters (List.filter (fun e => negb (e.1 =? id)) (entries ws)) (next ws).

Definition next_id (ws : Waiters) : Z := next ws + 1.

Section Waking.
Context {W : Type} `{WakeWorld W}.

(** [while let Some((_, waker)) = self.list.pop_front()
     { if waker.wake() { return; } }] *)
Fixpoint wake_one_list (l : list (Z * TaskWaker)) (w : W) : list (Z * TaskWaker) * W :=
  match l with
  | [] => ([], w)
  | (_, k) :: l => let '(w', hit) := wake k w in
                   if hit then (l, w') else wake_one_list l w'
  end.

Definition wake_one (ws : Waiters) (w : W) : Waiters * W :=
  let '(l, w') := wake_one_list (entries ws) w in (mkWaiters l (next ws), w').

Fixpoint wake_list (l : list (Z * TaskWaker)) (w : W) : W :=
  match l with [] => w | (_, k) :: l => wake_list l (wake k w).1 end.

Definition wake_all (ws : Waiters) (w : W) : Waiters * W :=
  (mkWaiters [] (next ws), wake_list (entries ws) w).

(** [self.list.iter().take_while(|(id, _)| *id < first).count()] *)
Fixpoint keep_count (first : Z) (l : list (Z * TaskWaker)) : nat :=
  match l with
  | [] => 0
  | (id, _) :: l => if id <? first then S (keep_count first l) else 0
  end.

Definition wake_from (first : Z) (ws : Waiters) (w : W) : Waiters * W :=
  let keep := keep_count first (entries ws) in
  (mkWaiters (take keep (entries ws)) (next ws), wake_list (drop keep (entries ws)) w).

End Waking.

(** ** Well-formed lists: ids go up, and none is above [next]. *)

Definition ids (ws : Waiters) : list Z := (entries ws).*1.

Fixpoint increasing (lo : Z) (l : list Z) : Prop :=
  match l with [] => True | x :: l => lo < x /\ increasing x l end.

Record Wf (ws : Waiters) : Prop := {
  wf_inc : increasing 0 (ids ws);
  wf_next : Forall (fun i => i <= next ws) (ids ws);
  wf_pos : 0 <= next ws;
}.

Lemma increasing_weaken lo lo' l : lo' <= lo -> increasing lo l -> increasing lo' l.
Proof. destruct l; simpl; intuition lia. Qed.

Lemma increasing_lower lo l : increasing lo l -> Forall (fun x => lo < x) l.
Proof.
  revert lo. induction l as [|x l IH]; simpl; intros lo; [constructor|].
  intros [? Hi]. constructor; [done|]. eapply Forall_impl; [by apply IH|]. simpl. lia.
Qed.

Lemma increasing_snoc lo l x :
  increasing lo l -> lo < x -> Forall (fun i => i < x) l -> increasing lo (l ++ [x]).
Proof.
  revert lo. induction l as [|y l IH]; simpl; intros lo; [auto|].
  intros [? Hi] ? [? ?]%Forall_cons. auto.
Qed.

Lemma increasing_filter lo f l : increasing lo l -> increasing lo (List.filter f l).
Proof.
  revert lo. induction l as [|y l IH]; simpl; intros lo; [auto|].
  intros [? Hi]. destruct (f y); simpl; [auto|].
  eapply increasing_weaken; [|by apply IH]. lia.
Qed.

Lemma increasing_drop lo n l : increasing lo l -> increasing lo (drop n l).
Proof.
  revert lo n. induction l as [|y l IH]; intros lo [|n]; simpl; try done.
  intros [? Hi]. eapply increasing_weaken; [|by apply IH]. lia.
Qed.

Lemma increasing_take lo n l : increasing lo l -> increasing lo (take n l).
Proof.
  revert lo n. induction l as [|y l IH]; intros lo [|n]; simpl; try done.
  intros [? Hi]. auto.
Qed.

Lemma filter_fst (f : Z -> bool) (l : list (Z * TaskWaker)) :
  (List.filter (fun e => f e.1) l).*1 = List.filter f l.*1.
Proof. induction l as [|[i k] l IH]; simpl; [done|]. destruct (f i); simpl; [f_equal|]; apply IH. Qed.

Lemma Waiters_new_wf : Wf Waiters_new.
Proof. split; simpl; [done|constructor|lia]. Qed.

Lemma add_waker_wf k ws : Wf ws -> Wf (add_waker k ws).1.
Proof.
  intros [Hi Hn Hp]. unfold add_waker, ids in *. split; simpl; [| |lia]; unfold ids; simpl;
    rewrite fmap_app; simpl.
  - apply increasing_snoc; [done|lia|]. eapply Forall_impl; [done|]. simpl. lia.
  - apply Forall_app. split; [|by constructor].
    eapply Forall_impl; [done|]. simpl. lia.
Qed.

Lemma remove_wf id ws : Wf ws -> Wf (remove id ws).
Proof.
  intros [Hi Hn Hp]. unfold remove, ids in *. split; unfold ids; simpl; [| |done];
    rewrite (filter_fst (fun i => negb (i =? id))).
  - by apply increasing_filter.
  - rewrite Forall_forall in Hn |- *. intros x Hx. apply Hn.
    rewrite list_elem_of_In, List.filter_In in Hx. rewrite list_elem_of_In. tauto.
Qed.

#[export] Hint Resolve Waiters_new_wf add_waker_wf remove_wf : roc.

Section WakingFacts.
Context {W : Type} `{WakeLaws W}.

(** [wake_one] drops exactly the closed entries before the first open one,
    and that one. *)
Lemma wake_one_list_split (l : list (Z * TaskWaker)) (w : W) :
  (exists l1 id k l2, l = l1 ++ (id, k) :: l2 /\
     Forall (fun e => is_open e.2 w = false) l1 /\ is_open k w = true /\
     wake_one_list l w = (l2, (wake k w).1)) \/
  (Forall (fun e => is_open e.2 w = false) l /\ wake_one_list l w = ([], w)).
Proof.
  induction l as [|[id k] l IH]; simpl; [by right|].
  pose proof (wake_open k w) as Hw. destruct (wake k w) as [w' hit] eqn:E. simpl in Hw. subst hit.
  destruct (is_open k w) eqn:Eo.
  - left. exists [], id, k, l. by rewrite E.
  - assert (w' = w) as ->. { pose proof (wake_closed_id k w Eo). by rewrite E in *. }
    destruct IH as [(l1 & id' & k' & l2 & -> & Hc & Ho & ->)|[Hc ->]].
    + left. exists ((id, k) :: l1), id', k', l2. split_and!; auto.
    + right. split; [by constructor|done].
Qed.

Lemma wake_one_wf ws (w : W) : Wf ws -> Wf (wake_one ws w).1.
Proof.
  intros [Hi Hn Hp]. unfold wake_one.
  destruct (wake_one_list_split (entries ws) w) as [(l1 & id & k & l2 & E & _ & _ & ->)|[_ ->]].
  - unfold ids in *. rewrite E, fmap_app in Hi, Hn. simpl in *.
    split; unfold ids; simpl; [| |done].
    + apply (increasing_drop _ (S (length l1))) in Hi.
      replace (S (length l1)) with (length (l1.*1) + 1)%nat in Hi by (rewrite length_fmap; lia).
      by rewrite drop_app_add in Hi.
    + apply Forall_app in Hn as [_ Hn]. by apply Forall_cons in Hn as [_ Hn].
  - split; simpl; [done|constructor|done].
Qed.

Lemma wake_all_wf ws (w : W) : Wf ws -> Wf (wake_all ws w).1.
Proof. intros [? ? ?]. split; simpl; [done|constructor|done]. Qed.

Lemma wake_from_wf first ws (w : W) : Wf ws -> Wf (wake_from first ws w).1.
Proof.
  intros [Hi Hn Hp]. unfold ids in *. split; unfold ids; simpl; [| |done]; rewrite fmap_take.
  - by apply increasing_take.
  - by apply Forall_take.
Qed.

(** Closing waits one after another leaves each of them closed. *)
Lemma wake_list_other l k (w : W) :
  k ∉ l.*2 -> is_open k (wake_list l w) = is_open k w.
Proof.
  revert w. induction l as [|[id k'] l IH]; simpl; intros w Hk; [done|].
  apply not_elem_of_cons in Hk as [Hne Hk].
  rewrite IH by done. apply wake_other. congruence.
Qed.

(** In a well-formed list, [wake_from]'s cut separates the ids below [first]
    from the rest. *)
Lemma keep_count_spec first lo l :
  increasing lo (l.*1) ->
  Forall (fun e : Z * TaskWaker => e.1 < first) (take (keep_count first l) l) /\
  Forall (fun e => first <= e.1) (drop (keep_count first l) l).
Proof.
  revert lo. induction l as [|[id k] l IH]; simpl; intros lo; [repeat constructor|].
  intros [Hlo Hi]. destruct (Z.ltb_spec id first); simpl.
  - destruct (IH _ Hi). split; [by constructor|done].
  - split; [constructor|]. constructor; [done|].
    apply increasing_lower in Hi. rewrite Forall_fmap in Hi.
    eapply Forall_impl; [done|]. simpl. lia.
Qed.

End WakingFacts.

#[export] Hint Resolve wake_one_wf wake_all_wf wake_from_wf : roc.
