(* ===== verification/Sema.v ===== *)
(** * The wait loop: units, waiters and wake-ups

    [sched::Lock], the helper-thread slots, [ResourceHeap::reserve] and both
    ends of a channel all wait the same way, under the mutex that guards the
    condition:
<<
      loop { if condition { take; break }
             let id = state.waiters.add(); drop(state);
             let end = sched::park(deadline);
             state = lock(); state.waiters.remove(id);
             if end == Cancelled { return .. } }
>>
    and whoever makes the condition true calls [wake_one].  This file is the
    abstract specification of that protocol, over the [Waiters] of
    [Waiters.v]: the system of a number of units and any number of tasks,
    each critical section one step.  Its theorem is that no task sleeps while
    a unit is there that nobody has been sent for.  The components refine
    it. *)
From S2P Require Import Prelude Waiters.
Local Open Scope Z_scope.

(** A task's wait: not waiting; suspended with its wait open; ended by a
    notification; ended otherwise (deadline or cancellation).  With the wait
    id and the task's id in the list of waiters. *)
Inductive St :=
  | Out
  | Parked (w id : Z)
  | Notified (w id : Z)
  | Stopped (w id : Z).

Definition st_id (s : St) : option Z :=
  match s with Out => None | Parked _ id | Notified _ id | Stopped _ id => Some id end.

Definition is_parked (s : St) : bool := if s is Parked _ _ then true else false.
Definition is_notified (s : St) : bool := if s is Notified _ _ then true else false.

(** ** The tasks as a wake world *)

Definition notify (s : St) : St := if s is Parked w id then Notified w id else s.

#[export] Instance tasks_world : WakeWorld (list St) := {
  is_open k l := match k with
                 | WTask t w => match l !! t with Some (Parked w' _) => w =? w' | _ => false end
                 | WThread _ => true
                 end;
  wake k l := match k with
              | WTask t w =>
                  match l !! t with
                  | Some (Parked w' id) => if w =? w' then (<[t := Notified w' id]> l, true) else (l, false)
                  | _ => (l, false)
                  end
              | WThread _ => (l, true)
              end;
}.

#[export] Instance tasks_laws : WakeLaws (list St).
Proof.
  split.
  - intros [t w|n] l; simpl; [|done]. repeat case_match; done.
  - intros [t w|n] l; simpl; [|done]. repeat case_match; done.
  - intros [t w|n] [t' w'|n'] l Hne; simpl; try done.
    destruct (l !! t) as [[|w0 id| |]|] eqn:E; simpl; try done.
    destruct (Z.eqb_spec w w0); simpl; [|done]. subst w0.
    destruct (decide (t = t')) as [->|Ht].
    + rewrite list_lookup_insert_eq by (by eapply lookup_lt_Some). rewrite E.
      symmetry. apply Z.eqb_neq. congruence.
    + by rewrite list_lookup_insert_ne.
Qed.

(** ** The system *)

Record Sema := mkSema {
  units : nat;
  waiters : Waiters;
  tasks : list St;
  fresh : Z;
}.

Definition sema_new (u n : nat) : Sema := mkSema u Waiters_new (replicate n Out) 1.

(** [waiters.add()] and [park]: a new wait, registered. *)
Definition park (t : nat) (s : Sema) : Sema :=
  let '(ws, id) := add_waker (WTask t (fresh s)) (waiters s) in
  mkSema (units s) ws (<[t := Parked (fresh s) id]> (tasks s)) (fresh s + 1).

(** Back from [park]: [waiters.remove(id)]. *)
Definition unpark (t : nat) (id : Z) (s : Sema) : Sema :=
  mkSema (units s) (remove id (waiters s)) (<[t := Out]> (tasks s)) (fresh s).

Definition with_units (u : nat) (s : Sema) : Sema :=
  mkSema u (waiters s) (tasks s) (fresh s).

(** A unit appears, and one waiter is sent for it. *)
Definition give (s : Sema) : Sema :=
  let '(ws, l) := wake_one (waiters s) (tasks s) in mkSema (S (units s)) ws l (fresh s).

Definition notify_all (s : Sema) : Sema :=
  let '(ws, l) := wake_all (waiters s) (tasks s) in mkSema (units s) ws l (fresh s).

(** A waiter's wait ends without a notification. *)
Definition stop (t : nat) (s : Sema) : Sema :=
  mkSema (units s) (waiters s)
    (alter (fun st => if st is Parked w id then Stopped w id else st) t (tasks s)) (fresh s).

(** One critical section (or one wait ended by the clock or by [cancel]). *)
Inductive sstep : Sema -> Sema -> Prop :=
  | s_take s t u : tasks s !! t = Some Out -> units s = S u -> sstep s (with_units u s)
  | s_park s t : tasks s !! t = Some Out -> units s = 0%nat -> sstep s (park t s)
  | s_give s : sstep s (give s)
  | s_shrink s u : (u <= units s)%nat -> sstep s (with_units u s)
  | s_notify_all s : sstep s (notify_all s)
  | s_stop s t : sstep s (stop t s)
  (** Woken (or resumed for no reason): takes a unit if there is one, *)
  | s_resume_take s t st id u :
      tasks s !! t = Some st -> st_id st = Some id -> units s = S u ->
      sstep s (with_units u (unpark t id s))
  (** else waits again, *)
  | s_resume_park s t st id :
      tasks s !! t = Some st -> st_id st = Some id -> units s = 0%nat ->
      sstep s (park t (unpark t id s))
  (** or gives up: its wait was ended by the clock or cancelled, or there is
      nothing to take. *)
  | s_resume_quit s t st id :
      tasks s !! t = Some st -> st_id st = Some id ->
      (is_notified st = false /\ is_parked st = false) \/ units s = 0%nat ->
      sstep s (unpark t id s)
  (** Another task comes along. *)
  | s_spawn s : sstep s (mkSema (units s) (waiters s) (tasks s ++ [Out]) (fresh s))
  (** Wait ids are used elsewhere. *)
  | s_tick s f : sstep s (mkSema (units s) (waiters s) (tasks s) f).

(** ** The invariant *)

Definition count (f : St -> bool) (l : list St) : nat := length (List.filter f l).

(** Every open wait is in the list, ids are given out once, and only tasks
    wait. *)
Record Reg (s : Sema) : Prop := {
  reg_wf : Wf (waiters s);
  reg_listed : forall t w id, tasks s !! t = Some (Parked w id) ->
    (id, WTask t w) ∈ entries (waiters s);
  reg_ids : forall t t' st st' id, tasks s !! t = Some st -> tasks s !! t' = Some st' ->
    st_id st = Some id -> st_id st' = Some id -> t = t';
  reg_ids_le : forall t st id, tasks s !! t = Some st -> st_id st = Some id -> id <= next (waiters s);
  reg_tasks : Forall (fun e => exists t w, e.2 = WTask t w) (entries (waiters s));
}.

(** While anyone sleeps, every unit has a task sent for it. *)
Definition Sent (s : Sema) : Prop :=
  (0 < count is_parked (tasks s))%nat -> (units s <= count is_notified (tasks s))%nat.

Lemma count_insert f l t (x y : St) :
  l !! t = Some x ->
  (count f (<[t := y]> l) + (if f x then 1 else 0) = count f l + (if f y then 1 else 0))%nat.
Proof.
  unfold count. revert t. induction l as [|z l IH]; intros [|t] H; simplify_eq/=.
  - destruct (f x), (f y); simpl; lia.
  - specialize (IH _ H). destruct (f z); simpl; lia.
Qed.

Lemma count_alter f g l t :
  match l !! t with
  | Some x => count f (alter g t l) + (if f x then 1 else 0) = count f l + (if f (g x) then 1 else 0)
  | None => alter g t l = l
  end%nat.
Proof.
  destruct (l !! t) as [x|] eqn:E; [|by apply alter_none].
  rewrite <- (count_insert f l t x (g x) E). by rewrite (alter_insert g t l x E).
Qed.

Lemma count_app f l l' : count f (l ++ l') = (count f l + count f l')%nat.
Proof. unfold count. by rewrite List.filter_app, length_app. Qed.

Lemma count_pos f l : (0 < count f l)%nat <-> exists t x, l !! t = Some x /\ f x = true.
Proof.
  unfold count. split.
  - induction l as [|y l IH]; simpl; [lia|]. destruct (f y) eqn:E.
    + intros _. by exists 0%nat, y.
    + intros (t & x & ?)%IH. by exists (S t), x.
  - intros (t & x & Hl & Hf). revert t Hl. induction l as [|y l IH]; intros [|t] Hl; simplify_eq/=.
    + rewrite Hf. simpl. lia.
    + specialize (IH _ Hl). destruct (f y); simpl; lia.
Qed.

Lemma reg_park t s : Reg s -> tasks s !! t = Some Out -> Reg (park t s).
Proof.
  intros [Hwf Hl Hi Hle Ht] Hout. unfold park, add_waker. split; simpl.
  - apply (add_waker_wf (WTask t (fresh s)) _ Hwf).
  - intros t' w id. destruct (decide (t = t')) as [<-|Hne].
    + rewrite list_lookup_insert_eq by (by eapply lookup_lt_Some).
      intros ?; simplify_eq. apply elem_of_app. right. by apply list_elem_of_singleton.
    + rewrite list_lookup_insert_ne by done. intros. apply elem_of_app. left. eauto.
  - assert (forall t0 st id, <[t := Parked (fresh s) (next (waiters s) + 1)]> (tasks s) !! t0 = Some st ->
      st_id st = Some id -> (t0 = t /\ id = next (waiters s) + 1) \/
        (tasks s !! t0 = Some st /\ id <= next (waiters s))) as Hcase.
    { intros t0 st id Hl0 Hid. destruct (decide (t = t0)) as [<-|Hne].
      - rewrite list_lookup_insert_eq in Hl0 by (by eapply lookup_lt_Some). simplify_eq/=. auto.
      - rewrite list_lookup_insert_ne in Hl0 by done. right. eauto. }
    intros t1 t2 st1 st2 id H1 H2 E1 E2.
    destruct (Hcase _ _ _ H1 E1) as [[-> ->]|[? ?]], (Hcase _ _ _ H2 E2) as [[-> ?]|[? ?]]; try lia; eauto.
  - intros t' st id. destruct (decide (t = t')) as [<-|Hne].
    + rewrite list_lookup_insert_eq by (by eapply lookup_lt_Some). intros ? ?; simplify_eq/=. lia.
    + rewrite list_lookup_insert_ne by done. intros H1 H2. specialize (Hle _ _ _ H1 H2). lia.
  - apply Forall_app. split; [done|]. repeat constructor. by exists t, (fresh s).
Qed.

Lemma reg_unpark t st id s :
  Reg s -> tasks s !! t = Some st -> st_id st = Some id -> Reg (unpark t id s).
Proof.
  intros [Hwf Hl Hi Hle Ht] Hst Hid.
  assert (forall t' st', <[t := Out]> (tasks s) !! t' = Some st' -> st_id st' <> None ->
    t <> t' /\ tasks s !! t' = Some st') as Hcase.
  { intros t' st' Hl' Hn. destruct (decide (t = t')) as [<-|Hne].
    - rewrite list_lookup_insert_eq in Hl' by (by eapply lookup_lt_Some). by simplify_eq/=.
    - by rewrite list_lookup_insert_ne in Hl'. }
  unfold unpark. split; simpl.
  - by apply remove_wf.
  - intros t' w id' [Hne Hl']%Hcase; [|done]. rewrite list_elem_of_In, List.filter_In, <- list_elem_of_In.
    split; [eauto|]. simpl. apply negb_true_iff, Z.eqb_neq. intros ->. eauto.
  - intros t1 t2 st1 st2 id0 H1 H2 E1 E2.
    apply Hcase in H1 as [_ H1]; [|congruence]. apply Hcase in H2 as [_ H2]; [|congruence]. eauto.
  - intros t1 st1 id1 H1 E1. apply Hcase in H1 as [_ H1]; [|congruence]. eauto.
  - rewrite Forall_forall in Ht |- *. intros e He. apply Ht.
    rewrite list_elem_of_In, List.filter_In, <- list_elem_of_In in He. tauto.
Qed.

(** Statuses that only lose openness keep the registration. *)
Lemma reg_weaken s l' ws' u :
  Reg s -> Wf ws' -> next ws' = next (waiters s) ->
  Forall (fun e => exists t w, e.2 = WTask t w) (entries ws') ->
  (forall t st', l' !! t = Some st' -> exists st, tasks s !! t = Some st /\ st_id st = st_id st' /\
     (is_parked st' = true -> st' = st)) ->
  (forall t w id, l' !! t = Some (Parked w id) -> (id, WTask t w) ∈ entries ws') ->
  Reg (mkSema u ws' l' (fresh s)).
Proof.
  intros [Hwf Hl Hi Hle Ht] Hwf' Hn Ht' Hst Hl'. split; simpl; try done.
  - intros t1 t2 st1 st2 id H1 H2 E1 E2.
    destruct (Hst _ _ H1) as (st1' & ? & ? & _), (Hst _ _ H2) as (st2' & ? & ? & _).
    apply (Hi t1 t2 st1' st2' id); congruence.
  - intros t1 st1 id H1 E1. destruct (Hst _ _ H1) as (st1' & ? & ? & _). rewrite Hn.
    apply (Hle t1 st1' id); congruence.
Qed.

(** What [wake_one] does to the tasks: it turns the first parked one it finds
    into a notified one, and finds one whenever there is one. *)
Lemma wake_one_effect s ws l :
  Reg s -> wake_one (waiters s) (tasks s) = (ws, l) ->
  Reg (mkSema (units s) ws l (fresh s)) /\
  ((count is_parked (tasks s) = 0%nat /\ l = tasks s) \/
   exists t w id, tasks s !! t = Some (Parked w id) /\ l = <[t := Notified w id]> (tasks s)).
Proof.
  intros Hr E. pose proof Hr as [Hwf Hl Hi Hle Ht].
  assert (Wf ws) as Hwf'. { pose proof (wake_one_wf _ (tasks s) Hwf) as Hw. by rewrite E in Hw. }
  unfold wake_one in E.
  destruct (wake_one_list_split (entries (waiters s)) (tasks s))
    as [(l1 & id & k & l2 & El & Hc & Ho & Hw)|[Hc Hw]]; rewrite Hw in E; simplify_eq.
  - assert (exists t w, k = WTask t w) as (t & w & ->).
    { rewrite El, Forall_app, Forall_cons in Ht. destruct Ht as (_ & Ht & _). exact Ht. }
    simpl in Ho |- *. destruct (tasks s !! t) as [[|w0 id0| |]|] eqn:Et; try discriminate.
    apply Z.eqb_eq in Ho. subst w0. rewrite Z.eqb_refl. simpl.
    split; [|by right; exists t, w, id0].
    apply (reg_weaken s); try done; simpl.
    + rewrite El, Forall_app, Forall_cons in Ht. tauto.
    + intros t' st'. destruct (decide (t = t')) as [<-|Hne].
      * rewrite list_lookup_insert_eq by (by eapply lookup_lt_Some). intros ?; simplify_eq.
        exists (Parked w id0). split_and!; [done|done|discriminate].
      * rewrite list_lookup_insert_ne by done. eauto.
    + intros t' w' id'. destruct (decide (t = t')) as [<-|Hne].
      * rewrite list_lookup_insert_eq by (by eapply lookup_lt_Some). done.
      * rewrite list_lookup_insert_ne by done. intros Hp. pose proof (Hl _ _ _ Hp) as Hin.
        rewrite El, elem_of_app, elem_of_cons in Hin. destruct Hin as [Hin|[Hin|Hin]]; [|congruence|done].
        rewrite Forall_forall in Hc. specialize (Hc _ Hin). simpl in Hc. rewrite Hp in Hc.
        by rewrite Z.eqb_refl in Hc.
  - assert (forall t w id, tasks s !! t <> Some (Parked w id)) as Hno.
    { intros t w id Hp. rewrite Forall_forall in Hc. specialize (Hc _ (Hl _ _ _ Hp)).
      simpl in Hc. by rewrite Hp, Z.eqb_refl in Hc. }
    split.
    + apply (reg_weaken s); try done; simpl; [eauto|].
      intros t w id Hp. by destruct (Hno t w id).
    + left. split; [|done]. destruct (count is_parked (tasks s)) eqn:En; [done|].
      destruct (proj1 (count_pos is_parked (tasks s)) ltac:(lia)) as (t & [| | |] & Hp & Hf); try discriminate.
      by destruct (Hno t w id).
Qed.

(** [wake_list] only turns parked tasks into notified ones, and turns every
    listed one. *)
Lemma wake_list_lookup (ents : list (Z * TaskWaker)) (l : list St) t st' :
  wake_list ents l !! t = Some st' -> exists st, l !! t = Some st /\
    (st' = st \/ exists w id, st = Parked w id /\ st' = Notified w id).
Proof.
  revert l. induction ents as [|[i [t0 w0|n]] ents IH]; simpl; intros l H; [eauto| |eauto].
  apply IH in H as (st & Hst & Hor).
  destruct (l !! t0) as [[|w1 id1| |]|] eqn:E; simpl in Hst; eauto.
  case_match; simpl in Hst; [|eauto].
  destruct (decide (t0 = t)) as [->|Hne].
  - rewrite list_lookup_insert_eq in Hst by (by eapply lookup_lt_Some). simplify_eq.
    exists (Parked w1 id1). split; [done|]. right. exists w1, id1. split; [done|].
    by destruct Hor as [->|(? & ? & ? & ?)].
  - rewrite list_lookup_insert_ne in Hst by done. eauto.
Qed.

Lemma wake_one_list_lookup (ents : list (Z * TaskWaker)) (l : list St) t st' :
  (wake_one_list ents l).2 !! t = Some st' -> exists st, l !! t = Some st /\
    (st' = st \/ exists w id, st = Parked w id /\ st' = Notified w id).
Proof.
  destruct (wake_one_list_split ents l) as [(l1 & id & k & l2 & -> & _ & _ & ->)|[_ ->]]; [|eauto].
  intros H. apply (wake_list_lookup [(id, k)]). by destruct k.
Qed.

Lemma wake_list_listed ents (l : list St) t w id :
  (exists i, (i, WTask t w) ∈ ents) -> wake_list ents l !! t <> Some (Parked w id).
Proof.
  revert l. induction ents as [|[i k] ents IH]; simpl; intros l [j Hin] H.
  - by apply elem_of_nil in Hin.
  - apply elem_of_cons in Hin as [Heq|Hin]; [|by eapply IH; eauto].
    simplify_eq. apply wake_list_lookup in H as (st & Hst & Hor).
    assert (st = Parked w id) as -> by (destruct Hor as [->|(? & ? & ? & ?)]; done).
    simpl in Hst. destruct (l !! t) as [[|w1 id1| |]|] eqn:E; simpl in Hst; simplify_eq.
    case_match; simpl in Hst.
    + rewrite list_lookup_insert_eq in Hst by (by eapply lookup_lt_Some). simplify_eq.
    + simplify_eq. by rewrite Z.eqb_refl in *.
Qed.

Lemma notify_all_effect s :
  Reg s -> Reg (notify_all s) /\ count is_parked (tasks (notify_all s)) = 0%nat.
Proof.
  intros Hr. pose proof Hr as [Hwf Hl Hi Hle Ht]. unfold notify_all, wake_all.
  assert (forall t w id, wake_list (entries (waiters s)) (tasks s) !! t <> Some (Parked w id)) as Hno.
  { intros t w id H. pose proof H as H'. apply wake_list_lookup in H' as (st & Hst & Hor).
    assert (st = Parked w id) as -> by (destruct Hor as [->|(? & ? & ? & ?)]; done).
    eapply wake_list_listed; [|exact H]. eauto. }
  split.
  - apply (reg_weaken s); try done; simpl.
    + by apply (wake_all_wf (waiters s) (tasks s)).
    + intros t st' (st & Hst & Hor)%wake_list_lookup. exists st. split; [done|].
      destruct Hor as [->|(? & ? & -> & ->)]; [done|]. split; [done|discriminate].
    + intros t w id H. by destruct (Hno t w id).
  - simpl. destruct (count is_parked _) eqn:En; [done|].
    destruct (proj1 (count_pos is_parked _) ltac:(by rewrite En; apply Nat.lt_0_succ))
      as (t & [| | |] & Hp & Hf); try discriminate.
    by destruct (Hno t w id).
Qed.

Lemma reg_stop t s : Reg s -> Reg (stop t s).
Proof.
  intros Hr. pose proof Hr as [Hwf Hl Hi Hle Ht]. unfold stop.
  assert (forall t' st', alter (fun st => if st is Parked w id then Stopped w id else st) t (tasks s) !! t' = Some st' ->
    exists st, tasks s !! t' = Some st /\ st_id st = st_id st' /\ (is_parked st' = true -> st' = st)) as Hst.
  { intros t' st' H. destruct (decide (t' = t)) as [->|Hne].
    - rewrite list_lookup_alter, decide_True in H by done.
      destruct (tasks s !! t) as [st|]; simplify_eq/=. exists st. by destruct st.
    - rewrite list_lookup_alter_ne in H by done. eauto. }
  apply (reg_weaken s); try done.
  intros t' w id H. destruct (Hst _ _ H) as (st & Hs & _ & E). rewrite <- (E eq_refl) in Hs. eauto.
Qed.

Lemma reg_spawn s : Reg s -> Reg (mkSema (units s) (waiters s) (tasks s ++ [Out]) (fresh s)).
Proof.
  intros Hr. pose proof Hr as [Hwf Hl Hi Hle Ht].
  assert (forall t st, (tasks s ++ [Out]) !! t = Some st -> st_id st <> None -> tasks s !! t = Some st) as Hc.
  { intros t st H Hn. apply lookup_app_Some in H as [H|[_ H]]; [done|].
    apply list_lookup_singleton_Some in H as [_ <-]. done. }
  split; simpl; try done.
  - intros t w id H%Hc; [|done]. eauto.
  - intros t1 t2 st1 st2 id H1 H2 E1 E2. apply Hc in H1, H2; try congruence. eauto.
  - intros t st id H1 E1. apply Hc in H1; [|congruence]. eauto.
Qed.

Lemma reg_units s u : Reg s -> Reg (with_units u s).
Proof. by intros []. Qed.

Lemma sema_reg s s' : Reg s -> sstep s s' -> Reg s'.
Proof.
  intros Hr Hs. destruct Hs.
  - by apply reg_units.
  - by apply reg_park.
  - unfold give. destruct (wake_one (waiters s) (tasks s)) as [ws l] eqn:E.
    destruct (wake_one_effect _ _ _ Hr E) as [[] _]. by split.
  - by apply reg_units.
  - by apply notify_all_effect.
  - by apply reg_stop.
  - apply reg_units. by eapply reg_unpark.
  - apply reg_park; [by eapply reg_unpark|]. simpl. apply list_lookup_insert_eq. by eapply lookup_lt_Some.
  - by eapply reg_unpark.
  - by apply reg_spawn.
  - by destruct Hr.
Qed.

Lemma count_sub_insert l t x :
  l !! t = Some x -> (count is_parked (<[t := Out]> l) <= count is_parked l)%nat /\
  (count is_notified l <= count is_notified (<[t := Out]> l) + (if is_notified x then 1 else 0))%nat /\
  (is_notified x = false -> count is_notified (<[t := Out]> l) = count is_notified l).
Proof.
  intros H. pose proof (count_insert is_parked l t x Out H). pose proof (count_insert is_notified l t x Out H).
  simpl in *. split_and!; [lia|lia|]. intros E. rewrite E in *. lia.
Qed.

Lemma sema_sent s s' : Reg s -> Sent s -> sstep s s' -> Sent s'.
Proof.
  intros Hr Hs Hst. unfold Sent in *. destruct Hst; simpl.
  - intros H1. specialize (Hs H1). lia.
  - rewrite H0. lia.
  - unfold give. destruct (wake_one (waiters s) (tasks s)) as [ws l] eqn:E. simpl.
    destruct (wake_one_effect _ _ _ Hr E) as [_ [[Hz ->]|(t & w & id & Ht & ->)]]; [lia|].
    pose proof (count_insert is_parked _ t _ (Notified w id) Ht).
    pose proof (count_insert is_notified _ t _ (Notified w id) Ht). simpl in *.
    intros _. specialize (Hs ltac:(lia)). lia.
  - intros H1. specialize (Hs H1). lia.
  - destruct (notify_all_effect _ Hr) as [_ Hz]. unfold notify_all in Hz. simpl in Hz. lia.
  - pose proof (count_alter is_parked (fun st => if st is Parked w id then Stopped w id else st) (tasks s) t).
    pose proof (count_alter is_notified (fun st => if st is Parked w id then Stopped w id else st) (tasks s) t).
    destruct (tasks s !! t) as [[]|]; simpl in *; rewrite ?H; intros; specialize (Hs ltac:(lia)); lia.
  - destruct (count_sub_insert _ _ _ H) as (? & ? & ?). intros H5. specialize (Hs ltac:(lia)).
    destruct (is_notified st); lia.
  - rewrite H1. lia.
  - destruct (count_sub_insert _ _ _ H) as (? & ? & ?). intros H5. specialize (Hs ltac:(lia)).
    destruct H1 as [[H1 _]|H1]; [rewrite H4 by done; lia|lia].
  - rewrite !count_app. change (count is_parked [Out]) with 0%nat. change (count is_notified [Out]) with 0%nat.
    rewrite !Nat.add_0_r. done.
  - done.
Qed.

Lemma sema_new_reg u n : Reg (sema_new u n).
Proof.
  assert (forall t st, replicate n Out !! t = Some st -> st = Out) as Hout.
  { intros t st H. by apply lookup_replicate in H as [-> _]. }
  split; simpl.
  - apply Waiters_new_wf.
  - intros t w id H. by apply Hout in H.
  - intros t t' st st' id H _ E. by apply Hout in H as ->.
  - intros t st id H E. by apply Hout in H as ->.
  - constructor.
Qed.

Lemma sema_new_sent u n : Sent (sema_new u n).
Proof.
  intros H. apply count_pos in H as (t & x & H & E). simpl in H.
  apply lookup_replicate in H as [-> _]. discriminate.
Qed.

(** A system reached from one where nobody waits keeps the invariant. *)
Lemma sema_invariant s s' : Reg s -> Sent s -> rtc sstep s s' -> Reg s' /\ Sent s'.
Proof.
  intros Hr Hs H. apply (rtc_invariant sstep (fun s => Reg s /\ Sent s)) with s; [|done|done].
  intros x y [? ?] ?. eauto using sema_reg, sema_sent.
Qed.

(** ** Ending waits, task by task

    [l'] is [l] with some waits ended: nobody starts or leaves a wait. *)
Definition ended (st st' : St) : Prop :=
  st_id st = st_id st' /\ (is_parked st' = true -> st' = st).

Definition weaker (l l' : list St) : Prop := Forall2 ended l l'.

#[export] Instance weaker_preorder : PreOrder weaker.
Proof.
  assert (PreOrder ended) as He.
  { split; [by split|]. intros x y z [? Hxy] [? Hyz]. split; [congruence|].
    intros Hp. specialize (Hyz Hp). subst. auto. }
  change (PreOrder (Forall2 ended)). split; apply _.
Qed.

Lemma weaker_insert l t st st' : l !! t = Some st -> ended st st' -> weaker l (<[t := st']> l).
Proof.
  intros Hl He. rewrite <- (list_insert_id l t st Hl) at 1.
  apply Forall2_insert; [|done]. change (weaker l l). reflexivity.
Qed.

Lemma weaker_wake k l : weaker l (wake k l).1.
Proof.
  destruct k as [t w|n]; simpl; [|reflexivity].
  destruct (l !! t) as [[|w0 id| |]|] eqn:E; try reflexivity. case_match; [|reflexivity].
  by eapply weaker_insert.
Qed.

Lemma weaker_wake_list ents l : weaker l (wake_list ents l).
Proof.
  revert l. induction ents as [|[i k] ents IH]; intros l; simpl; [reflexivity|].
  etransitivity; [apply (weaker_wake k)|apply IH].
Qed.

Lemma weaker_wake_one ws l ws' l' : wake_one ws l = (ws', l') -> weaker l l'.
Proof.
  unfold wake_one. destruct (wake_one_list_split (entries ws) l)
    as [(l1 & id & k & l2 & _ & _ & _ & ->)|[_ ->]]; intros; simplify_eq; [apply weaker_wake|reflexivity].
Qed.

Lemma weaker_stop t l :
  weaker l (alter (fun st => if st is Parked w id then Stopped w id else st) t l).
Proof.
  destruct (l !! t) as [st|] eqn:E; [|by rewrite alter_none].
  rewrite (alter_insert _ t l st E). eapply weaker_insert; [done|]. by destruct st.
Qed.

Lemma weaker_lookup l l' t st' :
  weaker l l' -> l' !! t = Some st' -> exists st, l !! t = Some st /\ ended st st'.
Proof. intros H Hl. destruct (Forall2_lookup_r _ _ _ _ _ H Hl) as (st & ? & ?). by exists st. Qed.

Lemma weaker_length l l' : weaker l l' -> length l' = length l.
Proof. intros H. symmetry. by eapply Forall2_length. Qed.

#[export] Hint Resolve weaker_wake_list weaker_stop : roc.

(** ** Somebody sleeps *)

Definition asleep (l : list St) : Prop := exists t w id, l !! t = Some (Parked w id).

Lemma asleep_weaker l l' : weaker l l' -> asleep l' -> asleep l.
Proof.
  intros Hw (t & w & id & H). destruct (weaker_lookup _ _ _ _ Hw H) as (st & Hst & _ & E).
  rewrite <- (E eq_refl) in Hst. by exists t, w, id.
Qed.

Lemma asleep_out l t : asleep (<[t := Out]> l) -> asleep l.
Proof.
  intros (t' & w & id & H). exists t', w, id. by apply list_lookup_insert_Some in H as [(_ & ? & _)|[_ ?]].
Qed.

Lemma asleep_spawn l : asleep (l ++ [Out]) -> asleep l.
Proof.
  intros (t & w & id & H). exists t, w, id.
  apply lookup_app_Some in H as [?|[_ H]]; [done|]. by apply list_lookup_singleton_Some in H as [_ ?].
Qed.

Lemma notified_awake s : Reg s -> ~ asleep (tasks (notify_all s)).
Proof.
  intros [_ H]%notify_all_effect (t & w & i & Ht).
  assert (0 < count is_parked (tasks (notify_all s)))%nat by (apply count_pos; eauto). lia.
Qed.
