(* ===== verification/SchedLock.v ===== *)
(** * [sched::Lock] and the helper-thread slots ([src/sched.rs])

    Both are wait loops (see [Sema.v]): the lock has one unit, the slots have
    [MAX_BLOCKING_THREADS].  Each critical section of the code is one
    operation here, and each refines a step of the abstract wait loop, whose
    theorem then says that nobody sleeps beside a free lock or slot. *)
From S2P Require Import Prelude TaskProto Waiters Sema.
Local Open Scope Z_scope.

(** How [park] reports the end of a wait with this status. *)
Definition end_ok (st : St) (e : Woke) : Prop :=
  match st with
  | Stopped _ _ => e <> Ready
  | _ => e = Ready
  end.

(** ** The lock *)
Module SLock.

(** [Lock { state: Mutex<(bool, Waiters)> }], the tasks using it, and the
    guards they hold. *)
Record Sys := mkSys {
  locked : bool;
  waiters : Waiters;
  tasks : list St;
  fresh : Z;
  guards : list nat;
}.

Definition Lock_new (n : nat) : Sys := mkSys false Waiters_new (replicate n Out) 1 [].

Definition is_locked (s : Sys) : bool := locked s.

(** [Lock::try_lock] by task [t]; [None]: it's taken. *)
Definition try_lock (t : nat) (s : Sys) : option Sys :=
  if locked s then None
  else Some (mkSys true (waiters s) (tasks s) (fresh s) (t :: guards s)).

(** The body of [Lock::lock]'s loop: take the lock, or register and park. *)
Definition lock_iter (t : nat) (s : Sys) : Sys :=
  if negb (locked s) then mkSys true (waiters s) (tasks s) (fresh s) (t :: guards s)
  else let '(ws, id) := add_waker (WTask t (fresh s)) (waiters s) in
       mkSys (locked s) ws (<[t := Parked (fresh s) id]> (tasks s)) (fresh s + 1) (guards s).

(** Back from [park]: [state.1.remove(id)], and round the loop. *)
Definition lock_resume (t : nat) (id : Z) (s : Sys) : Sys :=
  lock_iter t (mkSys (locked s) (remove id (waiters s)) (<[t := Out]> (tasks s)) (fresh s) (guards s)).

(** [LockGuard::drop] of the guard at position [i]. *)
Definition drop_guard (i : nat) (s : Sys) : Sys :=
  let '(ws, l) := wake_one (waiters s) (tasks s) in
  mkSys false ws l (fresh s) (delete i (guards s)).

Inductive step : Sys -> Sys -> Prop :=
  | st_lock s t : tasks s !! t = Some Out -> step s (lock_iter t s)
  | st_try s t s' : tasks s !! t = Some Out -> try_lock t s = Some s' -> step s s'
  | st_resume s t st id : tasks s !! t = Some st -> st_id st = Some id -> step s (lock_resume t id s)
  | st_drop s i g : guards s !! i = Some g -> step s (drop_guard i s).

Definition reachable (n : nat) (s : Sys) : Prop := rtc step (Lock_new n) s.

(** The lock as a wait loop with one unit. *)
Definition abs (s : Sys) : Sema :=
  mkSema (if locked s then 0 else 1) (waiters s) (tasks s) (fresh s).

Lemma abs_lock_iter_eq t s :
  abs (lock_iter t s) = if locked s then park t (abs s) else with_units 0 (abs s).
Proof. unfold lock_iter, park, abs. by destruct (locked s) eqn:E; simpl. Qed.

Lemma abs_lock_iter t s :
  tasks s !! t = Some Out -> sstep (abs s) (abs (lock_iter t s)).
Proof.
  intros Ht. rewrite abs_lock_iter_eq. destruct (locked s) eqn:E.
  - apply s_park; [done|]. unfold abs. simpl. by rewrite E.
  - apply (s_take (abs s) t); [done|]. unfold abs. simpl. by rewrite E.
Qed.

Lemma abs_lock_resume t st id s :
  tasks s !! t = Some st -> st_id st = Some id -> sstep (abs s) (abs (lock_resume t id s)).
Proof.
  intros Ht Hid. unfold lock_resume. rewrite abs_lock_iter_eq. simpl.
  change (abs (mkSys _ _ _ _ _)) with (unpark t id (abs s)). destruct (locked s) eqn:E.
  - eapply s_resume_park; eauto. unfold abs. simpl. by rewrite E.
  - eapply s_resume_take; eauto. unfold abs. simpl. by rewrite E.
Qed.

(** Guards exist exactly while the lock is taken. *)
Definition Guarded (s : Sys) : Prop := length (guards s) = if locked s then 1%nat else 0%nat.

Lemma lock_iter_guarded t s : Guarded s -> Guarded (lock_iter t s).
Proof.
  unfold Guarded, lock_iter. intros H. destruct (locked s) eqn:E; simpl; rewrite ?E; simpl; lia.
Qed.

Lemma step_guarded s s' : Guarded s -> step s s' -> Guarded s'.
Proof.
  intros H Hs. destruct Hs.
  - by apply lock_iter_guarded.
  - unfold try_lock, Guarded in *. destruct (locked s) eqn:E; simplify_eq/=. lia.
  - apply lock_iter_guarded. done.
  - unfold drop_guard, Guarded in *. destruct (wake_one _ _) as [ws l]. simpl.
    rewrite length_delete by eauto.
    pose proof (lookup_lt_Some _ _ _ H0). destruct (locked s); lia.
Qed.

(** Every operation is a step of the wait loop. *)
Lemma lock_step_refines s s' : Guarded s -> step s s' -> sstep (abs s) (abs s').
Proof.
  intros Hg Hs. destruct Hs.
  - by apply abs_lock_iter.
  - unfold try_lock in H0. destruct (locked s) eqn:E; simplify_eq.
    change (abs (mkSys _ _ _ _ _)) with (with_units 0 (abs s)).
    apply (s_take (abs s) t); [done|]. unfold abs. simpl. by rewrite E.
  - by eapply abs_lock_resume.
  - assert (locked s = true) as E.
    { unfold Guarded in Hg. pose proof (lookup_lt_Some _ _ _ H). destruct (locked s); [done|lia]. }
    assert (abs (drop_guard i s) = give (abs s)) as ->; [|apply s_give].
    unfold drop_guard, give, abs. simpl. rewrite E. by destruct (wake_one _ _).
Qed.

Lemma reachable_guarded n s : reachable n s -> Guarded s /\ rtc sstep (sema_new 1 n) (abs s).
Proof.
  intros H. apply (rtc_invariant step (fun s => Guarded s /\ rtc sstep (sema_new 1 n) (abs s)))
    with (Lock_new n); [|done|done].
  intros x y [? ?] ?. split; [by eapply step_guarded|].
  eapply rtc_r; [done|]. by apply lock_step_refines.
Qed.

(** C9: [sched::Lock] is a mutual-exclusion lock: at most one guard exists,
    and one exists exactly while the lock is taken. *)
Theorem lock_mutual_exclusion n s :
  reachable n s -> (length (guards s) <= 1)%nat /\ (locked s = true <-> guards s <> []).
Proof.
  intros [Hg _]%reachable_guarded. unfold Guarded in Hg.
  destruct (locked s), (guards s) as [|? [|? ?]]; simpl in *; split; try lia; split; done.
Qed.

(** Task 0 takes the lock, task 1 waits for it, task 0 releases it. *)
Definition demo : Sys := drop_guard 0 (lock_iter 1 (lock_iter 0 (Lock_new 2))).

Lemma demo_reachable : reachable 2 demo.
Proof.
  eapply rtc_l; [by apply (st_lock _ 0)|]. eapply rtc_l; [by apply (st_lock _ 1)|].
  eapply rtc_l; [by apply (st_drop _ 0 0%nat)|]. apply rtc_refl.
Defined.

Lemma lock_mutual_exclusion_witness :
  (length (guards demo) <= 1)%nat /\ (locked demo = true <-> guards demo <> []).
Proof. apply (lock_mutual_exclusion 2). apply demo_reachable. Defined.

(** C10: nobody sleeps beside a free lock: whenever it's free and some task is
    suspended waiting for it, another waiter has been woken for it and is on
    its way to take it. *)
Theorem free_lock_has_a_taker n s t w id :
  reachable n s -> locked s = false -> tasks s !! t = Some (Parked w id) ->
  exists t' w' id', tasks s !! t' = Some (Notified w' id').
Proof.
  intros [_ Hr]%reachable_guarded Hl Ht.
  destruct (sema_invariant _ _ (sema_new_reg 1 n) (sema_new_sent 1 n) Hr) as [_ Hs].
  unfold Sent in Hs. simpl in Hs. rewrite Hl in Hs.
  assert (0 < count is_parked (tasks s))%nat as Hp by (apply count_pos; eauto).
  specialize (Hs Hp). apply (count_pos is_notified) in Hs as (t' & [] & ? & ?); try discriminate. eauto.
Qed.

(** Two tasks wait for the lock and it's released: one is woken. *)
Definition demo2 : Sys := drop_guard 0 (lock_iter 2 (lock_iter 1 (lock_iter 0 (Lock_new 3)))).

Lemma free_lock_has_a_taker_witness :
  exists t' w' id', tasks demo2 !! t' = Some (Notified w' id').
Proof.
  refine (free_lock_has_a_taker 3 demo2 2 2 2 _ eq_refl eq_refl).
  eapply rtc_l; [by apply (st_lock _ 0)|]. eapply rtc_l; [by apply (st_lock _ 1)|].
  eapply rtc_l; [by apply (st_lock _ 2)|].
  eapply rtc_l; [by apply (st_drop _ 0 0%nat)|]. apply rtc_refl.
Defined.

End SLock.

(** ** Helper-thread slots ([BLOCKING], [claim_blocking_slot], [BlockingSlot]) *)
Module Slots.

Definition MAX_BLOCKING_THREADS : nat := 64.

(** [BLOCKING: Mutex<(usize, Waiters)>], the tasks, and the slots claimed. *)
Record Sys := mkSys {
  used : nat;
  waiters : Waiters;
  tasks : list St;
  fresh : Z;
  slots : list nat;
}.

Definition Slots_new (n : nat) : Sys := mkSys 0 Waiters_new (replicate n Out) 1 [].

(** Where an iteration of [claim_blocking_slot] leaves the caller. *)
Inductive Claim := Claimed | Failed (w : Woke) | Waits.

(** The body of the loop at time [now]. *)
Definition claim_iter (t : nat) (d : deadline) (now : instant) (s : Sys) : Sys * Claim :=
  if (used s <? MAX_BLOCKING_THREADS)%nat
  then (mkSys (used s + 1) (waiters s) (tasks s) (fresh s) (t :: slots s), Claimed)
  else if past d now then (s, Failed TimedOut)
  else let '(ws, id) := add_waker (WTask t (fresh s)) (waiters s) in
       (mkSys (used s) ws (<[t := Parked (fresh s) id]> (tasks s)) (fresh s + 1) (slots s), Waits).

(** Back from [park]. *)
Definition claim_resume (t : nat) (id : Z) (e : Woke) (d : deadline) (now : instant) (s : Sys)
  : Sys * Claim :=
  let s := mkSys (used s) (remove id (waiters s)) (<[t := Out]> (tasks s)) (fresh s) (slots s) in
  if bool_decide (e = Cancelled) then (s, Failed Cancelled) else claim_iter t d now s.

(** [BlockingSlot::drop] of the slot at position [i]. *)
Definition drop_slot (i : nat) (s : Sys) : Sys :=
  let '(ws, l) := wake_one (waiters s) (tasks s) in
  mkSys (used s - 1) ws l (fresh s) (delete i (slots s)).

Definition abs (s : Sys) : Sema :=
  mkSema (MAX_BLOCKING_THREADS - used s) (waiters s) (tasks s) (fresh s).

(** The clock or [cancel] ends task [t]'s wait. *)
Definition stop_wait (t : nat) (s : Sys) : Sys :=
  mkSys (used s) (waiters s) (Sema.tasks (stop t (abs s))) (fresh s) (slots s).

Inductive step : Sys -> Sys -> Prop :=
  | st_claim s t d now : tasks s !! t = Some Out -> step s (claim_iter t d now s).1
  | st_resume s t st id e d now :
      tasks s !! t = Some st -> st_id st = Some id -> end_ok st e ->
      step s (claim_resume t id e d now s).1
  | st_stop s t : step s (stop_wait t s)
  | st_drop s i g : slots s !! i = Some g -> step s (drop_slot i s).

Definition reachable (n : nat) (s : Sys) : Prop := rtc step (Slots_new n) s.

(** Slots in use are counted, and never more than the limit. *)
Definition Counted (s : Sys) : Prop :=
  length (slots s) = used s /\ (used s <= MAX_BLOCKING_THREADS)%nat.

Lemma claim_iter_cases t d now s :
  let s' := (claim_iter t d now s).1 in
  ((used s < MAX_BLOCKING_THREADS)%nat /\
     s' = mkSys (used s + 1) (waiters s) (tasks s) (fresh s) (t :: slots s)) \/
  ((MAX_BLOCKING_THREADS <= used s)%nat /\ (s' = s \/
     abs s' = park t (abs s) /\ used s' = used s /\ slots s' = slots s)).
Proof.
  unfold claim_iter. destruct (Nat.ltb_spec (used s) MAX_BLOCKING_THREADS); [by left|right].
  split; [done|]. destruct (past d now); [by left|right].
  by unfold abs, park.
Qed.

Lemma claim_iter_counted t d now s : Counted s -> Counted (claim_iter t d now s).1.
Proof.
  intros [Hl Hm]. destruct (claim_iter_cases t d now s) as [[? ->]|[? [->|(_ & Eu & Es)]]];
    unfold Counted; simpl; [lia|done|]. by rewrite Eu, Es.
Qed.

Lemma step_counted s s' : Counted s -> step s s' -> Counted s'.
Proof.
  intros Hc Hs. destruct Hs.
  - by apply claim_iter_counted.
  - unfold claim_resume. case_bool_decide; [done|]. by apply claim_iter_counted.
  - done.
  - destruct Hc as [Hl Hm]. unfold drop_slot, Counted. destruct (wake_one _ _). simpl.
    pose proof (lookup_lt_Some _ _ _ H). rewrite length_delete by eauto. lia.
Qed.

Lemma abs_claimed t s :
  (used s < MAX_BLOCKING_THREADS)%nat ->
  abs (mkSys (used s + 1) (waiters s) (tasks s) (fresh s) (t :: slots s)) =
  with_units (MAX_BLOCKING_THREADS - (used s + 1)) (abs s).
Proof. done. Qed.

Lemma slots_step_refines s s' : Counted s -> step s s' -> rtc sstep (abs s) (abs s').
Proof.
  intros [Hl Hm] Hs. destruct Hs.
  - destruct (claim_iter_cases t d now s) as [[Hu ->]|[Hu [->|(-> & _ & _)]]].
    + rewrite abs_claimed by done. apply rtc_once, (s_take (abs s) t); [done|]. unfold abs. simpl. lia.
    + done.
    + apply rtc_once, s_park; [done|]. unfold abs. simpl. lia.
  - unfold claim_resume.
    set (s1 := mkSys (used s) (remove id (waiters s)) (<[t := Out]> (tasks s)) (fresh s) (slots s)).
    change (unpark t id (abs s)) with (abs s1).
    case_bool_decide as He.
    + apply rtc_once. simpl. change (abs s1) with (unpark t id (abs s)).
      eapply s_resume_quit; eauto. left. destruct st; simpl in *; subst; done.
    + destruct (claim_iter_cases t d now s1) as [[Hu ->]|[Hu [->|(-> & _ & _)]]].
      * rewrite abs_claimed by done. change (abs s1) with (unpark t id (abs s)).
        apply rtc_once. eapply s_resume_take; eauto. unfold abs. simpl in *. lia.
      * apply rtc_once. change (abs s1) with (unpark t id (abs s)).
        eapply s_resume_quit; eauto. right. unfold abs. simpl in *. lia.
      * apply rtc_once. change (abs s1) with (unpark t id (abs s)).
        eapply s_resume_park; eauto. unfold abs. simpl in *. lia.
  - apply rtc_once. apply (s_stop (abs s) t).
  - assert (abs (drop_slot i s) = give (abs s)) as ->; [|apply rtc_once, s_give].
    unfold drop_slot, give, abs. simpl. destruct (wake_one _ _). simpl.
    pose proof (lookup_lt_Some _ _ _ H). f_equal. lia.
Qed.

Lemma reachable_counted n s :
  reachable n s -> Counted s /\ rtc sstep (sema_new MAX_BLOCKING_THREADS n) (abs s).
Proof.
  intros H. apply (rtc_invariant step (fun s => Counted s /\ rtc sstep (sema_new MAX_BLOCKING_THREADS n) (abs s)))
    with (Slots_new n); [|done|]; [|split; [split; simpl; lia|done]].
  intros x y [? ?] ?. split; [by eapply step_counted|].
  etransitivity; [done|]. by apply slots_step_refines.
Qed.

(** at most [MAX_BLOCKING_THREADS] helper threads are in use at once, and
    none is forgotten: the count is the number of slots held. *)
Theorem blocking_slots_bounded n s :
  reachable n s -> (length (slots s) <= 64)%nat /\ used s = length (slots s).
Proof. intros [[Hl Hm] _]%reachable_counted. unfold MAX_BLOCKING_THREADS in *. lia. Qed.

Lemma blocking_slots_bounded_witness :
  let s := (claim_iter 0 None 0 (Slots_new 1)).1 in
  (length (slots s) <= 64)%nat /\ used s = length (slots s).
Proof.
  apply (blocking_slots_bounded 1). eapply rtc_l; [by apply (st_claim _ 0)|]. apply rtc_refl.
Defined.

(** a caller waiting for a helper thread isn't forgotten: while one is
    suspended, every free slot has a woken caller on its way to claim it,
    through timeouts and cancellations of other callers. *)
Theorem free_slot_has_a_taker n s t w id :
  reachable n s -> tasks s !! t = Some (Parked w id) ->
  (MAX_BLOCKING_THREADS - used s <= count is_notified (tasks s))%nat.
Proof.
  intros [_ Hr]%reachable_counted Ht.
  destruct (sema_invariant _ _ (sema_new_reg _ n) (sema_new_sent _ n) Hr) as [_ Hs].
  apply Hs. apply count_pos. eauto.
Qed.

(** All 64 slots claimed for task 0 (it can stop waiting for a helper that
    still runs), and task 1 waiting for one. *)
Definition full : Sys :=
  (claim_iter 1 None 0 (Nat.iter 64 (fun s => (claim_iter 0 None 0 s).1) (Slots_new 2))).1.

Lemma claims_reachable k s :
  tasks s !! 0%nat = Some Out -> (used s + k <= MAX_BLOCKING_THREADS)%nat ->
  rtc step s (Nat.iter k (fun s => (claim_iter 0 None 0 s).1) s).
Proof.
  intros Ht. induction k as [|k IH]; intros Hk; [apply rtc_refl|].
  eapply rtc_r; [apply IH; lia|]. apply st_claim.
  assert (forall k, (used s + k <= MAX_BLOCKING_THREADS)%nat ->
    let s' := Nat.iter k (fun s => (claim_iter 0 None 0 s).1) s in
    tasks s' = tasks s /\ used s' = (used s + k)%nat) as Hit.
  { clear. induction k as [|k IH]; intros Hk; simpl; [split; [done|lia]|].
    destruct (IH ltac:(lia)) as [E1 E2].
    destruct (claim_iter_cases 0 None 0 (Nat.iter k (fun s => (claim_iter 0 None 0 s).1) s))
      as [[? ->]|[? _]]; simpl; [rewrite E1, E2; split; [done|lia]|lia]. }
  destruct (Hit k ltac:(lia)) as [E _]. exact (eq_trans (f_equal (fun l => l !! 0%nat) E) Ht).
Qed.

Lemma free_slot_has_a_taker_witness :
  (MAX_BLOCKING_THREADS - used full <= count is_notified (tasks full))%nat.
Proof.
  apply (free_slot_has_a_taker 2 full 1 1 1); [|vm_compute; reflexivity].
  eapply rtc_r; [apply (claims_reachable 64 (Slots_new 2)); [reflexivity|vm_compute; lia]|].
  apply st_claim. vm_compute. reflexivity.
Defined.

End Slots.
