(* ===== verification/RunQueue.v ===== *)
(** * Workers' run queues ([src/sched.rs])

    The queues of ready tasks: each worker's own, and the shared one for
    threads that aren't workers.  Each operation is one function on the world
    of all workers ([RunSteps.v] has their critical sections interleave); the
    lengths readable without the locks ([queue_len], [INJECT_LEN]) are kept
    beside the queues, as the code does.
    Also here: timers, the worker's loop, the budget, and the pool of
    stacks. *)
From S2P Require Import Prelude.
Local Open Scope Z_scope.

Definition BUDGET : Z := 128.
Definition EVENT_INTERVAL : Z := 61.
Definition MAX_POOLED_STACKS : nat := 256.
Definition MAX_POLL_WAIT : Z := 3600 * 1000000000.

(** ** Queues *)

(** [Shared], less its event queue. *)
Record Shared := mkShared {
  index : nat;
  queue : list nat;
  queue_len : nat;
  notified : bool;
}.

(** [WORKERS], [INJECT], [INJECT_LEN], [SLEEPING], [SEARCHING]; and how often
    each worker's event queue has been woken. *)
Record World := mkWorld {
  workers : list (option Shared);
  inject : list nat;
  inject_len : nat;
  sleeping : Z;
  searching : Z;
  wakes : list nat;
}.

Definition new_shared (i : nat) : Shared := mkShared i [] 0 false.

(** [run_main]'s world: [count] workers, the first started. *)
Definition world_new (count : nat) : World :=
  mkWorld (Some (new_shared 0) :: replicate (count - 1) None) [] 0 0 0 (replicate count 0%nat).

Definition set_shared (i : nat) (sh : Shared) (w : World) : World :=
  mkWorld (<[i := Some sh]> (workers w)) (inject w) (inject_len w) (sleeping w) (searching w) (wakes w).

(** [workers().get(i).and_then(OnceLock::get)] *)
Definition shared (i : nat) (w : World) : option Shared := mjoin (workers w !! i).

(** [Shared::push]: the new length. *)
Definition Shared_push (task : nat) (sh : Shared) : Shared * nat :=
  let q := queue sh ++ [task] in
  (mkShared (index sh) q (length q) (notified sh), length q).

Definition Shared_pop (sh : Shared) : Shared * option nat :=
  if (queue_len sh =? 0)%nat then (sh, None)
  else match queue sh with
       | [] => (mkShared (index sh) [] 0 (notified sh), None)
       | t :: q => (mkShared (index sh) q (length q) (notified sh), Some t)
       end.

(** [u64::trailing_zeros] *)
Definition trailing_zeros (x : Z) : nat :=
  default 64%nat (list_find (fun i : nat => Z.testbit x (Z.of_nat i) = true) (seq 0 64) ≫= fun r => Some r.2).

(** [start_worker], which fails if [ok] is false: the new worker begins
    notified and counts as searching. *)
Definition start_worker (ok : bool) (i : nat) (w : World) : World :=
  match workers w !! i with
  | Some None =>
      if ok then
        mkWorld (<[i := Some (mkShared i [] 0 true)]> (workers w)) (inject w) (inject_len w)
                (sleeping w) (searching w + 1) (wakes w)
      else w
  | _ => w
  end.

(** [workers().iter().position(|w| w.get().is_none())] *)
Definition first_unstarted (l : list (option Shared)) : option nat :=
  list_find (fun o => o = None) l ≫= fun r => Some r.1.

Definition notify_idle (ok : bool) (w : World) : World :=
  if 0 <? searching w then w
  else if negb (sleeping w =? 0) then
    let i := trailing_zeros (sleeping w) in
    let bit := Z.shiftl 1 (Z.of_nat i) in
    let w1 := mkWorld (workers w) (inject w) (inject_len w) (Z.ldiff (sleeping w) bit) (searching w) (wakes w) in
    if negb (Z.land (sleeping w) bit =? 0) then
      match shared i w1 with
      | Some sh =>
          mkWorld (<[i := Some (mkShared (index sh) (queue sh) (queue_len sh) true)]> (workers w1))
                  (inject w1) (inject_len w1) (sleeping w1) (searching w1 + 1) (alter S i (wakes w1))
      | None => w1
      end
    else w1
  else match first_unstarted (workers w) with
       | Some i => start_worker ok i w
       | None => w
       end.

(** [push] of a ready task, by worker [this] or a plain thread. *)
Definition push (this : option nat) (saturated ok : bool) (task : nat) (w : World) : World :=
  match this with
  | Some i =>
      match shared i w with
      | Some sh =>
          let '(sh', backlog) := Shared_push task sh in
          let w1 := set_shared i sh' w in
          if (1 <? backlog)%nat && saturated then notify_idle ok w1 else w1
      | None => w
      end
  | None =>
      let q := inject w ++ [task] in
      notify_idle ok (mkWorld (workers w) q (length q) (sleeping w) (searching w) (wakes w))
  end.

(** Worker [i] takes the next task of its own queue. *)
Definition pop (i : nat) (w : World) : World * option nat :=
  match shared i w with
  | Some sh => let '(sh', t) := Shared_pop sh in (set_shared i sh' w, t)
  | None => (w, None)
  end.

(** [take_injected] by worker [i]. *)
Definition take_injected (i : nat) (w : World) : World * bool :=
  if (inject_len w =? 0)%nat then (w, false)
  else match inject w, shared i w with
       | t :: q, Some sh =>
           (set_shared i (Shared_push t sh).1
              (mkWorld (workers w) q (length q) (sleeping w) (searching w) (wakes w)), true)
       | [], _ => (mkWorld (workers w) [] 0 (sleeping w) (searching w) (wakes w), false)
       | _, None => (w, false)
       end.

(** [usize::div_ceil(2)] *)
Definition div_ceil2 (n : nat) : nat := ((n + 1) / 2)%nat.

(** One victim of [steal]: take the front half of its queue, if it has any. *)
Definition steal_from (i v : nat) (w : World) : World * bool :=
  match shared v w with
  | None => (w, false)
  | Some victim =>
      if (index victim =? i)%nat || (queue_len victim =? 0)%nat then (w, false)
      else
        let take_n := div_ceil2 (length (queue victim)) in
        let stolen := take take_n (queue victim) in
        let left := drop take_n (queue victim) in
        let w1 := set_shared v (mkShared (index victim) left (length left) (notified victim)) w in
        match stolen, shared i w1 with
        | _ :: _, Some sh =>
            let q := queue sh ++ stolen in
            (set_shared i (mkShared (index sh) q (length q) (notified sh)) w1, true)
        | _, _ => (w1, false)
        end
  end.

(** The victims in the order [steal] looks at them. *)
Definition victims (i n : nat) : list nat :=
  map (fun offset => (i + 1 + offset) mod n)%nat (seq 0 n).

Fixpoint steal_scan (i : nat) (vs : list nat) (w : World) : World * bool :=
  match vs with
  | [] => (w, false)
  | v :: vs => let '(w', found) := steal_from i v w in
               if found then (w', true) else steal_scan i vs w'
  end.

Definition steal (i : nat) (w : World) : World * bool :=
  steal_scan i (victims i (length (workers w))) w.

(** [answer_notification] of worker [i]. *)
Definition answer_notification (i : nat) (w : World) : World * bool :=
  match shared i w with
  | Some sh =>
      let w1 := set_shared i (mkShared (index sh) (queue sh) (queue_len sh) false) w in
      if notified sh then
        let '(w2, found) := steal i w1 in
        (mkWorld (workers w2) (inject w2) (inject_len w2) (sleeping w2) (searching w2 - 1) (wakes w2), found)
      else (w1, false)
  | None => (w, false)
  end.

(** ** Tasks are kept *)

(** Every task in some queue. *)
Definition worker_queue (o : option Shared) : list nat := from_option queue [] o.
Definition queued (w : World) : list nat := concat (map worker_queue (workers w)) ++ inject w.

(** The lengths agree with the queues, and workers are where their index
    says. *)
Record QWf (w : World) : Prop := {
  q_index : forall i sh, workers w !! i = Some (Some sh) -> index sh = i;
  q_len : forall i sh, workers w !! i = Some (Some sh) -> queue_len sh = length (queue sh);
  q_inject : inject_len w = length (inject w);
}.

Lemma shared_Some i w sh : shared i w = Some sh <-> workers w !! i = Some (Some sh).
Proof. unfold shared. destruct (workers w !! i) as [[]|]; simpl; split; intros; simplify_eq; done. Qed.

Lemma concat_insert (l : list (option Shared)) i o o' :
  l !! i = Some o ->
  worker_queue o ++ concat (map worker_queue (<[i := o']> l)) ≡ₚ
  worker_queue o' ++ concat (map worker_queue l).
Proof.
  revert i. induction l as [|x l IH]; intros [|i] H; simplify_eq/=.
  - apply Permutation_app_swap_app.
  - rewrite Permutation_app_swap_app, (IH _ H). apply Permutation_app_swap_app.
Qed.

(** Changing one worker's queue. *)
Lemma queued_set_shared i sh sh' w :
  shared i w = Some sh -> queue sh ++ queued (set_shared i sh' w) ≡ₚ queue sh' ++ queued w.
Proof.
  intros H%shared_Some. unfold queued. simpl. rewrite !app_assoc. apply Permutation_app_tail.
  apply (concat_insert _ _ _ (Some sh') H).
Qed.

Lemma set_shared_wf i sh w :
  QWf w -> index sh = i -> queue_len sh = length (queue sh) -> QWf (set_shared i sh w).
Proof.
  intros [Hi Hl Hj] H1 H2. split; simpl; [| |done];
    intros j sh' [(<- & E & _)|[_ H]]%list_lookup_insert_Some; simplify_eq; eauto.
Qed.

Lemma shared_set_shared i sh w sh0 : shared i w = Some sh0 -> shared i (set_shared i sh w) = Some sh.
Proof.
  intros H%shared_Some. apply shared_Some. simpl. apply list_lookup_insert_eq. by eapply lookup_lt_Some.
Qed.

Lemma shared_set_shared_ne i j sh w : i <> j -> shared j (set_shared i sh w) = shared j w.
Proof. intros H. unfold shared. simpl. by rewrite list_lookup_insert_ne. Qed.

Lemma shared_wf i w sh : QWf w -> shared i w = Some sh -> index sh = i /\ queue_len sh = length (queue sh).
Proof. intros [Hi Hl _] H%shared_Some. eauto. Qed.

Lemma wf_ext w w' :
  workers w' = workers w -> inject w' = inject w -> inject_len w' = inject_len w -> QWf w -> QWf w'.
Proof. intros E1 E2 E3 [? ? ?]. split; rewrite ?E1, ?E2, ?E3; done. Qed.

Lemma start_worker_queued ok i w : queued (start_worker ok i w) ≡ₚ queued w.
Proof.
  unfold start_worker. destruct (workers w !! i) as [[sh|]|] eqn:E; try done. destruct ok; [|done].
  unfold queued. simpl. apply Permutation_app_tail.
  apply (concat_insert _ _ _ (Some (mkShared i [] 0 true)) E).
Qed.

Lemma start_worker_wf ok i w : QWf w -> QWf (start_worker ok i w).
Proof.
  intros Hw. unfold start_worker. destruct (workers w !! i) as [[sh|]|]; try done. destruct ok; [|done].
  by eapply wf_ext, (set_shared_wf i (mkShared i [] 0 true)).
Qed.

(** Waking or starting a worker moves no task. *)
Lemma notify_idle_queued ok w : queued (notify_idle ok w) ≡ₚ queued w.
Proof.
  unfold notify_idle. case_goal; [done|]. case_goal.
  - case_goal; [|done]. destruct (shared _ _) as [sh|] eqn:E; [|done].
    apply (Permutation_app_inv_l (queue sh)).
    apply (queued_set_shared _ _ (mkShared (index sh) (queue sh) (queue_len sh) true) _ E).
  - destruct (first_unstarted _); [apply start_worker_queued|done].
Qed.

Lemma notify_idle_wf ok w : QWf w -> QWf (notify_idle ok w).
Proof.
  intros Hw. unfold notify_idle. case_goal; [done|]. case_goal.
  - assert (QWf (mkWorld (workers w) (inject w) (inject_len w)
      (Z.ldiff (sleeping w) (Z.shiftl 1 (Z.of_nat (trailing_zeros (sleeping w))))) (searching w) (wakes w)))
      as Hw1 by (by destruct Hw).
    case_goal; [|done]. destruct (shared _ _) as [sh|] eqn:E; [|done].
    destruct (shared_wf _ _ _ Hw1 E).
    eapply wf_ext; cycle -1.
    + by apply (set_shared_wf (trailing_zeros (sleeping w))
        (mkShared (index sh) (queue sh) (queue_len sh) true) _ Hw1).
    + done.
    + done.
    + done.
  - destruct (first_unstarted _); [by apply start_worker_wf|done].
Qed.

Lemma push_spec this sat ok t w :
  QWf w -> (forall i, this = Some i -> is_Some (shared i w)) ->
  QWf (push this sat ok t w) /\ queued (push this sat ok t w) ≡ₚ t :: queued w.
Proof.
  intros Hw Hthis. unfold push. destruct this as [i|].
  - destruct (Hthis i eq_refl) as [sh Hsh]. rewrite Hsh. simpl.
    set (sh' := mkShared _ _ _ _). destruct (shared_wf _ _ _ Hw Hsh).
    assert (QWf (set_shared i sh' w)) by (by apply set_shared_wf).
    assert (queued (set_shared i sh' w) ≡ₚ t :: queued w) as Hq.
    { apply (Permutation_app_inv_l (queue sh)). rewrite (queued_set_shared i sh sh' w Hsh).
      simpl. rewrite <- app_assoc. done. }
    case_goal; [|done]. rewrite notify_idle_queued. split; [by apply notify_idle_wf|done].
  - rewrite notify_idle_queued. split.
    + apply notify_idle_wf. by destruct Hw.
    + unfold queued. simpl. rewrite app_assoc. symmetry. apply Permutation_cons_append.
Qed.

Lemma pop_spec i w w' r :
  QWf w -> pop i w = (w', r) ->
  QWf w' /\ queued w ≡ₚ option_list r ++ queued w' /\
  (r = None -> forall sh, shared i w = Some sh -> queue sh = []).
Proof.
  intros Hw. unfold pop. destruct (shared i w) as [sh|] eqn:Hsh; [|by intros; simplify_eq].
  destruct (shared_wf _ _ _ Hw Hsh) as [Hi Hl]. unfold Shared_pop. rewrite Hl.
  destruct (queue sh) as [|t q] eqn:Eq; simpl; intros; simplify_eq.
  - split_and!; [by apply set_shared_wf; rewrite ?Eq|..].
    + simpl. apply (Permutation_app_inv_l (queue sh)). by rewrite (queued_set_shared _ _ _ _ Hsh).
    + by intros _ ? [= <-].
  - split_and!; [by apply set_shared_wf| |done].
    apply (Permutation_app_inv_l (queue sh)). simpl. rewrite <- Permutation_middle.
    rewrite (queued_set_shared _ _ _ _ Hsh). by rewrite Eq.
Qed.

Lemma take_injected_spec i w w' b :
  QWf w -> is_Some (shared i w) -> take_injected i w = (w', b) ->
  QWf w' /\ queued w' ≡ₚ queued w /\ (b = false <-> inject w = []).
Proof.
  intros Hw [sh Hsh]. unfold take_injected. rewrite (q_inject w Hw), Hsh.
  destruct (inject w) as [|t q] eqn:Eq; simpl; intros; simplify_eq; [done|].
  destruct (shared_wf _ _ _ Hw Hsh) as [Hi Hl]. split_and!; [|..|done].
  - apply set_shared_wf; try done. by destruct Hw.
  - set (w1 := mkWorld _ _ _ _ _ _). assert (shared i w1 = Some sh) as Hsh1 by done.
    apply (Permutation_app_inv_l (queue sh)). rewrite (queued_set_shared _ _ _ _ Hsh1). simpl.
    rewrite <- app_assoc. apply Permutation_app_head. unfold queued. rewrite Eq. simpl.
    apply Permutation_middle.
Qed.

(** ** Stealing *)

Lemma div_ceil2_pos n : (0 < n)%nat -> (0 < div_ceil2 n <= n)%nat.
Proof.
  intros H. unfold div_ceil2. split.
  - apply Nat.div_str_pos. lia.
  - apply Nat.Div0.div_le_upper_bound. lia.
Qed.

(** What a successful theft by [i] from [v] leaves. *)
Definition stole (i v : nat) (w w' : World) : Prop :=
  exists sh vic, v <> i /\ shared i w = Some sh /\ shared v w = Some vic /\ queue vic <> [] /\
    let k := div_ceil2 (length (queue vic)) in
    (exists sh', shared i w' = Some sh' /\ queue sh' = queue sh ++ take k (queue vic)) /\
    (exists vic', shared v w' = Some vic' /\ queue vic' = drop k (queue vic)) /\
    (forall j, j <> i -> j <> v -> shared j w' = shared j w) /\ inject w' = inject w.

Lemma steal_from_spec i v w w' b sh :
  QWf w -> shared i w = Some sh -> steal_from i v w = (w', b) ->
  (b = true /\ stole i v w w' /\ QWf w' /\ queued w' ≡ₚ queued w) \/
  (b = false /\ w' = w /\ forall vic, v <> i -> shared v w = Some vic -> queue vic = []).
Proof.
  intros Hw Hsh. unfold steal_from. destruct (shared v w) as [vic|] eqn:Hv; [|intros; simplify_eq; by right].
  destruct (shared_wf _ _ _ Hw Hv) as [Ei El]. destruct (shared_wf _ _ _ Hw Hsh) as [Ei' El'].
  destruct (Nat.eqb_spec (index vic) i) as [Heq|Hne]; simpl.
  { intros; simplify_eq. right. split_and!; try done. }
  rewrite El. destruct (queue vic) as [|t q] eqn:Eq; simpl.
  { intros; simplify_eq. right. split_and!; try done. by intros ? _ [= <-]. }
  rewrite <- Eq in *. assert (0 < length (queue vic))%nat as Hpos by (rewrite Eq; simpl; lia).
  destruct (div_ceil2_pos _ Hpos) as [Hk1 Hk2]. change (S (length q)) with (length (t :: q)). rewrite <- Eq.
  set (k := div_ceil2 (length (queue vic))) in *.
  set (vic' := mkShared (index vic) (drop k (queue vic)) _ _). set (w1 := set_shared v vic' w).
  assert (v <> i) as Hvi by congruence.
  assert (shared i w1 = Some sh) as Hsh1 by (unfold w1; by rewrite shared_set_shared_ne).
  rewrite Hsh1. destruct (take k (queue vic)) as [|x r] eqn:Et.
  { apply (f_equal length) in Et. rewrite length_take in Et. simpl in Et. lia. }
  rewrite <- Et. intros [= <- <-]. left. split; [done|].
  set (sh' := mkShared (index sh) (queue sh ++ take k (queue vic)) _ _).
  assert (QWf w1) as Hw1 by (by apply set_shared_wf). split_and!.
  - exists sh, vic. split_and!; try done; [by rewrite Eq|]. cbv zeta. fold k. split_and!; [..|done].
    + exists sh'. split; [by eapply shared_set_shared|done].
    + exists vic'. split; [|done]. rewrite shared_set_shared_ne by congruence. by eapply shared_set_shared.
    + intros j Hj1 Hj2. unfold w1. by rewrite !shared_set_shared_ne by congruence.
  - by apply set_shared_wf.
  - apply (Permutation_app_inv_l (queue sh ++ queue vic)).
    rewrite <- !app_assoc, (Permutation_app_swap_app (queue sh) (queue vic)).
    rewrite (queued_set_shared i sh sh' w1 Hsh1). simpl. rewrite <- app_assoc.
    rewrite (Permutation_app_swap_app (queue vic) (queue sh)). apply Permutation_app_head.
    unfold w1. rewrite (Permutation_app_swap_app (queue vic)), (queued_set_shared v vic vic' w Hv). simpl.
    by rewrite app_assoc, take_drop.
Qed.

Lemma steal_scan_spec i vs w w' b sh :
  QWf w -> shared i w = Some sh -> steal_scan i vs w = (w', b) ->
  (b = true /\ (exists v, stole i v w w') /\ QWf w' /\ queued w' ≡ₚ queued w) \/
  (b = false /\ w' = w /\ forall v vic, v ∈ vs -> v <> i -> shared v w = Some vic -> queue vic = []).
Proof.
  intros Hw Hsh. induction vs as [|v vs IH]; simpl.
  - intros; simplify_eq. right. split_and!; try done. by intros v vic ?%elem_of_nil.
  - destruct (steal_from i v w) as [w1 b1] eqn:E.
    destruct (steal_from_spec _ _ _ _ _ _ Hw Hsh E) as [(-> & Hs & Hw' & Hq)|(-> & -> & Hv)].
    + intros; simplify_eq. left. eauto.
    + intros H. destruct (IH H) as [|(-> & -> & Hvs)]; [by left|right]. split_and!; try done.
      intros v' vic [->|Hin]%elem_of_cons Hne; eauto.
Qed.

Lemma victims_all i n v : (v < n)%nat -> v ∈ victims i n.
Proof.
  intros Hv. unfold victims. apply list_elem_of_In, List.in_map_iff.
  exists ((v + (n - (i + 1) mod n)) mod n)%nat.
  assert (((i + 1) mod n < n))%nat by (apply Nat.mod_upper_bound; lia). split.
  - rewrite Nat.Div0.add_mod_idemp_r. rewrite <- Nat.Div0.add_mod_idemp_l.
    replace ((i + 1) mod n + (v + (n - (i + 1) mod n)))%nat with (v + 1 * n)%nat by lia.
    rewrite Nat.Div0.mod_add. by apply Nat.mod_small.
  - apply List.in_seq. split; [lia|]. apply Nat.mod_upper_bound. lia.
Qed.

Lemma steal_spec i w w' b sh :
  QWf w -> shared i w = Some sh -> steal i w = (w', b) ->
  QWf w' /\ queued w' ≡ₚ queued w /\
  (if b then exists v, stole i v w w'
   else w' = w /\ forall v vic, v <> i -> shared v w = Some vic -> queue vic = []).
Proof.
  intros Hw Hsh H. destruct (steal_scan_spec _ _ _ _ _ _ Hw Hsh H) as [(-> & Hs & ? & ?)|(-> & -> & Hv)].
  - done.
  - split_and!; try done. intros v vic Hne Hv'. apply (Hv v); [|done|done].
    apply victims_all. apply shared_Some in Hv'. by eapply lookup_lt_Some.
Qed.

Lemma answer_notification_spec i w w' b :
  QWf w -> is_Some (shared i w) -> answer_notification i w = (w', b) -> QWf w' /\ queued w' ≡ₚ queued w.
Proof.
  intros Hw [sh Hsh]. unfold answer_notification. rewrite Hsh.
  destruct (shared_wf _ _ _ Hw Hsh) as [Hi Hl].
  set (w1 := set_shared i _ w). assert (QWf w1) as Hw1 by (by apply set_shared_wf).
  assert (queued w1 ≡ₚ queued w) as Hq.
  { apply (Permutation_app_inv_l (queue sh)). unfold w1. by rewrite (queued_set_shared _ _ _ _ Hsh). }
  destruct (notified sh); [|by intros; simplify_eq].
  destruct (steal i w1) as [w2 found] eqn:E. intros; simplify_eq.
  destruct (steal_spec _ _ _ _ _ Hw1 (shared_set_shared _ _ _ _ Hsh) E) as (Hw2 & Hq2 & _).
  split; [by destruct Hw2|]. rewrite <- Hq, <- Hq2. done.
Qed.

(** ** Any sequence of operations *)

Inductive Op :=
  | OPush (this : option nat) (saturated ok : bool) (task : nat)
  | OPop (i : nat)
  | OInjected (i : nat)
  | OAnswer (i : nat).

(** Only a worker that has started acts as one. *)
Definition op_ok (o : Op) (w : World) : Prop :=
  match o with
  | OPush None _ _ _ => True
  | OPush (Some i) _ _ _ | OPop i | OInjected i | OAnswer i => is_Some (shared i w)
  end.

(** The world after an operation, the tasks put in, and the tasks taken out. *)
Definition run_op (o : Op) (w : World) : World * list nat * list nat :=
  match o with
  | OPush this sat ok t => (push this sat ok t w, [t], [])
  | OPop i => let '(w', r) := pop i w in (w', [], option_list r)
  | OInjected i => ((take_injected i w).1, [], [])
  | OAnswer i => ((answer_notification i w).1, [], [])
  end.

Inductive runs : World -> World -> list nat -> list nat -> Prop :=
  | runs_nil w : runs w w [] []
  | runs_op w w' w'' o ins outs ins' outs' :
      runs w w' ins outs -> op_ok o w' -> run_op o w' = (w'', ins', outs') ->
      runs w w'' (ins ++ ins') (outs ++ outs').

Lemma world_new_wf n : QWf (world_new n) /\ queued (world_new n) = [].
Proof.
  split.
  - split; [| |done]; intros [|i] sh; simpl; intros H; simplify_eq/=; try done;
      by apply lookup_replicate in H as [? _].
  - unfold queued. simpl. rewrite app_nil_r. generalize (n - 1)%nat. intros m. by induction m.
Qed.

Lemma op_spec o w w' ins outs :
  QWf w -> op_ok o w -> run_op o w = (w', ins, outs) -> QWf w' /\ ins ++ queued w ≡ₚ outs ++ queued w'.
Proof.
  intros Hw Hok. destruct o as [this sat ok t|i|i|i]; simpl.
  - intros; simplify_eq. destruct (push_spec this sat ok t w Hw) as [? ->]; [|done].
    intros i ->. done.
  - destruct (pop i w) as [w1 r] eqn:E. intros; simplify_eq.
    destruct (pop_spec _ _ _ _ Hw E) as (? & ? & _). done.
  - destruct (take_injected i w) as [w1 b] eqn:E. intros; simplify_eq.
    destruct (take_injected_spec _ _ _ _ Hw Hok E) as (? & -> & _). done.
  - destruct (answer_notification i w) as [w1 b] eqn:E. intros; simplify_eq.
    destruct (answer_notification_spec _ _ _ _ Hw Hok E) as (? & ->). done.
Qed.

Lemma runs_spec w w' ins outs :
  runs w w' ins outs -> QWf w -> QWf w' /\ ins ++ queued w ≡ₚ outs ++ queued w'.
Proof.
  induction 1 as [w|w w1 w2 o ins outs ins' outs' Hr IH Hok Ho]; intros Hw; [done|].
  destruct (IH Hw) as [Hw1 Hq1]. destruct (op_spec _ _ _ _ _ Hw1 Hok Ho) as [Hw2 Hq2]. split; [done|].
  rewrite <- app_assoc, (Permutation_app_swap_app ins ins'), Hq1, Permutation_app_swap_app, Hq2.
  by rewrite app_assoc.
Qed.

(** The run queues keep every task, operation by operation: between them each
    ready task pushed is either still in exactly one queue or was popped
    exactly once, and the lengths are the queues'. *)
Theorem atomic_queues_keep_tasks n w ins outs :
  runs (world_new n) w ins outs ->
  ins ≡ₚ outs ++ queued w /\
  (forall i sh, shared i w = Some sh -> queue_len sh = length (queue sh)) /\
  inject_len w = length (inject w).
Proof.
  intros Hr. destruct (world_new_wf n) as [Hw Hq].
  destruct (runs_spec _ _ _ _ Hr Hw) as [Hw' Hp]. rewrite Hq, app_nil_r in Hp.
  split_and!; [done| |apply (q_inject _ Hw')]. intros i sh H. by apply (shared_wf _ _ _ Hw' H).
Qed.

(** Task 7 on worker 0, then task 8, for which worker 1 is started. *)
Definition one_task : World := push (Some 0%nat) true true 7 (world_new 2).
Definition two_tasks : World := push (Some 0%nat) true true 8 one_task.

Lemma two_tasks_run : runs (world_new 2) two_tasks [7; 8]%nat [].
Proof.
  apply (runs_op _ one_task _ (OPush (Some 0%nat) true true 8) [7]%nat [] [8]%nat []); [|by eexists|reflexivity].
  apply (runs_op _ (world_new 2) _ (OPush (Some 0%nat) true true 7) [] [] [7]%nat []); [|by eexists|reflexivity].
  constructor.
Defined.

Lemma atomic_queues_keep_tasks_witness :
  [7; 8]%nat ≡ₚ [] ++ queued (answer_notification 1 two_tasks).1 /\
  queued (answer_notification 1 two_tasks).1 = [8; 7]%nat.
Proof.
  split; [|reflexivity].
  apply (atomic_queues_keep_tasks 2 _ [7; 8]%nat []).
  apply (runs_op _ two_tasks _ (OAnswer 1) [7; 8]%nat [] [] []); [|by eexists|reflexivity].
  apply two_tasks_run.
Defined.

(** a thief takes half: [steal] fails only when no other worker has a
    task; otherwise it moves the front half (rounded up, so at least one) of
    one other worker's queue to the back of the thief's, in order, and
    touches nothing else. *)
Theorem steal_takes_half n w ins outs i w' b :
  runs (world_new n) w ins outs -> is_Some (shared i w) -> steal i w = (w', b) ->
  queued w' ≡ₚ queued w /\
  (if b then exists v, stole i v w w'
   else w' = w /\ forall v vic, v <> i -> shared v w = Some vic -> queue vic = []).
Proof.
  intros Hr [sh Hsh] Hs. destruct (runs_spec _ _ _ _ Hr (proj1 (world_new_wf n))) as [Hw _].
  by destruct (steal_spec _ _ _ _ _ Hw Hsh Hs) as (_ & ? & ?).
Qed.

Lemma steal_takes_half_witness : exists v, stole 1 v two_tasks (steal 1 two_tasks).1.
Proof.
  apply (steal_takes_half 2 two_tasks [7; 8]%nat [] 1 (steal 1 two_tasks).1 true);
    [apply two_tasks_run|by eexists|reflexivity].
Defined.
