(* ===== verification/RunSteps.v ===== *)
(** * Run queues, one critical section at a time ([src/sched.rs])

    [RunQueue.v] has the operations on the run queues as wholes.  Here the
    threads that make them interleave: a step is one read of a length without
    its lock, or taking a queue's lock and changing the queue, or storing its
    length and releasing it.  Between two critical sections of [take_injected]
    and [steal] the tasks taken are in the thread's hands. *)
From S2P Require Import Prelude RunQueue.

Module RunSteps.

(** A worker, by its index, or a plain thread. *)
Inductive Actor := AWorker (i : nat) | AThread (k : nat).

#[global] Instance Actor_dec : EqDecision Actor.
Proof. solve_decision. Defined.

(** A queue behind its lock, the length readable without it, and who holds
    the lock. *)
Record Q := mkQ { items : list nat; len : nat; holder : option Actor }.

Definition empty_q : Q := mkQ [] 0 None.

(** Taking the lock and changing the queue; storing the length, and releasing
    the lock. *)
Definition enter (a : Actor) (l : list nat) (q : Q) : Q := mkQ l (len q) (Some a).
Definition leave (q : Q) : Q := mkQ (items q) (length (items q)) None.

(** Where a worker is: in [Shared::pop], [take_injected] (which ends with
    [Shared::push]), [Shared::push], [steal]. *)
Inductive WPc :=
  | WIdle
  | WPop
  | WPopHeld (r : option nat)
  | WInject
  | WInjectHeld (r : option nat)
  | WPush (t : nat)
  | WPushHeld
  | WSteal (vs : list nat)
  | WStealLock (v : nat) (vs : list nat)
  | WStealHeld (v : nat) (stolen vs : list nat)
  | WExtend (stolen : list nat)
  | WExtendHeld.

(** Where a plain thread is in [push]. *)
Inductive TPc := TIdle | TPush (t : nat) | TPushHeld.

(** The workers' queues (those not started have none), the shared one, where
    everybody is; and what was pushed and popped so far. *)
Record World := mkWorld {
  qs : list (option Q);
  inj : Q;
  pcs : list WPc;
  ths : list TPc;
  ins : list nat;
  outs : list nat;
}.

Definition set_q (i : nat) (q : Q) (s : World) : World := mkWorld (<[i := Some q]> (qs s)) (inj s) (pcs s) (ths s) (ins s) (outs s).
Definition set_inj (q : Q) (s : World) : World := mkWorld (qs s) q (pcs s) (ths s) (ins s) (outs s).
Definition set_pc (i : nat) (p : WPc) (s : World) : World := mkWorld (qs s) (inj s) (<[i := p]> (pcs s)) (ths s) (ins s) (outs s).
Definition set_th (k : nat) (p : TPc) (s : World) : World := mkWorld (qs s) (inj s) (pcs s) (<[k := p]> (ths s)) (ins s) (outs s).
Definition push_in (t : nat) (s : World) : World := mkWorld (qs s) (inj s) (pcs s) (ths s) (ins s ++ [t]) (outs s).
Definition pop_out (r : option nat) (s : World) : World := mkWorld (qs s) (inj s) (pcs s) (ths s) (ins s) (outs s ++ option_list r).

Definition queue_of (i : nat) (s : World) : option Q := mjoin (qs s !! i).

(** [Shared::pop] and [take_injected] from reading the length to the lock. *)
Definition pop_begin (i : nat) (s : World) : option World :=
  q ← queue_of i s; Some (if len q =? 0 then s else set_pc i WPop s)%nat.
Definition inject_begin (i : nat) (s : World) : option World :=
  Some (if len (inj s) =? 0 then s else set_pc i WInject s)%nat.

(** A worker's next step, if the lock it needs is free. *)
Definition wstep (i : nat) (s : World) : option World :=
  p ← pcs s !! i;
  q ← queue_of i s;
  match p with
  | WIdle => None
  | WPop =>
      match holder q, items q with
      | Some _, _ => None
      | None, t :: l => Some (set_pc i (WPopHeld (Some t)) (set_q i (enter (AWorker i) l q) s))
      | None, [] => Some (set_pc i (WPopHeld None) (set_q i (enter (AWorker i) [] q) s))
      end
  | WPopHeld r => Some (set_pc i WIdle (set_q i (leave q) (pop_out r s)))
  | WInject =>
      match holder (inj s), items (inj s) with
      | Some _, _ => None
      | None, t :: l => Some (set_pc i (WInjectHeld (Some t)) (set_inj (enter (AWorker i) l (inj s)) s))
      | None, [] => Some (set_pc i (WInjectHeld None) (set_inj (enter (AWorker i) [] (inj s)) s))
      end
  | WInjectHeld r =>
      Some (set_pc i (match r with Some t => WPush t | None => WIdle end) (set_inj (leave (inj s)) s))
  | WPush t =>
      match holder q with
      | Some _ => None
      | None => Some (set_pc i WPushHeld (set_q i (enter (AWorker i) (items q ++ [t]) q) s))
      end
  | WPushHeld => Some (set_pc i WIdle (set_q i (leave q) s))
  | WSteal [] => Some (set_pc i WIdle s)
  | WSteal (v :: vs) =>
      match queue_of v s with
      | Some victim => if (v =? i)%nat || (len victim =? 0)%nat then Some (set_pc i (WSteal vs) s) else Some (set_pc i (WStealLock v vs) s)
      | None => Some (set_pc i (WSteal vs) s)
      end
  | WStealLock v vs =>
      victim ← queue_of v s;
      match holder victim with
      | Some _ => None
      | None =>
          let n := div_ceil2 (length (items victim)) in
          Some (set_pc i (WStealHeld v (take n (items victim)) vs) (set_q v (enter (AWorker i) (drop n (items victim)) victim) s))
      end
  | WStealHeld v stolen vs =>
      victim ← queue_of v s;
      Some (set_pc i (match stolen with [] => WSteal vs | _ => WExtend stolen end) (set_q v (leave victim) s))
  | WExtend stolen =>
      match holder q with
      | Some _ => None
      | None => Some (set_pc i WExtendHeld (set_q i (enter (AWorker i) (items q ++ stolen) q) s))
      end
  | WExtendHeld => Some (set_pc i WIdle (set_q i (leave q) s))
  end.

(** [push] by a plain thread. *)
Definition tstep (k : nat) (s : World) : option World :=
  p ← ths s !! k;
  match p with
  | TIdle => None
  | TPush t =>
      match holder (inj s) with
      | Some _ => None
      | None => Some (set_th k TPushHeld (set_inj (enter (AThread k) (items (inj s) ++ [t]) (inj s)) s))
      end
  | TPushHeld => Some (set_th k TIdle (set_inj (leave (inj s)) s))
  end.

Definition idle (i : nat) (s : World) : Prop := pcs s !! i = Some WIdle /\ is_Some (queue_of i s).

Inductive step : World -> World -> Prop :=
  | st_work i s s' : wstep i s = Some s' -> step s s'
  | st_thread k s s' : tstep k s = Some s' -> step s s'
  (** A worker begins an operation. *)
  | st_pop i s s' : idle i s -> pop_begin i s = Some s' -> step s s'
  | st_inject i s s' : idle i s -> inject_begin i s = Some s' -> step s s'
  | st_push i t s : idle i s -> step s (set_pc i (WPush t) (push_in t s))
  | st_steal i s : idle i s -> step s (set_pc i (WSteal (victims i (length (qs s)))) s)
  (** A plain thread pushes a task. *)
  | st_thread_push k t s : ths s !! k = Some TIdle -> step s (set_th k (TPush t) (push_in t s))
  (** A worker whose slot in [WORKERS] isn't set yet is passed over. *)
  | st_unseen i v vs s : pcs s !! i = Some (WSteal (v :: vs)) -> step s (set_pc i (WSteal vs) s)
  (** A worker starts: with an empty queue, and looking for work. *)
  | st_start i s : qs s !! i = Some None -> pcs s !! i = Some WIdle -> step s (set_pc i (WSteal (victims i (length (qs s)))) (set_q i empty_q s)).

(** [count] workers, the first started, and [n] other threads. *)
Definition world_new (count n : nat) : World :=
  mkWorld (Some empty_q :: replicate (count - 1) None) empty_q (replicate count WIdle) (replicate n TIdle) [] [].

Definition reachable (count n : nat) (s : World) : Prop := rtc step (world_new count n) s.

(** ** Where a task can be *)

(** The tasks in a thread's hands, in no queue. *)
Definition w_hand (p : WPc) : list nat :=
  match p with
  | WPopHeld r | WInjectHeld r => option_list r
  | WPush t => [t]
  | WStealHeld _ stolen _ | WExtend stolen => stolen
  | _ => []
  end.
Definition t_hand (p : TPc) : list nat := match p with TPush t => [t] | _ => [] end.
Definition q_items (o : option Q) : list nat := from_option items [] o.

Definition queued (s : World) : list nat := concat (map q_items (qs s)) ++ items (inj s).
Definition in_hands (s : World) : list nat := concat (map w_hand (pcs s)) ++ concat (map t_hand (ths s)).

Abbreviation cnt t l := (count_occ Nat.eq_dec l t).

Lemma cnt_app t l l' : cnt t (l ++ l') = (cnt t l + cnt t l')%nat.
Proof. apply count_occ_app. Qed.

(** Changing one entry. *)
Lemma cnt_insert {A} (f : A -> list nat) t l i x y : l !! i = Some x ->
  (cnt t (f x) + cnt t (concat (map f (<[i := y]> l))) = cnt t (f y) + cnt t (concat (map f l)))%nat.
Proof.
  revert i. induction l as [|z l IH]; intros [|i] H; simplify_eq/=; rewrite !cnt_app; [lia|]. specialize (IH i H). lia.
Qed.

Definition total (t : nat) (s : World) : nat := (cnt t (outs s) + cnt t (queued s) + cnt t (in_hands s))%nat.

Lemma queue_of_Some i s q : queue_of i s = Some q <-> qs s !! i = Some (Some q).
Proof. unfold queue_of. destruct (qs s !! i) as [[]|]; simpl; split; intros; simplify_eq; done. Qed.

Lemma total_set_q t i q q' s : queue_of i s = Some q ->
  (cnt t (items q) + total t (set_q i q' s) = cnt t (items q') + total t s)%nat.
Proof.
  intros H%queue_of_Some. pose proof (cnt_insert q_items t (qs s) i (Some q) (Some q') H) as E.
  unfold total, queued, in_hands, set_q. simpl in *. rewrite !cnt_app. lia.
Qed.

Lemma total_set_inj t q s : (cnt t (items (inj s)) + total t (set_inj q s) = cnt t (items q) + total t s)%nat.
Proof. unfold total, queued, in_hands, set_inj. simpl. rewrite !cnt_app. lia. Qed.

Lemma total_set_pc t i p p' s : pcs s !! i = Some p ->
  (cnt t (w_hand p) + total t (set_pc i p' s) = cnt t (w_hand p') + total t s)%nat.
Proof.
  intros H. pose proof (cnt_insert w_hand t (pcs s) i p p' H) as E.
  unfold total, queued, in_hands, set_pc. simpl. rewrite !cnt_app. lia.
Qed.

Lemma total_set_th t k p p' s : ths s !! k = Some p ->
  (cnt t (t_hand p) + total t (set_th k p' s) = cnt t (t_hand p') + total t s)%nat.
Proof.
  intros H. pose proof (cnt_insert t_hand t (ths s) k p p' H) as E.
  unfold total, queued, in_hands, set_th. simpl. rewrite !cnt_app. lia.
Qed.

Lemma total_pop_out t r s : total t (pop_out r s) = (cnt t (option_list r) + total t s)%nat.
Proof. unfold total, queued, in_hands, pop_out. simpl. rewrite !cnt_app. lia. Qed.

Lemma total_push_in t x s : total t (push_in x s) = total t s.
Proof. done. Qed.

(** ** The invariant *)

(** In a critical section on the worker's own queue. *)
Definition own_held (p : WPc) : bool := match p with WPopHeld _ | WPushHeld | WExtendHeld => true | _ => false end.

(** A queue whose lock is free has its length; under a thief it has at most
    what it had; and its owner holds the lock only in its own critical
    sections. *)
Record q_ok (i : nat) (p : option WPc) (q : Q) : Prop := {
  q_free : holder q = None -> len q = length (items q);
  q_thief : forall a, holder q = Some a -> a <> AWorker i -> (length (items q) <= len q)%nat;
  q_own : holder q = Some (AWorker i) -> exists p', p = Some p' /\ own_held p' = true;
}.

Record Inv (s : World) : Prop := {
  i_total : forall t, cnt t (ins s) = total t s;
  i_queues : forall i q, queue_of i s = Some q -> q_ok i (pcs s !! i) q;
  i_inject : holder (inj s) = None -> len (inj s) = length (items (inj s));
  i_victim : forall i v vs, pcs s !! i = Some (WStealLock v vs) -> v <> i;
}.

Lemma queue_of_set i j q q' s : queue_of j (set_q i q' s) = Some q -> (i = j /\ q = q') \/ (i <> j /\ queue_of j s = Some q).
Proof.
  rewrite !queue_of_Some. simpl. intros [(<- & E & _)|[? ?]]%list_lookup_insert_Some; [left|right]; by simplify_eq.
Qed.

(** A worker that isn't in a critical section of its own moves on. *)
Lemma ok_pc i p p' s : (forall j q, queue_of j s = Some q -> q_ok j (pcs s !! j) q) -> pcs s !! i = Some p -> own_held p = false ->
  forall j q, queue_of j s = Some q -> q_ok j (<[i := p']> (pcs s) !! j) q.
Proof.
  intros Hq Hp Ho j q Hj. destruct (Hq j q Hj) as [H1 H2 H3]. destruct (decide (i = j)) as [<-|Hne]; [|by rewrite list_lookup_insert_ne].
  split; [done..|]. intros E. destruct (H3 E) as (p1 & E1 & E2). congruence.
Qed.

(** It changes another's queue, *)
Lemma ok_other i p p' v q' s : (forall j q, queue_of j s = Some q -> q_ok j (pcs s !! j) q) -> pcs s !! i = Some p -> own_held p = false ->
  q_ok v (<[i := p']> (pcs s) !! v) q' -> forall j q, queue_of j (set_q v q' s) = Some q -> q_ok j (<[i := p']> (pcs s) !! j) q.
Proof.
  intros Hq Hp Ho Hv j q [[<- ->]|[_ Hj]]%queue_of_set; [done|]. by eapply ok_pc.
Qed.

(** or its own. *)
Lemma ok_own i p' q' s : (forall j q, queue_of j s = Some q -> q_ok j (pcs s !! j) q) ->
  q_ok i (<[i := p']> (pcs s) !! i) q' -> forall j q, queue_of j (set_q i q' s) = Some q -> q_ok j (<[i := p']> (pcs s) !! j) q.
Proof.
  intros Hq Hi j q [[<- ->]|[Hne Hj]]%queue_of_set; [done|]. rewrite list_lookup_insert_ne by done. auto.
Qed.

Lemma leave_ok i p q : q_ok i p (leave q).
Proof. by split. Qed.

Lemma enter_own_ok i p (l : list WPc) l' q : l !! i = Some p -> forall p', own_held p' = true -> q_ok i (<[i := p']> l !! i) (enter (AWorker i) l' q).
Proof.
  intros Hp p' Ho. split; simpl; [done|by intros a [= <-]|]. intros _. exists p'. split; [|done]. apply list_lookup_insert_eq. by eapply lookup_lt_Some.
Qed.

(** A thief's victim is another. *)
Definition victim_ok (i : nat) (p : WPc) : Prop := match p with WStealLock v _ => v <> i | _ => True end.

Lemma victims_pc (l : list WPc) i p : (forall j v vs, l !! j = Some (WStealLock v vs) -> v <> j) -> victim_ok i p ->
  forall j v vs, <[i := p]> l !! j = Some (WStealLock v vs) -> v <> j.
Proof. intros Hl Hp j v vs [(<- & -> & _)|[_ ?]]%list_lookup_insert_Some; [done|eauto]. Qed.

(** A step of worker [i] that changes the queue of [v]. *)
Lemma inv_q i p p' v q q' s : Inv s -> pcs s !! i = Some p -> queue_of v s = Some q ->
  (forall t, (cnt t (items q') + cnt t (w_hand p') = cnt t (items q) + cnt t (w_hand p))%nat) ->
  q_ok v (<[i := p']> (pcs s) !! v) q' -> (v = i \/ own_held p = false) -> victim_ok i p' -> Inv (set_pc i p' (set_q v q' s)).
Proof.
  intros [Ht Hq Hi Hvic] Hp Hv Hc Hok Hv' Hp'. split; [|simpl|done|by apply victims_pc].
  - intros t. pose proof (total_set_q t v q q' s Hv). pose proof (total_set_pc t i p p' (set_q v q' s) Hp). specialize (Ht t). specialize (Hc t).
    change (ins (set_pc i p' (set_q v q' s))) with (ins s). lia.
  - destruct Hv' as [->|Ho]; [by apply ok_own|by eapply ok_other].
Qed.

(** One that changes the shared queue, *)
Lemma inv_inj i p p' q' s : Inv s -> pcs s !! i = Some p -> own_held p = false ->
  (forall t, (cnt t (items q') + cnt t (w_hand p') = cnt t (items (inj s)) + cnt t (w_hand p))%nat) ->
  (holder q' = None -> len q' = length (items q')) -> victim_ok i p' -> Inv (set_pc i p' (set_inj q' s)).
Proof.
  intros [Ht Hq Hi Hvic] Hp Ho Hc Hok Hp'. split; [|by apply (ok_pc i p p' s)|done|by apply victims_pc].
  intros t. pose proof (total_set_inj t q' s). pose proof (total_set_pc t i p p' (set_inj q' s) Hp). specialize (Ht t). specialize (Hc t).
  change (ins (set_pc i p' (set_inj q' s))) with (ins s). lia.
Qed.

(** and one that changes none. *)
Lemma inv_pc i p p' s : Inv s -> pcs s !! i = Some p -> own_held p = false -> w_hand p' = w_hand p -> victim_ok i p' -> Inv (set_pc i p' s).
Proof.
  intros [Ht Hq Hi Hvic] Hp Ho Hh Hp'. split; [|by apply (ok_pc i p p' s)|done|by apply victims_pc]. intros t. pose proof (total_set_pc t i p p' s Hp) as E. rewrite Hh in E.
  specialize (Ht t). change (ins (set_pc i p' s)) with (ins s). lia.
Qed.

Lemma cnt_cons t x l : cnt t (x :: l) = (cnt t [x] + cnt t l)%nat.
Proof. change (x :: l) with ([x] ++ l). apply cnt_app. Qed.

Lemma cnt_take_drop t n l : (cnt t (drop n l) + cnt t (take n l) = cnt t l)%nat.
Proof. rewrite <- (take_drop n l) at 3. rewrite cnt_app. lia. Qed.

Lemma inv_work i s s' : Inv s -> wstep i s = Some s' -> Inv s'.
Proof.
  intros HI. unfold wstep. destruct (pcs s !! i) as [p|] eqn:Hp; [|done]. destruct (queue_of i s) as [q|] eqn:Hq; [|done]. cbn [mbind option_bind].
  destruct p as [| |r| |r|t| |[|v vs]|v vs|v stolen vs|stolen|]; try done.
  - destruct (holder q); [done|]. destruct (items q) as [|t l] eqn:Ei; intros [= <-];
      (eapply inv_q; [done|done|done| |by eapply enter_own_ok|by left|done]); intros x; simpl; rewrite Ei; [done|]. rewrite (cnt_cons x t l). simpl. lia.
  - intros [= <-]. destruct HI as [Ht Hqs Hi Hvic]. split; [|apply (ok_own i WIdle (leave q) s); [done|apply leave_ok]|done|by apply victims_pc].
    intros t. pose proof (total_set_q t i q (leave q) (pop_out r s) Hq) as E. pose proof (total_pop_out t r s).
    pose proof (total_set_pc t i _ WIdle (set_q i (leave q) (pop_out r s)) Hp). specialize (Ht t). simpl in *. lia.
  - destruct (holder (inj s)); [done|]. destruct (items (inj s)) as [|t l] eqn:Ei; intros [= <-];
      (eapply inv_inj; [done|done|done| |done|done]); intros x; simpl; rewrite Ei; [done|]. rewrite (cnt_cons x t l). simpl. lia.
  - intros [= <-]. eapply inv_inj; [done|done|done| |done|by destruct r]. intros x. by destruct r.
  - destruct (holder q) eqn:Eh; [done|]. intros [= <-]. eapply inv_q; [done|done|done| |by eapply enter_own_ok|by left|done].
    intros x. simpl. rewrite cnt_app. simpl. lia.
  - intros [= <-]. eapply inv_q; [done|done|done|done|apply leave_ok|by left|done].
  - intros [= <-]. by eapply inv_pc.
  - destruct (queue_of v s); [destruct (Nat.eqb_spec v i); [|destruct (_ =? _)%nat]|]; intros [= <-]; by eapply inv_pc.
  - destruct (queue_of v s) as [vic|] eqn:Hv; [|done]. cbn [mbind option_bind]. destruct (holder vic) eqn:Eh; [done|]. intros [= <-].
    eapply inv_q; [done|done|done| | |by right|done]; [intros x; simpl; rewrite Nat.add_0_r; apply cnt_take_drop|].
    pose proof (q_free _ _ _ (i_queues _ HI v vic Hv) Eh) as El. split; simpl; [done| |].
    + intros a _ _. rewrite length_drop. lia.
    + intros [= <-]. by destruct (i_victim _ HI _ _ _ Hp).
  - destruct (queue_of v s) as [vic|] eqn:Hv; [|done]. intros [= <-].
    eapply inv_q; [done|done|done| |apply leave_ok|by right|by destruct stolen]. intros x. by destruct stolen.
  - destruct (holder q) eqn:Eh; [done|]. intros [= <-]. eapply inv_q; [done|done|done| |by eapply enter_own_ok|by left|done].
    intros x. simpl. rewrite cnt_app. simpl. lia.
  - intros [= <-]. eapply inv_q; [done|done|done|done|apply leave_ok|by left|done].
Qed.

Lemma whole_thread k s s' : Inv s -> tstep k s = Some s' -> Inv s'.
Proof.
  intros [Ht Hq Hi Hv]. unfold tstep. destruct (ths s !! k) as [p|] eqn:Hp; [|done]. cbn [mbind option_bind]. destruct p as [|t|]; [done| |].
  - destruct (holder (inj s)) eqn:Eh; [done|]. intros [= <-]. split; [|done..]. intros x. specialize (Ht x).
    set (q' := enter _ _ _). pose proof (total_set_inj x q' s) as E1. pose proof (total_set_th x k _ TPushHeld (set_inj q' s) Hp) as E2.
    unfold q' in E1. simpl in E1, E2. rewrite cnt_app in E1. simpl in E1. change (ins (set_th k TPushHeld (set_inj q' s))) with (ins s). fold q' in E1. lia.
  - intros [= <-]. split; [|done..]. intros x. specialize (Ht x).
    pose proof (total_set_inj x (leave (inj s)) s) as E1. pose proof (total_set_th x k _ TIdle (set_inj (leave (inj s)) s) Hp) as E2. simpl in *. lia.
Qed.

Lemma whole_step s s' : Inv s -> step s s' -> Inv s'.
Proof.
  intros HI Hs. destruct Hs as [i s s' Hw|k s s' Hw|i s s' [Hp _] Hw|i s s' [Hp _] Hw|i t s [Hp _]|i s [Hp _]|k t s Hp|i v vs s Hp|i s Hn Hp].
  - by eapply inv_work.
  - by eapply whole_thread.
  - unfold pop_begin in Hw. destruct (queue_of i s); [|done]. injection Hw as <-. destruct (_ =? _)%nat; [done|]. by eapply inv_pc.
  - injection Hw as <-. destruct (_ =? _)%nat; [done|]. by eapply inv_pc.
  - destruct HI as [Ht Hq Hi Hv]. split; [|by apply (ok_pc i _ (WPush t) s Hq Hp)|done|by apply victims_pc].
    intros x. pose proof (total_set_pc x i _ (WPush t) (push_in t s) Hp) as E. rewrite total_push_in in E. specialize (Ht x).
    change (ins (set_pc i (WPush t) (push_in t s))) with (ins s ++ [t]). rewrite cnt_app. simpl in *. lia.
  - by eapply inv_pc.
  - destruct HI as [Ht Hq Hi Hv]. split; [|done..].
    intros x. pose proof (total_set_th x k _ (TPush t) (push_in t s) Hp) as E. rewrite total_push_in in E. specialize (Ht x).
    change (ins (set_th k (TPush t) (push_in t s))) with (ins s ++ [t]). rewrite cnt_app. simpl in *. lia.
  - by eapply inv_pc.
  - destruct HI as [Ht Hq Hi Hv]. split; [| |done|by apply victims_pc].
    + intros x. pose proof (cnt_insert q_items x (qs s) i None (Some empty_q) Hn) as E.
      pose proof (total_set_pc x i _ (WSteal (victims i (length (qs s)))) (set_q i empty_q s) Hp) as E2. specialize (Ht x).
      change (ins (set_pc _ _ _)) with (ins s). unfold total, queued, in_hands in *. simpl in *. rewrite !cnt_app in *. lia.
    + by apply (ok_own i _ empty_q s).
Qed.

Lemma reachable_whole count n s : reachable count n s -> Inv s.
Proof.
  intros Hr. eapply rtc_invariant; [|exact Hr|]; [intros; by eapply whole_step|].
  assert (forall {A} (f : A -> list nat) x m, f x = [] -> concat (map f (replicate m x)) = []) as Hrep
    by (intros A f x m Hf; induction m; simpl; [done|by rewrite Hf]).
  split; [|intros [|i] q Hq%queue_of_Some; simpl in Hq; [by injection Hq as <-|by apply lookup_replicate in Hq as [? _]]|done
    |intros i v vs H; by apply lookup_replicate in H as [? _]].
  intros t. unfold total, queued, in_hands. simpl. by rewrite !Hrep.
Qed.

(** C33: The run queues lose no task and run none twice.  Whatever pushes, pops,
    injections and thefts workers and other threads make, their critical
    sections interleaved in any way, each task pushed has been popped exactly
    once, or is in exactly one queue, or in the hands of exactly one thread
    that is about to put it in a queue or return it.  A length that is read
    without its queue's lock is the queue's whenever nobody is in a critical
    section on it; and a worker that reads zero as its own queue's length, and
    so goes to look elsewhere or to sleep, has an empty queue, even if a thief
    is taking tasks from it. *)
Theorem run_queues_keep_tasks count n s : reachable count n s ->
  ins s ≡ₚ outs s ++ queued s ++ in_hands s /\
  (forall i q, queue_of i s = Some q -> holder q = None -> len q = length (items q)) /\
  (holder (inj s) = None -> len (inj s) = length (items (inj s))) /\
  (forall i q, idle i s -> queue_of i s = Some q -> len q = 0%nat -> items q = []).
Proof.
  intros [Ht Hq Hi _]%reachable_whole. split_and!; [| |done|].
  - apply (Permutation_count_occ Nat.eq_dec). intros t. rewrite Ht. unfold total. rewrite !cnt_app. lia.
  - intros i q H. apply (Hq i q H).
  - intros i q [Hp _] H El. destruct (Hq i q H) as [H1 H2 H3]. apply length_zero_iff_nil.
    destruct (holder q) as [a|] eqn:E; [|rewrite <- H1 by done; done].
    assert (a <> AWorker i) as Hne by (intros ->; destruct (H3 eq_refl) as (p & E1 & E2); rewrite Hp in E1; by simplify_eq).
    specialize (H2 a eq_refl Hne). lia.
Qed.

(** ** A theft under way *)

(** Task 7 and 8 on worker 0; worker 1 has started and taken task 7 from its
    queue, which it still has locked, when worker 0 looks at the length. *)
Definition push_two (s : World) : option World :=
  s ← wstep 0 (set_pc 0 (WPush 7) (push_in 7 s)); s ← wstep 0 s;
  s ← wstep 0 (set_pc 0 (WPush 8) (push_in 8 s)); wstep 0 s.
Definition with_thief (s : World) : World := set_pc 1 (WSteal (victims 1 2)) (set_q 1 empty_q s).
Definition thief_works (s : World) : option World := s ← wstep 1 s; wstep 1 s.

Definition pushed : World := default (world_new 2 0) (push_two (world_new 2 0)).
Definition stealing : World := default pushed (thief_works (with_thief pushed)).

Lemma stealing_reachable : reachable 2 0 stealing.
Proof.
  unfold reachable. do 3 (eapply rtc_l; [first [apply (st_push 0 7); split; [reflexivity|by eexists] | eapply (st_work 0); vm_compute; reflexivity]|]).
  do 3 (eapply rtc_l; [first [apply (st_push 0 8); split; [reflexivity|by eexists] | eapply (st_work 0); vm_compute; reflexivity]|]).
  eapply rtc_l; [apply (st_start 1); reflexivity|]. eapply rtc_l; [eapply (st_work 1); vm_compute; reflexivity|].
  apply rtc_once. apply (st_work 1). vm_compute. reflexivity.
Defined.

Lemma run_queues_keep_tasks_witness :
  [7; 8]%nat ≡ₚ [] ++ queued stealing ++ in_hands stealing /\ queued stealing = [8]%nat /\ in_hands stealing = [7]%nat /\
  (len <$> queue_of 0 stealing) = Some 2%nat.
Proof.
  split_and!; [|reflexivity..]. exact (proj1 (run_queues_keep_tasks 2 0 stealing stealing_reachable)).
Defined.

End RunSteps.
