(* ===== verification/Worker.v ===== *)
(** * A worker: its timers, its loop, budgets and stacks ([src/sched.rs])

    The timers are a [BTreeMap] ordered by (deadline, wait id), here a list
    in that order.  The loop is [Worker::run], one iteration at a time, with
    what a task does while it runs (the tasks it makes ready) as an input. *)
From S2P Require Import Prelude TaskProto RunQueue.
Local Open Scope Z_scope.

(** ** Timers *)
Module Timers.

(** [(Instant, u64)], ordered lexicographically. *)
Abbreviation key := (Z * Z)%type (only parsing).
Definition key_lt (a b : key) : bool := (a.1 <? b.1) || ((a.1 =? b.1) && (a.2 <? b.2)).

(** The map: each key with the task whose wait [key.2] it ends. *)
Abbreviation timers := (list (key * nat)) (only parsing).

(** [BTreeMap::insert] *)
Fixpoint insert (k : key) (task : nat) (m : timers) : timers :=
  match m with
  | [] => [(k, task)]
  | (k', t') :: m' => if key_lt k k' then (k, task) :: m
                      else if key_lt k' k then (k', t') :: insert k task m'
                      else (k, task) :: m'
  end.

(** [BTreeMap::remove] *)
Fixpoint remove (k : key) (m : timers) : timers :=
  match m with
  | [] => []
  | (k', t') :: m' => if bool_decide (k = k') then m' else (k', t') :: remove k m'
  end.

(** [fire_timers]' loop: take first entries while they are due. *)
Fixpoint fire_timers (now : instant) (m : timers) : list (nat * Z) * timers :=
  match m with
  | [] => ([], [])
  | ((at_, wait), task) :: m' =>
      if now <? at_ then ([], m)
      else let '(due, rest) := fire_timers now m' in ((task, wait) :: due, rest)
  end.

(** The wait-and-deadline timer of [wait_suspended], before and after it. *)
Definition arm (d : deadline) (wait : Z) (task : nat) (m : timers) : timers :=
  match d with Some at_ => insert (at_, wait) task m | None => m end.
Definition disarm (d : deadline) (wait : Z) (m : timers) : timers :=
  match d with Some at_ => remove (at_, wait) m | None => m end.

(** How long [Worker::park] polls for: [None] is until an event. *)
Definition park_timeout (work_waiting : bool) (now : instant) (m : timers) : option Z :=
  if work_waiting then Some 0
  else match m with
       | [] => None
       | ((at_, _), _) :: _ => Some (Z.min (saturating_sub at_ now) MAX_POLL_WAIT)
       end.

(** *** Order *)

Fixpoint sorted_from (lo : key) (m : timers) : Prop :=
  match m with [] => True | (k, _) :: m => key_lt lo k = true /\ sorted_from k m end.

Definition sorted (m : timers) : Prop :=
  match m with [] => True | (k, _) :: m => sorted_from k m end.

Lemma key_lt_spec a b : key_lt a b = true <-> a.1 < b.1 \/ (a.1 = b.1 /\ a.2 < b.2).
Proof.
  unfold key_lt. rewrite orb_true_iff, andb_true_iff, !Z.ltb_lt, Z.eqb_eq. done.
Qed.

Lemma key_lt_false a b : key_lt a b = false <-> ~ (a.1 < b.1 \/ (a.1 = b.1 /\ a.2 < b.2)).
Proof. rewrite <- key_lt_spec. by destruct (key_lt a b). Qed.

Lemma sorted_from_weaken lo lo' m : key_lt lo' lo = true -> sorted_from lo m -> sorted_from lo' m.
Proof.
  destruct m as [|[k t] m]; simpl; [done|]. intros H [H1 H2]. split; [|done].
  rewrite key_lt_spec in *. lia.
Qed.

Lemma sorted_from_sorted lo m : sorted_from lo m -> sorted m.
Proof. destruct m as [|[k t] m]; simpl; [done|]. by intros [_ ?]. Qed.

Lemma insert_sorted_from lo k t m : key_lt lo k = true -> sorted_from lo m -> sorted_from lo (insert k t m).
Proof.
  revert lo. induction m as [|[k' t'] m IH]; simpl; intros lo Hlo; [done|]. intros [H1 H2].
  destruct (key_lt k k') eqn:E1; [done|]. destruct (key_lt k' k) eqn:E2; simpl; [auto|].
  split; [done|]. destruct m as [|[k2 t2] m]; simpl in *; [done|]. destruct H2 as [H2 H3]. split; [|done].
  apply key_lt_false in E1, E2. apply key_lt_spec in H2. apply key_lt_spec. lia.
Qed.

Lemma insert_sorted k t m : sorted m -> sorted (insert k t m).
Proof.
  destruct m as [|[k' t'] m]; simpl; [done|]. intros H.
  destruct (key_lt k k') eqn:E1; [done|]. destruct (key_lt k' k) eqn:E2; simpl.
  - by apply insert_sorted_from.
  - assert (k = k') as ->; [|done]. apply key_lt_false in E1, E2. destruct k, k'; simpl in *. f_equal; lia.
Qed.

Lemma remove_sorted_from lo k m : sorted_from lo m -> sorted_from lo (remove k m).
Proof.
  revert lo. induction m as [|[k' t'] m IH]; simpl; intros lo; [done|]. intros [H1 H2].
  case_bool_decide; simpl; [|auto]. by eapply sorted_from_weaken.
Qed.

Lemma remove_sorted k m : sorted m -> sorted (remove k m).
Proof.
  destruct m as [|[k' t'] m]; simpl; [done|]. intros H. case_bool_decide; simpl.
  - by eapply sorted_from_sorted.
  - by apply remove_sorted_from.
Qed.

Lemma sorted_from_ge lo m e : sorted_from lo m -> e ∈ m -> lo.1 <= e.1.1.
Proof.
  revert lo. induction m as [|[k t] m IH]; simpl; intros lo; [by intros _ ?%elem_of_nil|].
  intros [H1 H2] [->|Hin]%elem_of_cons; apply key_lt_spec in H1; simpl.
  - lia.
  - specialize (IH _ H2 Hin). lia.
Qed.

Lemma fire_timers_spec now m :
  sorted m ->
  fire_timers now m = (map (fun e : key * nat => (e.2, e.1.2)) (List.filter (fun e => e.1.1 <=? now) m),
                       List.filter (fun e => now <? e.1.1) m).
Proof.
  intros Hs. induction m as [|[[a w] t] m IH]; simpl; [done|].
  rewrite Z.ltb_antisym. destruct (Z.leb_spec a now); simpl.
  - rewrite IH by (by eapply sorted_from_sorted). done.
  - assert (forall e, e ∈ m -> now < e.1.1) as Hge.
    { intros e He. pose proof (sorted_from_ge _ _ _ Hs He). simpl in *. lia. }
    clear IH Hs. f_equal.
    + induction m as [|e m IH]; simpl; [done|]. specialize (Hge e ltac:(left)) as H1.
      destruct (Z.leb_spec (e.1.1) now); [lia|]. apply IH. intros. apply Hge. by right.
    + f_equal. induction m as [|e m IH]; simpl; [done|]. specialize (Hge e ltac:(left)) as H1.
      destruct (Z.ltb_spec now (e.1.1)); [|lia]. f_equal. apply IH. intros. apply Hge. by right.
Qed.

(** The timers a worker's [timers] can hold. *)
Inductive reachable : timers -> Prop :=
  | r_new : reachable []
  | r_arm d w t m : reachable m -> reachable (arm d w t m)
  | r_disarm d w m : reachable m -> reachable (disarm d w m)
  | r_fire now m : reachable m -> reachable (fire_timers now m).2.

Lemma filter_sorted_from f lo m : sorted_from lo m -> sorted_from lo (List.filter f m).
Proof.
  revert lo. induction m as [|[k t] m IH]; simpl; intros lo; [done|]. intros [H1 H2].
  destruct (f (k, t)); simpl; [auto|]. apply IH. by eapply sorted_from_weaken.
Qed.

Lemma reachable_sorted m : reachable m -> sorted m.
Proof.
  induction 1 as [|[a|] w t m H IH|[a|] w m H IH|now m H IH]; simpl; try done.
  - by apply insert_sorted.
  - by apply remove_sorted.
  - rewrite fire_timers_spec by done. simpl. destruct m as [|[k t] m]; simpl in *; [done|].
    destruct (now <? k.1); simpl; [by apply filter_sorted_from|].
    by eapply sorted_from_sorted, filter_sorted_from.
Qed.

(** firing the timers ends exactly the waits whose deadline has come, in
    order of deadline, and keeps every other timer. *)
Theorem timers_fire_exactly now m due rest :
  reachable m -> fire_timers now m = (due, rest) ->
  due = map (fun e : key * nat => (e.2, e.1.2)) (List.filter (fun e => e.1.1 <=? now) m) /\
  rest = List.filter (fun e => now <? e.1.1) m.
Proof. intros Hr%reachable_sorted. rewrite fire_timers_spec by done. by intros; simplify_eq. Qed.

Definition demo : timers := arm (Some 30) 1 7 (arm (Some 10) 2 8 (arm (Some 20) 3 9 [])).

Lemma demo_reachable_timers : reachable demo.
Proof. unfold demo. repeat constructor. Defined.

Lemma timers_fire_exactly_witness :
  [(8%nat, 2); (9%nat, 3)] = map (fun e : key * nat => (e.2, e.1.2)) (List.filter (fun e => e.1.1 <=? 25) demo).
Proof. apply (timers_fire_exactly 25 demo _ [((30, 1), 7%nat)] demo_reachable_timers). reflexivity. Defined.

(** a sleeping worker doesn't oversleep a timer: the time it polls for
    ends no later than the earliest deadline (it can be cut to
    [MAX_POLL_WAIT], after which it polls again), and it only polls with no
    limit when there is no timer at all. *)
Theorem park_in_time now m :
  reachable m ->
  match park_timeout false now m with
  | None => m = []
  | Some d => 0 <= d <= MAX_POLL_WAIT /\ (forall e, e ∈ m -> now + d <= Z.max now e.1.1) /\
              (d < MAX_POLL_WAIT -> exists e, e ∈ m /\ e.1.1 <= now + d)
  end.
Proof.
  intros Hr%reachable_sorted. destruct m as [|[[a w] t] m]; simpl; [done|].
  unfold saturating_sub, MAX_POLL_WAIT in *. split_and!; [lia|lia| |].
  - intros e [->|He]%elem_of_cons; simpl; [lia|].
    pose proof (sorted_from_ge _ _ _ Hr He). simpl in *. lia.
  - intros Hd. exists ((a, w), t). split; [left|]. simpl. lia.
Qed.

Lemma park_in_time_witness : park_timeout false 5 demo = Some 5 /\ 0 <= 5 <= MAX_POLL_WAIT.
Proof. split; [reflexivity|]. apply (park_in_time 5 demo demo_reachable_timers). Defined.

End Timers.

(** ** The loop *)
Module Loop.

Inductive Did := Stop | Ran (task : nat) (polled : bool) | Went | Park.

(** One turn of [Worker::run]'s loop; [woken]: the tasks that became ready
    on this worker while the task ran. *)
Definition run_turn (i : nat) (main_done : bool) (woken : list nat) (ticks : Z) (w : World)
  : World * Z * Did :=
  if (i =? 0)%nat && main_done then (w, ticks, Stop)
  else
    let '(w1, r) := pop i w in
    match r with
    | Some task =>
        let w2 := foldl (fun w t => push (Some i) false false t w) w1 woken in
        let ticks' := wrap 32 (ticks + 1) in
        if ticks' mod EVENT_INTERVAL =? 0
        then ((take_injected i w2).1, ticks', Ran task true)
        else (w2, ticks', Ran task false)
    | None =>
        let '(w2, took) := take_injected i w1 in
        if took then (w2, ticks, Went)
        else let '(w3, found) := answer_notification i w2 in
             (w3, ticks, if found then Went else Park)
    end.

(** Turns until the worker parks or stops, or the inputs run out. *)
Fixpoint run_turns (i : nat) (ins : list (list nat)) (ticks : Z) (w : World) : World * Z * list Did :=
  match ins with
  | [] => (w, ticks, [])
  | woken :: ins =>
      let '(w1, ticks1, did) := run_turn i false woken ticks w in
      let '(w2, ticks2, dids) := run_turns i ins ticks1 w1 in (w2, ticks2, did :: dids)
  end.

(** Turns left, counting this one, before the next poll if tasks keep
    coming. *)
Definition to_poll (ticks : Z) : Z :=
  Z.min (EVENT_INTERVAL - ticks mod EVENT_INTERVAL) (2 ^ 32 - ticks).

Lemma to_poll_range ticks : 0 <= ticks < 2 ^ 32 -> 1 <= to_poll ticks <= 61.
Proof. intros H. unfold to_poll, EVENT_INTERVAL. pose proof (Z.mod_pos_bound ticks 61 ltac:(lia)). lia. Qed.

(** A turn that doesn't poll is one turn nearer to one that does. *)
Lemma to_poll_step ticks :
  0 <= ticks < 2 ^ 32 -> (wrap 32 (ticks + 1)) mod EVENT_INTERVAL <> 0 ->
  to_poll (wrap 32 (ticks + 1)) = to_poll ticks - 1.
Proof.
  intros H Hne. unfold wrap in *. destruct (Z.eq_dec (ticks + 1) (2 ^ 32)) as [E|E].
  { exfalso. rewrite E in Hne. by apply Hne. }
  rewrite (Z.mod_small (ticks + 1) (2 ^ 32)) in * by lia. unfold to_poll, EVENT_INTERVAL in *.
  assert ((ticks + 1) mod 61 = ticks mod 61 + 1) as ->; [|lia].
  pose proof (Z.mod_pos_bound ticks 61 ltac:(lia)).
  pose proof (Z.mod_pos_bound (ticks + 1) 61 ltac:(lia)).
  pose proof (Z.div_mod ticks 61 ltac:(lia)). pose proof (Z.div_mod (ticks + 1) 61 ltac:(lia)). lia.
Qed.

Lemma pushes_inject i ts w :
  inject (foldl (fun w t => push (Some i) false false t w) w ts) = inject w.
Proof.
  revert w. induction ts as [|t ts IH]; intros w; simpl; [done|]. rewrite IH. unfold push.
  destruct (shared i w); simpl; [|done]. by rewrite andb_false_r.
Qed.

Lemma pushes_spec i ts w :
  QWf w -> is_Some (shared i w) ->
  let w' := foldl (fun w t => push (Some i) false false t w) w ts in QWf w' /\ is_Some (shared i w').
Proof.
  revert w. induction ts as [|t ts IH]; intros w Hw Hs; cbn [foldl]; [done|]. apply IH.
  - apply push_spec; [done|]. by intros ? [= <-].
  - unfold push. destruct Hs as [sh Hs]. rewrite Hs. simpl. rewrite andb_false_r.
    eexists. by eapply shared_set_shared.
Qed.

Lemma pop_inject i w : inject (pop i w).1 = inject w.
Proof. unfold pop. destruct (shared i w); [|done]. by destruct (Shared_pop s). Qed.

Lemma pop_started i w : is_Some (shared i w) -> is_Some (shared i (pop i w).1).
Proof.
  intros [sh Hs]. unfold pop. rewrite Hs. destruct (Shared_pop sh).
  eexists. by eapply shared_set_shared.
Qed.

(** [take_injected] takes the oldest injected task. *)
Lemma take_injected_first i w t q :
  QWf w -> is_Some (shared i w) -> inject w = t :: q ->
  exists w' sh, take_injected i w = (w', true) /\ inject w' = q /\ shared i w' = Some sh /\
    last (queue sh) = Some t.
Proof.
  intros Hw [sh Hs] E. unfold take_injected. rewrite (q_inject w Hw), E, Hs. simpl.
  eexists _, _. split_and!; [done|done|by eapply shared_set_shared|]. simpl. apply last_snoc.
Qed.

(** While an injected task waits, a turn takes it, or runs a task and is one
    turn nearer to taking it. *)
Lemma turn_progress i woken ticks w t q w' ticks' did :
  QWf w -> is_Some (shared i w) -> 0 <= ticks < 2 ^ 32 -> inject w = t :: q ->
  run_turn i false woken ticks w = (w', ticks', did) ->
  (inject w' = q /\ exists sh, shared i w' = Some sh /\ last (queue sh) = Some t) \/
  (QWf w' /\ is_Some (shared i w') /\ 0 <= ticks' < 2 ^ 32 /\ inject w' = t :: q /\
   to_poll ticks' = to_poll ticks - 1).
Proof.
  intros Hw Hs Ht Hi. unfold run_turn. rewrite andb_false_r.
  destruct (pop i w) as [w1 r] eqn:Ep. destruct (pop_spec _ _ _ _ Hw Ep) as (Hw1 & _ & _).
  assert (inject w1 = t :: q) as Hi1 by (pose proof (pop_inject i w); rewrite Ep in *; simpl in *; congruence).
  assert (is_Some (shared i w1)) as Hs1 by (pose proof (pop_started i w Hs) as Hx; by rewrite Ep in Hx).
  assert (0 <= wrap 32 (ticks + 1) < 2 ^ 32) by (apply Z.mod_pos_bound; lia).
  destruct r as [task|].
  - pose proof (pushes_inject i woken w1) as Hi2. rewrite Hi1 in Hi2.
    destruct (pushes_spec i woken w1 Hw1 Hs1) as [Hw2 Hs2].
    set (w2 := foldl _ w1 woken) in *.
    destruct (Z.eqb_spec (wrap 32 (ticks + 1) mod EVENT_INTERVAL) 0) as [E|E].
    + destruct (take_injected_first i w2 t q Hw2 Hs2 Hi2) as (w3 & sh & -> & Hi3 & Hs3 & Hl).
      intros; simplify_eq/=. left. split; [done|]. by exists sh.
    + intros; simplify_eq. right. split_and!; try done; try lia. by apply to_poll_step.
  - destruct (take_injected_first i w1 t q Hw1 Hs1 Hi1) as (w3 & sh & -> & Hi3 & Hs3 & Hl).
    intros; simplify_eq/=. left. split; [done|]. by exists sh.
Qed.

Lemma injected_soon n i ins ticks w t q :
  QWf w -> is_Some (shared i w) -> 0 <= ticks < 2 ^ 32 -> inject w = t :: q ->
  to_poll ticks <= Z.of_nat n -> (n <= length ins)%nat ->
  exists k, (k <= n)%nat /\ let w' := (run_turns i (take k ins) ticks w).1.1 in
    inject w' = q /\ exists sh, shared i w' = Some sh /\ last (queue sh) = Some t.
Proof.
  revert ins ticks w. induction n as [|n IH]; intros ins ticks w Hw Hs Ht Hi Hp Hn.
  { pose proof (to_poll_range ticks Ht). lia. }
  destruct ins as [|woken ins]; simpl in Hn; [lia|].
  destruct (run_turn i false woken ticks w) as [[w1 ticks1] did] eqn:E.
  destruct (turn_progress _ _ _ _ _ _ _ _ _ Hw Hs Ht Hi E) as [[Hi1 Hl]|(Hw1 & Hs1 & Ht1 & Hi1 & Hp1)].
  - exists 1%nat. split; [lia|]. simpl. rewrite E. done.
  - destruct (IH ins ticks1 w1 Hw1 Hs1 Ht1 Hi1 ltac:(lia) ltac:(lia)) as (k & Hk & Hr).
    exists (S k). split; [lia|]. simpl. rewrite E.
    by destruct (run_turns i (take k ins) ticks1 w1) as [[w2 t2] ds].
Qed.

(** a busy worker doesn't starve the shared queue: however many tasks
    keep becoming ready on it, it takes the oldest injected task within
    [EVENT_INTERVAL] turns of its loop, also where the 32-bit turn counter
    wraps. *)
Theorem injected_task_taken n w ins outs i inputs ticks t q :
  runs (world_new n) w ins outs -> is_Some (shared i w) -> 0 <= ticks < 2 ^ 32 ->
  inject w = t :: q -> length inputs = 61%nat ->
  exists k, (k <= 61)%nat /\ let w' := (run_turns i (take k inputs) ticks w).1.1 in
    inject w' = q /\ exists sh, shared i w' = Some sh /\ last (queue sh) = Some t.
Proof.
  intros Hr Hs Ht Hi Hl. destruct (runs_spec _ _ _ _ Hr (proj1 (world_new_wf n))) as [Hw _].
  apply injected_soon; try done; [|lia]. pose proof (to_poll_range ticks Ht). lia.
Qed.

Definition injected : World := push None false false 5 (world_new 1).

Lemma injected_task_taken_witness :
  exists k, (k <= 61)%nat /\
    let w' := (run_turns 0 (take k (replicate 61 [9%nat])) 4294967290 injected).1.1 in
    inject w' = [] /\ exists sh, shared 0 w' = Some sh /\ last (queue sh) = Some 5%nat.
Proof.
  apply (injected_task_taken 1 injected [5%nat] []); [|by eexists|lia|reflexivity|reflexivity].
  apply (runs_op _ (world_new 1) _ (OPush None false false 5) [] [] [5%nat] []); [constructor|done|reflexivity].
Defined.

End Loop.

(** ** Budgets and stacks *)
Module Budget.

(** [take_op] on [OPS_LEFT]. *)
Definition take_op (left : Z) : bool * Z := if left <=? 1 then (false, left) else (true, left - 1).

(** [consume_budget] in a task: whether it yields; [run_task] then sets the
    budget again. *)
Definition consume_budget (left : Z) : bool * Z :=
  let '(ok, left') := take_op left in if ok then (false, left') else (true, BUDGET).

(** Operations that complete without waiting, and how many yield. *)
Fixpoint operations (n : nat) (left : Z) : Z :=
  match n with
  | 0%nat => 0
  | S n => let '(y, left') := consume_budget left in (if y then 1 else 0) + operations n left'
  end.

Lemma operations_count n left :
  1 <= left <= BUDGET -> operations n left = (Z.of_nat n + (BUDGET - left)) / BUDGET.
Proof.
  revert left. induction n as [|n IH]; intros left Hl.
  - simpl. symmetry. apply Z.div_small. unfold BUDGET in *. lia.
  - cbn [operations]. unfold consume_budget, take_op. destruct (Z.leb_spec left 1).
    + rewrite IH by (unfold BUDGET; lia). assert (left = 1) as -> by lia.
      replace (Z.of_nat (S n) + (BUDGET - 1)) with (Z.of_nat n + (BUDGET - BUDGET) + 1 * BUDGET) by lia.
      rewrite Z.div_add by done. lia.
    + rewrite IH by lia. rewrite Z.add_0_l. f_equal. lia.
Qed.

(** a task that never waits still lets others run: of any [n] operations
    that complete at once, exactly one in [BUDGET] yields to the worker's
    queue. *)
Theorem budget_yields n : operations n BUDGET = Z.of_nat n / BUDGET.
Proof. rewrite operations_count by (unfold BUDGET; lia). f_equal. lia. Qed.

(** [STACKS], counted; [None] from [take_stack]: a new one is allocated. *)
Definition take_stack {S} (pool : list S) : option S * list S :=
  match List.rev pool with [] => (None, pool) | s :: r => (Some s, List.rev r) end.
Definition recycle_stack {S} (s : S) (pool : list S) : list S :=
  if (length pool <? MAX_POOLED_STACKS)%nat then pool ++ [s] else pool.

End Budget.
