(* ===== verification/Threads.v ===== *)
(** * Threads, coroutines and stacks ([src/sched.rs])

    A task is a coroutine that any worker may resume, so what "the running
    task" is lives in thread-locals that every switch has to set right
    ([run_task], [suspend], the start of a coroutine).  Here: the threads with
    their thread-locals, the coroutines with the stacks they run on and the
    pool those come from, tasks being resumed on whichever worker takes them,
    and [run_main], which ends when the first task does.

    Which tasks are queued, and by whom, is [TaskProto.v]'s and [RunQueue.v]'s;
    here any worker may take any queued task. *)
From S2P Require Import Prelude TaskProto Waiters RunQueue Worker.
Local Open Scope Z_scope.

Module Threads.

(** [Suspend] *)
Inductive Suspend := Wait | Yield.

(** The thread-locals, and whose code runs: a task's, or other code of the
    thread.  A [Yielder] is named by its coroutine's task. *)
Inductive Code := Outside | Running (task : nat).
Record Thread := mkThread { WORKER : option nat; YIELDER : option nat; CURRENT_TASK : option nat; OPS_LEFT : Z; code : Code }.

Definition set_worker (w : option nat) (th : Thread) : Thread := mkThread w (YIELDER th) (CURRENT_TASK th) (OPS_LEFT th) (code th).
Definition set_yielder (y : option nat) (th : Thread) : Thread := mkThread (WORKER th) y (CURRENT_TASK th) (OPS_LEFT th) (code th).
Definition set_current_task (t : option nat) (th : Thread) : Thread := mkThread (WORKER th) (YIELDER th) t (OPS_LEFT th) (code th).
Definition set_ops_left (ops : Z) (th : Thread) : Thread := mkThread (WORKER th) (YIELDER th) (CURRENT_TASK th) ops (code th).
Definition set_code (c : Code) (th : Thread) : Thread := mkThread (WORKER th) (YIELDER th) (CURRENT_TASK th) (OPS_LEFT th) c.

(** [this_worker], [current_worker] and [current_task] *)
Definition this_worker (th : Thread) : option nat := WORKER th.
Definition current_worker (th : Thread) : option nat := match YIELDER th with None => None | Some _ => WORKER th end.
Definition current_task (th : Thread) : option nat := match YIELDER th with None => None | Some _ => CURRENT_TASK th end.

(** [current_task_id]: ids count up from 1, [main!]'s. *)
Definition current_task_id (th : Thread) : option Z := (fun t => Z.of_nat t + 1) <$> current_task th.

(** [yield_now]: whether the code suspends. *)
Definition yield_now (th : Thread) : option Suspend := match current_worker th with Some _ => Some Yield | None => None end.

(** [new_waker], [waker] and [waker_uncancellable]: for the running task's next
    wait, whose id is [wait] and which cancelling ends or not; or for the
    thread, outside tasks. *)
Definition new_waker (thread : nat) (cancellable : bool) (wait : Z) (th : Thread) : TaskWaker * option (nat * Z * bool) :=
  match current_task th with
  | Some task => (WTask task wait, Some (task, wait, cancellable))
  | None => (WThread thread, None)
  end.
Definition waker (thread : nat) := new_waker thread true.
Definition waker_uncancellable (thread : nat) := new_waker thread false.

(** A task's coroutine: never resumed, inside [suspend] with the yielder it
    will set again, on a thread, or taken away when it returned. *)
Inductive Co := Fresh (stack : nat) | Suspended (stack saved : nat) | OnThread (stack : nat) | Taken.

Definition stack_of (c : Co) : option nat := match c with Fresh s | Suspended s _ | OnThread s => Some s | Taken => None end.

(** [co.resume(())] for task [t] on a thread: the coroutine's first code, or
    the end of [suspend], sets the yielder. [None]: it can't be resumed. *)
Definition resume (t : nat) (c : Co) (th : Thread) : option (Co * Thread) :=
  match c with
  | Fresh s => Some (OnThread s, set_code (Running t) (set_yielder (Some t) th))
  | Suspended s saved => Some (OnThread s, set_code (Running t) (set_yielder (Some saved) th))
  | OnThread _ | Taken => None
  end.

(** [run_task] up to the coroutine, and once it has control again. *)
Definition run_task_begin (t : nat) (th : Thread) : Thread := set_ops_left BUDGET (set_current_task (Some t) th).
Definition run_task_end (th : Thread) : Thread := set_current_task None (set_yielder None (set_code Outside th)).

(** [suspend]: the coroutine of the yielder found is the one that stops. *)
Definition suspend (th : Thread) (cos : list Co) : option (list Co) :=
  y ← YIELDER th;
  match cos !! y with Some (OnThread s) => Some (<[y := Suspended s y]> cos) | _ => None end.

(** ** The system *)

Record Sys := mkSys {
  threads : list Thread; cos : list Co; ready : list nat; waiting : list nat;
  pool : list nat; next_stack : nat; cancelled : list bool;
  MAIN_RESULT : option Z; MAIN_DONE : bool }.

Definition set_thread (i : nat) (th : Thread) (s : Sys) : Sys :=
  mkSys (<[i := th]> (threads s)) (cos s) (ready s) (waiting s) (pool s) (next_stack s) (cancelled s) (MAIN_RESULT s) (MAIN_DONE s).
Definition set_cos (l : list Co) (s : Sys) : Sys :=
  mkSys (threads s) l (ready s) (waiting s) (pool s) (next_stack s) (cancelled s) (MAIN_RESULT s) (MAIN_DONE s).
Definition set_queues (r w : list nat) (s : Sys) : Sys :=
  mkSys (threads s) (cos s) r w (pool s) (next_stack s) (cancelled s) (MAIN_RESULT s) (MAIN_DONE s).
Definition set_stacks (l : list nat) (n : nat) (s : Sys) : Sys :=
  mkSys (threads s) (cos s) (ready s) (waiting s) l n (cancelled s) (MAIN_RESULT s) (MAIN_DONE s).
Definition set_cancelled (l : list bool) (s : Sys) : Sys :=
  mkSys (threads s) (cos s) (ready s) (waiting s) (pool s) (next_stack s) l (MAIN_RESULT s) (MAIN_DONE s).
Definition set_main (r : option Z) (d : bool) (s : Sys) : Sys :=
  mkSys (threads s) (cos s) (ready s) (waiting s) (pool s) (next_stack s) (cancelled s) r d.

(** [is_cancelled] *)
Definition is_cancelled (th : Thread) (s : Sys) : bool := from_option (fun t => default false (cancelled s !! t)) false (current_task th).

(** [spawn], once the scheduler runs: [stack_ok] is whether a new stack could
    be allocated, if the pool had none. *)
Definition take_stack (stack_ok : bool) (s : Sys) : option (nat * Sys) :=
  match Budget.take_stack (pool s) with
  | (Some stack, p) => Some (stack, set_stacks p (next_stack s) s)
  | (None, _) => if stack_ok then Some (next_stack s, set_stacks (pool s) (S (next_stack s)) s) else None
  end.
Definition spawn (stack_ok : bool) (s : Sys) : option Sys :=
  '(stack, s) ← take_stack stack_ok s;
  let t := length (cos s) in
  Some (set_cancelled (cancelled s ++ [false]) (set_queues (ready s ++ [t]) (waiting s) (set_cos (cos s ++ [Fresh stack]) s))).

(** [TaskRef::cancel]'s flag *)
Definition cancel (t : nat) (s : Sys) : Sys := set_cancelled (<[t := true]> (cancelled s)) s.

(** [run_task]: a worker resumes the task it took from a queue. *)
Definition take_task (i t : nat) (th : Thread) (s : Sys) : option Sys :=
  c ← cos s !! t;
  '(c, th) ← resume t c (run_task_begin t th);
  Some (set_thread i th (set_cos (<[t := c]> (cos s)) s)).

(** [run_task] after the task suspended: it is queued again, or waits (unless
    it was woken meanwhile). *)
Definition leave_task (i t : nat) (why : Suspend) (woken : bool) (th : Thread) (s : Sys) : option Sys :=
  l ← suspend th (cos s);
  let s := set_thread i (run_task_end th) (set_cos l s) in
  Some (match why, woken with
        | Wait, false => set_queues (ready s) (t :: waiting s) s
        | _, _ => set_queues (ready s ++ [t]) (waiting s) s
        end).

(** [run_task] after the task returned, [main!]'s job having stored its exit
    code: the coroutine is taken away and its stack recycled. *)
Definition end_task (i t : nat) (exit : Z) (th : Thread) (s : Sys) : option Sys :=
  let s := if (t =? 0)%nat then set_main (Some exit) (MAIN_DONE s) s else s in
  c ← cos s !! t;
  stack ← stack_of c;
  let s := set_stacks (Budget.recycle_stack stack (pool s)) (next_stack s) (set_cos (<[t := Taken]> (cos s)) s) in
  let s := set_thread i (run_task_end th) s in
  Some (if (t =? 0)%nat then set_main (MAIN_RESULT s) true s else s).

(** [run_main] up to [worker.run()]: the first thread is worker 0, and the
    first task is queued, on a stack of its own; [n] threads in all. *)
Definition Worker_install (index : nat) (th : Thread) : Thread := set_worker (Some index) th.
Definition plain : Thread := mkThread None None None 0 Outside.
Definition run_main_begin (n : nat) : Sys :=
  mkSys (Worker_install 0 plain :: replicate n plain) [Fresh 0] [0%nat] [] [] 1 [false] None false.

(** Its end, once worker 0's loop has stopped. *)
Definition run_main_end (s : Sys) : Z := default 1 (MAIN_RESULT s).

Inductive step : Sys -> Sys -> Prop :=
  | st_install s i th : threads s !! i = Some th -> WORKER th = None -> step s (set_thread i (Worker_install i th) s)
  | st_spawn s ok s' : spawn ok s = Some s' -> step s s'
  | st_cancel s t : step s (cancel t s)
  | st_take s i th r1 t r2 s' : threads s !! i = Some th -> is_Some (WORKER th) -> code th = Outside -> ready s = r1 ++ t :: r2 ->
      take_task i t th (set_queues (r1 ++ r2) (waiting s) s) = Some s' -> step s s'
  | st_op s i th t : threads s !! i = Some th -> code th = Running t ->
      step s (set_thread i (set_ops_left (Budget.take_op (OPS_LEFT th)).2 th) s)
  | st_suspend s i th t why woken s' : threads s !! i = Some th -> code th = Running t -> leave_task i t why woken th s = Some s' -> step s s'
  | st_return s i th t exit s' : threads s !! i = Some th -> code th = Running t -> end_task i t exit th s = Some s' -> step s s'
  | st_wake s w1 t w2 : waiting s = w1 ++ t :: w2 -> step s (set_queues (ready s ++ [t]) (w1 ++ w2) s).

Definition reachable (n : nat) (s : Sys) : Prop := rtc step (run_main_begin n) s.

(** ** What holds *)

Definition resumable (t : nat) (c : Co) : Prop := match c with Fresh _ => True | Suspended _ saved => saved = t | _ => False end.

(** A thread's thread-locals say whose code runs on it. *)
Definition thread_ok (i : nat) (th : Thread) : Prop :=
  (WORKER th = None \/ WORKER th = Some i) /\
  match code th with
  | Outside => YIELDER th = None /\ CURRENT_TASK th = None
  | Running t => YIELDER th = Some t /\ CURRENT_TASK th = Some t /\ WORKER th = Some i
  end.

(** The stack of a task's coroutine. *)
Definition stk (s : Sys) (t : nat) : option nat := cos s !! t ≫= stack_of.

Record Inv (s : Sys) : Prop := {
  v_threads : forall i th, threads s !! i = Some th -> thread_ok i th;
  v_apart : forall i j th th' t, threads s !! i = Some th -> threads s !! j = Some th' -> code th = Running t -> code th' = Running t -> i = j;
  v_running : forall i th t, threads s !! i = Some th -> code th = Running t -> exists st, cos s !! t = Some (OnThread st);
  v_queued : forall t, t ∈ ready s ++ waiting s -> exists c, cos s !! t = Some c /\ resumable t c;
  v_once : NoDup (ready s ++ waiting s);
  v_stacks : forall t t' st, stk s t = Some st -> stk s t' = Some st -> t = t';
  v_pool : NoDup (pool s) /\ forall t st, stk s t = Some st -> st ∉ pool s;
  v_fresh : (forall st, st ∈ pool s -> (st < next_stack s)%nat) /\ forall t st, stk s t = Some st -> (st < next_stack s)%nat;
  v_main : MAIN_DONE s = true -> cos s !! 0%nat = Some Taken;
}.

Lemma take_stack_spec (p : list nat) o p' : Budget.take_stack p = (o, p') ->
  match o with Some st => p = p' ++ [st] | None => p = [] /\ p' = [] end.
Proof.
  unfold Budget.take_stack. destruct (List.rev p) as [|st r] eqn:E; intros [= <- <-].
  - apply (f_equal (@List.rev nat)) in E. rewrite rev_involutive in E. by subst.
  - apply (f_equal (@List.rev nat)) in E. rewrite rev_involutive in E. done.
Qed.

Lemma inv_init n : Inv (run_main_begin n).
Proof.
  split; cbn.
  - intros [|i] th; cbn; [intros [= <-]; split; [by right|done]|]. intros [-> _]%lookup_replicate. split; [by left|done].
  - intros [|i] [|j] th th' t; cbn; try done; intros; simplify_eq/=; exfalso;
      repeat match goal with H : replicate _ _ !! _ = Some _ |- _ => apply lookup_replicate in H as [-> _] end; done.
  - intros [|i] th t; cbn; [by intros [= <-]|]. by intros [-> _]%lookup_replicate.
  - intros t ->%list_elem_of_singleton. by eexists.
  - apply NoDup_singleton.
  - intros [|t] [|t'] st; done.
  - split; [apply NoDup_nil_2|]. set_solver.
  - split; [set_solver|]. intros [|t] st; cbn; [intros [= <-]; lia|done].
  - done.
Qed.

(** A change of one thread that runs the same code. *)
Lemma inv_thread i th th' s : Inv s -> threads s !! i = Some th -> code th' = code th -> thread_ok i th' -> Inv (set_thread i th' s).
Proof.
  intros [V1 V2 V3 V4 V5 V6 V7 V8 V9] Hi Hc Hok. split; cbn; try done.
  - intros j x [(-> & <- & _)|[_ ?]]%list_lookup_insert_Some; eauto.
  - intros j k x y t [(-> & <- & _)|[Hj Ej]]%list_lookup_insert_Some [(-> & <- & _)|[Hk Ek]]%list_lookup_insert_Some; rewrite ?Hc; eauto.
  - intros j x t [(-> & <- & _)|[_ Ej]]%list_lookup_insert_Some; rewrite ?Hc; eauto.
Qed.

Lemma th_inv_spawn ok s s' : Inv s -> spawn ok s = Some s' -> Inv s'.
Proof.
  intros [V1 V2 V3 V4 V5 V6 [V7 V7'] [V8 V8'] V9]. unfold spawn, take_stack. destruct (Budget.take_stack (pool s)) as [o p] eqn:Ep. apply take_stack_spec in Ep.
  set (t0 := length (cos s)). assert (forall t c, cos s !! t = Some c -> (t < t0)%nat) as Hlt by (intros t c Hc; by eapply lookup_lt_Some).
  assert (forall st0 p' n', p' ⊆ pool s -> (next_stack s <= n')%nat -> NoDup p' -> st0 ∉ p' -> (st0 < n')%nat -> (forall t, stk s t = Some st0 -> False) ->
    Inv (set_cancelled (cancelled s ++ [false]) (set_queues (ready s ++ [t0]) (waiting s) (set_cos (cos s ++ [Fresh st0]) (set_stacks p' n' s))))) as Hadd.
  { intros st0 p' n' Hp Hn Hnd Hni Hst Hnew. assert (forall t st, stk (set_cos (cos s ++ [Fresh st0]) s) t = Some st -> stk s t = Some st \/ t = t0 /\ st = st0) as Hk.
    { intros t st. unfold stk. cbn. destruct (cos s !! t) as [c|] eqn:Ec; [rewrite (lookup_app_l_Some _ _ _ _ Ec); by left|].
      rewrite lookup_app_r by (by apply lookup_ge_None). destruct (t - length (cos s))%nat eqn:E0; cbn; [|done]. intros [= <-]. right. apply lookup_ge_None in Ec. unfold t0. split; [lia|done]. }
    split; cbn; try done.
    - intros i th t Hi Hc. destruct (V3 _ _ _ Hi Hc) as [st Hst']. exists st. by apply lookup_app_l_Some.
    - intros t Ht. assert (t ∈ ready s ++ waiting s \/ t = t0) as [Ht'| ->] by set_solver.
      + destruct (V4 _ Ht') as (c & Hc & Hr). exists c. split; [by apply lookup_app_l_Some|done].
      + exists (Fresh st0). split; [|done]. unfold t0. by rewrite lookup_app_r, Nat.sub_diag by done.
    - rewrite <- app_assoc. assert (t0 ∉ ready s ++ waiting s) as Hni0.
      { intros (c & Hc & _)%V4. apply Hlt in Hc. lia. }
      rewrite (Permutation_app_comm [t0]), app_assoc. apply NoDup_app. split_and!; [done| |apply NoDup_singleton]. intros x Hx ->%list_elem_of_singleton. done.
    - intros t t' st [H1|[-> ->]]%Hk [H2|[-> E]]%Hk; subst; eauto; exfalso; eauto.
    - split; [done|]. intros t st [H1|[-> ->]]%Hk; [|done]. intros Hin. eapply V7'; eauto.
    - split; [intros st Hin; specialize (V8 st); set_unfold; specialize (Hp st Hin); pose proof (V8 Hp); lia|]. intros t st [H1|[-> ->]]%Hk; [|done]. pose proof (V8' _ _ H1). lia.
    - intros Hd. by apply lookup_app_l_Some, V9. }
  destruct o as [st|].
  - intros [= <-]. subst. rewrite Ep in V7, V7', V8. apply NoDup_app in V7 as (P1 & P2 & _). apply (Hadd st p (next_stack s)); [rewrite Ep; set_solver|done|done| | |].
    + intros Hin. apply (P2 _ Hin). set_solver.
    + apply V8. set_solver.
    + intros t Ht. eapply V7'; [exact Ht|]. set_solver.
  - destruct Ep as [Ep ->]. destruct ok; [|done]. intros [= <-]. apply (Hadd (next_stack s) (pool s) (S (next_stack s))); [done|lia|done| |lia|].
    + intros Hin%V8. lia.
    + intros t Ht%V8'. lia.
Qed.

(** The queues hold the same tasks, in another order. *)
Lemma inv_queues r w s : Inv s -> r ++ w ≡ₚ ready s ++ waiting s -> Inv (set_queues r w s).
Proof. intros [V1 V2 V3 V4 V5 V6 V7 V8 V9] Hp. split; cbn; try done; [intros t; rewrite Hp; apply V4|by rewrite Hp]. Qed.

(** A coroutine goes onto a thread or off it, with its stack. *)
Lemma stk_insert t c c' (s : Sys) : cos s !! t = Some c -> stack_of c' = stack_of c -> forall t', stk (set_cos (<[t := c']> (cos s)) s) t' = stk s t'.
Proof.
  intros Hc Hs t'. unfold stk. cbn. destruct (decide (t' = t)) as [->|Hn]; [|by rewrite list_lookup_insert_ne].
  rewrite list_lookup_insert_eq by (by eapply lookup_lt_Some). by rewrite Hc.
Qed.

Lemma inv_take i t th r1 r2 s s' : Inv s -> threads s !! i = Some th -> is_Some (WORKER th) -> code th = Outside -> ready s = r1 ++ t :: r2 ->
  take_task i t th (set_queues (r1 ++ r2) (waiting s) s) = Some s' -> Inv s'.
Proof.
  intros [V1 V2 V3 V4 V5 V6 V7 V8 V9] Hi [w Hw] Hc Hr Ht. destruct (V4 t) as (c & Ec & Hres); [rewrite Hr; set_solver|].
  assert (exists st, stack_of c = Some st /\ resume t c (run_task_begin t th) = Some (OnThread st, set_code (Running t) (set_yielder (Some t) (run_task_begin t th)))) as (st & Es & Er).
  { destruct c; cbn in Hres; try done; [by eexists|]. subst. by eexists. }
  unfold take_task in Ht. cbn in Ht. rewrite Ec in Ht. cbn in Ht. rewrite Er in Ht. injection Ht as <-.
  assert (t < length (cos s))%nat as Hlt by (by eapply lookup_lt_Some). pose proof (stk_insert t c (OnThread st) s Ec ltac:(by rewrite Es)) as Hk.
  assert (NoDup (t :: r1 ++ r2 ++ waiting s)) as [Hnt Hnd]%NoDup_cons by (rewrite Hr, <- app_assoc in V5; cbn in V5; by rewrite <- Permutation_middle in V5).
  assert (forall j x, threads s !! j = Some x -> code x = Running t -> False) as Hfree.
  { intros j x Hj Hx. destruct (V3 _ _ _ Hj Hx) as [st' Hst']. rewrite Ec in Hst'. injection Hst' as ->. done. }
  destruct (V1 _ _ Hi) as [[Hw'|Hw'] _]; [congruence|]. split; cbn.
  - intros j x [(-> & <- & _)|[_ ?]]%list_lookup_insert_Some; [|eauto]. split; [by right|]. done.
  - intros j k x y u [(-> & <- & _)|[Hj Ej]]%list_lookup_insert_Some [(-> & <- & _)|[Hk' Ek]]%list_lookup_insert_Some; cbn; try done; [intros [= <-]|intros ? [= <-]|eauto]; intros; exfalso; eauto.
  - intros j x u [(-> & <- & _)|[_ Ej]]%list_lookup_insert_Some; cbn; [intros [= <-]; rewrite list_lookup_insert_eq by done; eauto|].
    intros Hx. destruct (V3 _ _ _ Ej Hx) as [st' Hst']. exists st'. rewrite list_lookup_insert_ne; [done|]. intros ->. eauto.
  - intros u Hu. assert (u <> t) as Hn by (intros ->; apply Hnt; set_solver). destruct (V4 u) as (c' & Hc' & Hr'); [rewrite Hr; set_solver|].
    exists c'. by rewrite list_lookup_insert_ne.
  - by rewrite <- app_assoc.
  - intros u u' st'. setoid_rewrite Hk. apply V6.
  - destruct V7. split; [done|]. intros u st'. setoid_rewrite Hk. eauto.
  - destruct V8. split; [done|]. intros u st'. setoid_rewrite Hk. eauto.
  - intros Hd. specialize (V9 Hd). destruct (decide (t = 0%nat)) as [->|Hn]; [rewrite Ec in V9; injection V9 as ->; done|]. by rewrite list_lookup_insert_ne.
Qed.

(** A thread is done with a task whose coroutine has become [c']: its code is
    nobody's, and the task is queued only if it can be resumed. *)
Lemma inv_off i t th st c' q (s : Sys) : Inv s -> threads s !! i = Some th -> code th = Running t -> cos s !! t = Some (OnThread st) ->
  (c' = Suspended st t \/ c' = Taken) -> (c' = Taken -> q = []) -> (c' <> Taken -> q = [t]) ->
  Inv (set_queues (ready s ++ q) (waiting s) (set_thread i (run_task_end th) (set_cos (<[t := c']> (cos s)) s))).
Proof.
  intros [V1 V2 V3 V4 V5 V6 V7 V8 V9] Hi Hc Ec Hc' Hq1 Hq2. assert (t < length (cos s))%nat as Hlt by (by eapply lookup_lt_Some).
  assert (t ∉ ready s ++ waiting s) as Hnt by (intros (c & Hx & Hr)%V4; rewrite Ec in Hx; by injection Hx as <-).
  assert (forall u st', stk (set_cos (<[t:=c']> (cos s)) s) u = Some st' -> stk s u = Some st') as Hk.
  { intros u st'. unfold stk. cbn. destruct (decide (u = t)) as [->|Hn]; [|by rewrite list_lookup_insert_ne]. rewrite list_lookup_insert_eq, Ec by done.
    destruct Hc' as [->| ->]; done. }
  destruct (V1 _ _ Hi) as [Hw Hth]. rewrite Hc in Hth. destruct Hth as (_ & _ & Hw'). split; cbn.
  - intros j x [(-> & <- & _)|[_ ?]]%list_lookup_insert_Some; [|eauto]. done.
  - intros j k x y u [(-> & <- & _)|[Hj Ej]]%list_lookup_insert_Some [(-> & <- & _)|[Hk' Ek]]%list_lookup_insert_Some; cbn; try done. eauto.
  - intros j x u [(-> & <- & _)|[Hj Ej]]%list_lookup_insert_Some; cbn; [done|]. intros Hx. destruct (V3 _ _ _ Ej Hx) as [st' Hst']. exists st'.
    rewrite list_lookup_insert_ne; [done|]. intros ->. apply Hj. eauto.
  - intros u Hu. assert (u ∈ ready s ++ waiting s \/ u ∈ q) as [Hu'|Hu'] by set_solver.
    + destruct (V4 _ Hu') as (c & Hx & Hr). exists c. rewrite list_lookup_insert_ne; [done|]. intros ->. done.
    + destruct (decide (q = [])) as [->|Hne]; [set_solver|]. destruct Hc' as [->| ->]; [|by rewrite Hq1 in Hne]. rewrite Hq2 in Hu' by done. apply list_elem_of_singleton in Hu' as ->.
      eexists. rewrite list_lookup_insert_eq by done. done.
  - rewrite <- app_assoc, (Permutation_app_comm q), app_assoc. apply NoDup_app. split; [done|]. destruct Hc' as [->| ->]; [rewrite Hq2 by done|rewrite Hq1 by done].
    + split; [|apply NoDup_singleton]. intros x Hx ->%list_elem_of_singleton. done.
    + split; [set_solver|apply NoDup_nil_2].
  - intros u u' st' H1%Hk H2%Hk. eauto.
  - destruct V7. split; [done|]. intros u st' H1%Hk. eauto.
  - destruct V8. split; [done|]. intros u st' H1%Hk. eauto.
  - intros Hd. specialize (V9 Hd). rewrite list_lookup_insert_ne; [done|]. intros ->. congruence.
Qed.

Lemma inv_recycle st s : Inv s -> (st < next_stack s)%nat -> st ∉ pool s -> (forall t, stk s t <> Some st) ->
  Inv (set_stacks (Budget.recycle_stack st (pool s)) (next_stack s) s).
Proof.
  intros [V1 V2 V3 V4 V5 V6 [V7 V7'] [V8 V8'] V9] Hst Hp Hn. unfold Budget.recycle_stack. destruct (length (pool s) <? MAX_POOLED_STACKS)%nat; split; cbn; try done.
  - split; [apply NoDup_app; split_and!; [done| |apply NoDup_singleton]; intros x Hx ->%list_elem_of_singleton; done|].
    intros t x Hx [Hin| ->%list_elem_of_singleton]%elem_of_app; [by eapply V7'|by eapply Hn].
  - split; [|done]. intros x [Hin| ->%list_elem_of_singleton]%elem_of_app; auto.
Qed.

Lemma th_inv_main r d s : Inv s -> (d = true -> cos s !! 0%nat = Some Taken) -> Inv (set_main r d s).
Proof. intros [V1 V2 V3 V4 V5 V6 V7 V8 V9] Hd. split; done. Qed.

(** What a task finds on its own thread. *)
Lemma own_thread i th t s : Inv s -> threads s !! i = Some th -> code th = Running t ->
  YIELDER th = Some t /\ CURRENT_TASK th = Some t /\ WORKER th = Some i /\ exists st, cos s !! t = Some (OnThread st) /\ suspend th (cos s) = Some (<[t := Suspended st t]> (cos s)).
Proof.
  intros HI Hi Hc. destruct (v_threads _ HI _ _ Hi) as [_ Hth]. rewrite Hc in Hth. destruct Hth as (Hy & Hcur & Hw). destruct (v_running _ HI _ _ _ Hi Hc) as [st Hst].
  split_and!; try done. exists st. split; [done|]. unfold suspend. rewrite Hy. cbn. by rewrite Hst.
Qed.

Lemma inv_leave i t why woken th s s' : Inv s -> threads s !! i = Some th -> code th = Running t -> leave_task i t why woken th s = Some s' -> Inv s'.
Proof.
  intros HI Hi Hc. destruct (own_thread i th t s HI Hi Hc) as (_ & _ & _ & st & Hst & Hsus). unfold leave_task. rewrite Hsus. cbn. intros [= <-].
  pose proof (inv_off i t th st (Suspended st t) [t] s HI Hi Hc Hst ltac:(by left) ltac:(done) ltac:(done)) as Hoff.
  destruct why, woken; try exact Hoff. apply (inv_queues (ready s) (t :: waiting s)) in Hoff; [exact Hoff|]. cbn. by rewrite <- app_assoc.
Qed.

Lemma inv_end i t exit th s s' : Inv s -> threads s !! i = Some th -> code th = Running t -> end_task i t exit th s = Some s' -> Inv s'.
Proof.
  intros HI Hi Hc. destruct (own_thread i th t s HI Hi Hc) as (_ & _ & _ & st & Hst & _). unfold end_task.
  pose proof (inv_off i t th st Taken [] s HI Hi Hc Hst ltac:(by right) ltac:(done) ltac:(done)) as Hoff.
  assert (stk s t = Some st) as Hk by (unfold stk; by rewrite Hst). assert (t < length (cos s))%nat as Hlt by (by eapply lookup_lt_Some).
  assert (Inv (set_stacks (Budget.recycle_stack st (pool s)) (next_stack s) (set_queues (ready s ++ []) (waiting s) (set_thread i (run_task_end th) (set_cos (<[t := Taken]> (cos s)) s))))) as Hrec.
  { apply (inv_recycle st) in Hoff; [exact Hoff|by apply (proj2 (v_fresh _ HI) t)|by apply (proj2 (v_pool _ HI) t)|].
    intros u. unfold stk. cbn. destruct (decide (u = t)) as [->|Hn]; [by rewrite list_lookup_insert_eq|rewrite list_lookup_insert_ne by done]. intros Hu. apply Hn. by eapply (v_stacks _ HI). }
  rewrite app_nil_r in Hrec. destruct (Nat.eqb_spec t 0) as [->|Hn]; cbn; rewrite Hst; cbn; intros [= <-].
  - eapply (th_inv_main (Some exit) true) in Hrec; [exact Hrec|]. intros _. cbn. by apply list_lookup_insert_eq.
  - exact Hrec.
Qed.

Lemma th_inv_step s s' : Inv s -> step s s' -> Inv s'.
Proof.
  intros HI Hst. destruct Hst as [s i th Hi Hw|s ok s' Hs|s t|s i th r1 t r2 s' Hi Hw Hc Hr Ht|s i th t Hi Hc|s i th t why woken s' Hi Hc Hs|s i th t exit s' Hi Hc Hs|s w1 t w2 Hw].
  - eapply inv_thread; [done|exact Hi|done|]. destruct (v_threads _ HI _ _ Hi) as [_ Hth]. split; [by right|]. destruct (code th) eqn:Ec; cbn; rewrite Ec; [exact Hth|].
    destruct Hth as (_ & _ & E). congruence.
  - by eapply th_inv_spawn.
  - by destruct HI; split.
  - by eapply inv_take.
  - eapply inv_thread; [done|exact Hi|done|]. destruct (v_threads _ HI _ _ Hi) as [H1 H2]. split; done.
  - by eapply inv_leave.
  - by eapply inv_end.
  - apply inv_queues; [done|]. rewrite Hw, <- app_assoc. f_equiv. cbn. by rewrite Permutation_middle.
Qed.

Lemma threads_reachable_inv n s : reachable n s -> Inv s.
Proof. intros H. refine (rtc_invariant step Inv _ _ _ H (inv_init n)). eauto using th_inv_step. Qed.

(** ** What code learns about itself *)

(** C11: However tasks move between workers, the thread-locals tell the truth:
    code of a task finds, on whichever thread it is resumed, that task as the
    running one and that thread's worker as its own, and suspending there
    suspends that task; a task runs on one thread at a time; and other code, of a
    worker or of a thread that is none, is never taken for a task's. *)
Theorem running_task_known n s i th : reachable n s -> threads s !! i = Some th ->
  match code th with
  | Running t => current_task th = Some t /\ current_worker th = Some i /\
      (exists st, cos s !! t = Some (OnThread st) /\ suspend th (cos s) = Some (<[t := Suspended st t]> (cos s))) /\
      (forall j th', threads s !! j = Some th' -> code th' = Running t -> j = i)
  | Outside => current_task th = None /\ current_worker th = None /\ yield_now th = None /\ is_cancelled th s = false
  end.
Proof.
  intros HI%threads_reachable_inv Hi. destruct (code th) as [|t] eqn:Ec.
  - destruct (v_threads _ HI _ _ Hi) as [_ Hth]. rewrite Ec in Hth. destruct Hth as [Hy Hc]. unfold is_cancelled, yield_now, current_task, current_worker. by rewrite Hy.
  - destruct (own_thread i th t s HI Hi Ec) as (Hy & Hc & Hw & Hst). unfold current_task, current_worker. rewrite Hy, Hc, Hw. split_and!; try done.
    intros j th' Hj Ej. by eapply (v_apart _ HI).
Qed.

(** No stack is used by two coroutines, or by one and kept for another: a
    task's stack is its own from when it is made until it returns. *)
Theorem stacks_not_shared n s : reachable n s ->
  (forall t t' st, stk s t = Some st -> stk s t' = Some st -> t = t') /\ NoDup (pool s) /\ (forall t st, stk s t = Some st -> st ∉ pool s).
Proof. intros [_ _ _ _ _ V6 [V7 V7'] _ _]%threads_reachable_inv. done. Qed.

(** A queued task has a coroutine that can be resumed, on any worker. *)
Theorem queued_task_resumes n s t i th : reachable n s -> t ∈ ready s -> threads s !! i = Some th -> is_Some (take_task i t th s).
Proof.
  intros HI%threads_reachable_inv Ht Hi. destruct (v_queued _ HI t) as (c & Hc & Hr); [set_solver|]. unfold take_task. rewrite Hc. by destruct c.
Qed.

(** ** [run_main] *)

Lemma main_kept s s' : Inv s -> step s s' -> cos s !! 0%nat = Some Taken -> cos s' !! 0%nat = Some Taken /\ MAIN_RESULT s' = MAIN_RESULT s /\ (MAIN_DONE s = true -> MAIN_DONE s' = true).
Proof.
  intros HI Hst H0. assert (forall i th, threads s !! i = Some th -> code th <> Running 0) as Hno.
  { intros i th Hi Hc. destruct (v_running _ HI _ _ _ Hi Hc) as [st Hst']. congruence. }
  destruct Hst as [s i th Hi Hw|s ok s' Hs|s t|s i th r1 t r2 s' Hi Hw Hc Hr Ht|s i th t Hi Hc|s i th t why woken s' Hi Hc Hs|s i th t exit s' Hi Hc Hs|s w1 t w2 Hw]; try done.
  - unfold spawn, take_stack in Hs. destruct (Budget.take_stack (pool s)) as [[st|] p]; [|destruct ok; [|done]]; injection Hs as <-; cbn; (split; [by apply lookup_app_l_Some|done]).
  - destruct (v_queued _ HI t) as (c & Hc' & Hres); [rewrite Hr; set_solver|]. unfold take_task in Ht. cbn in Ht. rewrite Hc' in Ht. cbn in Ht.
    assert (t <> 0%nat) as Hn by (intros ->; rewrite Hc' in H0; by injection H0 as ->).
    destruct c; cbn in Ht; try done; injection Ht as <-; cbn; by rewrite list_lookup_insert_ne.
  - destruct (own_thread i th t s HI Hi Hc) as (_ & _ & _ & st & Hst & Hsus). unfold leave_task in Hs. rewrite Hsus in Hs. cbn in Hs. injection Hs as <-.
    assert (t <> 0%nat) by (intros ->; by eapply Hno). destruct why, woken; cbn; by rewrite list_lookup_insert_ne.
  - destruct (own_thread i th t s HI Hi Hc) as (_ & _ & _ & st & Hst & _). assert (t <> 0%nat) as Hn by (intros ->; by eapply Hno).
    unfold end_task in Hs. rewrite (proj2 (Nat.eqb_neq t 0) Hn), Hst in Hs. cbn in Hs. injection Hs as <-. cbn. by rewrite list_lookup_insert_ne.
Qed.

(** The program's exit code is [main!]'s: once its task has returned with it,
    worker 0 is told to stop, and whatever the other tasks go on doing,
    [run_main] returns that code. *)
Theorem main_code_returned n s i th exit s1 s2 : reachable n s -> threads s !! i = Some th -> code th = Running 0 ->
  end_task i 0 exit th s = Some s1 -> rtc step s1 s2 -> MAIN_DONE s2 = true /\ run_main_end s2 = exit.
Proof.
  intros HI%threads_reachable_inv Hi Hc He Hr. destruct (own_thread i th 0 s HI Hi Hc) as (_ & _ & _ & st & Hst & _). pose proof (inv_end _ _ _ _ _ _ HI Hi Hc He) as HI1.
  assert (MAIN_DONE s1 = true /\ MAIN_RESULT s1 = Some exit) as [Hd Hm] by (unfold end_task in He; cbn in He; rewrite Hst in He; cbn in He; by injection He as <-).
  pose proof (v_main _ HI1 Hd) as H0. clear He. unfold run_main_end. induction Hr as [|s1 s1' s2 Hs Hr IH]; [by rewrite Hm|].
  destruct (main_kept _ _ HI1 Hs H0) as (K1 & K2 & K3). apply IH; [by eapply th_inv_step|auto|congruence|done].
Qed.

(** And not before. *)
Theorem main_done_by_main n s : reachable n s -> MAIN_DONE s = true -> cos s !! 0%nat = Some Taken.
Proof. intros HI%threads_reachable_inv. apply (v_main _ HI). Qed.

(** *** A task that starts on one worker and goes on on another *)

Definition x0 : Sys := run_main_begin 1.
Definition x1 : Sys := default x0 (take_task 0 0 (Worker_install 0 plain) (set_queues [] [] x0)).
Definition on0 : Thread := default plain (threads x1 !! 0%nat).
Definition x2 : Sys := default x1 (leave_task 0 0 Yield false on0 x1).
Definition x3 : Sys := set_thread 1 (Worker_install 1 plain) x2.
Definition x4 : Sys := default x3 (take_task 1 0 (Worker_install 1 plain) (set_queues [] [] x3)).
Definition on1 : Thread := default plain (threads x4 !! 1%nat).

Lemma x4_reachable : reachable 1 x4.
Proof.
  unfold reachable. eapply rtc_l; [eapply (st_take x0 0 (Worker_install 0 plain) [] 0%nat [] x1); try done; by eexists|].
  eapply rtc_l; [by apply (st_suspend x1 0 on0 0 Yield false x2)|]. eapply rtc_l; [by apply (st_install x2 1 plain)|]. fold x3.
  eapply rtc_l; [eapply (st_take x3 1 (Worker_install 1 plain) [] 0%nat [] x4); try done; by eexists|]. apply rtc_refl.
Qed.

Lemma running_task_known_witness : current_task on1 = Some 0%nat /\ current_worker on1 = Some 1%nat.
Proof. destruct (running_task_known 1 x4 1 on1 x4_reachable eq_refl) as (H1 & H2 & _). split; [exact H1|exact H2]. Defined.

End Threads.
