(* ===== verification/Idle.v ===== *)
(** * Waking idle workers ([src/sched.rs])

    [notify_idle], [start_worker], [Worker::park] and [answer_notification],
    access by access, with any number of threads calling [notify_idle] (each
    after queueing a task on the shared queue, or for a backlog).  The
    question is whether a task queued for any worker always has somebody
    coming for it. *)
From S2P Require Import Prelude RunQueue.
Local Open Scope Z_scope.
#[local] Arguments Z.testbit : simpl never.

(** Where a worker is: looking for work or running; in [park], past setting
    its [SLEEPING] bit; blocked in [poll], having seen the shared queue empty;
    back from [poll]; about to answer a notification; stealing. *)
Inductive WPc := Unborn | Awake | Announced | Blocked | Polled | Answering | Stealing.

#[export] Instance WPc_eq_dec : EqDecision WPc.
Proof. solve_decision. Defined.

(** A worker: its position, [notified], whether its event queue has a wake-up
    pending, and whether it's visible in [WORKERS]. *)
Record WS := mkWS { pc : WPc; notified : bool; poked : bool; visible : bool }.

(** A thread inside [notify_idle], or [start_worker] for [i] (which holds
    [STARTING] from [SLock] on). *)
Inductive CPc :=
  | LoadSearching
  | LoadSleeping
  | ClearBit (i : nat)
  | AddSearching (i : nat)
  | SetNotified (i : nat)
  | Poke (i : nat)
  | FindUnstarted
  | SLock (i : nat)
  | SSpawn (i : nat)
  | SSlot (i : nat).

Record Sys := mkSys {
  inject : nat;
  sleeping : Z;
  searching : Z;
  ws : list WS;
  callers : list CPc;
}.

Definition bit (i : nat) : Z := Z.shiftl 1 (Z.of_nat i).
#[local] Arguments bit : simpl never.

Definition up_ws (i : nat) (f : WS -> WS) (s : Sys) : Sys :=
  mkSys (inject s) (sleeping s) (searching s) (alter f i (ws s)) (callers s).

Definition set_pc (p : WPc) (w : WS) : WS := mkWS p (notified w) (poked w) (visible w).

(** Worker 0 running on the main thread, and [n] more to start. *)
Definition init (n : nat) : Sys :=
  mkSys 0 0 0 (mkWS Awake false false true :: replicate n (mkWS Unborn false false false)) [].

(** [workers().get(i).and_then(OnceLock::get).is_some()] *)
Definition is_visible (i : nat) (s : Sys) : bool := from_option visible false (ws s !! i).

Definition starting (s : Sys) : bool :=
  existsb (fun c => match c with SSpawn _ | SSlot _ => true | _ => false end) (callers s).

(** One access of a caller: the state, and its next position; [None]: blocked
    on [STARTING].  [ok]: the thread starts. *)
Definition caller_step (ok : bool) (c : CPc) (s : Sys) : option (Sys * option CPc) :=
  match c with
  | LoadSearching => Some (s, if 0 <? searching s then None else Some LoadSleeping)
  | LoadSleeping =>
      Some (s, Some (if negb (sleeping s =? 0) then ClearBit (trailing_zeros (sleeping s)) else FindUnstarted))
  | ClearBit i =>
      let hit := negb (Z.land (sleeping s) (bit i) =? 0) in
      Some (mkSys (inject s) (Z.ldiff (sleeping s) (bit i)) (searching s) (ws s) (callers s),
            if hit && is_visible i s then Some (AddSearching i) else None)
  | AddSearching i =>
      Some (mkSys (inject s) (sleeping s) (searching s + 1) (ws s) (callers s), Some (SetNotified i))
  | SetNotified i =>
      Some (up_ws i (fun w => mkWS (pc w) true (poked w) (visible w)) s, Some (Poke i))
  | Poke i => Some (up_ws i (fun w => mkWS (pc w) (notified w) true (visible w)) s, None)
  | FindUnstarted =>
      Some (s, list_find (fun w => visible w = false) (ws s) ≫= fun r => Some (SLock r.1))
  | SLock i =>
      if starting s then None
      else if is_visible i s then Some (s, None)
      else Some (up_ws i (fun w => mkWS (pc w) true (poked w) (visible w))
                   (mkSys (inject s) (sleeping s) (searching s + 1) (ws s) (callers s)), Some (SSpawn i))
  | SSpawn i =>
      if ok then Some (up_ws i (set_pc Answering) s, Some (SSlot i))
      else Some (mkSys (inject s) (sleeping s) (searching s - 1) (ws s) (callers s), None)
  | SSlot i => Some (up_ws i (fun w => mkWS (pc w) (notified w) (poked w) true) s, None)
  end.

(** One access of worker [i]; from [Awake] it chooses to take an injected
    task ([take_]) or to park, and [Blocked] ends with an event or a
    wake-up. *)
Definition worker_step (i : nat) (take_ : bool) (s : Sys) : option Sys :=
  w ← ws s !! i;
  match pc w with
  | Unborn => None
  | Awake =>
      if take_ then
        (if (inject s =? 0)%nat then None
         else Some (mkSys (inject s - 1) (sleeping s) (searching s) (ws s) (callers s)))
      else Some (up_ws i (set_pc Announced)
                   (mkSys (inject s) (Z.lor (sleeping s) (bit i)) (searching s) (ws s) (callers s)))
  | Announced =>
      if (0 <? inject s)%nat
      then Some (up_ws i (fun w => mkWS Polled (notified w) false (visible w)) s)
      else Some (up_ws i (set_pc Blocked) s)
  | Blocked => Some (up_ws i (fun w => mkWS Polled (notified w) false (visible w)) s)
  | Polled =>
      Some (up_ws i (set_pc Answering)
              (mkSys (inject s) (Z.ldiff (sleeping s) (bit i)) (searching s) (ws s) (callers s)))
  | Answering =>
      Some (up_ws i (fun w => mkWS (if notified w then Stealing else Awake) false (poked w) (visible w)) s)
  | Stealing =>
      Some (up_ws i (set_pc Awake)
              (mkSys (inject s) (sleeping s) (searching s - 1) (ws s) (callers s)))
  end.

(** [fails]: threads may fail to start. *)
Inductive step (fails : bool) : Sys -> Sys -> Prop :=
  (** A plain thread queues a task and calls [notify_idle]; *)
  | st_inject s :
      step fails s (mkSys (inject s + 1) (sleeping s) (searching s) (ws s) (LoadSearching :: callers s))
  (** so does a worker with a backlog; *)
  | st_backlog s :
      step fails s (mkSys (inject s) (sleeping s) (searching s) (ws s) (LoadSearching :: callers s))
  | st_caller s cs1 c cs2 ok s' c' :
      callers s = cs1 ++ c :: cs2 -> fails || ok = true -> caller_step ok c s = Some (s', c') ->
      step fails s (mkSys (inject s') (sleeping s') (searching s') (ws s') (cs1 ++ option_list c' ++ cs2))
  | st_worker s i take_ s' : worker_step i take_ s = Some s' -> step fails s s'.

Definition reachable (fails : bool) (n : nat) (s : Sys) : Prop := rtc (step fails) (init n) s.

(** ** Somebody is coming *)

(** A worker that will look at the shared queue before it blocks. *)
Definition looking (w : WS) : bool :=
  match pc w with Unborn => false | Blocked => poked w | _ => true end.

(** A caller that will wake somebody, or has yet to decide. *)
Definition busy (c : CPc) : bool :=
  match c with
  | LoadSearching | LoadSleeping | ClearBit 0 | AddSearching _ | SetNotified _ | Poke _ => true
  | _ => false
  end.

(** A caller that has claimed worker 0's bit. *)
Definition heading0 (c : CPc) : bool :=
  match c with AddSearching 0 | SetNotified 0 | Poke 0 => true | _ => false end.

Record Inv (s : Sys) : Prop := {
  (** Worker 0 is there, *)
  i_zero : exists w, ws s !! 0%nat = Some w /\ visible w = true /\ pc w <> Unborn;
  (** its bit is set from when it announces sleep, unless somebody is about
      to wake it or has, *)
  i_bit : forall w, ws s !! 0%nat = Some w -> pc w = Announced \/ pc w = Blocked ->
    Z.testbit (sleeping s) 0 = true \/ existsb heading0 (callers s) = true \/ poked w = true;
  (** and a queued task has somebody coming. *)
  i_come : (0 < inject s)%nat ->
    0 < searching s \/ existsb busy (callers s) = true \/ existsb looking (ws s) = true;
  i_started : forall i, (SLock i ∈ callers s \/ SSpawn i ∈ callers s \/ SSlot i ∈ callers s) -> i <> 0%nat;
  i_visible : forall i w, ws s !! i = Some w -> visible w = true \/ SSlot i ∈ callers s -> pc w <> Unborn;
  i_target : forall i, (AddSearching i ∈ callers s \/ SetNotified i ∈ callers s \/ Poke i ∈ callers s) ->
    exists w, ws s !! i = Some w /\ pc w <> Unborn;
}.

(** *** Lists of workers *)

Lemma existsb_lookup {A} (f : A -> bool) (i : nat) (l : list A) w : l !! i = Some w -> f w = true -> existsb f l = true.
Proof.
  intros H Hf. apply existsb_exists. exists w. split; [|done].
  apply list_elem_of_In. by eapply list_elem_of_lookup_2.
Qed.

Lemma lookup_alter_inv (g : WS -> WS) (i j : nat) (l : list WS) w' :
  alter g i l !! j = Some w' -> (i = j /\ exists w, l !! j = Some w /\ w' = g w) \/ (i <> j /\ l !! j = Some w').
Proof.
  destruct (decide (j = i)) as [->|Hne].
  - rewrite list_lookup_alter, decide_True by done. destruct (l !! i) as [w|]; simpl; intros; simplify_eq.
    left. eauto.
  - rewrite list_lookup_alter_ne by done. auto.
Qed.

Lemma lookup_alter_some (g : WS -> WS) (i j : nat) (l : list WS) w :
  l !! j = Some w -> alter g i l !! j = Some (if decide (i = j) then g w else w).
Proof.
  intros H. destruct (decide (i = j)) as [->|Hne].
  - by rewrite list_lookup_alter, decide_True, H by done.
  - by rewrite list_lookup_alter_ne by done.
Qed.

Lemma existsb_alter_mono (f : WS -> bool) g (i : nat) (l : list WS) :
  (forall w, f w = true -> f (g w) = true) -> existsb f l = true -> existsb f (alter g i l) = true.
Proof.
  intros Hg (w & Hin%list_elem_of_In & Hf)%existsb_exists.
  apply list_elem_of_lookup in Hin as [j Hj].
  eapply (existsb_lookup f j); [by apply lookup_alter_some|]. case_decide; auto.
Qed.

Lemma existsb_alter_here (f : WS -> bool) g (i : nat) (l : list WS) w :
  l !! i = Some w -> f (g w) = true -> existsb f (alter g i l) = true.
Proof.
  intros H Hf. apply (existsb_lookup f i _ (g w)); [|done].
  by rewrite list_lookup_alter, decide_True, H by done.
Qed.

(** *** Bits *)

Lemma ldiff_bit0 x i : i <> 0%nat -> Z.testbit (Z.ldiff x (bit i)) 0 = Z.testbit x 0.
Proof.
  intros Hi. rewrite Z.ldiff_spec. unfold bit. rewrite Z.shiftl_spec by lia.
  rewrite (Z.testbit_neg_r 1) by lia. apply andb_true_r.
Qed.

Lemma land_bit0 x : (Z.land x (bit 0) =? 0) = negb (Z.testbit x 0).
Proof.
  unfold bit. change (Z.shiftl 1 (Z.of_nat 0)) with (Z.ones 1). rewrite Z.land_ones by lia.
  change (2 ^ 1) with 2. rewrite Zmod_odd, <- Z.bit0_odd. by destruct (Z.testbit x 0).
Qed.

Lemma lor_bit x i : Z.testbit x 0 = true -> Z.testbit (Z.lor x (bit i)) 0 = true.
Proof. intros H. by rewrite Z.lor_spec, H. Qed.

Lemma lor_bit0 x : Z.testbit (Z.lor x (bit 0)) 0 = true.
Proof. rewrite Z.lor_spec. apply orb_true_r. Qed.

Lemma trailing_zeros_0 x : Z.testbit x 0 = true -> trailing_zeros x = 0%nat.
Proof.
  intros H. unfold trailing_zeros. simpl. rewrite decide_True by done. done.
Qed.

(** Worker 0's bit is clear: it's looking, or somebody is heading for it. *)
Lemma inv_zero_clear s :
  Inv s -> Z.testbit (sleeping s) 0 = false -> existsb looking (ws s) = true \/ existsb heading0 (callers s) = true.
Proof.
  intros [(w & Hw & Hv & Hu) Hb _ _ _ _] Hs. specialize (Hb w Hw).
  destruct (pc w) eqn:Ep; try done; try (left; apply (existsb_lookup looking 0 _ w); [done|]; unfold looking; by rewrite Ep).
  destruct Hb as [H|[H|H]]; [by right|congruence|by right|].
  left. apply (existsb_lookup looking 0 _ w); [done|]. unfold looking. by rewrite Ep.
Qed.

Lemma heading0_busy cs : existsb heading0 cs = true -> existsb busy cs = true.
Proof.
  rewrite !existsb_exists. intros (c & Hin & Hc). exists c. split; [done|]. by destruct c as [| |[]|[]|[]|[]| | | |].
Qed.

(** *** Steps of workers *)

Lemma inv_worker s i f w inj sl se :
  Inv s -> ws s !! i = Some w -> visible (f w) = visible w -> pc (f w) <> Unborn ->
  (i = 0%nat -> pc (f w) = Announced \/ pc (f w) = Blocked ->
     Z.testbit sl 0 = true \/ existsb heading0 (callers s) = true \/ poked (f w) = true) ->
  (i <> 0%nat -> Z.testbit sl 0 = Z.testbit (sleeping s) 0) ->
  ((0 < inj)%nat -> looking (f w) = true) ->
  Inv (up_ws i f (mkSys inj sl se (ws s) (callers s))).
Proof.
  intros [(w0 & Hw0 & Hv0 & Hu0) Hb Hc Hs Hv Ht] Hw Hfv Hfu Hb0 Hb1 Hl.
  assert (forall j w', alter f i (ws s) !! j = Some w' ->
    (i = j /\ w' = f w) \/ (i <> j /\ ws s !! j = Some w')) as Hinv.
  { intros j w' [[-> (w1 & ? & ->)]|?]%lookup_alter_inv; [|by right]. left. split; congruence. }
  unfold up_ws. split; simpl.
  - exists (if decide (i = 0%nat) then f w0 else w0). split; [by apply lookup_alter_some|].
    case_decide; [|done]. subst i. simplify_eq. split; congruence.
  - intros w' Hw' Hp. apply Hinv in Hw' as [[-> ->]|[Hne Hw']]; [by apply Hb0|].
    rewrite Hb1 by done. by apply Hb.
  - intros Hi. right. right. by eapply existsb_alter_here; eauto.
  - done.
  - intros j w' Hw' Hor. apply Hinv in Hw' as [[-> ->]|[Hne Hw']]; [done|]. by eapply Hv.
  - intros j Hj. destruct (Ht j Hj) as (w1 & Hw1 & Hu1).
    exists (if decide (i = j) then f w1 else w1). split; [by apply lookup_alter_some|].
    case_decide; [|done]. subst j. by simplify_eq.
Qed.

Lemma worker_step_inv i take_ s s' : Inv s -> worker_step i take_ s = Some s' -> Inv s'.
Proof.
  intros Hinv. unfold worker_step. destruct (ws s !! i) as [w|] eqn:Hw; simpl; [|done].
  pose proof Hinv as [_ Hb _ _ Hv _].
  destruct (pc w) eqn:Ep; [done|..].
  - destruct take_.
    + destruct (Nat.eqb_spec (inject s) 0) as [|Hi]; [done|]. intros [= <-].
      replace (ws s) with (alter (fun w => w) i (ws s)) by (by apply list_alter_id).
      eapply (inv_worker s i (fun w => w)); try done; rewrite ?Ep; try done; [naive_solver|].
      intros _. unfold looking. by rewrite Ep.
    + intros [= <-]. eapply inv_worker; try done; simpl.
      * intros -> _. left. apply lor_bit0.
      * intros Hne. rewrite Z.lor_spec. unfold bit. rewrite Z.shiftl_spec by lia.
        rewrite (Z.testbit_neg_r 1) by lia. apply orb_false_r.
  - destruct (Nat.ltb_spec 0 (inject s)); intros [= <-]; destruct s as [inj sl se l cs].
    + eapply (inv_worker (mkSys inj sl se l cs)); try done; simpl; naive_solver.
    + eapply (inv_worker (mkSys inj sl se l cs)); try done; simpl in *; [|lia].
      intros -> _. apply Hb; auto.
  - intros [= <-]; destruct s as [inj sl se l cs].
    eapply (inv_worker (mkSys inj sl se l cs)); try done; simpl; naive_solver.
  - intros [= <-]. eapply inv_worker; try done; simpl; [naive_solver|]. intros. by apply ldiff_bit0.
  - intros [= <-]; destruct s as [inj sl se l cs].
    eapply (inv_worker (mkSys inj sl se l cs)); try done; simpl; try (by destruct (notified w)).
    intros _ [|]; by destruct (notified w).
  - intros [= <-]. eapply inv_worker; try done; simpl; naive_solver.
Qed.

(** *** Steps of callers *)

Lemma existsb_replace (f : CPc -> bool) cs1 c cs2 c' :
  existsb f (cs1 ++ c :: cs2) = true -> f c = false \/ existsb f (option_list c') = true ->
  existsb f (cs1 ++ option_list c' ++ cs2) = true.
Proof. rewrite !existsb_app. simpl. intros H [H1|H1]; rewrite H1 in *; destruct (existsb f cs1); simpl in *; try done; rewrite ?H, ?orb_true_r; done. Qed.

Lemma existsb_new (f : CPc -> bool) cs1 c' cs2 :
  existsb f (option_list c') = true -> existsb f (cs1 ++ option_list c' ++ cs2) = true.
Proof. rewrite !existsb_app. intros ->. by rewrite orb_true_r. Qed.

Lemma elem_replace x cs1 (c : CPc) cs2 c' :
  x ∈ cs1 ++ option_list c' ++ cs2 -> x ∈ cs1 ++ c :: cs2 \/ c' = Some x.
Proof.
  rewrite !elem_of_app, elem_of_cons. intros [H|[H|H]]; auto.
  destruct c'; simpl in H; [|by apply elem_of_nil in H]. apply list_elem_of_singleton in H. subst. auto.
Qed.

(** What a caller's next position takes for granted. *)
Definition next_ok (s : Sys) (c : CPc) : Prop :=
  match c with
  | SLock i | SSpawn i | SSlot i => i <> 0%nat
  | AddSearching i | SetNotified i | Poke i => exists w, ws s !! i = Some w /\ pc w <> Unborn
  | _ => True
  end.

Lemma inv_caller s cs1 c cs2 c' sl se j f :
  Inv s -> callers s = cs1 ++ c :: cs2 ->
  (forall w, pc (f w) = pc w \/ (pc (f w) = Answering /\ j <> 0%nat)) ->
  (forall w, visible (f w) = visible w \/ (c = SSlot j /\ visible (f w) = true)) ->
  (forall w, poked w = true -> poked (f w) = true) ->
  let cs := cs1 ++ option_list c' ++ cs2 in
  (Z.testbit (sleeping s) 0 = true -> Z.testbit sl 0 = true \/ existsb heading0 cs = true) ->
  (heading0 c = true -> existsb heading0 (option_list c') = true \/ (j = 0%nat /\ forall w, poked (f w) = true)) ->
  (0 < searching s \/ busy c = true ->
     0 < se \/ existsb busy cs = true \/ existsb looking (alter f j (ws s)) = true) ->
  from_option (next_ok s) True c' ->
  (forall i, c' = Some (SSlot i) -> j = i /\ forall w, pc (f w) <> Unborn) ->
  Inv (mkSys (inject s) sl se (alter f j (ws s)) cs).
Proof.
  intros [(w0 & Hw0 & Hv0 & Hu0) Hb Hc Hs Hv Ht] Hcs Hfp Hfv Hfk cs Hsl Hh Hcome Hn Hslot.
  assert (forall w, pc w <> Unborn -> pc (f w) <> Unborn) as Hfu.
  { intros w Hu. destruct (Hfp w) as [->|[-> _]]; done. }
  assert (forall x, x ∈ cs -> x ∈ callers s \/ c' = Some x) as Hel.
  { intros x Hx. rewrite Hcs. by eapply elem_replace. }
  split; simpl.
  - exists (if decide (j = 0%nat) then f w0 else w0). split; [by apply lookup_alter_some|].
    case_decide; [|done]. split; [|auto]. destruct (Hfv w0) as [->|[_ ->]]; done.
  - intros w' Hw' Hp.
    assert (exists w, ws s !! 0%nat = Some w /\ (pc w = Announced \/ pc w = Blocked) /\
      (poked w = true -> poked w' = true) /\ (w' = f w \/ j <> 0%nat)) as (w & Hw & Hpw & Hk & Hwf).
    { apply lookup_alter_inv in Hw' as [[-> (w & Hw & ->)]|[Hne Hw]].
      - exists w. split_and!; auto. destruct (Hfp w) as [E|[E Hj]]; [by rewrite <- E|done].
      - exists w'. split_and!; auto. }
    destruct (Hb w Hw Hpw) as [H|[H|H]]; [|rewrite Hcs in H|by auto].
    + destruct (Hsl H); auto.
    + destruct (heading0 c) eqn:E; [|right; left; by eapply existsb_replace; eauto].
      destruct (Hh eq_refl) as [H1|[-> H1]]; [right; left; by apply existsb_new|].
      destruct Hwf as [->|]; [|done]. auto.
  - intros Hi. destruct (Hc Hi) as [H|[H|H]]; [by auto|rewrite Hcs in H|].
    + destruct (busy c) eqn:E; [by auto|]. right. left. by eapply existsb_replace; eauto.
    + right. right. apply existsb_alter_mono; [|done]. intros w. unfold looking.
      destruct (Hfp w) as [->|[-> _]]; [|done]. destruct (pc w); auto.
  - intros i [H|[H|H]]; apply Hel in H as [H| ->]; try exact Hn; apply Hs; auto.
  - intros k w' Hw' Hor. apply lookup_alter_inv in Hw' as [[-> (w & Hw & ->)]|[Hne Hw]].
    + destruct Hor as [Hvis|[Hin|E]%Hel].
      * apply Hfu. destruct (Hfv w) as [E|[-> _]].
        -- apply (Hv k w Hw). left. congruence.
        -- apply (Hv k w Hw). right. rewrite Hcs. apply elem_of_app. right. left.
      * apply Hfu, (Hv k w Hw). auto.
      * by destruct (Hslot _ E).
    + destruct Hor as [Hvis|[Hin|E]%Hel]; [apply (Hv k w' Hw); auto..|].
      by destruct (Hslot _ E).
  - intros k [H|[H|H]]; apply Hel in H as [H| ->];
      (assert (exists w, ws s !! k = Some w /\ pc w <> Unborn) as (w & Hw & Hu) by (first [exact Hn|apply Ht; auto]);
       exists (if decide (j = k) then f w else w); split; [by apply lookup_alter_some|]; case_decide; auto).
Qed.

(** A caller that leaves the workers alone. *)
Lemma inv_caller_id s cs1 c cs2 c' sl se :
  Inv s -> callers s = cs1 ++ c :: cs2 -> (forall i, c' <> Some (SSlot i)) ->
  let cs := cs1 ++ option_list c' ++ cs2 in
  (Z.testbit (sleeping s) 0 = true -> Z.testbit sl 0 = true \/ existsb heading0 cs = true) ->
  (heading0 c = true -> existsb heading0 (option_list c') = true) ->
  (0 < searching s \/ busy c = true -> 0 < se \/ existsb busy cs = true \/ existsb looking (ws s) = true) ->
  from_option (next_ok s) True c' -> Inv (mkSys (inject s) sl se (ws s) cs).
Proof.
  intros Hi Hcs Hslot cs Hsl Hh Hcome Hn.
  rewrite <- (list_alter_id (fun w => w) (ws s) 0 (fun w => eq_refl)).
  apply (inv_caller s cs1 c cs2); try done; auto.
  - by rewrite list_alter_id by done.
  - intros i E. by destruct (Hslot i).
Qed.

Lemma elem_middle {A} (x : A) l1 l2 : x ∈ l1 ++ x :: l2.
Proof. apply elem_of_app. right. left. Qed.

(** Nobody is needed beyond what a clear bit of worker 0 gives. *)
Lemma zero_clear_come s cs1 c cs2 c' :
  Inv s -> callers s = cs1 ++ c :: cs2 -> heading0 c = false -> Z.testbit (sleeping s) 0 = false ->
  existsb busy (cs1 ++ option_list c' ++ cs2) = true \/ existsb looking (ws s) = true.
Proof.
  intros Hi Hcs Hc Hs. destruct (inv_zero_clear s Hi Hs) as [H|H]; [by right|left].
  apply heading0_busy. rewrite Hcs in H. eapply existsb_replace; eauto.
Qed.

Lemma caller_step_inv s cs1 c cs2 s' c' :
  Inv s -> callers s = cs1 ++ c :: cs2 -> caller_step true c s = Some (s', c') ->
  Inv (mkSys (inject s') (sleeping s') (searching s') (ws s') (cs1 ++ option_list c' ++ cs2)).
Proof.
  intros Hi Hcs. pose proof (i_zero s Hi) as (w0 & Hw0 & Hv0 & _).
  destruct c as [| |i|i|i|i| |i|i|i]; simpl; intros H; try injection H as <- <-.
  - apply (inv_caller_id s cs1 LoadSearching); try done; [by case_goal|by auto|..].
    + intros _. destruct (Z.ltb_spec 0 (searching s)); [by auto|]. right. left. by apply existsb_new.
    + by case_goal.
  - assert (Z.testbit (sleeping s) 0 = true \/
      existsb busy (cs1 ++ option_list (Some (if negb (sleeping s =? 0) then ClearBit (trailing_zeros (sleeping s))
        else FindUnstarted)) ++ cs2) = true \/ existsb looking (ws s) = true) as Hz.
    { destruct (Z.testbit (sleeping s) 0) eqn:E; [by left|right]. by eapply zero_clear_come. }
    apply (inv_caller_id s cs1 LoadSleeping); try done; [by case_goal|by auto|..]; [|by case_goal].
    intros _. right. destruct Hz as [Hz|Hz]; [left|done]. apply existsb_new. simpl.
    rewrite trailing_zeros_0 by done. destruct (Z.eqb_spec (sleeping s) 0) as [E|]; [|done].
    rewrite E in Hz. by rewrite Z.testbit_0_l in Hz.
  - apply (inv_caller_id s cs1 (ClearBit i)); try done; [by case_goal|..].
    + intros Hb. destruct i as [|i]; [|left; simpl; by rewrite ldiff_bit0].
      right. apply existsb_new. rewrite land_bit0, Hb. unfold is_visible. rewrite Hw0. simpl. by rewrite Hv0.
    + intros [Hse|Hbu]; [by left|]. destruct i as [|i]; [|done]. right.
      destruct (Z.testbit (sleeping s) 0) eqn:Hb.
      * left. apply existsb_new. rewrite land_bit0, Hb. unfold is_visible. rewrite Hw0. simpl. by rewrite Hv0.
      * by eapply zero_clear_come.
    + case_goal; [|done]. simpl. apply andb_true_iff in Heqb as [_ Hvis]. unfold is_visible in Hvis.
      destruct (ws s !! i) as [w|] eqn:Hw; simpl in Hvis; [|done]. exists w. split; [done|].
      apply (i_visible s Hi i w Hw). by left.
  - apply (inv_caller_id s cs1 (AddSearching i)); try done; [by auto|by destruct i|..].
    + intros _. right. left. by apply existsb_new.
    + apply (i_target s Hi). left. rewrite Hcs. apply elem_middle.
  - apply (inv_caller s cs1 (SetNotified i)); try done; auto.
    + left. by destruct i.
    + intros _. right. left. by apply existsb_new.
    + apply (i_target s Hi). right. left. rewrite Hcs. apply elem_middle.
  - apply (inv_caller s cs1 (Poke i)); try done; auto.
    + intros Hh. right. by destruct i.
    + intros _. right. right.
      destruct (i_target s Hi i) as (w & Hw & Hu). { right. right. rewrite Hcs. apply elem_middle. }
      eapply existsb_alter_here; [done|]. unfold looking. simpl. by destruct (pc w).
  - apply (inv_caller_id s cs1 FindUnstarted); try done; [|by auto|..].
    + intros i. by destruct (list_find _ _) as [[]|].
    + intros [Hse|?]; [by left|done].
    + destruct (list_find _ _) as [[i w]|] eqn:E; simpl; [|done].
      apply list_find_Some in E as (Hw & Hf & _). intros ->. congruence.
  - case_match; [done|]. assert (i <> 0%nat) as Hne.
    { apply (i_started s Hi). left. rewrite Hcs. apply elem_middle. }
    case_match; injection H as <- <-.
    + apply (inv_caller_id s cs1 (SLock i)); try done; auto. intros [Hse|?]; [by left|done].
    + apply (inv_caller s cs1 (SLock i)); try done; auto. intros [Hse|?]; [left; simpl; lia|done].
  - assert (i <> 0%nat) as Hne. { apply (i_started s Hi). right. left. rewrite Hcs. apply elem_middle. }
    apply (inv_caller s cs1 (SSpawn i)); try done; auto.
    + intros [Hse|?]; [by left|done].
    + by intros ? [= <-].
  - assert (i <> 0%nat) as Hne. { apply (i_started s Hi). right. right. rewrite Hcs. apply elem_middle. }
    apply (inv_caller s cs1 (SSlot i)); try done; auto. intros [Hse|?]; [by left|done].
Qed.

Lemma init_inv n : Inv (init n).
Proof.
  split; simpl; try done.
  - eexists. by split_and!.
  - intros w [= <-] [|]; done.
  - lia.
  - intros i [H|[H|H]]; by apply elem_of_nil in H.
  - intros [|i] w H Hor; simplify_eq/=; [done|]. apply lookup_replicate in H as [-> _]. simpl in Hor.
    destruct Hor as [|H]; [done|by apply elem_of_nil in H].
  - intros i [H|[H|H]]; by apply elem_of_nil in H.
Qed.

Lemma inv_new_caller s inj :
  Inv s -> Inv (mkSys inj (sleeping s) (searching s) (ws s) (LoadSearching :: callers s)).
Proof.
  intros [Hz Hb Hc Hs Hv Ht].
  assert (forall c, c ∈ LoadSearching :: callers s -> c = LoadSearching \/ c ∈ callers s) as Hel
    by (by intros c ?%elem_of_cons).
  split; simpl; try done; try (by auto).
  - intros i H. apply Hs. destruct H as [H|[H|H]]; apply Hel in H as [?|?]; naive_solver.
  - intros i w Hw [?|H]; [by eapply Hv; eauto|]. apply Hel in H as [?|?]; [done|]. by eapply Hv; eauto.
  - intros i H. apply Ht. destruct H as [H|[H|H]]; apply Hel in H as [?|?]; naive_solver.
Qed.

Lemma step_inv s s' : Inv s -> step false s s' -> Inv s'.
Proof.
  intros Hi Hs. destruct Hs as [s|s|s cs1 c cs2 ok s' c' Hc Hok H|s i take_ s' H].
  - by apply inv_new_caller.
  - by apply inv_new_caller.
  - simpl in Hok. subst ok. by eapply caller_step_inv.
  - by eapply worker_step_inv.
Qed.

(** C34: as long as starting threads doesn't fail, a task queued for any
    worker has somebody coming for it once no thread is inside [notify_idle]
    and no worker is counted in [SEARCHING]: some worker is awake (and looks
    at the shared queue before it blocks), or blocked with a wake-up on its
    way. *)
Theorem injected_task_has_a_worker n s :
  reachable false n s -> (0 < inject s)%nat -> searching s = 0 -> callers s = [] ->
  exists i w, ws s !! i = Some w /\ pc w <> Unborn /\ (pc w = Blocked -> poked w = true).
Proof.
  intros Hr Hi Hse Hcs.
  assert (Inv s) as Hinv. { eapply rtc_invariant; [|exact Hr|apply init_inv]. intros. by eapply step_inv. }
  destruct (i_come s Hinv Hi) as [H|[H|H]]; [lia|by rewrite Hcs in H|].
  apply existsb_exists in H as (w & Hin%list_elem_of_In & Hl). apply list_elem_of_lookup in Hin as [i Hw].
  exists i, w. unfold looking in Hl. destruct (pc w); try done.
Qed.

(** ** Schedules *)

Inductive Act :=
  | AInject                      (* a plain thread queues a task *)
  | ABacklog                     (* a worker with a backlog *)
  | ACall (k : nat) (ok : bool)  (* the k-th caller's next access *)
  | AWork (i : nat) (take_ : bool).

Definition act (a : Act) (s : Sys) : option Sys :=
  match a with
  | AInject => Some (mkSys (inject s + 1) (sleeping s) (searching s) (ws s) (LoadSearching :: callers s))
  | ABacklog => Some (mkSys (inject s) (sleeping s) (searching s) (ws s) (LoadSearching :: callers s))
  | ACall k ok =>
      c ← callers s !! k;
      '(s', c') ← caller_step ok c s;
      Some (mkSys (inject s') (sleeping s') (searching s') (ws s')
                  (take k (callers s) ++ option_list c' ++ drop (S k) (callers s)))
  | AWork i take_ => worker_step i take_ s
  end.

Fixpoint run_acts (l : list Act) (s : Sys) : option Sys :=
  match l with [] => Some s | a :: l => s' ← act a s; run_acts l s' end.

Definition act_ok (fails : bool) (a : Act) : bool := if a is ACall _ ok then fails || ok else true.

Lemma idle_act_step fails a s s' : act_ok fails a = true -> act a s = Some s' -> step fails s s'.
Proof.
  destruct a as [| |k ok|i take_]; simpl; intros Hok H; simplify_eq; [by constructor|by constructor| |by eapply st_worker].
  destruct (callers s !! k) as [c|] eqn:Hc; simplify_eq/=.
  destruct (caller_step ok c s) as [[s1 c']|] eqn:E; simplify_eq/=.
  eapply st_caller; [symmetry; by apply take_drop_middle|done|done].
Qed.

Lemma acts_reachable fails n l s :
  forallb (act_ok fails) l = true -> run_acts l (init n) = Some s -> reachable fails n s.
Proof.
  intros Hok H. unfold reachable. revert Hok H. generalize (init n). induction l as [|a l IH]; simpl; intros s0 Hok H.
  - simplify_eq. apply rtc_refl.
  - apply andb_true_iff in Hok as [Ha Hl]. destruct (act a s0) as [s1|] eqn:E; simplify_eq/=.
    eapply rtc_l; [by eapply idle_act_step|]. auto.
Qed.

(** Worker 0 parks, *)
Definition park0 : list Act := [AWork 0 false; AWork 0 false].
(** and comes back from [poll] (clears its bit, answers) to take the injected
    task. *)
Definition wake0 : list Act := [AWork 0 false; AWork 0 false; AWork 0 false].
Definition take0 : list Act := [AWork 0 true].

(** A task was queued for parked worker 0, which woke and is about to look. *)
Definition woken : Sys := mkSys 1 0 0 [mkWS Awake false false true] [].

Lemma injected_task_has_a_worker_witness :
  exists i w, ws woken !! i = Some w /\ pc w <> Unborn /\ (pc w = Blocked -> poked w = true).
Proof.
  apply (injected_task_has_a_worker 0 woken); [|simpl; lia|reflexivity|reflexivity].
  apply (acts_reachable false 0 (park0 ++ [AInject; ACall 0 true; ACall 0 true; ACall 0 true; ACall 0 true;
    ACall 0 true; ACall 0 true] ++ wake0 ++ [AWork 0 false])); vm_compute; reflexivity.
Defined.

(** A caller's accesses up to claiming a bit, and after. *)
Definition claim : list Act := [ACall 0 true; ACall 0 true; ACall 0 true].
Definition deliver : list Act := [ACall 0 true; ACall 0 true; ACall 0 true].

(** Thread A queues a task and claims sleeping worker 0's bit.  Before it goes
    on, a socket event wakes worker 0, which runs that task and parks again.
    Thread B queues a task, claims the bit and notifies worker 0; then A goes
    on and does too.  Worker 0 answers once, runs B's task and parks.  Thread
    C queues a task. *)
Definition leak_acts : list Act :=
  park0 ++ [AInject] ++ claim ++ wake0 ++ take0 ++ park0 ++
  [AInject] ++ claim ++ deliver ++ deliver ++
  wake0 ++ [AWork 0 false] ++ take0 ++ park0 ++
  [AInject; ACall 0 true].

(** two threads in [notify_idle] can leave [SEARCHING] above zero for
    good: both claim the same worker's bit, in two of its parkings, both
    count it as searching, and its one answer takes one count back.  Then a
    task queued by a plain thread wakes nobody: the only worker is blocked in
    [poll] with no wake-up pending, and no thread is on its way. *)
Theorem searching_can_leak :
  let s := mkSys 1 1 1 [mkWS Blocked false false true] [] in
  reachable false 0 s /\ (0 < inject s)%nat /\ callers s = [].
Proof.
  simpl. split; [|split; [lia|done]].
  apply (acts_reachable false 0 leak_acts); vm_compute; reflexivity.
Qed.
