(* ===== verification/IoReg.v ===== *)
(** * Sockets being waited on ([src/sched.rs])

    The table of sockets by token, what events do to the tasks waiting on a
    socket, and which worker's event queue watches it.  The event queues
    themselves (mio's [Registry], over epoll or kqueue) are the operating
    system's: here the set of workers a socket is registered with, and for
    each call whether the system makes it fail. *)
From S2P Require Import Prelude Waiters.
Local Open Scope Z_scope.

Definition KEY_BITS : Z := 32.
Definition KEY_MASK : Z := Z.shiftl 1 KEY_BITS - 1.
Definition WAKER_TOKEN : Z := USIZE_MAX.

(** [IoWaiter] *)
Record IoWaiter := mkIoWaiter { task : nat; wait : Z; writable : bool }.

(** [IoState], and the workers whose event queue has the socket. *)
Record IoState := mkIoState {
  token : Z;
  fd : Z;
  closed : bool;
  owner : nat;
  waiters : list IoWaiter;
  registered : list nat;
}.

(** ** One socket *)

(** What the system answers: an error other than the ones the set of
    registrations implies. *)
Inductive Call := Register | Reregister | Deregister.
Definition oracle : Type := Call -> bool.

Inductive IoErr := AlreadyExists | NotFound | OtherErr.

Definition register (os : oracle) (w : nat) (r : list nat) : list nat * option IoErr :=
  if os Register then (r, Some OtherErr)
  else if bool_decide (w ∈ r) then (r, Some AlreadyExists) else (w :: r, None).
Definition reregister (os : oracle) (w : nat) (r : list nat) : list nat * option IoErr :=
  if os Reregister then (r, Some OtherErr)
  else if bool_decide (w ∈ r) then (r, None) else (r, Some NotFound).
Definition deregister (os : oracle) (w : nat) (r : list nat) : list nat :=
  if os Deregister then r else List.filter (fun x => negb (x =? w)%nat) r.

Definition retain_not (w : Z) (l : list IoWaiter) : list IoWaiter :=
  List.filter (fun x => negb (wait x =? w)) l.

(** The end of [watch_io]: register with this worker's event queue. *)
Definition watch_here (os : oracle) (me : nat) (w : Z) (l : list IoWaiter) (r : list nat) (s : IoState)
  : IoState * sum bool IoErr :=
  let '(r1, e1) := register os me r in
  let '(r2, e2) := match e1 with
                   | Some AlreadyExists => reregister os me r1
                   | _ => (r1, e1)
                   end in
  match e2 with
  | None => (mkIoState (token s) (fd s) (closed s) (S me) l r2, inl true)
  | Some e => (mkIoState (token s) (fd s) (closed s) 0 (retain_not w l) r2, inr e)
  end.

(** [watch_io] by worker [me] for task [t]'s wait [w].  Every owner is a
    started worker, so [other] is there whenever [owner] isn't zero. *)
Definition watch_io (os : oracle) (me t : nat) (w : Z) (wr : bool) (s : IoState)
  : IoState * sum bool IoErr :=
  if closed s then (s, inl false)
  else
    let l := waiters s ++ [mkIoWaiter t w wr] in
    if (owner s =? S me)%nat then
      (mkIoState (token s) (fd s) (closed s) (owner s) l (registered s), inl true)
    else match owner s with
    | S other =>
        if (1 <? length l)%nat then
          let '(r, e) := reregister os other (registered s) in
          (mkIoState (token s) (fd s) (closed s) (owner s) l r,
           match e with None => inl true | Some e => inr e end)
        else watch_here os me w l (deregister os other (registered s)) s
    | O => watch_here os me w l (registered s) s
    end.

(** After a wait: [lock(&state.waiters).retain(|waiter| waiter.wait != wait)]. *)
Definition forget (w : Z) (s : IoState) : IoState :=
  mkIoState (token s) (fd s) (closed s) (owner s) (retain_not w (waiters s)) (registered s).

Definition hit (readable_ writable_ : bool) (x : IoWaiter) : bool :=
  if writable x then writable_ else readable_.

(** An event's effect on a socket: the waits to end, and the socket. *)
Definition event (readable_ writable_ : bool) (s : IoState) : list (nat * Z) * IoState :=
  (map (fun x => (task x, wait x)) (List.filter (hit readable_ writable_) (waiters s)),
   mkIoState (token s) (fd s) (closed s) (owner s)
             (List.filter (fun x => negb (hit readable_ writable_ x)) (waiters s)) (registered s)).

(** [IoReg::close] *)
Definition close (s : IoState) : list (nat * Z) * IoState :=
  (map (fun x => (task x, wait x)) (waiters s),
   mkIoState (token s) (fd s) true (owner s) [] (registered s)).

Inductive sstep : IoState -> IoState -> Prop :=
  | s_watch os me t w wr s : sstep s (watch_io os me t w wr s).1
  | s_forget w s : sstep s (forget w s)
  | s_event r w s : sstep s (event r w s).2
  | s_close s : sstep s (close s).2.

(** A socket [IoReg::state] has just made. *)
Definition new_state (tok fd_ : Z) : IoState := mkIoState tok fd_ false 0 [] [].

(** Nobody waits on a closed socket, and while anyone waits the owner's event
    queue has the socket; the owner always does. *)
Record SInv (s : IoState) : Prop := {
  s_closed : closed s = true -> waiters s = [];
  s_owned : waiters s <> [] -> owner s <> 0%nat;
  s_owner : forall o, owner s = S o -> o ∈ registered s;
}.

Lemma register_ok os w r r' : register os w r = (r', None) -> w ∈ r' /\ forall x, x ∈ r -> x ∈ r'.
Proof. unfold register. repeat case_goal; intros; simplify_eq. split; [left|by right]. Qed.

Lemma reregister_regs os w r r' e : reregister os w r = (r', e) -> r' = r /\ (e = None -> w ∈ r).
Proof.
  unfold reregister. case_goal; [intros; by simplify_eq|]. case_bool_decide; intros; by simplify_eq.
Qed.

Lemma sinv_watch_here os me w l r s :
  closed s = false -> retain_not w l = [] -> SInv (watch_here os me w l r s).1.
Proof.
  intros Hc Hl. unfold watch_here.
  destruct (register os me r) as [r1 e1] eqn:E1.
  assert (exists r2 e2, match e1 with Some AlreadyExists => reregister os me r1 | _ => (r1, e1) end = (r2, e2) /\
    (e2 = None -> me ∈ r2)) as (r2 & e2 & -> & H2).
  { destruct e1 as [[| |]|]; [|by eexists _, _|by eexists _, _|].
    - destruct (reregister os me r1) as [r2 e2] eqn:E2. apply reregister_regs in E2 as [-> ?]. eauto.
    - apply register_ok in E1 as [? _]. eauto. }
  destruct e2; split; simpl; try done; try (by rewrite Hc).
  - intros ? [= <-]. auto.
Qed.

Lemma retain_app w l t wr : retain_not w (l ++ [mkIoWaiter t w wr]) = retain_not w l.
Proof. unfold retain_not. rewrite List.filter_app. simpl. rewrite Z.eqb_refl. apply app_nil_r. Qed.

Lemma sinv_watch os me t w wr s : SInv s -> SInv (watch_io os me t w wr s).1.
Proof.
  intros Hi. unfold watch_io. destruct (closed s) eqn:Ec; [done|]. destruct Hi as [Hc Ho Hw].
  destruct (Nat.eqb_spec (owner s) (S me)) as [E|Hne].
  { split; simpl; [done|by rewrite E|done]. }
  destruct (owner s) as [|o] eqn:Eo.
  - apply sinv_watch_here; [done|]. rewrite retain_app. destruct (waiters s); [done|]. by destruct Ho.
  - rewrite length_app. simpl. destruct (Nat.ltb_spec 1 (length (waiters s) + 1)).
    + destruct (reregister os o (registered s)) as [r e] eqn:E. apply reregister_regs in E as [-> _].
      split; simpl; [done|done|]. intros ? [= <-]. by apply Hw.
    + apply sinv_watch_here; [done|]. rewrite retain_app. destruct (waiters s); [done|simpl in *; lia].
Qed.

Lemma filter_nil {A} (f : A -> bool) l : l = [] -> List.filter f l = [].
Proof. by intros ->. Qed.

Lemma sinv_step s s' : SInv s -> sstep s s' -> SInv s'.
Proof.
  intros Hi Hs. destruct Hs; [by apply sinv_watch|..]; destruct Hi as [Hc Ho Hw]; split; simpl; try done.
  - intros H. by apply filter_nil, Hc.
  - intros H. apply Ho. intros E. by apply H, filter_nil.
  - intros H. by apply filter_nil, Hc.
  - intros H. apply Ho. intros E. by apply H, filter_nil.
Qed.

(** nobody waits on a closed socket, and nobody waits unwatched: however
    waits, events, closings and failing system calls interleave, a closed
    socket has no waiters (so none sleeps for ever), and while a task is
    among a socket's waiters, the socket is registered with the event queue
    of the worker recorded as its owner. *)
Theorem io_waiter_is_watched tok fd_ s :
  rtc sstep (new_state tok fd_) s ->
  (closed s = true -> waiters s = []) /\
  (waiters s <> [] -> exists o, owner s = S o /\ o ∈ registered s).
Proof.
  intros Hr. assert (SInv s) as [Hc Ho Hw].
  { eapply rtc_invariant; [|exact Hr|by split]. intros. by eapply sinv_step. }
  split; [done|]. intros H. destruct (owner s) as [|o] eqn:E; [by destruct Ho|]. eauto.
Qed.

Lemma io_waiter_is_watched_witness :
  let s := (watch_io (fun _ => false) 2 5 9 false (new_state 1 4)).1 in
  waiters s = [mkIoWaiter 5 9 false] /\ exists o, owner s = S o /\ o ∈ registered s.
Proof.
  split; [reflexivity|].
  apply (io_waiter_is_watched 1 4); [|done]. apply rtc_once. apply s_watch.
Defined.

(** an event ends exactly the waits it is for: each waiter is either woken
    (its interest matches) and removed, or kept, in order; and a wait begun
    on a closed socket registers nothing. *)
Theorem event_splits_waiters r w s :
  (event r w s).1 = map (fun x => (task x, wait x)) (List.filter (hit r w) (waiters s)) /\
  waiters s ≡ₚ List.filter (hit r w) (waiters s) ++ waiters (event r w s).2 /\
  (forall x, x ∈ waiters (event r w s).2 -> hit r w x = false) /\
  (forall os me t wt wr, watch_io os me t wt wr (close s).2 = ((close s).2, inl false)).
Proof.
  split; [done|]. split_and!; simpl.
  - induction (waiters s) as [|x l IH]; simpl; [done|]. destruct (hit r w x); simpl.
    + by rewrite IH at 1.
    + rewrite IH at 1. apply Permutation_middle.
  - intros x Hx. apply list_elem_of_In, List.filter_In in Hx as [_ Hx]. by apply negb_true_iff.
  - done.
Qed.

(** ** The table *)

Section Table.

(** [Slab::vacant_entry().key()]: the key the slab gives the next entry, less
    than 2^32 (it is at most the number of sockets there have been at once). *)
Variable vacant : gmap Z IoState -> Z.
Hypothesis vacant_small : forall m, 0 <= vacant m <= KEY_MASK.

(** [IO_TABLE] and [IO_GENERATION], with the tokens given out so far. *)
Record Table := mkTable { entries : gmap Z IoState; generation : Z; issued : list Z }.

Definition table_new : Table := mkTable ∅ 1 [].

(** [IoReg::state] for a socket that has none yet. *)
Definition table_add (fd_ : Z) (t : Table) : Table * Z :=
  let key := vacant (entries t) in
  let tok := Z.lor key (u64_shl (generation t) KEY_BITS) in
  (mkTable (<[key := new_state tok fd_]> (entries t)) (u64_add (generation t) 1) (tok :: issued t), tok).

(** [IoReg::drop]: take the socket with this token out, if it's there. *)
Definition table_drop (tok : Z) (t : Table) : Table :=
  let key := Z.land tok KEY_MASK in
  match entries t !! key with
  | Some s => if token s =? tok then mkTable (delete key (entries t)) (generation t) (issued t) else t
  | None => t
  end.

(** The socket an event is for: [poll_events]' filter. *)
Definition event_target (tok : Z) (t : Table) : option IoState :=
  if tok =? WAKER_TOKEN then None
  else s ← entries t !! Z.land tok KEY_MASK; if token s =? tok then Some s else None.

(** A socket's state changes (its token doesn't). *)
Definition table_update (key : Z) (s : IoState) (t : Table) : Table :=
  mkTable (<[key := s]> (entries t)) (generation t) (issued t).

Inductive tstep : Table -> Table -> Prop :=
  | t_add fd_ t : tstep t (table_add fd_ t).1
  | t_drop tok t : tstep t (table_drop tok t)
  | t_update key s s' t : entries t !! key = Some s -> sstep s s' -> tstep t (table_update key s' t).

Lemma watch_here_token os me w l r s : token (watch_here os me w l r s).1 = token s.
Proof.
  unfold watch_here. destruct (register os me r) as [r1 e1].
  destruct (match e1 with Some AlreadyExists => _ | _ => _ end) as [r2 e2]. by destruct e2.
Qed.

Lemma sstep_token s s' : sstep s s' -> token s' = token s.
Proof.
  destruct 1; try done. unfold watch_io. destruct (closed s); [done|]. case_goal; [done|].
  destruct (owner s); [apply watch_here_token|]. case_goal; [|apply watch_here_token].
  by destruct (reregister _ _ _).
Qed.

Lemma token_pack key g :
  0 <= key <= KEY_MASK -> 0 <= g -> Z.land (Z.lor key (u64_shl g KEY_BITS)) KEY_MASK = key /\
  Z.shiftr (Z.lor key (u64_shl g KEY_BITS)) KEY_BITS = g mod 2 ^ 32.
Proof.
  intros Hk Hg. rewrite Z.lor_comm. unfold u64_shl, wrap. rewrite Z.shiftl_mul_pow2 by (unfold KEY_BITS; lia).
  change (2 ^ 64) with (2 ^ 32 * 2 ^ KEY_BITS). rewrite Z.mul_mod_distr_r by (unfold KEY_BITS; lia).
  rewrite <- Z.shiftl_mul_pow2 by (unfold KEY_BITS; lia).
  assert (0 <= g mod 2 ^ 32) by (by apply Z.mod_pos).
  assert (0 <= key < 2 ^ KEY_BITS) by (change (2 ^ KEY_BITS) with (KEY_MASK + 1); lia).
  split; [apply (pack_low KEY_BITS)|apply (pack_high KEY_BITS)]; done.
Qed.

(** Tokens name their key, sit there, and are new each time, for the first
    2^32 sockets. *)
Record TInv (t : Table) : Prop := {
  t_gen : generation t = wrap 64 (1 + Z.of_nat (length (issued t)));
  t_keys : forall key s, entries t !! key = Some s -> Z.land (token s) KEY_MASK = key;
  t_issued : Z.of_nat (length (issued t)) < 2 ^ 32 -> NoDup (issued t) /\
    Forall (fun tok => Z.shiftr tok KEY_BITS < generation t) (issued t);
  t_live : forall key s, entries t !! key = Some s -> token s ∈ issued t;
}.

Lemma tinv_new : TInv table_new.
Proof. split; simpl; try done. by repeat constructor. Qed.

Lemma tinv_add fd_ t : TInv t -> TInv (table_add fd_ t).1.
Proof.
  intros [Hg Hk Hi Hl]. unfold table_add.
  assert (0 <= generation t) as Hpos by (rewrite Hg; by apply Z.mod_pos).
  destruct (token_pack (vacant (entries t)) (generation t) (vacant_small _) Hpos) as [Hlow Hhigh].
  split; simpl.
  - unfold u64_add, wrap in *. rewrite Hg, Zplus_mod_idemp_l. f_equal. lia.
  - intros key s [[<- <-]|[_ H]]%lookup_insert_Some; eauto.
  - intros Hn. destruct (Hi ltac:(lia)) as [Hnd Hlt].
    assert (generation t = 1 + Z.of_nat (length (issued t))) as Eg.
    { rewrite Hg. unfold wrap. apply Z.mod_small. lia. }
    assert (u64_add (generation t) 1 = generation t + 1) as ->.
    { unfold u64_add, wrap. apply Z.mod_small. lia. }
    rewrite Z.mod_small in Hhigh by lia. split.
    + apply NoDup_cons. split; [|done]. intros Hin. rewrite Forall_forall in Hlt. specialize (Hlt _ Hin). lia.
    + constructor; [lia|]. eapply Forall_impl; [done|]. simpl. lia.
  - intros key s [[<- <-]|[_ H]]%lookup_insert_Some; [left|right; eauto].
Qed.

Lemma tinv_step t t' : TInv t -> tstep t t' -> TInv t'.
Proof.
  intros Hi Hs. destruct Hs as [fd_ t|tok t|key s s' t Hk Hs].
  - by apply tinv_add.
  - unfold table_drop. destruct (entries t !! _) as [s|]; [|done]. case_goal; [|done].
    destruct Hi as [Hg Hk Hi Hl]. split; simpl; try done; intros key s' [_ ?]%lookup_delete_Some; eauto.
  - destruct Hi as [Hg Hkeys Hi Hl]. apply sstep_token in Hs as Et.
    split; simpl; try done; intros k s1 [[<- <-]|[_ H]]%lookup_insert_Some; rewrite ?Et; eauto.
Qed.

(** a stale event is never delivered to another socket: an event's token
    reaches only the socket that was given exactly that token, and (for the
    first 2^32 sockets) no token is given out twice, also when a closed
    socket's table key is reused. *)
Theorem event_reaches_its_socket t tok s :
  rtc tstep table_new t -> event_target tok t = Some s ->
  token s = tok /\ tok ∈ issued t /\ (Z.of_nat (length (issued t)) < 2 ^ 32 -> NoDup (issued t)) /\
  (forall key s', entries t !! key = Some s' -> token s' <> WAKER_TOKEN ->
     event_target (token s') t = Some s').
Proof.
  intros Hr Ht. assert (TInv t) as [Hg Hk Hi Hl].
  { eapply rtc_invariant; [|exact Hr|apply tinv_new]. intros. by eapply tinv_step. }
  unfold event_target in Ht. case_match; [done|].
  destruct (entries t !! _) as [s'|] eqn:E; simplify_eq/=. case_match eqn:E2; simplify_eq.
  apply Z.eqb_eq in E2. subst tok. split_and!; [done|by eapply Hl|intros Hn; by apply Hi|].
  intros key s' He Hne. unfold event_target. rewrite (proj2 (Z.eqb_neq _ _) Hne), (Hk _ _ He), He. simpl.
  by rewrite Z.eqb_refl.
Qed.

End Table.

(** ** An instance: keys 0 and 1, the lowest free one *)

Definition two_keys (m : gmap Z IoState) : Z := if bool_decide (m !! 0 = None) then 0 else 1.

Lemma two_keys_small m : 0 <= two_keys m <= KEY_MASK.
Proof. unfold two_keys. case_bool_decide; vm_compute; split; discriminate. Defined.

(** A socket is added and dropped, and another takes its key. *)
Definition first_add : Table * Z := table_add two_keys 4 table_new.
Definition second_add : Table * Z := table_add two_keys 5 (table_drop first_add.2 first_add.1).

Lemma event_reaches_its_socket_witness :
  event_target second_add.2 second_add.1 = Some (new_state 8589934592 5) /\
  event_target first_add.2 second_add.1 = None /\
  token (new_state 8589934592 5) = second_add.2.
Proof.
  split; [reflexivity|]. split; [reflexivity|].
  apply (event_reaches_its_socket two_keys two_keys_small second_add.1); [|reflexivity].
  eapply rtc_l; [apply (t_add two_keys 4)|]. eapply rtc_l; [apply (t_drop two_keys first_add.2)|].
  eapply rtc_l; [apply (t_add two_keys 5)|]. apply rtc_refl.
Defined.
