(* ===== verification/MultiWait.v ===== *)
(** * One wait on several sockets ([src/sched.rs], [MultiWait])

    What [Select.v] takes of the scheduler, over the sockets of [IoReg.v]:
    one wait of a task is added to several sockets, the first event ends it,
    and then it is taken off all of them.  Meanwhile other tasks wait on the
    same sockets, events come and sockets close; a step is what happens under
    one socket's lock, or one claim of the task's wait word; the wake-ups of an
    event are given after its lock is released, and a wake-up that claimed the
    wait stores how it ended some time after.  The task may be resumed at any
    time, its wait claimed or not (a wake-up for an earlier wait arriving
    late). *)
From stdpp Require Import functions.
From S2P Require Import Prelude TaskProto Waiters IoReg.
Local Open Scope Z_scope.

Module MultiWait.

(** [MultiWait]; sockets are named by their place. *)
Record MultiWait := mkMultiWait { mtask : nat; mwait : Z; io : list nat }.

Inductive Phase :=
  | PIdle
  | PBuilding (m : MultiWait)
  | PSuspended (m : MultiWait)
  (** [forget_io]: the sockets still to visit. *)
  | PForgetting (m : MultiWait) (todo : list nat) (woke : option Woke)
  | PDone (wait : Z) (woke : option Woke).

(** The sockets, the task's wait word and how it was woken, what claims of it
    have yet to store there, the next wait's id, the wake-ups collected but
    not given yet, and where the task is.  Two
    fields only remember: what was added, and the sockets that a failed
    [add_io] left the wait on. *)
Record Sys := mkSys {
  socks : nat -> IoState;
  me : nat;
  word : Z;
  woke : Woke;
  storing : list Woke;
  next : Z;
  in_flight : list (nat * Z);
  phase : Phase;
  asked : list (nat * bool);
  stray : list nat;
}.

Definition with_socks f s := mkSys f (me s) (word s) (woke s) (storing s) (next s) (in_flight s) (phase s) (asked s) (stray s).
Definition with_word x r s := mkSys (socks s) (me s) x r (storing s) (next s) (in_flight s) (phase s) (asked s) (stray s).
Definition with_storing r l s := mkSys (socks s) (me s) (word s) r l (next s) (in_flight s) (phase s) (asked s) (stray s).
Definition with_in_flight l s := mkSys (socks s) (me s) (word s) (woke s) (storing s) (next s) l (phase s) (asked s) (stray s).
Definition with_phase p s := mkSys (socks s) (me s) (word s) (woke s) (storing s) (next s) (in_flight s) p (asked s) (stray s).

(** [wake], for the task this is about, up to storing how the wait ended, *)
Definition wake (x : nat * Z) (r : Woke) (s : Sys) : Sys :=
  if (x.1 =? me s)%nat && (word s =? x.2) then with_storing (woke s) (storing s ++ [r]) (with_word 0 (woke s) s) else s.

(** and that. *)
Definition store_woke (l : list Woke) (r : Woke) (l' : list Woke) (s : Sys) : Sys := with_storing r (l ++ l') s.

(** [begin_multi_wait]; [cancelled] is the task's flag. *)
Definition begin_multi_wait (cancelled : bool) (s : Sys) : MultiWait * Sys :=
  let m := mkMultiWait (me s) (next s) [] in
  let s := mkSys (socks s) (me s) (next s) Ready (storing s) (next s + 1) (in_flight s) (PBuilding m) [] [] in
  (m, if cancelled then with_word 0 Cancelled s else s).

Definition holds_wait (w : Z) (x : IoState) : bool := existsb (fun y => wait y =? w) (waiters x).

(** [add_io], by the worker [worker]: [Some None] is [NotConnected]. *)
Definition add_io (os : oracle) (worker i : nat) (writable : bool) (m : MultiWait) (s : Sys) : option (option IoErr) * MultiWait * Sys :=
  let '(x, r) := watch_io os worker (mtask m) (mwait m) writable (socks s i) in
  let f := <[i := x]> (socks s) in
  match r with
  | inr e => (Some (Some e), m,
      mkSys f (me s) (word s) (woke s) (storing s) (next s) (in_flight s) (phase s) (asked s) (if holds_wait (mwait m) x then i :: stray s else stray s))
  | inl false => (Some None, m, with_socks f s)
  | inl true => (None, mkMultiWait (mtask m) (mwait m) (io m ++ [i]),
      mkSys f (me s) (word s) (woke s) (storing s) (next s) (in_flight s) (phase s) ((i, writable) :: asked s) (stray s))
  end.

(** [wait], once [wait_suspended] returns. *)
Definition wait_over (m : MultiWait) (s : Sys) : Sys := with_phase (PForgetting m (io m) (Some (woke s))) s.

(** [abandon] *)
Definition abandon (m : MultiWait) (s : Sys) : Sys :=
  with_phase (PForgetting m (io m) None) (if word s =? mwait m then with_word 0 (woke s) s else s).

(** One turn of [forget_io]. *)
Definition forget_one (m : MultiWait) (i : nat) (s : Sys) : Sys := with_socks (<[i := forget (mwait m) (socks s i)]> (socks s)) s.

(** The wait the task has begun. *)
Definition current (p : Phase) : option Z :=
  match p with
  | PIdle => None
  | PBuilding m | PSuspended m | PForgetting m _ _ => Some (mwait m)
  | PDone w _ => Some w
  end.

Section Steps.
(** What the system's calls may answer. *)
Variable P : oracle -> Prop.

Inductive step : Sys -> Sys -> Prop :=
  | st_begin c s : match phase s with PIdle | PDone _ _ => True | _ => False end -> step s (begin_multi_wait c s).2
  | st_add os worker i wr m s : P os -> phase s = PBuilding m ->
      step s (with_phase (PBuilding (add_io os worker i wr m s).1.2) (add_io os worker i wr m s).2)
  | st_suspend m s : phase s = PBuilding m -> step s (with_phase (PSuspended m) s)
  (** The deadline, or [cancel]. *)
  | st_end r s : word s <> 0 -> step s (wake (me s, word s) r s)
  | st_wait_over m s : phase s = PSuspended m -> step s (wait_over m s)
  | st_store l r l' s : storing s = l ++ r :: l' -> step s (store_woke l r l' s)
  | st_abandon m s : phase s = PBuilding m -> step s (abandon m s)
  | st_forget m i todo r s : phase s = PForgetting m (i :: todo) r -> step s (with_phase (PForgetting m todo r) (forget_one m i s))
  | st_done m r s : phase s = PForgetting m [] r -> step s (with_phase (PDone (mwait m) r) s)
  (** Other tasks: their waits have ids of their own. *)
  | st_id s : step s (mkSys (socks s) (me s) (word s) (woke s) (storing s) (next s + 1) (in_flight s) (phase s) (asked s) (stray s))
  | st_other os worker i t w wr s : P os -> 0 < w < next s -> current (phase s) <> Some w ->
      step s (with_socks (<[i := (watch_io os worker t w wr (socks s i)).1]> (socks s)) s)
  | st_other_forget i w s : current (phase s) <> Some w -> step s (with_socks (<[i := forget w (socks s i)]> (socks s)) s)
  (** Events and closings, and the wake-ups they give. *)
  | st_event i r w s : step s (with_in_flight (in_flight s ++ (event r w (socks s i)).1) (with_socks (<[i := (event r w (socks s i)).2]> (socks s)) s))
  | st_close i s : step s (with_in_flight (in_flight s ++ (close (socks s i)).1) (with_socks (<[i := (close (socks s i)).2]> (socks s)) s))
  | st_deliver l x l' s : in_flight s = l ++ x :: l' -> step s (wake x Ready (with_in_flight (l ++ l') s)).

End Steps.

(** No socket waited on, and no wait begun. *)
Definition start (t : nat) : Sys := mkSys (fun i => new_state (Z.of_nat i) (Z.of_nat i)) t 0 Ready [] 1 [] PIdle [] [].
Definition reachable (P : oracle -> Prop) (s : Sys) : Prop := exists t, rtc (step P) (start t) s.

(** ** What [watch_io] leaves *)

(** A failure leaves no waits, as there were none, but for one: when re-arming
    the socket in another worker's event queue fails. *)
Lemma watch_io_waiters os worker t w wr x : SInv x ->
  let '(x', r) := watch_io os worker t w wr x in
  match r with
  | inl true => waiters x' = waiters x ++ [mkIoWaiter t w wr]
  | inl false => x' = x
  | inr _ => (waiters x' = waiters x ++ [mkIoWaiter t w wr] /\ os Reregister = true) \/ (waiters x' = [] /\ waiters x = [])
  end.
Proof.
  intros Hi. unfold watch_io. destruct (closed x); [done|]. case_goal; [done|].
  assert (waiters x = [] -> forall r, let '(x', r) := watch_here os worker w (waiters x ++ [mkIoWaiter t w wr]) r x in
    match r with inl true => waiters x' = waiters x ++ [mkIoWaiter t w wr] | inl false => x' = x
    | inr _ => waiters x' = [] /\ waiters x = [] end) as Hh.
  { intros Hn r. unfold watch_here. destruct (register os worker r) as [r1 e1].
    destruct (match e1 with Some AlreadyExists => _ | _ => _ end) as [r2 [e2|]]; [|done]. cbn. by rewrite retain_app, Hn. }
  destruct (owner x) as [|o] eqn:Eo.
  { assert (waiters x = []) as Hn by (destruct (waiters x) eqn:E; [done|]; destruct (s_owned _ Hi); [by rewrite E|done]).
    specialize (Hh Hn (registered x)). destruct (watch_here _ _ _ _ _ _) as [x' [[]|]]; auto. }
  case_goal.
  - unfold reregister. rewrite (bool_decide_eq_true_2 _ (s_owner _ Hi o Eo)). destruct (os Reregister); cbn; auto.
  - assert (waiters x = []) as Hn by (destruct (waiters x); [done|]; rewrite length_app in *; cbn in *; destruct (length l); done).
    specialize (Hh Hn (deregister os o (registered x))). destruct (watch_here _ _ _ _ _ _) as [x' [[]|]]; auto.
Qed.

Lemma retain_not_in w l y : y ∈ retain_not w l <-> y ∈ l /\ wait y <> w.
Proof. unfold retain_not. rewrite !list_elem_of_In, List.filter_In. rewrite negb_true_iff, Z.eqb_neq. done. Qed.

(** Whoever calls it, the waits on a socket are those there were and the
    caller's, and no other is taken off. *)
Lemma watch_io_others os worker t w wr x y : SInv x ->
  (y ∈ waiters (watch_io os worker t w wr x).1 -> y ∈ waiters x \/ y = mkIoWaiter t w wr) /\
  (y ∈ waiters x -> y ∈ waiters (watch_io os worker t w wr x).1).
Proof.
  intros Hi. pose proof (watch_io_waiters os worker t w wr x Hi) as H. destruct (watch_io _ _ _ _ _ _) as [x' [[]|]]; cbn [fst] in *.
  - rewrite H, elem_of_app, list_elem_of_singleton. tauto.
  - subst. tauto.
  - destruct H as [[-> _]|[-> ->]]; rewrite ?elem_of_app, ?list_elem_of_singleton; tauto.
Qed.

Lemma holds_wait_true w x : holds_wait w x = true <-> exists y, y ∈ waiters x /\ wait y = w.
Proof.
  unfold holds_wait. rewrite List.existsb_exists. split; intros (y & Hy & E); exists y; rewrite list_elem_of_In in *; split; [done|lia|done|lia].
Qed.

(** ** The invariant *)

(** The sockets [forget_io] will visit. *)
Definition listed (p : Phase) : list nat :=
  match p with PBuilding m | PSuspended m => io m | PForgetting m todo _ => todo | _ => [] end.

(** The wait that was given up without suspending. *)
Definition abandoned (p : Phase) : option Z :=
  match p with PForgetting m _ None => Some (mwait m) | PDone w None => Some w | _ => None end.

(** The wait, while it is being set up or waited for. *)
Definition open (p : Phase) : option MultiWait := match p with PBuilding m | PSuspended m => Some m | _ => None end.

(** A wait that is added to a socket is there, or its wake-up is on the way,
    or it has been ended. *)
Definition attended (s : Sys) (w : Z) (x : nat * bool) : Prop :=
  mkIoWaiter (me s) w x.2 ∈ waiters (socks s x.1) \/ (me s, w) ∈ in_flight s \/ word s <> w.

Record Inv (P : oracle -> Prop) (s : Sys) : Prop := {
  i_next : 0 < next s;
  i_socks : forall i, SInv (socks s i);
  i_ids : forall i y, y ∈ waiters (socks s i) -> 0 < wait y < next s;
  i_current : forall w, current (phase s) = Some w -> 0 < w < next s;
  i_task : forall m, open (phase s) = Some m -> mtask m = me s;
  i_asked : forall m x, open (phase s) = Some m -> x ∈ asked s -> attended s (mwait m) x;
  i_held : forall w i y, current (phase s) = Some w -> y ∈ waiters (socks s i) -> wait y = w -> i ∈ listed (phase s) \/ i ∈ stray s;
  i_word : word s = 0 \/ current (phase s) = Some (word s);
  i_over : forall w, abandoned (phase s) = Some w -> word s <> w;
  i_stray : (forall os, P os -> os Reregister = false) -> stray s = [];
}.

Lemma abandoned_current p w : abandoned p = Some w -> current p = Some w.
Proof. by destruct p as [| | |? ? []|? []]; cbn; intros; simplify_eq. Qed.

Lemma open_current p m : open p = Some m -> current p = Some (mwait m).
Proof. by destruct p; cbn; intros; simplify_eq. Qed.

(** What happens to one socket: the task's wait stays on it or is on its way
    to being woken, and whatever comes is not the task's. *)
Lemma mw_socks P s i x fl : Inv P s -> SInv x ->
  (forall y, y ∈ waiters x -> y ∈ waiters (socks s i) \/ (0 < wait y < next s /\ current (phase s) <> Some (wait y))) ->
  (forall y, y ∈ waiters (socks s i) -> current (phase s) = Some (wait y) -> y ∈ waiters x \/ (task y, wait y) ∈ fl) ->
  Inv P (with_in_flight (in_flight s ++ fl) (with_socks (<[i := x]> (socks s)) s)).
Proof.
  intros [] Hx Hin Hout. split; cbn; try done.
  - intros j. destruct (decide (i = j)) as [<-|]; [by rewrite fn_lookup_insert|by rewrite fn_lookup_insert_ne].
  - intros j y. destruct (decide (i = j)) as [<-|]; [rewrite fn_lookup_insert|rewrite fn_lookup_insert_ne by done; apply i_ids0].
    intros [?|[? _]]%Hin; [by eapply i_ids0|done].
  - intros m [j wr] Hm Hask. destruct (i_asked0 m _ Hm Hask) as [Hw|[?|?]]; unfold attended; cbn in *.
    + destruct (decide (i = j)) as [<-|]; [rewrite fn_lookup_insert|rewrite fn_lookup_insert_ne by done; by left].
      destruct (Hout _ Hw) as [?|?]; [by apply open_current|by left|]. right; left. apply elem_of_app. by right.
    + right; left. apply elem_of_app. by left.
    + by right; right.
  - intros w j y Hw. destruct (decide (i = j)) as [<-|]; [rewrite fn_lookup_insert|rewrite fn_lookup_insert_ne by done; by apply i_held0].
    intros [?|[_ ?]]%Hin E; [by eapply i_held0|]. by subst w.
Qed.

Lemma with_socks_same f s : with_in_flight (in_flight s ++ []) (with_socks f s) = with_socks f s.
Proof. by rewrite app_nil_r. Qed.

(** A claim of the wait word. *)
Lemma mw_wake P x r s : Inv P s -> Inv P (wake x r s).
Proof.
  intros HI. unfold wake. destruct (_ && _) eqn:E; [|done]. destruct HI. split; cbn; try done.
  - intros m y Hm _. right; right. cbn. pose proof (i_current0 _ (open_current _ _ Hm)). lia.
  - by left.
  - intros w Hw. pose proof (i_current0 _ (abandoned_current _ _ Hw)). lia.
Qed.

Lemma mw_deliver P l x l' s : in_flight s = l ++ x :: l' -> Inv P s -> Inv P (wake x Ready (with_in_flight (l ++ l') s)).
Proof.
  intros Hf HI. unfold wake. destruct (_ && _) eqn:E; cbn in E.
  - pose proof (mw_wake P x Ready s HI) as Hw. unfold wake in Hw. rewrite E in Hw. destruct Hw. split; try done.
    intros m y Hm Hy. right; right. cbn. pose proof (i_current0 _ (open_current _ _ Hm)). cbn in *. lia.
  - destruct HI. split; try done. intros m y Hm Hy. destruct (i_asked0 m y Hm Hy) as [?|[Hin|?]]; [by left| |by right; right].
    rewrite Hf in Hin. apply elem_of_app in Hin as [?|[<-|?]%elem_of_cons].
    + right; left. cbn. apply elem_of_app. by left.
    + right; right. cbn in *. intros Ew. rewrite Nat.eqb_refl, Ew, Z.eqb_refl in E. done.
    + right; left. cbn. apply elem_of_app. by right.
Qed.

Lemma mw_begin P c s : Inv P s -> Inv P (begin_multi_wait c s).2.
Proof.
  intros []. assert (Inv P (mkSys (socks s) (me s) (next s) Ready (storing s) (next s + 1) (in_flight s) (PBuilding (mkMultiWait (me s) (next s) [])) [] [])) as H.
  { split; cbn; try done; try lia.
    - intros i y Hy. pose proof (i_ids0 _ _ Hy). lia.
    - intros w [= <-]. lia.
    - by intros ? [= <-].
    - intros m x _ H. by apply elem_of_nil in H.
    - intros w i y [= <-] Hy E. pose proof (i_ids0 _ _ Hy). lia.
    - by right. }
  unfold begin_multi_wait. cbn [snd]. destruct c; [|done]. destruct H. split; try done; cbn in *.
  - intros m x Hm _. right; right. cbn. simplify_eq/=. lia.
  - by left.
Qed.

Lemma mw_add P os worker i wr m s : P os -> phase s = PBuilding m -> Inv P s ->
  Inv P (with_phase (PBuilding (add_io os worker i wr m s).1.2) (add_io os worker i wr m s).2).
Proof.
  intros HP Hph HI. pose proof (i_task _ _ HI m ltac:(by rewrite Hph)) as Et. pose proof (i_current _ _ HI (mwait m) ltac:(by rewrite Hph)) as Hc.
  pose proof (sinv_watch os worker (mtask m) (mwait m) wr _ (i_socks _ _ HI i)) as Hs.
  pose proof (fun y => watch_io_others os worker (mtask m) (mwait m) wr (socks s i) y (i_socks _ _ HI i)) as Ho.
  pose proof (watch_io_waiters os worker (mtask m) (mwait m) wr (socks s i) (i_socks _ _ HI i)) as Hw.
  unfold add_io. destruct (watch_io _ _ _ _ _ _) as [x r]. cbn [fst] in Hs, Ho.
  assert (forall j, SInv (<[i := x]> (socks s) j)) as Hsocks.
  { intros j. destruct (decide (i = j)) as [<-|]; [by rewrite fn_lookup_insert|rewrite fn_lookup_insert_ne by done; apply HI]. }
  assert (forall j y, y ∈ waiters (<[i := x]> (socks s) j) -> 0 < wait y < next s) as Hids.
  { intros j y. destruct (decide (i = j)) as [<-|]; [rewrite fn_lookup_insert|rewrite fn_lookup_insert_ne by done; apply HI].
    intros [?| ->]%Ho; [by eapply i_ids|done]. }
  assert (forall s' x0, attended s (mwait m) x0 -> socks s' = <[i := x]> (socks s) -> me s' = me s -> in_flight s' = in_flight s -> word s' = word s ->
    attended s' (mwait m) x0) as Hatt.
  { intros s' [j b] Hx Es Em Ef Ew. unfold attended in *. rewrite Es, Em, Ef, Ew. cbn [fst snd] in *.
    destruct Hx as [Hx|Hx]; [left|by right]. destruct (decide (i = j)) as [<-|]; [rewrite fn_lookup_insert; by apply Ho|by rewrite fn_lookup_insert_ne]. }
  assert (forall j y, y ∈ waiters (<[i := x]> (socks s) j) -> wait y = mwait m -> (j = i /\ y ∈ waiters x) \/ y ∈ waiters (socks s j)) as Hin.
  { intros j y. destruct (decide (i = j)) as [<-|]; [rewrite fn_lookup_insert|rewrite fn_lookup_insert_ne by done]; auto. }
  destruct HI as [? ? ? ? ? Ha Hh ? ? Hst]. rewrite Hph in *. cbn [open current listed] in *.
  destruct r as [[]|e]; cbn [fst snd]; split; cbn; try done; try (by intros ? [= <-]).
  - intros m0 x0 [= <-]. cbn [mwait]. intros [->|H]%elem_of_cons; [|eapply Hatt; eauto]. left. cbn. by rewrite fn_lookup_insert, Hw, Et, elem_of_app, list_elem_of_singleton; right.
  - intros w j y [= <-] Hy E. rewrite elem_of_app, list_elem_of_singleton. destruct (Hin j y Hy E) as [[-> _]|Hy']; [by left; right|]. destruct (Hh _ _ _ eq_refl Hy' E); auto.
  - intros m0 x0 [= <-] H. eapply Hatt; eauto.
  - intros w j y [= <-] Hy E. destruct (Hin j y Hy E) as [[-> Hy']|Hy']; subst; eauto.
  - intros m0 x0 [= <-] H. eapply Hatt; eauto.
  - intros w j y [= <-] Hy E. destruct (Hin j y Hy E) as [[-> Hy']|Hy'].
    + rewrite (proj2 (holds_wait_true _ _)) by eauto. right. left.
    + destruct (Hh _ _ _ eq_refl Hy' E); [by left|right]. case_match; [by right|done].
  - intros Hre. rewrite (Hst Hre). destruct Hw as [[_ Hos]|[Hw _]]; [by rewrite (Hre os HP) in Hos|].
    destruct (holds_wait _ x) eqn:Eh; [|done]. apply holds_wait_true in Eh as (y & Hy & E). rewrite Hw in Hy. by apply elem_of_nil in Hy.
Qed.

Lemma mw_forget P m i todo r s : phase s = PForgetting m (i :: todo) r -> Inv P s -> Inv P (with_phase (PForgetting m todo r) (forget_one m i s)).
Proof.
  intros Hph []. rewrite Hph in *. cbn in *.
  assert (forall j y, y ∈ waiters (<[i := forget (mwait m) (socks s i)]> (socks s) j) -> y ∈ waiters (socks s j) /\ (wait y = mwait m -> j <> i)) as Hf.
  { intros j y. destruct (decide (i = j)) as [<-|]; [rewrite fn_lookup_insert|rewrite fn_lookup_insert_ne by done; auto].
    cbn. rewrite retain_not_in. tauto. }
  split; cbn; try done; try (by rewrite Hph).
  - intros j. destruct (decide (i = j)) as [<-|]; [rewrite fn_lookup_insert|by rewrite fn_lookup_insert_ne].
    eapply sinv_step; [done|apply s_forget].
  - intros j y [? _]%Hf. eauto.
  - intros w j y [= <-] [Hy Hne]%Hf E. destruct (i_held0 _ _ _ eq_refl Hy E) as [[->|?]%elem_of_cons|]; [by destruct (Hne E)|auto..].
Qed.

(** Moving on, with the same sockets. *)
Lemma mw_phase P p s : Inv P s -> current p = current (phase s) -> (open p = None \/ open p = open (phase s)) ->
  (forall i, i ∈ listed (phase s) -> i ∈ listed p) -> (forall w, abandoned p = Some w -> word s <> w) -> Inv P (with_phase p s).
Proof.
  intros [] Hc Ho Hl Hov. split; cbn; try done; rewrite ?Hc; try done.
  - intros m Hm. destruct Ho as [Ho|Ho]; rewrite Ho in Hm; [done|auto].
  - intros m x Hm. destruct Ho as [Ho|Ho]; rewrite Ho in Hm; [done|by apply i_asked0].
  - intros w i y Hw Hy E. destruct (i_held0 _ _ _ Hw Hy E); auto.
Qed.

Lemma mw_step P s s' : Inv P s -> step P s s' -> Inv P s'.
Proof.
  intros HI Hs. destruct Hs as [c s Hp|os worker i wr m s HP Hp|m s Hp|r s Hw|m s Hp|l r l' s Hl|m s Hp|m i todo r s Hp|m r s Hp|s|os worker i t w wr s HP Hid Hc|i w s Hc|i r w s|i s|l x l' s Hf].
  - by apply mw_begin.
  - by apply mw_add.
  - apply mw_phase; rewrite ?Hp; try done. by right.
  - by apply mw_wake.
  - apply mw_phase; rewrite ?Hp; try done. by left.
  - by destruct HI.
  - unfold abandon. set (s1 := if word s =? mwait m then with_word 0 (woke s) s else s).
    assert (Inv P s1 /\ phase s1 = phase s /\ word s1 <> mwait m) as (H1 & Ep & Hw).
    { pose proof (i_current _ _ HI (mwait m) ltac:(by rewrite Hp)) as Hc. subst s1. destruct (Z.eqb_spec (word s) (mwait m)) as [E|]; [|done].
      split_and!; [|done|cbn; lia]. destruct HI. split; cbn; try done.
      - intros m0 x Hm _. right; right. cbn. rewrite Hp in *. simplify_eq/=. lia.
      - by left.
      - intros w Hw. pose proof (i_current0 _ (abandoned_current _ _ Hw)). lia. }
    apply mw_phase; rewrite ?Ep, ?Hp; try done; [by left|]. by intros ? [= <-].
  - by apply mw_forget.
  - apply mw_phase; rewrite ?Hp; try done; [by left|]. intros w Hw. destruct r; [done|]. simplify_eq/=. eapply i_over; [done|by rewrite Hp].
  - destruct HI. split; cbn; try done; [lia|intros i y Hy; pose proof (i_ids0 _ _ Hy); lia|intros w Hw; pose proof (i_current0 _ Hw); lia].
  - rewrite <- with_socks_same. pose proof (i_socks _ _ HI i) as Hsi. apply mw_socks; [done|by apply sinv_watch|..].
    + intros y [?| ->]%watch_io_others; [by left|by right|done].
    + intros y Hy _. left. by apply watch_io_others.
  - rewrite <- with_socks_same. apply mw_socks; [done|eapply sinv_step; [exact (i_socks _ _ HI i)|apply s_forget]|..].
    + intros y [? _]%retain_not_in. by left.
    + intros y Hy E. left. apply retain_not_in. split; [done|]. intros <-. done.
  - apply mw_socks; [done|eapply sinv_step; [exact (i_socks _ _ HI i)|apply s_event]|..].
    + intros y. cbn. rewrite !list_elem_of_In, List.filter_In. tauto.
    + intros y Hy _. cbn. destruct (hit r w y) eqn:E.
      * right. rewrite list_elem_of_In. apply (List.in_map (fun x => (task x, wait x))), List.filter_In. by rewrite <- list_elem_of_In.
      * left. rewrite list_elem_of_In, List.filter_In, <- list_elem_of_In, E. done.
  - apply mw_socks; [done|eapply sinv_step; [exact (i_socks _ _ HI i)|apply s_close]|..].
    + intros y H. by apply elem_of_nil in H.
    + intros y Hy _. right. cbn. rewrite list_elem_of_In. apply list_elem_of_In in Hy. exact (List.in_map (fun x => (task x, wait x)) _ _ Hy).
  - by apply mw_deliver.
Qed.

Lemma mw_reachable P s : reachable P s -> Inv P s.
Proof.
  intros [t Hr]. eapply rtc_invariant; [|exact Hr|]; [intros; by eapply mw_step|].
  split; cbn; try done; try (intros; by match goal with H : _ ∈ [] |- _ => apply elem_of_nil in H end).
  by left.
Qed.

(** C36: A wait on several sockets misses nothing and leaves nothing.  While the
    task sets it up or sleeps in it, each socket it was added to has it among
    its waiters, in the event queue of some worker, or the wake-up is on its
    way, or the wait has been claimed already.  Once it is over, by [abandon]
    or by [wait], which may also return before anybody claimed the wait, no
    socket has it among its waiters, unless the system failed to re-arm a
    socket that another worker was watching.  Wake-ups that name a wait that
    was abandoned no longer count, nor do those that name any but the task's
    latest wait; one that names a wait that returned unclaimed can still claim
    it, until the task begins another. *)
Theorem multi_wait_attended P s : reachable P s ->
  (forall m i wr, open (phase s) = Some m -> (i, wr) ∈ asked s ->
     (mkIoWaiter (me s) (mwait m) wr ∈ waiters (socks s i) /\ closed (socks s i) = false /\ exists o, owner (socks s i) = S o /\ o ∈ registered (socks s i)) \/
     (me s, mwait m) ∈ in_flight s \/ word s <> mwait m) /\
  (forall w r, phase s = PDone w r ->
     (forall i y, y ∈ waiters (socks s i) -> wait y = w -> i ∈ stray s) /\
     ((forall os, P os -> os Reregister = false) -> forall i y, y ∈ waiters (socks s i) -> wait y <> w) /\
     (r = None -> forall t r', wake (t, w) r' s = s)) /\
  (forall w t r, 0 < w -> current (phase s) <> Some w -> wake (t, w) r s = s).
Proof.
  intros HI%mw_reachable. assert (forall w t r, word s <> w -> wake (t, w) r s = s) as Hno
    by (intros w t r H; unfold wake; cbn; rewrite (proj2 (Z.eqb_neq (word s) w)) by done; by rewrite andb_false_r).
  split_and!.
  - intros m i wr Hm Hi. destruct (i_asked _ _ HI m (i, wr) Hm Hi) as [Hw|?]; [left|by right]. cbn in Hw. split; [done|].
    destruct (i_socks _ _ HI i) as [Hc Ho Hr]. assert (waiters (socks s i) <> []) as Hne by (intros E; rewrite E in Hw; by apply elem_of_nil in Hw).
    split; [destruct (closed _); [by destruct Hne; auto|done]|].
    destruct (owner (socks s i)) as [|o]; [by destruct (Ho Hne)|eauto].
  - intros w r Hp. assert (forall i y, y ∈ waiters (socks s i) -> wait y = w -> i ∈ stray s) as Hh.
    { intros i y Hy E. destruct (i_held _ _ HI w i y) as [H|]; [by rewrite Hp|done..| |done]. rewrite Hp in H. by apply elem_of_nil in H. }
    split_and!; [done| |].
    + intros Hre i y Hy E. pose proof (Hh i y Hy E) as H. rewrite (i_stray _ _ HI Hre) in H. by apply elem_of_nil in H.
    + intros -> t r'. apply Hno, (i_over _ _ HI). by rewrite Hp.
  - intros w t r Hw Hc. apply Hno. intros E. destruct (i_word _ _ HI) as [|H]; [lia|congruence].
Qed.

(** ** A wait on two sockets, and one that is left behind *)

Definition fine : oracle := fun _ => false.
Definition no_rearm : oracle := fun c => match c with Reregister => true | _ => false end.

(** Task 3 on worker 0 waits on sockets 1 and 2; socket 2 becomes readable. *)
Definition waiting : Sys :=
  let '(m, s) := begin_multi_wait false (start 3) in
  let '(_, m, s) := add_io fine 0 1 false m s in
  let '(_, m, s) := add_io fine 0 2 false m (with_phase (PBuilding m) s) in
  with_phase (PSuspended m) s.

Lemma waiting_reachable : reachable (fun os => os Reregister = false) waiting.
Proof.
  exists 3%nat. eapply rtc_l; [by apply (st_begin _ false)|]. eapply rtc_l; [by apply (st_add _ fine 0 1 false)|].
  eapply rtc_l; [by apply (st_add _ fine 0 2 false)|]. eapply rtc_l; [by eapply st_suspend|]. apply rtc_refl.
Defined.

(** Resumed before anybody claimed the wait, it takes it off both. *)
Definition resumed_early : Sys :=
  let m := mkMultiWait 3 1 [1%nat; 2%nat] in with_phase (PDone 1 (Some Ready)) (forget_one m 2 (forget_one m 1 (wait_over m waiting))).

Lemma resumed_early_reachable : reachable (fun os => os Reregister = false) resumed_early.
Proof.
  destruct waiting_reachable as [t Hr]. exists t. etransitivity; [exact Hr|].
  eapply rtc_l; [by apply (st_wait_over _ (mkMultiWait 3 1 [1%nat; 2%nat]))|]. eapply rtc_l; [by apply (st_forget _ (mkMultiWait 3 1 [1%nat; 2%nat]) 1 [2%nat] (Some Ready))|].
  eapply rtc_l; [by apply (st_forget _ (mkMultiWait 3 1 [1%nat; 2%nat]) 2 [] (Some Ready))|]. eapply rtc_l; [by apply (st_done _ (mkMultiWait 3 1 [1%nat; 2%nat]) (Some Ready))|]. apply rtc_refl.
Defined.

Lemma multi_wait_attended_witness :
  (asked waiting = [(2%nat, false); (1%nat, false)] /\ word waiting = 1 /\
  ((mkIoWaiter 3 1 false ∈ waiters (socks waiting 2) /\ closed (socks waiting 2) = false /\ exists o, owner (socks waiting 2) = S o /\ o ∈ registered (socks waiting 2)) \/
   (3%nat, 1) ∈ in_flight waiting \/ word waiting <> 1)) /\
  (word resumed_early = 1 /\ forall i y, y ∈ waiters (socks resumed_early i) -> wait y <> 1).
Proof.
  split; [split; [reflexivity|]; split; [reflexivity|]|split; [reflexivity|]].
  - exact (proj1 (multi_wait_attended _ waiting waiting_reachable) _ 2%nat false eq_refl ltac:(left)).
  - exact (proj1 (proj2 (proj1 (proj2 (multi_wait_attended _ resumed_early resumed_early_reachable)) 1 (Some Ready) eq_refl)) (fun os H => H)).
Defined.

(** Task 9's wait is on socket 1 from worker 5 when task 3, on worker 0, adds
    its own and the system fails to re-arm the socket. *)
Definition left_behind : Sys :=
  let '(m, s) := begin_multi_wait false (mkSys (<[1%nat := (watch_io fine 5 9 1 false (socks (start 3) 1)).1]> (socks (start 3))) 3 0 Ready [] 2 [] PIdle [] []) in
  let '(_, m, s) := add_io no_rearm 0 1 false m s in
  with_phase (PDone (mwait m) None) (abandon m s).

(** An [add_io] that fails this way has put the wait on the socket, and
    neither it nor [abandon] takes it off again. *)
Theorem failed_rearm_leaves_waiter :
  reachable (fun _ => True) left_behind /\ phase left_behind = PDone 2 None /\ mkIoWaiter 3 2 false ∈ waiters (socks left_behind 1).
Proof.
  split; [|split; [reflexivity|]].
  - exists 3%nat. eapply rtc_l; [apply st_id|]. eapply rtc_l; [by apply (st_other _ fine 5 1 9 1 false)|].
    eapply rtc_l; [by apply (st_begin _ false)|]. eapply rtc_l; [by apply (st_add _ no_rearm 0 1 false)|].
    eapply rtc_l; [by eapply st_abandon|]. eapply rtc_l; [by eapply st_done|]. apply rtc_refl.
  - cbn. apply elem_of_app. right. left.
Qed.

End MultiWait.
