(* ===== verification/Resource.v ===== *)
(** * [ResourceHeap]: host resources owned by Roc reference counts
      ([src/resource.rs])

    A heap of fixed slots; Roc holds a pointer to a slot's payload word.  The
    state guarded by the heap's mutex is [free], [generations], [live] and
    the waiters of [reserve]; each critical section is one operation.
    Dropping the resource itself (closing the socket) happens between the two
    critical sections of [release], so a slot can be live, free, reserved or
    closing, and the invariant says it is exactly one of them. *)
From S2P Require Import Prelude TaskProto Waiters Sema SchedLock.
Local Open Scope Z_scope.

Definition INDEX_BITS : Z := 16.
Definition INDEX_MASK : Z := Z.shiftl 1 INDEX_BITS - 1.

(** [offset_of!(Slot<T>, token)], which [new] asserts is a pointer's size. *)
Definition TOKEN_OFFSET : Z := 8.

(** [Vec::pop]: the last element. *)
Definition vec_pop {A} (l : list A) : option (A * list A) :=
  match List.rev l with [] => None | x :: r => Some (x, List.rev r) end.

Lemma vec_pop_Some {A} (l : list A) x l' : vec_pop l = Some (x, l') <-> l = l' ++ [x].
Proof.
  unfold vec_pop. split.
  - destruct (List.rev l) as [|y r] eqn:E; intros; simplify_eq.
    rewrite <- (List.rev_involutive l), E. done.
  - intros ->. rewrite List.rev_app_distr. simpl. by rewrite List.rev_involutive.
Qed.

Lemma vec_pop_None {A} (l : list A) : vec_pop l = None <-> l = [].
Proof.
  unfold vec_pop. split; [|by intros ->].
  destruct (List.rev l) eqn:E; [|done]. intros _.
  by rewrite <- (List.rev_involutive l), E.
Qed.

Section Heap.
Context {T : Type}.
(** Where the slots are and how big one is ([size_of::<Slot<T>>()]). *)
Variables (start stride : Z).

Record Slot := mkSlot {
  refcount : Z;
  token : Z;
  resource : option T;
}.

Record Heap := mkHeap {
  slots : list Slot;
  free : list nat;
  generations : list Z;
  live : list bool;
  waiters : Waiters;
}.

(** [ResourceHeap::new]; [None]: an assertion fails. *)
Definition heap_new (capacity : nat) : option Heap :=
  if (0 <? capacity)%nat && (Z.of_nat capacity <=? INDEX_MASK) then
    Some (mkHeap (replicate capacity (mkSlot 0 0 None)) (List.rev (seq 0 capacity))
                 (replicate capacity 0) (replicate capacity false) Waiters_new)
  else None.

(** [try_reserve]: the claimed index, or [Full]. *)
Definition try_reserve (h : Heap) : option (nat * Heap) :=
  '(index, free') ← vec_pop (free h);
  Some (index, mkHeap (slots h) free' (generations h) (live h) (waiters h)).

(** [free_slot], in the world of waiting tasks. *)
Definition free_slot (index : nat) (h : Heap) (tasks : list St) : Heap * list St :=
  let '(ws, tasks') := wake_one (waiters h) tasks in
  (mkHeap (slots h) (free h ++ [index]) (generations h) (live h) ws, tasks').

Definition base_index (h : Heap) (address : Z) : option nat :=
  offset ← checked_sub address start;
  let index := offset / stride in
  if (offset mod stride =? 0) && (index <? Z.of_nat (length (slots h)))
  then Some (Z.to_nat index) else None.

Definition payload_index (h : Heap) (handle : Z) : option nat :=
  base ← checked_sub handle TOKEN_OFFSET; base_index h base.

Definition contains (h : Heap) (address : Z) : bool :=
  (start <=? address) && (address <? start + Z.of_nat (length (slots h)) * stride).

(** [Reservation::insert]: the payload pointer, and the heap. *)
Definition insert (index : nat) (r : T) (h : Heap) : Z * Heap :=
  let generation := u64_add (default 0 (generations h !! index)) 1 in
  let tok := Z.lor (u64_shl generation INDEX_BITS) (Z.of_nat index) in
  (start + Z.of_nat index * stride + TOKEN_OFFSET,
   mkHeap (<[index := mkSlot 1 tok (Some r)]> (slots h)) (free h)
          (<[index := generation]> (generations h)) (<[index := true]> (live h)) (waiters h)).

(** [get]: the resource behind a handle; [None] is [Invalid]. *)
Definition get (handle : Z) (h : Heap) : option T :=
  index ← payload_index h handle;
  s ← slots h !! index;
  l ← live h !! index;
  g ← generations h !! index;
  if l && (Z.land (token s) INDEX_MASK =? Z.of_nat index)
       && (Z.shiftr (token s) INDEX_BITS =? g)
  then resource s else None.

(** What [release] finds at an address. *)
Inductive Released :=
  | NotOurs                       (* returns false *)
  | Inside                        (* logged, returns true *)
  | Twice (index : nat)           (* logged, returns true *)
  | Closing (index : nat) (r : option T).  (* to be dropped, then freed *)

(** [release] up to dropping the resource; [free_slot] follows for
    [Closing]. *)
Definition release (ptr : Z) (h : Heap) : Released * Heap :=
  match base_index h ptr with
  | None => (if contains h ptr then Inside else NotOurs, h)
  | Some index =>
      if default false (live h !! index) then
        (Closing index (s ← slots h !! index; resource s),
         mkHeap (slots h) (free h) (generations h) (<[index := false]> (live h)) (waiters h))
      else (Twice index, h)
  end.

(** ** The heap with its users *)

(** Reservations not yet inserted or dropped, slots being closed, and tasks
    waiting in [reserve]. *)
Record Sys := mkSys {
  heap : Heap;
  reserved : list nat;
  closing : list nat;
  tasks : list St;
  fresh : Z;
}.

(** The body of [reserve]'s loop by task [t]. *)
Definition reserve_iter (t : nat) (s : Sys) : Sys :=
  match try_reserve (heap s) with
  | Some (index, h) => mkSys h (index :: reserved s) (closing s) (tasks s) (fresh s)
  | None =>
      let h := heap s in
      let '(ws, id) := add_waker (WTask t (fresh s)) (waiters h) in
      mkSys (mkHeap (slots h) (free h) (generations h) (live h) ws) (reserved s) (closing s)
            (<[t := Parked (fresh s) id]> (tasks s)) (fresh s + 1)
  end.

Definition unwait (t : nat) (id : Z) (s : Sys) : Sys :=
  let h := heap s in
  mkSys (mkHeap (slots h) (free h) (generations h) (live h) (remove id (waiters h)))
        (reserved s) (closing s) (<[t := Out]> (tasks s)) (fresh s).

(** Back from [park]: [None] from [reserve] if cancelled, else round again. *)
Definition reserve_resume (t : nat) (id : Z) (e : Woke) (s : Sys) : Sys :=
  if bool_decide (e = Cancelled) then unwait t id s else reserve_iter t (unwait t id s).

Definition abs (s : Sys) : Sema :=
  mkSema (length (free (heap s))) (waiters (heap s)) (tasks s) (fresh s).

Inductive step : Sys -> Sys -> Prop :=
  | st_try s index h : try_reserve (heap s) = Some (index, h) ->
      step s (mkSys h (index :: reserved s) (closing s) (tasks s) (fresh s))
  | st_reserve s t : tasks s !! t = Some Out -> step s (reserve_iter t s)
  | st_resume s t st id e : tasks s !! t = Some st -> st_id st = Some id -> end_ok st e ->
      step s (reserve_resume t id e s)
  | st_stop s t :
      step s (mkSys (heap s) (reserved s) (closing s) (Sema.tasks (stop t (abs s))) (fresh s))
  | st_insert s i index r : reserved s !! i = Some index ->
      step s (mkSys (insert index r (heap s)).2 (delete i (reserved s)) (closing s) (tasks s) (fresh s))
  (** [Reservation::drop] without [insert] *)
  | st_unreserve s i index h ts : reserved s !! i = Some index ->
      free_slot index (heap s) (tasks s) = (h, ts) ->
      step s (mkSys h (delete i (reserved s)) (closing s) ts (fresh s))
  | st_release s ptr index r h : release ptr (heap s) = (Closing index r, h) ->
      step s (mkSys h (reserved s) (index :: closing s) (tasks s) (fresh s))
  | st_free s i index h ts : closing s !! i = Some index ->
      free_slot index (heap s) (tasks s) = (h, ts) ->
      step s (mkSys h (reserved s) (delete i (closing s)) ts (fresh s)).

End Heap.
Arguments Slot : clear implicits.
Arguments Heap : clear implicits.
Arguments Sys : clear implicits.
Arguments Released : clear implicits.

(** ** The invariant *)

Section HeapFacts.
Context {T : Type}.
Variables (start stride : Z).
Hypothesis stride_pos : 0 < stride.
Hypothesis start_pos : 0 <= start.
Local Abbreviation Heap := (Heap T).
Local Abbreviation Sys := (Sys T).

(** Slots that are free, reserved or being closed. *)
Definition out_of_use (s : Sys) : list nat := free (heap s) ++ reserved s ++ closing s.

Record HWf (s : Sys) : Prop := {
  h_gens : length (generations (heap s)) = length (slots (heap s));
  h_lives : length (live (heap s)) = length (slots (heap s));
  h_cap : Z.of_nat (length (slots (heap s))) <= INDEX_MASK;
  h_nodup : NoDup (out_of_use s);
  h_range : Forall (fun i => i < length (slots (heap s)))%nat (out_of_use s);
  h_live : forall i, (i < length (slots (heap s)))%nat ->
    (live (heap s) !! i = Some true <-> i ∉ out_of_use s);
  h_filled : forall i sl g, live (heap s) !! i = Some true -> slots (heap s) !! i = Some sl ->
    generations (heap s) !! i = Some g ->
    token sl = Z.lor (u64_shl g INDEX_BITS) (Z.of_nat i) /\ is_Some (resource sl);
}.

Lemma hwf_new c h n : heap_new (T:=T) c = Some h -> HWf (mkSys h [] [] (replicate n Out) 1).
Proof.
  unfold heap_new. case_match eqn:E; [|done]. intros. simplify_eq.
  apply andb_true_iff in E as [E1%Nat.ltb_lt E2%Z.leb_le].
  assert (forall i, i ∈ List.rev (seq 0 c) <-> (i < c)%nat) as Hin.
  { intros i. rewrite list_elem_of_In, <- List.in_rev, List.in_seq. lia. }
  split; unfold out_of_use; simpl; rewrite ?length_replicate; rewrite ?app_nil_r; try done.
  - apply NoDup_ListNoDup, List.NoDup_rev, List.seq_NoDup.
  - apply Forall_forall. intros i Hi. by apply Hin.
  - intros i Hi. rewrite lookup_replicate_2 by done. split; [done|]. intros Hn. by destruct Hn; apply Hin.
  - intros i sl g Hl. by apply lookup_replicate in Hl as [? _].
Qed.

(** Moving an index between the lists of slots out of use, and changing only
    the waiters, keeps the invariant. *)
Lemma hwf_shuffle s s' :
  HWf s -> slots (heap s') = slots (heap s) -> generations (heap s') = generations (heap s) ->
  live (heap s') = live (heap s) -> out_of_use s' ≡ₚ out_of_use s -> HWf s'.
Proof.
  intros [Hg Hl Hc Hn Hr Hv Hf] Es Eg El Hp. split; rewrite ?Es, ?Eg, ?El; try done.
  - by rewrite Hp.
  - by rewrite Hp.
  - intros i Hi. rewrite Hp. by apply Hv.
Qed.

Lemma hwf_insert s i index r :
  HWf s -> reserved s !! i = Some index ->
  HWf (mkSys (insert start stride index r (heap s)).2 (delete i (reserved s)) (closing s) (tasks s) (fresh s)).
Proof.
  intros [Hg Hl Hc Hn Hr Hv Hf] Hi.
  assert (out_of_use s ≡ₚ index :: (free (heap s) ++ delete i (reserved s) ++ closing s)) as Hp.
  { unfold out_of_use. rewrite (delete_Permutation (reserved s) i index Hi) at 1.
    by rewrite <- !app_comm_cons, <- Permutation_middle. }
  rewrite Hp in Hn, Hr. apply NoDup_cons in Hn as [Hni Hn]. apply Forall_cons in Hr as [Hlt Hr].
  unfold insert. split; unfold out_of_use; simpl; rewrite ?length_insert; try done.
  - intros j Hj. destruct (decide (index = j)) as [<-|Hne].
    + rewrite list_lookup_insert_eq by lia. done.
    + rewrite list_lookup_insert_ne by done. rewrite Hv by done. rewrite Hp, not_elem_of_cons.
      unfold not. split; [tauto|]. intros H. split; [congruence|done].
  - intros j sl g. destruct (decide (index = j)) as [<-|Hne].
    + rewrite !list_lookup_insert_eq by lia. intros. simplify_eq/=. eauto.
    + rewrite !list_lookup_insert_ne by done. apply Hf.
Qed.

Lemma base_index_Some (h : Heap) a index :
  base_index start stride h a = Some index ->
  a = start + Z.of_nat index * stride /\ (index < length (slots h))%nat.
Proof.
  unfold base_index, checked_sub. case_match eqn:E; simpl; [|done]. apply Z.leb_le in E.
  case_match eqn:E2; [|done]. intros ?; simplify_eq.
  apply andb_true_iff in E2 as [Em%Z.eqb_eq El%Z.ltb_lt].
  assert (0 <= (a - start) / stride) by (apply Z.div_pos; lia).
  split; [|lia]. rewrite Z2Nat.id by done.
  pose proof (Z.div_mod (a - start) stride ltac:(lia)). lia.
Qed.

Lemma base_index_slot (h : Heap) index :
  (index < length (slots h))%nat -> base_index start stride h (start + Z.of_nat index * stride) = Some index.
Proof.
  intros Hi. unfold base_index, checked_sub.
  assert (0 <= Z.of_nat index * stride) by (apply Z.mul_nonneg_nonneg; lia).
  case_match eqn:E; simpl; [|apply Z.leb_gt in E; lia].
  replace (start + Z.of_nat index * stride - start) with (Z.of_nat index * stride) by lia.
  rewrite Z.mod_mul, Z.div_mul by lia. simpl.
  case_match eqn:E2; [by rewrite Nat2Z.id|]. apply Z.ltb_ge in E2. lia.
Qed.

Lemma hwf_release s ptr index r h :
  HWf s -> release start stride ptr (heap s) = (Closing index r, h) ->
  HWf (mkSys h (reserved s) (index :: closing s) (tasks s) (fresh s)).
Proof.
  intros [Hg Hl Hc Hn Hr Hv Hf] H. unfold release in H.
  destruct (base_index start stride (heap s) ptr) as [j|] eqn:E; [|case_match; done].
  apply base_index_Some in E as [_ Hlt].
  destruct (live (heap s) !! j) as [b|] eqn:Eb; simpl in H; [|done]. destruct b; simplify_eq.
  assert (index ∉ out_of_use s) as Hni by (by apply Hv).
  assert (out_of_use (mkSys (mkHeap (slots (heap s)) (free (heap s)) (generations (heap s))
    (<[index:=false]> (live (heap s))) (waiters (heap s))) (reserved s) (index :: closing s) (tasks s) (fresh s))
    ≡ₚ index :: out_of_use s) as Hp.
  { unfold out_of_use. simpl. by rewrite <- !Permutation_middle. }
  split; simpl; rewrite ?length_insert; try done.
  - rewrite Hp. by apply NoDup_cons.
  - rewrite Hp. by apply Forall_cons.
  - intros i Hi. rewrite Hp, not_elem_of_cons. destruct (decide (index = i)) as [<-|Hne].
    + rewrite list_lookup_insert_eq by lia. split; [done|tauto].
    + rewrite list_lookup_insert_ne by done. rewrite Hv by done. unfold not. intuition congruence.
  - intros i sl g. destruct (decide (index = i)) as [<-|Hne].
    + by rewrite list_lookup_insert_eq by lia.
    + rewrite list_lookup_insert_ne by done. apply Hf.
Qed.

Lemma try_reserve_Some (h : Heap) index h' :
  try_reserve h = Some (index, h') ->
  free h = free h' ++ [index] /\ slots h' = slots h /\ generations h' = generations h /\
  live h' = live h /\ waiters h' = waiters h.
Proof.
  unfold try_reserve. destruct (vec_pop (free h)) as [[i f]|] eqn:E; simpl; intros; simplify_eq.
  by apply vec_pop_Some in E.
Qed.

Lemma try_reserve_None (h : Heap) : try_reserve h = None -> free h = [].
Proof.
  unfold try_reserve. destruct (vec_pop (free h)) as [[i f]|] eqn:E; simpl; [done|].
  intros _. by apply vec_pop_None.
Qed.

Lemma hwf_reserve s index h :
  HWf s -> try_reserve (heap s) = Some (index, h) ->
  HWf (mkSys h (index :: reserved s) (closing s) (tasks s) (fresh s)).
Proof.
  intros Hw (Ef & ? & ? & ? & ?)%try_reserve_Some. apply (hwf_shuffle s); try done.
  unfold out_of_use. simpl. rewrite Ef, <- app_assoc. done.
Qed.

Lemma hwf_free_slot s i index h ts r' c' :
  HWf s -> free_slot index (heap s) (tasks s) = (h, ts) ->
  (reserved s !! i = Some index /\ r' = delete i (reserved s) /\ c' = closing s \/
   closing s !! i = Some index /\ r' = reserved s /\ c' = delete i (closing s)) ->
  HWf (mkSys h r' c' ts (fresh s)).
Proof.
  intros Hw Hf Hor. unfold free_slot in Hf. destruct (wake_one _ _) as [ws l]. simplify_eq.
  apply (hwf_shuffle s); try done. unfold out_of_use. simpl.
  rewrite <- app_assoc. apply Permutation_app_head. simpl.
  destruct Hor as [(Hi & -> & ->)|(Hi & -> & ->)].
  - by rewrite (delete_Permutation (reserved s) i index Hi) at 2.
  - rewrite (delete_Permutation (closing s) i index Hi) at 2. by rewrite Permutation_middle.
Qed.

Lemma hwf_reserve_iter t s : HWf s -> HWf (reserve_iter t s).
Proof.
  intros Hw. unfold reserve_iter. destruct (try_reserve (heap s)) as [[i h]|] eqn:E.
  - by apply hwf_reserve.
  - by apply (hwf_shuffle s).
Qed.

Lemma hwf_step s s' : HWf s -> step start stride s s' -> HWf s'.
Proof.
  intros Hw Hs. destruct Hs.
  - by apply hwf_reserve.
  - by apply hwf_reserve_iter.
  - assert (HWf (unwait t id s)) by (by apply (hwf_shuffle s)).
    unfold reserve_resume. case_bool_decide; [done|]. by apply hwf_reserve_iter.
  - by apply (hwf_shuffle s).
  - by apply hwf_insert.
  - eapply hwf_free_slot; eauto.
  - by eapply hwf_release.
  - eapply hwf_free_slot; eauto.
Qed.

(** [reserve] is a wait loop whose units are the free slots. *)
Lemma abs_reserve_iter t (s : Sys) :
  abs (reserve_iter t s) =
  match free (heap s) with
  | [] => park t (abs s)
  | _ => with_units (length (free (heap s)) - 1) (abs s)
  end.
Proof.
  unfold reserve_iter. destruct (try_reserve (heap s)) as [[i h]|] eqn:E.
  - apply try_reserve_Some in E as (Ef & ? & ? & ? & Ew). unfold abs, with_units. simpl.
    rewrite Ew, Ef, length_app. simpl.
    destruct (free h ++ [i]) eqn:En; [by destruct (free h)|]. f_equal. lia.
  - apply try_reserve_None in E. rewrite E. unfold abs, park. simpl. by rewrite E.
Qed.

Lemma abs_free_slot index (h : Heap) ts (s : Sys) r' c' :
  free_slot index (heap s) (tasks s) = (h, ts) -> abs (mkSys h r' c' ts (fresh s)) = give (abs s).
Proof.
  unfold free_slot, abs, give. simpl. destruct (wake_one _ _) as [ws l]. intros; simplify_eq/=.
  rewrite length_app. f_equal. simpl. lia.
Qed.

Lemma heap_step_refines (s s' : Sys) : step start stride s s' -> rtc sstep (abs s) (abs s').
Proof.
  intros Hs. destruct Hs; [apply rtc_once..|done|apply rtc_once|by unfold release in H; repeat case_match; simplify_eq|apply rtc_once].
  - apply try_reserve_Some in H as (Ef & ? & ? & ? & Ew).
    assert (abs (mkSys h (index :: reserved s) (closing s) (tasks s) (fresh s)) =
      with_units (length (free (heap s)) - 1) (abs s)) as ->.
    { unfold abs, with_units. simpl. rewrite Ew, Ef, length_app. f_equal. simpl. lia. }
    apply s_shrink. simpl. lia.
  - rewrite abs_reserve_iter. destruct (free (heap s)) as [|i f] eqn:E.
    + apply s_park; [done|]. simpl. by rewrite E.
    + rewrite <- E. apply (s_take (abs s) t); [done|]. simpl. rewrite E. simpl. lia.
  - unfold reserve_resume. case_bool_decide as He.
    + eapply s_resume_quit; eauto. left. destruct st; simpl in *; subst; done.
    + rewrite abs_reserve_iter. simpl. destruct (free (heap s)) as [|i f] eqn:E.
      * eapply s_resume_park; eauto. simpl. by rewrite E.
      * rewrite <- E. eapply s_resume_take; eauto. simpl. rewrite E. simpl. lia.
  - apply (s_stop (abs s) t).
  - erewrite abs_free_slot by done. apply s_give.
  - erewrite abs_free_slot by done. apply s_give.
Qed.

(** Handles in use: from a new heap, by any sequence of operations. *)
Definition reachable (c n : nat) (s : Sys) : Prop :=
  exists h, heap_new (T:=T) c = Some h /\ rtc (step start stride) (mkSys h [] [] (replicate n Out) 1) s.

Lemma reachable_hwf c n s : reachable c n s -> HWf s.
Proof.
  intros (h & Hh & Hr). eapply rtc_invariant; [|exact Hr|by eapply hwf_new].
  intros. by eapply hwf_step.
Qed.

Lemma reachable_abs c n s : reachable c n s -> rtc sstep (sema_new c n) (abs s).
Proof.
  intros (h & Hh & Hr).
  assert (abs (mkSys h [] [] (replicate n Out) 1) = sema_new c n) as <-.
  { unfold heap_new in Hh. case_match; simplify_eq. unfold abs, sema_new. simpl.
    by rewrite List.length_rev, List.length_seq. }
  induction Hr; [done|]. etransitivity; [by apply heap_step_refines|done].
Qed.

(** The token's two fields, read back by [get]. *)
Lemma token_index g i :
  0 <= g -> 0 <= i <= INDEX_MASK -> Z.land (Z.lor (u64_shl g INDEX_BITS) i) INDEX_MASK = i.
Proof.
  intros Hg Hi. unfold u64_shl, wrap. rewrite Z.shiftl_mul_pow2 by (unfold INDEX_BITS; lia).
  change (2 ^ 64) with (2 ^ 48 * 2 ^ INDEX_BITS). rewrite Z.mul_mod_distr_r by (unfold INDEX_BITS; lia).
  rewrite <- Z.shiftl_mul_pow2 by (unfold INDEX_BITS; lia).
  apply pack_low; [done|by apply Z.mod_pos|]. change (2 ^ INDEX_BITS) with (INDEX_MASK + 1). lia.
Qed.

Lemma token_generation g i :
  0 <= g -> 0 <= i <= INDEX_MASK ->
  Z.shiftr (Z.lor (u64_shl g INDEX_BITS) i) INDEX_BITS = g mod 2 ^ 48.
Proof.
  intros Hg Hi. unfold u64_shl, wrap. rewrite Z.shiftl_mul_pow2 by (unfold INDEX_BITS; lia).
  change (2 ^ 64) with (2 ^ 48 * 2 ^ INDEX_BITS). rewrite Z.mul_mod_distr_r by (unfold INDEX_BITS; lia).
  rewrite <- Z.shiftl_mul_pow2 by (unfold INDEX_BITS; lia).
  apply pack_high; [done|by apply Z.mod_pos|]. change (2 ^ INDEX_BITS) with (INDEX_MASK + 1). lia.
Qed.

Lemma payload_index_slot (h : Heap) index :
  (index < length (slots h))%nat ->
  payload_index start stride h (start + Z.of_nat index * stride + TOKEN_OFFSET) = Some index.
Proof.
  intros Hi. assert (0 <= Z.of_nat index * stride) by (apply Z.mul_nonneg_nonneg; lia).
  unfold payload_index, checked_sub, TOKEN_OFFSET.
  case_match eqn:E; [|apply Z.leb_gt in E; lia]. simpl.
  rewrite <- (base_index_slot h index Hi). f_equal. lia.
Qed.

Lemma payload_index_Some (h : Heap) a index :
  payload_index start stride h a = Some index ->
  a = start + Z.of_nat index * stride + TOKEN_OFFSET /\ (index < length (slots h))%nat.
Proof.
  unfold payload_index, checked_sub. case_match; simpl; [|done].
  intros [? ?]%base_index_Some. split; [lia|done].
Qed.

Lemma lookup_gen s index :
  HWf s -> (index < length (slots (heap s)))%nat -> exists g, generations (heap s) !! index = Some g.
Proof. intros Hw Hi. apply lookup_lt_is_Some_2. by rewrite (h_gens s Hw). Qed.

(** C22: in every reachable state of the heap each slot is in exactly one
    condition: it holds a live resource, or it is free, reserved, or being
    closed, and a slot is never listed twice (so it is never handed out
    twice). *)
Theorem slot_in_one_condition c n s i :
  reachable c n s -> (i < length (slots (heap s)))%nat ->
  NoDup (free (heap s) ++ reserved s ++ closing s) /\
  (live (heap s) !! i = Some true <->
    (i ∉ free (heap s)) /\ (i ∉ reserved s) /\ (i ∉ closing s)) /\
  (live (heap s) !! i = Some true -> exists sl, slots (heap s) !! i = Some sl /\ is_Some (resource sl)).
Proof.
  intros Hr%reachable_hwf Hi. split_and!.
  - apply (h_nodup s Hr).
  - rewrite (h_live s Hr i Hi). unfold out_of_use. rewrite !not_elem_of_app. done.
  - intros Hl. destruct (lookup_lt_is_Some_2 _ _ Hi) as [sl Hsl].
    destruct (lookup_gen s i Hr Hi) as [g Hg]. exists sl. split; [done|]. by eapply h_filled.
Qed.

Lemma insert_get s k index r p h g :
  HWf s -> reserved s !! k = Some index -> insert start stride index r (heap s) = (p, h) ->
  generations h !! index = Some g -> 0 <= g ->
  get start stride p h = (if g <? 2 ^ 48 then Some r else None) /\
  (forall p', p' <> p -> get start stride p' h = get start stride p' (heap s)).
Proof.
  intros Hr Hk Hins Hg Hpos.
  assert (index < length (slots (heap s)))%nat as Hi.
  { apply (proj1 (Forall_forall _ _) (h_range s Hr)). unfold out_of_use.
    rewrite !elem_of_app. right. left. by eapply list_elem_of_lookup_2. }
  pose proof (h_cap s Hr) as Hcap. unfold insert in Hins. injection Hins as <- <-. simpl in *.
  rewrite list_lookup_insert_eq in Hg by (by rewrite (h_gens s Hr)). split.
  - unfold get. rewrite payload_index_slot by (simpl; by rewrite length_insert). simpl.
    rewrite !list_lookup_insert_eq by (rewrite ?(h_gens s Hr), ?(h_lives s Hr); done).
    cbn [mbind option_bind andb token resource].
    injection Hg as ->. rewrite token_index, token_generation, Z.eqb_refl by lia. simpl.
    destruct (Z.ltb_spec g (2 ^ 48)) as [Hlt|Hge].
    + by rewrite Z.mod_small, Z.eqb_refl by lia.
    + case_match eqn:E; [|done]. apply Z.eqb_eq in E.
      pose proof (Z.mod_pos_bound g (2 ^ 48) ltac:(lia)). lia.
  - intros p' Hne. unfold get. unfold payload_index, base_index. simpl. rewrite length_insert.
    fold (base_index start stride (heap s)). change (checked_sub p' TOKEN_OFFSET ≫= base_index start stride (heap s))
      with (payload_index start stride (heap s) p').
    destruct (payload_index start stride (heap s) p') as [j|] eqn:E; [|done]. simpl.
    apply payload_index_Some in E as [-> _]. assert (index <> j) by congruence.
    by rewrite !list_lookup_insert_ne by done.
Qed.

(** the handle [insert] returns resolves to the resource stored with it,
    and every other handle resolves as before; the one exception is a slot
    reused 2^48 times, whose generation no longer fits its token. *)
Theorem insert_then_get c n s k index r p h g :
  reachable c n s -> reserved s !! k = Some index ->
  insert start stride index r (heap s) = (p, h) ->
  generations h !! index = Some g -> 0 <= g ->
  get start stride p h = (if g <? 2 ^ 48 then Some r else None) /\
  (forall p', p' <> p -> get start stride p' h = get start stride p' (heap s)).
Proof. intros Hr%reachable_hwf. by apply insert_get. Qed.

(** once released, a resource is out of reach and can't be released
    again: until its slot is filled anew its handle is invalid, and a second
    release is refused without changing the heap. *)
Theorem released_is_gone ptr (h h' : Heap) index r :
  release start stride ptr h = (Closing index r, h') ->
  get start stride (ptr + TOKEN_OFFSET) h' = None /\
  release start stride ptr h' = (Twice index, h').
Proof.
  unfold release. destruct (base_index start stride h ptr) as [j|] eqn:E; [|by case_match].
  destruct (live h !! j) as [[]|] eqn:El; simpl; intros; simplify_eq.
  apply base_index_Some in E as [-> Hi].
  assert (index < length (live h))%nat by (by eapply lookup_lt_Some). split.
  - unfold get. rewrite payload_index_slot by done. simpl. rewrite list_lookup_insert_eq by done. simpl.
    destruct (slots h !! index); [|done]. simpl. by destruct (generations h !! index).
  - rewrite base_index_slot by done. simpl. by rewrite list_lookup_insert_eq by done.
Qed.

(** nobody sleeps in [reserve] beside a free slot: while a task waits for
    one, every free slot has a woken task on its way to claim it. *)
Theorem free_resource_slot_has_a_taker c n s t w id :
  reachable c n s -> tasks s !! t = Some (Parked w id) ->
  (length (free (heap s)) <= count is_notified (tasks s))%nat.
Proof.
  intros Hr%reachable_abs Ht.
  destruct (sema_invariant _ _ (sema_new_reg c n) (sema_new_sent c n) Hr) as [_ Hs].
  apply Hs, count_pos. eauto.
Qed.

(** *** A heap nobody waits for *)

(** The heaps of channel ends and of tasks: [try_reserve] only. *)
Definition HeapOk (h : Heap) : Prop := HWf (mkSys h [] [] [] 0) /\ entries (waiters h) = [].

(** Reserving a slot and giving it back leaves the heap as it was. *)
Lemma reserve_unreserve (h h' : Heap) index ts :
  try_reserve h = Some (index, h') -> entries (waiters h) = [] -> free_slot index h' ts = (h, ts).
Proof.
  intros H%try_reserve_Some Hw. destruct h as [sl fr g lv [es nx]], h' as [sl' fr' g' lv' ws']. simpl in *.
  destruct H as (-> & -> & -> & -> & ->). unfold free_slot, wake_one. simpl in *. by subst es.
Qed.

Lemma heap_ok_insert (h : Heap) index h1 o : HeapOk h -> try_reserve h = Some (index, h1) -> HeapOk (insert start stride index o h1).2.
Proof.
  intros [Hw Hq] Hr. pose proof (try_reserve_Some _ _ _ Hr) as (_ & _ & _ & _ & Ew). split; simpl; [|by rewrite Ew].
  apply (hwf_insert (mkSys h1 [index] [] [] 0) 0 index o); [|done]. by apply (hwf_reserve (mkSys h [] [] [] 0)).
Qed.

Lemma heap_ok_release (h : Heap) ptr index o h1 ts h2 ts2 :
  HeapOk h -> release start stride ptr h = (Closing index o, h1) -> free_slot index h1 ts = (h2, ts2) -> HeapOk h2.
Proof.
  intros [Hw Hq] Hr Hf.
  assert (waiters h1 = waiters h) as Ew.
  { unfold release in Hr. destruct (base_index _ _ _ _) as [i|]; [|by case_match]. destruct (default false _); by simplify_eq. }
  assert (HWf (mkSys h1 [] [index] [] 0)) as Hw1 by (by apply (hwf_release (mkSys h [] [] [] 0) ptr index o)).
  unfold free_slot, wake_one in Hf. rewrite Ew, Hq in Hf. simpl in Hf. injection Hf as <- <-. split; [|done].
  apply (hwf_shuffle _ _ Hw1); try done. unfold out_of_use. simpl. by rewrite !app_nil_r.
Qed.

(** The slot reserved was not in use. *)
Lemma reserved_not_live (h : Heap) index h1 : HeapOk h -> try_reserve h = Some (index, h1) -> (index < length (slots h))%nat /\ live h !! index <> Some true.
Proof using Type.
  clear start_pos stride_pos.
  intros [Hw _] (Ef & _)%try_reserve_Some. assert (index ∈ out_of_use (mkSys h [] [] [] 0)) as Hin.
  { unfold out_of_use. simpl. rewrite Ef. set_solver. }
  pose proof (h_range _ Hw) as Hr. rewrite Forall_forall in Hr. pose proof (Hr _ Hin) as Hlt. split; [done|]. intros Hl. by apply (h_live _ Hw) in Hl.
Qed.

End HeapFacts.

(** ** Instances: a heap of two slots of 24 bytes at address 4096 *)
Module Demo.

Abbreviation start := 4096 (only parsing).
Abbreviation stride := 24 (only parsing).

Definition empty : Heap nat :=
  mkHeap (replicate 2 (mkSlot 0 0 None)) [1; 0]%nat [0; 0] [false; false] Waiters_new.
Definition s0 : Sys nat := mkSys empty [] [] [Out; Out; Out] 1.
(** Task 0 reserves slot 0, *)
Definition s1 : Sys nat := reserve_iter 0 s0.
(** and stores resource 7 in it. *)
Definition s2 : Sys nat :=
  mkSys (insert start stride 0 7%nat (heap s1)).2 (delete 0%nat (reserved s1)) [] (tasks s1) 1.

Lemma s1_reachable : reachable start stride 2 3 s1.
Proof. exists empty. split; [done|]. apply rtc_once. by apply st_reserve. Defined.

Lemma s2_reachable : reachable start stride 2 3 s2.
Proof.
  destruct s1_reachable as (h & Hh & Hr). exists h. split; [done|].
  eapply rtc_r; [exact Hr|]. by apply (st_insert _ _ s1 0 0%nat 7%nat).
Defined.

Lemma slot_in_one_condition_witness :
  exists sl, slots (heap s2) !! 0%nat = Some sl /\ is_Some (resource sl).
Proof.
  apply (slot_in_one_condition start stride ltac:(lia) 2 3 s2 0 s2_reachable).
  - simpl. lia.
  - reflexivity.
Defined.

Lemma insert_then_get_witness :
  get start stride 4104 (insert start stride 0 7%nat (heap s1)).2 = Some 7%nat.
Proof.
  apply (insert_then_get start stride ltac:(lia) ltac:(lia) 2 3 s1 0 0 7%nat 4104 _ 1 s1_reachable);
    [reflexivity|reflexivity|reflexivity|lia].
Defined.

Lemma released_is_gone_witness :
  get start stride 4104 (release start stride 4096 (heap s2)).2 = None.
Proof.
  apply (released_is_gone start stride ltac:(lia) ltac:(lia) 4096 (heap s2) _ 0 (Some 7%nat)).
  reflexivity.
Defined.

(** Both slots reserved by task 0, task 1 waiting, and one reservation
    dropped. *)
Definition s3 : Sys nat := reserve_iter 1 (reserve_iter 0 s1).
Definition s4 : Sys nat := reserve_iter 2 s3.
Definition s5 : Sys nat :=
  let '(h, ts) := free_slot 0 (heap s4) (tasks s4) in mkSys h [1%nat] [] ts (fresh s4).

Lemma free_resource_slot_has_a_taker_witness :
  (length (free (heap s5)) <= count is_notified (tasks s5))%nat.
Proof.
  apply (free_resource_slot_has_a_taker start stride 2 3 s5 2 2 2); [|reflexivity].
  destruct s1_reachable as (h & Hh & Hr). exists h. split; [done|].
  etransitivity; [exact Hr|]. eapply rtc_l; [by apply (st_reserve _ _ s1 0)|].
  eapply rtc_l; [by apply (st_reserve _ _ _ 1)|]. eapply rtc_l; [by apply (st_reserve _ _ _ 2)|].
  apply rtc_once. by apply (st_unreserve _ _ s4 1 0%nat).
Defined.

Definition d0 : Heap nat := from_option snd empty (try_reserve empty).
Definition d1 : Heap nat := (insert start stride 0 7%nat d0).2.
Definition d2 : Heap nat := (release start stride 4096 d1).2.
Definition d3 : Heap nat := (free_slot 0 d2 []).1.
Definition d4 : Heap nat := from_option snd empty (try_reserve d3).
Definition d5 : Heap nat := (insert start stride 0 8%nat d4).2.

(** a handle kept after its resource was released resolves to whatever
    the slot holds next: the token [get] checks is the one in the slot, not
    one the handle carries.  A handle for resource 7 in slot 0, released and
    filled with resource 8, reads resource 8. *)
Theorem stale_handle_resolves :
  try_reserve empty = Some (0%nat, d0) /\
  insert start stride 0 7%nat d0 = (4104, d1) /\
  release start stride 4096 d1 = (Closing 0 (Some 7%nat), d2) /\
  free_slot 0 d2 [] = (d3, []) /\
  try_reserve d3 = Some (0%nat, d4) /\
  insert start stride 0 8%nat d4 = (4104, d5) /\
  get start stride 4104 d1 = Some 7%nat /\ get start stride 4104 d3 = None /\
  get start stride 4104 d5 = Some 8%nat.
Proof. vm_compute. split_and!; reflexivity. Qed.

End Demo.
