(* ===== verification/Channels.v ===== *)
(** * Bounded channels between tasks ([src/channels.rs])

    The state under a channel's mutex, every critical section of the two ends
    as an operation, and the tasks waiting on it.  A task can wait as a
    receiver, as a sender, or in a [Select]; the three kinds of wait are kept
    in three lists of statuses ([rts], [sts], [wts]), since one list of
    waiters only ever ends waits of its own kind.

    Values are thunks with a reference count: who holds each is tracked too
    ([held] by a suspended sender, in the queue, [received] by Roc, or
    [released]). *)
From S2P Require Import Prelude TaskProto Waiters Sema SchedLock Resource.
Local Open Scope Z_scope.

Module Channel.

Section Channel.
Context {V : Type}.

Record State := mkState {
  queue : list V;
  capacity : nat;
  sending_closed : bool;
  receiver_gone : bool;
  receivers : Waiters;
  senders : Waiters;
  receive_watchers : Waiters;
  send_watchers : Waiters;
}.

Record World := mkWorld { rts : list St; sts : list St; wts : list St; fresh : Z }.

Definition with_queue (q : list V) (s : State) : State :=
  mkState q (capacity s) (sending_closed s) (receiver_gone s) (receivers s) (senders s)
          (receive_watchers s) (send_watchers s).
Definition with_receivers (ws : Waiters) (s : State) : State :=
  mkState (queue s) (capacity s) (sending_closed s) (receiver_gone s) ws (senders s)
          (receive_watchers s) (send_watchers s).
Definition with_senders (ws : Waiters) (s : State) : State :=
  mkState (queue s) (capacity s) (sending_closed s) (receiver_gone s) (receivers s) ws
          (receive_watchers s) (send_watchers s).
Definition with_receive_watchers (ws : Waiters) (s : State) : State :=
  mkState (queue s) (capacity s) (sending_closed s) (receiver_gone s) (receivers s) (senders s)
          ws (send_watchers s).
Definition with_send_watchers (ws : Waiters) (s : State) : State :=
  mkState (queue s) (capacity s) (sending_closed s) (receiver_gone s) (receivers s) (senders s)
          (receive_watchers s) ws.
Definition with_sending_closed (s : State) : State :=
  mkState (queue s) (capacity s) true (receiver_gone s) (receivers s) (senders s)
          (receive_watchers s) (send_watchers s).
Definition with_receiver_gone (s : State) : State :=
  mkState (queue s) (capacity s) (sending_closed s) true (receivers s) (senders s)
          (receive_watchers s) (send_watchers s).

(** ** [impl State] *)

Definition value_added (s : State) (w : World) : State * World :=
  let '(ws, l) := wake_one (receivers s) (rts w) in
  let '(ws', l') := wake_all (receive_watchers s) (wts w) in
  (with_receive_watchers ws' (with_receivers ws s), mkWorld l (sts w) l' (fresh w)).

Definition room_made (s : State) (w : World) : State * World :=
  let '(ws, l) := wake_one (senders s) (sts w) in
  let '(ws', l') := wake_all (send_watchers s) (wts w) in
  (with_send_watchers ws' (with_senders ws s), mkWorld (rts w) l l' (fresh w)).

Definition wake_everyone (s : State) (w : World) : State * World :=
  let '(rw, l) := wake_all (receivers s) (rts w) in
  let '(sw, l') := wake_all (senders s) (sts w) in
  let '(rwt, l1) := wake_all (receive_watchers s) (wts w) in
  let '(swt, l2) := wake_all (send_watchers s) l1 in
  (with_send_watchers swt (with_receive_watchers rwt (with_senders sw (with_receivers rw s))),
   mkWorld l l' l2 (fresh w)).

(** ** The channel and the values that pass through it *)

Record Sys := mkSys {
  state : State;
  world : World;
  held : list (option V);
  given : list V;
  sent : list V;
  received : list V;
  released : list V;
}.

(** [channel_new]'s channel, with [n] tasks that may use it. *)
Definition chan_new (cap : Z) (n : nat) : Sys :=
  mkSys (mkState [] (Z.to_nat (Z.max cap 1)) false false Waiters_new Waiters_new Waiters_new Waiters_new)
        (mkWorld (replicate n Out) (replicate n Out) (replicate n Out) 1)
        (replicate n None) [] [] [] [].

Inductive SendRes := Sent | Full | SClosed | SCancelled | SWaits.

Definition release_value (v : V) (s : Sys) : Sys :=
  mkSys (state s) (world s) (held s) (given s) (sent s) (received s) (v :: released s).

(** The body of [roc_channel_send]'s loop, by task [t]. *)
Definition send_iter (t : nat) (v : V) (wait : bool) (s : Sys) : Sys * SendRes :=
  let st := state s in
  if sending_closed st || receiver_gone st then (release_value v s, SClosed)
  else if (length (queue st) <? capacity st)%nat then
    let '(st', w) := value_added (with_queue (queue st ++ [v]) st) (world s) in
    (mkSys st' w (held s) (given s) (sent s ++ [v]) (received s) (released s), Sent)
  else if negb wait then (release_value v s, Full)
  else let w := world s in
       let '(ws, id) := add_waker (WTask t (fresh w)) (senders st) in
       (mkSys (with_senders ws st)
              (mkWorld (rts w) (<[t := Parked (fresh w) id]> (sts w)) (wts w) (fresh w + 1))
              (<[t := Some v]> (held s)) (given s) (sent s) (received s) (released s), SWaits).

(** Back from [park] with the value it still holds. *)
Definition send_resume (t : nat) (id : Z) (v : V) (e : Woke) (s : Sys) : Sys * SendRes :=
  let w := world s in
  let s := mkSys (with_senders (remove id (senders (state s))) (state s))
                 (mkWorld (rts w) (<[t := Out]> (sts w)) (wts w) (fresh w))
                 (<[t := None]> (held s)) (given s) (sent s) (received s) (released s) in
  if bool_decide (e = Cancelled) then (release_value v s, SCancelled) else send_iter t v true s.

Inductive RecvRes := Received (v : V) | RClosed | RTimedOut | RCancelled | RWaits.

(** [channel_receive]'s deadline: [U64.highest] and anything too long to
    name is no deadline. *)
Definition receive_deadline (timeout_ns now : Z) : deadline :=
  if timeout_ns =? U64_MAX then None else instant_checked_add now timeout_ns.

(** The body of [roc_channel_receive]'s loop, by task [t] at time [now]. *)
Definition receive_iter (t : nat) (d : deadline) (now : instant) (s : Sys) : Sys * RecvRes :=
  let st := state s in
  match queue st with
  | v :: q =>
      let '(st', w) := room_made (with_queue q st) (world s) in
      (mkSys st' w (held s) (given s) (sent s) (received s ++ [v]) (released s), Received v)
  | [] =>
      if sending_closed st then (s, RClosed)
      else if past d now then (s, RTimedOut)
      else let w := world s in
           let '(ws, id) := add_waker (WTask t (fresh w)) (receivers st) in
           (mkSys (with_receivers ws st)
                  (mkWorld (<[t := Parked (fresh w) id]> (rts w)) (sts w) (wts w) (fresh w + 1))
                  (held s) (given s) (sent s) (received s) (released s), RWaits)
  end.

Definition receive_resume (t : nat) (id : Z) (e : Woke) (d : deadline) (now : instant) (s : Sys)
  : Sys * RecvRes :=
  let w := world s in
  let s := mkSys (with_receivers (remove id (receivers (state s))) (state s))
                 (mkWorld (<[t := Out]> (rts w)) (sts w) (wts w) (fresh w))
                 (held s) (given s) (sent s) (received s) (released s) in
  if bool_decide (e = Cancelled) then (s, RCancelled) else receive_iter t d now s.

(** [Channel::close_sending]; also the sender end's [drop]. *)
Definition close_sending (s : Sys) : Sys :=
  let '(st, w) := wake_everyone (with_sending_closed (state s)) (world s) in
  mkSys st w (held s) (given s) (sent s) (received s) (released s).

(** The receiver end's [drop]: the queue is drained and its values released. *)
Definition drop_receiver (s : Sys) : Sys :=
  let '(st, w) := wake_everyone (with_receiver_gone (state s)) (world s) in
  mkSys (with_queue [] st) w (held s) (given s) (sent s) (received s) (queue st ++ released s).

(** ** The hosted functions, on the end the handle resolves to *)

Inductive End := Sender | Receiver.

#[global] Instance End_eq_dec : EqDecision End.
Proof. solve_decision. Defined.

Definition End_drop (e : End) (s : Sys) : Sys :=
  match e with Sender => close_sending s | Receiver => drop_receiver s end.

Definition roc_channel_send (e : option End) (t : nat) (v : V) (wait : bool) (s : Sys) : Sys * SendRes :=
  let s := mkSys (state s) (world s) (held s) (v :: given s) (sent s) (received s) (released s) in
  match e with
  | Some Sender => send_iter t v wait s
  | _ => (release_value v s, SClosed)
  end.

Definition roc_channel_receive (e : option End) (t : nat) (timeout_ns : Z) (now : instant) (s : Sys)
  : Sys * RecvRes :=
  match e with
  | Some Receiver => receive_iter t (receive_deadline timeout_ns now) now s
  | _ => (s, RClosed)
  end.

Definition roc_channel_close (e : option End) (s : Sys) : Sys :=
  match e with Some Sender => close_sending s | _ => s end.

(** ** For [Select] *)

Inductive Watch := WatchReady | Waiting (id : Z).

Definition watch (e : option End) (k : TaskWaker) (s : State) : State * Watch :=
  match e with
  | None => (s, WatchReady)
  | Some Receiver =>
      if negb (bool_decide (queue s = [])) || sending_closed s then (s, WatchReady)
      else let '(ws, id) := add_waker k (receive_watchers s) in (with_receive_watchers ws s, Waiting id)
  | Some Sender =>
      if (length (queue s) <? capacity s)%nat || sending_closed s || receiver_gone s then (s, WatchReady)
      else let '(ws, id) := add_waker k (send_watchers s) in (with_send_watchers ws s, Waiting id)
  end.

Definition unwatch (e : option End) (id : Z) (s : State) : State :=
  match e with
  | None => s
  | Some Receiver => with_receive_watchers (remove id (receive_watchers s)) s
  | Some Sender => with_send_watchers (remove id (send_watchers s)) s
  end.

(** ** The channel in use *)

Definition idle (t : nat) (s : Sys) : Prop :=
  rts (world s) !! t = Some Out /\ sts (world s) !! t = Some Out.

Definition with_state (st : State) (s : Sys) : Sys :=
  mkSys st (world s) (held s) (given s) (sent s) (received s) (released s).
Definition with_world (w : World) (s : Sys) : Sys :=
  mkSys (state s) w (held s) (given s) (sent s) (received s) (released s).

Definition stop_one (t : nat) (l : list St) : list St :=
  alter (fun st => if st is Parked w id then Stopped w id else st) t l.

Inductive step : Sys -> Sys -> Prop :=
  | c_send s e t v wait : idle t s -> step s (roc_channel_send e t v wait s).1
  | c_send_resume s t st id v e :
      sts (world s) !! t = Some st -> st_id st = Some id -> held s !! t = Some (Some v) ->
      end_ok st e -> step s (send_resume t id v e s).1
  | c_receive s e t timeout_ns now : idle t s -> step s (roc_channel_receive e t timeout_ns now s).1
  | c_receive_resume s t st id e d now :
      rts (world s) !! t = Some st -> st_id st = Some id -> end_ok st e ->
      step s (receive_resume t id e d now s).1
  | c_close s e : step s (roc_channel_close e s)
  | c_drop s e : step s (End_drop e s)
  | c_watch s e k : step s (with_state (watch e k (state s)).1 s)
  | c_unwatch s e id : step s (with_state (unwatch e id (state s)) s)
  (** The clock or a cancellation ends a wait, *)
  | c_stop_r s t :
      step s (with_world (mkWorld (stop_one t (rts (world s))) (sts (world s)) (wts (world s)) (fresh (world s))) s)
  | c_stop_s s t :
      step s (with_world (mkWorld (rts (world s)) (stop_one t (sts (world s))) (wts (world s)) (fresh (world s))) s)
  (** and [Select]s come and go. *)
  | c_select s l : step s (with_world (mkWorld (rts (world s)) (sts (world s)) l (fresh (world s))) s).

Definition reachable (cap : Z) (n : nat) (s : Sys) : Prop := rtc step (chan_new cap n) s.

(** ** What the wake-ups leave alone *)

Definition same_data (s s' : State) : Prop :=
  queue s' = queue s /\ capacity s' = capacity s /\ sending_closed s' = sending_closed s /\
  receiver_gone s' = receiver_gone s.

Lemma value_added_eq st w :
  exists ws l ws' l', wake_one (receivers st) (rts w) = (ws, l) /\ entries ws' = [] /\
    value_added st w = (with_receive_watchers ws' (with_receivers ws st), mkWorld l (sts w) l' (fresh w)).
Proof. unfold value_added, wake_all. destruct (wake_one _ _) as [ws l]. do 4 eexists. split; [done|]. by split; [|done]. Qed.

Lemma room_made_eq st w :
  exists ws l ws' l', wake_one (senders st) (sts w) = (ws, l) /\ entries ws' = [] /\
    room_made st w = (with_send_watchers ws' (with_senders ws st), mkWorld (rts w) l l' (fresh w)).
Proof. unfold room_made, wake_all. destruct (wake_one _ _) as [ws l]. do 4 eexists. split; [done|]. by split; [|done]. Qed.

Lemma wake_everyone_eq st w :
  exists rw sw rwt swt l, entries rwt = [] /\ entries swt = [] /\
    rw = (wake_all (receivers st) (rts w)).1 /\ sw = (wake_all (senders st) (sts w)).1 /\
    wake_everyone st w =
      (with_send_watchers swt (with_receive_watchers rwt (with_senders sw (with_receivers rw st))),
       mkWorld (wake_all (receivers st) (rts w)).2 (wake_all (senders st) (sts w)).2 l (fresh w)).
Proof. unfold wake_everyone, wake_all. simpl. do 5 eexists. split_and!; [| | | |done]; done. Qed.

(** ** Order, bound and ownership of the values *)

(** Who holds what value, against the senders' statuses. *)
Definition Holds (h : list (option V)) (l : list St) : Prop :=
  length h = length l /\ forall t st, l !! t = Some st ->
    (st = Out /\ h !! t = Some None) \/ (is_Some (st_id st) /\ exists v, h !! t = Some (Some v)).

Lemma holds_weaker h l l' : weaker l l' -> Holds h l -> Holds h l'.
Proof.
  intros Hw [Hl Hh]. split; [by rewrite (weaker_length _ _ Hw)|]. intros t st' H.
  destruct (weaker_lookup _ _ _ _ Hw H) as (st & Hst & E & _).
  destruct (Hh _ _ Hst) as [[-> ?]|[? ?]]; [left|right]; rewrite <- ?E; [|done].
  by destruct st'.
Qed.

Lemma holds_park h l t w i v : Holds h l -> l !! t = Some Out -> Holds (<[t := Some v]> h) (<[t := Parked w i]> l).
Proof.
  intros [Hl Hh] Ht. split; [by rewrite !length_insert|]. intros t' st. destruct (decide (t = t')) as [<-|Hne].
  - rewrite list_lookup_insert_eq by (by eapply lookup_lt_Some). intros. simplify_eq. right. split; [done|].
    exists v. apply list_lookup_insert_eq. rewrite Hl. by eapply lookup_lt_Some.
  - rewrite !list_lookup_insert_ne by done. apply Hh.
Qed.

Lemma holds_unpark h l t st : Holds h l -> l !! t = Some st -> Holds (<[t := None]> h) (<[t := Out]> l).
Proof.
  intros [Hl Hh] Ht. split; [by rewrite !length_insert|]. intros t' st'. destruct (decide (t = t')) as [<-|Hne].
  - rewrite list_lookup_insert_eq by (by eapply lookup_lt_Some). intros. simplify_eq. left. split; [done|].
    apply list_lookup_insert_eq. rewrite Hl. by eapply lookup_lt_Some.
  - rewrite !list_lookup_insert_ne by done. apply Hh.
Qed.

(** Taking a value up and putting it down. *)
Lemma held_take (h : list (option V)) t v :
  h !! t = Some None -> omap id (<[t := Some v]> h) ≡ₚ v :: omap id h.
Proof.
  revert t. induction h as [|o h IH]; intros [|t] H; simplify_eq/=; [done|].
  destruct o; simpl; rewrite IH by done; [apply Permutation_swap|done].
Qed.

Lemma held_put (h : list (option V)) t v :
  h !! t = Some (Some v) -> v :: omap id (<[t := None]> h) ≡ₚ omap id h.
Proof.
  revert t. induction h as [|o h IH]; intros [|t] H; simplify_eq/=; [done|].
  destruct o; simpl; [|by apply IH]. rewrite <- (IH _ H). apply Permutation_swap.
Qed.

(** The queue is bounded and in order, and every value given to the channel
    is in exactly one place: received by Roc, released, queued, held by a
    suspended sender, or (the values [vs]) in the hands of a running one. *)
Record DataWith (vs : list V) (s : Sys) : Prop := {
  d_bound : (length (queue (state s)) <= capacity (state s))%nat;
  d_cap : (1 <= capacity (state s))%nat;
  d_fifo : if receiver_gone (state s) then queue (state s) = [] /\ received s `prefix_of` sent s
           else sent s = received s ++ queue (state s);
  d_holds : Holds (held s) (sts (world s));
  d_owned : given s ≡ₚ vs ++ received s ++ released s ++ queue (state s) ++ omap id (held s);
}.

Abbreviation Data := (DataWith []).

Lemma data_release v s : DataWith [v] s -> Data (release_value v s).
Proof.
  intros [? ? ? ? Ho]. split; simpl; try done. rewrite Ho. by rewrite <- Permutation_middle.
Qed.

Lemma data_send_iter t v wait s :
  DataWith [v] s -> sts (world s) !! t = Some Out -> Data (send_iter t v wait s).1.
Proof.
  intros Hd Ht. unfold send_iter. destruct (sending_closed (state s) || receiver_gone (state s)) eqn:Ec.
  { by apply data_release. }
  apply orb_false_iff in Ec as [Ec Eg].
  destruct (Nat.ltb_spec (length (queue (state s))) (capacity (state s))) as [Hlt|Hge].
  - destruct (value_added_eq (with_queue (queue (state s) ++ [v]) (state s)) (world s))
      as (ws & l & ws' & l' & Hw & _ & ->).
    destruct Hd as [Hb Hc Hf Hh Ho]. split; simpl; try done.
    + rewrite length_app. simpl. lia.
    + rewrite Eg in *. by rewrite Hf, app_assoc.
    + rewrite Ho. rewrite <- !app_assoc. simpl. by rewrite <- !Permutation_middle.
  - destruct wait; simpl; [|by apply data_release].
    destruct Hd as [Hb Hc Hf Hh Ho]. split; simpl; try done.
    + by apply holds_park.
    + destruct Hh as [Hl Hh]. destruct (Hh _ _ Ht) as [[_ Hn]|[[] _]]; [|done].
      rewrite held_take by done. rewrite Ho. by rewrite <- !Permutation_middle.
Qed.

Lemma data_receive_iter t d now s : Data s -> Data (receive_iter t d now s).1.
Proof.
  intros Hd. unfold receive_iter. destruct (queue (state s)) as [|v q] eqn:Eq.
  - destruct (sending_closed (state s)); [done|]. destruct (past d now); [done|].
    destruct Hd as [Hb Hc Hf Hh Ho]. by split.
  - destruct (room_made_eq (with_queue q (state s)) (world s)) as (ws & l & ws' & l' & Hw & _ & ->).
    destruct Hd as [Hb Hc Hf Hh Ho]. rewrite Eq in *. split; simpl in *; try done.
    + lia.
    + destruct (receiver_gone (state s)); [by destruct Hf|]. by rewrite Hf, <- app_assoc.
    + eapply holds_weaker; [|done]. eapply weaker_wake_one. exact Hw.
    + rewrite Ho. rewrite <- !app_assoc. simpl. by rewrite <- !Permutation_middle.
Qed.

Lemma data_wake_everyone st w s :
  Data s -> wake_everyone (state s) (world s) = (st, w) ->
  Data (with_world w (with_state st s)) /\ queue st = queue (state s).
Proof.
  destruct (wake_everyone_eq (state s) (world s)) as (rw & sw & rwt & swt & l & _ & _ & _ & _ & ->).
  intros [Hb Hc Hf Hh Ho] ?. simplify_eq/=. split; [|done]. split; simpl; try done.
  eapply holds_weaker; [|done]. apply weaker_wake_list.
Qed.

Lemma data_close s : Data s -> Data (close_sending s).
Proof.
  intros Hd. unfold close_sending.
  destruct (wake_everyone (with_sending_closed (state s)) (world s)) as [st w] eqn:E.
  apply (data_wake_everyone st w (with_state (with_sending_closed (state s)) s)); [|done].
  destruct Hd. by split.
Qed.

Lemma data_drop_receiver s : Data s -> Data (drop_receiver s).
Proof.
  intros Hd. unfold drop_receiver.
  destruct (wake_everyone_eq (with_receiver_gone (state s)) (world s))
    as (rw & sw & rwt & swt & l & _ & _ & _ & _ & ->).
  destruct Hd as [Hb Hc Hf Hh Ho]. split; simpl; try done.
  - lia.
  - split; [done|]. destruct (receiver_gone (state s)); [by destruct Hf|]. rewrite Hf. by apply prefix_app_r.
  - eapply holds_weaker; [|done]. apply weaker_wake_list.
  - rewrite Ho. simpl. apply Permutation_app_head. by rewrite app_assoc, (Permutation_app_comm (released s)).
Qed.

Lemma data_step s s' : Data s -> step s s' -> Data s'.
Proof.
  intros Hd Hs. destruct Hs.
  - assert (DataWith [v] (mkSys (state s) (world s) (held s) (v :: given s) (sent s) (received s) (released s)))
      as Hd1 by (destruct Hd as [? ? ? ? Ho]; split; simpl; try done; by rewrite Ho).
    unfold roc_channel_send. destruct e as [[]|]; simpl; try by apply data_release.
    apply data_send_iter; [done|]. apply H.
  - unfold send_resume.
    match goal with |- Data (if _ then (release_value v ?s1, _) else _).1 => assert (DataWith [v] s1) as Hd1 end.
    { destruct Hd as [? ? ? Hh Ho]. split; simpl; try done.
      - by eapply holds_unpark.
      - rewrite Ho. simpl. rewrite <- (held_put _ _ _ H1). by rewrite <- !Permutation_middle. }
    case_bool_decide; [by apply data_release|]. apply data_send_iter; [done|].
    simpl. apply list_lookup_insert_eq. by eapply lookup_lt_Some.
  - unfold roc_channel_receive. destruct e as [[]|]; [done|by apply data_receive_iter|done].
  - unfold receive_resume. case_bool_decide; [by destruct Hd|]. apply data_receive_iter. by destruct Hd.
  - unfold roc_channel_close. destruct e as [[]|]; [by apply data_close|done|done].
  - destruct e; [by apply data_close|by apply data_drop_receiver].
  - unfold watch. destruct e as [[]|]; try case_goal; by destruct Hd.
  - destruct e as [[]|]; by destruct Hd.
  - by destruct Hd.
  - destruct Hd. split; try done. simpl. eapply holds_weaker; [|done]. apply weaker_stop.
  - by destruct Hd.
Qed.

Lemma reachable_data cap n s : reachable cap n s -> Data s.
Proof.
  intros H. eapply rtc_invariant; [|exact H|]; [intros; by eapply data_step|].
  split; simpl; try done; [lia|lia|..].
  - split; [by rewrite !length_replicate|]. intros t st [-> Ht]%lookup_replicate. left.
    split; [done|]. by apply lookup_replicate_2.
  - assert (omap id (replicate n (@None V)) = []) as ->; [|done]. clear H. by induction n.
Qed.

(** ** The two sides as wait loops *)

Definition abs_r (s : Sys) : Sema :=
  mkSema (length (queue (state s))) (receivers (state s)) (rts (world s)) (fresh (world s)).

(** Room counts while values may be sent. *)
Definition room (st : State) : nat :=
  if sending_closed st || receiver_gone st then 0 else capacity st - length (queue st).

Definition abs_s (s : Sys) : Sema :=
  mkSema (room (state s)) (senders (state s)) (sts (world s)) (fresh (world s)).

Lemma give_eq u ws l f ws' l' :
  wake_one ws l = (ws', l') -> mkSema (u + 1) ws' l' f = give (mkSema u ws l f).
Proof. intros H. unfold give. simpl. rewrite H. f_equal. lia. Qed.

(** Sending, for the receivers. *)
Lemma abs_r_send t v wait s : rtc sstep (abs_r s) (abs_r (send_iter t v wait s).1).
Proof.
  unfold send_iter. case_match; [done|]. case_match.
  - destruct (value_added_eq (with_queue (queue (state s) ++ [v]) (state s)) (world s))
      as (ws & l & ws' & l' & Hw & _ & ->).
    unfold abs_r. simpl in *. rewrite length_app. simpl. rewrite (give_eq _ _ _ _ _ _ Hw).
    apply rtc_once, s_give.
  - case_match; [done|]. apply rtc_once. apply (s_tick (abs_r s)).
Qed.

(** Receiving, for the receivers. *)
Lemma abs_r_receive t d now s s0 st id :
  (abs_r s = abs_r s0 /\ rts (world s) !! t = Some Out) \/
  (rts (world s0) !! t = Some st /\ st_id st = Some id /\ abs_r s = unpark t id (abs_r s0)) ->
  rtc sstep (abs_r s0) (abs_r (receive_iter t d now s).1).
Proof.
  intros Hor. unfold receive_iter. destruct (queue (state s)) as [|v q] eqn:Eq.
  - assert (units (abs_r s) = 0%nat) as Hu by (unfold abs_r; simpl; by rewrite Eq).
    case_match; [|case_match].
    3: { change (rtc sstep (abs_r s0) (park t (abs_r s))). apply rtc_once.
         destruct Hor as [[<- Ht]|(Ht & Hid & E)]; [by apply s_park|]. rewrite E in *.
         eapply s_resume_park; eauto. }
    all: simpl; destruct Hor as [[<- Ht]|(Ht & Hid & E)]; [done|]; rewrite E in *;
         apply rtc_once; eapply s_resume_quit; eauto.
  - destruct (room_made_eq (with_queue q (state s)) (world s)) as (ws & l & ws' & l' & Hw & _ & ->).
    change (rtc sstep (abs_r s0) (with_units (length q) (abs_r s))).
    assert (units (abs_r s) = S (length q)) as Hu by (unfold abs_r; simpl; by rewrite Eq).
    apply rtc_once. destruct Hor as [[<- Ht]|(Ht & Hid & E)]; [by eapply s_take|].
    rewrite E in *. eapply s_resume_take; eauto.
Qed.

(** Sending, for the senders. *)
Lemma abs_s_send t v wait s s0 st id :
  (abs_s s = abs_s s0 /\ sts (world s) !! t = Some Out) \/
  (sts (world s0) !! t = Some st /\ st_id st = Some id /\ abs_s s = unpark t id (abs_s s0)) ->
  rtc sstep (abs_s s0) (abs_s (send_iter t v wait s).1).
Proof.
  intros Hor. unfold send_iter. destruct (sending_closed (state s) || receiver_gone (state s)) eqn:Ec.
  { assert (units (abs_s s) = 0%nat) as Hu by (unfold abs_s, room; simpl; by rewrite Ec).
    change (rtc sstep (abs_s s0) (abs_s s)). destruct Hor as [[<- Ht]|(Ht & Hid & E)]; [done|]. rewrite E in *.
    apply rtc_once. eapply s_resume_quit; eauto. }
  assert (units (abs_s s) = capacity (state s) - length (queue (state s)))%nat as Hu
    by (unfold abs_s, room; simpl; by rewrite Ec).
  destruct (Nat.ltb_spec (length (queue (state s))) (capacity (state s))) as [Hlt|Hge].
  - destruct (value_added_eq (with_queue (queue (state s) ++ [v]) (state s)) (world s))
      as (ws & l & ws' & l' & Hw & _ & ->).
    assert (abs_s (mkSys (with_receive_watchers ws' (with_receivers ws (with_queue (queue (state s) ++ [v]) (state s))))
       (mkWorld l (sts (world s)) l' (fresh (world s))) (held s) (given s) (sent s ++ [v]) (received s) (released s))
       = with_units (capacity (state s) - length (queue (state s)) - 1) (abs_s s)) as Ea.
    { unfold abs_s, with_units, room. simpl. rewrite Ec, length_app. f_equal. simpl. lia. }
    simpl. rewrite Ea. apply rtc_once.
    destruct Hor as [[<- Ht]|(Ht & Hid & E)]; [eapply s_take; [done|lia]|].
    rewrite E in *. eapply s_resume_take; eauto. simpl in *. lia.
  - assert (units (abs_s s) = 0%nat) as Hu0 by lia. destruct wait; simpl.
    + change (abs_s (mkSys _ _ _ _ _ _ _)) with (park t (abs_s s)). apply rtc_once.
      destruct Hor as [[<- Ht]|(Ht & Hid & E)]; [by apply s_park|]. rewrite E in *.
      eapply s_resume_park; eauto.
    + change (rtc sstep (abs_s s0) (abs_s s)). destruct Hor as [[<- Ht]|(Ht & Hid & E)]; [done|]. rewrite E in *.
      apply rtc_once. eapply s_resume_quit; eauto.
Qed.

(** Receiving, for the senders. *)
Lemma abs_s_receive t d now s : Data s -> rtc sstep (abs_s s) (abs_s (receive_iter t d now s).1).
Proof.
  intros Hd. unfold receive_iter. destruct (queue (state s)) as [|v q] eqn:Eq.
  - case_match; [done|]. case_match; [done|]. apply rtc_once, (s_tick (abs_s s)).
  - destruct (room_made_eq (with_queue q (state s)) (world s)) as (ws & l & ws' & l' & Hw & _ & ->).
    pose proof (d_bound _ _ Hd) as Hb. rewrite Eq in Hb. simpl in Hb.
    eapply rtc_l; [apply s_give|]. unfold give. simpl. simpl in Hw. rewrite Hw.
    apply rtc_once. change (sstep (mkSema (S (room (state s))) ws l (fresh (world s)))
      (with_units (room (with_queue q (state s))) (mkSema (S (room (state s))) ws l (fresh (world s))))).
    apply s_shrink. unfold room. simpl. rewrite Eq. simpl. case_match; lia.
Qed.

Lemma abs_r_close s : abs_r (close_sending s) = notify_all (abs_r s).
Proof. done. Qed.
Lemma abs_s_close s : abs_s (close_sending s) = with_units 0 (notify_all (abs_s s)).
Proof. unfold abs_s, room. by destruct (receiver_gone (state s)). Qed.
Lemma abs_r_drop s : abs_r (drop_receiver s) = with_units 0 (notify_all (abs_r s)).
Proof. done. Qed.
Lemma abs_s_drop s : abs_s (drop_receiver s) = with_units 0 (notify_all (abs_s s)).
Proof. unfold abs_s, room. simpl. by rewrite orb_true_r. Qed.

Lemma notify_then_empty a : rtc sstep a (with_units 0 (notify_all a)).
Proof. eapply rtc_l; [apply s_notify_all|]. apply rtc_once, s_shrink. lia. Qed.

Lemma step_refines_r s s' : step s s' -> rtc sstep (abs_r s) (abs_r s').
Proof.
  intros Hs. destruct Hs.
  - unfold roc_channel_send. destruct e as [[]|]; try done.
    etransitivity; [|apply abs_r_send]. done.
  - unfold send_resume. case_bool_decide; [done|]. etransitivity; [|apply abs_r_send]. done.
  - unfold roc_channel_receive. destruct e as [[]|]; try done.
    apply (abs_r_receive t _ now s s Out 0). left. split; [done|]. apply H.
  - unfold receive_resume. case_bool_decide.
    + apply rtc_once. eapply (s_resume_quit (abs_r s)); eauto.
      left. destruct st; simpl in *; subst; done.
    + eapply abs_r_receive. right. eauto.
  - unfold roc_channel_close. destruct e as [[]|]; try done. rewrite abs_r_close. apply rtc_once, s_notify_all.
  - destruct e; simpl; [rewrite abs_r_close; apply rtc_once, s_notify_all|].
    rewrite abs_r_drop. apply notify_then_empty.
  - unfold watch. destruct e as [[]|]; try case_goal; done.
  - by destruct e as [[]|].
  - apply rtc_once, (s_stop (abs_r s) t).
  - done.
  - done.
Qed.

Lemma step_refines_s s s' : Data s -> step s s' -> rtc sstep (abs_s s) (abs_s s').
Proof.
  intros Hd Hs. destruct Hs.
  - unfold roc_channel_send. destruct e as [[]|]; try done.
    apply (abs_s_send t v wait _ s Out 0). left. split; [done|]. apply H.
  - unfold send_resume. case_bool_decide.
    + apply rtc_once. eapply (s_resume_quit (abs_s s)); eauto.
      left. destruct st; simpl in *; subst; done.
    + eapply abs_s_send. right. eauto.
  - unfold roc_channel_receive. destruct e as [[]|]; try done. by apply abs_s_receive.
  - unfold receive_resume. case_bool_decide; [done|].
    etransitivity; [|apply abs_s_receive; by destruct Hd]. done.
  - unfold roc_channel_close. destruct e as [[]|]; try done. rewrite abs_s_close. apply notify_then_empty.
  - destruct e; simpl; [rewrite abs_s_close|rewrite abs_s_drop]; apply notify_then_empty.
  - unfold watch. destruct e as [[]|]; try case_goal; done.
  - by destruct e as [[]|].
  - done.
  - apply rtc_once, (s_stop (abs_s s) t).
  - done.
Qed.

Lemma reachable_sema cap n s :
  reachable cap n s -> (Reg (abs_r s) /\ Sema.Sent (abs_r s)) /\ (Reg (abs_s s) /\ Sema.Sent (abs_s s)).
Proof.
  intros H. assert (rtc sstep (sema_new 0 n) (abs_r s) /\
                    rtc sstep (sema_new (Z.to_nat (Z.max cap 1)) n) (abs_s s)) as [Hr Hs].
  { assert (Data s /\ rtc sstep (abs_r (chan_new cap n)) (abs_r s) /\
            rtc sstep (abs_s (chan_new cap n)) (abs_s s)) as (_ & Hr & Hs).
    { refine (rtc_invariant step (fun s => Data s /\ rtc sstep (abs_r (chan_new cap n)) (abs_r s) /\
            rtc sstep (abs_s (chan_new cap n)) (abs_s s)) _ _ _ H _).
      - intros y z (Hd & Hr & Hs) Hyz. split; [by eapply data_step|].
        split; etransitivity; eauto using step_refines_r, step_refines_s.
      - split; [by apply (reachable_data cap n), rtc_refl|done]. }
    split; [done|]. by rewrite <- (Nat.sub_0_r (Z.to_nat _)). }
  split; eapply sema_invariant; eauto using sema_new_reg, sema_new_sent.
Qed.

(** ** A closed channel has no sleepers, and watchers are woken in time *)

Definition no_parked (l : list St) : Prop := forall t w i, l !! t <> Some (Parked w i).

Lemma no_parked_weaker l l' : weaker l l' -> no_parked l -> no_parked l'.
Proof.
  intros Hw Hn t w i H. destruct (weaker_lookup _ _ _ _ Hw H) as (st & Hst & _ & E).
  rewrite <- (E eq_refl) in Hst. by eapply Hn.
Qed.

Lemma no_parked_out l t : no_parked l -> no_parked (<[t := Out]> l).
Proof.
  intros Hn t' w i. destruct (decide (t = t')) as [<-|Hne].
  - destruct (decide (t < length l)%nat).
    + by rewrite list_lookup_insert_eq.
    + rewrite list_insert_ge by lia. apply Hn.
  - rewrite list_lookup_insert_ne by done. apply Hn.
Qed.

Lemma no_parked_notified a : Reg a -> no_parked (Sema.tasks (notify_all a)).
Proof.
  intros [_ H]%notify_all_effect t w i Ht.
  assert (0 < count is_parked (Sema.tasks (notify_all a)))%nat by (apply count_pos; eauto). lia.
Qed.

Record Quiet (s : Sys) : Prop := {
  q_receivers : sending_closed (state s) = true -> no_parked (rts (world s));
  q_senders : sending_closed (state s) || receiver_gone (state s) = true -> no_parked (sts (world s));
  q_receive_watchers : entries (receive_watchers (state s)) <> [] ->
    queue (state s) = [] /\ sending_closed (state s) = false;
  q_send_watchers : entries (send_watchers (state s)) <> [] ->
    (capacity (state s) <= length (queue (state s)))%nat /\
    sending_closed (state s) || receiver_gone (state s) = false;
}.

Lemma quiet_send t v wait s : Quiet s -> Quiet (send_iter t v wait s).1.
Proof.
  intros Hq. unfold send_iter.
  destruct (sending_closed (state s) || receiver_gone (state s)) eqn:Ec; [by destruct Hq|].
  destruct (Nat.ltb_spec (length (queue (state s))) (capacity (state s))) as [Hlt|Hge].
  - destruct (value_added_eq (with_queue (queue (state s) ++ [v]) (state s)) (world s))
      as (ws & l & ws' & l' & Hw & He & ->).
    destruct Hq as [Hr Hs Hrw Hsw]. split; simpl; rewrite ?Ec, ?He; try done.
    + intros H. eapply no_parked_weaker; [by eapply weaker_wake_one|auto].
    + intros H. destruct (Hsw H). lia.
  - destruct wait; [|by destruct Hq]. destruct Hq. split; simpl; rewrite ?Ec; try done.
Qed.

Lemma quiet_receive t d now s : Quiet s -> Quiet (receive_iter t d now s).1.
Proof.
  intros Hq. unfold receive_iter. destruct (queue (state s)) as [|v q] eqn:Eq.
  - destruct (sending_closed (state s)) eqn:Ec; [done|]. destruct (past d now); [done|].
    destruct Hq. split; simpl; rewrite ?Ec, ?Eq in *; done.
  - destruct (room_made_eq (with_queue q (state s)) (world s)) as (ws & l & ws' & l' & Hw & He & ->).
    destruct Hq as [Hr Hs Hrw Hsw]. split; simpl; rewrite ?He; try done.
    + intros H. eapply no_parked_weaker; [by eapply weaker_wake_one|auto].
    + intros H. destruct (Hrw H). congruence.
Qed.

Lemma quiet_close s : Reg (abs_r s) -> Reg (abs_s s) -> Quiet (close_sending s).
Proof.
  intros Hr Hs. split; try done; intros _.
  - apply (no_parked_notified (abs_r s) Hr).
  - apply (no_parked_notified (abs_s s) Hs).
Qed.

Lemma quiet_drop s : Reg (abs_r s) -> Reg (abs_s s) -> Quiet (drop_receiver s).
Proof.
  intros Hr Hs. split; try done; intros _.
  - apply (no_parked_notified (abs_r s) Hr).
  - apply (no_parked_notified (abs_s s) Hs).
Qed.

Lemma entries_remove_nil id ws : entries (remove id ws) <> [] -> entries ws <> [].
Proof. unfold remove. simpl. intros H E. by rewrite E in H. Qed.

Lemma quiet_step s s' : Reg (abs_r s) -> Reg (abs_s s) -> Quiet s -> step s s' -> Quiet s'.
Proof.
  intros Rr Rs Hq Hs. destruct Hs.
  - unfold roc_channel_send. destruct e as [[]|]; try by destruct Hq.
    apply quiet_send. by destruct Hq.
  - unfold send_resume. case_bool_decide; [|apply quiet_send];
      destruct Hq; split; simpl; auto using no_parked_out.
  - unfold roc_channel_receive. destruct e as [[]|]; [done|by apply quiet_receive|done].
  - unfold receive_resume. case_bool_decide; [|apply quiet_receive];
      destruct Hq; split; simpl; auto using no_parked_out.
  - unfold roc_channel_close. destruct e as [[]|]; [by apply quiet_close|done|done].
  - destruct e; [by apply quiet_close|by apply quiet_drop].
  - unfold watch. destruct e as [[]|]; try case_goal; destruct Hq; split; simpl; auto; intros _.
    + apply orb_false_iff in Heqb as [[Hl Hc]%orb_false_iff Hg]. apply Nat.ltb_ge in Hl. by rewrite Hc, Hg.
    + apply orb_false_iff in Heqb as [Hl Hc]. by apply negb_false_iff, bool_decide_eq_true in Hl.
  - destruct Hq. destruct e as [[]|]; split; try done; intros ?%entries_remove_nil; auto.
  - destruct Hq. split; simpl; eauto using no_parked_weaker, weaker_stop.
  - destruct Hq. split; simpl; eauto using no_parked_weaker, weaker_stop.
  - by destruct Hq.
Qed.

Lemma reachable_quiet cap n s : reachable cap n s -> Quiet s.
Proof.
  intros H. assert (Quiet s /\ reachable cap n s) as [? _]; [|done].
  refine (rtc_invariant step (fun s => Quiet s /\ reachable cap n s) _ _ _ H _); [|split; [by split|apply rtc_refl]].
  intros y z [Hq Hr] Hyz. split; [|by eapply rtc_r].
  destruct (reachable_sema _ _ _ Hr) as [[? _] [? _]]. by eapply quiet_step.
Qed.

(** ** The theorems *)

(** C4: a channel is a bounded queue in order: it never holds more than its
    capacity (at least one), what receivers have got is a prefix of what was
    sent, in the order sent, and until the receiver end is released the rest
    is exactly what is queued. *)
Theorem channel_fifo cap n s :
  reachable cap n s ->
  (length (queue (state s)) <= capacity (state s))%nat /\
  received s `prefix_of` sent s /\
  (receiver_gone (state s) = false -> sent s = received s ++ queue (state s)).
Proof.
  intros Hr%reachable_data. destruct Hr as [Hb Hc Hf _ _]. split; [done|].
  destruct (receiver_gone (state s)).
  - by destruct Hf.
  - rewrite Hf. split; [by apply prefix_app_r|done].
Qed.

(** every value given to the channel is in exactly one place: received by
    Roc, released, queued, or held by a suspended sender.  None is leaked,
    delivered twice, or released while it can still be delivered. *)
Theorem channel_owns_values cap n s :
  reachable cap n s ->
  given s ≡ₚ received s ++ released s ++ queue (state s) ++ omap id (held s).
Proof. intros Hr%reachable_data. apply (d_owned _ _ Hr). Qed.

(** C5: nobody sleeps beside something to do.  A suspended receiver means the
    channel isn't closed and every queued value has a woken receiver on its
    way; a suspended sender means it isn't closed, its receiver isn't gone,
    and all the room there is has a woken sender on its way. *)
Theorem channel_no_forgotten_sleeper cap n s t w i :
  reachable cap n s ->
  (rts (world s) !! t = Some (Parked w i) ->
     sending_closed (state s) = false /\
     (length (queue (state s)) <= count is_notified (rts (world s)))%nat) /\
  (sts (world s) !! t = Some (Parked w i) ->
     sending_closed (state s) = false /\ receiver_gone (state s) = false /\
     (capacity (state s) - length (queue (state s)) <= count is_notified (sts (world s)))%nat).
Proof.
  intros Hr. pose proof (reachable_quiet _ _ _ Hr) as [Qr Qs _ _].
  destruct (reachable_sema _ _ _ Hr) as [[_ Sr] [_ Ss]]. split; intros Ht.
  - split; [destruct (sending_closed (state s)); [by destruct (Qr eq_refl t w i)|done]|].
    apply Sr, count_pos. eauto.
  - assert (sending_closed (state s) || receiver_gone (state s) = false) as Ec.
    { destruct (sending_closed (state s) || _); [by destruct (Qs eq_refl t w i)|done]. }
    assert (units (abs_s s) <= count is_notified (sts (world s)))%nat as Hu by (apply Ss, count_pos; eauto).
    unfold abs_s, room in Hu. simpl in Hu. rewrite Ec in Hu. apply orb_false_iff in Ec as [-> ->]. done.
Qed.

(** a [Select] is never left registered on an end that is ready: while a
    watcher of the receiver is registered there is no value and the channel
    is open, and while one of the sender is, the queue is full and both ends
    are there. *)
Theorem channel_watchers_not_ready cap n s id k :
  reachable cap n s ->
  ((id, k) ∈ entries (receive_watchers (state s)) ->
     queue (state s) = [] /\ sending_closed (state s) = false) /\
  ((id, k) ∈ entries (send_watchers (state s)) ->
     (capacity (state s) <= length (queue (state s)))%nat /\
     sending_closed (state s) = false /\ receiver_gone (state s) = false).
Proof.
  intros [_ _ Hr Hs]%reachable_quiet. split; intros Hin.
  - apply Hr. intros E. rewrite E in Hin. by apply elem_of_nil in Hin.
  - destruct Hs as [? Ho]; [|by apply orb_false_iff in Ho].
    intros E. rewrite E in Hin. by apply elem_of_nil in Hin.
Qed.

End Channel.
Arguments State : clear implicits.
Arguments Sys : clear implicits.

(** ** An instance: one value of room; task 0 sends 1 and then 2, and waits *)
Definition demo0 : Sys nat := chan_new 0 2.
Definition demo1 : Sys nat := (roc_channel_send (Some Sender) 0 1%nat true demo0).1.
Definition demo2 : Sys nat := (roc_channel_send (Some Sender) 0 2%nat true demo1).1.

Lemma demo1_reachable : reachable 0 2 demo1.
Proof. apply rtc_once. by apply (c_send demo0). Defined.

Lemma demo2_reachable : reachable 0 2 demo2.
Proof. eapply rtc_r; [apply demo1_reachable|]. by apply (c_send demo1). Defined.

Lemma channel_fifo_witness : received demo2 `prefix_of` sent demo2.
Proof. apply (channel_fifo 0 2 demo2 demo2_reachable). Defined.

Lemma channel_owns_values_witness :
  given demo2 ≡ₚ received demo2 ++ released demo2 ++ queue (state demo2) ++ omap id (held demo2).
Proof. apply (channel_owns_values 0 2 demo2 demo2_reachable). Defined.

Lemma channel_no_forgotten_sleeper_witness :
  sts (world demo2) !! 0%nat = Some (Parked 1 1) /\ sending_closed (state demo2) = false.
Proof.
  split; [reflexivity|].
  apply (channel_no_forgotten_sleeper 0 2 demo2 0 1 1 demo2_reachable). reflexivity.
Defined.

(** A [Select] watches the full channel's sender end. *)
Definition demo3 : Sys nat :=
  with_state (watch (Some Sender) (WTask 1 9) (state demo2)).1 demo2.

Lemma channel_watchers_not_ready_witness :
  (1, WTask 1 9) ∈ entries (send_watchers (state demo3)) /\ receiver_gone (state demo3) = false.
Proof.
  assert (reachable 0 2 demo3) as Hr.
  { eapply rtc_r; [apply demo2_reachable|]. apply (c_watch demo2). }
  split; [apply list_elem_of_here|].
  apply (channel_watchers_not_ready 0 2 demo3 1 (WTask 1 9) Hr). apply list_elem_of_here.
Defined.

End Channel.
