(* ===== verification/ChannelEnds.v ===== *)
(** * The ends of channels, behind their handles ([src/channels.rs])

    A channel ([Channels.v]) has two ends, each in a slot of a [ResourceHeap]
    ([Resource.v]) that Roc refers to by a counted handle.  Making a channel
    takes two slots; a hosted call resolves its handle, and gives up its
    reference when it is over; the last reference frees the slot and drops the
    end, which closes the channel from that side. *)
From S2P Require Import Prelude TaskProto Waiters Sema SchedLock Resource Channels.
Local Open Scope Z_scope.

Module ChannelEnds.

Section Ends.
Context {V : Type}.
(** Where the heap is, and how many tasks there are. *)
Variables (start stride : Z) (n : nat).
#[local] Abbreviation Chan := (@Channel.Sys V).

(** An [End]: which channel and which end. *)
#[local] Abbreviation End := (nat * Channel.End)%type.

(** [HEAP], and the channels its ends refer to. *)
Record Sys := mkSys { heap : Heap End; chans : list Chan }.

(** [heap()]: room for two ends of each channel. *)
Definition heap_of (max_channels : nat) : option (Heap End) := heap_new (max_channels * 2).

(** [roc_channel_new]: the handles of its two ends; if only one slot is free it
    is given back. *)
Definition roc_channel_new (capacity : Z) (s : Sys) : Sys * option (Z * Z) :=
  match try_reserve (heap s) with
  | None => (s, None)
  | Some (a, h1) =>
      match try_reserve h1 with
      | None => (mkSys (free_slot a h1 []).1 (chans s), None)
      | Some (b, h2) =>
          let c := length (chans s) in
          let '(sender, h3) := insert start stride a (c, Channel.Sender) h2 in
          let '(receiver, h4) := insert start stride b (c, Channel.Receiver) h3 in
          (mkSys h4 (chans s ++ [Channel.chan_new capacity n]), Some (sender, receiver))
      end
  end.

(** The slot's count changes. *)
Definition set_refcount (i : nat) (sl : Slot End) (count : Z) (h : Heap End) : Heap End :=
  mkHeap (<[i := mkSlot count (token sl) (resource sl)]> (slots h)) (free h) (generations h) (live h) (waiters h).

(** [release], from [roc_dealloc]: the end is dropped, then its slot is free. *)
Definition release_end (ptr : Z) (s : Sys) : Sys * bool :=
  match release start stride ptr (heap s) with
  | (NotOurs, _) => (s, false)
  | (Inside, _) | (Twice _, _) => (s, true)
  | (Closing index e, h) =>
      let l := match e with Some (c, e) => alter (Channel.End_drop e) c (chans s) | None => chans s end in
      (mkSys (free_slot index h []).1 l, true)
  end.

(** Another reference to an end, and one less: [decref_box_with]. *)
Definition incref (handle : Z) (s : Sys) : Sys :=
  match payload_index start stride (heap s) handle ≫= fun i => sl ← slots (heap s) !! i; Some (i, sl) with
  | Some (i, sl) => mkSys (set_refcount i sl (refcount sl + 1) (heap s)) (chans s)
  | None => s
  end.
Definition decref (handle : Z) (s : Sys) : Sys :=
  match payload_index start stride (heap s) handle ≫= fun i => sl ← slots (heap s) !! i; Some (i, sl) with
  | Some (i, sl) =>
      let s := mkSys (set_refcount i sl (refcount sl - 1) (heap s)) (chans s) in
      if refcount sl =? 1 then (release_end (handle - TOKEN_OFFSET) s).1 else s
  | None => s
  end.

(** [with_end]: [f] on the channel of the end behind the handle, then the
    handle is released. *)
Definition with_end {A} (handle : Z) (otherwise : A) (f : Channel.End -> Chan -> Chan * A) (s : Sys) : Sys * A :=
  let '(s, a) :=
    match get start stride handle (heap s) with
    | Some (c, e) => match chans s !! c with Some ch => let '(ch, a) := f e ch in (mkSys (heap s) (<[c := ch]> (chans s)), a) | None => (s, otherwise) end
    | None => (s, otherwise)
    end in
  (decref handle s, a).

(** [roc_channel_close] *)
Definition roc_channel_close (handle : Z) (s : Sys) : Sys :=
  (with_end handle tt (fun e ch => (Channel.roc_channel_close (Some e) ch, tt)) s).1.

(** ** Channels and their handles in use *)

Inductive step : Sys -> Sys -> Prop :=
  | e_new s capacity : step s (roc_channel_new capacity s).1
  | e_incref s handle : step s (incref handle s)
  | e_decref s handle : step s (decref handle s)
  | e_close s handle : step s (roc_channel_close handle s)
  (** A task uses a channel, or a wait on it ends. *)
  | e_use s c ch ch' : chans s !! c = Some ch -> Channel.step ch ch' -> step s (mkSys (heap s) (<[c := ch']> (chans s))).

Definition reachable (max_channels : nat) (s : Sys) : Prop :=
  exists h, heap_of max_channels = Some h /\ rtc step (mkSys h []) s.

(** The end a slot in use holds. *)
Definition in_slot (h : Heap End) (i : nat) (e : End) : Prop := live h !! i = Some true /\ (sl ← slots h !! i; resource sl) = Some e.

(** An end that is gone has closed its channel: no more will be sent, or nobody
    will receive. *)
Definition ended (e : Channel.End) (ch : Chan) : bool :=
  match e with Channel.Sender => Channel.sending_closed (Channel.state ch) | Channel.Receiver => Channel.receiver_gone (Channel.state ch) end.

Record Inv (s : Sys) : Prop := {
  v_heap : HeapOk (heap s);
  v_range : forall i c e, in_slot (heap s) i (c, e) -> (c < length (chans s))%nat;
  v_once : forall i j e, in_slot (heap s) i e -> in_slot (heap s) j e -> i = j;
  v_gone : forall c ch e, chans s !! c = Some ch -> (exists i, in_slot (heap s) i (c, e)) \/ ended e ch = true;
  v_chans : forall c ch, chans s !! c = Some ch -> exists capacity, Channel.reachable capacity n ch;
}.

(** *** A channel stays closed *)

(** What [ended] looks at. *)
Definition flags (st : @Channel.State V) : bool * bool := (Channel.sending_closed st, Channel.receiver_gone st).

Lemma value_added_flags st w : flags (Channel.value_added (V := V) st w).1 = flags st.
Proof. destruct (Channel.value_added_eq st w) as (ws & l & ws' & l' & _ & _ & ->). done. Qed.
Lemma room_made_flags st w : flags (Channel.room_made (V := V) st w).1 = flags st.
Proof. destruct (Channel.room_made_eq st w) as (ws & l & ws' & l' & _ & _ & ->). done. Qed.

Lemma send_flags t v wait (ch : Chan) : flags (Channel.state (Channel.send_iter t v wait ch).1) = flags (Channel.state ch).
Proof.
  unfold Channel.send_iter. destruct (_ || _); [done|]. destruct (_ <? _)%nat; [|by destruct wait].
  pose proof (value_added_flags (Channel.with_queue (Channel.queue (Channel.state ch) ++ [v]) (Channel.state ch)) (Channel.world ch)) as H. by destruct (Channel.value_added _ _).
Qed.

Lemma receive_flags t d now (ch : Chan) : flags (Channel.state (Channel.receive_iter t d now ch).1) = flags (Channel.state ch).
Proof.
  unfold Channel.receive_iter. destruct (Channel.queue _) as [|v q].
  - destruct (Channel.sending_closed _); [done|]. by destruct (past _ _).
  - pose proof (room_made_flags (Channel.with_queue q (Channel.state ch)) (Channel.world ch)) as H. by destruct (Channel.room_made _ _).
Qed.

Definition more_ended (ch ch' : Chan) : Prop := forall e, ended e ch = true -> ended e ch' = true.

Lemma same_flags (ch ch' : Chan) : flags (Channel.state ch') = flags (Channel.state ch) -> more_ended ch ch'.
Proof. unfold flags. intros [= E1 E2] []; cbn; congruence. Qed.

Lemma close_more (ch : Chan) : more_ended ch (Channel.close_sending ch).
Proof. by intros []. Qed.

Lemma drop_ends e (ch : Chan) : ended e (Channel.End_drop e ch) = true.
Proof. by destruct e. Qed.

Lemma drop_more e (ch : Chan) : more_ended ch (Channel.End_drop e ch).
Proof. destruct e; [apply close_more|by intros []]. Qed.

Lemma use_more (ch ch' : Chan) : Channel.step ch ch' -> more_ended ch ch'.
Proof.
  destruct 1 as [s e t v wait _|s t st id v e _ _ _ _|s e t tm now _|s t st id e d now _ _ _|s e|s e|s e k|s e id|s t|s t|s l]; try (by apply same_flags).
  - apply same_flags. unfold Channel.roc_channel_send. destruct e as [[]|]; [by rewrite send_flags|done|done].
  - apply same_flags. unfold Channel.send_resume. case_bool_decide; [done|]. by rewrite send_flags.
  - apply same_flags. unfold Channel.roc_channel_receive. destruct e as [[]|]; [done|by rewrite receive_flags|done].
  - apply same_flags. unfold Channel.receive_resume. case_bool_decide; [done|]. by rewrite receive_flags.
  - destruct e as [[]|]; cbn; [apply close_more|by apply same_flags..].
  - apply drop_more.
  - apply same_flags. unfold Channel.watch. destruct e as [[]|]; [by destruct (_ || _)|by destruct (_ || _)|done].
  - apply same_flags. unfold Channel.unwatch. by destruct e as [[]|].
Qed.

(** *** The heap *)

Hypothesis stride_pos : 0 < stride.
Hypothesis start_pos : 0 <= start.

Lemma in_slot_same (h h' : Heap End) : slots h' = slots h -> live h' = live h -> forall i e, in_slot h' i e <-> in_slot h i e.
Proof using Type. intros E1 E2 i e. unfold in_slot. by rewrite E1, E2. Qed.

Lemma in_slot_insert (h : Heap End) a x i e : (a < length (slots h))%nat -> (a < length (live h))%nat ->
  in_slot (insert start stride a x h).2 i e <-> (i = a /\ e = x) \/ (i <> a /\ in_slot h i e).
Proof using Type.
  intros H1 H2. unfold in_slot, insert. cbn. destruct (decide (i = a)) as [->|Hn].
  - rewrite !list_lookup_insert_eq by done. cbn. split; [intros [_ [= <-]]; by left|]. intros [[_ ->]|[? _]]; done.
  - rewrite !list_lookup_insert_ne by done. split; [by right|]. intros [[? _]|[_ ?]]; done.
Qed.

Lemma in_slot_count (h : Heap End) i sl count j e : slots h !! i = Some sl -> in_slot (set_refcount i sl count h) j e <-> in_slot h j e.
Proof using Type.
  intros Hi. unfold in_slot, set_refcount. cbn. destruct (decide (j = i)) as [->|Hn]; [|by rewrite list_lookup_insert_ne].
  rewrite list_lookup_insert_eq by (by eapply lookup_lt_Some). by rewrite Hi.
Qed.

Lemma heap_ok_count (h : Heap End) i sl count : HeapOk h -> slots h !! i = Some sl -> HeapOk (set_refcount i sl count h).
Proof using Type.
  intros [[Hg Hl Hc Hn Hr Hv Hf] Hq] Hi. split; [|done]. split; cbn in *; rewrite ?length_insert; try done.
  intros j sl' g Hlj. destruct (decide (j = i)) as [->|Hne]; [|rewrite list_lookup_insert_ne by done; by apply Hf].
  rewrite list_lookup_insert_eq by (by eapply lookup_lt_Some). intros [= <-] Hgj. exact (Hf i sl g Hlj Hi Hgj).
Qed.

(** Another list of channels, each with more ended than before. *)
Lemma inv_chans (s : Sys) l : Inv s -> length l = length (chans s) ->
  (forall c ch', l !! c = Some ch' -> exists ch, chans s !! c = Some ch /\ more_ended ch ch' /\ exists capacity, Channel.reachable capacity n ch') ->
  Inv (mkSys (heap s) l).
Proof using Type.
  intros [V1 V2 V3 V4 V5] El Hl. split; cbn; try done.
  - intros i c e Hi. rewrite El. by eapply V2.
  - intros c ch' e Hc. destruct (Hl _ _ Hc) as (ch & Hch & Hm & _). destruct (V4 _ _ e Hch) as [?|?]; [by left|right; by apply Hm].
  - intros c ch' Hc. by destruct (Hl _ _ Hc) as (_ & _ & _ & ?).
Qed.

Lemma inv_one (s : Sys) c ch ch' : Inv s -> chans s !! c = Some ch -> more_ended ch ch' -> (forall capacity, Channel.reachable capacity n ch -> Channel.reachable capacity n ch') ->
  Inv (mkSys (heap s) (<[c := ch']> (chans s))).
Proof using Type.
  intros HI Hc Hm Hr. apply inv_chans; [done|by rewrite length_insert|]. intros c' x [(-> & <- & _)|[_ Hx]]%list_lookup_insert_Some.
  - exists ch. split_and!; [done|done|]. destruct (v_chans _ HI _ _ Hc) as [cap ?]. eauto.
  - exists x. split_and!; [done|by intros ?|]. by eapply v_chans.
Qed.

Lemma inv_count (s : Sys) i sl count : Inv s -> slots (heap s) !! i = Some sl -> Inv (mkSys (set_refcount i sl count (heap s)) (chans s)).
Proof using Type.
  intros [V1 V2 V3 V4 V5] Hi. split; cbn; [by apply heap_ok_count|..|done].
  - intros j c e. rewrite in_slot_count by done. apply V2.
  - intros j k e. rewrite !in_slot_count by done. apply V3.
  - intros c ch e Hc. destruct (V4 c ch e Hc) as [[j Hj]|?]; [left; exists j; by rewrite in_slot_count|by right].
Qed.

Lemma inv_release_end ptr (s : Sys) : Inv s -> Inv (release_end ptr s).1.
Proof using stride_pos.
  intros HI. unfold release_end. destruct (release start stride ptr (heap s)) as [[| | |index o] h] eqn:Er; try done.
  destruct (free_slot index h []) as [h2 ts2] eqn:Ef. cbn [fst]. pose proof (heap_ok_release start stride stride_pos _ _ _ _ _ _ _ _ (v_heap _ HI) Er Ef) as Hok.
  unfold release in Er. destruct (base_index _ _ _ _) as [k|]; [|by destruct (contains _ _ _)]. destruct (live (heap s) !! k) as [[|]|] eqn:El; try done. cbn in Er. injection Er as -> <- <-.
  assert (slots h2 = slots (heap s) /\ live h2 = <[index := false]> (live (heap s))) as [E1 E2] by (unfold free_slot in Ef; destruct (wake_one _ _); by injection Ef as <- _).
  assert (forall i e, in_slot h2 i e <-> i <> index /\ in_slot (heap s) i e) as Hin.
  { intros i e. unfold in_slot. rewrite E1, E2. destruct (decide (i = index)) as [->|Hn]; [|rewrite list_lookup_insert_ne by done; tauto].
    rewrite list_lookup_insert_eq by (by eapply lookup_lt_Some). split; [by intros [? _]|by intros [? _]]. }
  set (l := match (sl ← slots (heap s) !! index; resource sl) with Some (c, e) => alter (Channel.End_drop e) c (chans s) | None => chans s end).
  change (Inv (mkSys h2 l)). assert (length l = length (chans s)) as Hlen by (unfold l; destruct (sl ← slots (heap s) !! index; resource sl) as [[c e]|]; [by rewrite length_alter|done]).
  assert (forall c ch', l !! c = Some ch' -> exists ch, chans s !! c = Some ch /\ more_ended ch ch' /\ (exists capacity, Channel.reachable capacity n ch') /\
    forall e, (sl ← slots (heap s) !! index; resource sl) = Some (c, e) -> ended e ch' = true) as Hch.
  { intros c ch' Hc. unfold l in Hc. destruct (sl ← slots (heap s) !! index; resource sl) as [[c0 e0]|].
    - destruct (decide (c = c0)) as [->|Hn].
      + rewrite list_lookup_alter_eq in Hc. destruct (chans s !! c0) as [ch|] eqn:Ech; [|done]. cbn in Hc. injection Hc as <-. exists ch. split_and!; [done|apply drop_more| |].
        * destruct (v_chans _ HI _ _ Ech) as [cap Hcap]. exists cap. eapply rtc_r; [exact Hcap|]. apply Channel.c_drop.
        * intros e [= ->]. apply drop_ends.
      + rewrite list_lookup_alter_ne in Hc by done. exists ch'. split_and!; [done|by intros ?|by eapply v_chans|]. intros e [= ? _]. congruence.
    - exists ch'. split_and!; [done|by intros ?|by eapply v_chans|done]. }
  destruct HI as [V1 V2 V3 V4 V5]. split; cbn [heap chans]; [done|..].
  - intros i c e [_ Hi]%Hin. rewrite Hlen. by eapply V2.
  - intros i j e [_ Hi]%Hin [_ Hj]%Hin. by eapply V3.
  - intros c ch' e (ch & Hch' & Hm & _ & He)%Hch. destruct (V4 _ _ e Hch') as [[i Hi]|?]; [|right; by apply Hm].
    destruct (decide (i = index)) as [->|Hn]; [right; apply He; by destruct Hi|left; exists i; by rewrite Hin].
  - intros c ch' (ch & _ & _ & ? & _)%Hch. done.
Qed.

(** What [roc_channel_new] does, when it succeeds. *)
Lemma channel_new_spec capacity (s s' : Sys) p q : HeapOk (heap s) -> roc_channel_new capacity s = (s', Some (p, q)) ->
  exists a b, a <> b /\ p = start + Z.of_nat a * stride + TOKEN_OFFSET /\ q = start + Z.of_nat b * stride + TOKEN_OFFSET /\
    chans s' = chans s ++ [Channel.chan_new capacity n] /\ HeapOk (heap s') /\ live (heap s) !! a <> Some true /\ live (heap s) !! b <> Some true /\
    forall i e, in_slot (heap s') i e <-> (i = a /\ e = (length (chans s), Channel.Sender)) \/ (i = b /\ e = (length (chans s), Channel.Receiver)) \/ (i <> a /\ i <> b /\ in_slot (heap s) i e).
Proof using Type.
  clear stride_pos start_pos. intros Hok. unfold roc_channel_new. destruct (try_reserve (heap s)) as [[a h1]|] eqn:Ea; [|done]. destruct (try_reserve h1) as [[b h2]|] eqn:Eb; [|done].
  destruct (insert start stride a (length (chans s), Channel.Sender) h2) as [p' h3] eqn:E3. destruct (insert start stride b (length (chans s), Channel.Receiver) h3) as [q' h4] eqn:E4. intros [= <- <- <-].
  destruct (reserved_not_live _ _ _ Hok Ea) as [Ha Hla]. pose proof (try_reserve_Some _ _ _ Ea) as (Fa & Sa & Ga & La & Wa). pose proof (try_reserve_Some _ _ _ Eb) as (Fb & Sb & Gb & Lb & Wb).
  destruct Hok as [Hw Hq]. pose proof (h_lives _ Hw) as Hll. cbn in Hll.
  assert (HWf (Resource.mkSys h2 [b; a] [] [] 0)) as Hw2 by (apply (hwf_reserve (Resource.mkSys h1 [a] [] [] 0)); [by apply (hwf_reserve (Resource.mkSys (heap s) [] [] [] 0))|done]).
  pose proof (h_nodup _ Hw2) as Hnd. unfold out_of_use in Hnd. cbn in Hnd. pose proof (h_range _ Hw2) as Hrg. unfold out_of_use in Hrg. cbn in Hrg.
  assert (a <> b /\ (b < length (slots h2))%nat) as [Hab Hb].
  { apply NoDup_app in Hnd as (_ & _ & Hnd). apply NoDup_cons in Hnd as [Hnd _]. apply Forall_app in Hrg as [_ Hrg]. apply Forall_cons in Hrg as [Hrg _]. set_solver. }
  assert (live (heap s) !! b <> Some true) as Hlb.
  { intros Hl. apply (h_live _ Hw) in Hl; [|cbn; congruence]. apply Hl. unfold out_of_use. cbn. rewrite Fa, Fb. set_solver. }
  assert (HWf (Resource.mkSys h3 [b] [] [] 0)) as Hw3.
  { pose proof (hwf_insert start stride (Resource.mkSys h2 [b; a] [] [] 0) 1 a (length (chans s), Channel.Sender) Hw2 eq_refl) as Hx. replace h3 with (insert start stride a (length (chans s), Channel.Sender) h2).2 by (by rewrite E3). exact Hx. }
  assert (HWf (Resource.mkSys h4 [] [] [] 0)) as Hw4.
  { pose proof (hwf_insert start stride (Resource.mkSys h3 [b] [] [] 0) 0 b (length (chans s), Channel.Receiver) Hw3 eq_refl) as Hx. replace h4 with (insert start stride b (length (chans s), Channel.Receiver) h3).2 by (by rewrite E4). exact Hx. }
  exists a, b. pose proof (f_equal fst E3) as P3. pose proof (f_equal fst E4) as P4. cbn in P3, P4. pose proof (f_equal snd E3) as Q3. pose proof (f_equal snd E4) as Q4. cbn [snd] in Q3, Q4.
  split_and!; try done.
  { split; [done|]. assert (waiters h4 = waiters (heap s)) as Ew by (subst h4 h3; change (waiters h2 = waiters (heap s)); congruence). change (entries (waiters h4) = []). rewrite Ew. exact Hq. }
  intros i e. cbn [heap]. assert (length (live h2) = length (slots h2)) as Hl2 by (rewrite Sb, Lb, Sa, La; done).
  assert (length (slots h3) = length (slots h2) /\ length (live h3) = length (live h2)) as [L1 L2] by (rewrite <- Q3; cbn; by rewrite !length_insert).
  rewrite <- Q4, in_slot_insert by lia. rewrite <- Q3, in_slot_insert by (rewrite ?Sb, ?Lb, ?Sa, ?La; lia).
  rewrite (in_slot_same (heap s) h2) by congruence. destruct (decide (i = a)) as [->|]; [|tauto]. split; [intros [[? ?]|[_ [?|[? _]]]]; tauto|]. intros [[_ ->]|[[? _]|[? _]]]; [right; tauto|done|done].
Qed.

Lemma ends_inv_new capacity (s : Sys) : Inv s -> Inv (roc_channel_new capacity s).1.
Proof using Type.
  clear stride_pos start_pos. intros HI. destruct (roc_channel_new capacity s) as [s' [[p q]|]] eqn:E; cbn [fst].
  - destruct (channel_new_spec _ _ _ _ _ (v_heap _ HI) E) as (a & b & Hab & _ & _ & Hc & Hok & Hla & Hlb & Hin). destruct HI as [V1 V2 V3 V4 V5]. split; [done|..].
    + intros i c e. rewrite Hin, Hc, length_app. cbn. intros [[_ [= -> ->]]|[[_ [= -> ->]]|(_ & _ & Hi)]]; [lia|lia|]. specialize (V2 _ _ _ Hi). lia.
    + assert (forall i e0, in_slot (heap s) i (length (chans s), e0) -> False) as Hnew by (intros i e0 Hi; specialize (V2 _ _ _ Hi); lia).
      intros i j e. rewrite !Hin. intros [[-> ->]|[[-> ->]|(_ & _ & Hi)]] [[-> E2]|[[-> E2]|(_ & _ & Hj)]]; try done; try (exfalso; subst; eauto; fail); try (exfalso; injection E2; done). by eapply V3.
    + intros c ch e. rewrite Hc. intros [Hch|[Hge Hch]]%lookup_app_Some.
      * destruct (V4 _ _ e Hch) as [[i Hi]|?]; [left|by right]. exists i. rewrite Hin. right. right. split_and!; [intros ->|intros ->|done]; by destruct Hi.
      * left. apply list_lookup_singleton_Some in Hch as [Ec _]. assert (c = length (chans s)) as -> by lia. destruct e; [exists a|exists b]; rewrite Hin; tauto.
    + intros c ch. rewrite Hc. intros [Hch|[Hge Hch]]%lookup_app_Some; [by eapply V5|]. apply list_lookup_singleton_Some in Hch as [_ <-]. exists capacity. apply rtc_refl.
  - unfold roc_channel_new in E. destruct (try_reserve (heap s)) as [[a h1]|] eqn:Ea; [|by injection E as <-]. destruct (try_reserve h1) as [[b h2]|]; [by repeat case_match|].
    injection E as <-. rewrite (reserve_unreserve _ _ _ _ Ea) by apply (v_heap _ HI). by destruct s.
Qed.

Lemma inv_decref handle (s : Sys) : Inv s -> Inv (decref handle s).
Proof using stride_pos.
  intros HI. unfold decref. destruct (payload_index _ _ _ _) as [i|]; cbn; [|done]. destruct (slots (heap s) !! i) as [sl|] eqn:Ei; cbn; [|done].
  destruct (refcount sl =? 1); [apply inv_release_end|]; by apply inv_count.
Qed.

Lemma ends_inv_step (s s' : Sys) : Inv s -> step s s' -> Inv s'.
Proof using stride_pos.
  intros HI. destruct 1 as [s cap|s handle|s handle|s handle|s c ch ch' Hc Hst].
  - by apply ends_inv_new.
  - unfold incref. destruct (payload_index _ _ _ _) as [i|]; cbn; [|done]. destruct (slots (heap s) !! i) as [sl|] eqn:Ei; cbn; [|done]. by apply inv_count.
  - by apply inv_decref.
  - unfold roc_channel_close, with_end. destruct (get _ _ _ _) as [[c e]|]; [|by apply inv_decref]. destruct (chans s !! c) as [ch|] eqn:Ec; [|by apply inv_decref].
    apply inv_decref, (inv_one s c ch); [done|done|destruct e; cbn; [apply close_more|by intros ?]|]. intros cap Hr. eapply rtc_r; [exact Hr|]. apply Channel.c_close.
  - apply (inv_one s c ch); [done|done|by apply use_more|]. intros cap Hr. eapply rtc_r; [exact Hr|done].
Qed.

Lemma ends_reachable_inv m (s : Sys) : reachable m s -> Inv s.
Proof using stride_pos.
  intros (h & Hh & Hr). refine (rtc_invariant step Inv _ _ _ Hr _); [eauto using ends_inv_step|]. unfold heap_of in Hh.
  pose proof (hwf_new _ h 0 Hh) as Hw. assert (live h = replicate (m * 2) false /\ entries (waiters h) = []) as [El Eq] by (unfold heap_new in Hh; destruct (_ && _); [by injection Hh as <-|done]).
  assert (forall i e, in_slot h i e -> False) as Hno by (intros i e [Hl _]; rewrite El in Hl; by apply lookup_replicate in Hl as [? _]).
  split; cbn; [split; [by apply (hwf_shuffle _ _ Hw)|done]|..]; try done; intros; exfalso; eauto.
Qed.

(** C12: No end of a channel goes unnoticed: at any time each end of each
    channel is in one slot at most, and an end that no slot holds any more (Roc
    has dropped its last reference) has closed the channel, so receivers are
    told that no more comes, and senders that nobody receives; and each channel is as [Channels.v] has it. *)
Theorem gone_end_closes m (s : Sys) c ch e : reachable m s -> chans s !! c = Some ch ->
  ((exists i, in_slot (heap s) i (c, e)) \/ ended e ch = true) /\
  (forall i j, in_slot (heap s) i (c, e) -> in_slot (heap s) j (c, e) -> i = j) /\ exists capacity, Channel.reachable capacity n ch.
Proof using stride_pos. intros HI%ends_reachable_inv Hc. split_and!; [by eapply v_gone|intros i j; by apply (v_once _ HI)|by eapply v_chans]. Qed.

(** Making a channel: two new handles, to the two ends of one new channel, or
    nothing at all, no slot being lost. *)
Theorem channel_new_all_or_nothing m capacity (s s' : Sys) r : reachable m s -> roc_channel_new capacity s = (s', r) ->
  match r with
  | None => s' = s
  | Some (p, q) => p <> q /\ chans s' = chans s ++ [Channel.chan_new capacity n] /\
      exists a b, p = start + Z.of_nat a * stride + TOKEN_OFFSET /\ q = start + Z.of_nat b * stride + TOKEN_OFFSET /\
        in_slot (heap s') a (length (chans s), Channel.Sender) /\ in_slot (heap s') b (length (chans s), Channel.Receiver)
  end.
Proof using stride_pos.
  intros HI%ends_reachable_inv E. destruct r as [[p q]|].
  - destruct (channel_new_spec _ _ _ _ _ (v_heap _ HI) E) as (a & b & Hab & -> & -> & Hc & _ & _ & _ & Hin). split_and!; [nia|done|]. exists a, b. rewrite !Hin. tauto.
  - unfold roc_channel_new in E. destruct (try_reserve (heap s)) as [[a h1]|] eqn:Ea; [|by injection E as <-]. destruct (try_reserve h1) as [[b h2]|]; [by repeat case_match|].
    injection E as <-. rewrite (reserve_unreserve _ _ _ _ Ea) by apply (v_heap _ HI). by destruct s.
Qed.

End Ends.

(** *** A channel whose sender is gone *)

Definition z0 : @Sys nat := mkSys (default (mkHeap [] [] [] [] Waiters_new) (heap_of 1)) [].
Definition z1 : @Sys nat * option (Z * Z) := roc_channel_new 4096 32 2 1 z0.
Definition z2 : @Sys nat := decref 4096 32 (default (0, 0) z1.2).1 z1.1.

Lemma z2_reachable : reachable 4096 32 2 1 z2.
Proof. eexists. split; [reflexivity|]. eapply rtc_l; [apply (e_new 4096 32 2 z0 1)|]. apply rtc_once, e_decref. Qed.

Lemma gone_end_closes_witness : exists ch, chans z2 !! 0%nat = Some ch /\ ended Channel.Sender ch = true /\
  ((exists i, in_slot (heap z2) i (0%nat, Channel.Sender)) \/ ended Channel.Sender ch = true).
Proof.
  eexists. split; [vm_compute; reflexivity|]. split; [reflexivity|].
  exact (proj1 (gone_end_closes 4096 32 2 ltac:(lia) 1 z2 0 _ Channel.Sender z2_reachable eq_refl)).
Defined.

End ChannelEnds.
