(* ===== verification/Tasks.v ===== *)
(** * Tasks: spawning, joining, and the groups behind scopes ([src/tasks.rs])

    The table of tasks with the parts of [sched::Task] this file uses
    ([finished], [result], [handles], [cancelled]), the count of live tasks,
    and the heap of handles and groups, which is the [ResourceHeap] of
    [Resource.v].  A closure is a Roc reference: it is run, stored as a
    result, or released. *)
From S2P Require Import Prelude TaskProto Waiters Sema SchedLock Resource.
Local Open Scope Z_scope.

Module Tasks.

(** [TaskObj] *)
Inductive TaskObj := Handle (task : nat) | Group (members : list nat).

(** What of a task matters here; [slot]: its job hasn't dropped its slot. *)
Record Task := mkTask {
  finished : bool;
  joiners : Waiters;
  cancelled : bool;
  handles : Z;
  result : option nat;
  slot : bool;
}.

(** [TaskRef]'s [has_handles], [drop_handle], [set_result], [with_result],
    [watch_finished] and [unwatch_finished] *)
Definition has_handles (k : Task) : bool := 0 <? handles k.
Definition drop_one_handle (k : Task) : Task := mkTask (finished k) (joiners k) (cancelled k) (handles k - 1) (result k) (slot k).
Definition set_result (r : nat) (k : Task) : Task := mkTask (finished k) (joiners k) (cancelled k) (handles k) (Some r) (slot k).
Definition with_result {R} (f : option nat -> R) (k : Task) : R := f (result k).
Definition watch_finished (waker : TaskWaker) (k : Task) : Task * option Z :=
  if finished k then (k, None)
  else let '(ws, id) := add_waker waker (joiners k) in (mkTask (finished k) ws (cancelled k) (handles k) (result k) (slot k), Some id).
Definition unwatch_finished (id : Z) (k : Task) : Task :=
  mkTask (finished k) (remove id (joiners k)) (cancelled k) (handles k) (result k) (slot k).

Section Tasks.
(** [limits::max_tasks()], and where the heap of handles is. *)
Variables (max_tasks : nat) (start stride : Z).

Record Sys := mkSys {
  live : nat;
  tasks : list Task;
  heap : Heap TaskObj;
  released : list nat;
  sts : list St;
  fresh : Z;
}.

Definition with_tasks (l : list Task) (s : Sys) : Sys :=
  mkSys (live s) l (heap s) (released s) (sts s) (fresh s).
Definition with_heap (h : Heap TaskObj) (s : Sys) : Sys :=
  mkSys (live s) (tasks s) h (released s) (sts s) (fresh s).
Definition release_closure (c : nat) (s : Sys) : Sys :=
  mkSys (live s) (tasks s) (heap s) (c :: released s) (sts s) (fresh s).

(** [try_claim_slot] *)
Definition try_claim_slot (s : Sys) : option Sys :=
  if (live s <? max_tasks)%nat
  then Some (mkSys (live s + 1) (tasks s) (heap s) (released s) (sts s) (fresh s)) else None.

(** [Slot::drop] *)
Definition drop_slot (s : Sys) : Sys :=
  mkSys (live s - 1) (tasks s) (heap s) (released s) (sts s) (fresh s).

(** [sched::new_task] with one handle, as [sched::spawn] makes it. *)
Definition new_task : Task := mkTask false Waiters_new false 1 None true.

(** [sched::spawn]: [None] if no stack can be allocated. *)
Definition spawn (stack_ok : bool) (s : Sys) : option (Sys * nat) :=
  if stack_ok then Some (with_tasks (tasks s ++ [new_task]) s, length (tasks s)) else None.

(** [Reservation::drop]: nobody waits in [reserve] for this heap. *)
Definition unreserve (index : nat) (s : Sys) : Sys :=
  let '(h, ts) := free_slot index (heap s) (sts s) in
  mkSys (live s) (tasks s) h (released s) ts (fresh s).

(** [roc_task_spawn]: the handle, or [TaskLimitReached]. *)
Definition roc_task_spawn (stack_ok : bool) (callable : nat) (s : Sys) : Sys * option Z :=
  match try_claim_slot s with
  | None => (release_closure callable s, None)
  | Some s1 =>
      match try_reserve (heap s1) with
      | None => (drop_slot (release_closure callable s1), None)
      | Some (index, h) =>
          let s2 := with_heap h s1 in
          match spawn stack_ok s2 with
          | Some (s3, t) =>
              let '(p, h') := insert start stride index (Handle t) (heap s3) in
              (with_heap h' s3, Some p)
          | None => (unreserve index (drop_slot (release_closure callable s2)), None)
          end
      end
  end.

(** [spawn_host] *)
Definition spawn_host (stack_ok : bool) (s : Sys) : Sys * option nat :=
  match try_claim_slot s with
  | None => (s, None)
  | Some s1 =>
      match spawn stack_ok s1 with
      | Some (s2, t) => (s2, Some t)
      | None => (drop_slot s1, None)
      end
  end.

(** The end of a task's job: [drop(slot)]. *)
Definition job_ends (t : nat) (s : Sys) : Sys :=
  drop_slot (with_tasks (alter (fun k => mkTask (finished k) (joiners k) (cancelled k) (handles k) (result k) false)
                               t (tasks s)) s).

(** [run_task] after the job returned: the task has finished, and everyone
    waiting for that is woken. *)
Definition task_finished (t : nat) (s : Sys) : Sys :=
  match tasks s !! t with
  | Some k =>
      let '(ws, l) := wake_all (joiners k) (sts s) in
      mkSys (live s) (<[t := mkTask true ws (cancelled k) (handles k) (result k) (slot k)]> (tasks s))
            (heap s) (released s) l (fresh s)
  | None => s
  end.

(** [roc_task_finish] in task [t] ([None]: outside a task): whether anybody
    can ask for the result.  An earlier result is released. *)
Definition roc_task_finish (t : option nat) (r : nat) (s : Sys) : Sys * bool :=
  match t ≫= fun t => k ← tasks s !! t; Some (t, k) with
  | Some (t, k) =>
      let s' := with_tasks (<[t := set_result r k]> (tasks s)) s in
      (mkSys (live s') (tasks s') (heap s') (option_list (result k) ++ released s') (sts s') (fresh s'),
       has_handles k)
  | None => (release_closure r s, false)
  end.

(** A round of [TaskRef::wait_finished]: it returned [Woke::Ready] or
    [Woke::Cancelled], or it waits, under this id of the task's waiters. *)
Inductive Waited := IsReady | Waits (id : Z) | WasCancelled.

(** [TaskRef::wait_finished]'s loop by task [me], once, up to [park]. *)
Definition wait_finished_iter (me t : nat) (s : Sys) : Sys * Waited :=
  match tasks s !! t with
  | Some k =>
      if finished k then (s, IsReady)
      else let '(ws, id) := add_waker (WTask me (fresh s)) (joiners k) in
           (mkSys (live s) (<[t := mkTask (finished k) ws (cancelled k) (handles k) (result k) (slot k)]> (tasks s))
                  (heap s) (released s) (<[me := Parked (fresh s) id]> (sts s)) (fresh s + 1), Waits id)
  | None => (s, IsReady)
  end.

(** Back from [park], which said [e]. *)
Definition wait_finished_resume (me t : nat) (id : Z) (e : Woke) (s : Sys) : Sys * Waited :=
  match tasks s !! t with
  | Some k =>
      let s1 := mkSys (live s)
                  (<[t := mkTask (finished k) (remove id (joiners k)) (cancelled k) (handles k) (result k) (slot k)]>
                     (tasks s)) (heap s) (released s) (<[me := Out]> (sts s)) (fresh s) in
      if bool_decide (e = Cancelled) then (s1, WasCancelled) else wait_finished_iter me t s1
  | None => (s, IsReady)
  end.

(** The object behind a handle. *)
Definition obj (handle : Z) (s : Sys) : option TaskObj := get start stride handle (heap s).

Definition obj_task (o : option TaskObj) : option nat := match o with Some (Handle t) => Some t | _ => None end.

(** [roc_task_join] once the task has finished: the result, with another
    reference for Roc. *)
Definition join_result (handle : Z) (s : Sys) : option nat :=
  t ← obj_task (obj handle s); k ← tasks s !! t; if finished k then with_result id k else None.

(** [TaskRef::cancel]: the flag (the rest is in [TaskProto.v]). *)
Definition cancel (t : nat) (s : Sys) : Sys :=
  with_tasks (alter (fun k => mkTask (finished k) (joiners k) true (handles k) (result k) (slot k)) t (tasks s)) s.

Definition roc_task_cancel (handle : Z) (s : Sys) : Sys :=
  match obj_task (obj handle s) with Some t => cancel t s | None => s end.

Definition is_finished (t : nat) (s : Sys) : bool := from_option finished false (tasks s !! t).

Definition roc_task_is_finished (handle : Z) (s : Sys) : bool :=
  match obj_task (obj handle s) with Some t => is_finished t s | None => true end.

(** [tasks::watch] and [unwatch], for [Select]. *)
Definition watch (handle : Z) (k : TaskWaker) (s : Sys) : Sys * option Z :=
  match obj_task (obj handle s) ≫= fun t => x ← tasks s !! t; Some (t, x) with
  | Some (t, x) =>
      let '(x, id) := watch_finished k x in (with_tasks (<[t := x]> (tasks s)) s, id)
  | None => (s, None)
  end.

Definition unwatch (handle : Z) (id : Z) (s : Sys) : Sys :=
  match obj_task (obj handle s) with
  | Some t => with_tasks (alter (unwatch_finished id) t (tasks s)) s
  | None => s
  end.

(** [Handle::drop] *)
Definition drop_handle (t : nat) (s : Sys) : Sys :=
  with_tasks (alter drop_one_handle t (tasks s)) s.

(** [tasks::release]: Roc freed a handle or group. *)
Definition release_obj (ptr : Z) (s : Sys) : Sys * bool :=
  match release start stride ptr (heap s) with
  | (NotOurs, _) => (s, false)
  | (Inside, _) | (Twice _, _) => (s, true)
  | (Closing index o, h) =>
      let s1 := with_heap h s in
      let s2 := match o with Some (Handle t) => drop_handle t s1 | _ => s1 end in
      (unreserve index s2, true)
  end.

(** ** Groups *)

Definition roc_group_new (s : Sys) : Sys * option Z :=
  match try_reserve (heap s) with
  | Some (index, h) => let '(p, h') := insert start stride index (Group []) h in (with_heap h' s, Some p)
  | None => (s, None)
  end.

(** Changing a group behind its mutex. *)
Definition set_members (handle : Z) (l : list nat) (s : Sys) : Sys :=
  match payload_index start stride (heap s) handle with
  | Some index =>
      let h := heap s in
      with_heap (mkHeap (alter (fun sl => mkSlot (refcount sl) (token sl) (Some (Group l))) index (slots h))
                        (free h) (generations h) (Resource.live h) (waiters h)) s
  | None => s
  end.

Definition members (group : Z) (s : Sys) : option (list nat) :=
  match obj group s with Some (Group l) => Some l | _ => None end.

(** The members after another is added: the finished ones are forgotten. *)
Definition add_member (t : nat) (l : list nat) (s : Sys) : list nat :=
  List.filter (fun x => negb (is_finished x s)) l ++ [t].

Definition roc_group_add (group handle : Z) (s : Sys) : Sys :=
  match obj_task (obj handle s), members group s with
  | Some t, Some l => set_members group (add_member t l s) s
  | _, _ => s
  end.

Definition cancel_all (l : list nat) (s : Sys) : Sys := foldl (fun s t => cancel t s) s l.

Definition roc_group_cancel (group : Z) (s : Sys) : Sys :=
  match members group s with
  | Some l => cancel_all (List.filter (fun x => negb (is_finished x s)) l) s
  | None => s
  end.

(** [roc_group_close]: what it takes from the group, *)
Definition close_take (group : Z) (s : Sys) : Sys * list nat :=
  match members group s with Some l => (set_members group [] s, l) | None => (s, []) end.

(** and all of it up to its waits: the tasks it then waits for, in order,
    uncancellably. *)
Definition roc_group_close (group : Z) (cancel_ : bool) (s : Sys) : Sys * list nat :=
  let '(s1, l) := close_take group s in ((if cancel_ then cancel_all l s1 else s1), l).

(** ** Slots are counted *)

Definition holding (l : list Task) : nat := length (List.filter slot l).

Definition Counted (s : Sys) : Prop := live s = holding (tasks s) /\ (live s <= max_tasks)%nat.

Lemma holding_insert t l k k' :
  l !! t = Some k ->
  (holding (<[t := k']> l) + (if slot k then 1 else 0) = holding l + (if slot k' then 1 else 0))%nat.
Proof.
  unfold holding. revert t. induction l as [|x l IH]; intros [|t] H; simplify_eq/=.
  - destruct (slot k), (slot k'); simpl; lia.
  - specialize (IH _ H). destruct (slot x); simpl; lia.
Qed.

Lemma holding_same t l k k' : l !! t = Some k -> slot k' = slot k -> holding (<[t := k']> l) = holding l.
Proof. intros H E. pose proof (holding_insert t l k k' H). rewrite E in *. lia. Qed.

Lemma holding_alter f t l : (forall k, slot (f k) = slot k) -> holding (alter f t l) = holding l.
Proof.
  intros Hf. destruct (l !! t) as [k|] eqn:E; [|by rewrite alter_none].
  rewrite (alter_insert f t l k E). by eapply holding_same.
Qed.

Lemma holding_snoc l : holding (l ++ [new_task]) = (holding l + 1)%nat.
Proof. unfold holding. by rewrite List.filter_app, length_app. Qed.

(** ** The system in use *)

(** Nobody waits in [reserve] here, no finished task has waiters left, the
    slots are counted, and the heap is well-formed. *)
Record Inv (s : Sys) : Prop := {
  i_live : live s = holding (tasks s);
  i_max : (live s <= max_tasks)%nat;
  i_heap : HWf (Resource.mkSys (heap s) [] [] [] 0);
  i_quiet : entries (waiters (heap s)) = [];
  i_done : forall t k, tasks s !! t = Some k -> finished k = true -> entries (joiners k) = [];
}.

(** The label is the handle whose group or slot a step changes. *)
Inductive step : option Z -> Sys -> Sys -> Prop :=
  | t_spawn s ok c : step None s (roc_task_spawn ok c s).1
  | t_spawn_host s ok : step None s (spawn_host ok s).1
  | t_job_ends s t k : tasks s !! t = Some k -> slot k = true -> step None s (job_ends t s)
  | t_finished s t : step None s (task_finished t s)
  | t_finish s t r : step None s (roc_task_finish t r s).1
  | t_wait s me t : step None s (wait_finished_iter me t s).1
  | t_wait_resume s me t id e : step None s (wait_finished_resume me t id e s).1
  | t_cancel s h : step None s (roc_task_cancel h s)
  | t_watch s h k : step None s (watch h k s).1
  | t_unwatch s h id : step None s (unwatch h id s)
  | t_release s ptr : step (Some (ptr + TOKEN_OFFSET)) s (release_obj ptr s).1
  | t_group_new s : step None s (roc_group_new s).1
  | t_group_add s g h : step (Some g) s (roc_group_add g h s)
  | t_group_cancel s g : step None s (roc_group_cancel g s)
  | t_group_close s g c : step (Some g) s (roc_group_close g c s).1.

Definition sys_new (h : Heap TaskObj) (n : nat) : Sys := mkSys 0 [] h [] (replicate n Out) 1.

Definition reachable (cap n : nat) (s : Sys) : Prop :=
  exists h, heap_new cap = Some h /\ rtc (fun s s' => exists l, step l s s') (sys_new h n) s.

(** Changing a task without touching its slot, and its waiters only if it
    hasn't finished. *)
Lemma inv_set_task s t k k' l rel ts f :
  Inv s -> tasks s !! t = Some k -> slot k' = slot k ->
  (finished k' = true -> entries (joiners k') = []) -> l = <[t := k']> (tasks s) ->
  Inv (mkSys (live s) l (heap s) rel ts f).
Proof.
  intros [Hl Hm Hh Hq Hd] Hk Hs Hj ->. split; simpl; try done.
  - by rewrite (holding_same t _ k k').
  - intros t' k1 [(<- & <- & _)|[_ H]]%list_lookup_insert_Some; eauto.
Qed.

Ltac set_task := eapply inv_set_task; [eassumption|eassumption| | |reflexivity].

Lemma inv_alter_task s t g rel ts f :
  Inv s -> (forall k, slot (g k) = slot k) ->
  (forall k, (finished k = true -> entries (joiners k) = []) -> finished (g k) = true -> entries (joiners (g k)) = []) ->
  Inv (mkSys (live s) (alter g t (tasks s)) (heap s) rel ts f).
Proof.
  intros Hi Hs Hj. destruct (tasks s !! t) as [k|] eqn:E.
  - eapply inv_set_task; eauto using alter_insert. apply Hj. by apply (i_done s Hi t).
  - rewrite alter_none by done. by destruct Hi.
Qed.

Lemma inv_cancel t s : Inv s -> Inv (cancel t s).
Proof. intros Hi. by apply inv_alter_task. Qed.

Lemma inv_cancel_all l s : Inv s -> Inv (cancel_all l s).
Proof. unfold cancel_all. revert s. induction l as [|t l IH]; simpl; intros s Hi; [done|]. by apply IH, inv_cancel. Qed.

Lemma inv_heap s h : Inv s -> HeapOk h -> Inv (with_heap h s).
Proof. intros [] []. by split. Qed.

Lemma inv_heap_ok s : Inv s -> HeapOk (heap s).
Proof. by intros []. Qed.

Lemma set_members_resources g l s :
  exists sls, heap (set_members g l s) = mkHeap sls (free (heap s)) (generations (heap s)) (Resource.live (heap s))
    (waiters (heap s)) /\ length sls = length (slots (heap s)) /\
    forall i sl, sls !! i = Some sl -> exists sl0, slots (heap s) !! i = Some sl0 /\ token sl = token sl0 /\
      (is_Some (resource sl0) -> is_Some (resource sl)).
Proof.
  unfold set_members. destruct (payload_index _ _ _ _) as [i|]; simpl.
  - eexists. split_and!; [done|by rewrite length_alter|]. intros j sl H.
    destruct (slots (heap s) !! i) as [sl0|] eqn:E; [|rewrite alter_none in H by done; eauto].
    rewrite (alter_insert _ _ _ _ E) in H.
    apply list_lookup_insert_Some in H as [(<- & <- & _)|[_ H]]; [|eauto]. exists sl0. split_and!; [done|done|by eexists].
  - exists (slots (heap s)). split_and!; [by destruct (heap s)|done|eauto].
Qed.

Lemma inv_set_members g l s : Inv s -> Inv (set_members g l s).
Proof.
  intros Hi. destruct (set_members_resources g l s) as (sls & Eh & El & Hs).
  assert (set_members g l s = with_heap (heap (set_members g l s)) s) as ->.
  { unfold set_members. destruct (payload_index _ _ _ _); [done|]. by destruct s. }
  apply inv_heap; [done|]. destruct Hi as [_ _ [Hg Hlv Hc Hn Hr Hlive Hf] Hq _]. rewrite Eh. split; [|done].
  split; simpl in *; rewrite ?El; try done.
  intros i sl g' Hl Hsl Hgen. destruct (Hs _ _ Hsl) as (sl0 & Hsl0 & -> & Hres).
  destruct (Hf i sl0 g' Hl Hsl0 Hgen). auto.
Qed.

Hypothesis stride_pos : 0 < stride.
Hypothesis start_pos : 0 <= start.

Lemma inv_release ptr s : Inv s -> Inv (release_obj ptr s).1.
Proof.
  intros Hi. unfold release_obj. destruct (release start stride ptr (heap s)) as [[| | |index o] h] eqn:E; try done.
  destruct (free_slot index h (sts s)) as [h2 ts2] eqn:Ef.
  destruct (heap_ok_release start stride stride_pos _ _ _ _ _ _ _ _ (inv_heap_ok s Hi) E Ef) as [Hw Hq].
  destruct o as [[t|l]|]; unfold unreserve; simpl; rewrite Ef; simpl.
  - assert (Inv (drop_handle t s)) as [Hl Hm _ _ Hd] by (by apply inv_alter_task). by split.
  - destruct Hi. by split.
  - destruct Hi. by split.
Qed.

Lemma inv_spawn ok c s : Inv s -> Inv (roc_task_spawn ok c s).1.
Proof.
  intros Hi. pose proof (inv_heap_ok s Hi) as Hh. unfold roc_task_spawn, try_claim_slot.
  destruct (Nat.ltb_spec (live s) max_tasks) as [Hlt|]; [|by destruct Hi]. simpl.
  destruct (try_reserve (heap s)) as [[index h]|] eqn:Er.
  - destruct ok; simpl.
    + destruct (heap_ok_insert start stride (heap s) index h (Handle (length (tasks s))) Hh Er) as [Hw Hq].
      destruct Hi as [Hl Hm _ _ Hd]. split; simpl in *; try done; [rewrite holding_snoc; lia|lia|].
      intros t k Ht Hf. apply lookup_app_Some in Ht as [Ht|[_ Ht]]; [eauto|].
      apply list_lookup_singleton_Some in Ht as [_ <-]. done.
    + unfold unreserve. simpl. rewrite (reserve_unreserve _ _ _ _ Er) by apply Hh.
      destruct Hi as [Hl Hm Hw Hq Hd]. split; simpl; try done; lia.
  - destruct Hi as [Hl Hm Hw Hq Hd]. split; simpl; try done; lia.
Qed.

Lemma inv_spawn_host ok s : Inv s -> Inv (spawn_host ok s).1.
Proof.
  intros [Hl Hm Hw Hq Hd]. unfold spawn_host, try_claim_slot.
  destruct (Nat.ltb_spec (live s) max_tasks); [|by split]. simpl.
  destruct ok; simpl; split; simpl; try done; try lia; [rewrite holding_snoc; lia|].
  intros t k Ht Hf. apply lookup_app_Some in Ht as [Ht|[_ Ht]]; [eauto|].
  apply list_lookup_singleton_Some in Ht as [_ <-]. done.
Qed.

Lemma inv_wait me t s : Inv s -> Inv (wait_finished_iter me t s).1.
Proof.
  intros Hi. unfold wait_finished_iter. destruct (tasks s !! t) as [k|] eqn:E; [|done].
  destruct (finished k) eqn:Ef; [done|]. set_task; simpl; congruence.
Qed.

Lemma entries_remove id ws : entries ws = [] -> entries (remove id ws) = [].
Proof. unfold remove. simpl. by intros ->. Qed.

Lemma inv_step l s s' : Inv s -> step l s s' -> Inv s'.
Proof.
  intros Hi Hs. destruct Hs.
  - by apply inv_spawn.
  - by apply inv_spawn_host.
  - unfold job_ends, drop_slot. rewrite (alter_insert _ _ _ _ H). simpl.
    pose proof (holding_insert t (tasks s) k (mkTask (finished k) (joiners k) (cancelled k) (handles k) (result k) false) H).
    rewrite H0 in *. simpl in *. destruct Hi as [Hl Hm Hw Hq Hd]. split; simpl; try done; try lia.
    intros t' k' [(<- & <- & _)|[_ ?]]%list_lookup_insert_Some; simpl; eauto.
  - unfold task_finished. destruct (tasks s !! t) as [k|] eqn:E; [|done]. simpl. by set_task.
  - unfold roc_task_finish. destruct t as [t|]; simpl; [|by destruct Hi].
    destruct (tasks s !! t) as [k|] eqn:E; simpl; [|by destruct Hi].
    set_task; simpl; [done|]. by apply (i_done s Hi t).
  - by apply inv_wait.
  - unfold wait_finished_resume. destruct (tasks s !! t) as [k|] eqn:E; [|done].
    set (s1 := mkSys _ _ _ _ _ _). assert (Inv s1) as Hi1.
    { set_task; simpl; [done|]. intros Hf. by apply entries_remove, (i_done s Hi t). }
    case_bool_decide; [done|]. by apply inv_wait.
  - unfold roc_task_cancel. destruct (obj_task _); [by apply inv_cancel|done].
  - unfold watch. destruct (obj_task _) as [t|]; simpl; [|done].
    destruct (tasks s !! t) as [x|] eqn:E; simpl; [|done]. unfold watch_finished. destruct (finished x) eqn:Ef; simpl.
    + set_task; [done|]. intros _. by apply (i_done s Hi t).
    + set_task; simpl; congruence.
  - unfold unwatch. destruct (obj_task _) as [t|]; simpl; [|done].
    apply inv_alter_task; [done|done|]. intros k Hk Hf. simpl in *. apply entries_remove. auto.
  - by apply inv_release.
  - unfold roc_group_new. destruct (try_reserve (heap s)) as [[i h]|] eqn:E; [|done]. simpl.
    apply inv_heap; [done|]. eapply (heap_ok_insert start stride (heap s)); [by apply inv_heap_ok|done].
  - unfold roc_group_add. destruct (obj_task _), (members g s); try done. by apply inv_set_members.
  - unfold roc_group_cancel. destruct (members g s); [by apply inv_cancel_all|done].
  - unfold roc_group_close, close_take. destruct (members g s); [|by destruct c]. destruct c; simpl; [apply inv_cancel_all|]; by apply inv_set_members.
Qed.

Lemma tasks_reachable_inv cap n s : reachable cap n s -> Inv s.
Proof.
  intros (h & Hh & Hr). eapply rtc_invariant; [|exact Hr|]; [intros ? ? ? []; by eapply inv_step|].
  split; simpl; try done; [lia| |].
  - by apply (hwf_shuffle _ _ (hwf_new cap h 0 Hh)).
  - unfold heap_new in Hh. case_match; by simplify_eq.
Qed.

(** ** The theorems *)

(** tasks are bounded and counted: there are never more live tasks than
    the limit, the count is exactly the number of tasks whose job still holds
    a slot, and a task that has finished has nobody left waiting to be told
    (so no joiner or [Select] sleeps on it). *)
Theorem live_tasks_bounded cap n s :
  reachable cap n s ->
  (live s <= max_tasks)%nat /\ live s = length (List.filter slot (tasks s)) /\
  (forall t k, tasks s !! t = Some k -> finished k = true -> entries (joiners k) = []).
Proof. intros [Hl Hm _ _ Hd]%tasks_reachable_inv. split_and!; done. Qed.

(** spawning either works or leaves nothing behind: with a free task slot,
    a free handle and a stack, the new task runs, counted once, and its
    handle resolves to it; otherwise the only change is that the closure is
    released. *)
Theorem spawn_all_or_nothing cap n s ok c s' r :
  reachable cap n s -> roc_task_spawn ok c s = (s', r) ->
  match r with
  | None => s' = release_closure c s /\ (live s = max_tasks \/ free (heap s) = [] \/ ok = false)
  | Some p => (live s < max_tasks)%nat /\ live s' = S (live s) /\ tasks s' = tasks s ++ [new_task] /\
      released s' = released s /\
      ((forall i g, generations (heap s') !! i = Some g -> 0 <= g < 2 ^ 48) ->
       obj p s' = Some (Handle (length (tasks s))))
  end.
Proof.
  intros Hi%tasks_reachable_inv. pose proof (inv_heap_ok s Hi) as Hh. unfold roc_task_spawn, try_claim_slot.
  destruct (Nat.ltb_spec (live s) max_tasks) as [Hlt|Hge].
  2: { intros [= <- <-]. split; [done|]. left. pose proof (i_max s Hi). lia. }
  simpl. destruct (try_reserve (heap s)) as [[index h]|] eqn:Er.
  2: { intros [= <- <-]. split.
       - unfold drop_slot, release_closure. simpl. f_equal. lia.
       - right. left. by apply try_reserve_None. }
  destruct ok; simpl.
  2: { unfold unreserve. simpl. rewrite (reserve_unreserve _ _ _ _ Er) by apply Hh. intros [= <- <-].
       split; [|auto]. unfold release_closure. f_equal. simpl. lia. }
  intros [= <- <-]. simpl. split_and!; [done|lia|done|done|]. intros Hg.
  assert (HWf (Resource.mkSys h [index] [] [] 0)) as Hw1
    by (apply (hwf_reserve (Resource.mkSys (heap s) [] [] [] 0)); [apply Hh|done]).
  assert (index < length (generations h))%nat as Hlt2.
  { pose proof (h_gens _ Hw1) as Hgl. simpl in Hgl. rewrite Hgl. pose proof (h_range _ Hw1) as Hr. simpl. unfold out_of_use in Hr. simpl in Hr.
    apply Forall_app in Hr as [_ Hr]. by apply Forall_cons in Hr as [? _]. }
  set (g := u64_add (default 0 (generations h !! index)) 1).
  assert (<[index := g]> (generations h) !! index = Some g) as Hgi by (by apply list_lookup_insert_eq).
  destruct (Hg index g Hgi) as [Hg0 Hg1].
  destruct (insert_get start stride stride_pos start_pos _ 0 index (Handle (length (tasks s))) _ _ g
    Hw1 eq_refl eq_refl Hgi Hg0) as [Hget _].
  unfold obj. etransitivity; [exact Hget|]. destruct (Z.ltb_spec g (2 ^ 48)); [done|lia].
Qed.

(** ** Tasks only come and end *)

(** Every task is still there, and one that has finished still has. *)
Definition grows (l l' : list Task) : Prop :=
  forall t k, l !! t = Some k -> exists k', l' !! t = Some k' /\ (finished k = true -> finished k' = true).

#[local] Instance grows_refl : Reflexive grows.
Proof. intros l t k H. eauto. Qed.

#[local] Instance grows_trans : Transitive grows.
Proof. intros l1 l2 l3 H1 H2 t k H. destruct (H1 t k H) as (k1 & E1 & F1). destruct (H2 t k1 E1) as (k2 & E2 & F2). eauto. Qed.

Lemma grows_insert t k k' l : l !! t = Some k -> (finished k = true -> finished k' = true) -> grows l (<[t := k']> l).
Proof.
  intros Hk Hf t' k1 H1. destruct (decide (t = t')) as [<-|Hne].
  - simplify_eq. exists k'. split; [|done]. apply list_lookup_insert_eq. by eapply lookup_lt_Some.
  - exists k1. by rewrite list_lookup_insert_ne.
Qed.

Lemma grows_alter t f l : (forall k, finished (f k) = finished k) -> grows l (alter f t l).
Proof.
  intros Hf. destruct (l !! t) as [k|] eqn:E; [|by rewrite alter_none].
  rewrite (alter_insert f t l k E). eapply grows_insert; [done|]. by rewrite Hf.
Qed.

Lemma grows_cancel_all l s : grows (tasks s) (tasks (cancel_all l s)).
Proof.
  unfold cancel_all. revert s. induction l as [|t l IH]; intros s; [done|]. cbn [foldl].
  transitivity (tasks (cancel t s)); [by apply grows_alter|apply IH].
Qed.

Lemma tasks_set_members g l s : tasks (set_members g l s) = tasks s.
Proof. unfold set_members. by destruct (payload_index _ _ _ _). Qed.

Lemma grows_iter me t s : grows (tasks s) (tasks (wait_finished_iter me t s).1).
Proof.
  unfold wait_finished_iter. destruct (tasks s !! t) as [k|] eqn:E; [|done]. destruct (finished k) eqn:Ef; [done|].
  simpl. eapply grows_insert; [done|]. by rewrite Ef.
Qed.

Lemma grows_resume me t id e s : grows (tasks s) (tasks (wait_finished_resume me t id e s).1).
Proof.
  unfold wait_finished_resume. destruct (tasks s !! t) as [k|] eqn:E; [|done]. set (s1 := mkSys _ _ _ _ _ _).
  assert (grows (tasks s) (tasks s1)) by (by eapply grows_insert).
  case_bool_decide; [done|]. etransitivity; [done|]. apply grows_iter.
Qed.

Lemma step_grows l s s' : step l s s' -> grows (tasks s) (tasks s').
Proof.
  assert (forall l, grows l (l ++ [new_task])) as Hnew by (intros l1 t k H; exists k; split; [by apply lookup_app_l_Some|done]).
  intros Hs. destruct Hs.
  - unfold roc_task_spawn, try_claim_slot. destruct (_ <? _)%nat; [|done]. destruct (try_reserve _) as [[i h]|]; [|done].
    destruct ok; [apply Hnew|]. unfold unreserve, drop_slot, release_closure. simpl. by destruct (free_slot _ _ _).
  - unfold spawn_host, try_claim_slot. destruct (_ <? _)%nat; [|done]. destruct ok; [apply Hnew|done].
  - by apply grows_alter.
  - unfold task_finished. destruct (tasks s !! t) as [k|] eqn:E; [|done]. simpl. by eapply grows_insert.
  - unfold roc_task_finish. destruct t as [t|]; [|done]. simpl. destruct (tasks s !! t) as [k|] eqn:E; [|done]. simpl. by eapply grows_insert.
  - apply grows_iter.
  - apply grows_resume.
  - unfold roc_task_cancel. destruct (obj_task _); [by apply grows_alter|done].
  - unfold watch. destruct (obj_task _) as [t|]; [|done]. simpl. destruct (tasks s !! t) as [x|] eqn:E; [|done]. simpl.
    unfold watch_finished. destruct (finished x) eqn:Ef; simpl; (eapply grows_insert; [done|by rewrite Ef]).
  - unfold unwatch. destruct (obj_task _); [by apply grows_alter|done].
  - unfold release_obj. destruct (release _ _ _ _) as [[| | |index o] h]; [done..|]. unfold unreserve. destruct o as [[t|]|]; simpl; destruct (free_slot _ _ _); [by apply grows_alter|done..].
  - unfold roc_group_new. by destruct (try_reserve _) as [[i h]|].
  - unfold roc_group_add. destruct (obj_task _), (members g s); try done. by rewrite tasks_set_members.
  - unfold roc_group_cancel. destruct (members g s); [apply grows_cancel_all|done].
  - unfold roc_group_close, close_take. destruct (members g s); [|by destruct c]. destruct c; simpl; [|by rewrite tasks_set_members].
    etransitivity; [|apply grows_cancel_all]. by rewrite tasks_set_members.
Qed.

(** ** A group is its own *)

(** What is behind a handle depends on its slot alone. *)
Lemma get_same (h h' : Heap TaskObj) p :
  length (slots h') = length (slots h) ->
  (forall j, payload_index start stride h p = Some j ->
     slots h' !! j = slots h !! j /\ Resource.live h' !! j = Resource.live h !! j /\ generations h' !! j = generations h !! j) ->
  get start stride p h' = get start stride p h.
Proof.
  intros Hl Hs. assert (payload_index start stride h' p = payload_index start stride h p) as Hp by (unfold payload_index, base_index; by rewrite Hl).
  unfold get. rewrite Hp. destruct (payload_index start stride h p) as [j|]; [|done]. cbn [mbind option_bind].
  destruct (Hs j eq_refl) as (-> & -> & ->). done.
Qed.

Lemma obj_insert s g index h o : Inv s -> try_reserve (heap s) = Some (index, h) -> is_Some (obj g s) ->
  get start stride g (insert start stride index o h).2 = obj g s.
Proof.
  intros Hi Hr [x Hx]. destruct (reserved_not_live _ _ _ (inv_heap_ok s Hi) Hr) as [Hlt Hn].
  destruct (try_reserve_Some _ _ _ Hr) as (_ & Es & Eg & El & _).
  unfold obj in *. apply get_same; simpl; [by rewrite length_insert, Es|]. intros j Hj.
  assert (index <> j) as Hne by (intros ->; unfold get in Hx; rewrite Hj in Hx; cbn [mbind option_bind] in Hx;
    destruct (slots (heap s) !! j); [|done]; cbn [mbind option_bind] in Hx; destruct (Resource.live (heap s) !! j) as [[]|]; [done| |done];
    cbn [mbind option_bind] in Hx; by destruct (generations (heap s) !! j)).
  rewrite !list_lookup_insert_ne by done. by rewrite Es, Eg, El.
Qed.

Lemma obj_set_members g g' l s : g' <> g -> obj g (set_members g' l s) = obj g s.
Proof.
  intros Hne. unfold obj, set_members. destruct (payload_index start stride (heap s) g') as [i|] eqn:E; [|done]. simpl.
  apply get_same; simpl; [by rewrite length_alter|]. intros j Hj. split; [|done].
  apply list_lookup_alter_ne. intros ->. apply (payload_index_Some start stride stride_pos) in E as [-> _]. by apply (payload_index_Some start stride stride_pos) in Hj as [-> _].
Qed.

Lemma members_set_members g l l0 s : members g s = Some l0 -> members g (set_members g l s) = Some l.
Proof.
  unfold members, obj, set_members. unfold get at 1. destruct (payload_index start stride (heap s) g) as [i|] eqn:E; [|done]. cbn [mbind option_bind].
  destruct (slots (heap s) !! i) as [sl|] eqn:Es; [|done]. cbn [mbind option_bind]. destruct (Resource.live (heap s) !! i) as [lv|] eqn:El; [|done]. cbn [mbind option_bind].
  destruct (generations (heap s) !! i) as [gn|] eqn:Eg; [|done]. cbn [mbind option_bind]. intros H. simpl. unfold get.
  assert (payload_index start stride (mkHeap (alter (fun sl => mkSlot (refcount sl) (token sl) (Some (Group l))) i (slots (heap s))) (free (heap s))
    (generations (heap s)) (Resource.live (heap s)) (waiters (heap s))) g = Some i) as -> by (rewrite <- E; unfold payload_index, base_index; simpl; by rewrite length_alter).
  cbn [mbind option_bind slots Resource.live generations]. rewrite list_lookup_alter, decide_True by done. rewrite Es, El, Eg. cbn [fmap option_fmap option_map mbind option_bind token resource].
  by destruct (_ && _ && _).
Qed.

Lemma heap_cancel_all l s : heap (cancel_all l s) = heap s.
Proof. unfold cancel_all. revert s. induction l as [|t l IH]; intros s; [done|]. cbn [foldl]. by rewrite IH. Qed.

Lemma obj_unreserve g index s : obj g (unreserve index s) = obj g s.
Proof. unfold obj, unreserve. destruct (free_slot index (heap s) (sts s)) as [h ts] eqn:E. unfold free_slot in E. destruct (wake_one _ _). injection E as <- <-. done. Qed.

(** What is behind a handle changes only by steps on that handle. *)
Lemma step_keeps_obj l s s' g : Inv s -> step l s s' -> l <> Some g -> is_Some (obj g s) -> obj g s' = obj g s.
Proof.
  intros Hi Hs Hl Hg. destruct Hs.
  - unfold roc_task_spawn, try_claim_slot. destruct (_ <? _)%nat; [|done]. simpl. destruct (try_reserve (heap s)) as [[i h]|] eqn:Er; [|done].
    destruct ok; simpl; [by apply obj_insert|]. rewrite obj_unreserve. destruct (try_reserve_Some _ _ _ Er) as (_ & Es & Eg & El & _).
    unfold obj. apply get_same; simpl; rewrite ?Es, ?Eg, ?El; done.
  - unfold spawn_host, try_claim_slot. destruct (_ <? _)%nat; [|done]. by destruct ok.
  - done.
  - unfold task_finished. destruct (tasks s !! t); [|done]. done.
  - unfold roc_task_finish. destruct t as [t|]; [|done]. simpl. by destruct (tasks s !! t).
  - unfold wait_finished_iter. destruct (tasks s !! t) as [k|]; [|done]. by destruct (finished k).
  - unfold wait_finished_resume. destruct (tasks s !! t) as [k|]; [|done]. case_bool_decide; [done|].
    unfold wait_finished_iter. simpl. destruct (_ !! t) as [k'|]; [|done]. by destruct (finished k').
  - unfold roc_task_cancel. by destruct (obj_task _).
  - unfold watch. destruct (obj_task _) as [t|]; [|done]. simpl. destruct (tasks s !! t); [|done]. simpl. by destruct (watch_finished _ _).
  - unfold unwatch. by destruct (obj_task _).
  - unfold release_obj. destruct (release start stride ptr (heap s)) as [[| | |index o] h] eqn:E; [done..|]. cbn [fst]. rewrite obj_unreserve.
    transitivity (obj g (with_heap h s)); [destruct o as [[]|]; done|]. unfold release in E. destruct (base_index start stride (heap s) ptr) as [i|] eqn:Eb; [|by destruct (contains _ _ _ _)].
    destruct (default false _); [|done]. injection E as <- _ <-. unfold obj. apply get_same; simpl; [done|]. intros j Hj. split; [done|]. split; [|done].
    apply list_lookup_insert_ne. intros <-. apply (base_index_Some start stride stride_pos) in Eb as [-> _]. apply (payload_index_Some start stride stride_pos) in Hj as [-> _]. by apply Hl.
  - unfold roc_group_new. destruct (try_reserve (heap s)) as [[i h]|] eqn:Er; [|done]. simpl. by apply obj_insert.
  - unfold roc_group_add. destruct (obj_task _), (members g0 s); try done. apply obj_set_members. congruence.
  - unfold roc_group_cancel. destruct (members g0 s); [|done]. unfold obj. by rewrite heap_cancel_all.
  - unfold roc_group_close, close_take. destruct (members g0 s); [|by destruct c]. assert (g0 <> g) by congruence.
    destruct c; simpl; [|by apply obj_set_members]. unfold obj. rewrite heap_cancel_all. by apply obj_set_members.
Qed.

(** ** A scope

    One group's life, in a system where everything else goes on: its handle is
    [group], and task [me] closes it.  Tasks are added to it; then [me] takes
    the members, cancels them if asked to, one by one, and waits for each in
    turn, going round [wait_finished]'s loop as often as it is resumed, for
    whatever reason.  [before] are the tasks added before closing began, and
    [told_cancelled] notes that one of these waits said [Cancelled], after
    which the loop of [roc_group_close] goes on to the next task. *)
Inductive Closing := Open | Cancelling (todo all : list nat) | Waiting (todo : list nat) (id : option Z).

Record Scope := mkScope { sys : Sys; pc : Closing; before : list nat; told_cancelled : bool }.

(** After a round of waiting for [t]. *)
Definition went (s : Sys) (r : Waited) (t : nat) (todo before : list nat) (c : bool) : Scope :=
  match r with
  | IsReady => mkScope s (Waiting todo None) before c
  | Waits id => mkScope s (Waiting (t :: todo) (Some id)) before c
  | WasCancelled => mkScope s (Waiting todo None) before true
  end.

Variables (me : nat) (group : Z).

Inductive gstep : Scope -> Scope -> Prop :=
  (** Anything anybody does, other than to this group: nobody else closes it,
      and its handle isn't released while the scope runs. *)
  | g_other l s s' p b c : step l s s' -> l <> Some group -> gstep (mkScope s p b c) (mkScope s' p b c)
  | g_add s b c h t : obj_task (obj h s) = Some t -> is_Some (tasks s !! t) ->
      gstep (mkScope s Open b c) (mkScope (roc_group_add group h s) Open (t :: b) c)
  | g_add_late s p b c h : p <> Open -> gstep (mkScope s p b c) (mkScope (roc_group_add group h s) p b c)
  | g_take s b c s1 l (cancel_ : bool) : close_take group s = (s1, l) ->
      gstep (mkScope s Open b c) (mkScope s1 (if cancel_ then Cancelling l l else Waiting l None) b c)
  | g_cancel s t todo all b c : gstep (mkScope s (Cancelling (t :: todo) all) b c) (mkScope (cancel t s) (Cancelling todo all) b c)
  | g_cancelled s all b c : gstep (mkScope s (Cancelling [] all) b c) (mkScope s (Waiting all None) b c)
  | g_wait s t todo b c s' r : wait_finished_iter me t s = (s', r) ->
      gstep (mkScope s (Waiting (t :: todo) None) b c) (went s' r t todo b c)
  | g_resume s t todo id e b c s' r : wait_finished_resume me t id e s = (s', r) ->
      gstep (mkScope s (Waiting (t :: todo) (Some id)) b c) (went s' r t todo b c).

Definition scope_new (s : Sys) : Scope := mkScope s Open [] false.

(** Nothing between them, the steps of closing are [roc_group_close]. *)
Lemma close_steps s b c cancel_ :
  rtc gstep (mkScope s Open b c) (mkScope (roc_group_close group cancel_ s).1 (Waiting (roc_group_close group cancel_ s).2 None) b c).
Proof.
  unfold roc_group_close. destruct (close_take group s) as [s1 l] eqn:E. eapply rtc_l; [by apply (g_take s b c s1 l cancel_)|].
  destruct cancel_; simpl; [|done]. assert (forall todo s, rtc gstep (mkScope s (Cancelling todo l) b c) (mkScope (cancel_all todo s) (Waiting l None) b c)) as H.
  { induction todo as [|t todo IH]; intros s'; [apply rtc_once, g_cancelled|]. eapply rtc_l; [apply g_cancel|]. apply IH. }
  apply H.
Qed.

(** A task added before closing has finished, or is a member, or is waited
    for. *)
Definition looked_after (p : Closing) (c : bool) (s : Sys) (t : nat) : Prop :=
  match p with
  | Open => exists l, members group s = Some l /\ t ∈ l
  | Cancelling _ l => t ∈ l
  | Waiting l _ => c = true \/ t ∈ l
  end.

Record Kept (g : Scope) : Prop := {
  k_inv : Inv (sys g);
  k_open : pc g = Open -> is_Some (members group (sys g));
  k_all : forall t, t ∈ before g -> is_Some (tasks (sys g) !! t) /\ (is_finished t (sys g) = true \/ looked_after (pc g) (told_cancelled g) (sys g) t);
}.

Lemma grows_finished s s' t : grows (tasks s) (tasks s') -> is_Some (tasks s !! t) ->
  is_Some (tasks s' !! t) /\ (is_finished t s = true -> is_finished t s' = true).
Proof.
  intros Hg [k Hk]. destruct (Hg t k Hk) as (k' & Hk' & Hf). unfold is_finished. rewrite Hk, Hk'. split; [by eexists|exact Hf].
Qed.

(** The others' part of a step: tasks come and end. *)
Lemma kept_grows s s' p p' b c c' :
  Kept (mkScope s p b c) -> Inv s' -> grows (tasks s) (tasks s') -> (p' = Open -> is_Some (members group s')) ->
  (forall t, t ∈ b -> looked_after p c s t -> is_finished t s' = true \/ looked_after p' c' s' t) -> Kept (mkScope s' p' b c').
Proof.
  intros [Hi _ Ha] Hi' Hg Ho Hl. split; [done..|]. simpl in *. intros t Ht. destruct (Ha t Ht) as [Hs Hf].
  destruct (grows_finished s s' t Hg Hs) as [Hs' Hf']. split; [done|]. destruct Hf as [Hf|Hf]; [left; auto|auto].
Qed.

Lemma wait_ready me' t s s' : is_Some (tasks s !! t) -> wait_finished_iter me' t s = (s', IsReady) -> is_finished t s' = true.
Proof.
  intros [k Hk]. unfold wait_finished_iter, is_finished. rewrite Hk. destruct (finished k) eqn:Ef; [|done]. intros [= <-]. by rewrite Hk.
Qed.

Lemma resume_ready me' t id e s s' : is_Some (tasks s !! t) -> wait_finished_resume me' t id e s = (s', IsReady) -> is_finished t s' = true.
Proof.
  intros [k Hk]. unfold wait_finished_resume. rewrite Hk. case_bool_decide; [done|]. apply wait_ready.
  eexists. simpl. apply list_lookup_insert_eq. by eapply lookup_lt_Some.
Qed.

(** Going on to the next task once this one is ready. *)
Lemma kept_went s s' r t todo id b c :
  Kept (mkScope s (Waiting (t :: todo) id) b c) -> Inv s' -> grows (tasks s) (tasks s') ->
  (is_Some (tasks s !! t) -> r = IsReady -> is_finished t s' = true) -> Kept (went s' r t todo b c).
Proof.
  intros Hk Hi Hg Hr. destruct r as [|id'|]; simpl; (eapply kept_grows; [exact Hk|done|done|done|]); simpl.
  - intros x Hx [Hc|[->|Hin]%elem_of_cons]; [by right; left| |by right; right].
    left. apply Hr; [|done]. by apply (k_all _ Hk t).
  - intros x Hx H. by right.
  - intros x Hx H. right. by left.
Qed.

Lemma gstep_kept g g' : Kept g -> gstep g g' -> Kept g'.
Proof.
  intros Hk Hs. destruct Hs as [l s s' p b c Hs Hl|s b c h t Hh Ht|s p b c h Hp|s b c s1 l cancel_ Ht|s t todo all b c|s all b c
    |s t todo b c s' r Hw|s t todo id e b c s' r Hw].
  - assert (forall l, members group s = Some l -> members group s' = Some l) as Hm.
    { intros ms. unfold members. intros Hm. rewrite (step_keeps_obj _ _ _ group (k_inv _ Hk) Hs Hl); [done|]. simpl in *. by destruct (obj group s). }
    eapply kept_grows; [exact Hk|by eapply inv_step, Hs; apply Hk|by eapply step_grows| |].
    + intros ->. destruct (k_open _ Hk eq_refl) as [ms E]. eauto.
    + intros t Ht H. right. destruct p; [|done..]. destruct H as (ms & E & Hin). exists ms. split; [by apply Hm|done].
  - destruct (k_open _ Hk eq_refl) as [ms Hms]. simpl in Hms. assert (Inv (roc_group_add group h s)) as Hi by (eapply inv_step, (t_group_add s group h); apply Hk).
    assert (members group (roc_group_add group h s) = Some (add_member t ms s)) as Hm
      by (unfold roc_group_add; rewrite Hh, Hms; by eapply members_set_members).
    assert (tasks (roc_group_add group h s) = tasks s) as Et by (unfold roc_group_add; rewrite Hh, Hms; apply tasks_set_members).
    assert (forall x, is_finished x (roc_group_add group h s) = is_finished x s) as Ef by (intros x; unfold is_finished; by rewrite Et).
    split; simpl; [done|by eexists|]. intros x Hx. rewrite Et, Ef.
    assert (forall x, x ∈ add_member t ms s -> exists l, members group (roc_group_add group h s) = Some l /\ x ∈ l) as Hin by (intros; eauto).
    apply elem_of_cons in Hx as [->|Hx].
    + split; [done|]. right. apply Hin. unfold add_member. apply elem_of_app. right. left.
    + destruct (k_all _ Hk x Hx) as [H1 [H2|(l & E & Hl)]]; (split; [done|]); [by left|]. simpl in E. rewrite Hms in E. simplify_eq.
      destruct (is_finished x s) eqn:Efx; [by left|right]. apply Hin. unfold add_member. apply elem_of_app. left.
      apply list_elem_of_In, List.filter_In. split; [by apply list_elem_of_In|by rewrite Efx].
  - eapply kept_grows; [exact Hk|eapply inv_step, (t_group_add s group h); apply Hk|by eapply step_grows, (t_group_add s group h)|done|].
    intros t Ht H. right. by destruct p.
  - destruct (k_open _ Hk eq_refl) as [ms Hms]. simpl in Hms. unfold close_take in Ht. rewrite Hms in Ht. injection Ht as <- <-.
    eapply kept_grows; [exact Hk|by apply inv_set_members, Hk|by rewrite tasks_set_members|by destruct cancel_|].
    intros t Ht (l & E & Hin). rewrite Hms in E. simplify_eq. right. destruct cancel_; simpl; [done|by right].
  - eapply kept_grows; [exact Hk|by apply inv_cancel, Hk|by apply grows_alter|done|]. simpl. auto.
  - eapply kept_grows; [exact Hk|by apply Hk|done|done|]. simpl. auto.
  - eapply kept_went; [exact Hk| | |].
    + replace s' with (wait_finished_iter me t s).1 by (by rewrite Hw). apply inv_wait, Hk.
    + replace s' with (wait_finished_iter me t s).1 by (by rewrite Hw). apply grows_iter.
    + intros Hx ->. by eapply wait_ready.
  - eapply kept_went; [exact Hk| | |].
    + replace s' with (wait_finished_resume me t id e s).1 by (by rewrite Hw). eapply inv_step, t_wait_resume. apply Hk.
    + replace s' with (wait_finished_resume me t id e s).1 by (by rewrite Hw). apply grows_resume.
    + intros Hx ->. by eapply resume_ready.
Qed.

(** C37: A scope doesn't return early.  Whatever the rest of the program
    does meanwhile, and however often and for whatever reason the task that
    closes the scope is resumed while it waits, once [roc_group_close] has
    been through its list every task added to the group before closing began
    has finished, those included that were dropped from the list as finished
    along the way.  The one exception is a wait that was told [Cancelled]:
    [wait_finished(false)] begins waits that cancelling doesn't end, so this
    happens only in the race of [TaskProto.stale_cancel_reported]. *)
Theorem scope_waits_for_children cap n s g :
  reachable cap n s -> members group s = Some [] -> rtc gstep (scope_new s) g ->
  pc g = Waiting [] None -> told_cancelled g = false ->
  forall t, t ∈ before g -> exists k, tasks (sys g) !! t = Some k /\ finished k = true.
Proof.
  intros Hr Hm Hg Hw Hc t Ht. assert (Kept g) as Hk.
  { eapply rtc_invariant; [|exact Hg|]; [intros; by eapply gstep_kept|].
    split; simpl; [by eapply tasks_reachable_inv|by eexists|by intros ? ?%elem_of_nil]. }
  destruct (k_all _ Hk t Ht) as [[k E] Hf]. exists k. split; [done|]. rewrite Hw, Hc in Hf. unfold is_finished in Hf. rewrite E in Hf.
  destruct Hf as [Hf|[Hf|Hf]]; [done|done|by apply elem_of_nil in Hf].
Qed.

End Tasks.

(** ** Instances: two tasks allowed, a heap of four handles at 4096 *)

Definition empty_heap : Heap TaskObj := default (mkHeap [] [] [] [] Waiters_new) (heap_new 4).
Definition e0 : Sys := sys_new empty_heap 2.
Definition e1 : Sys := (roc_task_spawn 2 4096 24 true 70 e0).1.
Definition e2 : Sys := (roc_task_spawn 2 4096 24 true 71 e1).1.

Lemma e2_reachable : reachable 2 4096 24 4 2 e2.
Proof.
  exists empty_heap. split; [reflexivity|].
  eapply rtc_l; [eexists; apply (t_spawn 2 4096 24 e0 true 70)|]. apply rtc_once. eexists. apply (t_spawn 2 4096 24 e1 true 71).
Defined.

Lemma live_tasks_bounded_witness : (live e2 <= 2)%nat /\ live e2 = 2%nat.
Proof.
  split; [|reflexivity]. apply (live_tasks_bounded 2 4096 24 ltac:(lia) 4 2 e2 e2_reachable).
Defined.

Lemma spawn_all_or_nothing_witness :
  (roc_task_spawn 2 4096 24 true 72 e2).1 = release_closure 72 e2.
Proof.
  refine (proj1 (spawn_all_or_nothing 2 4096 24 ltac:(lia) ltac:(lia) 4 2 e2 true 72 _ None e2_reachable _)).
  reflexivity.
Defined.

(** A scope: its group at handle [gh], task 0 spawned in it; then closing
    starts; then task 0 spawns task 1 in the scope, and ends. *)
Definition f1 : Sys * option Z := roc_group_new 4096 24 e0.
Definition gh : Z := default 0 f1.2.
Definition f2 : Sys * option Z := roc_task_spawn 2 4096 24 true 70 f1.1.
Definition f3 : Sys := roc_group_add 4096 24 gh (default 0 f2.2) f2.1.
Definition f4 : Sys * list nat := roc_group_close 4096 24 gh false f3.
Definition f5 : Sys * option Z := roc_task_spawn 2 4096 24 true 71 f4.1.
Definition f6 : Sys := roc_group_add 4096 24 gh (default 0 f5.2) f5.1.
Definition f7 : Sys := task_finished 0 (job_ends 0 f6).

(** Task 1 closes the scope of task 0: it waits, is resumed too early, waits
    again, and goes on once task 0 has finished. *)
Definition g1 : Sys := (wait_finished_iter 1 0 f4.1).1.
Definition g2 : Sys := (wait_finished_resume 1 0 1 Ready g1).1.
Definition g3 : Sys := task_finished 0 g2.
Definition g4 : Sys := (wait_finished_resume 1 0 2 Ready g3).1.

Lemma f1_reachable : reachable 2 4096 24 4 2 f1.1.
Proof. exists empty_heap. split; [reflexivity|]. apply rtc_once. eexists. apply (t_group_new 2 4096 24 e0). Defined.

Lemma scope_waits_for_children_witness : exists k, tasks g4 !! 0%nat = Some k /\ finished k = true.
Proof.
  refine (scope_waits_for_children 2 4096 24 ltac:(lia) 1 gh 4 2 f1.1 (mkScope g4 (Waiting [] None) [0%nat] false) f1_reachable _ _ eq_refl eq_refl 0 _);
    [vm_compute; reflexivity| |left].
  eapply rtc_l; [apply (g_other 2 4096 24 1 gh None f1.1 f2.1); [apply t_spawn|done]|].
  eapply rtc_l; [apply (g_add 2 4096 24 1 gh f2.1 [] false (default 0 f2.2) 0); [vm_compute; reflexivity|vm_compute; by eexists]|].
  eapply rtc_l; [apply (g_take 2 4096 24 1 gh f3 _ _ f4.1 [0%nat] false); vm_compute; reflexivity|].
  eapply rtc_l; [apply (g_wait 2 4096 24 1 gh f4.1 0 [] _ _ g1 (Waits 1)); vm_compute; reflexivity|].
  eapply rtc_l; [apply (g_resume 2 4096 24 1 gh g1 0 [] 1 Ready _ _ g2 (Waits 2)); vm_compute; reflexivity|].
  eapply rtc_l; [apply (g_other 2 4096 24 1 gh None g2 g3); [apply t_finished|done]|].
  apply rtc_once. apply (g_resume 2 4096 24 1 gh g3 0 [] 2 Ready _ _ g4 IsReady). vm_compute. reflexivity.
Defined.

(** closing a scope misses a task started in the scope while it closes.
    [roc_group_close] takes the members once: here it waits for task 0 only;
    task 0, before it ends, starts task 1 in the same scope; then every task
    closing waits for has finished, and task 1, a member of the group, is
    still running. *)
Theorem scope_misses_late_child :
  f4.2 = [0%nat] /\ is_finished 0 f7 = true /\
  members 4096 24 gh f7 = Some [1%nat] /\ is_finished 1 f7 = false /\ live f7 = 1%nat.
Proof. vm_compute. split_and!; reflexivity. Qed.

End Tasks.
