(* ===== verification/Noise.v ===== *)
(** * Noise transport streams ([src/noise.rs])

    A direction of a stream: its cipher state, the frames a write makes, and
    the receiving side, which buffers ciphertext until it makes a whole
    message.  The AEAD (a crate) is a parameter: sealing and opening under a
    key, with what the code relies on of them as hypotheses.  Bytes are
    integers in [0, 256). *)
From S2P Require Import Prelude Waiters.
Local Open Scope Z_scope.

Module Noise.

Definition MAX_PLAINTEXT : nat := Z.to_nat (65535 - 16).
Definition TAG : nat := 16.

(** ** Bytes of integers *)

(** [to_le_bytes] of a [k]-byte integer. *)
Fixpoint to_le (k : nat) (x : Z) : list Z :=
  match k with 0%nat => [] | S k => x mod 256 :: to_le k (x / 256) end.
Definition to_be (k : nat) (x : Z) : list Z := List.rev (to_le k x).
Fixpoint from_le (l : list Z) : Z := match l with [] => 0 | b :: l => b + 256 * from_le l end.
Definition from_be (l : list Z) : Z := from_le (List.rev l).

Lemma from_to_le k x : 0 <= x < 256 ^ Z.of_nat k -> from_le (to_le k x) = x.
Proof.
  revert x. induction k as [|k IH]; intros x Hx; simpl.
  - change (256 ^ Z.of_nat 0) with 1 in Hx. lia.
  - rewrite Nat2Z.inj_succ, Z.pow_succ_r in Hx by lia. rewrite IH.
    + pose proof (Z.div_mod x 256 ltac:(lia)). lia.
    + split; [apply Z.div_pos; lia|]. apply Z.div_lt_upper_bound; lia.
Qed.

Lemma length_to_le k x : length (to_le k x) = k.
Proof. revert x. induction k as [|k IH]; intros x; simpl; [done|]. by rewrite IH. Qed.

Lemma from_to_be k x : 0 <= x < 256 ^ Z.of_nat k -> from_be (to_be k x) = x.
Proof. intros H. unfold from_be, to_be. rewrite List.rev_involutive. by apply from_to_le. Qed.

(** ** Cipher states *)

Section Aead.
(** The key's seal and open under a nonce. *)
Variables (seal : list Z -> list Z -> list Z) (open : list Z -> list Z -> option (list Z)).

Record CipherState := mkCipher { cipher : Z; nonce : Z }.

(** [CipherState::new], for a key of the right length. *)
Definition cipher_new (cipher_ nonce_ : Z) : option CipherState :=
  if (cipher_ =? 0) || (cipher_ =? 1) then Some (mkCipher cipher_ nonce_) else None.

(** [CipherState::next_nonce]; [None]: used up. *)
Definition next_nonce (c : CipherState) : option (list Z * CipherState) :=
  if nonce c =? U64_MAX then None
  else Some (replicate 4 0 ++ (if cipher c =? 0 then to_le 8 (nonce c) else to_be 8 (nonce c)),
             mkCipher (cipher c) (u64_add (nonce c) 1)).

Definition nonce_bytes (c : CipherState) : list Z :=
  replicate 4 0 ++ (if cipher c =? 0 then to_le 8 (nonce c) else to_be 8 (nonce c)).

(** ** Writing *)

(** [data.chunks(MAX_PLAINTEXT)] *)
Fixpoint chunks (fuel : nat) (data : list Z) : list (list Z) :=
  match fuel, data with
  | S fuel, _ :: _ => take MAX_PLAINTEXT data :: chunks fuel (drop MAX_PLAINTEXT data)
  | _, _ => []
  end.

(** A frame: the sealed message's length, big-endian, and the message. *)
Definition frame (sealed : list Z) : list Z := to_be 2 (wrap 16 (Z.of_nat (length sealed))) ++ sealed.

#[local] Arguments frame : simpl never.

(** [write_all]'s loop: what goes on the wire, and whether all of it did. *)
Fixpoint write_chunks (c : CipherState) (l : list (list Z)) : CipherState * list Z * bool :=
  match l with
  | [] => (c, [], true)
  | chunk :: l =>
      match next_nonce c with
      | None => (c, [], false)
      | Some (n, c') =>
          let '(c2, bytes, ok) := write_chunks c' l in (c2, frame (seal n chunk) ++ bytes, ok)
      end
  end.

Definition write_all (c : CipherState) (data : list Z) : CipherState * list Z * bool :=
  write_chunks c (chunks (length data) data).

(** ** Receiving *)

Record Received := mkReceived {
  rcipher : CipherState;
  plain : list Z;
  taken : nat;
  ciphertext : list Z;
  ended : bool;
  failed : bool;
}.

Definition received_new (c : CipherState) : Received := mkReceived c [] 0 [] false false.

(** [Received::take] (called [take_plain] here). *)
Definition take_plain (max : nat) (r : Received) : option (list Z * Received) :=
  if (length (plain r) <=? taken r)%nat then None
  else let e := Nat.min (taken r + max) (length (plain r)) in
       Some (take (e - taken r) (drop (taken r) (plain r)),
             mkReceived (rcipher r) (plain r) e (ciphertext r) (ended r) (failed r)).

Definition whole_message (r : Received) : option nat :=
  match ciphertext r with
  | hi :: lo :: rest =>
      let len := Z.to_nat (from_be [hi; lo]) in
      if (2 + len <=? length (ciphertext r))%nat then Some len else None
  | _ => None
  end.

Definition readable (r : Received) : bool :=
  (taken r <? length (plain r))%nat || bool_decide (is_Some (whole_message r)) || ended r || failed r.

Inductive Next :=
  | Data (bytes : list Z)   (* Ok(Some(bytes)), empty at the end *)
  | Wait                    (* Ok(None) *)
  | NotAuthentic
  | Truncated               (* UnexpectedEof *)
  | NoNonce
  | OutOfFuel.

Fixpoint next_loop (fuel max : nat) (r : Received) : Received * Next :=
  match fuel with
  | 0%nat => (r, OutOfFuel)
  | S fuel =>
      match take_plain max r with
      | Some (bytes, r') => (r', Data bytes)
      | None =>
          match whole_message r with
          | None =>
              (r, if negb (ended r) then Wait
                  else if bool_decide (ciphertext r = []) then Data [] else Truncated)
          | Some len =>
              let message := drop 2 (take (2 + len) (ciphertext r)) in
              let rest := drop (2 + len) (ciphertext r) in
              match next_nonce (rcipher r) with
              | None => (mkReceived (rcipher r) (plain r) (taken r) rest (ended r) (failed r), NoNonce)
              | Some (n, c') =>
                  match open n message with
                  | None => (mkReceived c' (plain r) (taken r) rest (ended r) true, NotAuthentic)
                  | Some p => next_loop fuel max (mkReceived c' p 0 rest (ended r) (failed r))
                  end
              end
          end
      end
  end.

(** [Received::next]: each turn of the loop takes at least two bytes of
    ciphertext, so one more turn than there are bytes is enough. *)
Definition next (max : nat) (r : Received) : Received * Next :=
  if failed r then (r, NotAuthentic) else next_loop (S (length (ciphertext r))) max r.

(** [receive_more]: what the socket read ([[]]: its end). *)
Definition feed (got : list Z) (r : Received) : Received :=
  mkReceived (rcipher r) (plain r) (taken r) (ciphertext r ++ got) (ended r || bool_decide (got = [])) (failed r).

(** *** [next] always has an answer *)

Lemma whole_message_Some r len :
  whole_message r = Some len -> (2 + len <= length (ciphertext r))%nat /\
    exists hi lo rest, ciphertext r = hi :: lo :: rest /\ len = Z.to_nat (from_be [hi; lo]).
Proof.
  unfold whole_message. destruct (ciphertext r) as [|hi [|lo rest]] eqn:E; try done.
  case_match eqn:El; [|done]. intros [= <-]. apply Nat.leb_le in El. rewrite <- E in *. eauto 10.
Qed.

Lemma next_loop_answers fuel max r :
  (length (ciphertext r) < fuel)%nat -> (next_loop fuel max r).2 <> OutOfFuel.
Proof.
  revert r. induction fuel as [|fuel IH]; intros r Hf; [lia|]. cbn [next_loop].
  destruct (take_plain max r) as [[]|]; [done|].
  destruct (whole_message r) as [len|] eqn:E; [|by repeat case_goal].
  apply whole_message_Some in E as [Hl _]. destruct (next_nonce (rcipher r)) as [[]|]; [|done].
  destruct (open _ _); [|done]. apply IH. simpl. rewrite length_drop. lia.
Qed.

(** *** A message that fails stops the stream *)

Lemma next_loop_not_authentic fuel max r r' :
  next_loop fuel max r = (r', NotAuthentic) -> failed r' = true.
Proof.
  revert r. induction fuel as [|fuel IH]; intros r; cbn [next_loop]; [done|].
  destruct (take_plain max r) as [[]|]; [done|].
  destruct (whole_message r) as [len|]; [|by repeat case_goal].
  destruct (next_nonce (rcipher r)) as [[]|]; [|done].
  destruct (open _ _); [apply IH|]. by intros [= <-].
Qed.

(** a message that fails to authenticate ends the stream for good: from
    then on every read fails the same way, whatever else arrives, so no later
    message is delivered as if none were missing; and [next] always returns
    (its loop ends). *)
Theorem noise_failure_is_final max r r' :
  next max r = (r', NotAuthentic) ->
  (forall arrived max', next max' (foldl (fun r got => feed got r) r' arrived) =
                        (foldl (fun r got => feed got r) r' arrived, NotAuthentic)) /\
  (forall max'' r'', (next max'' r'').2 <> OutOfFuel).
Proof.
  intros H. split.
  - assert (failed r' = true) as Hf.
    { unfold next in H. case_match eqn:E; [by simplify_eq|]. by eapply next_loop_not_authentic. }
    clear H. intros arrived max'. revert r' Hf. induction arrived as [|got l IH]; intros r' Hf; simpl.
    + unfold next. by rewrite Hf.
    + by apply (IH (feed got r')).
  - intros max'' r''. unfold next. case_goal; [done|]. apply next_loop_answers. lia.
Qed.

(** ** Nonces *)

(** The next [k] nonces, as long as there are any. *)
Fixpoint nonces (k : nat) (c : CipherState) : list (list Z) :=
  match k with
  | 0%nat => []
  | S k => match next_nonce c with Some (n, c') => n :: nonces k c' | None => [] end
  end.

Lemma nonce_bytes_inj c c' :
  cipher c = cipher c' -> 0 <= nonce c <= U64_MAX -> 0 <= nonce c' <= U64_MAX ->
  nonce_bytes c = nonce_bytes c' -> nonce c = nonce c'.
Proof.
  unfold nonce_bytes. intros -> H1 H2 H%app_inv_head. change U64_MAX with (256 ^ Z.of_nat 8 - 1) in *.
  case_match.
  - rewrite <- (from_to_le 8 (nonce c)), H by lia. apply from_to_le. lia.
  - rewrite <- (from_to_be 8 (nonce c)), H by lia. apply from_to_be. lia.
Qed.

Lemma next_nonce_Some c n c' :
  next_nonce c = Some (n, c') -> 0 <= nonce c <= U64_MAX ->
  n = nonce_bytes c /\ cipher c' = cipher c /\ nonce c' = nonce c + 1 /\ nonce c < U64_MAX.
Proof.
  unfold next_nonce. destruct (Z.eqb_spec (nonce c) U64_MAX); [done|]. intros [= <- <-] H. simpl.
  split_and!; [done|done| |lia]. unfold u64_add, wrap. apply Z.mod_small. unfold U64_MAX in *. lia.
Qed.

Lemma nonces_elem k c n :
  0 <= nonce c <= U64_MAX -> n ∈ nonces k c ->
  exists i, nonce c <= i < U64_MAX /\ i < nonce c + Z.of_nat k /\ n = nonce_bytes (mkCipher (cipher c) i).
Proof.
  revert c. induction k as [|k IH]; intros c Hc; simpl; [by intros ?%elem_of_nil|].
  destruct (next_nonce c) as [[n0 c']|] eqn:E; [|by intros ?%elem_of_nil].
  apply next_nonce_Some in E as (-> & Hci & Hno & Hlt); [|done].
  intros [->|H]%elem_of_cons.
  - exists (nonce c). split_and!; try lia. by destruct c.
  - destruct (IH c' ltac:(lia) H) as (i & Hi1 & Hi2 & ->). exists i. rewrite Hci. split_and!; [lia|lia|lia|done].
Qed.

(** C26: nonces are never reused: the nonces a cipher state gives out, in
    either byte order, are pairwise different as the bytes handed to the
    AEAD, and none is the reserved value 2^64 - 1; the state refuses rather
    than wrap round. *)
Theorem nonces_unique k c :
  0 <= nonce c <= U64_MAX ->
  NoDup (nonces k c) /\
  (nonce_bytes (mkCipher (cipher c) U64_MAX) ∉ nonces k c) /\
  (Z.of_nat k <= U64_MAX - nonce c -> length (nonces k c) = k).
Proof.
  intros Hc. split_and!.
  - revert c Hc. induction k as [|k IH]; intros c Hc; simpl; [constructor|].
    destruct (next_nonce c) as [[n c']|] eqn:E; [|constructor].
    apply next_nonce_Some in E as (-> & Hci & Hno & Hlt); [|done].
    apply NoDup_cons. split; [|apply IH; lia].
    intros (i & Hi1 & Hi2 & Heq)%nonces_elem; [|lia].
    apply nonce_bytes_inj in Heq; simpl in *; first [done|lia].
  - intros (i & Hi1 & Hi2 & Heq)%nonces_elem; [|done].
    apply nonce_bytes_inj in Heq; simpl in *; unfold U64_MAX in *; first [done|lia].
  - revert c Hc. induction k as [|k IH]; intros c Hc Hk; simpl; [done|].
    destruct (next_nonce c) as [[n c']|] eqn:E.
    + apply next_nonce_Some in E as (_ & _ & Hno & _); [|done]. simpl. rewrite IH; lia.
    + unfold next_nonce in E. destruct (Z.eqb_spec (nonce c) U64_MAX); [lia|done].
Qed.

(** ** What is written is what is read *)

Hypothesis open_seal : forall n p, open n (seal n p) = Some p.
Hypothesis seal_length : forall n p, length (seal n p) = (length p + TAG)%nat.

Lemma frame_spec sealed :
  (length sealed <= Z.to_nat 65535)%nat ->
  exists hi lo, frame sealed = hi :: lo :: sealed /\ Z.to_nat (from_be [hi; lo]) = length sealed.
Proof.
  intros Hl. unfold frame. eexists _, _. split; [reflexivity|].
  assert (0 <= Z.of_nat (length sealed) < 65536) as Hb by lia.
  change [_; _] with (to_be 2 (wrap 16 (Z.of_nat (length sealed)))).
  unfold wrap. change (2 ^ 16) with 65536. rewrite Z.mod_small by done.
  rewrite from_to_be by done. lia.
Qed.

(** The receiver [r] has what it needs to read [msgs] once [rest] arrives. *)
Record Rep (r : Received) (rest : list Z) (msgs : list (list Z)) : Prop := {
  rep_ok : failed r = false;
  rep_taken : (taken r <= length (plain r))%nat;
  rep_wire : exists c', write_chunks (rcipher r) msgs = (c', ciphertext r ++ rest, true);
  rep_fits : Forall (fun m => length m <= MAX_PLAINTEXT)%nat msgs;
  rep_ended : ended r = true -> rest = [];
}.

(** The plaintext still to come. *)
Definition out (r : Received) (msgs : list (list Z)) : list Z := drop (taken r) (plain r) ++ concat msgs.

Lemma rep_feed k r rest msgs : Rep r rest msgs -> Rep (feed (take (S k) rest) r) (drop (S k) rest) msgs.
Proof.
  intros [Hf Ht [c' Hw] Hm He]. split; simpl; try done.
  - exists c'. by rewrite <- app_assoc, take_drop.
  - intros [H|H]%orb_true_iff.
    + by rewrite (He H).
    + apply bool_decide_eq_true in H. by destruct rest.
Qed.

(** The message at the front, when the ciphertext is the start of a wire. *)
Lemma whole_message_front r sealed rest w :
  (length sealed <= Z.to_nat 65535)%nat -> ciphertext r ++ rest = frame sealed ++ w ->
  match whole_message r with
  | Some len => len = length sealed /\ drop 2 (take (2 + len) (ciphertext r)) = sealed /\
                drop (2 + len) (ciphertext r) ++ rest = w
  | None => (length (ciphertext r) < 2 + length sealed)%nat
  end.
Proof.
  intros Hl He. destruct (frame_spec sealed Hl) as (hi & lo & Hfr & Hlen). rewrite Hfr in He.
  destruct (whole_message r) as [len|] eqn:Ew.
  - apply whole_message_Some in Ew as (Hle & hi' & lo' & tl & Hc & ->). rewrite Hc in *. simpl in He.
    simplify_eq. rewrite Hlen in *. simpl in Hle. split; [done|].
    change (2 + length sealed)%nat with (S (S (length sealed))). simpl.
    assert (tl ++ rest = sealed ++ w) as He' by (by simplify_eq).
    assert (take (length sealed) tl = sealed) as Ht.
    { rewrite <- (take_app_le tl rest) by lia. rewrite He'. apply take_app_length. }
    split; [done|]. apply (app_inv_head sealed). rewrite <- He'. rewrite <- Ht at 1.
    by rewrite app_assoc, take_drop.
  - unfold whole_message in Ew. destruct (ciphertext r) as [|hi' [|lo' tl]] eqn:Hc; simpl; try lia.
    simpl in He. simplify_eq. rewrite Hlen in Ew. case_match eqn:El; [done|]. apply Nat.leb_gt in El. simpl in El. lia.
Qed.

Lemma take_plain_Some max r bytes r' :
  take_plain (S max) r = Some (bytes, r') -> (taken r <= length (plain r))%nat ->
  bytes <> [] /\ drop (taken r) (plain r) = bytes ++ drop (taken r') (plain r') /\
  (taken r' <= length (plain r'))%nat /\ rcipher r' = rcipher r /\ ciphertext r' = ciphertext r /\
  ended r' = ended r /\ failed r' = failed r.
Proof.
  unfold take_plain. destruct (Nat.leb_spec (length (plain r)) (taken r)) as [|Hlt]; [done|].
  intros [= <- <-] Ht. simpl. set (e := Nat.min (taken r + S max) (length (plain r))).
  assert (taken r < e <= length (plain r))%nat by lia. split_and!; try done; [| |lia].
  - intros E%(f_equal length). rewrite length_take, length_drop in E. simpl in E. lia.
  - replace e with (taken r + (e - taken r))%nat at 2 by lia. by rewrite <- drop_drop, take_drop.
Qed.

Lemma take_plain_None max r : take_plain max r = None -> drop (taken r) (plain r) = [].
Proof.
  unfold take_plain. destruct (Nat.leb_spec (length (plain r)) (taken r)) as [H|]; [|done].
  intros _. by apply drop_ge.
Qed.

(** After its messages, a receiver's nonce is the one it would have been. *)
Definition same_end (r : Received) (msgs : list (list Z)) (r' : Received) (msgs' : list (list Z)) : Prop :=
  forall c w, write_chunks (rcipher r) msgs = (c, w, true) -> exists w', write_chunks (rcipher r') msgs' = (c, w', true).

Lemma same_end_refl r msgs r' : rcipher r' = rcipher r -> same_end r msgs r' msgs.
Proof. intros E c w H. exists w. by rewrite E. Qed.

(** What a read can find, and what is then still to come. *)
Inductive Found (r : Received) (rest : list Z) (msgs : list (list Z)) : Received * Next -> Prop :=
  | found_data r' msgs' b : b <> [] -> Rep r' rest msgs' -> ended r' = ended r ->
      out r msgs = b ++ out r' msgs' -> same_end r msgs r' msgs' -> Found r rest msgs (r', Data b)
  | found_wait r' msgs' : ended r = false -> Rep r' rest msgs' -> ended r' = ended r ->
      out r msgs = out r' msgs' -> same_end r msgs r' msgs' -> Found r rest msgs (r', Wait)
  | found_end r' : ended r = true -> Rep r' rest [] -> ended r' = ended r -> out r msgs = [] ->
      out r' [] = [] -> same_end r msgs r' [] -> Found r rest msgs (r', Data []).

Lemma next_loop_found fuel max r rest msgs :
  Rep r rest msgs -> (length (ciphertext r) < fuel)%nat -> Found r rest msgs (next_loop fuel (S max) r).
Proof.
  revert r msgs. induction fuel as [|fuel IH]; intros r msgs Hr Hf; [lia|]. cbn [next_loop].
  pose proof Hr as [Hok Ht [c' Hw] Hm He].
  destruct (take_plain (S max) r) as [[bytes r']|] eqn:Etp.
  { apply take_plain_Some in Etp as (Hb & Hd & Ht' & Ec & Ect & Een & Efa); [|done].
    apply (found_data _ _ _ r' msgs); [done| |done| |].
    - split; rewrite ?Ec, ?Ect, ?Een, ?Efa; eauto.
    - unfold out. by rewrite Hd, app_assoc.
    - by apply same_end_refl. }
  assert (out r msgs = concat msgs) as Hout by (unfold out; by rewrite (take_plain_None _ _ Etp)).
  destruct msgs as [|m msgs]; simpl in Hw.
  - injection Hw as _ Hnil. symmetry in Hnil. apply app_nil in Hnil as [Hc Hrest].
    unfold whole_message. rewrite Hc. destruct (ended r) eqn:Een; simpl.
    + apply found_end; try done. by apply same_end_refl.
    + eapply found_wait; try done. by apply same_end_refl.
  - apply Forall_cons in Hm as [Hmlen Hm]. destruct (next_nonce (rcipher r)) as [[n c1]|] eqn:En; [|done].
    destruct (write_chunks c1 msgs) as [[c2 bytes] ok] eqn:Ewc. injection Hw as <- Hw ->. symmetry in Hw.
    assert (length (seal n m) <= Z.to_nat 65535)%nat as Hsl
      by (rewrite seal_length; unfold TAG, MAX_PLAINTEXT in *; lia).
    pose proof (whole_message_front r (seal n m) rest bytes Hsl (eq_sym (eq_sym Hw))) as Hfr.
    destruct (whole_message r) as [len|] eqn:Ewm.
    + destruct Hfr as (-> & -> & Hrest). rewrite open_seal.
      pose proof (whole_message_Some _ _ Ewm) as [Hle _].
      set (r2 := mkReceived c1 m 0 _ (ended r) (failed r)).
      assert (Rep r2 rest msgs) as Hr2.
      { split; [done|simpl; lia| |done|done]. exists c2. cbn [rcipher ciphertext r2]. by rewrite Hrest. }
      assert (out r2 msgs = out r (m :: msgs)) as Ho by (by rewrite Hout).
      assert (forall r' ms', same_end r2 msgs r' ms' -> same_end r (m :: msgs) r' ms') as Hse.
      { intros r' ms' Hs c w. cbn [write_chunks]. rewrite En. destruct (write_chunks c1 msgs) as [[c3 b3] ok3] eqn:E3. intros [= -> _ ->]. by eapply Hs. }
      destruct (IH r2 msgs Hr2 ltac:(simpl; rewrite length_drop; lia)) as [r' ms' b|r' ms'|r']; rewrite Ho in *.
      * by eapply found_data; try done; apply Hse.
      * by eapply found_wait; try done; apply Hse.
      * by eapply found_end; try done; apply Hse.
    + destruct (ended r) eqn:Een.
      * exfalso. rewrite (He eq_refl), app_nil_r in Hw. rewrite Hw in Hfr.
        simpl in Hfr. rewrite length_app in Hfr. lia.
      * apply (found_wait _ _ _ r (m :: msgs)); try done. by apply same_end_refl.
Qed.

Lemma next_found max r rest msgs : Rep r rest msgs -> Found r rest msgs (next (S max) r).
Proof. intros Hr. unfold next. rewrite (rep_ok _ _ _ Hr). apply next_loop_found; [done|lia]. Qed.

(** The receiving end, as ciphertext arrives in pieces of any size (an empty
    piece once all has: the end) and reads of any size happen in between. *)
Inductive Event := Arrive (k : nat) | Read (max : nat).

Fixpoint receive (evs : list Event) (r : Received) (rest : list Z) : list Next * Received * list Z :=
  match evs with
  | [] => ([], r, rest)
  | Arrive k :: evs => receive evs (feed (take (S k) rest) r) (drop (S k) rest)
  | Read max :: evs =>
      let '(r', x) := next (S max) r in
      let '(xs, r2, rest2) := receive evs r' rest in (x :: xs, r2, rest2)
  end.

Definition data_of (x : Next) : list Z := match x with Data b => b | _ => [] end.

Lemma receive_spec evs r rest msgs :
  Rep r rest msgs ->
  let '(xs, r', rest') := receive evs r rest in
  exists msgs', Rep r' rest' msgs' /\ out r msgs = concat (map data_of xs) ++ out r' msgs' /\
    Forall (fun x => x = Wait \/ exists b, x = Data b) xs /\
    (Data [] ∈ xs -> out r' msgs' = []).
Proof.
  revert r rest msgs. induction evs as [|[k|max] evs IH]; intros r rest msgs Hr; simpl.
  - exists msgs. split_and!; try done. by intros ?%elem_of_nil.
  - specialize (IH _ _ _ (rep_feed k _ _ _ Hr)). by destruct (receive evs _ _) as [[xs r'] rest'].
  - destruct (next (S max) r) as [r1 x] eqn:E. pose proof (next_found max r rest msgs Hr) as Hf. rewrite E in Hf.
    inversion Hf as [r' ms b Hb Hr1 He Ho Hse|r' ms Hn Hr1 He Ho Hse|r' Hy Hr1 He Ho Ho' Hse]; subst;
      specialize (IH _ _ _ Hr1); destruct (receive evs r1 rest) as [[xs r2] rest2];
      destruct IH as (ms' & Hr2 & Hout & Hall & Hend); exists ms'.
    + rewrite Ho, Hout. split_and!; [done|by rewrite app_assoc|constructor; eauto|].
      intros [[= <-]|H]%elem_of_cons; [done|auto].
    + rewrite Ho, Hout. split_and!; [done|done|constructor; auto|]. intros [[=]|H]%elem_of_cons. auto.
    + rewrite Ho' in Hout. symmetry in Hout. apply app_nil in Hout as [Hx Hr2o]. rewrite Ho.
      simpl. rewrite Hx, Hr2o. split_and!; [done|done|constructor; eauto|done].
Qed.

Lemma chunks_concat fuel data :
  (length data <= fuel)%nat ->
  concat (chunks fuel data) = data /\ Forall (fun m => length m <= MAX_PLAINTEXT)%nat (chunks fuel data).
Proof.
  revert data. induction fuel as [|fuel IH]; intros data Hf.
  - by destruct data; simpl in *; [|lia].
  - destruct data as [|x data]; [done|]. cbn [chunks concat].
    destruct (IH (drop MAX_PLAINTEXT (x :: data))) as [E F].
    { rewrite length_drop. assert (0 < MAX_PLAINTEXT)%nat by (unfold MAX_PLAINTEXT; lia).
      cbn [length] in *. lia. }
    rewrite E, take_drop. split; [done|]. constructor; [|done]. rewrite length_take. lia.
Qed.

(** what one end writes is what the other reads.  All of [data] is split
    into messages, sealed, framed and sent; however the bytes arrive and
    however the reader's reads fall between, no read fails, the bytes read
    so far are a prefix of [data], a read reports the end only when all of
    it has been read, and once everything has arrived the next read
    returns. *)
Theorem noise_roundtrip c data c' wire evs xs r rest max :
  write_all c data = (c', wire, true) ->
  receive evs (received_new c) wire = (xs, r, rest) ->
  exists left, data = concat (map data_of xs) ++ left /\
    Forall (fun x => x = Wait \/ exists b, x = Data b) xs /\
    (Data [] ∈ xs -> left = []) /\
    (ended r = true -> exists b, (next (S max) r).2 = Data b /\ (b = [] -> left = [])).
Proof.
  intros Hw Hrcv. destruct (chunks_concat (length data) data (le_n _)) as [Hcc Hfit].
  assert (Rep (received_new c) wire (chunks (length data) data)) as Hr.
  { split; simpl; try done. by exists c'. }
  pose proof (receive_spec evs _ _ _ Hr) as Hs. rewrite Hrcv in Hs.
  destruct Hs as (ms & Hr' & Hout & Hall & Hend). unfold out in Hout at 1. simpl in Hout. rewrite Hcc in Hout.
  exists (out r ms). split_and!; try done. intros He.
  destruct (next (S max) r) as [r1 x] eqn:E. pose proof (next_found max r rest ms Hr') as Hf. rewrite E in Hf.
  inversion Hf as [r' ms1 b Hb Hr1 Hen Ho Hse|r' ms1 Hn Hr1 Hen Ho Hse|r' Hy Hr1 Hen Ho Ho' Hse]; subst; simpl; [|congruence|].
  - by exists b.
  - by exists [].
Qed.

End Aead.
(** ** An instance: a tag that is the nonce *)

Definition toy_tag (n : list Z) : list Z := take 16 (n ++ replicate 16 0).
Definition toy_seal (n p : list Z) : list Z := p ++ toy_tag n.
Definition toy_open (n c : list Z) : option (list Z) :=
  let k := (length c - 16)%nat in
  if bool_decide (drop k c = toy_tag n) then Some (take k c) else None.

Lemma toy_tag_length n : length (toy_tag n) = 16%nat.
Proof. unfold toy_tag. rewrite length_take, length_app, length_replicate. lia. Qed.

Lemma toy_open_seal n p : toy_open n (toy_seal n p) = Some p.
Proof.
  unfold toy_open, toy_seal. rewrite length_app, toy_tag_length.
  replace (length p + 16 - 16)%nat with (length p) by lia.
  rewrite drop_app_length, take_app_length. by rewrite bool_decide_eq_true_2.
Qed.

Lemma toy_seal_length n p : length (toy_seal n p) = (length p + TAG)%nat.
Proof. unfold toy_seal. by rewrite length_app, toy_tag_length. Qed.

Definition demo_cipher : CipherState := mkCipher 1 5.
Definition demo_wire : list Z := (write_all toy_seal demo_cipher [1; 2; 3]).1.2.
Definition demo_events : list Event := [Arrive 4; Read 1; Arrive 30; Read 1; Read 5; Arrive 0; Read 3].

Lemma noise_roundtrip_witness :
  exists left, [1; 2; 3] = concat (map data_of [Wait; Data [1; 2]; Data [3]; Data []]) ++ left /\
    (Data [] ∈ [Wait; Data [1; 2]; Data [3]; Data []] -> left = []).
Proof.
  destruct (noise_roundtrip toy_seal toy_open toy_open_seal toy_seal_length
    demo_cipher [1; 2; 3] (mkCipher 1 6) demo_wire demo_events [Wait; Data [1; 2]; Data [3]; Data []]
    (receive toy_open demo_events (received_new demo_cipher) demo_wire).1.2 [] 0)
    as (left & H1 & _ & H2 & _); [vm_compute; reflexivity|vm_compute; reflexivity|].
  by exists left.
Defined.

Lemma nonces_unique_witness : NoDup (nonces 3 (mkCipher 0 18446744073709551613)).
Proof. apply (nonces_unique 3 (mkCipher 0 18446744073709551613)). unfold U64_MAX. simpl. lia. Defined.

(** A message sealed under another nonce. *)
Definition demo_bad : Received := feed (frame (toy_seal [9] [1])) (received_new demo_cipher).

Lemma noise_failure_is_final_witness :
  next toy_open 4 (feed demo_wire (next toy_open 4 demo_bad).1) =
  (feed demo_wire (next toy_open 4 demo_bad).1, NotAuthentic).
Proof.
  apply (proj1 (noise_failure_is_final toy_open 4 demo_bad (next toy_open 4 demo_bad).1 eq_refl) [demo_wire] 4%nat).
Defined.

(** ** Releasing the read lock ([Reading]) *)

Section Reading.
Context {W : Type} `{WakeWorld W}.

(** [Reading::drop], after releasing the lock. *)
Definition reading_drop (idle : bool) (first : Z) (watchers : Waiters) (w : W) : Waiters * W :=
  if idle then wake_from first watchers w else wake_all watchers w.

(** [NoiseStream::watch]: [held]: another task has the read lock; [ready]:
    something is buffered or on the socket. *)
Definition watch (held ready : bool) (k : TaskWaker) (watchers : Waiters) : Waiters * option Z :=
  let '(ws, id) := add_waker k watchers in
  if held then (ws, Some id)
  else if ready then (remove id ws, None)
  else (ws, Some id).

(** Watchers come and go during a hold of the read lock. *)
Inductive during : Waiters -> Waiters -> Prop :=
  | d_refl ws : during ws ws
  | d_watch ws ws' held ready k : during ws ws' -> during ws (watch held ready k ws').1
  | d_unwatch ws ws' id : during ws ws' -> during ws (remove id ws').

Lemma watch_cases held ready k ws :
  (watch held ready k ws).1 = (add_waker k ws).1 \/
  (watch held ready k ws).1 = remove (Waiters.next ws + 1) (add_waker k ws).1.
Proof. unfold watch, add_waker. destruct held, ready; auto. Qed.

Lemma during_wf ws ws' : during ws ws' -> Wf ws -> Wf ws'.
Proof.
  induction 1 as [| |]; intros Hw; auto with roc.
  destruct (watch_cases held ready k ws') as [->| ->]; auto with roc.
Qed.

Lemma during_next ws ws' : during ws ws' -> Waiters.next ws <= Waiters.next ws'.
Proof.
  induction 1 as [| |]; [lia| |done].
  destruct (watch_cases held ready k ws') as [->| ->]; simpl; lia.
Qed.

(** Entries below the first id of the hold were there before it. *)
Lemma during_old ws ws' e :
  during ws ws' -> e ∈ entries ws' -> e.1 < next_id ws -> e ∈ entries ws.
Proof.
  assert (forall e id ws, e ∈ entries (remove id ws) -> e ∈ entries ws) as Hrem.
  { intros e0 id ws0. unfold remove. simpl. rewrite !list_elem_of_In. by intros [? _]%List.filter_In. }
  intros Hd. revert e. induction Hd as [ws|ws ws' held ready k Hd IH|ws ws' id Hd IH]; intros e He Hlt; [done| |eauto].
  assert (e ∈ entries (add_waker k ws').1) as He'.
  { destruct (watch_cases held ready k ws') as [E|E]; rewrite E in He; eauto. }
  simpl in He'. apply elem_of_app in He' as [He'|He']; [by apply IH|].
  apply list_elem_of_singleton in He'. subst e. simpl in Hlt.
  pose proof (during_next _ _ Hd). unfold next_id in Hlt. lia.
Qed.

Lemma keep_count_filter first ws :
  Wf ws -> take (keep_count first (entries ws)) (entries ws) = List.filter (fun e => e.1 <? first) (entries ws) /\
  drop (keep_count first (entries ws)) (entries ws) = List.filter (fun e => first <=? e.1) (entries ws).
Proof.
  intros Hw. destruct (keep_count_spec first 0 (entries ws) (wf_inc ws Hw)) as [Ht Hd].
  set (l1 := take _ _) in *. set (l2 := drop _ _) in *.
  assert (entries ws = l1 ++ l2) as E by (symmetry; apply take_drop).
  assert (forall (f : Z * TaskWaker -> bool) l, Forall (fun e => f e = true) l -> List.filter f l = l) as Hall.
  { intros f l H1. induction H1 as [|x l Hx _ IH]; simpl; [done|]. rewrite Hx. by f_equal. }
  assert (forall (f : Z * TaskWaker -> bool) l, Forall (fun e => f e = false) l -> List.filter f l = []) as Hno.
  { intros f l H1. induction H1 as [|x l Hx _ IH]; simpl; [done|]. by rewrite Hx. }
  rewrite E, !List.filter_app. split.
  - rewrite (Hall _ l1), (Hno _ l2), app_nil_r; [done|..].
    + eapply Forall_impl; [exact Hd|]. intros e He. simpl in *. by apply Z.ltb_ge.
    + eapply Forall_impl; [exact Ht|]. intros e He. simpl in *. by apply Z.ltb_lt.
  - rewrite (Hno _ l1), (Hall _ l2); [done|..].
    + eapply Forall_impl; [exact Hd|]. intros e He. simpl in *. by apply Z.leb_le.
    + eapply Forall_impl; [exact Ht|]. intros e He. simpl in *. by apply Z.leb_gt.
Qed.

(** releasing the read lock after a hold that found nothing wakes exactly
    the [Select]s that began watching during the hold, and keeps every
    earlier one (which looked at the socket itself) waiting; releasing it
    otherwise wakes them all. *)
Theorem idle_release_wakes_newcomers (ws ws' : Waiters) (w : W) :
  Wf ws -> during ws ws' ->
  entries (reading_drop true (next_id ws) ws' w).1 = List.filter (fun e => e.1 <? next_id ws) (entries ws') /\
  (reading_drop true (next_id ws) ws' w).2 =
    wake_list (List.filter (fun e => next_id ws <=? e.1) (entries ws')) w /\
  (forall e, e ∈ entries (reading_drop true (next_id ws) ws' w).1 -> e ∈ entries ws) /\
  entries (reading_drop false (next_id ws) ws' w).1 = [] /\
  (reading_drop false (next_id ws) ws' w).2 = wake_list (entries ws') w.
Proof.
  intros Hw Hd. destruct (keep_count_filter (next_id ws) ws' (during_wf _ _ Hd Hw)) as [Ht Hdr].
  unfold reading_drop, wake_from. simpl. rewrite Ht, Hdr. split_and!; try done.
  intros e He. apply list_elem_of_In, List.filter_In in He as [Hin Hlt%Z.ltb_lt].
  by apply (during_old ws ws'); [|apply list_elem_of_In|].
Qed.

End Reading.

(** A world where waking is only recorded. *)
#[local] Instance recorded : WakeWorld (list TaskWaker) := {
  is_open _ _ := true;
  wake k w := (w ++ [k], true);
}.

Lemma idle_release_wakes_newcomers_witness :
  let ws := (add_waker (WTask 1 10) Waiters_new).1 in
  let ws' := (watch true false (WTask 2 11) ws).1 in
  entries (reading_drop true (next_id ws) ws' ([] : list TaskWaker)).1 = [(1, WTask 1 10)] /\
  (reading_drop true (next_id ws) ws' ([] : list TaskWaker)).2 = [WTask 2 11].
Proof.
  intros ws ws'.
  destruct (idle_release_wakes_newcomers ws ws' ([] : list TaskWaker)) as (H1 & H2 & _).
  - apply add_waker_wf, Waiters_new_wf.
  - apply d_watch, d_refl.
  - split; [exact H1|exact H2].
Defined.

End Noise.
