(* ===== verification/LogTime.v ===== *)
(** * Timestamps of log lines ([src/log.rs])

    [rfc3339_millis] and the calendar arithmetic under it, against the
    Gregorian calendar by its rules: leap years, lengths of months, and days
    counted from 0001-01-01. *)
From S2P Require Import Prelude.
Local Open Scope Z_scope.

Module LogTime.

(** [civil_from_days]: year, month and day. *)
Definition civil_from_days (days : Z) : Z * Z * Z :=
  let z := days + 719468 in
  let era := z / 146097 in
  let doe := z mod 146097 in
  let yoe := (doe - doe / 1460 + doe / 36524 - doe / 146096) / 365 in
  let doy := doe - (365 * yoe + yoe / 4 - yoe / 100) in
  let mp := (5 * doy + 2) / 153 in
  let day := doy - (153 * mp + 2) / 5 + 1 in
  let month := if mp <? 10 then mp + 3 else mp - 9 in
  (yoe + era * 400 + (if month <=? 2 then 1 else 0), month, day).

(** ** The calendar *)

Definition leap (y : Z) : bool := ((y mod 4 =? 0) && negb (y mod 100 =? 0)) || (y mod 400 =? 0).

(** The length of month [m] in a year that is a leap year or not. *)
Definition month_length (lp : bool) (m : Z) : Z :=
  if m =? 2 then if lp then 29 else 28
  else if (m =? 4) || (m =? 6) || (m =? 9) || (m =? 11) then 30 else 31.

Definition months_length (lp : bool) (m : Z) : Z :=
  foldr Z.add 0 (map (fun k => month_length lp (Z.of_nat k)) (seq 1 (Z.to_nat (m - 1)))).

Definition days_in_month (y m : Z) : Z := month_length (leap y) m.

(** Days of the months before [m] in year [y]. *)
Definition days_before_month (y m : Z) : Z := months_length (leap y) m.

(** Days of the years before [y], from year 1 on. *)
Definition days_before_year (y : Z) : Z := 365 * (y - 1) + (y - 1) / 4 - (y - 1) / 100 + (y - 1) / 400.

(** Days from 0001-01-01 to 1970-01-01. *)
Definition EPOCH : Z := 719162.

(** The number of a date, in days from 1970-01-01. *)
Definition day_number (y m d : Z) : Z := days_before_year y + days_before_month y m + (d - 1) - EPOCH.

Definition valid_date (y m d : Z) : bool :=
  (1 <=? m) && (m <=? 12) && (1 <=? d) && (d <=? days_in_month y m).

(** [days_before_year] steps by the length of each year. *)
Lemma days_before_year_step y : days_before_year (y + 1) = days_before_year y + (if leap y then 366 else 365).
Proof.
  unfold days_before_year, leap. replace (y + 1 - 1) with y by lia.
  assert (forall k, 0 < k -> y / k = (y - 1) / k + (if y mod k =? 0 then 1 else 0)) as Hstep.
  { intros k Hk. destruct (Z.eqb_spec (y mod k) 0) as [E|E].
    - assert (y = k * (y / k)) as Hy by (pose proof (Z.div_mod y k ltac:(lia)); lia).
      assert (y - 1 = (k - 1) + (y / k - 1) * k) as -> by lia.
      rewrite Z.div_add, (Z.div_small (k - 1)) by lia. lia.
    - pose proof (Z.mod_pos_bound y k Hk). pose proof (Z.div_mod y k ltac:(lia)).
      assert (y - 1 = (y mod k - 1) + (y / k) * k) as -> by lia.
      rewrite Z.div_add, (Z.div_small (_ - 1)) by lia. lia. }
  rewrite (Hstep 4), (Hstep 100), (Hstep 400) by lia.
  assert (y mod 400 = 0 -> y mod 100 = 0) as H400.
  { intros H. apply Z.mod_divide in H as [q ->]; [|lia]. replace (q * 400) with (q * 4 * 100) by lia.
    apply Z.mod_mul. lia. }
  assert (y mod 100 = 0 -> y mod 4 = 0) as H100.
  { intros H. apply Z.mod_divide in H as [q ->]; [|lia]. replace (q * 100) with (q * 25 * 4) by lia.
    apply Z.mod_mul. lia. }
  destruct (Z.eqb_spec (y mod 4) 0), (Z.eqb_spec (y mod 100) 0), (Z.eqb_spec (y mod 400) 0); simpl; lia.
Qed.

(** ** One era of 400 years

    Years here begin on March 1st.  [yoe] is the year of a day of the era:
    it goes up with the day, so checking it at both ends of each of the 400
    years is enough. *)

Definition yoe (doe : Z) : Z := (doe - doe / 1460 + doe / 36524 - doe / 146096) / 365.

(** The first day of a year of the era, and the year's length. *)
Definition year_start (y : Z) : Z := 365 * y + y / 4 - y / 100.
Definition year_length (y : Z) : Z := if leap (y + 1) then 366 else 365.

Lemma yoe_mono a b : 0 <= a <= b -> b <= 146096 -> yoe a <= yoe b.
Proof.
  intros H1 H2. unfold yoe. apply Z.div_le_mono; [lia|].
  pose proof (Z.div_mod a 1460 ltac:(lia)). pose proof (Z.mod_pos_bound a 1460 ltac:(lia)).
  pose proof (Z.div_mod b 1460 ltac:(lia)). pose proof (Z.mod_pos_bound b 1460 ltac:(lia)).
  assert (a / 36524 <= b / 36524) by (apply Z.div_le_mono; lia).
  destruct (Z.eq_dec b 146096) as [->|Hb]; [destruct (Z.eq_dec a 146096) as [->|Ha]; [lia|]|].
  - rewrite (Z.div_small a 146096) by lia. change (146096 / 146096) with 1.
    change (146096 / 36524) with 4 in *. change (146096 / 1460) with 100 in *.
    assert (a / 36524 < 4) by (apply Z.div_lt_upper_bound; lia). lia.
  - rewrite !(Z.div_small _ 146096) by lia. lia.
Qed.

Definition year_ok (y : Z) : bool :=
  (yoe (year_start y) =? y) && (yoe (year_start y + year_length y - 1) =? y) &&
  (year_start y + year_length y =? (if y =? 399 then 146097 else year_start (y + 1))).

Lemma years_checked : forallb (fun k => year_ok (Z.of_nat k)) (seq 0 400) = true.
Proof. vm_compute. reflexivity. Qed.

Lemma year_ok_spec y : 0 <= y < 400 -> year_ok y = true.
Proof.
  intros Hy. pose proof years_checked as H. rewrite forallb_forall in H.
  specialize (H (Z.to_nat y)). rewrite Z2Nat.id in H by lia. apply H. apply List.in_seq. lia.
Qed.

(** Every day of the era is in one of its years. *)
Lemma year_of_day doe n :
  0 <= doe -> (n <= 400)%nat -> doe < (if decide (n = 400%nat) then 146097 else year_start (Z.of_nat n)) ->
  exists y, 0 <= y < 400 /\ year_start y <= doe < year_start y + year_length y.
Proof.
  intros Hd. induction n as [|n IH]; intros Hn Hlt.
  - change (year_start (Z.of_nat 0)) with 0 in Hlt. case_decide; lia.
  - pose proof (year_ok_spec (Z.of_nat n) ltac:(lia)) as Hok. unfold year_ok in Hok.
    apply andb_true_iff in Hok as [_ Hend%Z.eqb_eq].
    destruct (Z.ltb_spec doe (year_start (Z.of_nat n))) as [Hl|Hge].
    + apply IH; [lia|]. destruct (decide (n = 400%nat)); [lia|done].
    + exists (Z.of_nat n). split; [lia|]. split; [done|]. rewrite Hend.
      replace (Z.of_nat n + 1) with (Z.of_nat (S n)) by lia.
      destruct (Z.eqb_spec (Z.of_nat n) 399), (decide (S n = 400%nat)); done || lia.
Qed.

Lemma yoe_year doe y :
  0 <= y < 400 -> year_start y <= doe < year_start y + year_length y -> 0 <= year_start y -> doe <= 146096 ->
  yoe doe = y.
Proof.
  intros Hy Hd Hs Hm. pose proof (year_ok_spec y Hy) as Hok. unfold year_ok in Hok.
  apply andb_true_iff in Hok as [Hok Hend%Z.eqb_eq]. apply andb_true_iff in Hok as [H1%Z.eqb_eq H2%Z.eqb_eq].
  assert (year_start y + year_length y <= 146097) as Hle.
  { rewrite Hend. destruct (Z.eqb_spec y 399); [lia|]. unfold year_start.
    pose proof (Z.div_mod (y + 1) 4 ltac:(lia)). pose proof (Z.mod_pos_bound (y + 1) 4 ltac:(lia)).
    assert (0 <= (y + 1) / 100) by (apply Z.div_pos; lia). lia. }
  pose proof (yoe_mono (year_start y) doe ltac:(lia) ltac:(lia)).
  pose proof (yoe_mono doe (year_start y + year_length y - 1) ltac:(lia) ltac:(lia)). lia.
Qed.

(** The month and day of the [doy]-th day from March 1st, in a year whose
    January and February ([doy] 306 on) are of a leap year or not. *)
Definition month_day (doy : Z) : Z * Z :=
  let mp := (5 * doy + 2) / 153 in
  (if mp <? 10 then mp + 3 else mp - 9, doy - (153 * mp + 2) / 5 + 1).

Definition day_ok (lp : bool) (doy : Z) : bool :=
  let '(m, d) := month_day doy in
  (1 <=? m) && (m <=? 12) && (1 <=? d) && (d <=? month_length lp m) &&
  (months_length lp m + (d - 1) =? (if m <=? 2 then doy - 306 else doy + 59 + (if lp then 1 else 0))).

Lemma days_checked :
  forallb (fun k => day_ok true (Z.of_nat k)) (seq 0 366) &&
  forallb (fun k => day_ok false (Z.of_nat k)) (seq 0 365) = true.
Proof. vm_compute. reflexivity. Qed.

Lemma day_ok_spec (lp : bool) doy : 0 <= doy < (if lp then 366 else 365) -> day_ok lp doy = true.
Proof.
  intros Hd. pose proof days_checked as H. apply andb_true_iff in H as [Ht Hf].
  rewrite forallb_forall in Ht, Hf. specialize (Ht (Z.to_nat doy)). specialize (Hf (Z.to_nat doy)).
  rewrite Z2Nat.id in Ht, Hf by (destruct lp; lia).
  destruct lp; [apply Ht|apply Hf]; apply List.in_seq; lia.
Qed.

(** Before January only March to December matter, which are the same in
    every year. *)
Lemma day_ok_either lp doy : 0 <= doy < 306 -> day_ok lp doy = true.
Proof. intros H. apply day_ok_spec. destruct lp; lia. Qed.

Lemma month_day_jan doy : 0 <= doy < 366 -> ((month_day doy).1 <=? 2) = (306 <=? doy).
Proof.
  intros H. unfold month_day. simpl.
  pose proof (Z.div_mod (5 * doy + 2) 153 ltac:(lia)). pose proof (Z.mod_pos_bound (5 * doy + 2) 153 ltac:(lia)).
  set (mp := (5 * doy + 2) / 153) in *.
  destruct (Z.ltb_spec mp 10), (Z.leb_spec 306 doy); [|apply Z.leb_gt|apply Z.leb_le|]; lia.
Qed.

(** ** Every day *)

Lemma civil_shift d k :
  civil_from_days (d + k * 146097) = let '(y, m, dd) := civil_from_days d in (y + k * 400, m, dd).
Proof.
  unfold civil_from_days. replace (d + k * 146097 + 719468) with (d + 719468 + k * 146097) by lia.
  rewrite Z.div_add, Z_mod_plus_full by lia. cbv zeta. f_equal. f_equal. lia.
Qed.

Lemma leap_shift y k : leap (y + k * 400) = leap y.
Proof.
  unfold leap. replace (y + k * 400) with (y + k * 100 * 4) at 1 by lia. rewrite Z_mod_plus_full.
  replace (y + k * 400) with (y + k * 4 * 100) at 1 by lia. rewrite Z_mod_plus_full. by rewrite Z_mod_plus_full.
Qed.

Lemma day_number_shift y m d k : day_number (y + k * 400) m d = day_number y m d + k * 146097.
Proof.
  unfold day_number. assert (days_before_month (y + k * 400) m = days_before_month y m) as ->.
  { unfold days_before_month. by rewrite leap_shift. }
  unfold days_before_year. replace (y + k * 400 - 1) with (y - 1 + k * 400) by lia.
  replace (y - 1 + k * 400) with (y - 1 + k * 100 * 4) at 2 by lia. rewrite Z.div_add by lia.
  replace (y - 1 + k * 400) with (y - 1 + k * 4 * 100) at 2 by lia. rewrite Z.div_add by lia.
  rewrite Z.div_add by lia. lia.
Qed.

Lemma civil_of_era doe y m d :
  0 <= doe < 146097 -> civil_from_days (doe - 719468) = (y, m, d) ->
  valid_date y m d = true /\ day_number y m d = doe - 719468.
Proof.
  intros Hd Hc. destruct (year_of_day doe 400 ltac:(lia) ltac:(lia) ltac:(simpl; lia)) as (y0 & Hy0 & Hy).
  assert (0 <= year_start y0) as Hs0.
  { unfold year_start. pose proof (Z.div_pos y0 4 ltac:(lia) ltac:(lia)).
    pose proof (Z.div_le_upper_bound y0 100 y0 ltac:(lia) ltac:(lia)). lia. }
  pose proof (yoe_year doe y0 Hy0 Hy Hs0 ltac:(lia)) as Ey.
  unfold civil_from_days in Hc. replace (doe - 719468 + 719468) with doe in Hc by lia.
  rewrite (Z.div_small doe), (Z.mod_small doe) in Hc by lia. cbv zeta in Hc. fold (yoe doe) in Hc. rewrite Ey in Hc.
  fold (year_start y0) in Hc. set (doy := doe - year_start y0) in *.
  assert (0 <= doy < year_length y0) as Hdoy by (unfold doy; lia).
  assert (doy < 366) as Hdoy2 by (unfold year_length in Hdoy; case_match; lia).
  pose proof (month_day_jan doy ltac:(lia)) as Hjan.
  assert (days_before_year (y0 + 1) = year_start y0) as Hby.
  { unfold days_before_year, year_start. replace (y0 + 1 - 1) with y0 by lia. rewrite (Z.div_small y0 400) by lia. lia. }
  pose proof (days_before_year_step y0) as Hstep.
  unfold month_day in Hjan. simpl in Hjan.
  injection Hc as Ey1 Em Ed. rewrite Em in Ey1, Hjan.
  assert (month_day doy = (m, d)) as Emd by (unfold month_day; by rewrite Em, Ed).
  rewrite Hjan in Ey1. unfold valid_date, day_number, days_in_month, days_before_month.
  destruct (Z.leb_spec 306 doy) as [Hge|Hlt].
  - pose proof (day_ok_spec (leap (y0 + 1)) doy) as Hok. unfold year_length in Hdoy. specialize (Hok Hdoy).
    unfold day_ok in Hok. rewrite Emd, Hjan in Hok. replace y with (y0 + 1) by lia.
    apply andb_true_iff in Hok as [Hv Hn%Z.eqb_eq]. split; [done|]. unfold EPOCH, doy in *. lia.
  - pose proof (day_ok_either (leap y0) doy ltac:(lia)) as Hok.
    unfold day_ok in Hok. rewrite Emd, Hjan in Hok. replace y with y0 by lia.
    apply andb_true_iff in Hok as [Hv Hn%Z.eqb_eq]. split; [done|]. unfold EPOCH, doy in *.
    destruct (leap y0); lia.
Qed.

Lemma civil_correct days y m d :
  civil_from_days days = (y, m, d) -> valid_date y m d = true /\ day_number y m d = days.
Proof.
  set (k := (days + 719468) / 146097). set (doe := (days + 719468) mod 146097).
  assert (days = (doe - 719468) + k * 146097) as E
    by (pose proof (Z.div_mod (days + 719468) 146097 ltac:(lia)); unfold k, doe; lia).
  assert (0 <= doe < 146097) as Hdoe by (apply Z.mod_pos_bound; lia).
  rewrite E, civil_shift. destruct (civil_from_days (doe - 719468)) as [[y0 m0] d0] eqn:Ec.
  destruct (civil_of_era doe y0 m0 d0 Hdoe Ec) as [Hv Hn]. intros [= <- <- <-]. split.
  - unfold valid_date, days_in_month in *. by rewrite leap_shift.
  - rewrite day_number_shift, Hn. lia.
Qed.

(** The numbers [rfc3339_millis] prints: year, month, day, hours, minutes,
    seconds and milliseconds. *)
Definition rfc3339_fields (ms : Z) : Z * Z * Z * (Z * Z * Z * Z) :=
  let days := ms / 86400000 in
  let of_day := ms mod 86400000 in
  (civil_from_days days, (of_day / 3600000, of_day / 60000 mod 60, of_day / 1000 mod 60, of_day mod 1000)).

(** log timestamps are right: for every moment, before or after 1970, the
    date printed exists in the Gregorian calendar (leap years included), the
    time of day is in range, and together they are exactly that many
    milliseconds from 1970-01-01T00:00:00. *)
Theorem timestamp_correct ms y m d h mi s frac :
  rfc3339_fields ms = (y, m, d, (h, mi, s, frac)) ->
  valid_date y m d = true /\ 0 <= h < 24 /\ 0 <= mi < 60 /\ 0 <= s < 60 /\ 0 <= frac < 1000 /\
  day_number y m d * 86400000 + h * 3600000 + mi * 60000 + s * 1000 + frac = ms.
Proof.
  unfold rfc3339_fields. destruct (civil_from_days (ms / 86400000)) as [[y0 m0] d0] eqn:E.
  intros [= <- <- <- <- <- <- <-]. destruct (civil_correct _ _ _ _ E) as [Hv ->].
  pose proof (Z.div_mod ms 86400000 ltac:(lia)). pose proof (Z.mod_pos_bound ms 86400000 ltac:(lia)).
  set (t := ms mod 86400000) in *. split; [done|].
  assert (t / 60000 = t / 1000 / 60) as -> by (rewrite Z.div_div by lia; done).
  assert (t / 3600000 = t / 1000 / 60 / 60) as -> by (rewrite !Z.div_div by lia; done).
  pose proof (Z.div_mod t 1000 ltac:(lia)). pose proof (Z.mod_pos_bound t 1000 ltac:(lia)).
  set (t1 := t / 1000) in *.
  pose proof (Z.div_mod t1 60 ltac:(lia)). pose proof (Z.mod_pos_bound t1 60 ltac:(lia)).
  set (t2 := t1 / 60) in *.
  pose proof (Z.div_mod t2 60 ltac:(lia)). pose proof (Z.mod_pos_bound t2 60 ltac:(lia)).
  split_and!; lia.
Qed.

Lemma timestamp_correct_witness :
  valid_date 1969 12 31 = true /\ day_number 1969 12 31 * 86400000 + 23 * 3600000 + 59 * 60000 + 59 * 1000 + 999 = -1.
Proof.
  destruct (timestamp_correct (-1) 1969 12 31 23 59 59 999) as (H1 & _ & _ & _ & _ & H2); [reflexivity|].
  split; [exact H1|exact H2].
Defined.

End LogTime.
