(* ===== verification/LogQueue.v ===== *)
(** * The log's queue and its writer thread ([src/log.rs])

    [push] by any task, the writer's critical section, and [flush].  Lines
    are byte strings.  Which lines were logged, written and dropped is kept
    alongside, so that the theorems can account for every one of them. *)
From S2P Require Import Prelude.

Module LogQueue.

(** [Queue] *)
Record Queue := mkQueue {
  lines : list (list Z);
  queued : nat;
  in_flight : nat;
  dropped : nat;
  writing : bool;
  sleeping : bool;
}.

(** The writer: looking at the queue under its lock (about to take a batch or
    wait); waiting on [ready]; or writing a batch. *)
Inductive Writer := Looking | Waiting (notified : bool) | WritingBatch (batch : list (list Z)) (reported : nat).

Record Sys := mkSys {
  queue : Queue;
  wpc : Writer;
  logged : list (list Z);
  written : list (list Z);
  lost : list (list Z);
  told : nat;
}.

Definition sys_new : Sys := mkSys (mkQueue [] 0 0 0 false false) Looking [] [] [] 0.

(** [while queue.queued + queue.in_flight > cap && queue.lines.len() > 1]:
    what is kept, what of it is queued bytes, and what was dropped. *)
Fixpoint shed (cap in_flight : nat) (l : list (list Z)) (q : nat) : list (list Z) * nat * list (list Z) :=
  match l with
  | oldest :: (_ :: _) as l' =>
      if (cap <? q + in_flight)%nat
      then let '(l2, q2, gone) := shed cap in_flight l' (q - length oldest) in (l2, q2, oldest :: gone)
      else (l, q, [])
  | _ => (l, q, [])
  end.

(** [push], including waking the writer. *)
Definition push (cap : nat) (line : list Z) (s : Sys) : Sys :=
  let q := queue s in
  let '(l, n, gone) := shed cap (in_flight q) (lines q ++ [line]) (queued q + length line) in
  mkSys (mkQueue l n (in_flight q) (dropped q + length gone) (writing q) false)
        (match wpc s with Waiting b => Waiting (b || sleeping q) | w => w end)
        (logged s ++ [line]) (written s) (lost s ++ gone) (told s).

(** [(log_buffer_bytes() / 16).max(4096)] *)
Definition batch_max (cap : nat) : nat := Nat.max (cap / 16) 4096.

(** The lines of a batch: while there is one, unless the batch is non-empty
    and it would exceed [max]. *)
Fixpoint take_batch (max : nat) (l : list (list Z)) (taken : list (list Z)) (bytes : nat)
  : list (list Z) * nat * list (list Z) :=
  match l with
  | line :: l' =>
      if negb (bool_decide (taken = [])) && (max <? bytes + length line)%nat then (taken, bytes, l)
      else take_batch max l' (taken ++ [line]) (bytes + length line)
  | [] => (taken, bytes, [])
  end.

(** The writer's critical section: wait if there is nothing to write or
    report, else take a batch. *)
Definition writer_look (cap : nat) (s : Sys) : Sys :=
  let q := queue s in
  if bool_decide (lines q = []) && (dropped q =? 0)%nat then
    mkSys (mkQueue (lines q) (queued q) 0 (dropped q) false true) (Waiting false)
          (logged s) (written s) (lost s) (told s)
  else
    let '(taken, bytes, l) := take_batch (batch_max cap) (lines q) [] 0 in
    mkSys (mkQueue l (queued q - bytes) bytes 0 true false) (WritingBatch taken (dropped q))
          (logged s) (written s) (lost s) (told s).

(** Woken from [ready.wait] (or resumed for no reason): the loop looks
    again. *)
Definition writer_wake (s : Sys) : Sys :=
  mkSys (queue s) Looking (logged s) (written s) (lost s) (told s).

(** The batch is written: the report of dropped lines, if any, then the
    lines. *)
Definition writer_done (s : Sys) : Sys :=
  match wpc s with
  | WritingBatch batch reported =>
      mkSys (queue s) Looking (logged s) (written s ++ batch) (lost s) (told s + reported)
  | _ => s
  end.

(** [flush]'s condition for returning before its timeout. *)
Definition flushed (s : Sys) : bool :=
  bool_decide (lines (queue s) = []) && (dropped (queue s) =? 0)%nat && negb (writing (queue s)).

Inductive step (cap : nat) : Sys -> Sys -> Prop :=
  | l_push s line : step cap s (push cap line s)
  | l_look s : wpc s = Looking -> step cap s (writer_look cap s)
  | l_wake s b : wpc s = Waiting b -> step cap s (writer_wake s)
  | l_done s batch n : wpc s = WritingBatch batch n -> step cap s (writer_done s).

Definition reachable (cap : nat) (s : Sys) : Prop := rtc (step cap) sys_new s.

(** ** Facts *)

Definition bytes (l : list (list Z)) : nat := sum_list_with length l.

Lemma shed_spec cap fl l q l' q' gone :
  shed cap fl l q = (l', q', gone) -> q = bytes l ->
  l = gone ++ l' /\ q' = bytes l' /\ (l <> [] -> l' <> []) /\
  ((q' + fl <= cap)%nat \/ (length l' <= 1)%nat) /\ (gone = [] \/ cap < q + fl)%nat.
Proof.
  revert q l' q' gone. induction l as [|o l IH]; intros q l' q' gone; simpl.
  - intros [= <- <- <-] ->. split_and!; auto with lia.
  - destruct l as [|o2 l]; [intros [= <- <- <-] ->; split_and!; simpl; auto with lia|].
    destruct (Nat.ltb_spec cap (q + fl)) as [Hlt|Hge].
    + destruct (shed cap fl (o2 :: l) (q - length o)) as [[l2 q2] g2] eqn:E. intros [= <- <- <-] ->.
      destruct (IH _ _ _ _ E ltac:(simpl; lia)) as (Hl & Hq & Hn & Hor & _).
      split_and!; [by rewrite Hl|done|auto|done|auto].
    + intros [= <- <- <-] ->. split_and!; auto with lia.
Qed.

Lemma bytes_app l l' : bytes (l ++ l') = (bytes l + bytes l')%nat.
Proof. unfold bytes. induction l; simpl; lia. Qed.

Lemma take_batch_spec max l taken b taken' b' rest :
  take_batch max l taken b = (taken', b', rest) ->
  exists new, l = new ++ rest /\ taken' = taken ++ new /\ b' = (b + bytes new)%nat /\
    (taken = [] -> l <> [] -> new <> []) /\
    (taken <> [] -> (max < b)%nat -> new = []) /\
    ((b <= max)%nat -> (b' <= max)%nat \/ (taken = [] /\ length new = 1%nat)).
Proof.
  revert taken b. induction l as [|line l IH]; intros taken b; simpl.
  - intros [= <- <- <-]. exists []. rewrite !app_nil_r. split_and!; simpl; auto with lia.
  - destruct (bool_decide_reflect (taken = [])) as [->|Hne]; simpl.
    + intros H. destruct (IH _ _ H) as (new & -> & -> & -> & _ & Hstop & Hmax). exists (line :: new).
      split_and!; [done|done|simpl; lia|done|done|]. intros _. simpl in *.
      destruct (Nat.le_gt_cases (b + length line) max) as [Hle|Hgt].
      * destruct (Hmax Hle) as [?|[? _]]; [left; lia|done].
      * right. by rewrite (Hstop ltac:(done) Hgt).
    + destruct (Nat.ltb_spec max (b + length line)) as [Hlt|Hge].
      * intros [= <- <- <-]. exists []. rewrite !app_nil_r. split_and!; simpl; auto with lia.
      * intros H. destruct (IH _ _ H) as (new & -> & -> & -> & _ & Hstop & Hmax). exists (line :: new).
        rewrite <- app_assoc. split_and!; [done|done|simpl; lia|done|intros _; lia|]. intros _. simpl.
        destruct (Hmax Hge) as [?|[[? _]%app_nil _]]; [left; lia|done].
Qed.

(** A batch being written. *)
Definition batch_of (w : Writer) : list (list Z) := match w with WritingBatch b _ => b | _ => [] end.
Definition report_of (w : Writer) : nat := match w with WritingBatch _ n => n | _ => 0 end.

Record Inv (cap : nat) (s : Sys) : Prop := {
  (** The count of queued bytes is right. *)
  q_bytes : queued (queue s) = bytes (lines (queue s));
  (** Every line is written, being written, queued, or dropped, each in the
      order logged; and every dropped line is reported or to be reported. *)
  q_lines : Permutation (logged s) (written s ++ lost s ++ batch_of (wpc s) ++ lines (queue s));
  q_kept : exists kept, sublist kept (logged s) /\ kept = written s ++ batch_of (wpc s) ++ lines (queue s);
  q_lost : length (lost s) = (told s + report_of (wpc s) + dropped (queue s))%nat;
  (** Memory: within the cap, or a single line is queued. *)
  q_cap : (queued (queue s) + in_flight (queue s) <= cap)%nat \/ (length (lines (queue s)) <= 1)%nat;
  (** The writer's flags, and that it isn't left waiting. *)
  q_writing : match wpc s with
              | WritingBatch b _ => writing (queue s) = true /\ in_flight (queue s) = bytes b /\
                                    ((bytes b <= batch_max cap)%nat \/ length b = 1%nat)
              | Waiting n => writing (queue s) = false /\ in_flight (queue s) = 0%nat /\
                             (n = true \/ (sleeping (queue s) = true /\ lines (queue s) = [] /\ dropped (queue s) = 0%nat))
              | Looking => True
              end;
}.

Lemma push_inv cap line s : Inv cap s -> Inv cap (push cap line s).
Proof.
  intros [Hb Hl (kept & Hs & Hk) Hd Hc Hw]. unfold push.
  destruct (shed cap _ _ _) as [[l n] gone] eqn:E. apply shed_spec in E as (Hsplit & Hn & Hne & Hcap & Hgone);
    [|rewrite bytes_app, Hb; simpl; lia].
  split; simpl.
  - done.
  - rewrite Hl. destruct (wpc s) as [|b|b r]; simpl;
      rewrite <- ?app_assoc, Hsplit; rewrite ?(assoc (++) gone); solve_Permutation.
  - eexists. split; [|reflexivity]. subst kept.
    etrans; [|apply sublist_app; [exact Hs|reflexivity]].
    rewrite <- !app_assoc, Hsplit.
    assert (batch_of (match wpc s with Waiting b => Waiting (b || sleeping (queue s)) | w => w end) = batch_of (wpc s)) as ->
      by by destruct (wpc s).
    do 2 (apply sublist_app; [done|]). by apply sublist_inserts_l.
  - rewrite length_app, Hd. destruct (wpc s); simpl; lia.
  - done.
  - destruct (wpc s) as [|b|b r]; simpl; [done| |done].
    destruct Hw as (-> & -> & Hor). split_and!; [done..|]. left.
    destruct Hor as [->|[-> _]]; [done|apply orb_true_r].
Qed.

Lemma look_inv cap s : Inv cap s -> wpc s = Looking -> Inv cap (writer_look cap s).
Proof.
  intros [Hb Hl (kept & Hs & Hk) Hd Hc Hw] Hpc. unfold writer_look. rewrite Hpc in *.
  destruct (bool_decide_reflect (lines (queue s) = [])) as [He|He]; simpl.
  - destruct (Nat.eqb_spec (dropped (queue s)) 0) as [H0|H0].
    + rewrite He in *. split; simpl; auto; [eauto|]. split_and!; auto.
    + rewrite He in *. simpl in *. split; simpl; [lia|done|eauto|lia|lia|]. split_and!; auto with lia.
  - destruct (take_batch _ _ _ _) as [[taken b] rest] eqn:E.
    apply take_batch_spec in E as (new & Hnew & -> & -> & _ & _ & Hmax). simpl in *. rewrite Hnew in *.
    rewrite bytes_app in Hb. split; simpl.
    + lia.
    + done.
    + by exists kept.
    + lia.
    + rewrite length_app in Hc. destruct Hc; [left|right]; lia.
    + split_and!; [done..|]. destruct (Hmax ltac:(lia)) as [?|[_ ?]]; auto.
Qed.

Lemma log_reachable_inv cap s : reachable cap s -> Inv cap s.
Proof.
  intros H. refine (rtc_invariant (step cap) (Inv cap) _ _ _ H _).
  - intros x y HI Hstep. destruct Hstep as [s0 line|s0 Hpc|s0 b Hpc|s0 batch n Hpc].
    + by apply push_inv.
    + by apply look_inv.
    + destruct HI as [Hb Hl Hk Hd Hc Hw]. rewrite Hpc in *. split; simpl in *; auto; lia.
    + destruct HI as [Hb Hl (kept & Hs & ->) Hd Hc Hw]. unfold writer_done. rewrite Hpc in *. simpl in *.
      split; simpl; auto.
      * rewrite Hl. solve_Permutation.
      * eexists. split; [exact Hs|]. by rewrite app_assoc.
      * lia.
  - split; simpl; auto with lia. exists []. by split.
Qed.

(** No log line is lost without a trace: in every reachable state each line
    logged has been written, is in the batch being written, is queued, or was
    dropped; those not dropped are in the order logged; and the dropped lines
    are as many as have been reported, are in the report being written, or
    are still to be reported.  When [flush] finds its condition, every line
    has been written or is among the reported drops. *)
Theorem log_lines_accounted (cap : nat) (s : Sys) :
  reachable cap s ->
  Permutation (logged s) (written s ++ lost s ++ batch_of (wpc s) ++ lines (queue s)) /\
  sublist (written s ++ batch_of (wpc s) ++ lines (queue s)) (logged s) /\
  length (lost s) = (told s + report_of (wpc s) + dropped (queue s))%nat /\
  (flushed s = true -> Permutation (logged s) (written s ++ lost s) /\ length (lost s) = told s).
Proof.
  intros [_ Hl (kept & Hs & ->) Hd _ Hw]%log_reachable_inv. split_and!; [done..|].
  unfold flushed. intros [[He H0%Nat.eqb_eq]%andb_true_iff Hf]%andb_true_iff.
  apply bool_decide_eq_true in He. rewrite He, H0 in *.
  destruct (wpc s) as [|b|b n]; simpl in *; [| |by destruct Hw as (Hwr & _); rewrite Hwr in Hf];
    rewrite app_nil_r in Hl; auto with lia.
Qed.

(** The log's memory is bounded and its writer is not left asleep: queued
    and in-flight bytes are within the cap unless a single line is queued;
    the batch being written is counted as in flight, and is within its own
    maximum unless it is a single line; and a writer waiting with no
    notification on its way has nothing to write and no drop to report. *)
Theorem log_bounded_and_awake (cap : nat) (s : Sys) :
  reachable cap s ->
  ((queued (queue s) + in_flight (queue s) <= cap)%nat \/ (length (lines (queue s)) <= 1)%nat) /\
  queued (queue s) = bytes (lines (queue s)) /\
  (forall b n, wpc s = WritingBatch b n ->
     in_flight (queue s) = bytes b /\ ((bytes b <= batch_max cap)%nat \/ length b = 1%nat)) /\
  (wpc s = Waiting false -> lines (queue s) = [] /\ dropped (queue s) = 0%nat).
Proof.
  intros [Hb _ _ _ Hc Hw]%log_reachable_inv. split_and!; [done..| |].
  - intros b n Hpc. rewrite Hpc in Hw. tauto.
  - intros Hpc. rewrite Hpc in Hw. destruct Hw as (_ & _ & [?|(_ & ?)]); done.
Qed.

(** ** A run: three lines into a buffer of five bytes *)

Definition demo_run : list (Sys -> Sys) :=
  [writer_look 5; push 5 [97;98;99]; push 5 [100;101]; push 5 [102]; writer_wake; writer_look 5; writer_done]%Z.

Definition demo : Sys := foldl (fun s f => f s) sys_new demo_run.

Lemma log_demo_reachable : reachable 5 demo.
Proof.
  unfold reachable.
  eapply rtc_l; [apply l_look; reflexivity|].
  eapply rtc_l; [apply (l_push 5 _ [97;98;99]%Z)|].
  eapply rtc_l; [apply (l_push 5 _ [100;101]%Z)|].
  eapply rtc_l; [apply (l_push 5 _ [102]%Z)|].
  eapply rtc_l; [eapply l_wake; reflexivity|].
  eapply rtc_l; [apply l_look; reflexivity|].
  eapply rtc_l; [eapply l_done; reflexivity|].
  apply rtc_refl.
Defined.

Lemma log_lines_accounted_witness :
  Permutation (logged demo) (written demo ++ lost demo ++ batch_of (wpc demo) ++ lines (queue demo)) /\
  written demo = [[100;101];[102]]%Z /\ lost demo = [[97;98;99]]%Z /\ told demo = 1%nat.
Proof.
  split; [exact (proj1 (log_lines_accounted 5 demo log_demo_reachable))|]. repeat split.
Defined.

Lemma log_bounded_and_awake_witness :
  (queued (queue demo) + in_flight (queue demo) <= 5)%nat \/ (length (lines (queue demo)) <= 1)%nat.
Proof. exact (proj1 (log_bounded_and_awake 5 demo log_demo_reachable)). Defined.

End LogQueue.
