(* ===== verification/LogFormat.v ===== *)
(** * Log lines ([src/log.rs])

    [format_line] and the helpers under it, in both of its formats.  A [&str]
    is a list of code points, with its length in UTF-8 bytes; what is queued
    is the bytes.  [float] (Rust's [Debug] of an [f64]) is a parameter.

    The specification is a reader: a parser of JSON objects, written here
    without looking at how lines are made. *)
From Stdlib Require Import String Ascii.
From S2P Require Import Prelude LogTime.
Local Open Scope Z_scope.

Module LogFormat.
Import LogTime.

Abbreviation str := (list Z).

Definition lit (s : string) : str := map (fun a => Z.of_N (N_of_ascii a)) (list_ascii_of_string s).

(** ** UTF-8 *)

Definition char_len (c : Z) : Z := if c <? 128 then 1 else if c <? 2048 then 2 else if c <? 65536 then 3 else 4.

(** [str::len] *)
Definition len (s : str) : Z := foldr (fun c n => char_len c + n) 0 s.

(** [char::encode_utf8] *)
Definition encode_char (c : Z) : list Z :=
  let tail k := Z.lor 128 (Z.land (Z.shiftr c k) 63) in
  if c <? 128 then [c]
  else if c <? 2048 then [Z.lor 192 (Z.shiftr c 6); tail 0]
  else if c <? 65536 then [Z.lor 224 (Z.shiftr c 12); tail 6; tail 0]
  else [Z.lor 240 (Z.shiftr c 18); tail 12; tail 6; tail 0].

(** [String::into_bytes] *)
Definition into_bytes (s : str) : list Z := s ≫= encode_char.

(** [str::is_char_boundary] *)
Fixpoint is_char_boundary (s : str) (i : Z) : bool :=
  (i =? 0) || match s with c :: s' => (char_len c <=? i) && is_char_boundary s' (i - char_len c) | [] => false end.

(** [&s[..end]], at a boundary. *)
Fixpoint slice_to (s : str) (i : Z) : str :=
  match s with
  | c :: s' => if char_len c <=? i then c :: slice_to s' (i - char_len c) else []
  | [] => []
  end.

(** ** Limits *)

Definition MAX_STR : Z := 16 * 1024.
Definition MAX_LINE : Z := 64 * 1024.
Definition TRUNCATED : str := lit "...(truncated)".
Definition RESERVED : list str := [lit "ts"; lit "level"; lit "msg"; lit "task"].
Definition LEVELS : list str := [lit "debug"; lit "info"; lit "warn"; lit "error"].

(** [while !s.is_char_boundary(end) { end -= 1 }] *)
Fixpoint boundary (fuel : nat) (s : str) (e : Z) : Z :=
  match fuel with
  | O => e
  | S fuel => if is_char_boundary s e then e else boundary fuel s (e - 1)
  end.

Definition capped (s : str) : str :=
  if len s <=? MAX_STR then s
  else slice_to s (boundary (Z.to_nat MAX_STR) s MAX_STR) ++ TRUNCATED.

(** ** Numbers *)

(** The last [fuel] decimal digits of [n], without leading zeros. *)
Fixpoint digits (fuel : nat) (n : Z) (acc : str) : str :=
  match fuel with
  | O => acc
  | S fuel => let acc := (48 + n mod 10) :: acc in if n / 10 =? 0 then acc else digits fuel (n / 10) acc
  end.

(** [to_string] of a [u64] or [i64]: at most 20 digits. *)
Definition to_string (n : Z) : str := if n <? 0 then 45 :: digits 20 (- n) [] else digits 20 n [].

(** [{:0w}] *)
Definition zero_padded (w : nat) (n : Z) : str :=
  let body := digits 20 (Z.abs n) [] in
  let sign := if n <? 0 then [45] else [] in
  sign ++ repeat 48 (w - length body - length sign) ++ body.

Definition hex_digit (n : Z) : Z := if n <? 10 then 48 + n else 87 + n.
Definition hex2 (n : Z) : str := [hex_digit (n / 16); hex_digit (n mod 16)].

Definition rfc3339_millis (ms : Z) : str :=
  let '(year, month, day, (h, mi, s, frac)) := rfc3339_fields ms in
  zero_padded 4 year ++ lit "-" ++ zero_padded 2 month ++ lit "-" ++ zero_padded 2 day ++ lit "T" ++
  zero_padded 2 h ++ lit ":" ++ zero_padded 2 mi ++ lit ":" ++ zero_padded 2 s ++ lit "." ++ zero_padded 3 frac ++ lit "Z".

(** ** Characters *)

(** [char::is_whitespace]: Unicode's [White_Space]. *)
Definition is_whitespace (c : Z) : bool :=
  ((9 <=? c) && (c <=? 13)) || existsb (Z.eqb c) [32; 133; 160; 5760; 8232; 8233; 8239; 8287; 12288] ||
  ((8192 <=? c) && (c <=? 8202)).

(** [char::is_control]: Unicode's [Cc]. *)
Definition is_control (c : Z) : bool := (c <=? 31) || ((127 <=? c) && (c <=? 159)).

(** ** Escaping *)

Definition json_char (c : Z) : str :=
  if c =? 34 then [92; 34]
  else if c =? 92 then [92; 92]
  else if c =? 10 then [92; 110]
  else if c =? 13 then [92; 114]
  else if c =? 9 then [92; 116]
  else if (c <? 32) || (c =? 127) then [92; 117; 48; 48] ++ hex2 c
  else [c].

Definition json_string (s : str) : str := [34] ++ (s ≫= json_char) ++ [34].

Definition escape_control (c : Z) : str :=
  if c =? 10 then [92; 110]
  else if c =? 13 then [92; 114]
  else if c =? 9 then [92; 116]
  else if (c <? 32) || (c =? 127) then [92; 120] ++ hex2 c
  else [c].

Definition escape_controls (s : str) : str := s ≫= escape_control.

Definition quote_char (c : Z) : str :=
  if c =? 34 then [92; 34] else if c =? 92 then [92; 92] else escape_control c.

Definition quote (s : str) : str := [34] ++ (s ≫= quote_char) ++ [34].

Definition text_key (key : str) : str :=
  (if bool_decide (key = []) then [95] else []) ++
  map (fun c => if is_whitespace c || is_control c || (c =? 61) || (c =? 34) then 95 else c) key.

Definition text_value (s : str) : str :=
  let bare := negb (bool_decide (s = [])) &&
    negb (existsb (fun c => is_whitespace c || is_control c || (c =? 34) || (c =? 61) || (c =? 92)) s) in
  if bare then s else quote s.

Definition field_key (key : str) : str := if bool_decide (key ∈ RESERVED) then lit "field." ++ key else key.

(** ** Lines *)

Section Format.
(** Floats: Rust's formatting of them. *)
Context {F : Type} (float : F -> str) (is_finite : F -> bool).

Inductive Value := VStr (s : str) | VU64 (n : Z) | VI64 (n : Z) | VF64 (x : F) | VBool (b : bool).

Definition json_value (v : Value) : str :=
  match v with
  | VStr s => json_string (capped s)
  | VU64 n | VI64 n => to_string n
  | VF64 x => if is_finite x then float x else lit "null"
  | VBool b => if b then lit "true" else lit "false"
  end.

Fixpoint json_fields (out : str) (fields : list (str * Value)) : str :=
  match fields with
  | [] => out
  | (key, value) :: fields =>
      if MAX_LINE <? len out then out ++ lit "," ++ [34] ++ lit "truncated" ++ [34] ++ lit ":true"
      else json_fields (out ++ [44] ++ json_string (capped (field_key key)) ++ [58] ++ json_value value) fields
  end.

Definition text_field (v : Value) : str :=
  match v with
  | VStr s => text_value (capped s)
  | VU64 n | VI64 n => to_string n
  | VF64 x => float x
  | VBool b => if b then lit "true" else lit "false"
  end.

Fixpoint text_fields (out : str) (fields : list (str * Value)) : str :=
  match fields with
  | [] => out
  | (key, value) :: fields =>
      if MAX_LINE <? len out then out ++ lit " truncated=true"
      else text_fields (out ++ [32] ++ text_key (capped (field_key key)) ++ [61] ++ text_field value) fields
  end.

Definition level_name (level : Z) : str := default (lit "error") (LEVELS !! Z.to_nat level).

(** [to_ascii_uppercase] *)
Definition to_ascii_uppercase (s : str) : str := map (fun c => if (97 <=? c) && (c <=? 122) then c - 32 else c) s.

(** The JSON branch, up to the fields. *)
Definition json_head (ms level : Z) (message : str) (task : option Z) : str :=
  lit "{" ++ [34] ++ lit "ts" ++ [34] ++ lit ":" ++ [34] ++ rfc3339_millis ms ++
  [34] ++ lit "," ++ [34] ++ lit "level" ++ [34] ++ lit ":" ++ [34] ++ level_name level ++
  [34] ++ lit "," ++ [34] ++ lit "msg" ++ [34] ++ lit ":" ++ json_string (capped message) ++
  match task with Some t => lit "," ++ [34] ++ lit "task" ++ [34] ++ lit ":" ++ to_string t | None => [] end.

Definition text_head (ms level : Z) (message : str) : str :=
  rfc3339_millis ms ++ lit " " ++ to_ascii_uppercase (level_name level) ++ lit " " ++
  (let message := capped message in
   if existsb (fun c => (c =? 61) || (c =? 34)) message then quote message else escape_controls message).

(** The line's characters; [format_line] returns their bytes. *)
Definition line_chars (json : bool) (ms level : Z) (message : str) (fields : list (str * Value)) (task : option Z) : str :=
  (if json then json_fields (json_head ms level message task) fields ++ lit "}"
   else text_fields (text_head ms level message) fields ++
        match task with Some t => lit " task=" ++ to_string t | None => [] end) ++ [10].

Definition format_line (json : bool) (ms level : Z) (message : str) (fields : list (str * Value)) (task : option Z) : list Z :=
  into_bytes (line_chars json ms level message fields task).

End Format.
#[global] Arguments Value : clear implicits.

(** ** Lines are one line *)

(** A [char], and what may be in a line before its newline. *)
Definition is_char (c : Z) : Prop := 0 <= c < 1114112.
Definition printable (c : Z) : Prop := 32 <= c /\ c <> 127.

#[global] Instance is_char_dec c : Decision (is_char c).
Proof. unfold is_char. apply _. Defined.

#[global] Instance printable_dec c : Decision (printable c).
Proof. unfold printable. apply _. Defined.

Lemma lor_printable a b : 128 <= a -> 0 <= b -> printable (Z.lor a b).
Proof.
  intros Ha Hb. assert (7 <= Z.log2 (Z.lor a b)) as H.
  { rewrite Z.log2_lor by lia. assert (Z.log2 128 <= Z.log2 a) by (apply Z.log2_le_mono; lia).
    change (Z.log2 128) with 7 in *. lia. }
  assert (0 < Z.lor a b) by (destruct (Z.le_gt_cases (Z.lor a b) 0) as [Hn|]; [rewrite Z.log2_nonpos in H by done|]; lia).
  apply Z.log2_le_pow2 in H; [|done]. unfold printable. change (2 ^ 7) with 128 in H. lia.
Qed.

Lemma encode_printable c : printable c -> Forall printable (encode_char c).
Proof.
  intros Hc. unfold encode_char. assert (0 <= c) as H0 by (destruct Hc; lia).
  assert (forall k, 0 <= Z.shiftr c k) by (intros; by apply Z.shiftr_nonneg).
  repeat case_match; repeat constructor; try apply Hc; apply lor_printable; auto; try lia; apply Z.land_nonneg; lia.
Qed.

Lemma bind_printable (f : Z -> str) (P : Z -> Prop) s :
  (forall c, P c -> Forall printable (f c)) -> Forall P s -> Forall printable (s ≫= f).
Proof. intros Hf Hs. induction Hs; csimpl; [done|]. apply Forall_app. auto. Qed.

Lemma hex2_printable c : 0 <= c < 256 -> Forall printable (hex2 c).
Proof.
  intros Hc. assert (forall n, 0 <= n < 16 -> printable (hex_digit n)) as H
    by (intros n Hn; unfold hex_digit, printable; case_match; lia).
  repeat apply Forall_cons_2; try apply Forall_nil_2; apply H; [split; [apply Z.div_pos|apply Z.div_lt_upper_bound]; lia|apply Z.mod_pos_bound; lia].
Qed.

Lemma escape_control_printable c : is_char c -> Forall printable (escape_control c).
Proof.
  intros [Hc _]. unfold escape_control. repeat case_match; try (repeat constructor; done || (unfold printable; lia)).
  apply Forall_app; split; [repeat constructor; unfold printable; lia|apply hex2_printable; lia].
Qed.

Lemma json_char_printable c : is_char c -> Forall printable (json_char c).
Proof.
  intros [Hc _]. unfold json_char. repeat case_match; try (repeat constructor; done || (unfold printable; lia)).
  apply Forall_app; split; [repeat constructor; unfold printable; lia|apply hex2_printable; lia].
Qed.

Lemma quote_char_printable c : is_char c -> Forall printable (quote_char c).
Proof.
  intros Hc. unfold quote_char. repeat case_match; try (repeat constructor; unfold printable; lia).
  by apply escape_control_printable.
Qed.

Ltac by_decide := eapply bool_decide_eq_true_1; vm_compute; reflexivity.

Ltac by_lit := match goal with |- Forall _ (lit _) => by_decide | |- Forall _ [_] => by_decide end.

Lemma slice_incl (P : Z -> Prop) s i : Forall P s -> Forall P (slice_to s i).
Proof. intros H. revert i. induction H; intros i; simpl; [done|]. case_match; auto. Qed.

Lemma capped_chars s : Forall is_char s -> Forall is_char (capped s).
Proof.
  intros H. unfold capped. case_match; [done|]. apply Forall_app. split; [by apply slice_incl|].
  by_decide.
Qed.

Lemma field_key_chars s : Forall is_char s -> Forall is_char (field_key s).
Proof.
  intros H. unfold field_key. case_match; [|done]. apply Forall_app. split; [|done].
  by_decide.
Qed.

(** What numbers, timestamps and level names are made of: nothing that any
    format has to escape. *)
Definition token_char (c : Z) : bool :=
  ((48 <=? c) && (c <=? 57)) || ((65 <=? c) && (c <=? 90)) || ((97 <=? c) && (c <=? 122)) ||
  (c =? 43) || (c =? 45) || (c =? 46).
Definition plain (c : Z) : Prop := token_char c = true \/ c = 58.

#[global] Instance plain_dec c : Decision (plain c).
Proof. unfold plain. apply _. Defined.

Lemma plain_printable s : Forall plain s -> Forall printable s.
Proof. intros H. apply (Forall_impl _ _ _ H). unfold plain, token_char, printable. lia. Qed.

Lemma token_plain s : Forall (fun c => token_char c = true) s -> Forall plain s.
Proof. intros H. apply (Forall_impl _ _ _ H). by left. Qed.

Lemma digits_token fuel n acc :
  Forall (fun c => token_char c = true) acc -> Forall (fun c => token_char c = true) (digits fuel n acc).
Proof.
  revert n acc. induction fuel as [|fuel IH]; intros n acc H; simpl; [done|].
  assert (token_char (48 + n mod 10) = true) by (pose proof (Z.mod_pos_bound n 10); unfold token_char; lia).
  case_match; auto.
Qed.

Lemma to_string_token n : Forall (fun c => token_char c = true) (to_string n).
Proof. unfold to_string. case_match; [apply Forall_cons_2; [done|]|]; by apply digits_token. Qed.

Lemma to_string_printable n : Forall printable (to_string n).
Proof. apply plain_printable, token_plain, to_string_token. Qed.

Lemma zero_padded_plain w n : Forall plain (zero_padded w n).
Proof.
  apply token_plain. unfold zero_padded. rewrite !Forall_app. split_and!.
  - case_match; by_decide.
  - apply Forall_forall. intros c Hc%list_elem_of_In%repeat_spec. by subst.
  - by apply digits_token.
Qed.

Lemma rfc3339_plain ms : Forall plain (rfc3339_millis ms).
Proof.
  unfold rfc3339_millis. destruct (rfc3339_fields ms) as [[[y m] d] [[[h mi] s] frac]].
  rewrite !Forall_app. split_and!; first [apply zero_padded_plain|by_lit].
Qed.

Lemma level_plain level : Forall plain (level_name level).
Proof.
  unfold level_name. destruct (LEVELS !! _) as [l|] eqn:E; simpl; [|by_lit].
  apply list_elem_of_lookup_2 in E. revert E. unfold LEVELS. rewrite !elem_of_cons, elem_of_nil.
  intros [->|[->|[->|[->|[]]]]]; by_lit.
Qed.

Lemma rfc3339_printable ms : Forall printable (rfc3339_millis ms).
Proof. apply plain_printable, rfc3339_plain. Qed.

Lemma level_printable level : Forall printable (level_name level).
Proof. apply plain_printable, level_plain. Qed.

Lemma json_string_printable s : Forall is_char s -> Forall printable (json_string s).
Proof.
  intros H. unfold json_string. repeat apply Forall_app_2; [by_decide| |by_decide].
  eapply bind_printable; [apply json_char_printable|done].
Qed.

Lemma quote_printable s : Forall is_char s -> Forall printable (quote s).
Proof.
  intros H. unfold quote. repeat apply Forall_app_2; [by_decide| |by_decide].
  eapply bind_printable; [apply quote_char_printable|done].
Qed.

Lemma text_key_printable s : Forall is_char s -> Forall printable (text_key s).
Proof.
  intros H. unfold text_key. apply Forall_app_2; [case_match; by_decide|].
  apply Forall_fmap. apply (Forall_impl _ _ _ H). intros c Hc. simpl. unfold printable, is_control, is_char in *.
  case_match eqn:E; [lia|]. lia.
Qed.

Lemma text_value_printable s : Forall is_char s -> Forall printable (text_value s).
Proof.
  intros H. unfold text_value. case_match eqn:E; [|by apply quote_printable].
  apply andb_true_iff in E as [_ E%negb_true_iff]. apply Forall_forall. intros c Hc.
  destruct (decide (printable c)) as [|Hn]; [done|exfalso].
  enough (existsb (fun c => is_whitespace c || is_control c || (c =? 34) || (c =? 61) || (c =? 92)) s = true) by congruence.
  apply existsb_exists. exists c. split; [by apply list_elem_of_In|].
  unfold printable, is_control in *. lia.
Qed.

(** A value's characters. *)
Definition value_chars {F} (v : Value F) : Prop := match v with VStr s => Forall is_char s | _ => True end.
Definition field_chars {F} (f : str * Value F) : Prop := Forall is_char f.1 /\ value_chars f.2.

Section OneLine.
Context {F : Type} (float : F -> str) (is_finite : F -> bool).
(** Rust writes a float with digits, a point, a sign, [e], [NaN] or [inf]. *)
Hypothesis float_printable : forall x, Forall printable (float x).

Lemma json_value_printable v : value_chars v -> Forall printable (json_value float is_finite v).
Proof using float_printable.
  destruct v; simpl; intros H;
    [apply json_string_printable, capped_chars, H|apply to_string_printable..| |]; case_match; auto; by_decide.
Qed.

Lemma text_field_printable v : value_chars v -> Forall printable (text_field float v).
Proof using float_printable.
  destruct v; simpl; intros H;
    [apply text_value_printable, capped_chars, H|apply to_string_printable..|auto|]; case_match; by_decide.
Qed.

Lemma json_fields_printable out fields :
  Forall field_chars fields -> Forall printable out -> Forall printable (json_fields float is_finite out fields).
Proof using float_printable.
  intros H. revert out. induction H as [|[k v] fields [Hk Hv] _ IH]; intros out Hout;
    cbn [json_fields text_fields]; [done|].
  case_match; [rewrite Forall_app; split; [done|by_decide]|]. apply IH.
  rewrite !Forall_app. split_and!; [done|by_decide| |by_decide|by apply json_value_printable].
  by apply json_string_printable, capped_chars, field_key_chars.
Qed.

Lemma text_fields_printable out fields :
  Forall field_chars fields -> Forall printable out -> Forall printable (text_fields float out fields).
Proof using float_printable.
  intros H. revert out. induction H as [|[k v] fields [Hk Hv] _ IH]; intros out Hout;
    cbn [json_fields text_fields]; [done|].
  case_match; [rewrite Forall_app; split; [done|by_decide]|]. apply IH.
  rewrite !Forall_app. split_and!; [done|by_decide| |by_decide|by apply text_field_printable].
  by apply text_key_printable, capped_chars, field_key_chars.
Qed.

Lemma upper_printable s : Forall printable s -> Forall printable (to_ascii_uppercase s).
Proof.
  intros H. apply Forall_fmap. apply (Forall_impl _ _ _ H). intros c Hc. simpl. unfold printable in *.
  case_match; lia.
Qed.

Lemma json_head_printable ms level message task :
  Forall is_char message -> Forall printable (json_head ms level message task).
Proof.
  intros H. unfold json_head. rewrite !Forall_app. split_and!; try first [apply rfc3339_printable|apply level_printable
    |by apply json_string_printable, capped_chars|by_lit].
  destruct task; [|done]. rewrite !Forall_app. split_and!; [by_decide..|apply to_string_printable].
Qed.

Lemma text_head_printable ms level message :
  Forall is_char message -> Forall printable (text_head ms level message).
Proof.
  intros H. unfold text_head. rewrite !Forall_app. split_and!; try first [apply rfc3339_printable
    |apply upper_printable, level_printable|by_lit].
  cbv zeta. case_match; [by apply quote_printable, capped_chars|].
  eapply bind_printable; [apply escape_control_printable|by apply capped_chars].
Qed.

(** Lines from different tasks never run together: whatever the message, the
    keys and the values are, in both formats the bytes of a log line hold no
    newline but the one at their end, and no other control character of
    ASCII, so a message can't forge a line of its own or drive a terminal. *)
Theorem log_line_is_one_line json ms level message (fields : list (str * Value F)) task :
  Forall is_char message -> Forall field_chars fields ->
  exists body, format_line float is_finite json ms level message fields task = body ++ [10] /\ Forall printable body.
Proof using float_printable.
  intros Hm Hf. unfold format_line, line_chars, into_bytes. eexists. rewrite bind_app. split; [reflexivity|].
  eapply bind_printable; [apply encode_printable|]. destruct json.
  - rewrite Forall_app. split; [|by_decide]. by apply json_fields_printable, json_head_printable.
  - rewrite Forall_app. split; [by apply text_fields_printable, text_head_printable|].
    destruct task; [|done]. rewrite Forall_app. split; [by_decide|apply to_string_printable].
Qed.
End OneLine.

(** ** A reader of JSON lines *)

Definition unhex (c : Z) : option Z :=
  if (48 <=? c) && (c <=? 57) then Some (c - 48)
  else if (97 <=? c) && (c <=? 102) then Some (c - 87)
  else if (65 <=? c) && (c <=? 70) then Some (c - 55) else None.

(** What a backslash and one letter stand for. *)
Definition unescape (e : Z) : option Z :=
  if (e =? 34) || (e =? 92) || (e =? 47) then Some e
  else if e =? 98 then Some 8 else if e =? 102 then Some 12
  else if e =? 110 then Some 10 else if e =? 114 then Some 13 else if e =? 116 then Some 9 else None.

(** The rest of a string, after its opening quote. *)
Fixpoint read_string (l : str) : option (str * str) :=
  match l with
  | [] => None
  | c :: r =>
      if c =? 34 then Some ([], r)
      else if c =? 92 then
        match r with
        | 117 :: h1 :: h2 :: h3 :: h4 :: r' =>
            a ← unhex h1; b ← unhex h2; x ← unhex h3; y ← unhex h4;
            '(s, rest) ← read_string r'; Some (((a * 16 + b) * 16 + x) * 16 + y :: s, rest)
        | e :: r' => c' ← unescape e; '(s, rest) ← read_string r'; Some (c' :: s, rest)
        | [] => None
        end
      else if c <? 32 then None
      else '(s, rest) ← read_string r; Some (c :: s, rest)
  end.

(** A number, [true], [false] or [null], as it is written. *)
Fixpoint read_token (l : str) : str * str :=
  match l with
  | c :: r => if token_char c then let '(t, rest) := read_token r in (c :: t, rest) else ([], l)
  | [] => ([], [])
  end.

Inductive JValue := JStr (s : str) | JTok (t : str).

Definition read_value (l : str) : option (JValue * str) :=
  match l with
  | 34 :: r => '(s, rest) ← read_string r; Some (JStr s, rest)
  | _ => match read_token l with ([], _) => None | (t, rest) => Some (JTok t, rest) end
  end.

(** Members, up to the closing brace; each takes at least one character. *)
Fixpoint read_members (fuel : nat) (l : str) : option (list (str * JValue) * str) :=
  match fuel, l with
  | S fuel, 34 :: r =>
      match read_string r with
      | Some (key, 58 :: r) =>
          match read_value r with
          | Some (v, 44 :: r) => '(ms, rest) ← read_members fuel r; Some ((key, v) :: ms, rest)
          | Some (v, 125 :: r) => Some ([(key, v)], r)
          | _ => None
          end
      | _ => None
      end
  | _, _ => None
  end.

(** An object on a line of its own. *)
Definition read_line (l : str) : option (list (str * JValue)) :=
  match l with
  | 123 :: r => match read_members (length r) r with Some (ms, [10]) => Some ms | _ => None end
  | _ => None
  end.

Lemma unhex_hex n : 0 <= n < 16 -> unhex (hex_digit n) = Some n.
Proof. intros H. unfold unhex, hex_digit. repeat case_match; try lia; f_equal; lia. Qed.

Lemma read_string_char c rest :
  is_char c -> read_string (json_char c ++ rest) = ('(s, r) ← read_string rest; Some (c :: s, r)).
Proof.
  intros [Hc _]. unfold json_char.
  destruct (Z.eqb_spec c 34) as [->|]; [done|]. destruct (Z.eqb_spec c 92) as [->|]; [done|].
  destruct (Z.eqb_spec c 10) as [->|]; [done|]. destruct (Z.eqb_spec c 13) as [->|]; [done|].
  destruct (Z.eqb_spec c 9) as [->|]; [done|].
  destruct ((c <? 32) || (c =? 127)) eqn:E.
  - assert (0 <= c < 256) by lia. cbn. rewrite !unhex_hex; [cbn| |].
    + destruct (read_string rest) as [[s r]|]; [|done]. cbn. do 3 f_equal. pose proof (Z.div_mod c 16). lia.
    + split; [apply Z.div_pos|apply Z.div_lt_upper_bound]; lia.
    + apply Z.mod_pos_bound; lia.
  - cbn. destruct (Z.eqb_spec c 34), (Z.eqb_spec c 92), (Z.ltb_spec c 32); try lia. done.
Qed.

Lemma read_string_json s rest : Forall is_char s -> read_string ((s ≫= json_char) ++ 34 :: rest) = Some (s, rest).
Proof.
  intros H. induction H as [|c s Hc _ IH]; [done|]. csimpl. by rewrite <- app_assoc, read_string_char, IH.
Qed.

Lemma read_token_app t c rest :
  Forall (fun c => token_char c = true) t -> token_char c = false -> read_token (t ++ c :: rest) = (t, c :: rest).
Proof.
  intros H Hc. induction H as [|d t Hd _ IH]; cbn; [by rewrite Hc|]. by rewrite Hd, IH.
Qed.

Lemma plain_is_json s : Forall plain s -> s ≫= json_char = s.
Proof.
  intros H. induction H as [|c s Hc _ IH]; [done|]. csimpl. rewrite IH.
  unfold json_char. unfold plain, token_char in Hc.
  destruct (Z.eqb_spec c 34), (Z.eqb_spec c 92), (Z.eqb_spec c 10), (Z.eqb_spec c 13), (Z.eqb_spec c 9); try lia.
  destruct (Z.ltb_spec c 32), (Z.eqb_spec c 127); try lia. done.
Qed.

(** Members as the reader takes them. *)
Definition member_ok (m : str * JValue) : Prop :=
  Forall is_char m.1 /\
  match m.2 with JStr s => Forall is_char s | JTok t => Forall (fun c => token_char c = true) t /\ t <> [] end.

Definition render_value (v : JValue) : str := match v with JStr s => json_string s | JTok t => t end.
Definition render (m : str * JValue) : str := json_string m.1 ++ [58] ++ render_value m.2.

Lemma read_value_render v c rest :
  match v with JStr s => Forall is_char s | JTok t => Forall (fun c => token_char c = true) t /\ t <> [] end ->
  token_char c = false -> read_value (render_value v ++ c :: rest) = Some (v, c :: rest).
Proof.
  intros Hv Hc. destruct v as [s|t]; cbn.
  - rewrite <- app_assoc. cbn. by rewrite read_string_json.
  - destruct Hv as [Ht Hne]. destruct t as [|d t]; [done|].
    assert (d <> 34) as H34 by (inversion_clear Ht as [|? ? Hd]; intros ->; done).
    unfold read_value. rewrite <- app_comm_cons at 1.
    assert (forall (A : Type) (x y : A), match d with 34 => x | _ => y end = y) as Hd
      by (intros; destruct d as [|d'|]; [done| |done]; repeat (destruct d' as [d'|d'|]; try done)).
    rewrite Hd, read_token_app by done. done.
Qed.

Lemma read_last m rest fuel : member_ok m -> read_members (S fuel) (render m ++ 125 :: rest) = Some ([m], rest).
Proof.
  destruct m as [k v]. intros [Hk Hv]. unfold render, json_string; cbn [fst snd] in *.
  rewrite <- !app_assoc. cbn. rewrite read_string_json by done. cbn. by rewrite read_value_render.
Qed.

Lemma read_more m r fuel :
  member_ok m ->
  read_members (S fuel) (render m ++ 44 :: r) = ('(ms, rest) ← read_members fuel r; Some (m :: ms, rest)).
Proof.
  destruct m as [k v]. intros [Hk Hv]. unfold render, json_string; cbn [fst snd] in *.
  rewrite <- !app_assoc. cbn. rewrite read_string_json by done. cbn. by rewrite read_value_render.
Qed.

(** Members after the first one. *)
Definition render_more (ms : list (str * JValue)) : str := ms ≫= fun m => 44 :: render m.

Lemma read_members_render m ms rest fuel :
  member_ok m -> Forall member_ok ms -> (length ms < fuel)%nat ->
  read_members fuel (render m ++ render_more ms ++ 125 :: rest) = Some (m :: ms, rest).
Proof.
  intros Hm Hms. revert m Hm fuel. induction Hms as [|m' ms Hm' Hms IH]; intros m Hm [|fuel] Hfuel;
    cbn [length] in Hfuel; try lia; [by apply read_last|].
  change (render_more (m' :: ms)) with (44 :: render m' ++ render_more ms). rewrite <- app_comm_cons, read_more by done.
  rewrite <- app_assoc. by rewrite IH by (done || lia).
Qed.

(** The members of a line. *)
Definition head_members (ms level : Z) (message : str) (task : option Z) : list (str * JValue) :=
  [(lit "level", JStr (level_name level)); (lit "msg", JStr (capped message))] ++
  match task with Some t => [(lit "task", JTok (to_string t))] | None => [] end.

Definition field_member {F} (float : F -> str) (is_finite : F -> bool) (f : str * Value F) : str * JValue :=
  (capped (field_key f.1),
   match f.2 with VStr s => JStr (capped s) | v => JTok (json_value float is_finite v) end).

Definition truncated_member : str * JValue := (lit "truncated", JTok (lit "true")).

Lemma json_string_plain s : Forall plain s -> json_string s = 34 :: s ++ [34].
Proof. intros H. unfold json_string. by rewrite plain_is_json. Qed.

Lemma render_more_app ms ms' : render_more (ms ++ ms') = render_more ms ++ render_more ms'.
Proof. apply bind_app. Qed.

Lemma render_more_one m : render_more [m] = 44 :: render m.
Proof. unfold render_more. csimpl. by rewrite app_nil_r. Qed.

Lemma json_head_members ms level message task :
  json_head ms level message task =
  123 :: render (lit "ts", JStr (rfc3339_millis ms)) ++ render_more (head_members ms level message task).
Proof.
  unfold json_head, head_members. rewrite render_more_app, <- (app_nil_l [_; _]), (cons_middle _ [] [_]).
  rewrite !render_more_app, !render_more_one. unfold render, render_value. cbn [fst snd].
  rewrite (json_string_plain (rfc3339_millis ms) (rfc3339_plain ms)), (json_string_plain (level_name level) (level_plain level)).
  generalize (rfc3339_millis ms) (level_name level) (json_string (capped message)). intros ts lv m.
  destruct task as [t|]; [rewrite render_more_one; unfold render, render_value; cbn [fst snd]; generalize (to_string t); intros tk|];
    cbn; rewrite <- ?app_assoc; cbn; rewrite <- ?app_assoc; cbn; rewrite <- ?app_assoc; done.
Qed.

Lemma render_more_length ms : (length ms <= length (render_more ms))%nat.
Proof.
  induction ms as [|m ms IH]; [done|]. change (render_more (m :: ms)) with (44 :: render m ++ render_more ms).
  cbn [length]. rewrite length_app. lia.
Qed.

Lemma read_line_render m ms :
  member_ok m -> Forall member_ok ms -> read_line (123 :: render m ++ render_more ms ++ [125; 10]) = Some (m :: ms).
Proof.
  intros Hm Hms. unfold read_line. rewrite read_members_render; [done..|].
  rewrite !length_app. cbn. pose proof (render_more_length ms). lia.
Qed.

Lemma plain_chars s : Forall plain s -> Forall is_char s.
Proof. intros H. apply (Forall_impl _ _ _ H). unfold plain, token_char, is_char. lia. Qed.

(** ** What a reader should find

    Stated without the functions that make the line. *)

(** [s'] is [s] as it is, or, when [s] is more than 16 KiB of UTF-8, as much
    of its start as fits 16 KiB in whole characters and the mark. *)
Definition cut_short (s s' : str) : Prop :=
  (len s <= 16384 /\ s' = s) \/
  (16384 < len s /\ exists p rest, s = p ++ rest /\ s' = p ++ lit "...(truncated)" /\ 16381 <= len p <= 16384).

(** The names of the line's own members. *)
Definition own_key (k : str) : bool :=
  existsb (fun o => bool_decide (k = o)) [lit "ts"; lit "level"; lit "msg"; lit "task"].

(** The name under which a field is found. *)
Definition told_key (key k : str) : Prop := if own_key key then k = lit "field." ++ key else cut_short key k.

Definition told_level (level : Z) : str :=
  if level =? 0 then lit "debug" else if level =? 1 then lit "info" else if level =? 2 then lit "warn" else lit "error".

(** A decimal integer. *)
Definition read_nat (t : str) : Z := foldl (fun n c => n * 10 + (c - 48)) 0 t.
Definition read_int (t : str) : Z := match t with 45 :: t => - read_nat t | _ => read_nat t end.

Definition told_value {F} (float : F -> str) (is_finite : F -> bool) (v : Value F) (j : JValue) : Prop :=
  match v, j with
  | VStr s, JStr s' => cut_short s s'
  | (VU64 n | VI64 n), JTok t => read_int t = n
  | VF64 x, JTok t => t = if is_finite x then float x else lit "null"
  | VBool b, JTok t => t = if b then lit "true" else lit "false"
  | _, _ => False
  end.

(** A field and the member that tells of it. *)
Definition told {F} (float : F -> str) (is_finite : F -> bool) (f : str * Value F) (m : str * JValue) : Prop :=
  told_key f.1 m.1 /\ told_value float is_finite f.2 m.2.

(** A field that Roc can log: its strings are strings and its integers fit
    64 bits. *)
Definition field_ok {F} (f : str * Value F) : Prop :=
  field_chars f /\
  match f.2 with VU64 n => 0 <= n < 2 ^ 64 | VI64 n => - 2 ^ 63 <= n < 2 ^ 63 | _ => True end.

Lemma char_len_range c : 1 <= char_len c <= 4.
Proof. unfold char_len. repeat case_match; lia. Qed.

Lemma len_cons c s : len (c :: s) = char_len c + len s.
Proof. done. Qed.

Lemma len_nonneg s : 0 <= len s.
Proof. induction s as [|c s IH]; [done|]. rewrite len_cons. pose proof (char_len_range c). lia. Qed.

Lemma len_app s s' : len (s ++ s') = len s + len s'.
Proof. induction s as [|c s IH]; [done|]. rewrite <- app_comm_cons, !len_cons, IH. lia. Qed.

(** A character takes at most four bytes, so a boundary is never far. *)
Lemma boundary_near s e : 0 <= e <= len s -> exists i, is_char_boundary s i = true /\ 0 <= i /\ e - 3 <= i <= e.
Proof.
  revert e. induction s as [|c s IH]; intros e He.
  - cbn in He. exists 0. split; [done|]. lia.
  - rewrite len_cons in He. pose proof (char_len_range c) as Hc.
    destruct (Z.lt_ge_cases e (char_len c)); [exists 0; split; [done|]; lia|].
    destruct (IH (e - char_len c)) as (i & Hi & ? & ?); [lia|]. exists (i + char_len c). split; [|lia].
    cbn [is_char_boundary]. rewrite Z.add_simpl_r, Hi. lia.
Qed.

Lemma boundary_finds fuel s e i :
  is_char_boundary s i = true -> i <= e -> e - i < Z.of_nat fuel ->
  is_char_boundary s (boundary fuel s e) = true /\ i <= boundary fuel s e <= e.
Proof.
  revert e. induction fuel as [|fuel IH]; intros e Hi Hle Hf; [lia|]. cbn [boundary].
  destruct (is_char_boundary s e) eqn:E; [split; [done|lia]|].
  destruct (decide (i = e)) as [->|]; [congruence|]. destruct (IH (e - 1)); [done|lia..|]. split; [done|lia].
Qed.

Lemma slice_to_prefix s i : exists rest, s = slice_to s i ++ rest.
Proof.
  revert i. induction s as [|c s IH]; intros i; cbn [slice_to]; [by exists []|].
  case_match; [|by exists (c :: s)]. destruct (IH (i - char_len c)) as [r Hr]. exists r. cbn. by rewrite <- Hr.
Qed.

Lemma len_slice_to s i : is_char_boundary s i = true -> 0 <= i -> len (slice_to s i) = i.
Proof.
  revert i. induction s as [|c s IH]; intros i Hi Hn; cbn [slice_to is_char_boundary] in *; [cbn; lia|].
  pose proof (char_len_range c) as Hc. destruct (Z.leb_spec (char_len c) i).
  - rewrite len_cons, IH; [lia| |lia].
    destruct (Z.eqb_spec i 0); [lia|]. done.
  - destruct (Z.eqb_spec i 0); [cbn; lia|done].
Qed.

Lemma capped_cut_short s : cut_short s (capped s).
Proof.
  unfold cut_short, capped. change MAX_STR with 16384. destruct (Z.leb_spec (len s) 16384); [by left|right].
  split; [done|]. destruct (boundary_near s 16384) as (i & Hi & ? & ?); [lia|].
  destruct (boundary_finds (Z.to_nat 16384) s 16384 i) as [Hb Hr]; [done|lia|lia|].
  destruct (slice_to_prefix s (boundary (Z.to_nat 16384) s 16384)) as [rest Hrest].
  eexists _, rest. split_and!; [exact Hrest|done|rewrite len_slice_to by (done || lia); lia..].
Qed.

Lemma own_key_reserved k : own_key k = bool_decide (k ∈ RESERVED).
Proof.
  unfold own_key, RESERVED. apply eq_bool_prop_intro. rewrite bool_decide_spec, !elem_of_cons, elem_of_nil. cbn.
  repeat case_bool_decide; cbn; naive_solver.
Qed.

Lemma own_key_short k : own_key k = true -> len k <= 5.
Proof.
  rewrite own_key_reserved, bool_decide_eq_true. unfold RESERVED. rewrite !elem_of_cons, elem_of_nil.
  intros [->|[->|[->|[->|[]]]]]; vm_compute; discriminate.
Qed.

Lemma told_key_capped key : told_key key (capped (field_key key)).
Proof.
  unfold told_key, field_key. rewrite <- own_key_reserved. destruct (own_key key) eqn:E; [|apply capped_cut_short].
  unfold capped. rewrite len_app. apply own_key_short in E. change (len (lit "field.")) with 6. change MAX_STR with 16384.
  destruct (Z.leb_spec (6 + len key) 16384); [done|lia].
Qed.

(** No field passes for one of the line's own members. *)
Lemma told_key_not_own key k : told_key key k -> own_key k = false.
Proof.
  unfold told_key. destruct (own_key key) eqn:E; intros H.
  - subst k. revert E. rewrite own_key_reserved, bool_decide_eq_true. unfold RESERVED. rewrite !elem_of_cons, elem_of_nil.
    intros [->|[->|[->|[->|[]]]]]; vm_compute; reflexivity.
  - destruct H as [[_ ->]|(_ & p & rest & _ & -> & Hp)]; [done|].
    apply not_true_iff_false. intros Hs%own_key_short. rewrite len_app in Hs.
    change (len (lit "...(truncated)")) with 14 in Hs. lia.
Qed.

Lemma read_nat_snoc t c : read_nat (t ++ [c]) = read_nat t * 10 + (c - 48).
Proof. unfold read_nat. by rewrite foldl_app. Qed.

Lemma foldl_digits t n : foldl (fun n c => n * 10 + (c - 48)) n t = n * 10 ^ Z.of_nat (length t) + read_nat t.
Proof.
  induction t as [|c t IH] using rev_ind; [cbn; lia|].
  rewrite foldl_app, read_nat_snoc, length_app. cbn [foldl length]. rewrite IH, Nat.add_1_r, Nat2Z.inj_succ, Z.pow_succ_r by lia. lia.
Qed.

Lemma read_digits fuel n acc :
  0 <= n < 10 ^ Z.of_nat fuel -> read_nat (digits fuel n acc) = n * 10 ^ Z.of_nat (length acc) + read_nat acc.
Proof.
  revert n acc. induction fuel as [|fuel IH]; intros n acc Hn; cbn [digits].
  - cbn in Hn. assert (n = 0) as -> by lia. lia.
  - rewrite Nat2Z.inj_succ, Z.pow_succ_r in Hn by lia. pose proof (Z.div_mod n 10).
    assert (read_nat ((48 + n mod 10) :: acc) = (n mod 10) * 10 ^ Z.of_nat (length acc) + read_nat acc) as Hr.
    { unfold read_nat at 1. cbn [foldl]. rewrite foldl_digits. f_equal. f_equal. lia. }
    destruct (Z.eqb_spec (n / 10) 0) as [E|E].
    + rewrite Hr. f_equal. f_equal. lia.
    + rewrite IH, Hr by (split; [apply Z.div_pos; lia|apply Z.div_lt_upper_bound; lia]).
      cbn [length]. rewrite Nat2Z.inj_succ, Z.pow_succ_r by lia. rewrite (Z.div_mod n 10) at 3 by lia. ring.
Qed.

Lemma decimal_head fuel n acc : (forall t, acc <> 45 :: t) -> forall t, digits fuel n acc <> 45 :: t.
Proof.
  revert n acc. induction fuel as [|fuel IH]; intros n acc Ha t; cbn [digits]; [apply Ha|].
  pose proof (Z.mod_pos_bound n 10). assert (forall t, (48 + n mod 10) :: acc <> 45 :: t) by (intros ? [=]; lia).
  case_match; auto.
Qed.

Lemma read_int_nat d t : d <> 45 -> read_int (d :: t) = read_nat (d :: t).
Proof.
  unfold read_int. generalize (read_nat t), (read_nat (d :: t)). intros x y Hd.
  destruct d as [|d|]; [done| |done]. repeat (destruct d as [d|d|]; try done).
Qed.

Lemma read_to_string n : - 2 ^ 63 <= n < 2 ^ 64 -> read_int (to_string n) = n.
Proof.
  intros Hn. assert (2 ^ 64 < 10 ^ Z.of_nat 20) by (vm_compute; reflexivity). assert (2 ^ 63 < 10 ^ Z.of_nat 20) by (vm_compute; reflexivity).
  unfold to_string. destruct (Z.ltb_spec n 0).
  - cbn [read_int]. rewrite read_digits by lia. cbn [length read_nat foldl]. change (10 ^ Z.of_nat 0) with 1. change (read_nat []) with 0. lia.
  - assert (read_nat (digits 20 n []) = n) as Hr by (rewrite read_digits by lia; change (10 ^ Z.of_nat (length [])) with 1; change (read_nat []) with 0; lia).
    destruct (digits 20 n []) as [|d t] eqn:E; [done|].
    assert (d <> 45) by (intros ->; by eapply (decimal_head 20 n [])).
    by rewrite read_int_nat.
Qed.

Lemma told_level_name level : 0 <= level < 256 -> level_name level = told_level level.
Proof.
  intros H. unfold level_name, told_level.
  destruct (Z.eqb_spec level 0) as [->|]; [done|]. destruct (Z.eqb_spec level 1) as [->|]; [done|].
  destruct (Z.eqb_spec level 2) as [->|]; [done|]. destruct (Z.eqb_spec level 3) as [->|]; [done|].
  rewrite lookup_ge_None_2; [done|]. cbn [length LEVELS]. lia.
Qed.

Section JsonRoundTrip.
Context {F : Type} (float : F -> str) (is_finite : F -> bool).
(** Rust writes a finite float as a JSON number. *)
Hypothesis float_token : forall x, is_finite x = true -> Forall (fun c => token_char c = true) (float x) /\ float x <> [].

Abbreviation members := (map (field_member float is_finite)).

Lemma json_value_member (f : str * Value F) :
  render (field_member float is_finite f) = json_string (capped (field_key f.1)) ++ [58] ++ json_value float is_finite f.2.
Proof. destruct f as [k []]; done. Qed.

(** What is written of the fields, and the mark for those left out. *)
Lemma json_fields_members out fields :
  exists written left, fields = written ++ left /\
    json_fields float is_finite out fields =
    out ++ render_more (members written ++ if bool_decide (left = []) then [] else [truncated_member]) /\
    (left <> [] -> MAX_LINE < len (json_fields float is_finite out fields)).
Proof.
  revert out. induction fields as [|[k v] fields IH]; intros out; cbn [json_fields].
  - exists [], []. cbn. by rewrite app_nil_r.
  - destruct (Z.ltb_spec MAX_LINE (len out)) as [Hl|].
    + exists [], ((k, v) :: fields). split; [done|]. rewrite bool_decide_false by done. split; [done|].
      intros _. rewrite len_app. match goal with |- context [len out + len ?x] => pose proof (len_nonneg x) end. lia.
    + match goal with |- context [json_fields _ _ ?o fields] => destruct (IH o) as (w & l & -> & E & Hl) end.
      exists ((k, v) :: w), l. split; [done|]. split; [|done]. rewrite E. cbn [map app].
      change (render_more (?m :: ?l)) with ((44 :: render m) ++ render_more l).
      rewrite json_value_member. cbn [fst snd]. by rewrite <- !app_assoc.
Qed.

Lemma field_member_told f : field_ok f -> told float is_finite f (field_member float is_finite f).
Proof.
  destruct f as [k v]. intros [_ Hv]. split; cbn in *; [apply told_key_capped|].
  destruct v; cbn in *; [apply capped_cut_short|apply read_to_string; lia..|done|done].
Qed.

Lemma digits_nonempty fuel n acc : (0 < fuel)%nat \/ acc <> [] -> digits fuel n acc <> [].
Proof.
  revert n acc. induction fuel as [|fuel IH]; intros n acc H; cbn [digits]; [destruct H; [lia|done]|].
  case_match; [done|]. apply IH. by right.
Qed.

Lemma to_string_nonempty n : to_string n <> [].
Proof.
  unfold to_string. case_match; [done|]. apply digits_nonempty. left. lia.
Qed.

Lemma field_member_ok f : field_chars f -> member_ok (field_member float is_finite f).
Proof using float_token.
  destruct f as [k v]. intros [Hk Hv]. split; cbn in *; [by apply capped_chars, field_key_chars|].
  destruct v as [s|n|n|x|b]; cbn; [by apply capped_chars|split; [apply to_string_token|apply to_string_nonempty]..| |].
  - destruct (is_finite x) eqn:E; [by apply float_token|split; [by_decide|done]].
  - destruct b; (split; [by_decide|done]).
Qed.

(** A JSON line, read back: what the code's own functions make of the parts. *)
Lemma json_line_members ms level message (fields : list (str * Value F)) task :
  Forall is_char message -> Forall field_chars fields ->
  exists written left, fields = written ++ left /\
    read_line (line_chars float is_finite true ms level message fields task) =
    Some ((lit "ts", JStr (rfc3339_millis ms)) :: head_members ms level message task ++ members written ++
          if bool_decide (left = []) then [] else [truncated_member]) /\
    (left <> [] -> MAX_LINE < len (line_chars float is_finite true ms level message fields task)).
Proof using float_token.
  intros Hm Hf. unfold line_chars.
  destruct (json_fields_members (json_head ms level message task) fields) as (w & l & -> & E & Hl).
  exists w, l. split; [done|]. split; [|intros Hne; specialize (Hl Hne); rewrite !len_app;
    match goal with |- _ < _ + ?a + ?b => assert (0 <= a) by apply len_nonneg; assert (0 <= b) by apply len_nonneg end; lia].
  rewrite E. apply Forall_app in Hf as [Hw _].
  rewrite json_head_members, <- !app_assoc, <- app_comm_cons, <- app_assoc, (assoc (++) (render_more _)), <- render_more_app.
  apply read_line_render.
  - split; cbn; [by_decide|]. apply plain_chars, rfc3339_plain.
  - unfold head_members. rewrite !Forall_app. split_and!.
    + repeat apply Forall_cons_2; [..|done]; (split; cbn; [by_decide|]);
        [apply plain_chars, level_plain|by apply capped_chars].
    + destruct task; [|done]. apply Forall_cons_2; [|done]. split; cbn; [by_decide|].
      split; [apply to_string_token|apply to_string_nonempty].
    + apply Forall_fmap. apply (Forall_impl _ _ _ Hw). intros f. apply field_member_ok.
    + case_match; [done|]. apply Forall_cons_2; [|done]. split; cbn; [by_decide|split; [by_decide|done]].
Qed.

(** C38: A JSON log line says what was logged, whatever the strings hold.  A
    reader of JSON gets back, in this order and with nothing else between
    them: the timestamp, the level's name, the message, the task's number if
    there is one, and one member per field.  The message and a string field
    read back as they were given up to 16 KiB; a longer one is its start, cut
    at most three bytes short of 16 KiB so that no character is split, and
    the mark.  Integers read back as themselves.  A field whose name is one
    of [ts], [level], [msg] and [task] is found as [field.] and its name, any
    other under its own name, so that no field passes for one of these four
    members.  Fields are left out only at the end of a line of more than 64
    KiB, and a [truncated] member then says so.  (A field of the program's
    that is named [truncated] is not renamed and reads the same as this
    mark.) *)
Theorem json_line_reads_back ms level message (fields : list (str * Value F)) task :
  0 <= level < 256 -> Forall is_char message -> Forall field_ok fields ->
  (forall t, task = Some t -> 0 <= t < 2 ^ 64) ->
  let line := line_chars float is_finite true ms level message fields task in
  exists written left msg task_member told_fields,
    fields = written ++ left /\ cut_short message msg /\
    match task with Some t => exists tok, task_member = [(lit "task", JTok tok)] /\ read_int tok = t | None => task_member = [] end /\
    Forall2 (told float is_finite) written told_fields /\
    Forall (fun m => own_key m.1 = false) told_fields /\
    (left <> [] -> 65536 < len line) /\
    read_line line =
    Some ([(lit "ts", JStr (rfc3339_millis ms)); (lit "level", JStr (told_level level)); (lit "msg", JStr msg)] ++
          task_member ++ told_fields ++ if bool_decide (left = []) then [] else [(lit "truncated", JTok (lit "true"))]).
Proof using float_token.
  intros Hlevel Hm Hf Ht line.
  destruct (json_line_members ms level message fields task) as (w & l & -> & E & Hl);
    [done|apply (Forall_impl _ _ _ Hf); by intros ? []|].
  apply Forall_app in Hf as [Hw _].
  assert (Forall2 (told float is_finite) w (members w)) as Htold
    by (clear -Hw; induction Hw; constructor; [by apply field_member_told|done]).
  exists w, l, (capped message), (match task with Some t => [(lit "task", JTok (to_string t))] | None => [] end), (members w).
  split_and!; [done|apply capped_cut_short| |done| |exact Hl|].
  - destruct task as [t|]; [|done]. eexists. split; [done|]. apply read_to_string. specialize (Ht t eq_refl). lia.
  - apply Forall_fmap, Forall_forall. intros f _. eapply told_key_not_own, told_key_capped.
  - unfold line. rewrite E, <- (told_level_name level Hlevel). unfold head_members. by rewrite <- app_assoc.
Qed.
End JsonRoundTrip.

(** ** Instances *)

(** Floats written as a fixed number, to instantiate the parameter. *)
Definition toy_float (x : Z) : str := lit "0.5".

Lemma log_line_is_one_line_witness :
  exists body, format_line toy_float (fun _ => true) false 0 1 (lit "two" ++ [10] ++ lit "lines=1") [(lit "k", VStr [9; 233; 10])] (Some 7)
  = body ++ [10] /\ Forall printable body.
Proof.
  apply (log_line_is_one_line toy_float (fun _ => true)).
  - intros x. by_decide.
  - by_decide.
  - repeat apply Forall_cons_2; [|done]. split; cbn; by_decide.
Defined.

Lemma json_line_reads_back_witness :
  let fields := [(lit "ts", VStr [34; 92; 1]); (lit "n", VF64 3); (lit "i", VI64 (-5))] in
  let line := line_chars toy_float (fun _ => true) true 0 2 (lit "m" ++ [34]) fields (Some 7) in
  exists written left msg task_member told_fields,
    fields = written ++ left /\ cut_short (lit "m" ++ [34]) msg /\
    (exists tok, task_member = [(lit "task", JTok tok)] /\ read_int tok = 7) /\
    Forall2 (told toy_float (fun _ => true)) written told_fields /\
    Forall (fun m => own_key m.1 = false) told_fields /\
    (left <> [] -> 65536 < len line) /\
    read_line line =
    Some ([(lit "ts", JStr (rfc3339_millis 0)); (lit "level", JStr (told_level 2)); (lit "msg", JStr msg)] ++
          task_member ++ told_fields ++ if bool_decide (left = []) then [] else [(lit "truncated", JTok (lit "true"))]).
Proof.
  intros fields line. refine (json_line_reads_back toy_float (fun _ => true) _ 0 2 (lit "m" ++ [34]) fields (Some 7) _ _ _ _).
  - intros x _. split; [by_decide|done].
  - lia.
  - by_decide.
  - unfold fields. repeat apply Forall_cons_2; [..|done]; repeat split; cbn; try lia; try by_decide.
  - intros t [= <-]. lia.
Defined.

(** A field named [truncated] reads the same as the mark of a line with
    fields left out. *)
Example truncated_field_passes_for_mark :
  exists written, read_line (line_chars toy_float (fun _ => true) true 0 1 [] [(lit "truncated", VBool true)] None) =
  Some (written ++ [(lit "truncated", JTok (lit "true"))]).
Proof. eexists [_; _; _]. vm_compute. reflexivity. Qed.

(** A message of 16 KiB of control characters makes a line of more than
    [MAX_LINE] bytes: the limit is looked at before each field, not after,
    and escapes are longer than what they stand for. *)
Example line_longer_than_max :
  MAX_LINE <? Z.of_nat (length (format_line toy_float (fun _ => true) true 0 1 (repeat 1 16384) [] None)) = true.
Proof. vm_compute. reflexivity. Qed.

End LogFormat.
