(* ===== verification/Io.v ===== *)
(** * I/O operations of tasks ([src/sched.rs], as sockets use it)

    The vocabulary of everything that reads and writes: errors, results, a
    state monad over the world outside the task, and the scheduler's waits.
    The world is a type of its own, [W]: between two steps of a task anything
    may happen to it, so an operation is a function from a world to a result
    and a world.  A computation may run out of fuel, which is [None].

    [Sched] is what the scheduler gives to the rest of the host, and
    [SchedLaws] what it promises: time doesn't go back, and a wait ends with
    [TimedOut] only once its deadline has passed. *)
From S2P Require Import Prelude TaskProto.
Local Open Scope Z_scope.

(** ** Errors and results *)

(** [io::ErrorKind], as far as the sources name kinds. *)
Inductive ErrorKind :=
  | AddrInUse | AddrNotAvailable | AlreadyExists | BrokenPipe | ConnectionAborted | ConnectionRefused
  | ConnectionReset | InterruptedKind | InvalidData | InvalidInput | NotConnected | NotFound | PermissionDenied
  | TimedOutKind | UnexpectedEof | Unsupported | WouldBlock | WriteZero | OtherKind.

#[global] Instance ErrorKind_dec : EqDecision ErrorKind.
Proof. solve_decision. Defined.

(** [io::Error]: its kind, the OS's number if it came from there, and whether
    it wraps [sched::Cancelled]. *)
Record IoError := mkErr { kind : ErrorKind; raw_os_error : option Z; inner_cancelled : bool }.

#[global] Instance IoError_dec : EqDecision IoError.
Proof. solve_decision. Defined.

Definition err_kind (k : ErrorKind) : IoError := mkErr k None false.

(** [cancelled], [is_cancelled_error] and [timed_out] *)
Definition cancelled : IoError := mkErr OtherKind None true.
Definition is_cancelled_error (e : IoError) : bool := inner_cancelled e.
Definition timed_out : IoError := err_kind TimedOutKind.

Definition is_kind (k : ErrorKind) (e : IoError) : bool := bool_decide (kind e = k).

Inductive result (A E : Type) := Ok (a : A) | Err (e : E).
#[global] Arguments Ok {A E} a.
#[global] Arguments Err {A E} e.

Definition io_result (A : Type) : Type := result A IoError.

Definition map_ok {A B E} (f : A -> B) (r : result A E) : result B E :=
  match r with Ok a => Ok (f a) | Err e => Err e end.

Definition map_err {A E E'} (f : E -> E') (r : result A E) : result A E' :=
  match r with Ok a => Ok a | Err e => Err (f e) end.

Definition is_ok {A E} (r : result A E) : bool := match r with Ok _ => true | Err _ => false end.

(** ** Computations *)

Definition io (W A : Type) : Type := W -> option (A * W).

#[global] Instance io_ret W : MRet (io W) := fun A a w => Some (a, w).
#[global] Instance io_bind W : MBind (io W) := fun A B k m w =>
  match m w with Some (a, w') => k a w' | None => None end.

(** A step of the world outside. *)
Definition act {W A} (f : W -> A * W) : io W A := fun w => Some (f w).
Definition get {W A} (f : W -> A) : io W A := fun w => Some (f w, w).

(** Rust's [?]. *)
Definition try_bind {W A B E} (m : io W (result A E)) (k : A -> io W (result B E)) : io W (result B E) :=
  r ← m; match r with Ok a => k a | Err e => mret (Err e) end.

Notation "x <-? m ; k" := (try_bind m (fun x => k)) (at level 20, m at level 100, k at level 200, right associativity) : roc_scope.
Local Open Scope roc_scope.

(** ** The scheduler's waits *)

(** What [watch_io] says: an error, that the socket is closed, or that the
    wait is registered. *)
Inductive Watched := WatchFailed (e : IoError) | WatchClosed | WatchAdded.

(** What the rest of the host uses of the scheduler. *)
Class Sched (W : Type) := {
  now : W -> Z;
  (** [watch_io], for a descriptor, to read or to write. *)
  watch_io : Z -> bool -> W -> Watched * W;
  (** [begin_wait] and [wait_suspended]: wait until woken or the deadline. *)
  wait_suspended : deadline -> W -> Woke * W;
  consume_budget : W -> W;
}.

Class SchedLaws (W : Type) `{Sched W} := {
  watch_later : forall fd wr w, now w <= now (watch_io fd wr w).2;
  wait_later : forall d w, now w <= now (wait_suspended d w).2;
  budget_later : forall w, now w <= now (consume_budget w);
  (** Registering with the event queue doesn't time out or block. *)
  watch_error : forall fd wr w e w', watch_io fd wr w = (WatchFailed e, w') ->
    kind e <> TimedOutKind /\ kind e <> WouldBlock /\ kind e <> InterruptedKind;
  timed_out_past : forall d w w', wait_suspended d w = (TimedOut, w') -> past d (now w') = true;
}.

Section Waits.
Context {W : Type} `{Sched W}.

(** [wait_io], in a task. *)
Definition wait_io (fd : Z) (writable : bool) (deadline : deadline) (w : W) : io_result unit * W :=
  if past deadline (now w) then (Err timed_out, w)
  else match watch_io fd writable w with
       | (WatchFailed e, w) => (Err e, w)
       | (WatchClosed, w) => (Ok tt, w)
       | (WatchAdded, w) =>
           match wait_suspended deadline w with
           | (Ready, w) => (Ok tt, w)
           | (TimedOut, w) => (Err timed_out, w)
           | (Cancelled, w) => (Err cancelled, w)
           end
       end.

(** [sleep], in a task: [true] once the time has passed, [false] if the task
    was cancelled. *)
Fixpoint sleep_loop (fuel : nat) (deadline : deadline) : io W bool :=
  match fuel with
  | O => fun _ => None
  | S fuel =>
      woke ← act (wait_suspended deadline);
      match woke with
      | TimedOut => mret true
      | Cancelled => mret false
      | Ready => sleep_loop fuel deadline
      end
  end.

Definition sleep (fuel : nat) (ns : Z) : io W bool :=
  t ← get now; sleep_loop fuel (instant_checked_add t ns).

End Waits.

(** ** Facts *)

Section WaitFacts.
Context {W : Type} `{SchedLaws W}.

Lemma wait_io_later fd wr d w r w' : wait_io fd wr d w = (r, w') -> now w <= now w'.
Proof.
  unfold wait_io. destruct (past d (now w)); [intros [= <- <-]; lia|].
  pose proof (watch_later fd wr w) as Hw. destruct (watch_io fd wr w) as [[e| |] w1]; simpl in Hw; try (intros [= <- <-]; lia).
  pose proof (wait_later d w1) as Hs. destruct (wait_suspended d w1) as [[] w2]; simpl in Hs; intros [= <- <-]; lia.
Qed.

(** A wait fails with [TimedOut] only past its deadline, and never with an
    error that means to try again. *)
Lemma wait_io_error fd wr d w e w' :
  wait_io fd wr d w = (Err e, w') ->
  (kind e = TimedOutKind -> past d (now w') = true) /\ kind e <> WouldBlock /\ kind e <> InterruptedKind.
Proof.
  unfold wait_io. destruct (past d (now w)) eqn:Ep; [intros [= <- <-]; by rewrite Ep|].
  destruct (watch_io fd wr w) as [[e'| |] w1] eqn:Ew; [|done|].
  - intros [= <- <-]. destruct (watch_error _ _ _ _ _ Ew) as (? & ? & ?). by split_and!.
  - destruct (wait_suspended d w1) as [[] w2] eqn:Es; [done| |]; intros [= <- <-]; split_and!; try done.
    intros _. by apply timed_out_past in Es.
Qed.

Lemma sleep_loop_past fuel d w w' :
  sleep_loop fuel d w = Some (true, w') -> past d (now w') = true.
Proof.
  revert w. induction fuel as [|fuel IH]; intros w; [done|]. cbn. unfold mbind, io_bind, act.
  destruct (wait_suspended d w) as [[] w1] eqn:Es; [apply IH|intros [= <-]; by eapply timed_out_past|done].
Qed.

Lemma past_mono d t t' : t <= t' -> past d t = true -> past d t' = true.
Proof. destruct d; simpl; [|done]. lia. Qed.

End WaitFacts.
