(* ===== verification/Clock.v ===== *)
(** * Clocks and sleeping ([src/time.rs], and the wall clock of [src/log.rs])

    The monotonic clock the program reads counts nanoseconds from when the
    host started, as a [u64]; sleeping is the scheduler's [sleep].  The wall
    clock counts them from 1970, as an [i64]. *)
From S2P Require Import Prelude TaskProto Io.
Local Open Scope Z_scope.

Module Clock.

Section Clock.
Context {W : Type} `{Sched W}.

(** [start]: the [OnceLock] fixed by [init]. *)
Variable start : Z.

(** [roc_time_now_ns]: [as u64] drops the high bits. *)
Definition roc_time_now_ns (w : W) : Z := wrap 64 (now w - start).

(** [roc_time_sleep_ns] *)
Definition roc_time_sleep_ns (fuel : nat) (ns : Z) : io W bool := sleep fuel ns.

Context `{!SchedLaws W}.

Lemma sleep_loop_later fuel d w b w' : sleep_loop fuel d w = Some (b, w') -> now w <= now w'.
Proof.
  revert w. induction fuel as [|fuel IH]; intros w; [done|]. cbn [sleep_loop]. unfold mbind, io_bind, act.
  pose proof (wait_later d w) as Hl. destruct (wait_suspended d w) as [[] w1]; cbn in Hl; [|by intros [= <- <-]..].
  intros Hs%IH. lia.
Qed.

(** A program that reads the clock, sleeps and reads it again: if the sleep
    wasn't cut short by a cancellation, the second reading is later by at
    least the time asked for; in any case it is not earlier, in the 584 years
    a [u64] lasts; and a time past what the system's clock can name is a sleep
    that only a cancellation ends. *)
Theorem sleep_by_the_clock fuel ns w slept w' :
  start <= now w -> now w' - start <= U64_MAX -> roc_time_sleep_ns fuel ns w = Some (slept, w') ->
  0 <= roc_time_now_ns w <= roc_time_now_ns w' /\
  (slept = true -> roc_time_now_ns w + ns <= roc_time_now_ns w') /\
  (instant_checked_add (now w) ns = None -> slept = false).
Proof.
  intros Hs Hmax E. unfold roc_time_sleep_ns, sleep, mbind, io_bind, get in E.
  pose proof (sleep_loop_later _ _ _ _ _ E) as Hl.
  unfold roc_time_now_ns, U64_MAX, wrap in *. rewrite !Z.mod_small by lia.
  assert (slept = true -> past (instant_checked_add (now w) ns) (now w') = true) as Hp by (intros ->; by eapply sleep_loop_past).
  split; [lia|]. split.
  - intros Ht. specialize (Hp Ht). unfold instant_checked_add in Hp. destruct (_ <=? _); [|done]. cbn in Hp. lia.
  - intros Hn. rewrite Hn in Hp. destruct slept; [|done]. by specialize (Hp eq_refl).
Qed.

End Clock.

(** A world that is its clock, where a wait with a deadline lasts until it. *)
#[local] Instance clock_sched : Sched Z := {
  now := id; watch_io _ _ w := (WatchAdded, w);
  wait_suspended d w := match d with Some t => (TimedOut, Z.max w t) | None => (Cancelled, w) end;
  consume_budget := id;
}.

#[local] Instance clock_laws : SchedLaws Z.
Proof.
  split; cbn; try (intros; lia); try done.
  - intros [t|] w; cbn; lia.
  - intros [t|] w w' [= <-]. cbn. lia.
Qed.

Lemma sleep_by_the_clock_witness : roc_time_sleep_ns 1 5 12 = Some (true, 17) /\ roc_time_now_ns 10 12 + 5 <= roc_time_now_ns 10 17.
Proof.
  split; [reflexivity|].
  destruct (sleep_by_the_clock 10 1 5 12 true 17) as (_ & H & _); [cbn; lia|cbn; unfold U64_MAX; lia|reflexivity|]. exact (H eq_refl).
Defined.

(** ** The wall clock *)

Definition I64_MAX : Z := 2 ^ 63 - 1.
Definition I64_MIN : Z := - 2 ^ 63.

(** [now_nanos], of a [SystemTime] so many nanoseconds after the epoch:
    [duration_since] measures one way or the other. *)
Definition now_nanos (t : Z) : Z :=
  if 0 <=? t then if t <=? I64_MAX then t else I64_MAX
  else let before := - t in if before <=? I64_MAX then - before else I64_MIN.

(** [now_millis]: [div_euclid] by a positive number rounds down. *)
Definition now_millis (t : Z) : Z := now_nanos t / 1000000.

(** The wall clock is the time, or the nearest an [i64] has, and never runs
    against it; its milliseconds round down on either side of the epoch, so
    each lasts as long. *)
Theorem wall_clock_clamped t t' : t <= t' ->
  I64_MIN <= now_nanos t <= I64_MAX /\ (I64_MIN <= t <= I64_MAX -> now_nanos t = t) /\
  now_nanos t <= now_nanos t' /\ now_millis t <= now_millis t' /\
  (I64_MIN <= t <= I64_MAX -> now_millis t * 1000000 <= t < (now_millis t + 1) * 1000000).
Proof.
  intros Ht. assert (forall x, now_nanos x = Z.max I64_MIN (Z.min x I64_MAX)) as E.
  { intros x. unfold now_nanos. cbv zeta. unfold I64_MIN, I64_MAX. repeat case_goal; lia. }
  unfold now_millis. rewrite !E. split_and!; [unfold I64_MIN, I64_MAX in *; lia..|apply Z.div_le_mono; [lia|unfold I64_MIN, I64_MAX in *; lia]|].
  intros H. replace (Z.max I64_MIN (Z.min t I64_MAX)) with t by lia. pose proof (Z.div_mod t 1000000). pose proof (Z.mod_pos_bound t 1000000). lia.
Qed.

Lemma wall_clock_clamped_witness : now_nanos (-1) = -1 /\ now_millis (-1) = -1 /\ now_nanos (-1) <= now_nanos (2 ^ 70).
Proof. split; [reflexivity|]. split; [reflexivity|]. exact (proj1 (proj2 (proj2 (wall_clock_clamped (-1) (2 ^ 70) ltac:(lia))))). Defined.

End Clock.
