(* ===== verification/PlainWait.v ===== *)
(** * Waiting for a socket without a task ([src/sched.rs], [wait_io_blocking])

    A thread that runs no task waits for a socket on an event queue of its
    own, made for that one wait, polling for an hour at most at a time. *)
From S2P Require Import Prelude TaskProto RunQueue Io.
Local Open Scope Z_scope.
Local Open Scope roc_scope.

Module PlainWait.

(** The event queue ([mio::Poll]): [poll] says whether there are events. *)
Class PollOs (W : Type) := {
  poll_now : W -> Z;
  poll_new : W -> io_result unit * W;
  poll_register : Z -> bool -> W -> io_result unit * W;
  poll : option Z -> W -> io_result bool * W;
}.

Section Wait.
Context {W : Type} `{!PollOs W}.

(** The time to poll for. *)
Definition timeout (d : deadline) (now : Z) : option Z := option_map (fun at_ => Z.min (saturating_sub at_ now) MAX_POLL_WAIT) d.

(** The loop of [wait_io_blocking]. *)
Fixpoint poll_loop (fuel : nat) (d : deadline) : io W (io_result unit) :=
  match fuel with
  | O => fun _ => None
  | S fuel =>
      t ← get (fun w => timeout d (poll_now w));
      r ← act (poll t);
      match r with
      | Err e => if is_kind InterruptedKind e then poll_loop fuel d else mret (Err e)
      | Ok true => mret (Ok tt)
      | Ok false => late ← get (fun w => past d (poll_now w)); if late : bool then mret (Err timed_out) else poll_loop fuel d
      end
  end.

(** [wait_io_blocking] *)
Definition wait_io_blocking (fuel : nat) (fd : Z) (writable : bool) (d : deadline) : io W (io_result unit) :=
  _ <-? act poll_new;
  _ <-? act (poll_register fd writable);
  poll_loop fuel d.

(** ** When it comes back *)

(** What the queue promises: time goes on, and a poll that finds nothing has
    waited as long as it was told, for good where it was told nothing;
    [events] counts what interrupts it. *)
Class PollLaws (ready : W -> bool) (events : W -> nat) : Prop := {
  poll_later : forall t w, poll_now w <= poll_now (poll t w).2;
  poll_waits : forall t w w', poll t w = (Ok false, w') -> (events w' <= events w)%nat /\ exists n, t = Some n /\ poll_now w + n <= poll_now w';
  poll_ready : forall t w w', poll t w = (Ok true, w') -> ready w' = true;
  poll_errors : forall t w e w', poll t w = (Err e, w') -> kind e <> TimedOutKind /\ (is_kind InterruptedKind e = true -> (events w' < events w)%nat);
}.

Context (ready : W -> bool) (events : W -> nat) `{!PollLaws ready events}.

(** The turns left: one for each interruption, and for each hour. *)
Definition hours (d : deadline) (now : Z) : nat := match d with Some at_ => Z.to_nat (saturating_sub at_ now / MAX_POLL_WAIT) | None => 0 end.

Lemma hours_later d now now' : now <= now' -> (hours d now' <= hours d now)%nat.
Proof.
  intros Hn. destruct d as [at_|]; cbn; [|done]. apply Z2Nat.inj_le; [apply Z.div_pos..|apply Z.div_le_mono]; unfold saturating_sub, MAX_POLL_WAIT; lia.
Qed.

Lemma hours_less at_ now now' : past (Some at_) now' = false -> now + Z.min (saturating_sub at_ now) MAX_POLL_WAIT <= now' ->
  (hours (Some at_) now' < hours (Some at_) now)%nat.
Proof.
  unfold hours, saturating_sub. intros Hp Hn. cbn in Hp. assert (now' < at_) as Hlt by lia.
  assert (0 < MAX_POLL_WAIT) by (unfold MAX_POLL_WAIT; lia).
  assert (MAX_POLL_WAIT <= at_ - now) by lia. rewrite !Z.max_r by lia.
  assert ((at_ - now') / MAX_POLL_WAIT <= (at_ - now - MAX_POLL_WAIT) / MAX_POLL_WAIT) as Hd by (apply Z.div_le_mono; lia).
  replace (at_ - now - MAX_POLL_WAIT) with (at_ - now + (-1) * MAX_POLL_WAIT) in Hd by lia. rewrite Z.div_add in Hd by lia.
  assert (0 <= (at_ - now') / MAX_POLL_WAIT) as Hp0 by (apply Z.div_pos; lia).
  revert Hd Hp0. generalize ((at_ - now') / MAX_POLL_WAIT), ((at_ - now) / MAX_POLL_WAIT). lia.
Qed.

Lemma poll_loop_returns fuel d w : (events w + hours d (poll_now w) < fuel)%nat ->
  exists r w', poll_loop fuel d w = Some (r, w') /\ poll_now w <= poll_now w' /\
    (r = Ok tt -> ready w' = true) /\ (r = Err timed_out -> past d (poll_now w') = true).
Proof.
  revert w. induction fuel as [|fuel IH]; intros w Hf; [lia|]. cbn [poll_loop]. unfold mbind, io_bind, get, act, mret, io_ret.
  pose proof (poll_later (timeout d (poll_now w)) w) as Hl. destruct (poll _ w) as [r w1] eqn:Ep. cbn [snd] in Hl.
  assert (forall w1, poll_now w <= poll_now w1 -> (events w1 + hours d (poll_now w1) < events w + hours d (poll_now w))%nat ->
    exists r w', poll_loop fuel d w1 = Some (r, w') /\ poll_now w <= poll_now w' /\ (r = Ok tt -> ready w' = true) /\ (r = Err timed_out -> past d (poll_now w') = true)) as Hnext.
  { intros w2 Hw Hm. destruct (IH w2 ltac:(lia)) as (r' & w' & E & Hw' & H). exists r', w'. split; [done|]. split; [lia|done]. }
  destruct r as [[]|e].
  - exists (Ok tt), w1. split_and!; [done|done| |done]. intros _. by eapply poll_ready.
  - destruct (poll_waits _ _ _ Ep) as (He & n & En & Hn). destruct d as [at_|]; [|done]. cbn in En. injection En as <-.
    destruct (past (Some at_) (poll_now w1)) eqn:El; [by exists (Err timed_out), w1|]. apply Hnext; [done|]. pose proof (hours_less _ _ _ El Hn). lia.
  - destruct (poll_errors _ _ _ _ Ep) as [Hk Hi]. destruct (is_kind InterruptedKind e); [|exists (Err e), w1; split_and!; [done..|by intros [= ->]]].
    specialize (Hi eq_refl). apply Hnext; [done|]. pose proof (hours_later d _ _ Hl). lia.
Qed.

(** A thread that waits for a socket comes back: for an event or an error,
    or once its deadline has passed and not before; interruptions don't end
    the wait; it polls at most once for each of them and for each hour it has
    left, and no poll is told to last beyond the deadline. *)
Theorem plain_wait_ends fuel fd wr d w :
  (forall w w' r, poll_new w = (r, w') -> poll_now w <= poll_now w' /\ (events w' <= events w)%nat /\ r <> Err timed_out) ->
  (forall w w' r, poll_register fd wr w = (r, w') -> poll_now w <= poll_now w' /\ (events w' <= events w)%nat /\ r <> Err timed_out) ->
  (events w + hours d (poll_now w) < fuel)%nat ->
  (exists r w', wait_io_blocking fuel fd wr d w = Some (r, w') /\ (r = Ok tt -> ready w' = true) /\ (r = Err timed_out -> past d (poll_now w') = true)) /\
  (forall at_ now n, d = Some at_ -> now <= at_ -> timeout d now = Some n -> 0 <= n <= MAX_POLL_WAIT /\ now + n <= at_).
Proof.
  intros Hnew Hreg Hf. split.
  - unfold wait_io_blocking, try_bind, mbind, io_bind, act, mret, io_ret. destruct (poll_new w) as [r1 w1] eqn:E1.
    destruct (Hnew _ _ _ E1) as (Hl1 & He1 & Hr1). destruct r1 as [[]|e]; [|by eexists (Err e), w1].
    destruct (poll_register fd wr w1) as [r2 w2] eqn:E2. destruct (Hreg _ _ _ E2) as (Hl2 & He2 & Hr2). destruct r2 as [[]|e]; [|by eexists (Err e), w2].
    destruct (poll_loop_returns fuel d w2) as (r & w' & E & _ & H); [|by eexists r, w'].
    pose proof (hours_later d _ _ (Z.le_trans _ _ _ Hl1 Hl2)). lia.
  - intros at_ now n -> Hn [= <-]. unfold saturating_sub, MAX_POLL_WAIT. lia.
Qed.

End Wait.

(** A world that is its clock, where nothing ever comes. *)
#[local] Instance clock_poll : PollOs Z := {
  poll_now := id; poll_new w := (Ok tt, w); poll_register _ _ w := (Ok tt, w);
  poll t w := match t with Some n => (Ok false, w + Z.max 0 n) | None => (Ok true, w) end;
}.
#[local] Instance clock_poll_laws : PollLaws (fun _ => true) (fun _ : Z => 0%nat).
Proof.
  split; cbn.
  - intros [n|] w; cbn; lia.
  - intros [n|] w w' [= <-]. split; [done|]. exists n. split; [done|]. cbn. lia.
  - done.
  - by intros [n|] w e w'.
Qed.

Lemma plain_wait_ends_witness : exists r w', wait_io_blocking 3 4 false (Some (MAX_POLL_WAIT + 5)) 0 = Some (r, w') /\ r = Err timed_out /\ past (Some (MAX_POLL_WAIT + 5)) w' = true.
Proof.
  destruct (plain_wait_ends (fun _ => true) (fun _ : Z => 0%nat) 3 4 false (Some (MAX_POLL_WAIT + 5)) 0) as [(r & w' & E & _ & Ht) _].
  - intros w w' r [= <- <-]. by split_and!.
  - intros w w' r [= <- <-]. by split_and!.
  - vm_compute. lia.
  - exists r, w'. split; [exact E|]. vm_compute in E. injection E as <- <-. split; [reflexivity|]. exact (Ht eq_refl).
Defined.

End PlainWait.
