(* ===== verification/Blocking.v ===== *)
(** * Blocking calls on helper threads, and name resolution
    ([src/sched.rs], [src/resolve.rs])

    [blocking] hands a function to a thread of its own and waits for its
    result in a cell the two share, under the cell's lock; the wait is the one
    of [Sema.v].  Getting the thread's slot before that is [Slots] of
    [SchedLock.v].  [lookup] runs the system's resolver that way. *)
From S2P Require Import Prelude TaskProto Waiters Sema SchedLock Io.
Local Open Scope Z_scope.

Module Blocking.

Section Blocking.
Context {R : Type}.
(** What [f] returns, and the caller's deadline. *)
Variables (value : R) (by_ : deadline).

(** The caller: about to look into the cell, waiting, or done. *)
Inductive Caller := Looking | Waiting | Returned (r : io_result (option R)).

(** [Arc<Mutex<(Option<R>, Waiters)>>], whether the thread has put its value
    there, the caller, and the clock.  [tasks] holds the caller's wait. *)
Inductive Thread := Never | Running | Done.
Record Sys := mkSys { cell : option R; waiters : Waiters; tasks : list St; fresh : Z; thread : Thread; caller : Caller; clock : instant }.

(** Up to the loop: [claim] is what [claim_blocking_slot] gave, [spawned] what
    starting the thread did.  Outside a task, with no deadline, [f] just
    runs. *)
Definition enter (in_worker : bool) (claim : Slots.Claim) (spawned : io_result unit) (now : instant) : Sys :=
  let at_ c t := mkSys None Waiters_new [Out] 1 t c now in
  if bool_decide (by_ = None) && negb in_worker then at_ (Returned (Ok (Some value))) Done
  else match claim with
       | Slots.Failed Cancelled => at_ (Returned (Err cancelled)) Never
       | Slots.Failed _ => at_ (Returned (Ok None)) Never
       | _ => match spawned with
              | Err e => at_ (Returned (Err e)) Never
              | Ok _ => at_ Looking Running
              end
       end.

Definition abs (s : Sys) : Sema := mkSema 0 (waiters s) (tasks s) (fresh s).
Definition with_sema (x : Sema) (c : Caller) (s : Sys) : Sys := mkSys (cell s) (Sema.waiters x) (Sema.tasks x) (Sema.fresh x) (thread s) c (clock s).

(** The end of the thread: [result.0 = Some(value); result.1.wake_all()] *)
Definition finish (s : Sys) : Sys :=
  let x := notify_all (abs s) in mkSys (Some value) (Sema.waiters x) (Sema.tasks x) (Sema.fresh x) Done (caller s) (clock s).

(** An iteration of the loop, under the lock. *)
Definition look (s : Sys) : Sys :=
  match cell s with
  | Some v => mkSys None (waiters s) (tasks s) (fresh s) (thread s) (Returned (Ok (Some v))) (clock s)
  | None =>
      if past by_ (clock s) then with_sema (abs s) (Returned (Ok None)) s
      else with_sema (park 0 (abs s)) Waiting s
  end.

(** Back from [park]. *)
Definition resume (id : Z) (e : Woke) (s : Sys) : Sys :=
  let s := with_sema (unpark 0 id (abs s)) Looking s in
  if bool_decide (e = Cancelled) then with_sema (abs s) (Returned (Err cancelled)) s else look s.

Inductive step : Sys -> Sys -> Prop :=
  | b_look s : caller s = Looking -> step s (look s)
  | b_resume s st id e : caller s = Waiting -> tasks s !! 0%nat = Some st -> st_id st = Some id -> end_ok st e -> step s (resume id e s)
  | b_finish s : thread s = Running -> step s (finish s)
  (** the clock, or [cancel], ends the wait *)
  | b_stop s : step s (with_sema (stop 0 (abs s)) (caller s) s)
  | b_tick s now : clock s <= now -> step s (mkSys (cell s) (waiters s) (tasks s) (fresh s) (thread s) (caller s) now).


(** A slot is refused to a cancelled caller, or at the deadline. *)
Definition refusal (claim : Slots.Claim) (now : instant) : Prop :=
  match claim with Slots.Failed TimedOut => past by_ now = true | Slots.Failed Ready => False | _ => True end.

Definition reachable (w : bool) (claim : Slots.Claim) (spawned : io_result unit) (now : instant) (s : Sys) : Prop :=
  rtc step (enter w claim spawned now) s.

(** ** The cell and the caller *)

(** What a call of [blocking] has returned. *)
Definition result_ok (spawned : io_result unit) (s : Sys) : Prop :=
  match caller s with
  | Returned (Ok (Some v)) => v = value /\ thread s = Done
  | Returned (Ok None) => past by_ (clock s) = true
  | Returned (Err e) => e = cancelled \/ thread s = Never /\ spawned = Err e
  | _ => thread s <> Never
  end.

Record Inv (spawned : io_result unit) (s : Sys) : Prop := {
  b_reg : Reg (abs s);
  b_cell : cell s = (match thread s with Done => match caller s with Returned (Ok (Some _)) => None | _ => Some value end | _ => None end);
  b_out : caller s <> Waiting -> tasks s = [Out];
  b_in : caller s = Waiting -> exists st, tasks s = [st] /\ st <> Out;
  b_awake : thread s = Done -> ~ asleep (tasks s);
  b_result : result_ok spawned s;
}.

(** A caller that isn't waiting doesn't sleep. *)
Lemma out_awake : ~ asleep [Out].
Proof. intros (t & w & id & H). destruct t as [|[|t]]; discriminate. Qed.

Lemma enter_inv w claim spawned now : refusal claim now -> Inv spawned (enter w claim spawned now).
Proof.
  intros Hc. unfold enter. pose proof (sema_new_reg 0 1) as Hr. pose proof out_awake.
  destruct (bool_decide (by_ = None) && negb w); [by split|].
  destruct claim as [|[| |]|]; simpl in Hc; try done; try (destruct spawned); split; unfold result_ok; simpl; first [done|auto].
Qed.

Lemma cell_look_inv spawned s : Inv spawned s -> caller s = Looking -> Inv spawned (look s).
Proof.
  intros [Hr Hc Ho Hi Ha Hres] Ec. unfold result_ok in Hres. rewrite Ec in *. specialize (Ho ltac:(done)).
  unfold look. destruct (cell s) as [v|] eqn:Ecell.
  - destruct (thread s) eqn:Ef; try discriminate.
    split; unfold result_ok; simpl; rewrite ?Ef; try done. naive_solver.
  - assert (thread s <> Done) as Hnd by (intros E; by rewrite E in Hc).
    destruct (past by_ (clock s)) eqn:Ep.
    + split; simpl; try done. rewrite Ecell. by destruct (thread s).
    + assert (Sema.tasks (abs s) !! 0%nat = Some Out) as Hout by (simpl; by rewrite Ho).
      split; simpl; rewrite ?Ecell; try done.
      * apply (reg_park 0 _ Hr Hout).
      * intros _. rewrite Ho. eexists. split; [reflexivity|done].
Qed.

(** Back from [park] the caller is where it was before it. *)
Lemma unpark_inv spawned s st id :
  Inv spawned s -> caller s = Waiting -> tasks s !! 0%nat = Some st -> st_id st = Some id ->
  Inv spawned (with_sema (unpark 0 id (abs s)) Looking s).
Proof.
  intros [Hr Hc Ho Hi Ha Hres] Ec Et Eid. unfold result_ok in Hres. rewrite Ec in *.
  destruct (Hi eq_refl) as (st' & Ets & Hne). rewrite Ets in *. simplify_eq/=.
  split; simpl; try done.
  - apply (reg_unpark 0 st id _ Hr); [simpl; by rewrite Ets|done].
  - by rewrite Ets.
  - intros Hf. rewrite Ets. apply out_awake.
Qed.

Lemma resume_inv spawned s st id e :
  Inv spawned s -> caller s = Waiting -> tasks s !! 0%nat = Some st -> st_id st = Some id -> Inv spawned (resume id e s).
Proof.
  intros Hinv Ec Et Eid. pose proof (unpark_inv _ _ _ _ Hinv Ec Et Eid) as Hu. unfold resume.
  case_bool_decide; [|by apply cell_look_inv].
  destruct Hu as [Hr Hc Ho Hi Ha Hres]. split; try done; [intros _; by apply Ho|by left].
Qed.

Lemma finish_inv spawned s : Inv spawned s -> thread s = Running -> Inv spawned (finish s).
Proof.
  intros [Hr Hc Ho Hi Ha Hres] Ef. unfold result_ok in Hres. destruct (notify_all_effect _ Hr) as [Hr' _].
  pose proof (weaker_wake_list (entries (waiters s)) (tasks s)) as Hw.
  split; simpl; try done.
  - destruct (caller s) as [| |[[v|]|e]]; try done. destruct Hres. congruence.
  - intros Hn. rewrite (Ho Hn) in Hw |- *. inversion Hw as [|? st' ? ? He Hnil E1 E2]. inversion Hnil.
    destruct st', He; done.
  - intros Hn. destruct (Hi Hn) as (st & E & Hne). rewrite E in Hw |- *.
    inversion Hw as [|? st' ? ? He Hnil]. inversion Hnil. eexists. split; [done|].
    destruct He as [He _]. by destruct st, st'.
  - intros _. apply (notified_awake _ Hr).
  - unfold result_ok; simpl. destruct (caller s) as [| |[[v|]|e]]; try done; [tauto|]. left. destruct Hres as [?|[? _]]; congruence.
Qed.

Lemma stop_inv spawned s : Inv spawned s -> Inv spawned (with_sema (stop 0 (abs s)) (caller s) s).
Proof.
  intros [Hr Hc Ho Hi Ha Hres]. unfold result_ok in Hres. split; simpl; try done.
  - apply (reg_stop 0 _ Hr).
  - intros Hn. by rewrite (Ho Hn).
  - intros Hn. destruct (Hi Hn) as (st & -> & Hne). eexists. split; [done|]. by destruct st.
  - intros Hf Hs. apply (Ha Hf). eapply asleep_weaker; [apply weaker_stop|exact Hs].
Qed.

Lemma past_later d (t t' : instant) : past d t = true -> t <= t' -> past d t' = true.
Proof. destruct d; simpl; [|done]. rewrite !Z.leb_le. lia. Qed.

Lemma blocking_step_inv spawned s s' : Inv spawned s -> step s s' -> Inv spawned s'.
Proof.
  intros Hinv Hs. destruct Hs; eauto using cell_look_inv, resume_inv, finish_inv, stop_inv.
  destruct Hinv as [Hr Hc Ho Hi Ha Hres]. unfold result_ok in Hres. split; unfold result_ok; simpl; try done.
  destruct (caller s) as [| |[[v|]|e]]; try done. by eapply past_later.
Qed.

Lemma blocking_inv w claim spawned now s : refusal claim now -> reachable w claim spawned now s -> Inv spawned s.
Proof.
  intros Hc H. apply (rtc_invariant step (Inv spawned)) with (enter w claim spawned now);
    [intros; by eapply blocking_step_inv|done|by apply enter_inv].
Qed.

(** The value is there for the caller: its next turn returns it, and the
    caller has one, being awake. *)
Definition value_ready (s : Sys) : Prop :=
  match caller s with
  | Looking => caller (look s) = Returned (Ok (Some value))
  | Waiting => exists st id, tasks s !! 0%nat = Some st /\ st_id st = Some id /\ is_parked st = false /\
      forall e, e <> Cancelled -> caller (resume id e s) = Returned (Ok (Some value))
  | Returned _ => True
  end.

Lemma finished_ready spawned s : Inv spawned s -> thread s = Done -> value_ready s.
Proof.
  intros [Hr Hc Ho Hi Ha Hres] Hf. unfold value_ready. rewrite Hf in Hc. destruct (caller s) eqn:Ec; [| |done].
  - unfold look. by rewrite Hc.
  - destruct (Hi eq_refl) as (st & Et & Hne). exists st. specialize (Ha Hf). rewrite Et in Ha |- *.
    destruct st as [|w id|w id|w id]; [done| |exists id..].
    { destruct Ha. by exists 0%nat, w, id. }
    all: split_and!; try done; intros e He; unfold resume; rewrite bool_decide_eq_false_2 by done;
      unfold look; simpl; by rewrite Hc.
Qed.

(** C30: a function handed to a helper thread: what the call returns is that
    function's own value, once the thread is done; or nothing, but only past
    the deadline; or an error, because the caller was cancelled or the thread
    didn't start.  And when the thread is done its value isn't missed: the
    caller is not left asleep beside it, and its next turn that isn't a
    cancellation returns it. *)
Theorem blocking_returns_value w claim spawned now s :
  refusal claim now -> reachable w claim spawned now s ->
  result_ok spawned s /\ (thread s = Done -> value_ready s).
Proof.
  intros Hc Hs%blocking_inv; [|done]. split; [apply Hs|by eapply finished_ready].
Qed.

End Blocking.

(** [claim_blocking_slot]'s refusals are of the kind [blocking] counts on. *)
Lemma claim_refusal by_ t id e now s :
  refusal by_ (Slots.claim_resume t id e by_ now s).2 now /\
  refusal by_ (Slots.claim_iter t by_ now s).2 now.
Proof.
  assert (forall s, refusal by_ (Slots.claim_iter t by_ now s).2 now) as Hi.
  { intros s'. unfold Slots.claim_iter. case_match; [done|]. destruct (past by_ now) eqn:E; [done|]. by destruct (add_waker _ _). }
  split; [|apply Hi]. unfold Slots.claim_resume. case_bool_decide; [done|]. apply Hi.
Qed.

(** A call that waits, is woken by the thread, and returns its value: the
    slot is free, the deadline later. *)
Lemma blocking_returns_value_witness :
  let s0 := enter 7 (Some 9) true (Slots.claim_iter 0 (Some 9) 0 (Slots.Slots_new 1)).2 (Ok tt) 0 in
  let s := finish 7 (look (Some 9) s0) in
  caller s = Waiting /\ thread s = Done /\ value_ready 7 (Some 9) s.
Proof.
  intros s0 s. split_and!; [reflexivity..|].
  apply (blocking_returns_value 7 (Some 9) true (Slots.claim_iter 0 (Some 9) 0 (Slots.Slots_new 1)).2 (Ok tt) 0 s).
  - by apply claim_refusal with (id := 0) (e := Ready).
  - eapply rtc_l; [by apply (b_look 7 (Some 9) s0)|]. eapply rtc_l; [by apply (b_finish 7 (Some 9))|]. apply rtc_refl.
  - reflexivity.
Defined.

End Blocking.

(** ** Name resolution *)
Module Resolve.

Abbreviation str := (list Z).

(** What a lookup asks the system: an address "host:port", or a name alone
    (the source's pair with port 0). *)
Inductive Target := Address (a : str) | Name (n : str).

(** The world lookups run in: [blocking] around the system's resolver, which
    answers what [answer] allows.  The promises are [blocking]'s, see
    [Blocking.blocking_returns_value]; [fails e] says that a thread may not
    start, with [e]. *)
Class Resolver (W : Type) `{Sched W} := {
  blocking_lookup : deadline -> Target -> W -> io_result (option (io_result (list str))) * W;
  answer : Target -> io_result (list str) -> Prop;
  fails : IoError -> Prop;
  lookup_promise : forall d t w r w', blocking_lookup d t w = (r, w') ->
    match r with
    | Ok (Some a) => answer t a
    | Ok None => past d (now w') = true
    | Err e => e = cancelled \/ fails e
    end;
}.

Section Resolve.
Context {W : Type} `{Resolver W}.
(** [str::parse] of a [SocketAddr] and of an [IpAddr], and [SocketAddr::ip]. *)
Variables (parse_addr parse_ip : str -> option str) (ip : str -> str).

(** [lookup] *)
Definition lookup (t : Target) (d : deadline) (w : W) : io_result (list str) * W :=
  if past d (now w) then (Err timed_out, w)
  else match blocking_lookup d t w with
       | (Err e, w) => (Err e, w)
       | (Ok None, w) => (Err timed_out, w)
       | (Ok (Some a), w) => (a, w)
       end.

(** [socket_addrs] *)
Definition socket_addrs (address : str) (d : deadline) (w : W) : io_result (list str) * W :=
  match parse_addr address with
  | Some addr => (Ok [addr], w)
  | None => lookup (Address address) d w
  end.

(** [host_ips] *)
Definition host_ips (name : str) (d : deadline) (w : W) : io_result (list str) * W :=
  match parse_ip name with
  | Some a => (Ok [a], w)
  | None => match lookup (Name name) d w with
            | (Ok addrs, w) => (Ok (map ip addrs), w)
            | (Err e, w) => (Err e, w)
            end
  end.

(** How a lookup of [t] may end at [w']: with the resolver's answer, past the
    deadline, or because of the caller or the machine. *)
Definition looked_up (t : Target) (d : deadline) (r : io_result (list str)) (w' : W) : Prop :=
  answer t r \/ (r = Err timed_out /\ past d (now w') = true) \/ exists e, r = Err e /\ (e = cancelled \/ fails e).

Lemma lookup_ends t d w r w' : lookup t d w = (r, w') -> looked_up t d r w'.
Proof.
  unfold lookup, looked_up. destruct (past d (now w)) eqn:Ep; [naive_solver|].
  destruct (blocking_lookup d t w) as [r1 w1] eqn:Eb. apply lookup_promise in Eb.
  destruct r1 as [[a|]|e]; naive_solver.
Qed.

(** a literal address is its own answer, whatever the deadline, and
    nothing outside is asked; a name gets the system resolver's own answer,
    or [TimedOut], but only past the deadline, or the error of a cancelled
    caller or of a thread that didn't start; and a lookup whose deadline has
    passed asks nobody. *)
Theorem names_resolved address name d w :
  (forall a, parse_addr address = Some a -> socket_addrs address d w = (Ok [a], w)) /\
  (forall a, parse_ip name = Some a -> host_ips name d w = (Ok [a], w)) /\
  (parse_addr address = None ->
    looked_up (Address address) d (socket_addrs address d w).1 (socket_addrs address d w).2 /\
    (past d (now w) = true -> socket_addrs address d w = (Err timed_out, w))) /\
  (parse_ip name = None -> exists r,
    looked_up (Name name) d r (host_ips name d w).2 /\ (host_ips name d w).1 = map_ok (map ip) r /\
    (past d (now w) = true -> host_ips name d w = (Err timed_out, w))).
Proof.
  unfold socket_addrs, host_ips.
  split_and!; intros *; [by intros ->..|intros Hp|intros Hp]; rewrite Hp.
  - split; [apply (lookup_ends _ _ w), surjective_pairing|]. intros Hd. unfold lookup. by rewrite Hd.
  - destruct (lookup (Name name) d w) as [r w'] eqn:E. exists r.
    assert (past d (now w) = true -> r = Err timed_out /\ w' = w) as Hd.
    { intros Hd. unfold lookup in E. rewrite Hd in E. by simplify_eq. }
    apply lookup_ends in E. destruct r as [l|e]; split_and!; try done; intros [? ->]%Hd; congruence.
Qed.

End Resolve.

(** The clock alone, its resolver answering [10.0.0.1] for any name. *)
#[local] Instance clock_sched : Sched Z := {
  now := id; watch_io _ _ w := (WatchAdded, w); wait_suspended _ w := (Ready, w); consume_budget := id;
}.

#[local] Instance clock_resolver : Resolver Z.
Proof.
  refine {|
    blocking_lookup d t w := (Ok (Some (Ok [[49; 48; 46; 48; 46; 48; 46; 49]])), w + 1);
    answer t r := r = Ok [[49; 48; 46; 48; 46; 48; 46; 49]];
    fails e := False;
  |}.
  intros d t w r w' E. by simplify_eq.
Defined.

Lemma names_resolved_witness :
  let none := fun _ : str => None in
  (host_ips none (fun a => a) [97] (Some 3) 5).1 = Err timed_out /\
  exists r, looked_up (Name [97]) (Some 3) r (host_ips none (fun a => a) [97] (Some 3) 5).2.
Proof.
  intros none. split; [reflexivity|].
  destruct (names_resolved none none (fun a => a) [97] [97] (Some 3) 5) as (_ & _ & _ & Hn).
  destruct (Hn eq_refl) as (r & Hr & _). by exists r.
Defined.

End Resolve.
