(* ===== verification/Sockets.v ===== *)
(** * Socket operations ([src/sockets.rs])

    Deadlines, [Conn::retry] and what is built on it, and [Conn::close_now].
    The world holds the connection's shared state ([conn_of]): other tasks may
    close it or change its timeouts while this one waits. *)
From S2P Require Import Prelude TaskProto Io.
Local Open Scope Z_scope.
Local Open Scope roc_scope.

(** ** Deadlines *)

(** [deadline_after] *)
Definition deadline_after (ms now : Z) : deadline :=
  if ms =? 0 then None else instant_checked_add now (ms * 1000000).

(** [earliest] *)
Definition earliest (a b : deadline) : deadline :=
  match a, b with
  | Some a, Some b => Some (Z.min a b)
  | Some a, None => Some a
  | None, b => b
  end.

(** ** Connections *)

(** [Conn]: the descriptor, its timeouts and its closing flags. *)
Record Conn := mkConn { fd : Z; read_ms : Z; write_ms : Z; closed : bool }.

(** [ServerTimeouts] *)
Record ServerTimeouts := mkTimeouts { idle_ms : Z; st_write_ms : Z }.

(** [Conn::new] *)
Definition Conn_new (fd : Z) : Conn := mkConn fd 0 0 false.

Definition set_read_timeout_ms (ms : Z) (c : Conn) : Conn := mkConn (fd c) ms (write_ms c) (closed c).
Definition set_write_timeout_ms (ms : Z) (c : Conn) : Conn := mkConn (fd c) (read_ms c) ms (closed c).
Definition timeouts (c : Conn) : ServerTimeouts := mkTimeouts (read_ms c) (write_ms c).

(** [ServerTimeouts::apply] *)
Definition apply (t : ServerTimeouts) (c : Conn) : Conn :=
  set_write_timeout_ms (st_write_ms t) (set_read_timeout_ms (idle_ms t) c).

(** A connection in the world. *)
Class HasConn (W : Type) := conn_of : W -> Conn.

Section Operations.
Context {W : Type} `{Sched W, HasConn W}.

Definition is_closed (w : W) : bool := closed (conn_of w).
Definition read_deadline (w : W) : deadline := deadline_after (read_ms (conn_of w)) (now w).
Definition write_deadline (w : W) : deadline := deadline_after (write_ms (conn_of w)) (now w).

(** [Conn::retry] *)
Fixpoint retry {R} (fuel : nat) (writable : bool) (deadline : deadline) (op : W -> io_result R * W) : io W (io_result R) :=
  match fuel with
  | O => fun _ => None
  | S fuel =>
      r ← act op;
      match r with
      | Err e =>
          if is_kind WouldBlock e then
            f ← get (fun w => fd (conn_of w));
            _ <-? act (wait_io f writable deadline);
            c ← get is_closed;
            if c : bool then mret (Err (err_kind NotConnected)) else retry fuel writable deadline op
          else if is_kind InterruptedKind e then retry fuel writable deadline op
          else mret (Err e)
      | Ok a => _ ← act (fun w => (tt, consume_budget w)); mret (Ok a)
      end
  end.

(** [Conn::read_with] *)
Definition read_with {R} (fuel : nat) (op : W -> io_result R * W) : io W (io_result R) :=
  d ← get read_deadline; retry fuel false d op.

(** [Conn::wait_readable]: [peek] is the one-byte [recv] with [MSG_PEEK]. *)
Definition wait_readable (fuel : nat) (by_ : deadline) (peek : W -> io_result unit * W) : io W (io_result unit) :=
  d ← get (fun w => earliest (read_deadline w) by_); retry fuel false d peek.

(** [Conn::wait_writable] *)
Definition wait_writable (deadline : deadline) : io W (io_result unit) :=
  f ← get (fun w => fd (conn_of w)); act (wait_io f true deadline).

(** [Conn::write_all_with]: the outer fuel is for the writes, one byte or more
    each; the inner for the retries of each. *)
Fixpoint write_all_with (writes fuel : nat) (data : list Z) (write : list Z -> W -> io_result nat * W) : io W (io_result unit) :=
  match data with
  | [] => mret (Ok tt)
  | _ =>
      match writes with
      | O => fun _ => None
      | S writes =>
          d ← get write_deadline;
          written <-? retry fuel true d (write data);
          if (written =? 0)%nat then mret (Err (err_kind WriteZero))
          else write_all_with writes fuel (drop written data) write
      end
  end.

End Operations.

(** ** What the operations do *)

Section Facts.
Context {W : Type} `{SchedLaws W, HasConn W}.

(** How a [retry] can end, from a world [w1] its loop reached: the operation's
    own answer, a failed wait, or a wait on a closed socket.  [P] is anything
    that unanswered tries and waits keep. *)
Lemma retry_ends {R} (P : W -> Prop) fuel wr d (op : W -> io_result R * W) w r w' :
  (forall w e w', P w -> op w = (Err e, w') -> is_kind WouldBlock e || is_kind InterruptedKind e = true -> P w') ->
  (forall f w r w', P w -> wait_io f wr d w = (r, w') -> P w') ->
  P w -> retry fuel wr d op w = Some (r, w') ->
  match r with
  | Ok a => exists w1 w2, P w1 /\ op w1 = (Ok a, w2) /\ w' = consume_budget w2
  | Err e =>
      (exists w1, P w1 /\ op w1 = (Err e, w') /\ kind e <> WouldBlock /\ kind e <> InterruptedKind) \/
      (exists w1 f, P w1 /\ wait_io f wr d w1 = (Err e, w') /\ P w') \/
      (P w' /\ is_closed w' = true /\ e = err_kind NotConnected)
  end.
Proof.
  intros Hop Hwait. revert w. induction fuel as [|fuel IH]; intros w HP; [done|]. cbn.
  unfold mbind, io_bind, act, get, try_bind, mbind, io_bind. destruct (op w) as [[a|e] w1] eqn:Eo.
  - intros [= <- <-]. eauto.
  - destruct (is_kind WouldBlock e) eqn:Ewb.
    + assert (P w1) as HP1 by (eapply Hop; [exact HP|exact Eo|by rewrite Ewb]).
      destruct (wait_io (fd (conn_of w1)) wr d w1) as [[[]|e'] w2] eqn:Ew.
      * assert (P w2) as HP2 by eauto. destruct (is_closed w2) eqn:Ec; [|by apply IH].
        intros [= <- <-]. auto.
      * intros [= <- <-]. right. left. eauto 6.
    + destruct (is_kind InterruptedKind e) eqn:Ei.
      * apply IH. eapply Hop; [exact HP|exact Eo|by rewrite Ei, orb_true_r].
      * intros [= <- <-]. left. exists w. unfold is_kind in *. apply bool_decide_eq_false in Ewb, Ei. auto.
Qed.

(** [retry] never returns an error that means to try again, and its own
    timeouts come only past the deadline. *)
Lemma retry_error {R} fuel wr d (op : W -> io_result R * W) w e w' :
  retry fuel wr d op w = Some (Err e, w') ->
  kind e <> WouldBlock /\ kind e <> InterruptedKind /\
  (kind e = TimedOutKind -> past d (now w') = true \/ exists w1, op w1 = (Err e, w')).
Proof.
  intros Hr. apply (retry_ends (fun _ => True)) in Hr as [(w1 & _ & Ho & ? & ?)|[(w1 & f & _ & Hw & _)|(_ & _ & ->)]]; auto.
  - split_and!; eauto.
  - apply wait_io_error in Hw as (? & ? & ?). split_and!; auto.
  - by split_and!.
Qed.

(** Enough fuel: if the operation is answered after at most [busy] more
    unanswered tries, [retry] returns. *)
Lemma retry_returns {R} (busy : W -> nat) fuel wr d (op : W -> io_result R * W) w :
  (forall w e w1, op w = (Err e, w1) -> is_kind InterruptedKind e = true -> (busy w1 < busy w)%nat) ->
  (forall w e w1 f w2, op w = (Err e, w1) -> is_kind WouldBlock e = true -> wait_io f wr d w1 = (Ok tt, w2) ->
     (busy w2 < busy w)%nat) ->
  (busy w < fuel)%nat -> exists r w', retry fuel wr d op w = Some (r, w').
Proof.
  intros Hint Hwb. revert w. induction fuel as [|fuel IH]; intros w Hf; [lia|]. cbn.
  unfold mbind, io_bind, act, get, try_bind, mbind, io_bind. destruct (op w) as [[a|e] w1] eqn:Eo; [eauto|].
  destruct (is_kind WouldBlock e) eqn:Ewb.
  - destruct (wait_io (fd (conn_of w1)) wr d w1) as [[[]|e'] w2] eqn:Ew; [|eauto].
    destruct (is_closed w2); [eauto|]. apply IH. specialize (Hwb _ _ _ _ _ Eo Ewb Ew). lia.
  - destruct (is_kind InterruptedKind e) eqn:Ei; [|eauto]. apply IH. specialize (Hint _ _ _ Eo Ei). lia.
Qed.

End Facts.

(** ** Writing a stream *)

(** What a stream's [write] promises: what it took is the front of the data,
    and a failed write took nothing.  [sent] is what the stream has taken. *)
Class WriteLaws (W : Type) `{Sched W} (sent : W -> list Z) (write : list Z -> W -> io_result nat * W) := {
  write_ok : forall data w n w', write data w = (Ok n, w') -> (n <= length data)%nat /\ sent w' = sent w ++ take n data;
  write_err : forall data w e w', write data w = (Err e, w') -> sent w' = sent w;
  sent_watch : forall fd wr w, sent (watch_io fd wr w).2 = sent w;
  sent_wait : forall d w, sent (wait_suspended d w).2 = sent w;
  sent_budget : forall w, sent (consume_budget w) = sent w;
}.

Section Writing.
Context {W : Type} `{SchedLaws W, HasConn W} (sent : W -> list Z) (write : list Z -> W -> io_result nat * W)
        `{!WriteLaws W sent write}.

Lemma sent_wait_io f wr d w r w' : wait_io f wr d w = (r, w') -> sent w' = sent w.
Proof using All.
  unfold wait_io. destruct (past d (now w)); [congruence|].
  pose proof (sent_watch f wr w) as Hw. destruct (watch_io f wr w) as [[e| |] w1]; simpl in Hw; try congruence.
  pose proof (sent_wait d w1) as Hs. destruct (wait_suspended d w1) as [[] w2]; simpl in Hs; congruence.
Qed.

(** One [retry] of a write. *)
Lemma retry_write fuel d data w r w' :
  retry fuel true d (write data) w = Some (r, w') ->
  match r with
  | Ok n => (n <= length data)%nat /\ sent w' = sent w ++ take n data
  | Err e => sent w' = sent w /\ kind e <> WouldBlock /\ kind e <> InterruptedKind
  end.
Proof using All.
  intros Hk. assert (forall x e y, sent x = sent w -> write data x = (Err e, y) ->
    is_kind WouldBlock e || is_kind InterruptedKind e = true -> sent y = sent w) as Hop.
  { intros x e y Hx Ho _. apply write_err in Ho. congruence. }
  assert (forall f x r y, sent x = sent w -> wait_io f true d x = (r, y) -> sent y = sent w) as Hwait.
  { intros f x q y Hx Hw. apply sent_wait_io in Hw. congruence. }
  pose proof (retry_ends (fun x => sent x = sent w) _ _ _ _ _ _ _ Hop Hwait eq_refl Hk) as Hr.
  destruct r as [n|e].
  - destruct Hr as (w1 & w2 & Hw1 & Ho & ->). rewrite sent_budget, <- Hw1. by apply write_ok.
  - apply retry_error in Hk as (? & ? & _). split; [|done].
    destruct Hr as [(w1 & Hw1 & Ho & _)|[(w1 & f & _ & _ & ?)|(? & _)]]; [|done..].
    apply write_err in Ho. congruence.
Qed.

Lemma write_all_spec writes fuel data w r w' :
  write_all_with writes fuel data write w = Some (r, w') ->
  match r with
  | Ok _ => sent w' = sent w ++ data
  | Err e => (exists k, sent w' = sent w ++ take k data) /\ kind e <> WouldBlock /\ kind e <> InterruptedKind
  end.
Proof using All.
  revert data w. induction writes as [|writes IH]; intros data w; destruct data as [|b data]; cbn;
    try (intros [= <- <-]; by rewrite app_nil_r).
  unfold mbind, io_bind, get, try_bind, mbind, io_bind.
  destruct (retry fuel true (write_deadline w) (write (b :: data)) w) as [[[n|e] w1]|] eqn:Er; [| |done].
  - apply retry_write in Er as [Hn Hs]. destruct (Nat.eqb_spec n 0) as [->|Hn0].
    + intros [= <- <-]. split_and!; [|done..]. exists 0%nat. by rewrite Hs.
    + intros Hrec. apply IH in Hrec. rewrite Hs in Hrec. destruct r as [[]|e'].
      * by rewrite Hrec, <- app_assoc, take_drop.
      * destruct Hrec as ((k & Hk) & ?). split; [|done]. exists (n + k)%nat.
        rewrite Hk, <- app_assoc. f_equal. rewrite <- (take_drop n (b :: data)) at 3.
        rewrite take_app, take_take, length_take. f_equal; f_equal; lia.
  - intros [= <- <-]. apply retry_write in Er as (Hs & ?). split; [|done]. exists 0%nat. by rewrite Hs, app_nil_r.
Qed.

(** Fuel: [N] bounds the unanswered tries of a write. *)
Lemma write_all_returns (busy : W -> nat) (N writes : nat) data w :
  (forall data w e w1, write data w = (Err e, w1) -> is_kind InterruptedKind e = true -> (busy w1 < busy w)%nat) ->
  (forall data d w e w1 f w2, write data w = (Err e, w1) -> is_kind WouldBlock e = true ->
     wait_io f true d w1 = (Ok tt, w2) -> (busy w2 < busy w)%nat) ->
  (forall w, (busy w <= N)%nat) -> (length data <= writes)%nat ->
  exists r w', write_all_with writes (S N) data write w = Some (r, w').
Proof using All.
  intros Hi Hwb HN. revert data w. induction writes as [|writes IH]; intros data w Hl; destruct data as [|b data]; cbn [write_all_with];
    [eexists _, _; reflexivity|cbn in Hl; lia|eexists _, _; reflexivity|].
  unfold mbind, io_bind, get, try_bind, mbind, io_bind.
  edestruct (retry_returns busy (S N) true (write_deadline w) (write (b :: data)) w) as (r & w1 & Er); eauto.
  { specialize (HN w). lia. }
  rewrite Er. destruct r as [n|e]; [|eexists _, _; reflexivity]. destruct (Nat.eqb_spec n 0); [eexists _, _; reflexivity|].
  apply IH. rewrite length_drop. cbn in *. lia.
Qed.

(** C21: [Conn::write_all_with] delivers: given an OS that answers each write
    after at most [N] unanswered tries, it returns; on success the stream has
    taken exactly the data, in order; on an error it has taken a prefix of
    it, and the error is never one that only means to try again. *)
Theorem write_all_in_order (busy : W -> nat) (N : nat) data w :
  (forall data w e w1, write data w = (Err e, w1) -> is_kind InterruptedKind e = true -> (busy w1 < busy w)%nat) ->
  (forall data d w e w1 f w2, write data w = (Err e, w1) -> is_kind WouldBlock e = true ->
     wait_io f true d w1 = (Ok tt, w2) -> (busy w2 < busy w)%nat) ->
  (forall w, (busy w <= N)%nat) ->
  exists r w', write_all_with (length data) (S N) data write w = Some (r, w') /\
    match r with
    | Ok _ => sent w' = sent w ++ data
    | Err e => (exists k, sent w' = sent w ++ take k data) /\ kind e <> WouldBlock /\ kind e <> InterruptedKind
    end.
Proof using All.
  intros Hi Hwb HN. destruct (write_all_returns busy N (length data) data w) as (r & w' & Hr); auto.
  exists r, w'. split; [done|]. by eapply write_all_spec.
Qed.

End Writing.

(** ** A stream that takes two bytes at a time and is full in between *)

Module Toy.

Record World := mkWorld { t_now : Z; t_sent : list Z; t_busy : bool; t_conn : Conn }.

#[global] Instance toy_sched : Sched World := {|
  now := t_now;
  watch_io _ _ w := (WatchAdded, w);
  wait_suspended _ w := (Ready, mkWorld (t_now w + 1) (t_sent w) false (t_conn w));
  consume_budget w := w |}.

#[global] Instance toy_laws : SchedLaws World.
Proof. split; simpl; intros; simplify_eq; lia || done. Qed.

#[global] Instance toy_conn : HasConn World := t_conn.

Definition toy_write (data : list Z) (w : World) : io_result nat * World :=
  if t_busy w then (Err (err_kind WouldBlock), w)
  else let n := Nat.min 2 (length data) in (Ok n, mkWorld (t_now w) (t_sent w ++ take n data) true (t_conn w)).

#[global] Instance toy_write_laws : WriteLaws World t_sent toy_write.
Proof.
  split; simpl; try done; intros data w r w'; unfold toy_write; case_match; intros; simplify_eq; simpl; [|done].
  split; [repeat case_match; lia|done].
Qed.

Definition start : World := mkWorld 0 [] false (Conn_new 3).

End Toy.

Lemma write_all_in_order_witness :
  exists r w', write_all_with 5 2 [1;2;3;4;5] Toy.toy_write Toy.start = Some (r, w') /\
    match r with
    | Ok _ => Toy.t_sent w' = Toy.t_sent Toy.start ++ [1;2;3;4;5]
    | Err e => (exists k, Toy.t_sent w' = Toy.t_sent Toy.start ++ take k [1;2;3;4;5]) /\
               kind e <> WouldBlock /\ kind e <> InterruptedKind
    end.
Proof.
  apply (write_all_in_order Toy.t_sent Toy.toy_write (fun w => if Toy.t_busy w then 1%nat else 0%nat) 1 [1;2;3;4;5] Toy.start).
  - intros data w e w1. unfold Toy.toy_write. case_match; intros; by simplify_eq.
  - intros data d w e w1 f w2. unfold Toy.toy_write. destruct (Toy.t_busy w) eqn:E; [|done].
    intros [= <- <-] _. unfold wait_io. case_match; [done|]. intros [= <-]. simpl. lia.
  - intros w. case_match; lia.
Defined.

(** ** Closing a listener that tasks are waiting on *)

Module Closing.

(** What the process has: which open file each descriptor is, and the flags
    of this connection: [closed], and whether its waiters have been ended. *)
Record State := mkState { fds : gmap Z nat; c_closed : bool; reg_closed : bool }.

Definition set_fds (f : gmap Z nat) (s : State) : State := mkState f (c_closed s) (reg_closed s).

(** [Conn::close_now] on descriptor [fd].  [sock] is what [socket] returned,
    a new descriptor and open file; [dup2_ok] whether [dup2] succeeded.  The
    list is the states it goes through, oldest first, which other tasks can
    see. *)
Definition close_now (fd : Z) (sock : option (Z * nat)) (dup2_ok : bool) (s : State) : list State * bool :=
  if c_closed s then ([s], true)
  else match sock with
       | None => ([s], false)
       | Some (placeholder, file) =>
           let s1 := set_fds (<[placeholder := file]> (fds s)) s in
           let s2 := if dup2_ok then set_fds (<[fd := file]> (fds s1)) s1 else s1 in
           let s3 := set_fds (delete placeholder (fds s2)) s2 in
           if dup2_ok then
             let s4 := mkState (fds s3) true (reg_closed s3) in
             let s5 := mkState (fds s4) (c_closed s4) true in
             ([s1; s2; s3; s4; s5], true)
           else ([s1; s2; s3], false)
       end.

Definition after (tr : list State) (s : State) : State := default s (last tr).

(** Closing a listener under tasks that wait on it is safe at every moment
    another task may look: the waits are ended only once the socket is marked
    closed, and it is marked only once the listening file is off the
    descriptor; the descriptor's number stays this socket's, so it can't be
    reused under its registration; no descriptor leaks, on success or
    failure; after a failure nothing has changed, and closing again is a
    no-op. *)
Theorem close_now_safe fd old sock dup2_ok s tr ok :
  fds s !! fd = Some old -> reg_closed s = c_closed s ->
  (forall p f, sock = Some (p, f) -> fds s !! p = None /\ f <> old) ->
  close_now fd sock dup2_ok s = (tr, ok) ->
  (forall s', s' ∈ tr -> is_Some (fds s' !! fd) /\ (reg_closed s' = true -> c_closed s' = true) /\
     (c_closed s = false -> c_closed s' = true -> fds s' !! fd <> Some old)) /\
  dom (fds (after tr s)) = dom (fds s) /\
  (ok = true -> c_closed (after tr s) = true /\ reg_closed (after tr s) = true) /\
  (ok = false -> after tr s = s) /\
  (c_closed s = true -> after tr s = s /\ ok = true).
Proof.
  destruct s as [f c r]. simpl. intros Hfd -> Hfresh. unfold close_now, set_fds, after. simpl.
  destruct c; [|destruct sock as [[p file]|]].
  - intros [= <- <-]. simpl. split_and!; try done. intros s' ->%list_elem_of_singleton. simpl. eauto.
  - destruct (Hfresh p file eq_refl) as [Hp Hne]. assert (p <> fd) as Hpf by congruence.
    destruct dup2_ok; intros [= <- <-]; simpl.
    + split_and!; try done.
      * intros s'. rewrite !elem_of_cons, elem_of_nil. intros Hs'. destr; subst; simpl; try done;
          rewrite ?lookup_delete_ne, ?lookup_insert_eq, ?lookup_insert_ne, ?Hfd by done; split_and!; try done; eauto; try congruence.
      * rewrite dom_delete_L, !dom_insert_L. apply not_elem_of_dom in Hp. apply elem_of_dom_2 in Hfd. set_solver.
    + rewrite delete_insert_id by done. split_and!; try done.
      intros s'. rewrite !elem_of_cons, elem_of_nil. intros Hs'. destr; subst; simpl; try done;
        rewrite ?lookup_insert_ne, ?Hfd by done; eauto.
  - intros [= <- <-]. simpl. split_and!; try done. intros s' ->%list_elem_of_singleton. simpl. eauto.
Qed.

Lemma close_now_safe_witness :
  let s := mkState {[ 5 := 10%nat ]} false false in
  let tr := (close_now 5 (Some (6, 11%nat)) true s).1 in
  dom (fds (after tr s)) = dom (fds s) /\ c_closed (after tr s) = true /\ reg_closed (after tr s) = true.
Proof.
  intros s tr. destruct (close_now_safe 5 10 (Some (6, 11%nat)) true s tr true) as (_ & Hd & Hok & _);
    [reflexivity|reflexivity| |reflexivity|].
  - intros p f [= <- <-]. split; [reflexivity|discriminate].
  - split; [exact Hd|exact (Hok eq_refl)].
Defined.

End Closing.
