(* ===== verification/NoiseStream.v ===== *)
(** * Noise streams over a socket ([src/noise.rs])

    [NoiseStream]'s reads: the loop of decrypting what has arrived
    ([Noise.next]) and reading more from the wire, waiting ([read]), not
    waiting ([try_read]) or only until there is something ([fill_by]).  They
    run under the stream's read lock, so what was received is theirs alone;
    the wire's reads are [Conn]'s ([Sockets.v]). *)
From S2P Require Import Prelude TaskProto Waiters Io Sockets Noise.
Local Open Scope Z_scope.
Local Open Scope roc_scope.

Module NoiseStream.
Import Noise.

Definition READ_CHUNK : nat := Z.to_nat (65535 + 2).

(** The errors of [Received::next]. *)
Definition next_error (x : Next) : IoError :=
  match x with NotAuthentic => err_kind InvalidData | Truncated => err_kind UnexpectedEof | _ => err_kind OtherKind end.

Section Stream.
Context {W : Type} `{Sched W, HasConn W}.
Variable open : list Z -> list Z -> option (list Z).
(** One [read] of the socket, into a buffer of so many bytes. *)
Variable wire_read : nat -> W -> io_result (list Z) * W.

(** [Wire::read_by] *)
Definition read_by (fuel : nat) (deadline : deadline) : io W (io_result (list Z)) :=
  d ← get (fun w => earliest (read_deadline w) deadline);
  retry fuel false d (wire_read READ_CHUNK).

(** [Wire::read_now] *)
Fixpoint read_now (fuel : nat) : io W (io_result (option (list Z))) :=
  match fuel with
  | O => fun _ => None
  | S fuel =>
      r ← act (wire_read READ_CHUNK);
      match r with
      | Ok got => mret (Ok (Some got))
      | Err e => if is_kind WouldBlock e then mret (Ok None) else if is_kind InterruptedKind e then read_now fuel else mret (Err e)
      end
  end.

(** [NoiseStream::read]: the outer fuel is for the messages' pieces, the
    inner for each wait. *)
Fixpoint read (fuel inner max : nat) (r : Received) : io W (io_result (list Z) * Received) :=
  match fuel with
  | O => fun _ => None
  | S fuel =>
      match next open max r with
      | (r, Data bytes) => mret (Ok bytes, r)
      | (r, Wait) =>
          got ← read_by inner None;
          match got with
          | Err e => mret (Err e, r)
          | Ok got => read fuel inner max (feed got r)
          end
      | (r, x) => mret (Err (next_error x), r)
      end
  end.

(** [try_read], with the lock taken: also whether the hold was idle. *)
Fixpoint try_read (fuel inner max : nat) (r : Received) : io W (io_result (option (list Z)) * bool * Received) :=
  match fuel with
  | O => fun _ => None
  | S fuel =>
      match next open max r with
      | (r, Data bytes) => mret (Ok (Some bytes), false, r)
      | (r, Wait) =>
          got ← read_now inner;
          match got with
          | Err e => mret (Err e, false, r)
          | Ok None => mret (Ok None, true, r)
          | Ok (Some got) => try_read fuel inner max (feed got r)
          end
      | (r, x) => mret (Err (next_error x), false, r)
      end
  end.

(** [fill_by] *)
Fixpoint fill_by (fuel inner : nat) (by_ : deadline) (r : Received) : io W (io_result unit * Received) :=
  match fuel with
  | O => fun _ => None
  | S fuel =>
      if readable r then mret (Ok tt, r)
      else
        got ← read_by inner by_;
        match got with
        | Err e => mret (Err e, r)
        | Ok got => fill_by fuel inner by_ (feed got r)
        end
  end.

End Stream.

(** ** The plaintext, in order *)

(** The socket: [rest] is what the peer has sent or will send that has not
    been read; a read takes some of it, and is empty only at the end. *)
Class WireLaws (W : Type) `{Sched W} (wire_read : nat -> W -> io_result (list Z) * W) (rest : W -> list Z) := {
  read_ok : forall n w got w', wire_read n w = (Ok got, w') -> rest w = got ++ rest w' /\ (got = [] -> rest w = []);
  read_failed : forall n w e w', wire_read n w = (Err e, w') -> rest w' = rest w;
  rest_watch : forall fd wr w, rest (watch_io fd wr w).2 = rest w;
  rest_wait : forall d w, rest (wait_suspended d w).2 = rest w;
  rest_budget : forall w, rest (consume_budget w) = rest w;
}.

Section Facts.
Context {W : Type} `{SchedLaws W, HasConn W}.
Variables (seal : list Z -> list Z -> list Z) (open : list Z -> list Z -> option (list Z)).
Hypothesis open_seal : forall n p, open n (seal n p) = Some p.
Hypothesis seal_length : forall n p, length (seal n p) = (length p + TAG)%nat.
Variables (wire_read : nat -> W -> io_result (list Z) * W) (rest : W -> list Z).
Context `{!WireLaws W wire_read rest}.

Abbreviation Rep := (Noise.Rep seal).

(** What a socket's read gave goes to the receiver. *)
Lemma rep_got got r w w' msgs :
  Rep r (rest w) msgs -> rest w = got ++ rest w' -> (got = [] -> rest w = []) -> Rep (feed got r) (rest w') msgs.
Proof.
  intros Hr Hw He. destruct got as [|b got].
  - specialize (He eq_refl). rewrite He in Hr. pose proof (rep_feed seal 0 r [] msgs Hr) as Hf. cbn in Hf.
    cbn in Hw. by rewrite <- Hw, He.
  - pose proof (rep_feed seal (length got) r (rest w) msgs Hr) as Hf. rewrite Hw in Hf.
    change (S (length got)) with (length (b :: got)) in Hf. by rewrite take_app_length, drop_app_length in Hf.
Qed.

Lemma rest_wait_io f wr d w r w' : wait_io f wr d w = (r, w') -> rest w' = rest w.
Proof.
  unfold wait_io. destruct (past d (now w)); [congruence|].
  pose proof (rest_watch f wr w) as Hw. destruct (watch_io f wr w) as [[e| |] w1]; simpl in Hw; try congruence.
  pose proof (rest_wait d w1) as Hs. destruct (wait_suspended d w1) as [[] w2]; simpl in Hs; congruence.
Qed.

Lemma read_by_spec fuel d w r w' : read_by wire_read fuel d w = Some (r, w') ->
  match r with
  | Ok got => rest w = got ++ rest w' /\ (got = [] -> rest w = [])
  | Err e => rest w' = rest w /\ kind e <> WouldBlock /\ kind e <> InterruptedKind
  end.
Proof.
  unfold read_by, mbind, io_bind, get. intros Hk.
  assert (forall x e y, rest x = rest w -> wire_read READ_CHUNK x = (Err e, y) ->
    is_kind WouldBlock e || is_kind InterruptedKind e = true -> rest y = rest w) as Hop.
  { intros x e y Hx Ho _. apply read_failed in Ho. congruence. }
  assert (forall f x r y, rest x = rest w -> wait_io f false (earliest (read_deadline w) d) x = (r, y) -> rest y = rest w) as Hwait.
  { intros f x q y Hx Hw. apply rest_wait_io in Hw. congruence. }
  pose proof (retry_ends (fun x => rest x = rest w) _ _ _ _ _ _ _ Hop Hwait eq_refl Hk) as Hr. destruct r as [got|e].
  - destruct Hr as (w1 & w2 & Hw1 & Ho & ->). rewrite rest_budget, <- Hw1. by apply read_ok in Ho.
  - apply retry_error in Hk as (? & ? & _). split; [|done].
    destruct Hr as [(w1 & Hw1 & Ho & _)|[(w1 & f & _ & _ & ?)|(? & _)]]; [|done..]. apply read_failed in Ho. congruence.
Qed.

Lemma read_now_spec fuel w r w' : read_now wire_read fuel w = Some (r, w') ->
  match r with
  | Ok (Some got) => rest w = got ++ rest w' /\ (got = [] -> rest w = [])
  | Ok None => rest w' = rest w
  | Err e => rest w' = rest w /\ kind e <> WouldBlock /\ kind e <> InterruptedKind
  end.
Proof.
  revert w. induction fuel as [|fuel IH]; intros w; [done|]. cbn [read_now]. unfold mbind, io_bind, act.
  destruct (wire_read READ_CHUNK w) as [[got|e] w1] eqn:Er; [by intros [= <- <-]; apply read_ok in Er|].
  pose proof (read_failed _ _ _ _ Er) as Hw. destruct (is_kind WouldBlock e) eqn:Ewb; [by intros [= <- <-]|].
  destruct (is_kind InterruptedKind e) eqn:Ei; [intros Hk%IH; by rewrite Hw in Hk|].
  intros [= <- <-]. split; [done|]. unfold is_kind in *. by apply bool_decide_eq_false in Ewb, Ei.
Qed.

(** Between calls: [msgs] are the messages not decrypted yet, and [left] the
    plaintext still to be read. *)
Definition Open (r : Received) (w : W) (left : list Z) : Prop := exists msgs, Rep r (rest w) msgs /\ left = out r msgs.

Lemma open_got got r w w' left :
  Open r w left -> rest w = got ++ rest w' -> (got = [] -> rest w = []) -> Open (feed got r) w' left.
Proof. intros (msgs & Hr & ->) Hw He. exists msgs. split; [by eapply rep_got|done]. Qed.

Lemma open_same r w w' left : Open r w left -> rest w' = rest w -> Open r w' left.
Proof. intros (msgs & Hr & ->) E. exists msgs. by rewrite E. Qed.

(** A turn of the loops. *)
Lemma open_next max r w left : Open r w left ->
  match next open (S max) r with
  | (r', Data b) => exists left', left = b ++ left' /\ Open r' w left' /\ (b = [] -> left = [])
  | (r', Wait) => Open r' w left /\ ended r = false
  | _ => False
  end.
Proof.
  intros (msgs & Hr & ->). pose proof (next_found seal open open_seal seal_length max r (rest w) msgs Hr) as Hf.
  destruct (next open (S max) r) as [r1 x] eqn:E.
  inversion Hf as [r' ms b Hb Hr1 He Ho Hse|r' ms Hn Hr1 He Ho Hse|r' Hy Hr1 He Ho Ho' Hse]; subst.
  - exists (out r1 ms). split_and!; [done|by exists ms|done].
  - split; [by exists ms|done].
  - exists []. rewrite Ho. split_and!; [done| |done]. by exists [].
Qed.

(** What a call that reads may return, [b] the bytes it gives its caller. *)
Definition reads_on (r' : Received) (w' : W) (left : list Z) (res : io_result (list Z)) : Prop :=
  match res with
  | Ok b => exists left', left = b ++ left' /\ Open r' w' left' /\ (b = [] -> left = [])
  | Err e => Open r' w' left /\ kind e <> WouldBlock /\ kind e <> InterruptedKind
  end.

Lemma read_reads fuel inner max r w left res r' w' :
  Open r w left -> read open wire_read fuel inner (S max) r w = Some ((res, r'), w') -> reads_on r' w' left res.
Proof.
  revert r w. induction fuel as [|fuel IH]; intros r w Ho; [done|]. cbn [read].
  pose proof (open_next max r w left Ho) as Hn. destruct (next open (S max) r) as [r1 [b| | | | |]]; try done.
  - intros [= <- <- <-]. exact Hn.
  - destruct Hn as [Ho1 _]. unfold mbind, io_bind. destruct (read_by wire_read inner None w) as [[[got|e] w1]|] eqn:Er; [| |done];
      apply read_by_spec in Er.
    + destruct Er as [E1 E2]. apply IH. by eapply open_got.
    + destruct Er as (E1 & Hk). intros [= <- <- <-]. split; [by eapply open_same|done].
Qed.

Lemma try_read_reads fuel inner max r w left res idle r' w' :
  Open r w left -> try_read open wire_read fuel inner (S max) r w = Some ((res, idle, r'), w') ->
  match res with
  | Ok None => idle = true /\ Open r' w' left
  | Ok (Some b) => idle = false /\ reads_on r' w' left (Ok b)
  | Err e => idle = false /\ reads_on r' w' left (Err e)
  end.
Proof.
  revert r w. induction fuel as [|fuel IH]; intros r w Ho; [done|]. cbn [try_read].
  pose proof (open_next max r w left Ho) as Hn. destruct (next open (S max) r) as [r1 [b| | | | |]]; try done.
  - intros [= <- <- <- <-]. by split.
  - destruct Hn as [Ho1 _]. unfold mbind, io_bind. destruct (read_now wire_read inner w) as [[[[got|]|e] w1]|] eqn:Er; [| | |done];
      apply read_now_spec in Er.
    + destruct Er as [E1 E2]. apply IH. by eapply open_got.
    + intros [= <- <- <- <-]. split; [done|by eapply open_same].
    + destruct Er as (E1 & Hk). intros [= <- <- <- <-]. split; [done|]. split; [by eapply open_same|done].
Qed.

Lemma fill_by_reads fuel inner d r w left res r' w' :
  Open r w left -> fill_by wire_read fuel inner d r w = Some ((res, r'), w') ->
  Open r' w' left /\ match res with Ok _ => readable r' = true | Err e => kind e <> WouldBlock /\ kind e <> InterruptedKind end.
Proof.
  revert r w. induction fuel as [|fuel IH]; intros r w Ho; [done|]. cbn [fill_by].
  destruct (readable r) eqn:Er; [by intros [= <- <- <-]|].
  unfold mbind, io_bind. destruct (read_by wire_read inner d w) as [[[got|e] w1]|] eqn:Eb; [| |done]; apply read_by_spec in Eb.
  - destruct Eb as [E1 E2]. apply IH. by eapply open_got.
  - destruct Eb as (E1 & Hk). intros [= <- <- <-]. split; [by eapply open_same|done].
Qed.

(** *** Reads return *)

(** The socket answers a read after at most [N] unanswered tries. *)
Variables (busy : W -> nat) (N : nat).
Hypothesis interrupted_less : forall n w e w1, wire_read n w = (Err e, w1) -> is_kind InterruptedKind e = true -> (busy w1 < busy w)%nat.
Hypothesis blocked_less : forall n d w e w1 f w2, wire_read n w = (Err e, w1) -> is_kind WouldBlock e = true ->
  wait_io f false d w1 = (Ok tt, w2) -> (busy w2 < busy w)%nat.
Hypothesis busy_most : forall w, (busy w <= N)%nat.

(** The turns a read may need: one for each byte still to come, one to find
    the end, and one to say so. *)
Definition turns (r : Received) (w : W) : nat := if ended r then 1 else (length (rest w) + 2)%nat.

Lemma read_returns fuel max r w left : Open r w left -> (turns r w <= fuel)%nat ->
  exists res r' w', read open wire_read fuel (S N) (S max) r w = Some ((res, r'), w').
Proof using All.
  revert r w. induction fuel as [|fuel IH]; intros r w Ho Hf; [unfold turns in Hf; destruct (ended r); lia|]. cbn [read].
  pose proof (open_next max r w left Ho) as Hn. destruct (next open (S max) r) as [r1 [b| | | | |]]; try done; [by eexists _, _, _|].
  destruct Hn as [Ho1 He]. unfold turns in Hf. rewrite He in Hf. unfold mbind, io_bind.
  assert (exists x w1, read_by wire_read (S N) None w = Some (x, w1)) as (x & w1 & Er).
  { unfold read_by, mbind, io_bind, get. apply (retry_returns busy); eauto. specialize (busy_most w). lia. }
  rewrite Er. apply read_by_spec in Er. destruct x as [got|e]; [|by eexists _, _, _]. destruct Er as [Eg En].
  apply IH; [by eapply open_got|]. unfold turns. cbn [ended feed].
  destruct (bool_decide_reflect (got = [])) as [->|Hne]; [rewrite orb_true_r; lia|].
  assert (length (rest w) = length got + length (rest w1))%nat as Hlen by (by rewrite Eg, length_app).
  destruct got; [done|]. cbn in Hlen. destruct (_ || _); lia.
Qed.

(** A Noise stream over a socket gives what was sealed at the other end, in
    order and nothing else.  What the other end writes opens the stream; from
    then on [read] returns, with the next bytes, or nothing once all were
    read, or an error of the socket's that leaves the stream as it was (never
    one that means to try again); [try_read] gives the next bytes too, and if
    it has none it took nothing and was idle; [fill_by] takes nothing and
    succeeds only with something to read. *)
Theorem noise_stream_in_order w max :
  (forall c c' data, write_all seal c data = (c', rest w, true) -> Open (received_new c) w data) /\
  forall r left, Open r w left ->
    (exists res r' w', read open wire_read (length (rest w) + 2) (S N) (S max) r w = Some ((res, r'), w') /\ reads_on r' w' left res) /\
    (forall fuel inner res idle r' w', try_read open wire_read fuel inner (S max) r w = Some ((res, idle, r'), w') ->
       match res with
       | Ok None => idle = true /\ Open r' w' left
       | Ok (Some b) => idle = false /\ reads_on r' w' left (Ok b)
       | Err e => idle = false /\ reads_on r' w' left (Err e)
       end) /\
    (forall fuel inner d res r' w', fill_by wire_read fuel inner d r w = Some ((res, r'), w') ->
       Open r' w' left /\ match res with Ok _ => readable r' = true | Err e => kind e <> WouldBlock /\ kind e <> InterruptedKind end).
Proof using All.
  split.
  - intros c c' data Hw. destruct (chunks_concat (length data) data (le_n _)) as [Hcc Hfit].
    exists (chunks (length data) data). split; [|unfold out; cbn; by rewrite Hcc]. split; cbn; try done. by exists c'.
  - intros r left Ho. split_and!.
    + destruct (read_returns (length (rest w) + 2) max r w left Ho) as (res & r' & w' & Er); [unfold turns; destruct (ended r); lia|].
      exists res, r', w'. split; [done|]. by eapply read_reads.
    + intros. by eapply try_read_reads.
    + intros. by eapply fill_by_reads.
Qed.

End Facts.

(** ** A socket that gives five bytes at a time, after a wait each *)

Module Toy.
Record World := mkWorld { t_now : Z; t_rest : list Z; t_busy : bool }.
#[global] Instance toy_sched : Sched World := {|
  now := t_now; watch_io _ _ w := (WatchAdded, w);
  wait_suspended _ w := (Ready, mkWorld (t_now w + 1) (t_rest w) false); consume_budget w := w |}.
#[global] Instance toy_sched_laws : SchedLaws World.
Proof. split; simpl; intros; simplify_eq; lia || done. Qed.
#[global] Instance toy_conn : HasConn World := fun _ => Conn_new 3.

Definition toy_read (n : nat) (w : World) : io_result (list Z) * World :=
  if t_busy w then (Err (err_kind WouldBlock), w) else (Ok (take 5 (t_rest w)), mkWorld (t_now w) (drop 5 (t_rest w)) true).

#[global] Instance toy_wire : WireLaws World toy_read t_rest.
Proof.
  split; try done.
  - intros n w got w'. unfold toy_read. case_match; [done|]. intros [= <- <-]. cbn [t_rest]. rewrite take_drop.
    split; [done|]. destruct (t_rest w); [done|discriminate].
  - intros n w e w'. unfold toy_read. case_match; [|done]. by intros [= <- <-].
Qed.
End Toy.

Definition sent : list Z := (write_all toy_seal demo_cipher [1; 2; 3]).1.2.
Definition arriving : Toy.World := Toy.mkWorld 0 sent true.

Lemma noise_stream_in_order_witness :
  exists res r' w', read toy_open Toy.toy_read (length sent + 2) 2 8 (received_new demo_cipher) arriving = Some ((res, r'), w') /\
    reads_on toy_seal Toy.t_rest r' w' [1; 2; 3] res.
Proof.
  destruct (noise_stream_in_order toy_seal toy_open toy_open_seal toy_seal_length Toy.toy_read Toy.t_rest
    (fun w => if Toy.t_busy w then 1%nat else 0%nat) 1) with (w := arriving) (max := 7%nat) as [Hopen Hreads].
  - intros n w e w1. unfold Toy.toy_read. case_match; intros; by simplify_eq.
  - intros n d w e w1 f w2. unfold Toy.toy_read. destruct (Toy.t_busy w) eqn:E; [|done].
    intros [= <- <-] _. unfold wait_io. case_match; [done|]. intros [= <-]. simpl. lia.
  - intros w. case_match; lia.
  - destruct (Hreads (received_new demo_cipher) [1; 2; 3]) as [H _]; [by eapply Hopen|exact H].
Defined.

Example read_example :
  option_map (fun x => x.1.1) (read toy_open Toy.toy_read (length sent + 2) 2 8 (received_new demo_cipher) arriving) = Some (Ok [1; 2; 3]).
Proof. vm_compute. reflexivity. Qed.

End NoiseStream.
