(* ===== verification/NoiseSession.v ===== *)
(** * Noise sessions ([src/noise.rs])

    Making a [NoiseStream] from a handshake's cipher states, its writes over
    the wire, frame by frame, and the session two such streams are: what one
    end writes the other reads, whatever is written, delivered and read in
    between, and also when a write fails partway. *)
From S2P Require Import Prelude TaskProto Waiters Sema SchedLock Io Sockets Noise NoiseStream.
Local Open Scope Z_scope.
Local Open Scope roc_scope.

Module NoiseSession.
Import Noise NoiseStream.

(** ** Streams *)

(** A direction's key, with its state. *)
Record Keyed := mkKeyed { key : list Z; state : CipherState }.

(** [CipherState::new]: the AEADs have keys of 32 bytes. *)
Definition CipherState_new (cipher_ : Z) (key : list Z) (nonce_ : Z) : option Keyed :=
  match cipher_new cipher_ nonce_ with
  | None => None
  | Some c => if (length key =? 32)%nat then Some (mkKeyed key c) else None
  end.

(** [Wire] *)
Inductive Wire := Tcp (c : Conn) | Unix (c : Conn).
Definition wire_conn (w : Wire) : Conn := match w with Tcp c | Unix c => c end.

Record NoiseStream := mkStream { wire : Wire; send : Keyed; receive_key : list Z; receive : Received; watchers : Waiters }.

(** [NoiseStream::new] *)
Definition NoiseStream_new (w : Wire) (cipher_ : Z) (send receive : list Z * Z) : io_result NoiseStream :=
  match CipherState_new cipher_ send.1 send.2 with
  | None => Err (err_kind InvalidInput)
  | Some s =>
      match CipherState_new cipher_ receive.1 receive.2 with
      | None => Err (err_kind InvalidInput)
      | Some r => Ok (mkStream w s (key r) (mkReceived (state r) [] 0 [] false false) Waiters_new)
      end
  end.

(** The streams of [sockets::Socket] that [wire_of] looks at; the duplicate
    descriptor, if there is one to be had, has the stream's timeouts. *)
Inductive Socket := TcpStream (c : Conn) | UnixStream (c : Conn) | OtherSocket.
Definition wire_of (try_clone : Z -> io_result Z) (s : Socket) : io_result Wire :=
  let dup c := match try_clone (fd c) with Err e => Err e | Ok fd' => Ok (apply (timeouts c) (Conn_new fd')) end in
  match s with
  | TcpStream c => match dup c with Ok d => Ok (Tcp d) | Err e => Err e end
  | UnixStream c => match dup c with Ok d => Ok (Unix d) | Err e => Err e end
  | OtherSocket => Err (err_kind InvalidInput)
  end.

(** ** Writing over the wire *)

Section Write.
Context {W : Type} `{Sched W, HasConn W}.
Variable seal : list Z -> list Z -> list Z.
(** One [write] of the socket. *)
Variable write : list Z -> W -> io_result nat * W.

(** [Wire::write_all] *)
Definition wire_write_all (fuel : nat) (data : list Z) : io W (io_result unit) := write_all_with (length data) fuel data write.

(** [NoiseStream::write_all], under the write lock: a chunk's nonce is used
    whether or not its frame gets written. *)
Fixpoint write_frames (fuel : nat) (c : CipherState) (l : list (list Z)) : io W (io_result unit * CipherState) :=
  match l with
  | [] => mret (Ok tt, c)
  | chunk :: l =>
      match next_nonce c with
      | None => mret (Err (err_kind OtherKind), c)
      | Some (n, c) =>
          r ← wire_write_all fuel (frame (seal n chunk));
          match r with Ok _ => write_frames fuel c l | Err e => mret (Err e, c) end
      end
  end.

Definition stream_write_all (fuel : nat) (c : CipherState) (data : list Z) : io W (io_result unit * CipherState) :=
  write_frames fuel c (chunks (length data) data).

End Write.

(** What a write did: the chunks [s] were sealed, the first of [data]; [p] of
    their frames' bytes went on the wire and [missing] did not. *)
Definition Sends (seal : list Z -> list Z -> list Z) (c : CipherState) (data : list Z) (s : list (list Z)) (p missing : list Z) (c' : CipherState) (ok : bool) : Prop :=
  exists u, chunks (length data) data = s ++ u /\ write_chunks seal c s = (c', p ++ missing, true) /\ (ok = true -> u = [] /\ missing = []).

#[local] Opaque frame.
Lemma write_chunks_app seal c c1 c2 s1 s2 b1 b2 :
  write_chunks seal c s1 = (c1, b1, true) -> write_chunks seal c1 s2 = (c2, b2, true) -> write_chunks seal c (s1 ++ s2) = (c2, b1 ++ b2, true).
Proof.
  revert c b1. induction s1 as [|x s1 IH]; intros c b1; cbn [write_chunks app]; [by intros [= -> <-]|].
  destruct (next_nonce c) as [[n c']|]; [|done]. destruct (write_chunks seal c' s1) as [[c3 b3] ok] eqn:E. intros [= -> <- ->] H2.
  rewrite (IH _ _ E H2). by rewrite <- app_assoc.
Qed.

Section Writing.
Context {W : Type} `{SchedLaws W, HasConn W}.
Variables (sent : W -> list Z) (write : list Z -> W -> io_result nat * W) (seal : list Z -> list Z -> list Z).
Context `{!WriteLaws W sent write}.

Lemma write_frames_sends fuel c l w r c' w' : write_frames seal write fuel c l w = Some ((r, c'), w') ->
  exists s u p missing, l = s ++ u /\ write_chunks seal c s = (c', p ++ missing, true) /\ sent w' = sent w ++ p /\ (r = Ok tt -> u = [] /\ missing = []).
Proof.
  revert c w. induction l as [|x l IH]; intros c w; cbn [write_frames].
  - intros [= <- <- <-]. exists [], [], [], []. rewrite !app_nil_r; by split_and!.
  - destruct (next_nonce c) as [[n c1]|] eqn:En; [|intros [= <- <- <-]; exists [], (x :: l), [], []; rewrite !app_nil_r; by split_and!].
    unfold mbind, io_bind. destruct (wire_write_all write fuel _ w) as [[[[]|e] w1]|] eqn:Ew; [| |done]; apply (write_all_spec sent write) in Ew.
    + intros Hr. destruct (IH _ _ Hr) as (s & u & p & missing & -> & Hw & Hs & Hok).
      exists (x :: s), u, (frame (seal n x) ++ p), missing. cbn [write_chunks]. rewrite En, Hw, Hs, Ew, <- !app_assoc. by split_and!.
    + destruct Ew as ((k & Ek) & _). intros [= <- <- <-]. exists [x], l, (take k (frame (seal n x))), (drop k (frame (seal n x))).
      cbn [write_chunks]. rewrite En, take_drop, !app_nil_r. by split_and!.
Qed.

(** Each write of a stream is one of the session's. *)
Lemma stream_write_sends fuel c data w r c' w' : stream_write_all seal write fuel c data w = Some ((r, c'), w') ->
  exists s p missing, Sends seal c data s p missing c' (match r with Ok _ => true | Err _ => false end) /\ sent w' = sent w ++ p.
Proof.
  intros Hr. apply write_frames_sends in Hr as (s & u & p & missing & Hl & Hw & Hs & Hok). exists s, p, missing. split; [|done].
  exists u. split_and!; [done..|]. destruct r as [[]|]; [auto|done].
Qed.

End Writing.

(** ** A direction of a session

    The writer's state; whether bytes it sends still get on the wire (until
    writing is shut down or the connection is cut); what is on its way; what
    was sealed but never got there; whether the bytes on the wire are those
    the writer made (until someone changes them, or the writer goes on after a
    frame it left unfinished); the reader's state; and all the messages
    sealed, all the bytes that arrived and all that was read. *)
Record Dir := mkDir {
  d_send : CipherState;
  d_open : bool;
  d_wire : list Z;
  d_missing : list Z;
  d_clean : bool;
  d_recv : Received;
  d_sealed : list (list Z);
  d_arrived : list Z;
  d_read : list Z
}.

Definition dir_new (send : CipherState) (recv : Received) : Dir := mkDir send true [] [] true recv [] [] [].

Section Session.
Variables (seal : list Z -> list Z -> list Z) (open : list Z -> list Z -> option (list Z)).

(** A write, whole or not, and also after one that failed or after the end
    (the nonces are used all the same); a shutdown; a cut, with which the
    bytes after the first [k] on the wire are gone; someone putting other
    bytes on the wire; bytes arriving, or the end; a read. *)
Inductive step : Dir -> Dir -> Prop :=
  | st_write d data s p missing c ok : d_open d = true -> Sends seal (d_send d) data s p missing c ok ->
      step d (mkDir c true (d_wire d ++ p) (d_missing d ++ missing) (d_clean d && (bool_decide (d_missing d = []) || bool_decide (p = [])))
        (d_recv d) (d_sealed d ++ s) (d_arrived d) (d_read d))
  | st_write_late d data s p missing c ok : d_open d = false -> Sends seal (d_send d) data s p missing c ok ->
      step d (mkDir c false (d_wire d) (d_missing d ++ p ++ missing) (d_clean d) (d_recv d) (d_sealed d ++ s) (d_arrived d) (d_read d))
  | st_shutdown d : step d (mkDir (d_send d) false (d_wire d) (d_missing d) (d_clean d) (d_recv d) (d_sealed d) (d_arrived d) (d_read d))
  | st_cut d k : step d (mkDir (d_send d) false (take k (d_wire d)) (drop k (d_wire d) ++ d_missing d) (d_clean d) (d_recv d) (d_sealed d) (d_arrived d) (d_read d))
  | st_tamper d bytes : step d (mkDir (d_send d) (d_open d) bytes (d_missing d) false (d_recv d) (d_sealed d) (d_arrived d) (d_read d))
  | st_arrive d k : d_wire d <> [] ->
      step d (mkDir (d_send d) (d_open d) (drop (S k) (d_wire d)) (d_missing d) (d_clean d) (feed (take (S k) (d_wire d)) (d_recv d))
        (d_sealed d) (d_arrived d ++ take (S k) (d_wire d)) (d_read d))
  | st_end d : d_open d = false -> d_wire d = [] ->
      step d (mkDir (d_send d) false [] (d_missing d) (d_clean d) (feed [] (d_recv d)) (d_sealed d) (d_arrived d) (d_read d))
  | st_read d max r x : next open (S max) (d_recv d) = (r, x) ->
      step d (mkDir (d_send d) (d_open d) (d_wire d) (d_missing d) (d_clean d) r (d_sealed d) (d_arrived d) (d_read d ++ data_of x)).

(** *** What is promised *)

(** The first message of [rest] has not arrived whole. *)
Definition not_whole (r : Received) (rest : list (list Z)) : Prop :=
  match rest with
  | [] => True
  | m :: _ => exists n c, next_nonce (rcipher r) = Some (n, c) /\ (length (ciphertext r) < length (frame (seal n m)))%nat
  end.

(** What a clean direction delivers.  All that was read, and what a read now
    gives, is the first of what was written; what is left is what is unread of
    the message last opened, then [rest], whose frames are the bytes the
    reader has, those on the wire and those missing.  A read says it is the
    end only at the end, with no part of a message left over, and if nothing
    is missing then all was read; it says a message was cut short when, and
    only when, part of one is all that came; it waits only while there is no
    whole message and no end.  Nothing fails to authenticate. *)
Definition delivers (d : Dir) : Prop :=
  forall max r x, next open (S max) (d_recv d) = (r, x) -> exists rest,
    concat (d_sealed d) = d_read d ++ data_of x ++ out r rest /\
    write_chunks seal (rcipher r) rest = (d_send d, ciphertext r ++ d_wire d ++ d_missing d, true) /\
    match x with
    | Data [] => ended (d_recv d) = true /\ d_wire d = [] /\ ciphertext r = [] /\ out r rest = concat rest /\ (d_missing d = [] -> rest = [])
    | Data _ => True
    | Wait => ended (d_recv d) = false /\ not_whole r rest /\ out r rest = concat rest
    | Truncated => ended (d_recv d) = true /\ d_wire d = [] /\ ciphertext r <> [] /\ rest <> [] /\ not_whole r rest /\ out r rest = concat rest
    | _ => False
    end.

(** The bytes that arrived hold no forgery: any of them that open under the
    [i]th nonce from [c] on are the [i]th message sealed. *)
Definition unforged (c : CipherState) (d : Dir) : Prop :=
  forall i x p, (exists a b, d_arrived d = a ++ x ++ b) -> nonce c + Z.of_nat i < U64_MAX ->
    open (nonce_bytes (mkCipher (cipher c) (nonce c + Z.of_nat i))) x = Some p -> d_sealed d !! i = Some p.

(** What any direction keeps to: all that was read, and what a read now
    gives, is the first of what was written. *)
Definition keeps (d : Dir) : Prop :=
  forall max, exists left, concat (d_sealed d) = d_read d ++ data_of (next open (S max) (d_recv d)).2 ++ left.

Hypothesis open_seal : forall n p, open n (seal n p) = Some p.
Hypothesis seal_length : forall n p, length (seal n p) = (length p + TAG)%nat.

(** *** Clean directions *)

(** A receiver with its end set aside. *)
Definition with_end (e : bool) (r : Received) : Received := mkReceived (rcipher r) (plain r) (taken r) (ciphertext r) e (failed r).

(** What a read that would wait finds at the end. *)
Definition at_end (r : Received) (x : Next) : Next :=
  match x with Wait => if bool_decide (ciphertext r = []) then Data [] else Truncated | x => x end.

Lemma next_loop_end fuel max r : next_loop open fuel max (with_end true r) =
  (with_end true (next_loop open fuel max (with_end false r)).1, at_end (next_loop open fuel max (with_end false r)).1 (next_loop open fuel max (with_end false r)).2).
Proof.
  revert r. induction fuel as [|fuel IH]; intros r; [done|]. cbn [next_loop].
  assert (forall e, whole_message (with_end e r) = whole_message r) as Hw by done. rewrite !Hw.
  unfold take_plain. cbn [plain taken with_end rcipher ciphertext ended failed].
  destruct (_ <=? _)%nat; [|done]. destruct (whole_message r) as [len|]; [|done].
  destruct (next_nonce (rcipher r)) as [[n c]|]; [|done]. destruct (open n _) as [p|]; [|done].
  exact (IH (mkReceived c p 0 (drop (2 + len) (ciphertext r)) false (failed r))).
Qed.

Lemma next_end max r : next open max (with_end true r) =
  (with_end true (next open max (with_end false r)).1, at_end (next open max (with_end false r)).1 (next open max (with_end false r)).2).
Proof. unfold next. cbn [failed with_end ciphertext]. destruct (failed r); [done|]. apply next_loop_end. Qed.

Lemma with_end_id r : with_end (ended r) r = r.
Proof. by destruct r. Qed.

(** A read takes ciphertext from the front. *)
Lemma next_loop_suffix fuel max r : exists y, ciphertext r = y ++ ciphertext (next_loop open fuel max r).1.
Proof.
  revert r. induction fuel as [|fuel IH]; intros r; [by exists []|]. cbn [next_loop].
  destruct (take_plain max r) as [[b r1]|] eqn:Et; [unfold take_plain in Et; case_match; [done|]; injection Et as _ <-; by exists []|].
  destruct (whole_message r) as [len|]; [|by exists []]. assert (ciphertext r = take (2 + len) (ciphertext r) ++ drop (2 + len) (ciphertext r)) as Hs by (by rewrite take_drop).
  destruct (next_nonce (rcipher r)) as [[n c]|]; [|eexists; exact Hs]. destruct (open n _) as [p|]; [|eexists; exact Hs].
  destruct (IH (mkReceived c p 0 (drop (2 + len) (ciphertext r)) (ended r) (failed r))) as [y Hy]. exists (take (2 + len) (ciphertext r) ++ y).
  rewrite <- app_assoc. cbn [ciphertext] in Hy. rewrite <- Hy. exact Hs.
Qed.

Lemma next_suffix max r : exists y, ciphertext r = y ++ ciphertext (next open max r).1.
Proof. unfold next. destruct (failed r); [by exists []|]. apply next_loop_suffix. Qed.

(** A read that would wait has no message to open. *)
Lemma next_loop_wait fuel max r r' : next_loop open fuel max r = (r', Wait) -> whole_message r' = None /\ drop (taken r') (plain r') = [].
Proof.
  revert r. induction fuel as [|fuel IH]; intros r; [done|]. cbn [next_loop]. destruct (take_plain max r) as [[b r1]|] eqn:Et; [done|].
  destruct (whole_message r) as [len|] eqn:Ew; [|intros [= <- _]; by apply take_plain_None in Et].
  destruct (next_nonce (rcipher r)) as [[n c]|]; [|done]. destruct (open n _); [apply IH|done].
Qed.

Lemma next_wait max r r' : next open max r = (r', Wait) -> whole_message r' = None /\ drop (taken r') (plain r') = [].
Proof. unfold next. destruct (failed r); [done|]. apply next_loop_wait. Qed.

Lemma rep_not_whole r more rest : Rep seal r more rest -> whole_message r = None -> not_whole r rest.
Proof using seal_length.
  intros [_ _ [c' Hw] Hfit _] Hn. destruct rest as [|m rest]; [done|]. cbn [write_chunks] in Hw. apply Forall_cons in Hfit as [Hm _].
  destruct (next_nonce (rcipher r)) as [[n c1]|] eqn:En; [|done]. destruct (write_chunks seal c1 rest) as [[c2 bs] ok] eqn:Ewc. injection Hw as <- Hw ->.
  assert (length (seal n m) <= Z.to_nat 65535)%nat as Hsl by (rewrite seal_length; unfold TAG, MAX_PLAINTEXT in *; lia).
  pose proof (whole_message_front r (seal n m) more bs Hsl ltac:(by rewrite Hw)) as Hf. rewrite Hn in Hf. exists n, c1. split; [done|].
  destruct (frame_spec (seal n m) Hsl) as (hi & lo & -> & _). cbn. lia.
Qed.

(** The invariant: setting the end aside, the reader needs the bytes on the
    wire and the missing ones to read [msgs]. *)
Record DInv (d : Dir) (msgs : list (list Z)) : Prop := {
  i_rep : Rep seal (with_end false (d_recv d)) (d_wire d ++ d_missing d) msgs;
  i_send : exists w, write_chunks seal (rcipher (d_recv d)) msgs = (d_send d, w, true);
  i_out : concat (d_sealed d) = d_read d ++ out (d_recv d) msgs;
  i_ended : ended (d_recv d) = true -> d_wire d = [] /\ d_open d = false;
}.

(** What a read finds, the end set aside. *)
Lemma next_dir d msgs max r x : DInv d msgs -> next open (S max) (d_recv d) = (r, x) ->
  exists msgs' x0, Rep seal (with_end false r) (d_wire d ++ d_missing d) msgs' /\ ended r = ended (d_recv d) /\
    same_end seal (d_recv d) msgs r msgs' /\ out (d_recv d) msgs = data_of x ++ out r msgs' /\
    x = (if ended (d_recv d) then at_end r x0 else x0) /\ (x0 = Wait \/ exists b, b <> [] /\ x0 = Data b) /\
    (x0 = Wait -> whole_message r = None /\ drop (taken r) (plain r) = []).
Proof using open_seal seal_length.
  intros HI. pose proof (i_rep _ _ HI) as Hr. set (r0 := with_end false (d_recv d)) in *.
  pose proof (next_found seal open open_seal seal_length max r0 _ _ Hr) as Hf. destruct (next open (S max) r0) as [r0' x0] eqn:E0.
  assert (x0 = Wait -> whole_message r0' = None /\ drop (taken r0') (plain r0') = []) as Hw by (intros ->; by apply next_wait in E0).
  assert (exists ms, Rep seal r0' (d_wire d ++ d_missing d) ms /\ ended r0' = false /\ out r0 msgs = data_of x0 ++ out r0' ms /\
    same_end seal r0 msgs r0' ms /\ (x0 = Wait \/ exists b, b <> [] /\ x0 = Data b)) as (ms & Hr' & He' & Ho & Hs & Hx).
  { inversion Hf as [r' ms b Hb Hr' He Ho Hs|r' ms Hn Hr' He Ho Hs|r' Hy Hr' He Ho Ho' Hs]; subst; [| |done]; exists ms; split_and!; eauto. }
  assert (with_end false r0' = r0') as Ew by (rewrite <- (with_end_id r0') at 2; by rewrite He').
  destruct (ended (d_recv d)) eqn:Een.
  - rewrite <- (with_end_id (d_recv d)) at 1. rewrite Een, next_end. fold r0. rewrite E0. cbn [fst snd]. intros [= <- <-].
    exists ms, x0. change (with_end false (with_end true r0')) with (with_end false r0'). rewrite Ew. split_and!; try done.
    transitivity (data_of x0 ++ out r0' ms); [exact Ho|]. f_equal. destruct Hx as [->|(b & _ & ->)]; [|done]. cbn. by case_bool_decide.
  - assert (r0 = d_recv d) as Er by (unfold r0; rewrite <- Een; apply with_end_id). rewrite <- Er, E0. intros [= <- <-].
    exists ms, x0. rewrite Ew, Er in *. by split_and!.
Qed.

Lemma sent_eq c c' d msgs w w' : write_chunks seal c msgs = (c', w, true) -> write_chunks seal c msgs = (d, w', true) -> c' = d /\ w = w'.
Proof. intros -> [= -> ->]. done. Qed.

(** Messages sealed after those the reader still needs. *)
Lemma dinv_sealed d msgs c s bytes wire missing op cl data u :
  DInv d msgs -> chunks (length data) data = s ++ u -> write_chunks seal (d_send d) s = (c, bytes, true) ->
  wire ++ missing = (d_wire d ++ d_missing d) ++ bytes -> (ended (d_recv d) = true -> wire = [] /\ op = false) ->
  DInv (mkDir c op wire missing cl (d_recv d) (d_sealed d ++ s) (d_arrived d) (d_read d)) (msgs ++ s).
Proof.
  intros [Hr [w Hsend] Ho He] Hch Hc Hwire Hend. pose proof Hr as [Hok Ht [c' Hw] Hfit _]. cbn [rcipher ciphertext with_end] in *.
  destruct (sent_eq _ _ _ _ _ _ Hw Hsend) as [-> <-].
  destruct (chunks_concat (length data) data (le_n _)) as [_ Hf]. rewrite Hch in Hf. apply Forall_app in Hf as [Hf _].
  split; cbn [d_recv d_wire d_missing d_send d_open d_sealed d_read]; [|eexists; apply (write_chunks_app _ _ _ _ _ _ _ _ Hw Hc)| |done].
  - split; cbn; try done; [|by apply Forall_app]. exists c. rewrite (write_chunks_app _ _ _ _ _ _ _ _ Hw Hc), Hwire, <- !app_assoc. done.
  - rewrite concat_app, Ho. unfold out. by rewrite concat_app, <- !app_assoc.
Qed.

Lemma session_step_clean d d' : step d d' -> d_clean d' = true -> d_clean d = true.
Proof. destruct 1; cbn; try done. by intros [? _]%andb_true_iff. Qed.

Lemma session_step_inv d d' msgs : step d d' -> d_clean d' = true -> DInv d msgs -> exists msgs', DInv d' msgs'.
Proof using open_seal seal_length.
  intros Hs Hcl HI. pose proof HI as [Hr [w Hsend] Ho He]. pose proof Hr as [Hok Ht [c' Hw] Hfit _]. cbn [rcipher ciphertext with_end failed taken plain] in *.
  destruct Hs as [d data s p missing c ok Hop (u & Hch & Hc & Hu)|d data s p missing c ok Hop (u & Hch & Hc & Hu)|d|d k|d bytes|d k Hne|d Hop Hnil|d max r x Hx];
    cbn [d_clean] in Hcl; [| | | |done| | |].
  - exists (msgs ++ s). eapply dinv_sealed; [done|exact Hch|exact Hc| |intros Ee; destruct (He Ee); congruence].
    apply andb_true_iff in Hcl as [_ Hcl]. apply orb_true_iff in Hcl as [Hcl|Hcl]; apply bool_decide_eq_true in Hcl as ->; by rewrite ?app_nil_r, <- ?app_assoc.
  - exists (msgs ++ s). eapply dinv_sealed; [done|exact Hch|exact Hc|by rewrite <- !app_assoc|]. intros Ee. by destruct (He Ee).
  - exists msgs. split; cbn; try done; [by exists w|]. intros Ee. by destruct (He Ee).
  - exists msgs. split; cbn [d_recv d_wire d_missing d_send d_open d_sealed d_read]; try done; [|by exists w|].
    + by rewrite app_assoc, take_drop.
    + intros Ee. destruct (He Ee) as [-> _]. by rewrite take_nil.
  - exists msgs. split; cbn [d_recv d_wire d_missing d_send d_open d_sealed d_read]; try done; [|by exists w|].
    + split; cbn; try done. exists c'. rewrite Hw. f_equal. f_equal. rewrite <- (take_drop (S k) (d_wire d)) at 1. by rewrite <- !app_assoc.
    + cbn [feed ended]. rewrite bool_decide_eq_false_2 by (destruct (d_wire d); done). rewrite orb_false_r. intros Ee. by destruct (He Ee).
  - exists msgs. split; cbn [d_recv d_wire d_missing d_send d_open d_sealed d_read]; try done; [|by exists w].
    split; cbn; try done. exists c'. rewrite Hw, Hnil, app_nil_r. done.
  - destruct (next_dir d msgs max r x HI Hx) as (msgs' & x0 & Hr' & Hen & Hse & Hout & _). exists msgs'.
    split; cbn [d_recv d_wire d_missing d_send d_open d_sealed d_read]; try done.
    + destruct (Hse _ _ Hsend) as (w' & Hw'). by exists w'.
    + by rewrite Ho, Hout, app_assoc.
    + by rewrite Hen.
Qed.

Lemma new_inv c : DInv (dir_new c (received_new c)) [].
Proof. split; try done; [|by exists []]. split; try done. by exists c. Qed.

Lemma dir_reachable c d : rtc step (dir_new c (received_new c)) d -> d_clean d = true -> exists msgs, DInv d msgs.
Proof using open_seal seal_length.
  revert d. refine (rtc_ind_r (fun d => d_clean d = true -> exists msgs, DInv d msgs) _ _ _); [exists []; apply new_inv|]. intros d d' _ Hs IH Hc.
  destruct (IH (session_step_clean _ _ Hs Hc)) as [msgs HI]. by eapply session_step_inv.
Qed.

Lemma dir_delivers c d : rtc step (dir_new c (received_new c)) d -> d_clean d = true -> delivers d.
Proof using open_seal seal_length.
  intros H Hc max r x E. destruct (dir_reachable _ _ H Hc) as [msgs HI].
  destruct (next_dir d msgs max r x HI E) as (rest & x0 & Hr & Hen & Hse & Hout & Ex & Hx0 & Hwait).
  destruct (i_send _ _ HI) as [w Hw]. destruct (Hse _ _ Hw) as [w' Hw']. destruct (rep_wire _ _ _ _ Hr) as [c' Hw2]. cbn [rcipher ciphertext with_end] in Hw2.
  destruct (sent_eq _ _ _ _ _ _ Hw2 Hw') as [-> <-]. exists rest. split_and!; [by rewrite (i_out _ _ HI), Hout|done|].
  assert (x0 = Wait -> not_whole r rest /\ out r rest = concat rest) as Hnw.
  { intros Ew. destruct (Hwait Ew) as [Hn Hp]. split; [exact (rep_not_whole _ _ _ Hr Hn)|]. unfold out. by rewrite Hp. }
  destruct (ended (d_recv d)) eqn:Een.
  - destruct (i_ended _ _ HI Een) as [Hwire _]. rewrite Hwire in *. cbn [app] in *.
    destruct Hx0 as [->|(b & Hb & ->)]; [|subst x; by destruct b]. destruct (Hnw eq_refl) as [N1 N2]. cbn [at_end] in Ex. case_bool_decide as Hct; subst x.
    + split_and!; try done. intros Hm. rewrite Hct, Hm in Hw2. cbn in Hw2. destruct rest as [|m rest]; [done|]. cbn [write_chunks] in Hw2.
      destruct (next_nonce (rcipher r)) as [[n c1]|]; [|done]. destruct (write_chunks seal c1 rest) as [[? ?] ?]. injection Hw2 as _ Hnil _. by apply app_nil in Hnil as [? _].
    + split_and!; try done. intros ->. cbn in Hw2. injection Hw2 as _ Hnil. symmetry in Hnil. by apply app_nil in Hnil as [? _].
  - subst x. destruct Hx0 as [->|(b & Hb & ->)]; [|by destruct b]. by destruct (Hnw eq_refl).
Qed.

(** *** Any direction *)

Section Kept.
(** What is sealed and what arrives in the end, and the first nonce. *)
Variables (c0 : CipherState) (S0 : list (list Z)) (A : list Z).
Hypothesis c0_u64 : 0 <= nonce c0 <= U64_MAX.
Hypothesis sealed_fit : nonce c0 + Z.of_nat (length S0) <= U64_MAX.
Hypothesis genuine : forall i x p, (exists a b, A = a ++ x ++ b) -> nonce c0 + Z.of_nat i < U64_MAX ->
  open (nonce_bytes (mkCipher (cipher c0) (nonce c0 + Z.of_nat i))) x = Some p -> S0 !! i = Some p.

(** The reader has opened the first [j] messages, and given out [D]. *)
Definition opened (r : Received) (D : list Z) (j : nat) : Prop :=
  (failed r = false -> rcipher r = mkCipher (cipher c0) (nonce c0 + Z.of_nat j)) /\
  (j <= length S0)%nat /\ (taken r <= length (plain r))%nat /\ concat (take j S0) = D ++ drop (taken r) (plain r) /\
  exists a b, A = a ++ ciphertext r ++ b.

Lemma next_loop_opened fuel max r D j : opened r D j -> failed r = false ->
  exists j', opened (next_loop open fuel (S max) r).1 (D ++ data_of (next_loop open fuel (S max) r).2) j'.
Proof using c0_u64 sealed_fit genuine.
  revert r j. induction fuel as [|fuel IH]; intros r j Ho Hf; [exists j; cbn; by rewrite app_nil_r|]. cbn [next_loop].
  pose proof Ho as (Hc & Hj & Ht & Hcat & a & b & Hab). specialize (Hc Hf).
  destruct (take_plain (S max) r) as [[bytes r']|] eqn:Et.
  { apply take_plain_Some in Et as (Hb & Hd & Ht' & Ec & Ect & Een & Efa); [|done]. exists j. cbn. split_and!; [congruence|done|done| |].
    - by rewrite Hcat, Hd, app_assoc.
    - rewrite Ect. eauto. }
  destruct (whole_message r) as [len|] eqn:Ew.
  2:{ exists j. cbn. destruct (negb (ended r)); [by rewrite app_nil_r|]. case_bool_decide; cbn; by rewrite app_nil_r. }
  assert (exists a b, A = a ++ drop (2 + len) (ciphertext r) ++ b) as Hrest.
  { exists (a ++ take (2 + len) (ciphertext r)), b. rewrite Hab, <- app_assoc. f_equal. by rewrite app_assoc, take_drop. }
  destruct (next_nonce (rcipher r)) as [[n c1]|] eqn:En; [|exists j; cbn; rewrite app_nil_r; by split_and!].
  assert (0 <= nonce (rcipher r) <= U64_MAX) as Hu by (rewrite Hc; cbn; lia).
  apply next_nonce_Some in En as (Hn & Hc1 & Hn1 & Hlt); [|done]. set (m := drop 2 (take (2 + len) (ciphertext r))).
  destruct (open n m) as [p|] eqn:Eo; [|exists j; cbn; rewrite app_nil_r; by split_and!].
  assert (S0 !! j = Some p) as Hi.
  { apply (genuine j m p); [|rewrite Hc in Hlt; exact Hlt|by rewrite <- Hc, <- Hn].
    exists (a ++ take 2 (take (2 + len) (ciphertext r))), (drop (2 + len) (ciphertext r) ++ b). unfold m.
    rewrite Hab, <- !app_assoc. f_equal. rewrite (app_assoc (take 2 _)), take_drop, app_assoc, take_drop. done. }
  apply (IH _ (S j)); [|done]. pose proof (lookup_lt_Some _ _ _ Hi). split_and!; cbn; [| |lia| |done].
  - intros _. destruct c1 as [cc cn]. cbn in *. subst cc cn. rewrite Hc. cbn. f_equal. lia.
  - lia.
  - rewrite (take_S_r _ _ _ Hi), concat_app, Hcat. cbn. rewrite (take_plain_None _ _ Et), !app_nil_r. by rewrite drop_0.
Qed.

Lemma next_opened max r D j : opened r D j -> exists j', opened (next open (S max) r).1 (D ++ data_of (next open (S max) r).2) j'.
Proof using c0_u64 sealed_fit genuine.
  intros Ho. unfold next. destruct (failed r) eqn:Ef; [exists j; cbn; by rewrite app_nil_r|]. by eapply next_loop_opened.
Qed.

End Kept.

Lemma write_chunks_nonce c l c' w : 0 <= nonce c <= U64_MAX -> write_chunks seal c l = (c', w, true) ->
  nonce c' = nonce c + Z.of_nat (length l) /\ nonce c' <= U64_MAX.
Proof.
  revert c w. induction l as [|m l IH]; intros c w Hc; cbn [write_chunks]; [intros [= <- _]; cbn; lia|].
  destruct (next_nonce c) as [[n c1]|] eqn:En; [|done]. apply next_nonce_Some in En as (_ & _ & Hn & Hlt); [|done].
  destruct (write_chunks seal c1 l) as [[c2 b] ok] eqn:E. intros [= <- _ ->]. destruct (IH c1 b) as [H1 H2]; [lia|done|]. cbn [length]. lia.
Qed.

(** All that was ever sealed was sealed by the writer's nonces, one each. *)
Lemma sealed_by c d : rtc step (dir_new c (received_new c)) d -> exists w, write_chunks seal c (d_sealed d) = (d_send d, w, true).
Proof.
  revert d. refine (rtc_ind_r (fun d => exists w, write_chunks seal c (d_sealed d) = (d_send d, w, true)) _ _ _); [by exists []|]. intros d d' _ Hs [w IH].
  destruct Hs as [d data s p m c1 ok _ (u & _ & Hc & _)|d data s p m c1 ok _ (u & _ & Hc & _)|d|d k|d bytes|d k Hne|d Hop Hnil|d max r x Hx]; cbn; try (by exists w);
    eexists; exact (write_chunks_app _ _ _ _ _ _ _ _ IH Hc).
Qed.

Lemma session_step_grows d d' : step d d' -> d_sealed d `prefix_of` d_sealed d' /\ d_arrived d `prefix_of` d_arrived d'.
Proof. destruct 1; cbn; split; first [done | by apply prefix_app_r | by eexists]. Qed.

Lemma steps_grow d d' : rtc step d d' -> d_sealed d `prefix_of` d_sealed d' /\ d_arrived d `prefix_of` d_arrived d'.
Proof. induction 1 as [|d1 d2 d3 [H1 H2]%session_step_grows _ [H3 H4]]; [done|]. split; by etrans. Qed.

Lemma dir_keeps c d : 0 <= nonce c <= U64_MAX -> rtc step (dir_new c (received_new c)) d -> unforged c d -> keeps d.
Proof.
  intros Hc Hr Hu max. destruct (sealed_by c d Hr) as [w Hw]. destruct (write_chunks_nonce _ _ _ _ Hc Hw) as [Hn1 Hn2].
  assert (forall d', rtc step (dir_new c (received_new c)) d' -> rtc step d' d ->
    exists j, opened c (d_sealed d) (d_arrived d) (d_recv d') (d_read d') j /\ exists b, d_arrived d' = b ++ ciphertext (d_recv d')) as Hall.
  { refine (rtc_ind_r _ _ _ _); [intros Hto|intros d1 d2 _ Hs IH Hto].
    - exists 0%nat. split; [|by exists []]. split_and!; cbn; try lia; [|by rewrite take_0|by exists [], (d_arrived d)]. intros _. destruct c; cbn. f_equal. lia.
    - destruct IH as (j & Ho & b & Hb); [by eapply rtc_l|]. destruct (steps_grow _ _ Hto) as [_ [tl Htl]].
      destruct Hs as [d1 data s p m c1 ok _ _|d1 data s p m c1 ok _ _|d1|d1 k|d1 bytes|d1 k Hne|d1 Hop Hnil|d1 max' r x Hx]; cbn in *; try (by exists j; eauto).
      + destruct Ho as (H1 & H2 & H3 & H4 & _). exists j. split; [|exists b; by rewrite Hb, <- app_assoc]. split_and!; try done. exists b, tl. cbn. by rewrite Htl, Hb, <- !app_assoc.
      + destruct Ho as (H1 & H2 & H3 & H4 & H5). exists j. split; [|exists b; by rewrite app_nil_r]. split_and!; try done. cbn. by rewrite app_nil_r.
      + destruct (next_opened c (d_sealed d) (d_arrived d) Hc ltac:(lia) Hu max' _ _ _ Ho) as (j' & Ho'). rewrite Hx in Ho'. cbn in Ho'. exists j'. split; [done|].
        destruct (next_suffix (S max') (d_recv d1)) as [y Hy]. rewrite Hx in Hy. cbn in Hy. exists (b ++ y). by rewrite Hb, Hy, <- app_assoc. }
  destruct (Hall d Hr (rtc_refl _ _)) as (j & Ho & _). destruct (next_opened c (d_sealed d) (d_arrived d) Hc ltac:(lia) Hu max _ _ _ Ho) as (j' & _ & _ & _ & Hcat & _).
  exists (drop (taken (next open (S max) (d_recv d)).1) (plain (next open (S max) (d_recv d)).1) ++ concat (drop j' (d_sealed d))).
  rewrite <- (take_drop j' (d_sealed d)) at 1. by rewrite concat_app, Hcat, <- !app_assoc.
Qed.

End Session.

(** ** The two ends *)

Section Ends.
(** The AEADs, by cipher and key. *)
Variables (seal : Z -> list Z -> list Z -> list Z -> list Z) (open : Z -> list Z -> list Z -> list Z -> option (list Z)).
Hypothesis open_seal : forall c k n p, open c k n (seal c k n p) = Some p.
Hypothesis seal_length : forall c k n p, length (seal c k n p) = (length p + TAG)%nat.

(** A direction from one end to the other. *)
Definition between (a b : NoiseStream) : Dir := dir_new (state (send a)) (receive b).

(** C14: A Noise session delivers.  Two ends made from a handshake's cipher
    states, each sending with the key and nonce the other receives with, make
    a session in both directions.  Whatever is written (also after a write
    that failed, or after the end), delivered in pieces and read in between,
    and wherever the connection is cut: as long as the bytes on the wire are
    the writer's and it did not go on after a frame it left unfinished, each
    end reads a prefix of what the other wrote, in order and nothing else,
    never sees a message that fails to authenticate, and at the end of the
    stream is told of a message cut short exactly when part of one arrived.
    And in any case, also when someone else puts bytes on the wire, what each
    end reads is a prefix of what the other wrote, provided that no forgery
    arrives ([unforged]: what opens under a nonce is the message sealed with
    it; [demo_torn] is a run with a frame left unfinished where none does). *)
Theorem session_delivers wa wb cipher_ k1 n1 k2 n2 a b ab ba :
  NoiseStream_new wa cipher_ (k1, n1) (k2, n2) = Ok a -> NoiseStream_new wb cipher_ (k2, n2) (k1, n1) = Ok b ->
  0 <= n1 <= U64_MAX -> 0 <= n2 <= U64_MAX ->
  rtc (step (seal cipher_ k1) (open cipher_ k1)) (between a b) ab ->
  rtc (step (seal cipher_ k2) (open cipher_ k2)) (between b a) ba ->
  (d_clean ab = true -> delivers (seal cipher_ k1) (open cipher_ k1) ab) /\
  (d_clean ba = true -> delivers (seal cipher_ k2) (open cipher_ k2) ba) /\
  (unforged (open cipher_ k1) (mkCipher cipher_ n1) ab -> keeps (open cipher_ k1) ab) /\
  (unforged (open cipher_ k2) (mkCipher cipher_ n2) ba -> keeps (open cipher_ k2) ba).
Proof using All.
  unfold NoiseStream_new, CipherState_new, cipher_new. cbn [fst snd]. destruct (_ || _); [|done].
  destruct (length k1 =? 32)%nat; [|done]. destruct (length k2 =? 32)%nat; [|done]. intros [= <-] [= <-] Hn1 Hn2.
  unfold between. cbn [send state receive]. intros H1 H2. split_and!; intros Hc; [eapply dir_delivers; eauto|eapply dir_delivers; eauto|eapply dir_keeps; eauto|eapply dir_keeps; eauto]; done.
Qed.

Lemma ends_made w cipher_ k1 n1 k2 n2 : (exists a, NoiseStream_new w cipher_ (k1, n1) (k2, n2) = Ok a) <->
  (cipher_ = 0 \/ cipher_ = 1) /\ length k1 = 32%nat /\ length k2 = 32%nat.
Proof.
  unfold NoiseStream_new, CipherState_new, cipher_new. cbn [fst snd].
  destruct (Z.eqb_spec cipher_ 0) as [H0|H0], (Z.eqb_spec cipher_ 1) as [H1|H1]; cbn [orb];
    try (destruct (Nat.eqb_spec (length k1) 32), (Nat.eqb_spec (length k2) 32));
    (split; [intros [? [=]]; split_and!; auto|intros ([] & ? & ?); try lia; by eexists]).
Qed.

End Ends.

(** *** A message read, then one cut short *)

Definition demo_key (x : Z) : list Z := repeat x 32.
Definition demo_frame : list Z := frame (toy_seal (nonce_bytes (mkCipher 0 7)) [1; 2; 3]).

Definition demo_a : NoiseStream := mkStream (Tcp (Conn_new 3)) (mkKeyed (demo_key 1) (mkCipher 0 7)) (demo_key 2) (received_new (mkCipher 0 9)) Waiters_new.
Definition demo_b : NoiseStream := mkStream (Unix (Conn_new 4)) (mkKeyed (demo_key 2) (mkCipher 0 9)) (demo_key 1) (received_new (mkCipher 0 7)) Waiters_new.
Definition cut_frame : list Z := frame (toy_seal (nonce_bytes (mkCipher 0 8)) [4; 9]).

(** The first message is read in part, the second is cut short. *)
Lemma demo_session : exists ab, rtc (step toy_seal toy_open) (between demo_a demo_b) ab /\ d_read ab = [1; 2] /\ d_missing ab <> [] /\ d_clean ab = true.
Proof.
  eexists. split_and!.
  - eapply rtc_l; [apply (st_write _ _ _ [1; 2; 3] [[1; 2; 3]] demo_frame [] (mkCipher 0 8) true); [done|]; exists []; split_and!; [reflexivity|vm_compute; reflexivity|done]|].
    eapply rtc_l; [apply (st_write _ _ _ [4; 9] [[4; 9]] (take 5 cut_frame) (drop 5 cut_frame) (mkCipher 0 9) false); [done|]; exists []; split_and!; [reflexivity|vm_compute; reflexivity|done]|].
    eapply rtc_l; [apply (st_arrive _ _ _ 90); vm_compute; discriminate|].
    eapply rtc_l; [apply (st_read _ _ _ 1); vm_compute; reflexivity|]. apply rtc_refl.
  - reflexivity.
  - vm_compute. discriminate.
  - reflexivity.
Qed.

(** At the end the reader is told of the message cut short, once it has read
    the one before. *)
Example demo_told_of_the_cut :
  let r := feed [] (feed (demo_frame ++ take 5 cut_frame) (received_new (mkCipher 0 7))) in
  (next toy_open 9 r).2 = Data [1; 2; 3] /\ (next toy_open 9 (next toy_open 9 r).1).2 = Truncated.
Proof. vm_compute. done. Qed.

(** *** A frame left unfinished, and one after it *)

(** An AEAD whose tag is the nonce and the message's length. *)
Definition mac_tag (n : list Z) (len : nat) : list Z := take 12 (n ++ replicate 12 0) ++ to_be 4 (Z.of_nat len).
Definition mac_seal (n p : list Z) : list Z := p ++ mac_tag n (length p).
Definition mac_open (n x : list Z) : option (list Z) :=
  let len := (length x - TAG)%nat in
  if (TAG <=? length x)%nat && bool_decide (drop len x = mac_tag n len) then Some (take len x) else None.

Lemma mac_tag_length n len : length (mac_tag n len) = TAG.
Proof. unfold mac_tag, to_be. rewrite length_app, length_take, length_app, length_replicate, List.length_rev, length_to_le. unfold TAG. lia. Qed.

Lemma mac_open_seal n p : mac_open n (mac_seal n p) = Some p.
Proof.
  unfold mac_open, mac_seal. rewrite length_app, mac_tag_length. rewrite (proj2 (Nat.leb_le _ _)) by lia.
  replace (length p + TAG - TAG)%nat with (length p) by lia. rewrite drop_app_length, take_app_length. by rewrite bool_decide_eq_true_2.
Qed.

Lemma mac_seal_length n p : length (mac_seal n p) = (length p + TAG)%nat.
Proof. unfold mac_seal. by rewrite length_app, mac_tag_length. Qed.

Definition torn_sealed : list (list Z) := [[1; 2; 3]; [4; 9]; [5]].
Definition torn_frame (n : Z) (m : list Z) : list Z := frame (mac_seal (nonce_bytes (mkCipher 0 n)) m).
Definition torn_wire : list Z := torn_frame 7 [1; 2; 3] ++ take 5 (torn_frame 8 [4; 9]) ++ torn_frame 9 [5].

(** Whether [x], if it looks sealed, is one of the messages. *)
Definition torn_ok (x : list Z) : bool :=
  let len := (length x - TAG)%nat in
  let v := from_le (take 8 (drop 4 (drop len x))) in
  if (TAG <=? length x)%nat && bool_decide (drop len x = mac_tag (nonce_bytes (mkCipher 0 v)) len) && (7 <=? v)
  then bool_decide (torn_sealed !! Z.to_nat (v - 7) = Some (take len x)) else true.

Lemma torn_all_ok : forallb (fun j => forallb (fun k => torn_ok (take k (drop j torn_wire))) (seq 0 (S (length torn_wire)))) (seq 0 (S (length torn_wire))) = true.
Proof. vm_compute. reflexivity. Qed.

Lemma torn_unforged d : d_arrived d = torn_wire -> d_sealed d = torn_sealed -> unforged mac_open (mkCipher 0 7) d.
Proof.
  intros Ea Es. unfold unforged. rewrite Ea, Es. clear Ea Es. intros i x p (a & b & Hab) Hi. cbn [nonce cipher] in *. unfold mac_open. set (len := (length x - TAG)%nat).
  destruct (TAG <=? length x)%nat eqn:El; [|done]. cbn [andb]. case_bool_decide as Ht; [|done]. intros [= <-].
  assert (x = take (length x) (drop (length a) torn_wire)) as Hx by (by rewrite Hab, drop_app_length, take_app_length).
  assert (torn_ok x = true) as Hok.
  { pose proof (f_equal length Hab) as Hl. rewrite !length_app in Hl. pose proof torn_all_ok as Hall. rewrite forallb_forall in Hall.
    specialize (Hall (length a) ltac:(apply in_seq; lia)). rewrite forallb_forall in Hall.
    specialize (Hall (length x) ltac:(apply in_seq; lia)). by rewrite <- Hx in Hall. }
  assert (from_le (take 8 (drop 4 (drop len x))) = 7 + Z.of_nat i) as Hv.
  { rewrite Ht. unfold mac_tag, nonce_bytes. cbn [cipher nonce]. change (0 =? 0) with true. cbv iota.
    pose proof (length_to_le 8 (7 + Z.of_nat i)) as Hl8. pose proof (from_to_le 8 (7 + Z.of_nat i)) as Hf. change (256 ^ Z.of_nat 8) with (U64_MAX + 1) in Hf.
    remember (to_le 8 (7 + Z.of_nat i)) as bs eqn:Eb. do 9 (destruct bs as [|? bs]; [try done|]); [|done].
    cbn [replicate app take drop]. apply Hf. lia. }
  unfold torn_ok in Hok. fold len in Hok. rewrite Hv, El, Ht in Hok. rewrite bool_decide_eq_true_2 in Hok by done.
  rewrite (proj2 (Z.leb_le 7 (7 + Z.of_nat i))) in Hok by lia. cbn [andb] in Hok. apply bool_decide_eq_true in Hok. by replace (Z.to_nat (7 + Z.of_nat i - 7)) with i in Hok by lia.
Qed.

(** The run: the second write fails partway and the third goes on after it.
    The reader reads the first message, and then is told that the stream is
    not authentic. *)
Lemma demo_torn : exists ab, rtc (step mac_seal mac_open) (between demo_a demo_b) ab /\ d_clean ab = false /\
  d_read ab = [1; 2; 3] /\ (next mac_open 9 (d_recv ab)).2 = NotAuthentic /\ unforged mac_open (mkCipher 0 7) ab /\ keeps mac_open ab.
Proof.
  assert (exists ab, rtc (step mac_seal mac_open) (between demo_a demo_b) ab /\ d_clean ab = false /\ d_arrived ab = torn_wire /\ d_sealed ab = torn_sealed /\
    d_read ab = [1; 2; 3] /\ (next mac_open 9 (d_recv ab)).2 = NotAuthentic) as (ab & Hr & Hc & Ha & Hs & Hd & Hx).
  { eexists. split; [|split_and!; [| | | |]].
    - eapply rtc_l; [apply (st_write _ _ _ [1; 2; 3] [[1; 2; 3]] (torn_frame 7 [1; 2; 3]) [] (mkCipher 0 8) true); [done|]; exists []; split_and!; [reflexivity|vm_compute; reflexivity|done]|].
      eapply rtc_l; [apply (st_write _ _ _ [4; 9] [[4; 9]] (take 5 (torn_frame 8 [4; 9])) (drop 5 (torn_frame 8 [4; 9])) (mkCipher 0 9) false); [done|]; exists []; split_and!; [reflexivity|vm_compute; reflexivity|done]|].
      eapply rtc_l; [apply (st_write _ _ _ [5] [[5]] (torn_frame 9 [5]) [] (mkCipher 0 10) true); [done|]; exists []; split_and!; [reflexivity|vm_compute; reflexivity|done]|].
      eapply rtc_l; [apply (st_arrive _ _ _ 90); vm_compute; discriminate|].
      eapply rtc_l; [apply (st_read _ _ _ 8); vm_compute; reflexivity|]. apply rtc_refl.
    - vm_compute. reflexivity.
    - vm_compute. reflexivity.
    - reflexivity.
    - reflexivity.
    - vm_compute. reflexivity. }
  pose proof (torn_unforged ab Ha Hs) as Hu. exists ab. split_and!; [done..|]. eapply dir_keeps; [| |exact Hu]; [unfold U64_MAX; cbn; lia|exact Hr].
Qed.

Lemma session_delivers_witness : exists ab, rtc (step toy_seal toy_open) (between demo_a demo_b) ab /\ d_read ab = [1; 2] /\ d_missing ab <> [] /\ delivers toy_seal toy_open ab.
Proof.
  destruct demo_session as (ab & Hab & Hr & Hm & Hc). exists ab. split_and!; [done..|].
  refine (proj1 (session_delivers (fun _ _ => toy_seal) (fun _ _ => toy_open) (fun _ _ => toy_open_seal) (fun _ _ => toy_seal_length)
    (Tcp (Conn_new 3)) (Unix (Conn_new 4)) 0 (demo_key 1) 7 (demo_key 2) 9 demo_a demo_b ab (between demo_b demo_a) eq_refl eq_refl _ _ Hab (rtc_refl _ _)) Hc);
    unfold U64_MAX; lia.
Defined.

End NoiseSession.
