(* ===== verification/NetOps.v ===== *)
(** * Opening, accepting and reading sockets ([src/net.rs])

    The operations under the hosted functions.  System calls go through
    [sys], an answer to each [Call] that may change the world; name
    resolution and the TLS and Noise streams are parameters too ([NetOs]).
    Addresses, paths and names are strings. *)
From S2P Require Import Prelude TaskProto Io Sockets.
Local Open Scope Z_scope.
Local Open Scope roc_scope.

Abbreviation str := (list Z).

(** ** Errors as Roc sees them *)

(** [NetErr]; messages aside. *)
Inductive NetErr := NetIo (e : IoError) | TooManySockets | NetOther.

(** Roc's [IOErr] *)
Inductive IOErr :=
  | RAddrInUse | RAddrNotAvailable | RAlreadyExists | RBrokenPipe | RConnectionAborted | RConnectionRefused
  | RConnectionReset | RInterrupted | RInvalidInput | RNotConnected | RNotFound | RPermissionDenied | RTimedOut
  | RUnexpectedEof | RUnsupported | RTooManySockets | RCancelled | ROther.

(** [io_err!] *)
Definition from_net_err (err : NetErr) : IOErr :=
  match err with
  | TooManySockets => RTooManySockets
  | NetOther => ROther
  | NetIo e =>
      if is_cancelled_error e then RCancelled
      else match kind e with
           | AddrInUse => RAddrInUse
           | AddrNotAvailable => RAddrNotAvailable
           | AlreadyExists => RAlreadyExists
           | BrokenPipe => RBrokenPipe
           | ConnectionAborted => RConnectionAborted
           | ConnectionRefused => RConnectionRefused
           | ConnectionReset => RConnectionReset
           | InterruptedKind => RInterrupted
           | InvalidInput => RInvalidInput
           | NotConnected => RNotConnected
           | NotFound => RNotFound
           | PermissionDenied => RPermissionDenied
           | TimedOutKind | WouldBlock => RTimedOut
           | UnexpectedEof => RUnexpectedEof
           | Unsupported => RUnsupported
           | _ => ROther
           end
  end.

Definition net_result (A : Type) : Type := result A NetErr.

(** [?] from an [io::Result] to a [NetResult]. *)
Definition to_net {A} (r : io_result A) : net_result A := map_err NetIo r.

(** [wrong_kind] *)
Definition wrong_kind : NetErr := NetIo (err_kind InvalidInput).

(** ** Sockets *)

(** [Socket]: each holds the descriptor of its [Conn], whose state is in the
    world. *)
Inductive Socket :=
  | TcpListener (c : Z) (t : ServerTimeouts)
  | TcpStream (c : Z)
  | UnixListener (c : Z) (path : str) (t : ServerTimeouts)
  | UnixStream (c : Z)
  | Udp (c : Z)
  | TlsListener (c : Z) (config : nat) (handshake_ms : Z) (t : ServerTimeouts)
  | Tls (c : Z)
  | Noise (c : Z) (tcp : bool).

(** [Socket::io_parts]: the descriptor to wait on. *)
Definition io_parts (s : Socket) : Z :=
  match s with
  | TcpListener c _ | TcpStream c | UnixListener c _ _ | UnixStream c | Udp c | TlsListener c _ _ _ | Tls c | Noise c _ => c
  end.

(** [copy::Side] and [copy::CopyErr] *)
Inductive Side := SideA | SideB.
Inductive CopyErr :=
  | CopyRead (side : Side) (e : IoError)
  | CopyWrite (side : Side) (e : IoError)
  | CopyCancelled
  | MessageTimeout
  | TaskLimit.

(** The system calls. *)
Inductive Shutdown := ShutRead | ShutWrite | ShutBoth.

Inductive Call : Type -> Type :=
  | CSocket (dgram : bool) (a : str) : Call Z
  | CSetNonblocking (fd : Z) : Call unit
  | CSetReuseAddr (fd : Z) : Call unit
  | CSetReusePort (fd : Z) : Call unit
  | CBindDevice (fd : Z) (name : str) : Call unit
  | CBind (fd : Z) (a : str) : Call unit
  | CConnect (fd : Z) (a : str) : Call unit
  | CTakeError (fd : Z) : Call (option IoError)
  | CPeerAddr (fd : Z) : Call str
  | CLocalAddr (fd : Z) : Call str
  | CListen (fd : Z) (backlog : Z) : Call unit
  | CAccept (fd : Z) : Call Z
  | CRead (fd : Z) (max : nat) : Call (list Z)
  | CPeek (fd : Z) : Call unit
  | CRecvDatagram (fd : Z) (max : nat) : Call (list Z * bool * str)
  | CWrite (fd : Z) (data : list Z) : Call nat
  | CSendTo (fd : Z) (data : list Z) (a : str) : Call nat
  | CShutdown (fd : Z) (how : Shutdown) : Call unit
  | CSetNodelay (fd : Z) (b : bool) : Call unit
  | CSetBroadcast (fd : Z) (b : bool) : Call unit
  | CMulticast (fd : Z) (join : bool) (group : str) : Call unit
  | CTryClone (fd : Z) : Call Z
  | CUnixConnect (path : str) : Call Z
  | CUnixBind (path : str) : Call Z
  | CIsSocketFile (path : str) : Call bool
  | CRemoveFile (path : str) : Call unit.

(** What the host runs on: the OS, the resolver, the process's connections,
    and the streams that have a protocol of their own. *)
Class NetOs (W : Type) `{Sched W} := {
  sys : forall {A}, Call A -> W -> io_result A * W;
  (** [resolve::socket_addrs] and [resolve::host_ips] *)
  socket_addrs : str -> deadline -> W -> io_result (list str) * W;
  host_ips : str -> deadline -> W -> io_result (list str) * W;
  (** The [Conn] of a descriptor, whether a close of it is under way (waiting
      until it isn't), and changing its timeouts. *)
  conn_at : Z -> W -> Conn;
  settle : Z -> W -> W;
  update_conn : Z -> (Conn -> Conn) -> W -> W;
  (** [Conn::close_now] *)
  close_conn : Z -> W -> io_result unit * W;
  (** [TlsStream]'s and [NoiseStream]'s operations. *)
  tls_try_read : Z -> nat -> W -> io_result (option (list Z)) * W;
  tls_fill : Z -> W -> io_result unit * W;
  tls_fill_now : Z -> W -> io_result bool * W;
  tls_write_all : Z -> list Z -> W -> io_result unit * W;
  tls_shutdown : Z -> Shutdown -> W -> io_result unit * W;
  tls_server : Z -> nat -> deadline -> W -> io_result unit * W;
  noise_read : Z -> nat -> W -> io_result (list Z) * W;
  noise_try_read : Z -> nat -> W -> io_result (option (list Z)) * W;
  noise_write_all : Z -> list Z -> W -> io_result unit * W;
}.

(** [MAX_READ_BYTES] *)
Definition MAX_READ_BYTES : Z := 64 * 1024.

(** [max.min(MAX_READ_BYTES) as usize] *)
Definition read_max (max : Z) : nat := Z.to_nat (Z.min max MAX_READ_BYTES).

Section Ops.
Context {W : Type} `{NetOs W}.

Definition call {A} (c : Call A) : io W (io_result A) := act (sys c).

(** The operations of [Sockets.v], on one of the world's connections. *)
Abbreviation conn_retry c := (@retry W _ (conn_at c) _).
Abbreviation conn_write_deadline c := (@write_deadline W _ (conn_at c)).

(** ** Connecting *)

(** [ConnectFrom] *)
Record ConnectFrom := mkFrom { local : option str; interface : option str }.
Definition ANY : ConnectFrom := mkFrom None None.

(** The loop at the end of [connect_one]: wait until connected, or an error. *)
Fixpoint await_connected (fuel : nat) (s : Z) (deadline : deadline) : io W (io_result Z) :=
  match fuel with
  | O => fun _ => None
  | S fuel =>
      _ <-? act (wait_io s true deadline);
      taken <-? call (CTakeError s);
      match taken with
      | Some err => mret (Err err)
      | None =>
          peer ← call (CPeerAddr s);
          match peer with
          | Ok _ => mret (Ok s)
          | Err err => if is_kind NotConnected err then await_connected fuel s deadline else mret (Err err)
          end
      end
  end.

Definition EINPROGRESS : Z := 115.

(** [connect_one] *)
Definition connect_one (fuel : nat) (addr : str) (deadline : deadline) (from : ConnectFrom) : io W (io_result Z) :=
  s <-? call (CSocket false addr);
  _ <-? call (CSetNonblocking s);
  _ <-? (match interface from with Some name => call (CBindDevice s name) | None => mret (Ok tt) end);
  _ <-? (match local from with Some a => call (CBind s a) | None => mret (Ok tt) end);
  c ← call (CConnect s addr);
  let started :=
    match c with
    | Ok _ => true
    | Err e => bool_decide (raw_os_error e = Some EINPROGRESS) || is_kind WouldBlock e
    end in
  match c with
  | Err e => if started then await_connected fuel s deadline else mret (Err e)
  | Ok _ => await_connected fuel s deadline
  end.

(** The deadline of an attempt with [n] addresses still to try, this one
    included; [None] if there's no time left. *)
Definition attempt_deadline (deadline : deadline) (n : nat) (t : Z) : option (option Z) :=
  match deadline with
  | None => Some None
  | Some d =>
      let left := saturating_sub d t in
      if left =? 0 then None
      else Some (instant_checked_add t (Z.max (left / Z.of_nat n) 1000000))
  end.

(** The loop of [tcp_connect] over the addresses, [connect] being
    [connect_one]; the last error, if every attempt failed. *)
Fixpoint try_each (connect : str -> option Z -> io W (io_result Z)) (deadline : deadline) (addrs : list str)
    (last : option IoError) : io W (result Z (option IoError)) :=
  match addrs with
  | [] => mret (Err last)
  | addr :: rest =>
      t ← get now;
      match attempt_deadline deadline (length addrs) t with
      | None => mret (Err last)
      | Some d =>
          r ← connect addr d;
          match r with
          | Ok s => mret (Ok s)
          | Err e => try_each connect deadline rest (Some e)
          end
      end
  end.

(** [tcp_connect] *)
Definition tcp_connect (fuel : nat) (address : str) (deadline : deadline) (from : ConnectFrom) : io W (net_result Z) :=
  addrs ← act (socket_addrs address deadline);
  match addrs with
  | Err e => mret (Err (NetIo e))
  | Ok addrs =>
      r ← try_each (fun a d => connect_one fuel a d from) deadline addrs None;
      mret (match r with
            | Ok s => Ok s
            | Err (Some e) => Err (NetIo e)
            | Err None => Err (NetIo (err_kind (if bool_decide (addrs = []) then NotFound else TimedOutKind)))
            end)
  end.

(** [tcp_bind], one address. *)
Definition bind_one (addr : str) (backlog : Z) (reuse_port : bool) : io W (io_result Z) :=
  s <-? call (CSocket false addr);
  _ <-? call (CSetReuseAddr s);
  _ <-? (if reuse_port then call (CSetReusePort s) else mret (Ok tt));
  _ <-? call (CBind s addr);
  _ <-? call (CListen s (Z.min backlog 2147483647));
  _ <-? call (CSetNonblocking s);
  mret (Ok s).

(** [roc_udp_bind]'s closure, one address. *)
Definition udp_bind_one (addr : str) (reuse : bool) : io W (io_result Z) :=
  s <-? call (CSocket true addr);
  _ <-? (if reuse then call (CSetReuseAddr s) else mret (Ok tt));
  _ <-? (if reuse then call (CSetReusePort s) else mret (Ok tt));
  _ <-? call (CBind s addr);
  _ <-? call (CSetNonblocking s);
  mret (Ok s).

(** The first address that can be bound. *)
Fixpoint bind_each (bind : str -> io W (io_result Z)) (addrs : list str) (last : option IoError) : io W (io_result Z) :=
  match addrs with
  | [] => mret (Err (default (err_kind NotFound) last))
  | addr :: rest =>
      r ← bind addr;
      match r with Ok s => mret (Ok s) | Err e => bind_each bind rest (Some e) end
  end.

(** [tcp_bind] *)
Definition tcp_bind (address : str) (backlog : Z) (reuse_port : bool) : io W (net_result Z) :=
  addrs ← act (socket_addrs address None);
  match addrs with
  | Err e => mret (Err (NetIo e))
  | Ok addrs => r ← bind_each (fun a => bind_one a backlog reuse_port) addrs None; mret (to_net r)
  end.

(** The inner loop of [unix_connect]: wait until connected. *)
Fixpoint await_unix (fuel : nat) (s : Z) (deadline : deadline) : io W (io_result Z) :=
  match fuel with
  | O => fun _ => None
  | S fuel =>
      peer ← call (CPeerAddr s);
      match peer with
      | Ok _ => mret (Ok s)
      | Err err =>
          if is_kind NotConnected err then
            _ <-? act (wait_io s true deadline);
            taken <-? call (CTakeError s);
            match taken with Some err => mret (Err err) | None => await_unix fuel s deadline end
          else mret (Err err)
      end
  end.

(** [unix_connect]; [pause] in nanoseconds. *)
Fixpoint unix_connect_loop (fuel : nat) (path : str) (deadline : deadline) (pause : Z) : io W (io_result Z) :=
  match fuel with
  | O => fun _ => None
  | S fuel' =>
      c ← call (CUnixConnect path);
      match c with
      | Ok s => await_unix fuel s deadline
      | Err err =>
          if is_kind WouldBlock err then
            t ← get now;
            if past deadline t then mret (Err timed_out)
            else
              let wake := match deadline with Some d => Z.min d (t + pause) | None => t + pause end in
              slept ← sleep fuel (saturating_sub wake t);
              if slept : bool then unix_connect_loop fuel' path deadline (Z.min (pause * 2) 50000000)
              else mret (Err cancelled)
          else mret (Err err)
      end
  end.

Definition unix_connect (fuel : nat) (path : str) (deadline : deadline) : io W (io_result Z) :=
  unix_connect_loop fuel path deadline 1000000.

(** [is_stale_socket] *)
Definition is_stale_socket (path : str) : io W bool :=
  f ← call (CIsSocketFile path);
  match f with
  | Ok true =>
      c ← call (CUnixConnect path);
      mret (match c with Err err => is_kind ConnectionRefused err | Ok _ => false end)
  | _ => mret false
  end.

(** [unix_listen] *)
Definition unix_listen (path : str) : io W (io_result Z) :=
  b ← call (CUnixBind path);
  l <-? (match b with
         | Ok l => mret (Ok l)
         | Err err =>
             if is_kind AddrInUse err then
               stale ← is_stale_socket path;
               if stale : bool then (_ <-? call (CRemoveFile path); call (CUnixBind path)) else mret (Err err)
             else mret (Err err)
         end);
  _ <-? call (CSetNonblocking l);
  mret (Ok l).

(** ** Accepting *)

Definition EMFILE : Z := 24.
Definition ENFILE : Z := 23.

Definition listener_closed : IoError := err_kind NotConnected.
Definition conn_closed (c : Z) (w : W) : bool := closed (conn_at c w).

(** [Conn::closed_settled] *)
Definition closed_settled (c : Z) : io W bool := act (fun w => let w := settle c w in (conn_closed c w, w)).

Definition out_of_fds (e : IoError) : bool :=
  bool_decide (raw_os_error e = Some EMFILE) || bool_decide (raw_os_error e = Some ENFILE).

(** [accept_retrying]; [inner] is the fuel of each [retry] and [sleep]. *)
Fixpoint accept_retrying (fuel inner : nat) (listener : Z) : io W (io_result Z) :=
  match fuel with
  | O => fun _ => None
  | S fuel =>
      c ← get (conn_closed listener);
      if c : bool then mret (Err listener_closed)
      else
        r ← conn_retry listener inner false None (sys (CAccept listener));
        match r with
        | Ok stream => _ <-? call (CSetNonblocking stream); mret (Ok stream)
        | Err err =>
            c ← closed_settled listener;
            if c : bool then mret (Err listener_closed)
            else if is_kind ConnectionAborted err || is_kind InterruptedKind err then accept_retrying fuel inner listener
            else if out_of_fds err then
              slept ← sleep inner 50000000;
              if slept : bool then accept_retrying fuel inner listener else mret (Err cancelled)
            else mret (Err err)
        end
  end.

(** [once] of [accept_now]: without waiting. *)
Fixpoint accept_once (fuel : nat) (listener : Z) : io W (io_result (option Z)) :=
  match fuel with
  | O => fun _ => None
  | S fuel =>
      c ← get (conn_closed listener);
      if c : bool then mret (Err listener_closed)
      else
        r ← call (CAccept listener);
        match r with
        | Ok stream => mret (Ok (Some stream))
        | Err err =>
            c ← closed_settled listener;
            if c : bool then mret (Err listener_closed)
            else if is_kind WouldBlock err then mret (Ok None)
            else if is_kind ConnectionAborted err || is_kind InterruptedKind err then accept_once fuel listener
            else mret (Err err)
        end
  end.

(** [stream.set_nonblocking] and [timeouts.apply] of a new connection. *)
Definition apply_timeouts (t : ServerTimeouts) (stream : Z) : io W unit := act (fun w => (tt, update_conn stream (apply t) w)).

(** The accepting half of [roc_socket_accept]. *)
Definition accept (fuel : nat) (listener : Socket) : io W (net_result Socket) :=
  match listener with
  | TcpListener c t =>
      r ← accept_retrying fuel fuel c;
      match r with
      | Err e => mret (Err (NetIo e))
      | Ok stream => _ ← apply_timeouts t stream; mret (Ok (TcpStream stream))
      end
  | UnixListener c _ t =>
      r ← accept_retrying fuel fuel c;
      match r with
      | Err e => mret (Err (NetIo e))
      | Ok stream => _ ← apply_timeouts t stream; mret (Ok (UnixStream stream))
      end
  | TlsListener c config handshake_ms t =>
      r ← accept_retrying fuel fuel c;
      match r with
      | Err e => mret (Err (NetIo e))
      | Ok tcp =>
          _ ← apply_timeouts t tcp;
          d ← get (fun w => deadline_after handshake_ms (now w));
          s ← act (tls_server tcp config d);
          mret (match s with Ok _ => Ok (Tls tcp) | Err e => Err (NetIo e) end)
      end
  | _ => mret (Err wrong_kind)
  end.

(** [accept_now] *)
Definition accept_now (fuel : nat) (listener : Socket) : io W (net_result (option Socket)) :=
  match listener with
  | TcpListener c t =>
      r ← accept_once fuel c;
      match r with
      | Err e => mret (Err (NetIo e))
      | Ok None => mret (Ok None)
      | Ok (Some stream) =>
          n ← call (CSetNonblocking stream);
          match n with
          | Err e => mret (Err (NetIo e))
          | Ok _ => _ ← apply_timeouts t stream; mret (Ok (Some (TcpStream stream)))
          end
      end
  | UnixListener c _ t =>
      r ← accept_once fuel c;
      match r with
      | Err e => mret (Err (NetIo e))
      | Ok None => mret (Ok None)
      | Ok (Some stream) =>
          n ← call (CSetNonblocking stream);
          match n with
          | Err e => mret (Err (NetIo e))
          | Ok _ => _ ← apply_timeouts t stream; mret (Ok (Some (UnixStream stream)))
          end
      end
  | TlsListener c config handshake_ms t =>
      r ← accept_once fuel c;
      match r with
      | Err e => mret (Err (NetIo e))
      | Ok None => mret (Ok None)
      | Ok (Some tcp) =>
          n ← call (CSetNonblocking tcp);
          match n with
          | Err e => mret (Err (NetIo e))
          | Ok _ =>
              _ ← apply_timeouts t tcp;
              d ← get (fun w => deadline_after handshake_ms (now w));
              s ← act (tls_server tcp config d);
              mret (match s with Ok _ => Ok (Some (Tls tcp)) | Err e => Err (NetIo e) end)
          end
      end
  | _ => mret (Err wrong_kind)
  end.

(** ** Reading and writing *)

(** [once] of [read_now]: read until something other than [Interrupted]. *)
Fixpoint read_once {A} (fuel : nat) (read : W -> io_result A * W) : io W (io_result (option A)) :=
  match fuel with
  | O => fun _ => None
  | S fuel =>
      r ← act read;
      match r with
      | Ok bytes => mret (Ok (Some bytes))
      | Err e =>
          if is_kind WouldBlock e then mret (Ok None)
          else if is_kind InterruptedKind e then read_once fuel read
          else mret (Err e)
      end
  end.

(** The TLS arm of [read_now]. *)
Fixpoint tls_read_now (fuel : nat) (s : Z) (max : nat) : io W (io_result (option (list Z))) :=
  match fuel with
  | O => fun _ => None
  | S fuel =>
      received <-? act (tls_try_read s max);
      match received with
      | Some bytes => mret (Ok (Some bytes))
      | None => more <-? act (tls_fill_now s); if more : bool then tls_read_now fuel s max else mret (Ok None)
      end
  end.

(** [read_now] *)
Definition read_now (fuel : nat) (socket : Socket) (max : Z) : io W (net_result (option (list Z))) :=
  let max := read_max max in
  match socket with
  | TcpStream s | UnixStream s | Udp s => r ← read_once fuel (sys (CRead s max)); mret (to_net r)
  | Tls s => r ← tls_read_now fuel s max; mret (to_net r)
  | Noise s _ => r ← act (noise_try_read s max); mret (to_net r)
  | _ => mret (Err wrong_kind)
  end.

(** The TLS arm of [read_stream]. *)
Fixpoint tls_read (fuel : nat) (s : Z) (max : nat) : io W (io_result (list Z)) :=
  match fuel with
  | O => fun _ => None
  | S fuel =>
      received <-? act (tls_try_read s max);
      match received with
      | Some bytes => mret (Ok bytes)
      | None => _ <-? act (tls_fill s); tls_read fuel s max
      end
  end.

(** [read_stream], with what it read; [udp] is [what == "read"]. *)
Definition read_stream (fuel : nat) (socket : Socket) (max : Z) (udp : bool) : io W (net_result (list Z)) :=
  let max := read_max max in
  match socket with
  | TcpStream s | UnixStream s => r ← @read_with W _ (conn_at s) _ fuel (sys (CRead s max)); mret (to_net r)
  | Udp s =>
      if udp then r ← @read_with W _ (conn_at s) _ fuel (sys (CRead s max)); mret (to_net r)
      else mret (Err wrong_kind)
  | Tls s => r ← tls_read fuel s max; mret (to_net r)
  | Noise s _ => r ← act (noise_read s max); mret (to_net r)
  | _ => mret (Err wrong_kind)
  end.

(** [check_datagram_sent] *)
Definition check_datagram_sent (sent len : nat) : net_result unit := if (sent =? len)%nat then Ok tt else Err NetOther.

(** The body of [roc_socket_write]. *)
Definition write_socket (fuel : nat) (socket : Socket) (data : list Z) : io W (net_result unit) :=
  match socket with
  | TcpStream s | UnixStream s =>
      r ← @write_all_with W _ (conn_at s) (length data) fuel data (fun d => sys (CWrite s d)); mret (to_net r)
  | Udp s =>
      d ← get (conn_write_deadline s);
      r ← conn_retry s fuel true d (sys (CWrite s data));
      mret (match r with Ok n => check_datagram_sent n (length data) | Err e => Err (NetIo e) end)
  | Tls s => r ← act (tls_write_all s data); mret (to_net r)
  | Noise s _ => r ← act (noise_write_all s data); mret (to_net r)
  | _ => mret (Err wrong_kind)
  end.

(** The body of [roc_socket_shutdown]. *)
Definition shutdown_socket (socket : Socket) (how : Shutdown) : io W (net_result unit) :=
  r ← (match socket with
       | TcpStream s | UnixStream s | Noise s _ => r ← call (CShutdown s how); mret (Some r)
       | Tls s => r ← act (tls_shutdown s how); mret (Some r)
       | _ => mret None
       end);
  mret (match r with
        | None => Err wrong_kind
        | Some (Err e) => if is_kind NotConnected e then Ok tt else Err (NetIo e)
        | Some (Ok _) => Ok tt
        end).

(** The loop of [resolve]: each address once, in order. *)
Fixpoint dedup (ips acc : list str) : list str :=
  match ips with
  | [] => acc
  | ip :: rest => dedup rest (if bool_decide (ip ∈ acc) then acc else acc ++ [ip])
  end.

(** [resolve] *)
Definition resolve (name : str) (deadline : deadline) : io W (net_result (list str)) :=
  r ← act (host_ips name deadline);
  mret (match r with
        | Err e => Err (NetIo e)
        | Ok ips => match dedup ips [] with [] => Err (NetIo (err_kind NotFound)) | addresses => Ok addresses end
        end).

End Ops.

(** ** What the operations do *)

Section OpFacts.
Context {W : Type} `{NetOs W}.

(** *** Connecting *)

Section Shares.
(** The attempts: [connect] always returns, and a failed attempt is over by
    its deadline. *)
Variable connect : str -> option Z -> io W (io_result Z).
Hypothesis connect_returns : forall a d w, exists r w', connect a d w = Some (r, w').
Hypothesis connect_punctual : forall a d w e w', connect a (Some d) w = Some (Err e, w') -> now w' <= Z.max d (now w).

(** An address that answers within [share] is reached, whatever the others
    do, as long as what is left of the time is enough for [share] each. *)
Lemma try_each_reaches (T n : Z) (d : Z) (good : str) addrs last w :
  0 < n -> 1000000 <= T / n -> d <= INSTANT_MAX ->
  T * Z.of_nat (length addrs) <= (d - now w) * n ->
  (forall d' w, now w + T / n <= d' -> exists s w', connect good (Some d') w = Some (Ok s, w')) ->
  good ∈ addrs -> exists s w', try_each connect (Some d) addrs last w = Some (Ok s, w').
Proof using connect_returns connect_punctual.
  intros Hn Hms Hmax. revert last w. induction addrs as [|a addrs IH]; intros last w Hleft Hgood Hin; [set_solver|].
  set (m := Z.of_nat (length (a :: addrs))) in *. assert (0 < m) as Hm by (unfold m; simpl; lia).
  assert (0 <= T) as HT by (pose proof (Z.mul_div_le T n Hn); nia).
  assert (m * (T / n) <= d - now w) as Hshare.
  { pose proof (Z.mul_div_le T n Hn). apply Z.mul_le_mono_pos_r with n; [done|]. nia. }
  assert (0 < d - now w) as Hpos by (assert (0 < m * (T / n)) by (apply Z.mul_pos_pos; lia); lia).
  assert ((d - now w) / m <= d - now w) as Hle by (apply Z.div_le_upper_bound; nia).
  assert (T / n <= (d - now w) / m) as Hdiv by (apply Z.div_le_lower_bound; lia).
  assert (m * ((d - now w) / m) <= d - now w) as Hmul by (apply Z.mul_div_le; lia).
  cbn. unfold mbind, io_bind, get. unfold attempt_deadline, saturating_sub.
  change (Z.of_nat (S (length addrs))) with m.
  rewrite (Z.max_r 0) by lia. destruct (Z.eqb_spec (d - now w) 0) as [|_]; [lia|]. rewrite Z.max_l by lia.
  unfold instant_checked_add. destruct (Z.leb_spec (now w + (d - now w) / m) INSTANT_MAX) as [_|]; [|lia].
  destruct (connect_returns a (Some (now w + (d - now w) / m)) w) as ([s|e] & w1 & Ec); rewrite Ec; [eexists _, _; reflexivity|].
  apply IH; [|done|].
  - pose proof (connect_punctual _ _ _ _ _ Ec) as Hp. assert (Z.of_nat (length addrs) = m - 1) as -> by (unfold m; simpl; lia).
    assert (d - now w - (d - now w) / m <= d - now w1) as Hl by lia.
    apply Z.mul_le_mono_pos_l with m; [done|].
    transitivity ((d - now w - (d - now w) / m) * m * n); [|nia]. nia.
  - apply elem_of_cons in Hin as [->|Hin]; [|done]. destruct (Hgood (now w + (d - now w) / m) w) as (s & w' & Es); [lia|]. congruence.
Qed.
End Shares.

(** *** Accepting *)

Lemma accept_retrying_err `{!SchedLaws W} fuel inner l w e w' :
  accept_retrying fuel inner l w = Some (Err e, w') ->
  (e = listener_closed /\ conn_closed l w' = true) \/ e = cancelled \/
  (exists s w1, sys (CSetNonblocking s) w1 = (Err e, w')) \/
  (kind e <> ConnectionAborted /\ kind e <> InterruptedKind /\ kind e <> WouldBlock /\ out_of_fds e = false).
Proof.
  revert w. induction fuel as [|fuel IH]; intros w; [done|]. cbn.
  unfold mbind, io_bind, get. destruct (conn_closed l w) eqn:Ec; [intros [= <- <-]; auto|].
  destruct (@retry W _ (conn_at l) Z inner false None (sys (CAccept l)) w) as [[[s|e1] w1]|] eqn:Er; [| |done].
  - unfold try_bind, call, act, mbind, io_bind. destruct (sys (CSetNonblocking s) w1) as [[[]|e2] w2] eqn:Es; [done|].
    intros [= <- <-]. eauto 6.
  - unfold closed_settled, act. destruct (conn_closed l (settle l w1)) eqn:Ec1; [intros [= <- <-]; auto|].
    apply retry_error in Er as (Hwb & Hi & _).
    destruct (is_kind ConnectionAborted e1) eqn:Ea; [apply IH|]. destruct (is_kind InterruptedKind e1) eqn:Eint; [apply IH|]. cbn.
    destruct (out_of_fds e1) eqn:Eo.
    + destruct (sleep inner 50000000 _) as [[[] w2]|] eqn:Es; [apply IH|intros [= <- <-]; auto|done].
    + intros [= <- <-]. right. right. right. unfold is_kind in Ea. apply bool_decide_eq_false in Ea. auto.
Qed.

(** *** Names *)

Lemma dedup_spec ips acc :
  NoDup acc ->
  NoDup (dedup ips acc) /\ (forall x, x ∈ dedup ips acc <-> x ∈ acc \/ x ∈ ips) /\
  exists l, dedup ips acc = acc ++ l /\ sublist l ips.
Proof.
  revert acc. induction ips as [|ip ips IH]; intros acc Hnd; simpl.
  - split_and!; [done| |exists []; by rewrite app_nil_r].
    intros x. rewrite elem_of_nil. tauto.
  - case_bool_decide as Hin.
    + destruct (IH acc Hnd) as (Hnd2 & Hel & l & El & Hl). split_and!; [done| |exists l; split; [done|by apply sublist_cons]].
      intros x. rewrite Hel, elem_of_cons. split; [tauto|]. intros [?|[->|?]]; auto.
    + destruct (IH (acc ++ [ip])) as (Hnd2 & Hel & l & El & Hl).
      { apply NoDup_app. split_and!; [done| |apply NoDup_singleton]. by intros x Hx ->%list_elem_of_singleton. }
      split_and!; [done| |exists (ip :: l); split; [by rewrite El, <- app_assoc|by apply sublist_skip]].
      intros x. rewrite Hel, elem_of_app, list_elem_of_singleton, elem_of_cons. tauto.
Qed.

End OpFacts.

(** ** Properties *)

Section NetProperties.
Context {W : Type} `{NetOs W}.

(** A slow or unreachable address can't keep a connect from the others: if
    the name resolves to [n] addresses with time [T] left, attempts end by
    their deadlines, and one of the addresses answers within [T / n]
    (a millisecond at least), then [tcp_connect] succeeds, wherever that
    address is in the list. *)
Theorem reachable_address_connects fuel address from (T d : Z) (good : str) addrs w w1 :
  socket_addrs address (Some d) w = (Ok addrs, w1) ->
  d = now w1 + T -> d <= INSTANT_MAX -> 1000000 <= T / Z.of_nat (length addrs) ->
  (forall a d w, exists r w', connect_one fuel a d from w = Some (r, w')) ->
  (forall a d w e w', connect_one fuel a (Some d) from w = Some (Err e, w') -> now w' <= Z.max d (now w)) ->
  (forall d w, now w + T / Z.of_nat (length addrs) <= d ->
     exists s w', connect_one fuel good (Some d) from w = Some (Ok s, w')) ->
  good ∈ addrs -> exists s w', tcp_connect fuel address (Some d) from w = Some (Ok s, w').
Proof.
  intros Hr Hd Hmax Hms Hret Hpun Hgood Hin. unfold tcp_connect, mbind, io_bind, act. rewrite Hr.
  destruct (try_each_reaches (fun a d => connect_one fuel a d from) Hret Hpun T (Z.of_nat (length addrs)) d good addrs None w1)
    as (s & w' & ->); auto; [destruct addrs; [set_solver|simpl; lia]|lia|]. eexists _, _. reflexivity.
Qed.

(** A server's accept loop ends only for a reason: [accept_retrying] fails
    because the listener is closed, the task is cancelled, the accepted
    connection couldn't be set up, or with an error that isn't one of those
    that mean to try again: an aborted connection, an interruption, nothing
    to accept yet, or running out of descriptors.  On a closed listener it
    fails at once. *)
Theorem accept_ends_for_a_reason `{!SchedLaws W} fuel inner l w :
  (conn_closed l w = true -> accept_retrying (S fuel) inner l w = Some (Err listener_closed, w)) /\
  forall e w', accept_retrying fuel inner l w = Some (Err e, w') ->
    (e = listener_closed /\ conn_closed l w' = true) \/ e = cancelled \/
    (exists s w1, sys (CSetNonblocking s) w1 = (Err e, w')) \/
    (kind e <> ConnectionAborted /\ kind e <> InterruptedKind /\ kind e <> WouldBlock /\ out_of_fds e = false).
Proof.
  split; [|intros e w'; apply accept_retrying_err].
  intros Hc. cbn. unfold mbind, io_bind, get. by rewrite Hc.
Qed.

End NetProperties.

(** ** A small network

    Descriptor [1] is a peer that never answers; others connect after a tick.
    Accepting fails with [EMFILE] first, then gives descriptor 9. *)
Module ToyNet.

Record World := mkWorld { t_now : Z; t_watched : Z; t_fds_out : bool; t_conns : Z -> Conn }.

#[global] Instance toynet_sched : Sched World := {|
  now := t_now;
  watch_io fd _ w := (WatchAdded, mkWorld (t_now w) fd (t_fds_out w) (t_conns w));
  wait_suspended d w :=
    match d with
    | Some d => if t_watched w =? 1 then (TimedOut, mkWorld (Z.max d (t_now w)) 1 (t_fds_out w) (t_conns w))
                else (Ready, mkWorld (t_now w + 1) (t_watched w) (t_fds_out w) (t_conns w))
    | None => (Ready, mkWorld (t_now w + 1) (t_watched w) (t_fds_out w) (t_conns w))
    end;
  consume_budget w := w |}.

#[global] Instance toynet_laws : SchedLaws World.
Proof.
  split; simpl; intros; try lia; try done.
  - destruct d; simpl; [case_match; simpl; lia|lia].
  - destruct d; [case_match|]; simplify_eq. simpl. lia.
Qed.

Definition toy_sys {A} (c : Call A) (w : World) : io_result A * World :=
  match c with
  | CSocket _ a => (Ok (default 0 (head a)), w)
  | CTakeError _ => (Ok None, w)
  | CPeerAddr _ | CLocalAddr _ => (Ok [], w)
  | CAccept _ =>
      if t_fds_out w then (Err (mkErr OtherKind (Some EMFILE) false), mkWorld (t_now w) 1 false (t_conns w)) else (Ok 9, w)
  | CRead _ _ => (Ok [104; 105], w)
  | CRecvDatagram _ _ => (Ok ([104; 105], false, []), w)
  | CWrite _ data | CSendTo _ data _ => (Ok (length data), w)
  | CTryClone fd => (Ok fd, w)
  | CUnixConnect _ | CUnixBind _ => (Ok 5, w)
  | CIsSocketFile _ => (Ok false, w)
  | CSetNonblocking _ | CSetReuseAddr _ | CSetReusePort _ | CBindDevice _ _ | CBind _ _ | CConnect _ _ | CListen _ _
  | CPeek _ | CShutdown _ _ | CSetNodelay _ _ | CSetBroadcast _ _ | CMulticast _ _ _ | CRemoveFile _ => (Ok tt, w)
  end.

#[global] Instance toynet : NetOs World := {|
  sys := @toy_sys;
  socket_addrs _ _ w := (Ok [[1]; [4]], w);
  host_ips _ _ w := (Ok [[1]; [4]; [1]], w);
  conn_at c w := t_conns w c;
  settle _ w := w;
  update_conn c f w := mkWorld (t_now w) (t_watched w) (t_fds_out w) (fun d => if d =? c then f (t_conns w d) else t_conns w d);
  close_conn c w := (Ok tt, w);
  tls_try_read _ _ w := (Ok (Some []), w);
  tls_fill _ w := (Ok tt, w);
  tls_fill_now _ w := (Ok false, w);
  tls_write_all _ _ w := (Ok tt, w);
  tls_shutdown _ _ w := (Ok tt, w);
  tls_server _ _ _ w := (Ok tt, w);
  noise_read _ _ w := (Ok [], w);
  noise_try_read _ _ w := (Ok None, w);
  noise_write_all _ _ w := (Ok tt, w) |}.

Definition start : World := mkWorld 0 0 true Conn_new.

Lemma toy_connect a d w : exists r w', connect_one 1 a d ANY w = Some (r, w') /\
  match r with
  | Ok s => s = default 0 (head a)
  | Err _ => (default 0 (head a) = 1 \/ past d (now w) = true) /\ (forall t, d = Some t -> now w' <= Z.max t (now w))
  end.
Proof.
  unfold connect_one, call, act, try_bind, mbind, io_bind. cbn.
  unfold call, act, try_bind, mbind, io_bind, wait_io. cbn. destruct d as [d|]; cbn; [|eexists _, _; by split].
  destruct (Z.leb_spec d (t_now w)); cbn.
  - eexists _, _. split; [reflexivity|]. split; [auto|]. intros t [= <-]. cbn. lia.
  - destruct (Z.eqb_spec (default 0 (head a)) 1) as [E|E]; cbn; eexists _, _; (split; [reflexivity|]); [|done].
    split; [auto|]. intros t [= <-]. cbn. lia.
Qed.

End ToyNet.

Lemma reachable_address_connects_witness :
  exists s w', tcp_connect 1 [] (Some 4000000) ANY ToyNet.start = Some (Ok s, w').
Proof.
  apply (reachable_address_connects 1 [] ANY 4000000 4000000 [4] [[1]; [4]] ToyNet.start ToyNet.start).
  - reflexivity.
  - reflexivity.
  - vm_compute. discriminate.
  - vm_compute. discriminate.
  - intros a d w. destruct (ToyNet.toy_connect a d w) as (r & w' & H & _). eauto.
  - intros a d w e w' Hc. destruct (ToyNet.toy_connect a (Some d) w) as (r & w1 & H & Hr). rewrite Hc in H. simplify_eq.
    by apply Hr.
  - intros d w Hd. destruct (ToyNet.toy_connect [4] (Some d) w) as ([s|e] & w1 & H & Hr); [eauto|].
    destruct Hr as [[Hr|Hr] _]; [discriminate|]. simpl in *.
    assert (4000000 / Z.of_nat 2 = 2000000) as E by reflexivity. change (Z.pos 4) with 4 in *. lia.
  - set_solver.
Defined.

(** On descriptor 3, accepting waits for descriptors and is cancelled or goes
    on; on descriptor 8, which is closed, it fails at once. *)
Lemma accept_ends_for_a_reason_witness :
  let w := ToyNet.mkWorld 0 0 true (fun c => mkConn c 0 0 (c =? 8)) in
  accept_retrying 4 3 8 w = Some (Err listener_closed, w) /\
  forall e w', accept_retrying 3 3 3 w = Some (Err e, w') ->
    (e = listener_closed /\ conn_closed 3 w' = true) \/ e = cancelled \/
    (exists s w1, sys (CSetNonblocking s) w1 = (Err e, w')) \/
    (kind e <> ConnectionAborted /\ kind e <> InterruptedKind /\ kind e <> WouldBlock /\ out_of_fds e = false).
Proof.
  intros w. split.
  - exact (proj1 (accept_ends_for_a_reason 3 3 8 w) eq_refl).
  - exact (proj2 (accept_ends_for_a_reason 3 3 3 w)).
Defined.
