(* ===== verification/UnixPaths.v ===== *)
(** * The files of Unix listeners ([src/net.rs], [src/sockets.rs])

    A Unix listener has a file, which clients connect to by its path; a file
    that nobody listens on any more is replaced ([unix_listen]), and a
    listener's file is deleted with its handle ([OwnedUnixListener]'s drop).
    Here the calls of the OS that [unix_listen] and the drop make run on a
    file system with sockets in it, each on its own, so that those of several
    tasks interleave, any of them may fail, and other programs come and go. *)
From S2P Require Import Prelude TaskProto Io Sockets NetOps.
Local Open Scope Z_scope.

Module UnixPaths.

(** ** The file system *)

Inductive File := SocketFile (l : Z) | OtherFile.

(** The files, the sockets listened on, and the next socket. *)
Record Fs := mkFs { files : gmap str File; listening : gset Z; next : Z }.

#[export] Instance fs_sched : Sched Fs := {
  now _ := 0; Io.watch_io _ _ w := (WatchAdded, w); Io.wait_suspended _ w := (Ready, w); Io.consume_budget w := w }.

(** The system calls of [unix_listen]. *)
Definition fs_sys {A} (c : Call A) (w : Fs) : io_result A * Fs :=
  match c in Call A return io_result A * Fs with
  | CUnixBind p =>
      match files w !! p with
      | Some _ => (Err (err_kind AddrInUse), w)
      | None => (Ok (next w), mkFs (<[p := SocketFile (next w)]> (files w)) ({[next w]} ∪ listening w) (next w + 1))
      end
  | CIsSocketFile p =>
      match files w !! p with Some (SocketFile _) => (Ok true, w) | Some OtherFile => (Ok false, w) | None => (Err (err_kind NotFound), w) end
  | CUnixConnect p =>
      match files w !! p with
      | Some (SocketFile l) =>
          if bool_decide (l ∈ listening w) then (Ok (next w), mkFs (files w) (listening w) (next w + 1)) else (Err (err_kind ConnectionRefused), w)
      | Some OtherFile => (Err (err_kind ConnectionRefused), w)
      | None => (Err (err_kind NotFound), w)
      end
  | CRemoveFile p =>
      match files w !! p with
      | Some _ => (Ok tt, mkFs (delete p (files w)) (listening w) (next w))
      | None => (Err (err_kind NotFound), w)
      end
  | CSetNonblocking _ => (Ok tt, w)
  | _ => (Err (err_kind Unsupported), w)
  end.

(** A socket closes. *)
Definition fs_close (l : Z) (w : Fs) : Fs := mkFs (files w) (listening w ∖ {[l]}) (next w).

#[export] Instance fs_net : NetOs Fs := {|
  sys := @fs_sys;
  socket_addrs _ _ w := (Err (err_kind Unsupported), w);
  host_ips _ _ w := (Err (err_kind Unsupported), w);
  conn_at c _ := Conn_new c;
  settle _ w := w;
  update_conn _ _ w := w;
  close_conn c w := (Ok tt, fs_close c w);
  tls_try_read _ _ w := (Err (err_kind Unsupported), w);
  tls_fill _ w := (Err (err_kind Unsupported), w);
  tls_fill_now _ w := (Err (err_kind Unsupported), w);
  tls_write_all _ _ w := (Err (err_kind Unsupported), w);
  tls_shutdown _ _ w := (Err (err_kind Unsupported), w);
  tls_server _ _ _ w := (Err (err_kind Unsupported), w);
  noise_read _ _ w := (Err (err_kind Unsupported), w);
  noise_try_read _ _ w := (Err (err_kind Unsupported), w);
  noise_write_all _ _ w := (Err (err_kind Unsupported), w) |}.

(** A call of the OS, which may fail without doing anything. *)
Definition answer {A} (fails : option IoError) (c : Call A) (w : Fs) : io_result A * Fs :=
  match fails with Some e => (Err e, w) | None => fs_sys c w end.

(** ** [unix_listen], call by call *)

Inductive Pc :=
  | PBind | PStat (err : IoError) | PConnect (err : IoError) | PRemove | PBindAgain
  | PNonblock (l : Z) | PDone (r : io_result Z).

(** The next call, and where it leads.  If [set_nonblocking] fails the
    listener, which isn't an [OwnedUnixListener] yet, closes. *)
Definition listen_step (fails : option IoError) (path : str) (pc : Pc) (w : Fs) : Pc * Fs :=
  match pc with
  | PBind =>
      match answer fails (CUnixBind path) w with
      | (Ok l, w) => (PNonblock l, w)
      | (Err err, w) => (if is_kind AddrInUse err then PStat err else PDone (Err err), w)
      end
  | PStat err => match answer fails (CIsSocketFile path) w with (Ok true, w) => (PConnect err, w) | (_, w) => (PDone (Err err), w) end
  | PConnect err =>
      match answer fails (CUnixConnect path) w with
      | (Err e, w) => (if is_kind ConnectionRefused e then PRemove else PDone (Err err), w)
      | (Ok _, w) => (PDone (Err err), w)
      end
  | PRemove => match answer fails (CRemoveFile path) w with (Ok _, w) => (PBindAgain, w) | (Err e, w) => (PDone (Err e), w) end
  | PBindAgain => match answer fails (CUnixBind path) w with (Ok l, w) => (PNonblock l, w) | (Err e, w) => (PDone (Err e), w) end
  | PNonblock l => match answer fails (CSetNonblocking l) w with (Ok _, w) => (PDone (Ok l), w) | (Err e, w) => (PDone (Err e), fs_close l w) end
  | PDone r => (PDone r, w)
  end.

(** Undisturbed, it is [unix_listen]. *)
Fixpoint listen_steps (n : nat) (path : str) (pc : Pc) (w : Fs) : Pc * Fs :=
  match n with O => (pc, w) | S n => let '(pc, w) := listen_step None path pc w in listen_steps n path pc w end.

Lemma unix_listen_steps path w :
  match listen_steps 6 path PBind w with (PDone r, w') => unix_listen path w = Some (r, w') | _ => False end.
Proof.
  destruct w as [fl li nx]. unfold unix_listen, is_stale_socket, call, try_bind, mbind, io_bind, act, mret, io_ret.
  unfold listen_steps, listen_step, answer. cbn [sys fs_net fs_sys files listening next].
  destruct (fl !! path) as [[l|]|] eqn:E; [| |done]; change (is_kind AddrInUse (err_kind AddrInUse)) with true; cbv iota;
    cbn [sys fs_net fs_sys files listening next]; rewrite ?E; [|done].
  cbn [sys fs_net fs_sys files listening next]. rewrite ?E. destruct (bool_decide (l ∈ li)); [done|].
  change (is_kind ConnectionRefused (err_kind ConnectionRefused)) with true. cbv iota. cbn [sys fs_net fs_sys files listening next]. rewrite ?E.
  cbn [sys fs_net fs_sys files listening next]. by rewrite lookup_delete_eq.
Qed.

(** ** The program *)

(** What a task is doing: listening, or dropping a listener, which deletes
    its file (or fails to) and then closes it. *)
Inductive Doing := Listening (path : str) (pc : Pc) | Unlinking (l : Z) (path : str) | Closing (l : Z) (path : str).
Definition path_of (x : Doing) : str := match x with Listening p _ | Unlinking _ p | Closing _ p => p end.

(** The file system, the handles of listeners the program has, with their
    paths, and what its tasks are doing. *)
Record Host := mkHost { fs : Fs; owned : gmap Z str; calls : gmap nat Doing }.

(** Nobody is listening on the path or dropping a listener of it. *)
Definition idle (p : str) (h : Host) : Prop := forall t x, calls h !! t = Some x -> path_of x <> p.

(** The path is one of this program's own sockets. *)
Definition ours (p : str) (h : Host) : Prop :=
  (exists l, owned h !! l = Some p) \/ exists t, (exists l, calls h !! t = Some (Listening p (PNonblock l))) \/ (exists l, calls h !! t = Some (Unlinking l p)).

(** A listener gets its handle when [unix_listen] returns it. *)
Definition handles (p : str) (pc pc' : Pc) (o : gmap Z str) : gmap Z str :=
  match pc, pc' with PNonblock _, PDone (Ok l) => <[l := p]> o | _, _ => o end.

(** [roc_unix_listen], [roc_listener_close] and the drop of a handle start,
    or go on with the next call of the OS, which may fail (but no connection
    is refused that somebody listens for).  Another program makes, replaces or
    deletes a file that is not this program's, or opens or closes sockets of
    its own. *)
Inductive step : Host -> Host -> Prop :=
  | st_listen h t p : calls h !! t = None -> idle p h -> (forall l, owned h !! l = Some p -> l ∈ listening (fs h)) ->
      step h (mkHost (fs h) (owned h) (<[t := Listening p PBind]> (calls h)))
  | st_close h l p : owned h !! l = Some p -> idle p h -> step h (mkHost (fs_close l (fs h)) (owned h) (calls h))
  | st_drop h t l p : calls h !! t = None -> owned h !! l = Some p -> idle p h ->
      step h (mkHost (fs h) (delete l (owned h)) (<[t := Unlinking l p]> (calls h)))
  | st_call h t p pc fails pc' w : calls h !! t = Some (Listening p pc) -> (forall e, fails = Some e -> kind e <> ConnectionRefused) ->
      listen_step fails p pc (fs h) = (pc', w) -> step h (mkHost w (handles p pc pc' (owned h)) (<[t := Listening p pc']> (calls h)))
  | st_unlink h t l p fails : calls h !! t = Some (Unlinking l p) ->
      step h (mkHost (answer fails (CRemoveFile p) (fs h)).2 (owned h) (<[t := Closing l p]> (calls h)))
  | st_closed h t l p : calls h !! t = Some (Closing l p) -> step h (mkHost (fs_close l (fs h)) (owned h) (delete t (calls h)))
  | st_return h t p r : calls h !! t = Some (Listening p (PDone r)) -> step h (mkHost (fs h) (owned h) (delete t (calls h)))
  | st_other h p f live : (~ ours p h) -> (forall l, f = Some (SocketFile l) -> l = next (fs h)) ->
      step h (mkHost (mkFs (partial_alter (fun _ => f) p (files (fs h))) (if live : bool then {[next (fs h)]} ∪ listening (fs h) else listening (fs h)) (next (fs h) + 1)) (owned h) (calls h))
  | st_other_closes h l : (forall p, owned h !! l <> Some p) -> (forall t p, calls h !! t <> Some (Listening p (PNonblock l))) ->
      step h (mkHost (fs_close l (fs h)) (owned h) (calls h)).

(** Files that other programs have left, or listen on. *)
Definition start (w : Fs) : Host := mkHost w ∅ ∅.

(** ** Whose a file is *)

(** How far a call on a path has got, given who has the path. *)
Definition call_ok (h : Host) (x : Doing) : Prop :=
  match x with
  | Listening p (PBind | PStat _ | PConnect _) => forall l, owned h !! l = Some p -> l ∈ listening (fs h)
  | Listening p (PRemove | PBindAgain) => forall l, owned h !! l <> Some p
  | Listening p (PNonblock l) | Unlinking l p =>
      files (fs h) !! p = Some (SocketFile l) /\ l < next (fs h) /\ (forall l, owned h !! l <> Some p) /\ forall q, owned h !! l <> Some q
  | Listening p (PDone r) => forall l, owned h !! l = Some p -> r = Ok l \/ exists e, r = Err e
  | Closing l p => l < next (fs h) /\ (forall l, owned h !! l <> Some p) /\ forall q, owned h !! l <> Some q
  end.

(** The socket a call holds that has no handle (any more). *)
Definition sock_of (x : Doing) : option Z :=
  match x with Listening _ (PNonblock l) | Unlinking l _ | Closing l _ => Some l | _ => None end.

(** Whether it has that socket's file. *)
Definition has_file (x : Doing) : bool := match x with Listening _ (PNonblock _) | Unlinking _ _ => true | _ => false end.

Record Inv (h : Host) : Prop := {
  i_own : forall l p, owned h !! l = Some p -> files (fs h) !! p = Some (SocketFile l) /\ l < next (fs h);
  i_calls : forall t x, calls h !! t = Some x -> call_ok h x;
  i_paths : forall t t' x x', calls h !! t = Some x -> calls h !! t' = Some x' -> path_of x = path_of x' -> t = t';
  i_socks : forall t t' x x' l, calls h !! t = Some x -> calls h !! t' = Some x' -> sock_of x = Some l -> sock_of x' = Some l -> t = t';
}.

(** A call not disturbed. *)
Record Undisturbed (h h' : Host) (x : Doing) : Prop := {
  f_owned : forall l, owned h' !! l = Some (path_of x) <-> owned h !! l = Some (path_of x);
  f_files : has_file x = true -> files (fs h') !! path_of x = files (fs h) !! path_of x;
  f_next : next (fs h) <= next (fs h');
  f_live : forall l, owned h !! l = Some (path_of x) -> l ∈ listening (fs h) -> l ∈ listening (fs h');
  f_sock : forall l q, sock_of x = Some l -> owned h' !! l = Some q -> owned h !! l = Some q;
}.

Lemma undisturbed_ok h h' x : Undisturbed h h' x -> call_ok h x -> call_ok h' x.
Proof.
  intros [F1 F2 F3 F4 F5] Hx. destruct x as [p [| | | | |l|r]|l p|l p]; cbn in *.
  - intros l Hl%F1. auto.
  - intros l Hl%F1. auto.
  - intros l Hl%F1. auto.
  - intros l Hl%F1. by eapply Hx.
  - intros l Hl%F1. by eapply Hx.
  - destruct Hx as (H1 & H2 & H3 & H4). rewrite F2 by done. split_and!; [done|lia|intros k Hk%F1; by eapply H3|intros q Hq%F5; [by eapply H4|done]].
  - intros l Hl%F1. auto.
  - destruct Hx as (H1 & H2 & H3 & H4). rewrite F2 by done. split_and!; [done|lia|intros k Hk%F1; by eapply H3|intros q Hq%F5; [by eapply H4|done]].
  - destruct Hx as (H2 & H3 & H4). split_and!; [lia|intros k Hk%F1; by eapply H3|intros q Hq%F5; [by eapply H4|done]].
Qed.

(** A step in which the task [t] goes on to [x], if it goes on. *)
Lemma inv_call h h' t x :
  Inv h -> calls h' = (match x with Some x => <[t := x]> (calls h) | None => delete t (calls h) end) ->
  (forall l p, owned h' !! l = Some p -> files (fs h') !! p = Some (SocketFile l) /\ l < next (fs h')) ->
  (forall t' y, t' <> t -> calls h !! t' = Some y -> Undisturbed h h' y) ->
  (forall y, x = Some y -> call_ok h' y /\ (forall t' z, t' <> t -> calls h !! t' = Some z -> path_of z <> path_of y) /\
     (forall t' z l, t' <> t -> calls h !! t' = Some z -> sock_of y = Some l -> sock_of z <> Some l)) ->
  Inv h'.
Proof.
  intros HI Ec Ho Hu Hx.
  assert (forall t' y, calls h' !! t' = Some y -> t' = t /\ x = Some y \/ t' <> t /\ calls h !! t' = Some y) as Hcs.
  { intros t' y. rewrite Ec. destruct x as [x|]; [intros [[<- <-]|[? ?]]%lookup_insert_Some|intros [? ?]%lookup_delete_Some]; eauto. }
  split; [done| | |].
  - intros t' y [[-> Ey]|[Hne Hy]]%Hcs; [by apply Hx|]. exact (undisturbed_ok _ _ _ (Hu _ _ Hne Hy) (i_calls _ HI _ _ Hy)).
  - intros t1 t2 x1 x2 [[-> E1]|[N1 H1]]%Hcs [[-> E2]|[N2 H2]]%Hcs Hp; [done| | |by eapply (i_paths _ HI)].
    + destruct (Hx _ E1) as (_ & Hd & _). by destruct (Hd _ _ N2 H2).
    + destruct (Hx _ E2) as (_ & Hd & _). by destruct (Hd _ _ N1 H1).
  - intros t1 t2 x1 x2 l [[-> E1]|[N1 H1]]%Hcs [[-> E2]|[N2 H2]]%Hcs Hs1 Hs2; [done| | |by eapply (i_socks _ HI)].
    + destruct (Hx _ E1) as (_ & _ & Hd). by destruct (Hd _ _ _ N2 H2 Hs1).
    + destruct (Hx _ E2) as (_ & _ & Hd). by destruct (Hd _ _ _ N1 H1 Hs2).
Qed.

(** Handles as they were, and no open listener of the program closed. *)
Lemma undisturbed_handles h h' x : owned h' = owned h -> files (fs h') !! path_of x = files (fs h) !! path_of x -> next (fs h) <= next (fs h') ->
  (forall l p, owned h !! l = Some p -> l ∈ listening (fs h) -> l ∈ listening (fs h')) -> Undisturbed h h' x.
Proof. intros Eo Ef En Hl. split; rewrite ?Eo; eauto. Qed.

Lemma inv_bound h t x l : Inv h -> calls h !! t = Some x -> sock_of x = Some l -> l < next (fs h).
Proof. intros HI Hx%(i_calls _ HI) Hs. destruct x as [p []|k p|k p]; cbn in *; simplify_eq; naive_solver. Qed.

Lemma other_path h t t' p pc y : Inv h -> calls h !! t = Some (Listening p pc) -> t' <> t -> calls h !! t' = Some y -> path_of y <> p.
Proof. intros HI Hx Hne Hy E. destruct Hne. by eapply (i_paths _ HI). Qed.

Lemma handles_same p pc pc' o : (forall l, pc <> PNonblock l) -> handles p pc pc' o = o.
Proof. intros H. destruct pc; try done. by destruct (H l). Qed.

(** A call that changes no file of the program's and holds no socket. *)
Lemma inv_listen_quiet h t p pc pc' w : Inv h -> calls h !! t = Some (Listening p pc) -> (forall l, pc <> PNonblock l) ->
  (forall q, q <> p -> files w !! q = files (fs h) !! q) -> (forall l, owned h !! l = Some p -> files w !! p = files (fs h) !! p) ->
  next (fs h) <= next w -> listening w = listening (fs h) -> sock_of (Listening p pc') = None ->
  call_ok (mkHost w (owned h) (calls h)) (Listening p pc') ->
  Inv (mkHost w (handles p pc pc' (owned h)) (<[t := Listening p pc']> (calls h))).
Proof.
  intros HI Hx Hpc Hf Hfp Hn Hl Hs Hok. rewrite handles_same by done. eapply (inv_call h _ t (Some (Listening p pc'))); [done|done|..]; cbn [fs owned].
  - intros l q Hq. destruct (i_own _ HI _ _ Hq) as [H1 H2]. split; [|lia]. destruct (decide (q = p)) as [->|]; [by rewrite (Hfp _ Hq)|by rewrite Hf].
  - intros t' y Hne Hy. apply undisturbed_handles; cbn [fs owned]; [done|apply Hf; by eapply other_path|done|by rewrite Hl].
  - intros y [= <-]. split_and!; [exact Hok|intros t' z Hne Hz; cbn; by eapply other_path|intros t' z l _ _ E; congruence].
Qed.

(** A bind that found the path free. *)
Lemma inv_listen_bound h t p pc : Inv h -> calls h !! t = Some (Listening p pc) -> (forall l, pc <> PNonblock l) -> files (fs h) !! p = None ->
  Inv (mkHost (mkFs (<[p := SocketFile (next (fs h))]> (files (fs h))) ({[next (fs h)]} ∪ listening (fs h)) (next (fs h) + 1))
    (handles p pc (PNonblock (next (fs h))) (owned h)) (<[t := Listening p (PNonblock (next (fs h)))]> (calls h))).
Proof.
  intros HI Hx Hpc Hf. rewrite handles_same by done. eapply (inv_call h _ t (Some (Listening p (PNonblock (next (fs h)))))); [done|done|..]; cbn [fs owned files listening next].
  - intros l q Hq. destruct (i_own _ HI _ _ Hq) as [H1 H2]. split; [|lia]. rewrite lookup_insert_ne; [done|]. intros ->. congruence.
  - intros t' y Hne Hy. apply undisturbed_handles; cbn; [done| |lia|set_solver]. rewrite lookup_insert_ne; [done|]. intros E. by eapply other_path.
  - intros y [= <-]. cbn. split_and!; [by rewrite lookup_insert_eq|lia| | | |].
    + intros l Hl. destruct (i_own _ HI _ _ Hl). congruence.
    + intros q Hq. destruct (i_own _ HI _ _ Hq). lia.
    + intros t' z Hne Hz. by eapply other_path.
    + intros t' z l Hne Hz [= <-] E. pose proof (inv_bound _ _ _ _ HI Hz E). lia.
Qed.

Ltac quiet := apply inv_listen_quiet; cbn; try done; try lia; eauto.

Lemma inv_listen h t p pc fails pc' w : Inv h -> calls h !! t = Some (Listening p pc) -> (forall e, fails = Some e -> kind e <> ConnectionRefused) ->
  listen_step fails p pc (fs h) = (pc', w) -> Inv (mkHost w (handles p pc pc' (owned h)) (<[t := Listening p pc']> (calls h))).
Proof.
  intros HI Hx Hfail E. pose proof (i_calls _ HI _ _ Hx) as Hok.
  destruct pc as [|err|err| | |l|r]; cbn [listen_step] in E; unfold answer in E.
  - destruct fails as [e|]; [destruct (is_kind AddrInUse e); injection E as <- <-; quiet|]. cbn [fs_sys] in E.
    destruct (files (fs h) !! p) eqn:Ef; [|injection E as <- <-; by apply inv_listen_bound].
    change (is_kind AddrInUse (err_kind AddrInUse)) with true in E. injection E as <- <-. quiet.
  - assert (pc' = PConnect err \/ pc' = PDone (Err err)) as Hpc by (destruct fails; [|cbn [fs_sys] in E; repeat case_match]; simplify_eq; auto).
    assert (w = fs h) as -> by (destruct fails; [|cbn [fs_sys] in E; repeat case_match]; simplify_eq; auto).
    destruct Hpc as [->| ->]; quiet.
  - assert (pc' = PDone (Err err) /\ (w = fs h \/ w = mkFs (files (fs h)) (listening (fs h)) (next (fs h) + 1)) \/
      pc' = PRemove /\ w = fs h /\ forall l, owned h !! l <> Some p) as [[-> Hw]|(-> & -> & Hno)].
    { destruct fails as [e|].
      - specialize (Hfail e eq_refl). unfold is_kind in E. rewrite bool_decide_eq_false_2 in E by done. simplify_eq. auto.
      - cbn [fs_sys] in E. destruct (files (fs h) !! p) as [[l|]|] eqn:Ef; [|change (is_kind ConnectionRefused _) with true in E|change (is_kind ConnectionRefused _) with false in E].
        + destruct (bool_decide (l ∈ listening (fs h))) eqn:El; [simplify_eq; auto|]. change (is_kind ConnectionRefused _) with true in E. simplify_eq. right. split_and!; [done..|].
          intros k Hk. pose proof (Hok k Hk). destruct (i_own _ HI _ _ Hk). apply bool_decide_eq_false in El. congruence.
        + simplify_eq. right. split_and!; [done..|]. intros k Hk. destruct (i_own _ HI _ _ Hk). congruence.
        + simplify_eq. auto. }
    + destruct Hw as [-> | ->]; quiet.
    + quiet.
  - destruct fails as [e|]; [injection E as <- <-; quiet|]. cbn [fs_sys] in E.
    destruct (files (fs h) !! p) eqn:Ef; injection E as <- <-; apply inv_listen_quiet; cbn; try done; try lia.
    + intros q Hq. by rewrite lookup_delete_ne.
    + intros l Hl. by destruct (Hok l).
    + intros l Hl. by destruct (Hok l).
  - destruct fails as [e|]; [injection E as <- <-; quiet|]. cbn [fs_sys] in E.
    destruct (files (fs h) !! p) eqn:Ef; injection E as <- <-; [quiet|by apply inv_listen_bound].
  - destruct Hok as (H1 & H2 & H3 & H4). destruct fails as [e|]; injection E as <- <-; cbn [handles].
    + eapply (inv_call h _ t (Some (Listening p (PDone (Err e))))); [done|done|..]; cbn [fs owned files listening next fs_close].
      * apply HI.
      * intros t' y Hne Hy. apply undisturbed_handles; cbn; [done|done|lia|]. intros k q Hk. assert (k <> l) by (intros ->; by eapply H4). set_solver.
      * intros y [= <-]. split_and!; [cbn; eauto|intros t' z Hne Hz; cbn; by eapply other_path|done].
    + eapply (inv_call h _ t (Some (Listening p (PDone (Ok l))))); [done|done|..]; cbn [fs owned files listening next].
      * intros k q [[<- <-]|[Hne Hk]]%lookup_insert_Some; [done|by apply HI].
      * intros t' y Hne Hy. pose proof (other_path _ _ _ _ _ _ HI Hx Hne Hy) as Hp. split; cbn [fs owned]; [|done|lia|done|].
        -- intros k. rewrite lookup_insert_Some. split; [intros [[_ E]|[_ E]]; [by destruct Hp|done]|]. intros E. right. split; [|done]. intros ->. by eapply H4.
        -- intros k q Hs [[-> _]|[_ ?]]%lookup_insert_Some; [|done]. destruct Hne. by eapply (i_socks _ HI t' t y (Listening p (PNonblock k))).
      * intros y [= <-]. split_and!; [|intros t' z Hne Hz; cbn; by eapply other_path|done]. cbn. intros k [[-> _]|[_ Hk]]%lookup_insert_Some; [by left|]. by destruct (H3 k).
  - injection E as <- <-. quiet.
Qed.

Lemma idle_inv h p l : Inv h -> idle p h -> owned h !! l = Some p -> forall t x, calls h !! t = Some x -> path_of x <> p /\ sock_of x <> Some l.
Proof.
  intros HI Hi Hl t x Hx. split; [by eapply Hi|]. intros Hs. pose proof (i_calls _ HI _ _ Hx) as Hok. destruct x as [q []|k q|k q]; cbn in *; simplify_eq; naive_solver.
Qed.

Lemma paths_step h h' : step h h' -> Inv h -> Inv h'.
Proof.
  intros Hs HI. destruct Hs as [h t p Ht Hi Hl|h l p Hl Hi|h t l p Ht Hl Hi|h t p pc fails pc' w Hx Hf E|h t l p fails Hx|h t l p Hx|h t p r Hx|h p f live Hno Hf|h l Hl Hc].
  - eapply (inv_call h _ t (Some (Listening p PBind))); [done|done|apply HI|intros; by apply undisturbed_handles|].
    intros y [= <-]. split_and!; [exact Hl|intros t' z _ Hz; by eapply Hi|done].
  - split; cbn [fs owned calls]; [apply HI| |apply HI|apply HI]. intros t x Hx. destruct (idle_inv _ _ _ HI Hi Hl _ _ Hx) as [Hp Hk].
    eapply (undisturbed_ok h); [|by apply (i_calls _ HI _ _ Hx)]. split; cbn; try done; try lia.
    intros k Hko Hin. assert (k <> l) by (intros ->; congruence). set_solver.
  - destruct (i_own _ HI _ _ Hl) as [H1 H2]. eapply (inv_call h _ t (Some (Unlinking l p))); [done|done|..]; cbn [fs owned].
    + intros k q [_ Hk]%lookup_delete_Some. by apply HI.
    + intros t' y Hne Hy. destruct (idle_inv _ _ _ HI Hi Hl _ _ Hy) as [Hp Hk]. split; cbn; try done.
      * intros k. rewrite lookup_delete_Some. split; [tauto|]. intros E. split; [|done]. intros ->. congruence.
      * intros k q _ [_ ?]%lookup_delete_Some. done.
    + intros y [= <-]. cbn. split_and!; try done.
      * intros k [Hne Hk]%lookup_delete_Some. destruct (i_own _ HI _ _ Hk). congruence.
      * intros q. by rewrite lookup_delete_eq.
      * intros t' z _ Hz. by eapply Hi.
      * intros t' z k _ Hz [= <-]. by destruct (idle_inv _ _ _ HI Hi Hl _ _ Hz).
  - by eapply inv_listen.
  - pose proof (i_calls _ HI _ _ Hx) as (H1 & H2 & H3 & H4).
    assert (forall q, q <> p -> files (answer fails (CRemoveFile p) (fs h)).2 !! q = files (fs h) !! q) as Hq.
    { intros q Hq. destruct fails; [done|]. cbn. rewrite H1. cbn. by rewrite lookup_delete_ne. }
    assert (listening (answer fails (CRemoveFile p) (fs h)).2 = listening (fs h) /\ next (answer fails (CRemoveFile p) (fs h)).2 = next (fs h)) as [E1 E2].
    { destruct fails; [done|]. cbn. by rewrite H1. }
    eapply (inv_call h _ t (Some (Closing l p))); [done|done|..]; cbn [fs owned]; rewrite ?E1, ?E2.
    + intros k q Hk. destruct (i_own _ HI _ _ Hk) as [? ?]. rewrite Hq; [done|]. intros ->. by eapply H3.
    + intros t' y Hne Hy. apply undisturbed_handles; cbn [fs owned]; rewrite ?E1, ?E2; [done| |lia|done]. apply Hq. intros E. destruct Hne. by eapply (i_paths _ HI).
    + intros y [= <-]. cbn [call_ok fs owned]. rewrite E2. split_and!; [done..| |].
      * intros t' z Hne Hz E. destruct Hne. by eapply (i_paths _ HI).
      * intros t' z k Hne Hz [= <-] E. destruct Hne. by eapply (i_socks _ HI t' t z (Unlinking l p)).
  - pose proof (i_calls _ HI _ _ Hx) as (H1 & H2 & H3). eapply (inv_call h _ t None); [done|done|apply HI| |done].
    intros t' y Hne Hy. apply undisturbed_handles; cbn; [done|done|lia|]. intros k q Hk. assert (k <> l) by (intros ->; by eapply H3). set_solver.
  - eapply (inv_call h _ t None); [done|done|apply HI|intros; by apply undisturbed_handles|done].
  - assert (forall q, ours q h -> partial_alter (fun _ => f) p (files (fs h)) !! q = files (fs h) !! q) as Hq.
    { intros q Hq. apply lookup_partial_alter_ne. by intros ->. }
    split; cbn [fs owned calls files next]; [| |apply HI|apply HI].
    + intros l q Hl. destruct (i_own _ HI _ _ Hl). rewrite (Hq q) by (left; eauto). split; [done|lia].
    + intros t x Hx. eapply (undisturbed_ok h); [|by apply (i_calls _ HI _ _ Hx)]. split; cbn [fs owned files listening next]; try done; [|lia|destruct live; set_solver].
      intros Hs. destruct x as [q []|k q|k q]; try done; apply (Hq q); right; eauto.
  - split; cbn [fs owned calls fs_close files next]; [apply HI| |apply HI|apply HI]. intros t x Hx.
    eapply (undisturbed_ok h); [|by apply (i_calls _ HI _ _ Hx)]. apply undisturbed_handles; cbn; [done|done|lia|].
    intros k q Hk Hin. assert (k <> l) by (intros ->; by eapply Hl). set_solver.
Qed.

Lemma paths_start w : Inv (start w).
Proof. split; cbn; intros *; rewrite lookup_empty; done. Qed.

(** C24: Listeners keep their paths.  The calls of the OS that listening on a
    path, closing a listener and dropping one make interleave in any order
    with those of other tasks on other paths, may fail, and other programs do
    as they like with files that aren't this program's.  As long as the
    program doesn't do two of them on one path at once, and doesn't listen on
    the path of a listener that it has closed and not let go of: each
    listener it has a handle of has its file; a client that connects to an
    open one's path gets to it; a call that is listening on that path is on
    its way to being refused, has been, or is the one that made the listener,
    and it deletes nothing; and dropping a listener deletes that listener's
    own file (if the OS lets it) and no other. *)
Theorem listener_keeps_its_path w h : rtc step (start w) h ->
  (forall l p, owned h !! l = Some p -> files (fs h) !! p = Some (SocketFile l) /\
     (l ∈ listening (fs h) -> is_ok (fs_sys (CUnixConnect p) (fs h)).1 = true) /\
     (forall t pc, calls h !! t = Some (Listening p pc) ->
        match pc with PBind | PStat _ | PConnect _ => l ∈ listening (fs h) | PDone (Ok l') => l' = l | PDone (Err _) => True | _ => False end)) /\
  (forall t l p fails, calls h !! t = Some (Unlinking l p) ->
     let w' := (answer fails (CRemoveFile p) (fs h)).2 in
     files (fs h) !! p = Some (SocketFile l) /\ (fails = None -> files w' !! p = None) /\
     (forall q, q <> p -> files w' !! q = files (fs h) !! q) /\ forall l', owned h !! l' <> Some p).
Proof.
  intros Hr. assert (Inv h) as HI by (eapply rtc_invariant; [|exact Hr|apply paths_start]; intros x y HI Hs; by eapply paths_step).
  split.
  - intros l p Hl. destruct (i_own _ HI _ _ Hl) as [Hf _]. split_and!; [done| |].
    + intros Hin. cbn [fs_sys]. by rewrite Hf, bool_decide_true.
    + intros t pc Hx. pose proof (i_calls _ HI _ _ Hx) as Hok. destruct pc as [| | | | |k|r]; cbn in Hok; [by apply Hok..|by destruct (Hok l)|by destruct (Hok l)| |].
      * destruct Hok as (_ & _ & H3 & _). by destruct (H3 l).
      * destruct (Hok l Hl) as [->|[e ->]]; done.
  - intros t l p fails Hx. pose proof (i_calls _ HI _ _ Hx) as (H1 & _ & H3 & _). cbv zeta. split_and!; [done| | |done].
    + intros ->. cbn. rewrite H1. apply lookup_delete_eq.
    + intros q Hq. destruct fails; [done|]. cbn. rewrite H1. by apply lookup_delete_ne.
Qed.

(** ** A listener, and one that is refused *)

Definition sock : str := [47; 115].
Definition empty : Fs := mkFs ∅ ∅ 3.
Definition bound : Fs := mkFs {[sock := SocketFile 3]} {[3]} 4.
(** Its file is there, its handle has come back, and another task has begun
    to listen there. *)
Definition opened : Host := mkHost bound {[3 := sock]} {[1%nat := Listening sock (PStat (err_kind AddrInUse))]}.

Lemma opened_reached : rtc step (start empty) opened.
Proof.
  eapply rtc_l; [apply (st_listen _ 0%nat sock); [done|by intros []|by intros []]|].
  eapply rtc_l; [eapply (st_call _ 0%nat sock PBind None); [reflexivity|done|reflexivity]|].
  eapply rtc_l; [eapply (st_call _ 0%nat sock (PNonblock 3) None); [reflexivity|done|reflexivity]|].
  eapply rtc_l; [eapply (st_return _ 0%nat); reflexivity|].
  eapply rtc_l; [apply (st_listen _ 1%nat sock)|].
  - reflexivity.
  - intros t x. vm_compute. by destruct t.
  - intros l. cbn. rewrite lookup_insert_Some. intros [[<- _]|[_ E]]; [set_solver|by rewrite lookup_empty in E].
  - eapply rtc_l; [eapply (st_call _ 1%nat sock PBind None); [reflexivity|done|reflexivity]|]. match goal with |- rtc _ ?x ?y => replace x with y by (vm_compute; reflexivity) end. apply rtc_refl.
Qed.

Lemma listener_keeps_its_path_witness :
  files (fs opened) !! sock = Some (SocketFile 3) /\ is_ok (fs_sys (CUnixConnect sock) (fs opened)).1 = true.
Proof.
  destruct (proj1 (listener_keeps_its_path empty opened opened_reached) 3 sock ltac:(reflexivity)) as (Hf & Hin & _). split; [exact Hf|].
  apply Hin. cbn. apply elem_of_singleton_2. reflexivity.
Defined.

(** ** What goes wrong otherwise *)

(** [close!] leaves the file; listening on its path again replaces it; and
    when the handle of the closed listener goes, so does the file of the open
    one, which no client can then connect to. *)
Theorem closed_listener_deletes_anothers_file :
  let '(a, w1) := listen_steps 6 sock PBind empty in
  let '(b, w2) := listen_steps 6 sock PBind (fs_close 3 w1) in
  let w3 := fs_close 3 (fs_sys (CRemoveFile sock) w2).2 in
  a = PDone (Ok 3) /\ b = PDone (Ok 4) /\ bool_decide (4 ∈ listening w3) = true /\ (fs_sys (CUnixConnect sock) w3).1 = Err (err_kind NotFound).
Proof. vm_compute. done. Qed.

(** A file nobody listens on. *)
Definition leftover : Fs := mkFs {[sock := SocketFile 1]} ∅ 3.

(** Two calls of [unix_listen] on one path that find the same file left over:
    the second to get there deletes the file of the first, which listens by
    then. *)
Theorem stale_file_race :
  let '(a, w1) := listen_steps 3 sock PBind leftover in
  let '(b, w2) := listen_steps 3 sock PBind w1 in
  let '(a', w3) := listen_steps 3 sock a w2 in
  let '(b', w4) := listen_steps 3 sock b w3 in
  a' = PDone (Ok 3) /\ b' = PDone (Ok 4) /\ bool_decide (3 ∈ listening w4) = true /\ files w4 !! sock = Some (SocketFile 4).
Proof. vm_compute. done. Qed.

End UnixPaths.
