(* ===== verification/NetHosted.v ===== *)
(** * The hosted socket functions ([src/net.rs])

    Each hosted function owns the references it is passed (handles, strings,
    lists) and must give each of them up exactly once, whatever fails; and a
    slot it claims in the socket heap must be filled or freed.  So here a
    computation also tells what it did with them ([Ev]).  The heap itself is
    [Resource.v]'s, seen through [SocketHeap]; TLS, Noise and copying are
    parameters ([NetHost]). *)
From S2P Require Import Prelude TaskProto Io Sockets NetOps.
Local Open Scope Z_scope.

(** ** Computations that own references *)

(** What Roc passes: a socket handle, a string, a list of bytes, of strings,
    or of certificates. *)
Inductive Arg :=
  | AHandle (h : Z)
  | AStr (s : str)
  | ABytes (l : list Z)
  | AStrs (l : list str)
  | ACerts (l : list str).

(** What a call does: gives up a reference, or hands it back in its result;
    claims, frees or fills a socket slot. *)
Inductive Ev := Released (a : Arg) | Returned (a : Arg) | Reserved | Unreserved | Inserted.

Definition hio (W A : Type) : Type := W -> option (A * list Ev * W).

#[global] Instance hio_ret W : MRet (hio W) := fun A a w => Some (a, [], w).
#[global] Instance hio_bind W : MBind (hio W) := fun A B k m w =>
  match m w with
  | Some (a, ev, w') => match k a w' with Some (b, ev', w'') => Some (b, ev ++ ev', w'') | None => None end
  | None => None
  end.

(** I/O owns nothing. *)
Definition lift {W A} (m : io W A) : hio W A := fun w => match m w with Some (a, w') => Some (a, [], w') | None => None end.
Definition tell {W} (e : Ev) : hio W unit := fun w => Some (tt, [e], w).

(** The socket heap. *)
Class SocketHeap (W : Type) := {
  heap_get : Z -> W -> option Socket;
  heap_try_reserve : W -> bool * W;
  (** Waits; [false] if the task is cancelled. *)
  heap_reserve : W -> bool * W;
  heap_insert : Socket -> W -> Z * W;
  heap_unreserve : W -> W;
  heap_decref : Z -> W -> W;
}.

(** What the TLS, Noise and copy modules do for hosted functions, and text
    the standard library parses. *)
Class NetHost (W : Type) `{Sched W} := {
  tls_client : Z -> str -> str -> list str -> option (str * str) -> deadline -> W -> io_result unit * W;
  tls_server_config : list str -> list str -> option (str * bool) -> W -> io_result nat * W;
  tls_handshake : Z -> W -> io_result unit * W;
  tls_server_name : Z -> W -> io_result (option str) * W;
  tls_peer_certificates : Z -> W -> io_result (list str) * W;
  tls_valid_for : Z -> str -> W -> io_result bool * W;
  tls_alpn_protocol : Z -> W -> io_result (option str) * W;
  tls_ignore_eof : Z -> bool -> W -> W;
  noise_new : Z -> Z -> list Z * Z -> list Z * Z -> W -> io_result unit * W;
  copy_both : Socket -> Socket -> W -> (Z * Z * option CopyErr) * W;
  copy_to : Socket -> Socket -> list Z -> option Z -> deadline -> W -> (Z * option CopyErr) * W;
  copy_abort : Socket -> W -> W;
  parse_addr : str -> option str;
  parse_ip : str -> option str;
  tls_host_of : str -> str;
}.

(** What [stream_copy_both!] and [stream_copy_to!] report. *)
Inductive CopyOutcome :=
  | ODone | OCancelled | OTaskLimitReached | OReadA (e : IOErr) | OReadB (e : IOErr) | OWriteA (e : IOErr) | OWriteB (e : IOErr).
Inductive CopyToOutcome := TDone | TCancelled | TMessageTimedOut | TRead (e : IOErr) | TWrite (e : IOErr).

Section Hosted.
Context {W : Type} `{NetOs W, !SocketHeap W, !NetHost W}.
(** Bounds the loops of each call. *)
Variable fuel : nat.

(** [release_handle] *)
Definition release_handle (h : Z) : hio W unit :=
  _ ← lift (act (fun w => (tt, heap_decref h w))); tell (Released (AHandle h)).

(** [with_socket] *)
Definition with_socket {A} (h : Z) (f : Socket -> hio W (net_result A)) : hio W (net_result A) :=
  s ← lift (get (heap_get h));
  r ← (match s with Some socket => f socket | None => mret (Err NetOther) end);
  _ ← release_handle h;
  mret r.

(** [open_socket] *)
Definition open_socket (open : hio W (net_result Socket)) : hio W (net_result Z) :=
  ok ← lift (act heap_try_reserve);
  if ok : bool then
    _ ← tell Reserved;
    r ← open;
    match r with
    | Err e => _ ← lift (act (fun w => (tt, heap_unreserve w))); _ ← tell Unreserved; mret (Err e)
    | Ok s => h ← lift (act (heap_insert s)); _ ← tell Inserted; mret (Ok h)
    end
  else mret (Err TooManySockets).

(** [with_str], [take_str], [take_strs] and [take_certs] *)
Definition with_str {A} (s : str) (f : str -> hio W A) : hio W A := r ← f s; _ ← tell (Released (AStr s)); mret r.
Definition take_str (s : str) : hio W str := with_str s mret.
Definition take_strs (l : list str) : hio W (list str) := _ ← tell (Released (AStrs l)); mret l.
Definition take_certs (l : list str) : hio W (list str) := _ ← tell (Released (ACerts l)); mret l.

(** [?] *)
Definition hbind {A B} (m : hio W (net_result A)) (k : A -> hio W (net_result B)) : hio W (net_result B) :=
  r ← m; match r with Ok a => k a | Err e => mret (Err e) end.

Definition lift_io {A} (m : io W (io_result A)) : hio W (net_result A) := r ← lift m; mret (to_net r).
Definition fail {A} (e : NetErr) : hio W (net_result A) := mret (Err e).

(** [ConnectFrom::parse] *)
Definition parse_from (local interface : str) : net_result ConnectFrom :=
  let i := if bool_decide (interface = []) then None else Some interface in
  if bool_decide (local = []) then Ok (mkFrom None i)
  else match parse_addr local with
       | Some a => Ok (mkFrom (Some a) i)
       | None => Err (NetIo (err_kind InvalidInput))
       end.

Definition now_deadline (ms : Z) : hio W deadline := lift (get (fun w => deadline_after ms (now w))).

(** ** Creating sockets *)

Definition roc_tcp_listen (address : str) (idle_ms write_ms backlog : Z) (reuse_port : bool) : hio W (net_result Z) :=
  with_str address (fun address =>
    open_socket (hbind (lift (tcp_bind address backlog reuse_port)) (fun l =>
      mret (Ok (TcpListener l (mkTimeouts idle_ms write_ms)))))).

Definition roc_tcp_connect (address : str) (timeout_ms : Z) (local interface : str) : hio W (net_result Z) :=
  from ← with_str local (fun local => with_str interface (fun interface => mret (parse_from local interface)));
  with_str address (fun address =>
    open_socket (
      d ← now_deadline timeout_ms;
      hbind (mret from) (fun from =>
      hbind (lift (tcp_connect fuel address d from)) (fun s => mret (Ok (TcpStream s)))))).

Definition roc_unix_listen (path : str) (idle_ms write_ms : Z) : hio W (net_result Z) :=
  with_str path (fun path =>
    open_socket (hbind (lift_io (unix_listen path)) (fun l => mret (Ok (UnixListener l path (mkTimeouts idle_ms write_ms)))))).

Definition roc_unix_connect (path : str) (timeout_ms : Z) : hio W (net_result Z) :=
  with_str path (fun path =>
    d ← now_deadline timeout_ms;
    hbind (lift_io (unix_connect fuel path d)) (fun stream => open_socket (mret (Ok (UnixStream stream))))).

Definition roc_udp_bind (address : str) (reuse : bool) : hio W (net_result Z) :=
  with_str address (fun address =>
    open_socket (
      hbind (lift_io (act (socket_addrs address None))) (fun addrs =>
      hbind (lift_io (bind_each (fun a => udp_bind_one a reuse) addrs None)) (fun s => mret (Ok (Udp s)))))).

(** ** Accepting *)

Definition roc_listener_close (listener : Z) : hio W (net_result unit) :=
  with_socket listener (fun listener =>
    match listener with
    | TcpListener c _ | UnixListener c _ _ | TlsListener c _ _ _ => lift_io (act (close_conn c))
    | _ => fail wrong_kind
    end).

(** The slot is claimed before accepting, waiting for one if need be. *)
Definition roc_socket_accept (listener : Z) : hio W (net_result Z) :=
  with_socket listener (fun listener =>
    ok ← lift (act heap_reserve);
    if ok : bool then
      _ ← tell Reserved;
      r ← lift (accept fuel listener);
      match r with
      | Err e => _ ← lift (act (fun w => (tt, heap_unreserve w))); _ ← tell Unreserved; mret (Err e)
      | Ok s => h ← lift (act (heap_insert s)); _ ← tell Inserted; mret (Ok h)
      end
    else fail (NetIo cancelled)).

Definition roc_socket_try_accept (listener : Z) : hio W (net_result (option Z)) :=
  with_socket listener (fun listener =>
    ok ← lift (act heap_try_reserve);
    if ok : bool then
      _ ← tell Reserved;
      r ← lift (accept_now fuel listener);
      match r with
      | Err e => _ ← lift (act (fun w => (tt, heap_unreserve w))); _ ← tell Unreserved; mret (Err e)
      | Ok None => _ ← lift (act (fun w => (tt, heap_unreserve w))); _ ← tell Unreserved; mret (Ok None)
      | Ok (Some s) => h ← lift (act (heap_insert s)); _ ← tell Inserted; mret (Ok (Some h))
      end
    else fail TooManySockets).

(** ** Streams *)

Definition roc_socket_try_read (socket max : Z) : hio W (net_result (option (list Z))) :=
  with_socket socket (fun socket => lift (read_now fuel socket max)).

Definition roc_socket_read (socket max : Z) : hio W (net_result (list Z)) :=
  with_socket socket (fun socket => lift (read_stream fuel socket max true)).

(** [read_to_list]: the list goes into the result on success, and is released
    on failure. *)
Definition read_to_list (socket : Z) (l : list Z) (max : Z) (keep : bool) : hio W (net_result (list Z)) :=
  read ← with_socket socket (fun socket =>
    hbind (lift (read_stream fuel socket max false)) (fun bytes =>
    _ ← tell (Returned (ABytes l)); mret (Ok ((if keep then l else []) ++ bytes))));
  _ ← (if is_ok read then mret tt else tell (Released (ABytes l)));
  mret read.

Definition roc_socket_read_into (socket : Z) (l : list Z) (max : Z) := read_to_list socket l max false.
Definition roc_socket_read_append (socket : Z) (l : list Z) (max : Z) := read_to_list socket l max true.

Definition roc_socket_write (socket : Z) (bytes : list Z) : hio W (net_result unit) :=
  r ← with_socket socket (fun socket => lift (write_socket fuel socket bytes));
  _ ← tell (Released (ABytes bytes));
  mret r.

Definition shutdown_how (how : Z) : Shutdown := if how =? 0 then ShutRead else if how =? 1 then ShutWrite else ShutBoth.

Definition roc_socket_shutdown (socket how : Z) : hio W (net_result unit) :=
  with_socket socket (fun socket => lift (shutdown_socket socket (shutdown_how how))).

(** [invalid_handle] *)
Definition invalid_handle (side : Side) (reading : bool) (err : NetErr) : CopyErr :=
  let err := match err with NetIo e => e | _ => err_kind OtherKind end in
  if reading then CopyRead side err else CopyWrite side err.

Definition unwrap_or_else {A E} (r : result A E) (f : E -> A) : A := match r with Ok a => a | Err e => f e end.

Definition roc_stream_copy_both (a b : Z) : hio W (Z * Z * CopyOutcome) :=
  r ← with_socket a (fun a =>
        r ← with_socket b (fun b => r ← lift (act (copy_both a b)); mret (Ok r));
        mret (Ok (unwrap_or_else r (fun e => (0, 0, Some (invalid_handle SideB true e))))));
  let '(a_to_b, b_to_a, failed) := unwrap_or_else r (fun e => (0, 0, Some (invalid_handle SideA true e))) in
  let io e := from_net_err (NetIo e) in
  mret (a_to_b, b_to_a,
        match failed with
        | None => ODone
        | Some CopyCancelled => OCancelled
        | Some TaskLimit => OTaskLimitReached
        | Some MessageTimeout => OReadA (io (err_kind TimedOutKind))
        | Some (CopyRead SideA e) => OReadA (io e)
        | Some (CopyRead SideB e) => OReadB (io e)
        | Some (CopyWrite SideA e) => OWriteA (io e)
        | Some (CopyWrite SideB e) => OWriteB (io e)
        end).

Definition roc_stream_copy_to (from to : Z) (prefix : list Z) (limit : option Z) (message_timeout_ns : Z)
  : hio W (Z * CopyToOutcome) :=
  d ← lift (get (fun w => if message_timeout_ns =? 0 then None else instant_checked_add (now w) message_timeout_ns));
  r ← with_socket from (fun from =>
        r ← with_socket to (fun to => r ← lift (act (copy_to from to prefix limit d)); mret (Ok r));
        mret (Ok (unwrap_or_else r (fun e => (0, Some (invalid_handle SideB false e))))));
  _ ← tell (Released (ABytes prefix));
  let '(copied, failed) := unwrap_or_else r (fun e => (0, Some (invalid_handle SideA true e))) in
  let io e := from_net_err (NetIo e) in
  mret (copied,
        match failed with
        | None => TDone
        | Some CopyCancelled => TCancelled
        | Some MessageTimeout => TMessageTimedOut
        | Some (CopyRead _ e) => TRead (io e)
        | Some (CopyWrite _ e) => TWrite (io e)
        | Some TaskLimit => TRead (io (err_kind OtherKind))
        end).

Definition roc_socket_abort (socket : Z) : hio W unit :=
  _ ← with_socket socket (fun socket => _ ← lift (act (fun w => (tt, copy_abort socket w))); mret (Ok tt));
  mret tt.

Definition roc_socket_set_timeout (socket which timeout_ms : Z) : hio W (net_result unit) :=
  let set c := lift (act (fun w => (tt, update_conn c (if which =? 0 then set_read_timeout_ms timeout_ms
                                                       else set_write_timeout_ms timeout_ms) w))) in
  with_socket socket (fun socket =>
    match socket with
    | TcpStream c | UnixStream c | Udp c | Tls c | Noise c _ => _ ← set c; mret (Ok tt)
    | _ => fail wrong_kind
    end).

Definition roc_socket_local_addr (socket : Z) : hio W (net_result str) :=
  with_socket socket (fun socket => lift_io (call (CLocalAddr (io_parts socket)))).

Definition roc_socket_peer_addr (socket : Z) : hio W (net_result str) :=
  with_socket socket (fun socket =>
    match socket with
    | TcpStream c | Udp c | UnixStream c | Tls c | Noise c _ => lift_io (call (CPeerAddr c))
    | _ => fail wrong_kind
    end).

Definition roc_tcp_set_nodelay (socket : Z) (enabled : bool) : hio W (net_result unit) :=
  with_socket socket (fun socket =>
    match socket with
    | TcpStream c | Tls c | Noise c true => lift_io (call (CSetNodelay c enabled))
    | _ => fail wrong_kind
    end).

(** ** UDP *)

(** [with_udp] *)
Definition with_udp {A} (h : Z) (f : Z -> hio W (net_result A)) : hio W (net_result A) :=
  with_socket h (fun socket => match socket with Udp s => f s | _ => fail wrong_kind end).

(** [UdpSocket::connect]: the first address that can be connected to. *)
Fixpoint connect_first (s : Z) (addrs : list str) (last : IoError) : io W (io_result unit) :=
  match addrs with
  | [] => mret (Err last)
  | a :: addrs => r ← call (CConnect s a); match r with Ok _ => mret (Ok tt) | Err e => connect_first s addrs e end
  end.

Definition roc_udp_connect (socket : Z) (address : str) : hio W (net_result unit) :=
  with_str address (fun address =>
    with_udp socket (fun s =>
      hbind (lift_io (act (socket_addrs address None))) (fun addrs => lift_io (connect_first s addrs (err_kind InvalidInput))))).

Definition roc_udp_send_to (socket : Z) (bytes : list Z) (address : str) : hio W (net_result unit) :=
  r ← with_str address (fun address =>
    with_udp socket (fun s =>
      hbind (lift_io (act (socket_addrs address None))) (fun addrs =>
      match addrs with
      | [] => fail (NetIo (err_kind NotFound))
      | addr :: _ =>
          d ← lift (get (@write_deadline W _ (conn_at s)));
          hbind (lift_io (@retry W _ (conn_at s) _ fuel true d (sys (CSendTo s bytes addr)))) (fun n =>
          mret (check_datagram_sent n (length bytes)))
      end)));
  _ ← tell (Released (ABytes bytes));
  mret r.

Definition roc_udp_recv_from (socket max : Z) : hio W (net_result (list Z * bool * str)) :=
  with_udp socket (fun s => lift_io (@read_with W _ (conn_at s) _ fuel (sys (CRecvDatagram s (read_max max))))).

Definition roc_udp_recv (socket max : Z) : hio W (net_result (list Z * bool)) :=
  with_udp socket (fun s =>
    hbind (lift_io (@read_with W _ (conn_at s) _ fuel (sys (CRecvDatagram s (read_max max))))) (fun r => mret (Ok r.1))).

Definition roc_udp_set_broadcast (socket : Z) (enabled : bool) : hio W (net_result unit) :=
  with_udp socket (fun s => lift_io (call (CSetBroadcast s enabled))).

(** [multicast_group] *)
Definition multicast_group (group : str) : net_result str :=
  match parse_ip group with Some ip => Ok ip | None => Err (NetIo (err_kind InvalidInput)) end.

Definition roc_udp_multicast (join : bool) (socket : Z) (group : str) : hio W (net_result unit) :=
  with_str group (fun group =>
    with_udp socket (fun s => hbind (mret (multicast_group group)) (fun g => lift_io (call (CMulticast s join g))))).
Definition roc_udp_join_multicast := roc_udp_multicast true.
Definition roc_udp_leave_multicast := roc_udp_multicast false.

Definition roc_dns_resolve (name : str) (timeout_ms : Z) : hio W (net_result (list str)) :=
  d ← now_deadline timeout_ms; with_str name (fun name => lift (resolve name d)).

(** ** TLS and Noise *)

(** [client_cert] and [client_auth] *)
Definition client_cert (cert_file key_file : str) : option (str * str) :=
  if bool_decide (cert_file = []) then None else Some (cert_file, key_file).
Definition client_auth (ca_file : str) (mode : Z) : option (str * bool) := if mode =? 0 then None else Some (ca_file, mode =? 2).

Definition roc_tls_connect (address server_name ca_file : str) (alpn : list str) (timeout_ms : Z) (cert_file key_file : str)
  : hio W (net_result Z) :=
  alpn ← take_strs alpn;
  cert_file ← take_str cert_file;
  key_file ← take_str key_file;
  with_str address (fun address => with_str server_name (fun server_name => with_str ca_file (fun ca_file =>
    open_socket (
      d ← now_deadline timeout_ms;
      hbind (lift (tcp_connect fuel address d ANY)) (fun tcp =>
      let name := if bool_decide (server_name = []) then tls_host_of address else server_name in
      hbind (lift_io (act (tls_client tcp name ca_file alpn (client_cert cert_file key_file) d))) (fun _ =>
      mret (Ok (Tls tcp)))))))).

Definition roc_tls_listen (address : str) (certs alpn : list str) (handshake_timeout_ms idle_ms write_ms : Z)
    (client_ca_file : str) (client_auth_mode : Z) : hio W (net_result Z) :=
  certs ← take_certs certs;
  alpn ← take_strs alpn;
  client_ca_file ← take_str client_ca_file;
  with_str address (fun address =>
    open_socket (
      hbind (lift_io (act (tls_server_config certs alpn (client_auth client_ca_file client_auth_mode)))) (fun config =>
      hbind (lift (tcp_bind address 1024 false)) (fun l =>
      mret (Ok (TlsListener l config handshake_timeout_ms (mkTimeouts idle_ms write_ms))))))).

(** [plain_tcp]: a second descriptor for the connection, with its timeouts. *)
Definition plain_tcp (socket : Socket) : hio W (net_result Z) :=
  match socket with
  | TcpStream s =>
      hbind (lift_io (call (CTryClone s))) (fun tls =>
      t ← lift (get (fun w => timeouts (conn_at s w)));
      _ ← lift (apply_timeouts t tls);
      mret (Ok tls))
  | _ => fail wrong_kind
  end.

Definition roc_tls_wrap_client (socket : Z) (server_name ca_file : str) (alpn : list str) (timeout_ms : Z)
    (cert_file key_file : str) : hio W (net_result Z) :=
  alpn ← take_strs alpn;
  cert_file ← take_str cert_file;
  key_file ← take_str key_file;
  d ← now_deadline timeout_ms;
  with_str server_name (fun server_name => with_str ca_file (fun ca_file =>
    with_socket socket (fun socket =>
      hbind (plain_tcp socket) (fun tcp =>
      open_socket (
        hbind (lift_io (act (tls_client tcp server_name ca_file alpn (client_cert cert_file key_file) d))) (fun _ =>
        mret (Ok (Tls tcp)))))))).

Definition roc_tls_wrap_server (socket : Z) (certs alpn : list str) (handshake_timeout_ms : Z) (client_ca_file : str)
    (client_auth_mode : Z) : hio W (net_result Z) :=
  d ← now_deadline handshake_timeout_ms;
  certs ← take_certs certs;
  alpn ← take_strs alpn;
  client_ca_file ← take_str client_ca_file;
  with_socket socket (fun socket =>
    hbind (plain_tcp socket) (fun tcp =>
    hbind (lift_io (act (tls_server_config certs alpn (client_auth client_ca_file client_auth_mode)))) (fun config =>
    open_socket (hbind (lift_io (act (tls_server tcp config d))) (fun _ => mret (Ok (Tls tcp))))))).

(** The operations of a TLS stream only. *)
Definition with_tls {A} (h : Z) (f : Z -> hio W (net_result A)) : hio W (net_result A) :=
  with_socket h (fun socket => match socket with Tls s => f s | _ => fail wrong_kind end).

Definition roc_tls_handshake (socket : Z) : hio W (net_result unit) := with_tls socket (fun s => lift_io (act (tls_handshake s))).
Definition roc_tls_server_name (socket : Z) : hio W (net_result str) :=
  with_tls socket (fun s => hbind (lift_io (act (tls_server_name s))) (fun name => mret (Ok (default [] name)))).
Definition roc_tls_peer_certificates (socket : Z) : hio W (net_result (list str)) :=
  with_tls socket (fun s => lift_io (act (tls_peer_certificates s))).
Definition roc_tls_peer_certificate_valid_for (socket : Z) (name : str) : hio W (net_result bool) :=
  with_str name (fun name => with_tls socket (fun s => lift_io (act (tls_valid_for s name)))).
Definition roc_tls_alpn_protocol (socket : Z) : hio W (net_result str) :=
  with_tls socket (fun s => hbind (lift_io (act (tls_alpn_protocol s))) (fun id => mret (Ok (default [] id)))).
Definition roc_tls_ignore_unexpected_eof (socket : Z) (ignore : bool) : hio W (net_result unit) :=
  with_tls socket (fun s => _ ← lift (act (fun w => (tt, tls_ignore_eof s ignore w))); mret (Ok tt)).

(** [noise::wire_of]: the plain stream to wrap, TCP or Unix, duplicated. *)
Definition wire_of (socket : Socket) : hio W (net_result (Z * bool)) :=
  match socket with
  | TcpStream c => hbind (lift_io (call (CTryClone c))) (fun d =>
      t ← lift (get (fun w => timeouts (conn_at c w))); _ ← lift (apply_timeouts t d); mret (Ok (d, true)))
  | UnixStream c => hbind (lift_io (call (CTryClone c))) (fun d =>
      t ← lift (get (fun w => timeouts (conn_at c w))); _ ← lift (apply_timeouts t d); mret (Ok (d, false)))
  | _ => fail wrong_kind
  end.

Definition roc_noise_wrap (socket cipher : Z) (send_key : list Z) (send_nonce : Z) (receive_key : list Z) (receive_nonce : Z)
  : hio W (net_result Z) :=
  r ← with_socket socket (fun socket =>
        hbind (wire_of socket) (fun wire =>
        hbind (lift_io (act (noise_new wire.1 cipher (send_key, send_nonce) (receive_key, receive_nonce)))) (fun _ =>
        open_socket (mret (Ok (Noise wire.1 wire.2))))));
  _ ← tell (Released (ABytes send_key));
  _ ← tell (Released (ABytes receive_key));
  mret r.

End Hosted.

(** ** Accounting *)

Definition arg_of (e : Ev) : option Arg := match e with Released a | Returned a => Some a | _ => None end.
Definition args_of (ev : list Ev) : list Arg := omap arg_of ev.

(** Slots claimed and not yet filled or freed, and slots filled. *)
Definition slot_of (e : Ev) : Z := match e with Reserved => 1 | Unreserved | Inserted => -1 | _ => 0 end.
Definition pending (ev : list Ev) : Z := foldr (fun e n => slot_of e + n) 0 ev.
Definition inserted (ev : list Ev) : nat := foldr (fun e n => match e with Inserted => S n | _ => n end) 0%nat ev.

(** [bal args n ev]: the events give up exactly [args], fill [n] slots, and
    leave none claimed. *)
Definition bal (args : list Arg) (n : nat) (ev : list Ev) : Prop :=
  args_of ev ≡ₚ args /\ pending ev = 0 /\ inserted ev = n.

Lemma pending_app ev ev' : pending (ev ++ ev') = pending ev + pending ev'.
Proof. induction ev; simpl; lia. Qed.

Lemma inserted_app ev ev' : inserted (ev ++ ev') = (inserted ev + inserted ev')%nat.
Proof. induction ev as [|[]]; simpl; lia. Qed.

Lemma args_of_app ev ev' : args_of (ev ++ ev') = args_of ev ++ args_of ev'.
Proof. apply omap_app. Qed.

Lemma bal_app args args' n n' ev ev' : bal args n ev -> bal args' n' ev' -> bal (args ++ args') (n + n') (ev ++ ev').
Proof.
  intros (Ha & Hp & Hi) (Ha' & Hp' & Hi'). unfold bal. rewrite args_of_app, pending_app, inserted_app, Ha, Ha', Hp, Hp', Hi, Hi'.
  split_and!; done.
Qed.

Section Owns.
Context {W : Type}.

(** A computation that gives up [args], depending on its result, and fills as
    many slots as its result says. *)
Definition owns {A} (args : A -> list Arg) (ins : A -> nat) (m : hio W A) : Prop :=
  forall w a ev w', m w = Some (a, ev, w') -> bal (args a) (ins a) ev.

(** One that owns nothing. *)
Abbreviation owns_nothing := (owns (fun _ => []) (fun _ => 0%nat)).

Lemma owns_ret {A} (args : A -> list Arg) ins (a : A) : args a = [] -> ins a = 0%nat -> owns args ins (mret a).
Proof. intros Ha Hi w b ev w' [= <- <- <-]. by rewrite Ha, Hi. Qed.

Lemma owns_lift {A} (m : io W A) : owns_nothing (lift m).
Proof. intros w a ev w'. unfold lift. destruct (m w) as [[b w1]|]; [|done]. by intros [= <- <- <-]. Qed.

Lemma owns_bind {A B} (args : B -> list Arg) ins (args1 : list Arg) (m : hio W A) (k : A -> hio W B) (args2 : B -> list Arg) :
  owns (fun _ => args1) (fun _ => 0%nat) m -> (forall x, owns args2 ins (k x)) ->
  (forall b, args b ≡ₚ args1 ++ args2 b) -> owns args ins (m ≫= k).
Proof.
  intros Hm Hk Hargs w b ev w'. unfold mbind, hio_bind. destruct (m w) as [[[x ev1] w1]|] eqn:Em; [|done].
  destruct (k x w1) as [[[y ev2] w2]|] eqn:Ek; [|done]. intros [= <- <- <-].
  destruct (bal_app _ _ _ _ _ _ (Hm _ _ _ _ Em) (Hk _ _ _ _ _ Ek)) as (Ha & Hp & Hi).
  split_and!; [by rewrite Ha, Hargs|done|done].
Qed.

(** After something that owns nothing. *)
Lemma owns_after {A B} (args : B -> list Arg) ins (m : hio W A) (k : A -> hio W B) :
  owns_nothing m -> (forall x, owns args ins (k x)) -> owns args ins (m ≫= k).
Proof. intros Hm Hk. by apply (owns_bind args ins [] m k args). Qed.

Lemma owns_tell (a : Arg) e : arg_of e = Some a -> slot_of e = 0 -> inserted [e] = 0%nat ->
  owns (fun _ => [a]) (fun _ => 0%nat) (tell e).
Proof. intros Ha Hs Hi w x ev w' [= <- <- <-]. split_and!; simpl in *; [by rewrite Ha|lia|done]. Qed.

Lemma owns_tell_arg {B} (args args' : B -> list Arg) ins e a (k : unit -> hio W B) :
  (e = Released a \/ e = Returned a) -> owns args' ins (k tt) -> (forall b, args b ≡ₚ a :: args' b) ->
  owns args ins (tell e ≫= k).
Proof.
  intros He Hk Hargs. apply (owns_bind args ins [a] (tell e) k args'); [|by intros []|done].
  destruct He as [->| ->]; by apply owns_tell.
Qed.

Lemma owns_hbind {A B} (args : net_result B -> list Arg) ins (m : hio W (net_result A)) (k : A -> hio W (net_result B)) :
  owns_nothing m -> (forall e, args (Err e) = [] /\ ins (Err e) = 0%nat) -> (forall x, owns args ins (k x)) ->
  owns args ins (hbind m k).
Proof.
  intros Hm He Hk. apply owns_after; [done|]. intros [x|e]; [apply Hk|]. by apply owns_ret; apply He.
Qed.

Lemma owns_lift_io {A} (m : io W (io_result A)) : owns_nothing (lift_io m).
Proof. apply owns_after; [apply owns_lift|]. intros r. by apply owns_ret. Qed.

Lemma owns_fail {A} e : owns_nothing (fail (W := W) (A := A) e).
Proof. by apply owns_ret. Qed.

Lemma owns_with_str {A} (args : A -> list Arg) ins s (f : str -> hio W A) :
  owns args ins (f s) -> owns (fun r => AStr s :: args r) ins (with_str s f).
Proof.
  intros Hf w a ev w'. unfold with_str, mbind, hio_bind. destruct (f s w) as [[[r ev1] w1]|] eqn:Ef; [|done].
  simpl. intros [= <- <- <-]. apply Hf in Ef as (Ha & Hp & Hi). split_and!.
  - rewrite args_of_app. simpl. rewrite Ha. by rewrite <- Permutation_cons_append.
  - rewrite pending_app. simpl. lia.
  - rewrite inserted_app. simpl. lia.
Qed.

End Owns.

(** How many sockets a result hands to Roc. *)
Definition opened {A} (r : net_result A) : nat := if is_ok r then 1%nat else 0%nat.
Definition opened_opt {A} (r : net_result (option A)) : nat := match r with Ok (Some _) => 1%nat | _ => 0%nat end.

Section OwnsHeap.
Context {W : Type} `{NetOs W, !SocketHeap W, !NetHost W}.

Lemma owns_with_socket {A} (args : net_result A -> list Arg) ins h (f : Socket -> hio W (net_result A)) :
  (forall s, owns args ins (f s)) -> args (Err NetOther) = [] -> ins (Err NetOther) = 0%nat ->
  owns (fun r => AHandle h :: args r) ins (with_socket h f).
Proof.
  intros Hf Ha0 Hi0 w a ev w'. unfold with_socket, mbind, hio_bind, lift, get, release_handle, mbind, hio_bind, lift, act. simpl.
  assert (owns args ins (match heap_get h w with Some socket => f socket | None => mret (Err NetOther) end)) as Hm
    by (destruct (heap_get h w); [apply Hf|by apply owns_ret]).
  destruct (match heap_get h w with Some socket => f socket | None => mret (Err NetOther) end w) as [[[r ev1] w1]|] eqn:E; [|done].
  simpl. intros [= <- <- <-]. apply Hm in E as (Ha & Hp & Hi). split_and!.
  - rewrite args_of_app. simpl. rewrite Ha. by rewrite <- Permutation_cons_append.
  - rewrite pending_app. simpl. lia.
  - rewrite inserted_app. simpl. lia.
Qed.

(** Filling the slot claimed, or freeing it. *)
Lemma owns_open_socket (open : hio W (net_result Socket)) :
  owns (fun _ => []) (fun _ => 0%nat) open -> owns (fun _ => []) opened (open_socket open).
Proof.
  intros Ho w a ev w'. unfold open_socket, mbind, hio_bind, lift, act. destruct (heap_try_reserve w) as [[] w1]; simpl.
  - destruct (open w1) as [[[[s|e] ev1] w2]|] eqn:E; [| |done]; apply Ho in E as (Ha & Hp & Hi); simpl.
    + destruct (heap_insert s w2) as [h w3]. intros [= <- <- <-]. split_and!;
        rewrite ?args_of_app, ?pending_app, ?inserted_app; simpl; rewrite ?args_of_app, ?pending_app, ?inserted_app; simpl;
        [by rewrite Ha|lia|unfold opened; simpl; lia].
    + intros [= <- <- <-]. split_and!;
        rewrite ?args_of_app, ?pending_app, ?inserted_app; simpl; rewrite ?args_of_app, ?pending_app, ?inserted_app; simpl;
        [by rewrite Ha|lia|unfold opened; simpl; lia].
  - by intros [= <- <- <-].
Qed.

End OwnsHeap.

(** ** Every hosted function *)

(** A call, with its arguments. *)
Inductive HostCall :=
  | TcpListen (address : str) (idle_ms write_ms backlog : Z) (reuse_port : bool)
  | TcpConnect (address : str) (timeout_ms : Z) (local interface : str)
  | UnixListen (path : str) (idle_ms write_ms : Z)
  | UnixConnect (path : str) (timeout_ms : Z)
  | UdpBind (address : str) (reuse : bool)
  | ListenerClose (listener : Z)
  | SocketAccept (listener : Z)
  | SocketTryAccept (listener : Z)
  | SocketTryRead (socket max : Z)
  | SocketRead (socket max : Z)
  | SocketReadInto (socket : Z) (l : list Z) (max : Z)
  | SocketReadAppend (socket : Z) (l : list Z) (max : Z)
  | SocketWrite (socket : Z) (bytes : list Z)
  | SocketShutdown (socket how : Z)
  | StreamCopyBoth (a b : Z)
  | StreamCopyTo (from to : Z) (prefix : list Z) (limit : option Z) (message_timeout_ns : Z)
  | SocketAbort (socket : Z)
  | SocketSetTimeout (socket which timeout_ms : Z)
  | SocketLocalAddr (socket : Z)
  | SocketPeerAddr (socket : Z)
  | TcpSetNodelay (socket : Z) (enabled : bool)
  | UdpConnect (socket : Z) (address : str)
  | UdpSendTo (socket : Z) (bytes : list Z) (address : str)
  | UdpRecvFrom (socket max : Z)
  | UdpRecv (socket max : Z)
  | UdpSetBroadcast (socket : Z) (enabled : bool)
  | UdpMulticast (join : bool) (socket : Z) (group : str)
  | DnsResolve (name : str) (timeout_ms : Z)
  | TlsConnect (address server_name ca_file : str) (alpn : list str) (timeout_ms : Z) (cert_file key_file : str)
  | TlsListen (address : str) (certs alpn : list str) (handshake_ms idle_ms write_ms : Z) (client_ca : str) (mode : Z)
  | TlsWrapClient (socket : Z) (server_name ca_file : str) (alpn : list str) (timeout_ms : Z) (cert_file key_file : str)
  | TlsWrapServer (socket : Z) (certs alpn : list str) (handshake_ms : Z) (client_ca : str) (mode : Z)
  | TlsHandshake (socket : Z)
  | TlsServerName (socket : Z)
  | TlsPeerCertificates (socket : Z)
  | TlsValidFor (socket : Z) (name : str)
  | TlsAlpnProtocol (socket : Z)
  | TlsIgnoreEof (socket : Z) (ignore : bool)
  | NoiseWrap (socket cipher : Z) (send_key : list Z) (send_nonce : Z) (receive_key : list Z) (receive_nonce : Z).

(** The references a call is passed. *)
Definition args (c : HostCall) : list Arg :=
  match c with
  | TcpListen address _ _ _ _ => [AStr address]
  | TcpConnect address _ local interface => [AStr local; AStr interface; AStr address]
  | UnixListen path _ _ | UnixConnect path _ => [AStr path]
  | UdpBind address _ => [AStr address]
  | ListenerClose h | SocketAccept h | SocketTryAccept h => [AHandle h]
  | SocketTryRead h _ | SocketRead h _ => [AHandle h]
  | SocketReadInto h l _ | SocketReadAppend h l _ | SocketWrite h l => [AHandle h; ABytes l]
  | SocketShutdown h _ => [AHandle h]
  | StreamCopyBoth a b => [AHandle a; AHandle b]
  | StreamCopyTo from to prefix _ _ => [AHandle from; AHandle to; ABytes prefix]
  | SocketAbort h | SocketSetTimeout h _ _ | SocketLocalAddr h | SocketPeerAddr h | TcpSetNodelay h _ => [AHandle h]
  | UdpConnect h address => [AStr address; AHandle h]
  | UdpSendTo h bytes address => [AStr address; AHandle h; ABytes bytes]
  | UdpRecvFrom h _ | UdpRecv h _ | UdpSetBroadcast h _ => [AHandle h]
  | UdpMulticast _ h group => [AStr group; AHandle h]
  | DnsResolve name _ => [AStr name]
  | TlsConnect address server_name ca_file alpn _ cert_file key_file =>
      [AStrs alpn; AStr cert_file; AStr key_file; AStr address; AStr server_name; AStr ca_file]
  | TlsListen address certs alpn _ _ _ client_ca _ => [ACerts certs; AStrs alpn; AStr client_ca; AStr address]
  | TlsWrapClient h server_name ca_file alpn _ cert_file key_file =>
      [AStrs alpn; AStr cert_file; AStr key_file; AStr server_name; AStr ca_file; AHandle h]
  | TlsWrapServer h certs alpn _ client_ca _ => [ACerts certs; AStrs alpn; AStr client_ca; AHandle h]
  | TlsHandshake h | TlsServerName h | TlsPeerCertificates h | TlsAlpnProtocol h | TlsIgnoreEof h _ => [AHandle h]
  | TlsValidFor h name => [AStr name; AHandle h]
  | NoiseWrap h _ send_key _ receive_key _ => [AHandle h; ABytes send_key; ABytes receive_key]
  end.

(** Whether it is one of those that open a socket. *)
Definition opens (c : HostCall) : bool :=
  match c with
  | TcpListen _ _ _ _ _ | TcpConnect _ _ _ _ | UnixListen _ _ _ | UnixConnect _ _ | UdpBind _ _ | SocketAccept _
  | SocketTryAccept _ | TlsConnect _ _ _ _ _ _ _ | TlsListen _ _ _ _ _ _ _ _ | TlsWrapClient _ _ _ _ _ _ _
  | TlsWrapServer _ _ _ _ _ _ | NoiseWrap _ _ _ _ _ _ => true
  | _ => false
  end.

(** What a call returns, as far as sockets go: a new handle or none. *)
Definition new_handle (r : net_result Z) : option Z := match r with Ok h => Some h | Err _ => None end.
Definition new_handle_opt (r : net_result (option Z)) : option Z := match r with Ok h => h | Err _ => None end.

Section Run.
Context {W : Type} `{NetOs W, !SocketHeap W, !NetHost W}.
Variable fuel : nat.

Definition ignore {A} (m : hio W A) : hio W (option Z) := _ ← m; mret None.
Definition handle_result (m : hio W (net_result Z)) : hio W (option Z) := r ← m; mret (new_handle r).

Definition run (c : HostCall) : hio W (option Z) :=
  match c with
  | TcpListen a i w b r => handle_result (roc_tcp_listen a i w b r)
  | TcpConnect a t l i => handle_result (roc_tcp_connect fuel a t l i)
  | UnixListen p i w => handle_result (roc_unix_listen p i w)
  | UnixConnect p t => handle_result (roc_unix_connect fuel p t)
  | UdpBind a r => handle_result (roc_udp_bind a r)
  | ListenerClose h => ignore (roc_listener_close h)
  | SocketAccept h => handle_result (roc_socket_accept fuel h)
  | SocketTryAccept h => r ← roc_socket_try_accept fuel h; mret (new_handle_opt r)
  | SocketTryRead h m => ignore (roc_socket_try_read fuel h m)
  | SocketRead h m => ignore (roc_socket_read fuel h m)
  | SocketReadInto h l m => ignore (roc_socket_read_into fuel h l m)
  | SocketReadAppend h l m => ignore (roc_socket_read_append fuel h l m)
  | SocketWrite h b => ignore (roc_socket_write fuel h b)
  | SocketShutdown h how => ignore (roc_socket_shutdown h how)
  | StreamCopyBoth a b => ignore (roc_stream_copy_both a b)
  | StreamCopyTo f t p l n => ignore (roc_stream_copy_to f t p l n)
  | SocketAbort h => ignore (roc_socket_abort h)
  | SocketSetTimeout h w t => ignore (roc_socket_set_timeout h w t)
  | SocketLocalAddr h => ignore (roc_socket_local_addr h)
  | SocketPeerAddr h => ignore (roc_socket_peer_addr h)
  | TcpSetNodelay h e => ignore (roc_tcp_set_nodelay h e)
  | UdpConnect h a => ignore (roc_udp_connect h a)
  | UdpSendTo h b a => ignore (roc_udp_send_to fuel h b a)
  | UdpRecvFrom h m => ignore (roc_udp_recv_from fuel h m)
  | UdpRecv h m => ignore (roc_udp_recv fuel h m)
  | UdpSetBroadcast h e => ignore (roc_udp_set_broadcast h e)
  | UdpMulticast j h g => ignore (roc_udp_multicast j h g)
  | DnsResolve n t => ignore (roc_dns_resolve n t)
  | TlsConnect a s c al t cf kf => handle_result (roc_tls_connect fuel a s c al t cf kf)
  | TlsListen a c al h i w ca m => handle_result (roc_tls_listen a c al h i w ca m)
  | TlsWrapClient h s c al t cf kf => handle_result (roc_tls_wrap_client h s c al t cf kf)
  | TlsWrapServer h c al hs ca m => handle_result (roc_tls_wrap_server h c al hs ca m)
  | TlsHandshake h => ignore (roc_tls_handshake h)
  | TlsServerName h => ignore (roc_tls_server_name h)
  | TlsPeerCertificates h => ignore (roc_tls_peer_certificates h)
  | TlsValidFor h n => ignore (roc_tls_peer_certificate_valid_for h n)
  | TlsAlpnProtocol h => ignore (roc_tls_alpn_protocol h)
  | TlsIgnoreEof h i => ignore (roc_tls_ignore_unexpected_eof h i)
  | NoiseWrap h c sk sn rk rn => handle_result (roc_noise_wrap h c sk sn rk rn)
  end.

End Run.

(** *** The proof, by the shape of each function *)

Section RunFacts.
Context {W : Type} `{NetOs W, !SocketHeap W, !NetHost W}.
Variable fuel : nat.

Lemma owns_perm {A} (args args' : A -> list Arg) ins (m : hio W A) :
  owns args' ins m -> (forall a, args' a ≡ₚ args a) -> owns args ins m.
Proof. intros Hm Hp w a ev w' E. destruct (Hm _ _ _ _ E) as (Ha & ? & ?). split_and!; [by rewrite Ha|done..]. Qed.

(** A fixed set of arguments, then a function of the result. *)
Lemma owns_map {A B} l ins ins' (m : hio W A) (f : A -> B) :
  owns (fun _ => l) ins m -> (forall a, ins' (f a) = ins a) -> owns (fun _ => l) ins' (r ← m; mret (f r)).
Proof.
  intros Hm Hi w b ev w'. unfold mbind, hio_bind. destruct (m w) as [[[a ev1] w1]|] eqn:E; [|done].
  intros [= <- <- <-]. rewrite app_nil_r, Hi. by apply Hm in E.
Qed.

(** What is given up after the rest. *)
Lemma owns_then {A} l ins a (m : hio W A) :
  owns (fun _ => l) ins m -> owns (fun _ => l ++ [a]) ins (r ← m; _ ← tell (Released a); mret r).
Proof.
  intros Hm w b ev w'. unfold mbind, hio_bind. destruct (m w) as [[[x ev1] w1]|] eqn:E; [|done].
  intros [= <- <- <-]. apply Hm in E. rewrite <- (Nat.add_0_r (ins x)). by apply bal_app.
Qed.

Lemma owns_then2 {A} l ins a a' (m : hio W A) :
  owns (fun _ => l) ins m ->
  owns (fun _ => l ++ [a; a']) ins (r ← m; _ ← tell (Released a); _ ← tell (Released a'); mret r).
Proof.
  intros Hm w b ev w'. unfold mbind, hio_bind. destruct (m w) as [[[x ev1] w1]|] eqn:E; [|done].
  intros [= <- <- <-]. apply Hm in E. rewrite <- (Nat.add_0_r (ins x)). by apply bal_app.
Qed.

(** Given up before the rest. *)
Lemma owns_first {A B} l l' ins (m : hio W A) (k : A -> hio W B) :
  owns (fun _ => l) (fun _ => 0%nat) m -> (forall x, owns (fun _ => l') ins (k x)) -> owns (fun _ => l ++ l') ins (m ≫= k).
Proof. intros Hm Hk. by apply (owns_bind _ ins l m k (fun _ => l')). Qed.

Lemma owns_take_str s : owns (fun _ => [AStr s]) (fun _ => 0%nat) (take_str (W := W) s).
Proof. apply (owns_with_str (fun _ => [])). by apply owns_ret. Qed.

Lemma owns_take_strs l : owns (fun _ => [AStrs l]) (fun _ => 0%nat) (take_strs (W := W) l).
Proof. by intros w a ev w' [= <- <- <-]. Qed.

Lemma owns_take_certs l : owns (fun _ => [ACerts l]) (fun _ => 0%nat) (take_certs (W := W) l).
Proof. by intros w a ev w' [= <- <- <-]. Qed.

Lemma owns_with_str_c {A} l ins s (f : str -> hio W A) :
  owns (fun _ => l) ins (f s) -> owns (fun _ => AStr s :: l) ins (with_str s f).
Proof. apply (owns_with_str (fun _ => l)). Qed.

Lemma owns_with_socket_c {A} ins h (f : Socket -> hio W (net_result A)) :
  (forall s, owns (fun _ => []) ins (f s)) -> ins (Err NetOther) = 0%nat -> owns (fun _ => [AHandle h]) ins (with_socket h f).
Proof. intros Hf Hi. by apply (owns_with_socket (fun _ => [])). Qed.

(** The two that claim a slot before accepting. *)
Lemma owns_accept h : owns (W := W) (fun _ => [AHandle h]) opened (roc_socket_accept fuel h).
Proof.
  apply owns_with_socket_c; [|done]. intros s w a ev w'. unfold mbind, hio_bind, lift, act.
  destruct (heap_reserve w) as [[] w1]; simpl; [|by intros [= <- <- <-]].
  destruct (accept fuel s w1) as [[[x|e] w2]|]; [| |done]; simpl; [destruct (heap_insert x w2)|]; by intros [= <- <- <-].
Qed.

Lemma owns_try_accept h : owns (W := W) (fun _ => [AHandle h]) opened_opt (roc_socket_try_accept fuel h).
Proof.
  apply owns_with_socket_c; [|done]. intros s w a ev w'. unfold mbind, hio_bind, lift, act.
  destruct (heap_try_reserve w) as [[] w1]; simpl; [|by intros [= <- <- <-]].
  destruct (accept_now fuel s w1) as [[[[x|]|e] w2]|]; [| | |done]; simpl; [destruct (heap_insert x w2)|..]; by intros [= <- <- <-].
Qed.

(** The list goes into the result, or is released. *)
Lemma owns_read_to_list h l max keep :
  owns (W := W) (fun _ => [AHandle h; ABytes l]) (fun _ => 0%nat) (read_to_list fuel h l max keep).
Proof.
  assert (owns (W := W) (fun r => AHandle h :: if is_ok r then [ABytes l] else []) (fun _ => 0%nat)
    (with_socket h (fun socket => hbind (lift (read_stream fuel socket max false)) (fun bytes =>
      _ ← tell (Returned (ABytes l)); mret (Ok ((if keep then l else []) ++ bytes)))))) as Hw.
  { apply owns_with_socket; [|done..]. intros s. apply owns_hbind; [apply owns_lift|done|].
    intros bytes w a ev w' [= <- <- <-]. done. }
  intros w a ev w'. unfold read_to_list, mbind at 1, hio_bind at 1. destruct (with_socket h _ w) as [[[r ev1] w1]|] eqn:E; [|done].
  apply Hw in E. destruct r; simpl; intros [= <- <- <-]; [by rewrite app_nil_r|].
  change [AHandle h; ABytes l] with ([AHandle h] ++ [ABytes l]). rewrite <- (Nat.add_0_r 0). by apply bal_app.
Qed.

(** The second handle of a copy is released inside the closure on the first
    one, so only if the first is valid. *)
Lemma bal_nested {A B} h1 h2 (f : Socket -> Socket -> hio W (net_result A)) (k : net_result A -> B) w r ev w' :
  is_Some (heap_get h1 w) -> (forall s s', owns (fun _ => []) (fun _ => 0%nat) (f s s')) ->
  with_socket h1 (fun s => r ← with_socket h2 (f s); mret (Ok (k r))) w = Some (r, ev, w') ->
  bal [AHandle h1; AHandle h2] 0 ev.
Proof.
  intros [s Hs] Hf. unfold with_socket at 1, mbind at 1, hio_bind at 1, lift at 1, get at 1. rewrite Hs. simpl.
  assert (owns (fun _ => [AHandle h2]) (fun _ => 0%nat) (r ← with_socket h2 (f s); mret (Ok (E := NetErr) (k r)))) as Hm.
  { apply (owns_map _ (fun _ => 0%nat)); [|done]. apply owns_with_socket_c; [apply Hf|done]. }
  unfold mbind at 1, hio_bind at 1.
  destruct ((r ← with_socket h2 (f s); mret (Ok (E := NetErr) (k r))) w) as [[[x ev1] w1]|] eqn:E; [|done].
  simpl. intros [= <- <- <-]. apply Hm in E. destruct E as (Ha & Hp & Hi). split_and!;
    rewrite ?args_of_app, ?pending_app, ?inserted_app, ?Ha, ?Hp, ?Hi; simpl; [apply Permutation_swap|done|done].
Qed.

End RunFacts.

(** The shapes that own nothing but what their lemma says. *)
Ltac owns_step :=
  lazymatch goal with
  | |- owns _ _ (lift_io _) => apply owns_lift_io
  | |- owns _ _ (lift _) => apply owns_lift
  | |- owns _ _ (now_deadline _) => apply owns_lift
  | |- owns _ _ (fail _) => apply owns_ret; reflexivity
  | |- owns _ _ (hbind _ _) => apply owns_hbind; [|intros; split; reflexivity|intros]
  | |- owns _ _ (open_socket _) => apply owns_open_socket
  | |- owns _ _ (with_socket _ _) => apply owns_with_socket_c; [intros|reflexivity]
  | |- owns _ _ (with_udp _ _) => apply owns_with_socket_c; [intros|reflexivity]
  | |- owns _ _ (with_tls _ _) => apply owns_with_socket_c; [intros|reflexivity]
  | |- owns _ _ (with_str _ _) => apply owns_with_str_c
  | |- owns _ _ (mret _) => apply owns_ret; reflexivity
  | |- owns _ _ (match ?x with _ => _ end) => destruct x
  | |- owns _ _ (take_strs ?l ≫= _) => apply (owns_first [AStrs l]); [apply owns_take_strs|intros]
  | |- owns _ _ (take_certs ?l ≫= _) => apply (owns_first [ACerts l]); [apply owns_take_certs|intros]
  | |- owns _ _ (take_str ?s ≫= _) => apply (owns_first [AStr s]); [apply owns_take_str|intros]
  | |- owns _ _ (_ ≫= _) => apply owns_after; [|intros]
  end.

Ltac owns_auto := repeat owns_step.

(** The handles the two copies look up first. *)
Definition copy_valid {W} `{SocketHeap W} (c : HostCall) (w : W) : Prop :=
  match c with StreamCopyBoth h _ | StreamCopyTo h _ _ _ _ => is_Some (heap_get h w) | _ => True end.

Section RunAll.
Context {W : Type} `{NetOs W, !SocketHeap W, !NetHost W}.
Variable fuel : nat.

Definition is_some {A} (o : option A) : nat := match o with Some _ => 1%nat | None => 0%nat end.

Lemma ignore_none {A} (m : hio W A) w r ev w' : ignore m w = Some (r, ev, w') -> r = None.
Proof. unfold ignore, mbind, hio_bind. destruct (m w) as [[[a ev1] w1]|]; [|done]. simpl. congruence. Qed.

Lemma owns_ignore {A} l (m : hio W A) : owns (fun _ => l) (fun _ => 0%nat) m -> owns (fun _ => l) is_some (ignore m).
Proof. intros Hm. by apply (owns_map l (fun _ => 0%nat)). Qed.

Lemma owns_handle l (m : hio W (net_result Z)) : owns (fun _ => l) opened m -> owns (fun _ => l) is_some (handle_result m).
Proof. intros Hm. apply (owns_map l opened); [done|]. by intros []. Qed.

Lemma owns_run_open c : opens c = true -> owns (W := W) (fun _ => args c) is_some (run fuel c).
Proof.
  destruct c; try done; intros _; simpl.
  - apply owns_handle. unfold roc_tcp_listen. owns_auto.
  - apply owns_handle. unfold roc_tcp_connect. apply (owns_first [AStr local; AStr interface]); [owns_auto|intros]. owns_auto.
  - apply owns_handle. unfold roc_unix_listen. owns_auto.
  - apply owns_handle. unfold roc_unix_connect. owns_auto.
  - apply owns_handle. unfold roc_udp_bind. owns_auto.
  - apply owns_handle, owns_accept.
  - apply (owns_map _ opened_opt); [apply owns_try_accept|]. by intros [[]|].
  - apply owns_handle. unfold roc_tls_connect. owns_auto.
  - apply owns_handle. unfold roc_tls_listen. owns_auto.
  - apply owns_handle. unfold roc_tls_wrap_client, plain_tcp. owns_auto.
  - apply owns_handle. unfold roc_tls_wrap_server, plain_tcp. owns_auto.
  - apply owns_handle. apply (owns_then2 [AHandle socket]). unfold wire_of. owns_auto.
Qed.

Lemma owns_run_other c :
  opens c = false -> match c with StreamCopyBoth _ _ | StreamCopyTo _ _ _ _ _ => False | _ => True end ->
  owns (W := W) (fun _ => args c) is_some (run fuel c).
Proof.
  destruct c; try done; intros _ _; simpl; apply owns_ignore; try by (apply owns_read_to_list).
  - unfold roc_listener_close. owns_auto.
  - unfold roc_socket_try_read. owns_auto.
  - unfold roc_socket_read. owns_auto.
  - apply (owns_then [AHandle socket]). owns_auto.
  - unfold roc_socket_shutdown. owns_auto.
  - apply (owns_map _ (fun _ => 0%nat)); [|done]. owns_auto.
  - unfold roc_socket_set_timeout. owns_auto.
  - unfold roc_socket_local_addr. owns_auto.
  - unfold roc_socket_peer_addr. owns_auto.
  - unfold roc_tcp_set_nodelay. owns_auto.
  - unfold roc_udp_connect. owns_auto.
  - apply (owns_then [AStr address; AHandle socket]). owns_auto.
  - unfold roc_udp_recv_from. owns_auto.
  - unfold roc_udp_recv. owns_auto.
  - unfold roc_udp_set_broadcast. owns_auto.
  - unfold roc_udp_multicast. owns_auto.
  - unfold roc_dns_resolve. owns_auto.
  - unfold roc_tls_handshake. owns_auto.
  - unfold roc_tls_server_name. owns_auto.
  - unfold roc_tls_peer_certificates. owns_auto.
  - unfold roc_tls_peer_certificate_valid_for. owns_auto.
  - unfold roc_tls_alpn_protocol. owns_auto.
  - unfold roc_tls_ignore_unexpected_eof. owns_auto.
Qed.

Lemma bal_copies c w r ev w' :
  match c with StreamCopyBoth _ _ | StreamCopyTo _ _ _ _ _ => True | _ => False end ->
  copy_valid c w -> run fuel c w = Some (r, ev, w') -> bal (args c) (is_some r) ev.
Proof.
  destruct c as [| | | | | | | | | | | | | |a b|from to prefix limit ns| | | | | | | | | | | | | | | | | | | | | | |];
    try done; intros _ Hv; simpl in *; unfold ignore, mbind at 1, hio_bind at 1.
  - destruct (roc_stream_copy_both a b w) as [[[x ev1] w1]|] eqn:E; [|done]. intros [= <- <- <-]. rewrite app_nil_r.
    unfold roc_stream_copy_both, mbind at 1, hio_bind at 1 in E.
    match type of E with match ?m with _ => _ end = _ => destruct m as [[[y ev2] w2]|] eqn:E2; [|done] end.
    eapply bal_nested in E2; [|done|intros s s'; owns_auto].
    destruct (unwrap_or_else _ _) as [[u v] f]. injection E as <- <- <-. by rewrite app_nil_r.
  - destruct (roc_stream_copy_to from to prefix limit ns w) as [[[x ev1] w1]|] eqn:E; [|done]. intros [= <- <- <-]. rewrite app_nil_r.
    unfold roc_stream_copy_to in E. unfold mbind at 1, hio_bind at 1, lift at 1, get at 1 in E. simpl in E.
    unfold mbind at 1, hio_bind at 1 in E.
    destruct (with_socket from _ w) as [[[y ev2] w2]|] eqn:E2; [|done].
    eapply bal_nested in E2; [|done|intros s s'; owns_auto].
    unfold mbind, hio_bind, tell in E. destruct (unwrap_or_else _ _) as [u f]. simpl in E. injection E as <- <- <-.
    by apply (bal_app [AHandle from; AHandle to] [ABytes prefix] 0 0).
Qed.

(** C6: Hosted socket functions account for everything they are given, on every
    path, errors included: when a call returns it has given up (or handed
    back in its result) each handle, string and list it was passed exactly
    once, every socket slot it claimed has been filled or freed, and it has
    filled one exactly if it returns a new handle.  For the two copies the
    first handle must be a live one. *)
Theorem hosted_calls_account (c : HostCall) (w : W) r ev w' :
  copy_valid c w -> run fuel c w = Some (r, ev, w') ->
  args_of ev ≡ₚ args c /\ pending ev = 0 /\ inserted ev = is_some r /\ (opens c = false -> r = None).
Proof.
  intros Hv Hr. assert (bal (args c) (is_some r) ev) as (Ha & Hp & Hi).
  { destruct (opens c) eqn:Eo; [by eapply owns_run_open|].
    destruct c; try (by eapply owns_run_other); by eapply bal_copies. }
  split_and!; [done..|]. intros Ho. destruct c; try done; by eapply ignore_none.
Qed.

End RunAll.

(** ** An instance *)

Module ToyHost.
Import ToyNet.

(** Handle 7 is a TCP listener, 8 a TCP stream; others are invalid. *)
#[global] Instance toy_heap : SocketHeap World := {|
  heap_get h _ := if h =? 7 then Some (TcpListener 3 (mkTimeouts 0 0)) else if h =? 8 then Some (TcpStream 4) else None;
  heap_try_reserve w := (true, w);
  heap_reserve w := (true, w);
  heap_insert _ w := (9, w);
  heap_unreserve w := w;
  heap_decref _ w := w |}.

#[global] Instance toy_nethost : NetHost World := {|
  tls_client _ _ _ _ _ _ w := (Ok tt, w);
  tls_server_config _ _ _ w := (Err (err_kind InvalidInput), w);
  tls_handshake _ w := (Ok tt, w);
  tls_server_name _ w := (Ok None, w);
  tls_peer_certificates _ w := (Ok [], w);
  tls_valid_for _ _ w := (Ok true, w);
  tls_alpn_protocol _ w := (Ok None, w);
  tls_ignore_eof _ _ w := w;
  noise_new _ _ _ _ w := (Ok tt, w);
  copy_both _ _ w := ((1, 2, None), w);
  copy_to _ _ _ _ _ w := ((3, None), w);
  copy_abort _ w := w;
  parse_addr _ := None;
  parse_ip _ := None;
  tls_host_of s := s |}.

(** A listen that fails after its slot is claimed, and a copy. *)
Definition outcome_of (c : HostCall) : option (option Z * list Ev) :=
  match run 3 c start with Some (r, ev, _) => Some (r, ev) | None => None end.

Example listen_fails : outcome_of (TlsListen [1] [[2]] [[3]] 0 0 0 [4] 0) =
  Some (None, [Released (ACerts [[2]]); Released (AStrs [[3]]); Released (AStr [4]); Reserved; Unreserved; Released (AStr [1])]).
Proof. vm_compute. reflexivity. Qed.

Example copies : outcome_of (StreamCopyTo 8 5 [1] None 0) =
  Some (None, [Released (AHandle 5); Released (AHandle 8); Released (ABytes [1])]).
Proof. vm_compute. reflexivity. Qed.

End ToyHost.

Lemma hosted_calls_account_witness :
  exists r ev w', run 3 (StreamCopyTo 8 5 [1] None 0) ToyNet.start = Some (r, ev, w') /\
    args_of ev ≡ₚ [AHandle 8; AHandle 5; ABytes [1]] /\ pending ev = 0 /\ inserted ev = 0%nat.
Proof.
  eexists _, _, _. split; [reflexivity|].
  match goal with |- args_of ?ev ≡ₚ _ /\ _ =>
    destruct (hosted_calls_account 3 (StreamCopyTo 8 5 [1] None 0) ToyNet.start None ev ToyNet.start) as (Ha & Hp & Hi & _) end.
  - simpl. eexists. reflexivity.
  - reflexivity.
  - split; [exact Ha|split; [exact Hp|exact Hi]].
Defined.
