(* ===== verification/SockOpts.v ===== *)
(** * Socket options ([src/sockopts.rs])

    Keepalive, buffer sizes and the credentials of a Unix peer: hosted
    functions like those of [NetHosted.v], over the system's option calls. *)
From S2P Require Import Prelude TaskProto Io Sockets NetOps NetHosted.
Local Open Scope Z_scope.

Module SockOpts.

(** The calls, of [socket2] and of [libc]. *)
Inductive OptCall : Type -> Type :=
  | SetKeepalive (fd : Z) (on : bool) : OptCall unit
  | SetTcpKeepalive (fd idle_secs interval_secs probes : Z) : OptCall unit
  | SetBuffer (fd : Z) (receive : bool) (bytes : Z) : OptCall unit
  | BufferSize (fd : Z) (receive : bool) : OptCall Z
  (** [SO_PEERCRED]: process, user and group. *)
  | PeerCred (fd : Z) : OptCall (Z * Z * Z).

Class OptOs (W : Type) := { opt : forall {A}, OptCall A -> W -> io_result A * W }.

Record Credentials := mkCredentials { uid : Z; gid : Z; pid : Z }.

Section Options.
Context {W : Type} `{!SocketHeap W, !OptOs W}.

Definition option_call {A} (c : OptCall A) : hio W (net_result A) := lift_io (act (opt c)).

(** [with_sock] *)
Definition with_sock {A} (handle : Z) (f : Z -> hio W (net_result A)) : hio W (net_result A) :=
  with_socket handle (fun socket => f (io_parts socket)).

Definition roc_socket_set_keepalive (handle : Z) (enabled : bool) (idle_secs interval_secs probes : Z) : hio W (net_result unit) :=
  with_sock handle (fun sock =>
    if negb enabled then option_call (SetKeepalive sock false)
    else if (idle_secs =? 0) || (interval_secs =? 0) || (probes =? 0) then fail (NetIo (err_kind InvalidInput))
    else option_call (SetTcpKeepalive sock idle_secs interval_secs probes)).

Definition I32_MAX : Z := 2147483647.

Definition roc_socket_set_buffer_size (handle which bytes : Z) : hio W (net_result unit) :=
  let bytes := Z.min bytes I32_MAX in
  with_sock handle (fun sock => option_call (SetBuffer sock (which =? 0) bytes)).

Definition roc_socket_buffer_size (handle which : Z) : hio W (net_result Z) :=
  with_sock handle (fun sock => option_call (BufferSize sock (which =? 0))).

(** [peer_credentials], on Linux *)
Definition peer_credentials (fd : Z) : hio W (net_result Credentials) :=
  hbind (option_call (PeerCred fd)) (fun '(pid, uid, gid) => mret (Ok (mkCredentials uid gid (if 0 <? pid then pid else -1)))).

Definition roc_unix_peer_credentials (handle : Z) : hio W (net_result Credentials) :=
  with_socket handle (fun socket =>
    match socket with UnixStream s => peer_credentials s | _ => fail (NetIo (err_kind InvalidInput)) end).

(** ** What the system is asked *)

(** A call of one of them returns, gives up the handle once, and leaves the
    world [f] does: [f] runs on a valid handle's socket. *)
Lemma with_socket_runs {A} h (f : Socket -> hio W (net_result A)) (g : Socket -> W -> net_result A * W) :
  (forall s w, f s w = Some ((g s w).1, [], (g s w).2)) ->
  forall w, with_socket h f w =
    match heap_get h w with
    | Some s => Some ((g s w).1, [Released (AHandle h)], heap_decref h (g s w).2)
    | None => Some (Err NetOther, [Released (AHandle h)], heap_decref h w)
    end.
Proof.
  intros Hf w. unfold with_socket, release_handle, mbind, hio_bind, lift, get, act, tell, mret, hio_ret. cbn.
  destruct (heap_get h w) as [s|]; [|done]. by rewrite Hf.
Qed.

(** What [f] of the proof above is for a call to the system. *)
Definition asks {A} (c : OptCall A) (w : W) : net_result A * W := (to_net (opt c w).1, (opt c w).2).

Lemma option_call_runs {A} (c : OptCall A) w : option_call c w = Some ((asks c w).1, [], (asks c w).2).
Proof. unfold option_call, lift_io, lift, act, mbind, hio_bind, mret, hio_ret. unfold asks. by destruct (opt c w) as [[] ?]. Qed.

(** Options are set as asked or not at all: every call gives up its handle
    once; with an invalid one nothing is asked of the system; keepalive is
    turned on only with all three numbers above zero, and the system is asked
    nothing otherwise; a buffer size the system is asked for fits an [i32],
    and is the one given where that does; a peer's process is a positive
    number or -1, and only Unix streams are asked. *)
Theorem options_asked h w :
  (forall on idle interval probes, exists r w', roc_socket_set_keepalive h on idle interval probes w = Some (r, [Released (AHandle h)], w') /\
     (forall s, heap_get h w = Some s -> on = true -> idle = 0 \/ interval = 0 \/ probes = 0 -> is_ok r = false /\ w' = heap_decref h w) /\
     (forall s, heap_get h w = Some s -> on = true -> 0 < idle -> 0 < interval -> 0 < probes ->
        (r, w') = (to_net (opt (SetTcpKeepalive (io_parts s) idle interval probes) w).1, heap_decref h (opt (SetTcpKeepalive (io_parts s) idle interval probes) w).2))) /\
  (forall which bytes, 0 <= bytes -> exists r w' n, roc_socket_set_buffer_size h which bytes w = Some (r, [Released (AHandle h)], w') /\
     0 <= n <= I32_MAX /\ (bytes <= I32_MAX -> n = bytes) /\
     forall s, heap_get h w = Some s -> (r, w') = (to_net (opt (SetBuffer (io_parts s) (which =? 0) n) w).1, heap_decref h (opt (SetBuffer (io_parts s) (which =? 0) n) w).2)) /\
  (exists r w', roc_unix_peer_credentials h w = Some (r, [Released (AHandle h)], w') /\
     (forall c, r = Ok c -> 0 < pid c \/ pid c = -1) /\
     (forall s, heap_get h w = Some s -> (forall c, s <> UnixStream c) -> is_ok r = false /\ w' = heap_decref h w)) /\
  (heap_get h w = None -> forall on idle interval probes which bytes,
     roc_socket_set_keepalive h on idle interval probes w = Some (Err NetOther, [Released (AHandle h)], heap_decref h w) /\
     roc_socket_set_buffer_size h which bytes w = Some (Err NetOther, [Released (AHandle h)], heap_decref h w) /\
     roc_socket_buffer_size h which w = Some (Err NetOther, [Released (AHandle h)], heap_decref h w) /\
     roc_unix_peer_credentials h w = Some (Err NetOther, [Released (AHandle h)], heap_decref h w)).
Proof.
  assert (forall on idle interval probes s w, (if negb on then option_call (SetKeepalive (io_parts s) false)
    else if (idle =? 0) || (interval =? 0) || (probes =? 0) then fail (NetIo (err_kind InvalidInput))
    else option_call (SetTcpKeepalive (io_parts s) idle interval probes)) w =
    let x := (if negb on then asks (SetKeepalive (io_parts s) false) w
      else if (idle =? 0) || (interval =? 0) || (probes =? 0) then (Err (NetIo (err_kind InvalidInput)), w)
      else asks (SetTcpKeepalive (io_parts s) idle interval probes) w) in Some (x.1, [], x.2)) as Hk.
  { intros. destruct (negb on); [apply option_call_runs|]. destruct (_ || _); [done|apply option_call_runs]. }
  assert (forall s w, match s with UnixStream c => peer_credentials c | _ => fail (NetIo (err_kind InvalidInput)) end w =
    let x := match s with
             | UnixStream c => (match (asks (PeerCred c) w).1 with Ok (p, u, g) => Ok (mkCredentials u g (if 0 <? p then p else -1)) | Err e => Err e end, (asks (PeerCred c) w).2)
             | _ => (Err (NetIo (err_kind InvalidInput)), w) end in Some (x.1, [], x.2)) as Hc.
  { intros s w0. destruct s; try done. unfold peer_credentials, hbind, mbind, hio_bind. rewrite option_call_runs.
    by destruct (asks (PeerCred c) w0) as [[[[p u] g]|e] w1]. }
  split_and!.
  - intros. unfold roc_socket_set_keepalive, with_sock. rewrite (with_socket_runs h _ _ (Hk on idle interval probes)).
    destruct (heap_get h w) as [s|]; [|eexists _, _; split_and!; [done|discriminate..]].
    eexists _, _. split; [done|]. split.
    + intros ? [= <-] -> Hz. cbn [negb]. replace ((idle =? 0) || (interval =? 0) || (probes =? 0)) with true by lia. done.
    + intros ? [= <-] -> Hi Hv Hp. cbn [negb]. replace ((idle =? 0) || (interval =? 0) || (probes =? 0)) with false by lia. done.
  - intros which bytes Hb. unfold roc_socket_set_buffer_size, with_sock.
    rewrite (with_socket_runs h _ (fun s w => asks (SetBuffer (io_parts s) (which =? 0) (Z.min bytes I32_MAX)) w)) by (intros; apply option_call_runs).
    destruct (heap_get h w) as [s|]; eexists _, _, (Z.min bytes I32_MAX); (split; [done|]); (split; [unfold I32_MAX; lia|]); (split; [lia|]); [|done].
    by intros ? [= <-].
  - unfold roc_unix_peer_credentials. rewrite (with_socket_runs h _ _ Hc).
    destruct (heap_get h w) as [s|]; [|eexists _, _; split_and!; [done|discriminate..]].
    eexists _, _. split; [done|]. split.
    + intros c. destruct s; try discriminate. cbn [fst]. destruct (asks _ w) as [[[[p u] g]|e] w1]; cbn [fst]; [|discriminate].
      intros [= <-]. cbn [pid]. destruct (Z.ltb_spec 0 p); [by left|by right].
    + intros ? [= <-] Hs. destruct s; try done. by destruct (Hs c).
  - intros Hn on idle interval probes which bytes. unfold roc_socket_set_keepalive, roc_socket_set_buffer_size, roc_socket_buffer_size, roc_unix_peer_credentials, with_sock.
    rewrite (with_socket_runs h _ _ (Hk on idle interval probes)), (with_socket_runs h _ _ Hc),
      (with_socket_runs h _ (fun s w => asks (SetBuffer (io_parts s) (which =? 0) (Z.min bytes I32_MAX)) w)) by (intros; apply option_call_runs).
    rewrite (with_socket_runs h _ (fun s w => asks (BufferSize (io_parts s) (which =? 0)) w)) by (intros; apply option_call_runs). by rewrite Hn.
Qed.

End Options.

(** A system that notes what it is asked; handle 8 is a TCP stream. *)
Module Toy.
Definition World : Type := list (Z * Z).
#[export] Instance toy_opts : OptOs World := {|
  opt A c w := match c in OptCall A return io_result A * World with
               | SetKeepalive fd _ => (Ok tt, w ++ [(fd, 0)])
               | SetTcpKeepalive fd i _ _ => (Ok tt, w ++ [(fd, i)])
               | SetBuffer fd _ n => (Ok tt, w ++ [(fd, n)])
               | BufferSize _ _ => (Ok 4096, w)
               | PeerCred _ => (Ok (0, 1000, 100), w)
               end |}.
#[export] Instance toy_sockets : SocketHeap World := {|
  heap_get h _ := if h =? 8 then Some (TcpStream 4) else None;
  heap_try_reserve w := (true, w); heap_reserve w := (true, w); heap_insert _ w := (9, w); heap_unreserve w := w; heap_decref _ w := w |}.
End Toy.
Import Toy.

Lemma options_asked_witness :
  exists r w' n, roc_socket_set_buffer_size 8 0 (2 ^ 40) ([] : World) = Some (r, [Released (AHandle 8)], w') /\ 0 <= n <= I32_MAX /\ w' = [(4, n)].
Proof.
  destruct (options_asked 8 ([] : World)) as (_ & H & _). destruct (H 0 (2 ^ 40) ltac:(lia)) as (r & w' & n & E & Hn & _ & Ha).
  exists r, w', n. split; [exact E|]. split; [exact Hn|]. by specialize (Ha _ eq_refl) as [= _ ->].
Defined.

End SockOpts.
