(* ===== verification/RocList.v ===== *)
(** * Reading into a list Roc already has ([src/net.rs], [fill_list])

    Roc lists share allocations: a list is a view of an allocation, and the
    allocation counts the lists that refer to it.  Reading into a list reuses
    its allocation when nobody else can see it.  The store of allocations is
    explicit here, since what matters is what other lists see. *)
From S2P Require Import Prelude.

Module RocList.

(** An allocation: its bytes, as many as its capacity, and its reference
    count ([None] for static data, which is never counted or freed). *)
Record Alloc := mkAlloc { bytes : list Z; refs : option nat }.

(** [RocListWith]: where its elements are, and whether it is a slice of
    another list. *)
Record List := mkList { alloc : option nat; off : nat; len : nat; seamless : bool }.

Definition empty : List := mkList None 0 0 false.

Abbreviation store := (gmap nat Alloc).

Definition as_slice (h : store) (l : List) : list Z :=
  match alloc l with
  | Some p => match h !! p with Some a => take (len l) (drop (off l) (bytes a)) | None => [] end
  | None => []
  end.

(** [capacity_or_alloc_ptr >> 1], of a whole list. *)
Definition capacity (h : store) (l : List) : nat :=
  match alloc l with Some p => match h !! p with Some a => length (bytes a) | None => 0 end | None => 0 end.

Definition has_one_ref (h : store) (l : List) : bool :=
  match alloc l with Some p => match h !! p with Some a => bool_decide (refs a = Some 1) | None => false end | None => false end.

(** [decref]: the last reference frees the allocation. *)
Definition decref (h : store) (l : List) : store :=
  match alloc l with
  | Some p =>
      match h !! p with
      | Some (mkAlloc b (Some n)) => if n =? 1 then delete p h else <[p := mkAlloc b (Some (n - 1))]> h
      | _ => h
      end
  | None => h
  end.

(** [copy_nonoverlapping] of [new] at [at_] of an allocation's bytes. *)
Definition copy_at (at_ : nat) (new old : list Z) : list Z := take at_ old ++ new ++ drop (at_ + length new) old.

(** [fill_list]: [fresh] is where the allocator puts a new allocation, whose
    bytes are whatever was there ([junk], for each capacity). *)
Definition fill_list (h : store) (l : List) (keep : bool) (new : list Z) (max fresh : nat) (junk : nat -> list Z) : store * List :=
  let kept := if keep then len l else 0 in
  let needed := kept + length new in
  if negb (seamless l) && has_one_ref h l && (needed <=? capacity h l) then
    match alloc l with
    | Some p =>
        match h !! p with
        | Some a => (<[p := mkAlloc (copy_at kept new (bytes a)) (refs a)]> h, mkList (Some p) (off l) needed (seamless l))
        | None => (h, l)
        end
    | None => (h, l)
    end
  else
    let capacity := if keep then Nat.max (Nat.max needed (kept * 2)) (kept + max) else Nat.max needed max in
    if capacity =? 0 then (decref h l, empty)
    else
      let b := copy_at kept new (copy_at 0 (take kept (as_slice h l)) (junk capacity)) in
      (decref (<[fresh := mkAlloc b (Some 1)]> h) l, mkList (Some fresh) 0 needed false).

(** A list in the store: its allocation is there, and it is within it. *)
Definition live (h : store) (l : List) : Prop :=
  match alloc l with
  | Some p => exists a, h !! p = Some a /\ off l + len l <= length (bytes a) /\ (seamless l = false -> off l = 0) /\ refs a <> Some 0
  | None => len l = 0
  end.

(** Other lists that refer to an allocation are counted, beside this one. *)
Definition counted (h : store) (l : List) (others : list List) : Prop :=
  forall p a n, alloc l = Some p -> h !! p = Some a -> refs a = Some n ->
    length (filter (fun o => alloc o = Some p) others) < n.

Lemma copy_at_slice at_ new old : at_ + length new <= length old -> take (at_ + length new) (copy_at at_ new old) = take at_ old ++ new.
Proof.
  intros H. unfold copy_at. rewrite app_assoc, take_app_length'; [done|]. rewrite length_app, length_take. lia.
Qed.

Lemma length_copy_at at_ new old : at_ + length new <= length old -> length (copy_at at_ new old) = length old.
Proof. intros H. unfold copy_at. rewrite !length_app, length_take, length_drop. lia. Qed.

Lemma has_one_ref_spec h l : has_one_ref h l = true -> exists p a, alloc l = Some p /\ h !! p = Some a /\ refs a = Some 1.
Proof.
  unfold has_one_ref. destruct (alloc l) as [p|]; [|done]. destruct (h !! p) as [a|] eqn:E; [|done].
  intros ?%bool_decide_eq_true. eauto.
Qed.

(** Dropping a reference changes nothing for the others. *)
Lemma decref_others h l o others :
  counted h l others -> o ∈ others -> as_slice (decref h l) o = as_slice h o.
Proof.
  intros Hc Ho. unfold decref. destruct (alloc l) as [p|] eqn:El; [|done].
  destruct (h !! p) as [[b [n|]]|] eqn:Ep; [|done..].
  unfold as_slice. destruct (alloc o) as [q|] eqn:Eq; [|done]. destruct (decide (q = p)) as [->|Hne].
  - specialize (Hc p _ n El Ep eq_refl).
    assert (0 < length (filter (fun o => alloc o = Some p) others)) as Hpos.
    { destruct (filter _ others) as [|x xs] eqn:Ef; [|simpl; lia]. exfalso.
      assert (o ∈ filter (fun o => alloc o = Some p) others) as Hin by (apply list_elem_of_filter; auto).
      rewrite Ef in Hin. by apply elem_of_nil in Hin. }
    destruct (Nat.eqb_spec n 1); [lia|]. by rewrite lookup_insert_eq, Ep.
  - destruct (n =? 1); [by rewrite lookup_delete_ne|by rewrite lookup_insert_ne].
Qed.

Section Fill.
Variables (h : store) (l : List) (keep : bool) (new : list Z) (max fresh : nat) (junk : nat -> list Z) (others : list List).
Hypothesis Hlive : live h l.
Hypothesis Hcount : counted h l others.
Hypothesis Hothers : forall o, o ∈ others -> live h o.
Hypothesis Hfresh : h !! fresh = None.
Hypothesis Hjunk : forall c, length (junk c) = c.

Abbreviation kept := (if keep then len l else 0).
Abbreviation kept_bytes := (if keep then as_slice h l else []).

(** In place: this is the only list over the allocation. *)
Lemma fill_in_place p a :
  alloc l = Some p -> h !! p = Some a -> refs a = Some 1 -> seamless l = false -> kept + length new <= length (bytes a) ->
  let h' := <[p := mkAlloc (copy_at kept new (bytes a)) (refs a)]> h in
  let l' := mkList (Some p) (off l) (kept + length new) (seamless l) in
  as_slice h' l' = kept_bytes ++ new /\ (forall o, o ∈ others -> as_slice h' o = as_slice h o) /\ len l' <= capacity h' l'.
Proof using Hlive Hcount.
  intros El Ep Er Es Hroom. unfold live in Hlive. rewrite El in Hlive. destruct Hlive as (a' & Ep' & Hin & Hoff & _).
  rewrite Ep in Ep'. injection Ep' as <-. rewrite (Hoff Es) in *. simpl. split_and!.
  - unfold as_slice at 1. simpl. rewrite lookup_insert_eq. simpl. rewrite drop_0, copy_at_slice by done. f_equal.
    unfold as_slice. rewrite El, Ep, (Hoff Es), drop_0. destruct keep; [done|by rewrite take_0].
  - intros o Ho. unfold as_slice. destruct (alloc o) as [q|] eqn:Eq; [|done]. destruct (decide (q = p)) as [->|Hne].
    + exfalso. specialize (Hcount p a 1 El Ep Er).
      assert (o ∈ filter (fun o => alloc o = Some p) others) as Hin2 by (apply list_elem_of_filter; auto).
      destruct (filter _ others); [by apply elem_of_nil in Hin2|simpl in Hcount; lia].
    + by rewrite lookup_insert_ne.
  - unfold capacity. simpl. rewrite lookup_insert_eq. simpl. by rewrite length_copy_at.
Qed.

Lemma kept_length : length (take kept (as_slice h l)) = kept /\ take kept (as_slice h l) = kept_bytes.
Proof using Hlive.
  unfold live in Hlive. unfold as_slice. destruct (alloc l) as [p|].
  - destruct Hlive as (a & -> & Hin & _). destruct keep; [|by rewrite take_0]. rewrite take_take, Nat.min_id.
    split; [|done]. rewrite length_take, length_drop. lia.
  - destruct keep; [rewrite Hlive|]; done.
Qed.

(** In a new allocation; [l]'s reference is given up. *)
Lemma fill_fresh c :
  kept + length new <= c ->
  let b := copy_at kept new (copy_at 0 (take kept (as_slice h l)) (junk c)) in
  let h' := decref (<[fresh := mkAlloc b (Some 1)]> h) l in
  let l' := mkList (Some fresh) 0 (kept + length new) false in
  as_slice h' l' = kept_bytes ++ new /\ (forall o, o ∈ others -> as_slice h' o = as_slice h o) /\ len l' <= capacity h' l'.
Proof using Hlive Hcount Hothers Hfresh Hjunk.
  intros Hc b h' l'. destruct kept_length as [Hkl Hkb].
  assert (length (copy_at 0 (take kept (as_slice h l)) (junk c)) = c) as Hl0
    by (rewrite length_copy_at; rewrite Hjunk; lia).
  assert (length b = c) as Hlb by (unfold b; rewrite length_copy_at; lia).
  assert (alloc l <> Some fresh) as Hne.
  { intros E. unfold live in Hlive. rewrite E in Hlive. destruct Hlive as (a & Ha & _). congruence. }
  assert (h' !! fresh = Some (mkAlloc b (Some 1))) as Hf.
  { unfold h', decref. destruct (alloc l) as [p|] eqn:El; [|by rewrite lookup_insert_eq].
    assert (p <> fresh) by congruence. destruct (_ !! p) as [[? [n|]]|]; rewrite ?lookup_insert_eq; try done.
    destruct (n =? 1); [rewrite lookup_delete_ne|rewrite lookup_insert_ne]; rewrite ?lookup_insert_eq; done. }
  split_and!.
  - unfold as_slice at 1. simpl. rewrite Hf. simpl. rewrite drop_0. unfold b. rewrite copy_at_slice by lia. f_equal.
    unfold copy_at at 1. simpl. rewrite take_app_length' by lia. by rewrite Hkb.
  - intros o Ho. unfold h'. rewrite (decref_others _ _ _ others); [|..|done].
    + unfold as_slice. destruct (alloc o) as [q|] eqn:Eq; [|done]. rewrite lookup_insert_ne; [done|].
      intros <-. specialize (Hothers o Ho). unfold live in Hothers. rewrite Eq in Hothers. destruct Hothers as (a & Ha & _). congruence.
    + intros p a n El Ep. rewrite lookup_insert_ne in Ep by congruence. by apply Hcount.
  - unfold capacity. simpl. rewrite Hf. simpl. lia.
Qed.

(** Reading into a list is safe and right: the result holds what was kept
    of the list followed by what was read; whoever else holds a list over the
    same allocation, or any other, sees no change; and every write is within
    its allocation. *)
Theorem fill_list_safe h' l' :
  fill_list h l keep new max fresh junk = (h', l') ->
  as_slice h' l' = kept_bytes ++ new /\ (forall o, o ∈ others -> as_slice h' o = as_slice h o) /\ len l' <= capacity h' l'.
Proof using Hlive Hcount Hothers Hfresh Hjunk.
  unfold fill_list. destruct (negb (seamless l) && has_one_ref h l && (kept + length new <=? capacity h l)) eqn:E.
  - apply andb_true_iff in E as [[Es%negb_true_iff Er]%andb_true_iff Hroom%Nat.leb_le].
    apply has_one_ref_spec in Er as (p & a & El & Ep & Er). unfold capacity in Hroom. rewrite El, Ep in *.
    intros [= <- <-]. by apply fill_in_place.
  - set (c := if keep then _ else _). destruct (Nat.eqb_spec c 0) as [Hc0|Hc0].
    + intros [= <- <-]. assert (kept = 0 /\ new = []) as [Hk ->].
      { unfold c in Hc0. destruct new; destruct keep; simpl in *; split; try done; lia. }
      destruct kept_length as [_ <-]. rewrite Hk. rewrite take_0. split_and!; [done| |simpl; lia].
      intros o Ho. by apply (decref_others _ _ _ others).
    + intros [= <- <-]. apply fill_fresh. unfold c. destruct keep; lia.
Qed.

End Fill.

(** Two lists over one allocation: reading into one leaves the other. *)
Lemma fill_list_safe_witness :
  let h : store := {[ 0 := mkAlloc [1;2;3;4]%Z (Some 2) ]} in
  let l := mkList (Some 0) 0 4 false in
  let o := mkList (Some 0) 1 2 true in
  let '(h', l') := fill_list h l false [9;9]%Z 8 1 (fun c => repeat 0%Z c) in
  as_slice h' l' = [9;9]%Z /\ as_slice h' o = [2;3]%Z.
Proof.
  intros h l o.
  destruct (fill_list h l false [9;9]%Z 8 1 (fun c => repeat 0%Z c)) as [h' l'] eqn:E.
  destruct (fill_list_safe h l false [9;9]%Z 8 1 (fun c => repeat 0%Z c) [o]) with h' l' as (H1 & H2 & _).
  - exists (mkAlloc [1;2;3;4]%Z (Some 2)). repeat split; simpl; auto.
  - intros p a n [= <-] [= <-] [= <-]. simpl. auto.
  - intros x ->%list_elem_of_singleton. exists (mkAlloc [1;2;3;4]%Z (Some 2)). repeat split; simpl; auto; discriminate.
  - reflexivity.
  - intros c. apply repeat_length.
  - exact E.
  - split; [exact H1|]. rewrite (H2 o); [reflexivity|]. apply list_elem_of_singleton. reflexivity.
Defined.

End RocList.
