(* ===== verification/Copy.v ===== *)
(** * Copying between streams ([src/copy.rs])

    One direction of a copy, through a buffer ([buffered]) or through a pipe
    ([splice]), and [copy_to].  What the two streams do is behind [Ops]: wait
    for data, read what has arrived, write everything, and the two halves of
    [splice].  [OpsLaws] says what they promise, in terms of the bytes taken
    from one stream, those in the pipe, and those the other has taken. *)
From S2P Require Import Prelude TaskProto Io Sockets NetOps.
Local Open Scope Z_scope.
Local Open Scope roc_scope.

Module Copy.

Definition BUFFER : nat := Z.to_nat (16 * 1024).
Definition LARGE_BUFFER : nat := Z.to_nat (64 * 1024).
Definition CHUNK : nat := Z.to_nat (64 * 1024).
#[global] Arguments BUFFER : simpl never.
#[global] Arguments LARGE_BUFFER : simpl never.
#[global] Arguments CHUNK : simpl never.

(** The streams of one direction, [from] and [to]. *)
Record Ops (W : Type) := mkOps {
  (** [wait_readable(from, by)] *)
  o_wait : deadline -> W -> io_result unit * W;
  (** [read_now(from, ..)] of at most so many bytes *)
  o_read : nat -> W -> io_result (option (list Z)) * W;
  (** [write_all(to, ..)] *)
  o_write : list Z -> W -> io_result unit * W;
  (** Whether both are plain streams, which can be spliced. *)
  o_plain : bool;
  (** A pipe, new or spare; [false] if none can be made. *)
  o_pipe : W -> bool * W;
  (** [splice] from [from] into the pipe, and from the pipe to [to] (retried
      under the write timeout). *)
  o_splice_in : nat -> W -> io_result nat * W;
  o_splice_out : nat -> W -> io_result nat * W;
}.
#[global] Arguments o_wait {W}.
#[global] Arguments o_read {W}.
#[global] Arguments o_write {W}.
#[global] Arguments o_plain {W}.
#[global] Arguments o_pipe {W}.
#[global] Arguments o_splice_in {W}.
#[global] Arguments o_splice_out {W}.

(** [Shared]'s counters, which the other direction changes too. *)
Class SharedCounters (W : Type) := {
  progress : W -> Z;
  writers : W -> Z;
  add_writers : Z -> W -> W;
  add_progress : W -> W;
}.

(** [read_err] and [write_err] *)
Definition read_err (side : Side) (e : IoError) : CopyErr := if is_cancelled_error e then CopyCancelled else CopyRead side e.
Definition write_err (side : Side) (e : IoError) : CopyErr := if is_cancelled_error e then CopyCancelled else CopyWrite side e.

(** [Ended] *)
Inductive Ended := Eof | Limit.

(** [cap] *)
Definition cap (len : nat) (total : Z) (end_at : option Z) : nat :=
  match end_at with
  | None => len
  | Some e => Z.to_nat (Z.min (saturating_sub e total) (Z.of_nat len))
  end.

Section Loops.
Context {W : Type} `{Sched W, !SharedCounters W} (ops : Ops W) (sides : Side * Side) (deadline : deadline).

(** [wait_for_data] *)
Fixpoint wait_for_data (fuel : nat) : io W (result unit CopyErr) :=
  match fuel with
  | O => fun _ => None
  | S fuel =>
      seen ← get progress;
      r ← act (o_wait ops deadline);
      match r with
      | Ok _ => mret (Ok tt)
      | Err e =>
          late ← get (fun w => past deadline (now w));
          moved ← get (fun w => negb (progress w =? seen) || (0 <? writers w));
          if is_kind TimedOutKind e && late then mret (Err MessageTimeout)
          else if is_kind TimedOutKind e && moved then wait_for_data fuel
          else mret (Err (read_err sides.1 e))
      end
  end.

(** [writing] *)
Definition writing {A} (write : io W A) : io W A :=
  _ ← act (fun w => (tt, add_writers 1 w));
  r ← write;
  _ ← act (fun w => (tt, add_progress (add_writers (-1) w)));
  mret r.

Definition reached (total : Z) (end_at : option Z) : bool := match end_at with Some e => e <=? total | None => false end.

(** [buffered]; [buf] is the size of the buffer held, 0 for none. *)
Fixpoint buffered (fuel inner : nat) (total : Z) (end_at : option Z) (buf : nat) : io W (result Ended CopyErr * Z) :=
  match fuel with
  | O => fun _ => None
  | S fuel =>
      if reached total end_at then mret (Ok Limit, total)
      else
        late ← get (fun w => past deadline (now w));
        if late : bool then mret (Err MessageTimeout, total)
        else
          r ← (if (buf =? 0)%nat then wait_for_data inner else mret (Ok tt));
          match r with
          | Err e => mret (Err e, total)
          | Ok _ =>
              let buf := if (buf =? 0)%nat then BUFFER else buf in
              r ← act (o_read ops (cap buf total end_at));
              match r with
              | Err e => mret (Err (read_err sides.1 e), total)
              | Ok None => buffered fuel inner total end_at 0
              | Ok (Some []) => mret (Ok Eof, total)
              | Ok (Some bytes) =>
                  r ← writing (act (o_write ops bytes));
                  match r with
                  | Err e => mret (Err (write_err sides.2 e), total)
                  | Ok _ =>
                      let n := length bytes in
                      buffered fuel inner (u64_add total (Z.of_nat n)) end_at
                        (if (n =? buf)%nat && (n <? LARGE_BUFFER)%nat then LARGE_BUFFER else buf)
                  end
              end
          end
  end.

(** Draining the pipe: [while left > 0]. *)
Fixpoint drain (fuel : nat) (left : nat) : io W (io_result unit) :=
  match left with
  | O => mret (Ok tt)
  | _ =>
      match fuel with
      | O => fun _ => None
      | S fuel =>
          m <-? act (o_splice_out ops left);
          if (m =? 0)%nat then mret (Err (err_kind WriteZero)) else drain fuel (left - m)
      end
  end.

Definition EINVAL : Z := 22.
Definition ENOSYS : Z := 38.
Definition EOPNOTSUPP : Z := 95.

(** [unsupported] *)
Definition unsupported (e : IoError) : bool :=
  match raw_os_error e with Some n => existsb (Z.eqb n) [EINVAL; ENOSYS; EOPNOTSUPP] | None => false end.

(** [splice::copy]: [None] to go on with [buffered]; the pipe is held or not;
    [spliced] is whether any bytes have been.  [piped w] is what the pipe
    holds; the last component is what each pipe given back to the pool held. *)
Fixpoint splice (piped : W -> list Z) (fuel inner : nat) (total : Z) (end_at : option Z) (held spliced : bool) (given : list (list Z))
  : io W (option (result Ended CopyErr) * Z * list (list Z)) :=
  match fuel with
  | O => fun _ => None
  | S fuel =>
      p ← get piped;
      let back := if held then given ++ [p] else given in
      if reached total end_at then mret (Some (Ok Limit), total, back)
      else
        late ← get (fun w => past deadline (now w));
        if late : bool then mret (Some (Err MessageTimeout), total, given)
        else
          r ← (if held then mret (Ok true)
               else (r ← wait_for_data inner;
                     match r with
                     | Err e => mret (Err e)
                     | Ok _ => ok ← act (o_pipe ops); mret (Ok ok)
                     end));
          match r with
          | Err e => mret (Some (Err e), total, given)
          | Ok false => mret (None, total, given)
          | Ok true =>
              r ← act (o_splice_in ops (cap CHUNK total end_at));
              p ← get piped;
              match r with
              | Err e =>
                  if is_kind WouldBlock e then splice piped fuel inner total end_at false spliced (given ++ [p])
                  else if negb spliced && unsupported e then mret (None, total, given)
                  else mret (Some (Err (read_err sides.1 e)), total, given)
              | Ok 0%nat => mret (Some (Ok Eof), total, given ++ [p])
              | Ok n =>
                  r ← writing (drain inner n);
                  match r with
                  | Err e => mret (Some (Err (write_err sides.2 e)), total, given)
                  | Ok _ => splice piped fuel inner (u64_add total (Z.of_nat n)) end_at true true given
                  end
              end
          end
  end.

(** [one_way] *)
Definition one_way (piped : W -> list Z) (fuel : nat) (total : Z) (end_at : option Z) : io W (result Ended CopyErr * Z) :=
  if o_plain ops then
    r ← splice piped fuel fuel total end_at false false [];
    match r with
    | (Some result, total, _) => mret (result, total)
    | (None, total, _) => buffered fuel fuel total end_at 0
    end
  else buffered fuel fuel total end_at 0.

End Loops.

(** [copy_to] *)
Definition copy_to {W} `{Sched W, !SharedCounters W} (ops : Ops W) (piped : W -> list Z) (fuel : nat) (prefix : list Z)
    (limit : option Z) (deadline : deadline) : io W (Z * option CopyErr) :=
  r ← (match prefix with [] => mret (Ok tt) | _ => act (o_write ops prefix) end);
  match r with
  | Err e => mret (0, Some (write_err SideB e))
  | Ok _ =>
      let total := Z.of_nat (length prefix) in
      let end_at := option_map (fun n => u64_add total n) limit in
      r ← one_way ops (SideA, SideB) deadline piped fuel total end_at;
      mret (match r with
            | (Ok Eof, total) => (total, match end_at with Some _ => Some (CopyRead SideA (err_kind UnexpectedEof)) | None => None end)
            | (Ok Limit, total) => (total, None)
            | (Err e, total) => (total, Some e)
            end)
  end.

(** ** What the streams promise *)

Section Spec.
Context {W : Type} `{Sched W, !SharedCounters W}.

(** The bytes taken from [from], those [to] has taken, and the pipe's. *)
Variables taken sent piped : W -> list Z.

Definition same (w w' : W) : Prop := taken w' = taken w /\ sent w' = sent w /\ piped w' = piped w.

Class OpsLaws (ops : Ops W) : Prop := {
  law_wait : forall d w, same w (o_wait ops d w).2;
  law_read : forall n w, match o_read ops n w with
    | (Ok (Some bs), w') => (length bs <= n)%nat /\ taken w' = taken w ++ bs /\ sent w' = sent w /\ piped w' = piped w
    | (_, w') => same w w' end;
  law_write : forall d w, match o_write ops d w with
    | (Ok _, w') => sent w' = sent w ++ d /\ taken w' = taken w /\ piped w' = piped w
    | (Err _, w') => (exists k, sent w' = sent w ++ take k d) /\ taken w' = taken w /\ piped w' = piped w end;
  (** A pipe from the pool is as empty as a new one. *)
  law_pipe : forall w, match o_pipe ops w with
    | (true, w') => taken w' = taken w /\ sent w' = sent w /\ piped w' = []
    | (false, w') => same w w' end;
  law_in : forall n w, match o_splice_in ops n w with
    | (Ok m, w') => exists bs, length bs = m /\ (m <= n)%nat /\ taken w' = taken w ++ bs /\ piped w' = piped w ++ bs /\ sent w' = sent w
    | (Err _, w') => same w w' end;
  law_out : forall n w, match o_splice_out ops n w with
    | (Ok m, w') => (m <= n)%nat /\ sent w' = sent w ++ take m (piped w) /\ piped w' = drop m (piped w) /\ taken w' = taken w
    | (Err _, w') => same w w' end;
  law_writers : forall n w, same w (add_writers n w);
  law_progress : forall w, same w (add_progress w);
}.

Context (ops : Ops W) `{!OpsLaws ops} (sides : Side * Side) (deadline : deadline).

(** *** One direction

    [D] was delivered and counted; [c] is a last chunk read whose delivery
    failed, of which [to] may have taken a part.  It is the bytes of one read
    (or one [splice] into the pipe), made after all of [D] was delivered. *)
Definition one_chunk (w : W) (before c : list Z) : Prop :=
  exists n w1 w2, (n <= CHUNK)%nat /\ taken w1 = taken w ++ before /\ taken w2 = taken w ++ before ++ c /\
    (o_read ops n w1 = (Ok (Some c), w2) \/ o_splice_in ops n w1 = (Ok (length c), w2)).

Record Moved (w w' : W) (total total' : Z) (end_at : option Z) (r : result Ended CopyErr) (D c : list Z) : Prop := {
  m_taken : taken w' = taken w ++ D ++ c;
  m_sent : exists k, sent w' = sent w ++ D ++ take k c;
  m_total : total' = u64_add total (Z.of_nat (length D));
  m_cut : c = [] \/ one_chunk w D c /\ exists e, r = Err (write_err sides.2 e);
  m_limit : r = Ok Limit -> reached total' end_at = true;
  m_bound : forall e, end_at = Some e -> total <= e -> e <= U64_MAX -> total + Z.of_nat (length D) + Z.of_nat (length c) <= e;
  m_late : r = Err MessageTimeout -> past deadline (now w') = true;
}.

(** A count is a [u64]. *)
Definition counts (total : Z) : Prop := 0 <= total <= U64_MAX.

Lemma u64_add_nil total : counts total -> u64_add total 0 = total.
Proof. unfold counts, u64_add, wrap, U64_MAX. intros. rewrite Z.add_0_r. apply Z.mod_small. lia. Qed.

Lemma u64_add_add a b c : u64_add (u64_add a b) c = u64_add a (b + c).
Proof. unfold u64_add, wrap. rewrite Zplus_mod_idemp_l. f_equal. lia. Qed.

Lemma u64_add_counts a b : counts (u64_add a b).
Proof. unfold counts, u64_add, wrap, U64_MAX. pose proof (Z.mod_pos_bound (a + b) (2 ^ 64)). lia. Qed.

Lemma u64_add_small a b : counts (a + b) -> u64_add a b = a + b.
Proof. unfold counts, u64_add, wrap, U64_MAX. intros. apply Z.mod_small. lia. Qed.

(** Nothing moved. *)
Lemma moved_nil w w' total end_at r :
  counts total ->
  taken w' = taken w /\ sent w' = sent w -> (r = Ok Limit -> reached total end_at = true) -> (r = Err MessageTimeout -> past deadline (now w') = true) ->
  Moved w w' total total end_at r [] [].
Proof.
  intros Hc (Ht & Hs) Hl Hm. split; simpl; try done; try (by rewrite app_nil_r); try lia; auto.
  - exists 0%nat. by rewrite app_nil_r.
  - by rewrite u64_add_nil.
Qed.

(** More, after [D1] was delivered. *)
Lemma moved_more w w1 w' total total' end_at r D1 D c :
  counts total ->
  taken w1 = taken w ++ D1 -> sent w1 = sent w ++ D1 ->
  (forall e, end_at = Some e -> total <= e -> e <= U64_MAX -> total + Z.of_nat (length D1) <= e) ->
  Moved w1 w' (u64_add total (Z.of_nat (length D1))) total' end_at r D c -> Moved w w' total total' end_at r (D1 ++ D) c.
Proof.
  intros Hc Ht Hs Hb [Mt [k Ms] Mto Mc Ml Mb Mla]. split; auto.
  - by rewrite Mt, Ht, <- !app_assoc.
  - exists k. by rewrite Ms, Hs, <- !app_assoc.
  - rewrite Mto, u64_add_add, length_app. f_equal. lia.
  - destruct Mc as [->|[(n & v1 & v2 & Hn & H1 & H2 & Ho) He]]; [by left|right]. split; [|done].
    exists n, v1, v2. rewrite H1, H2, Ht, <- !app_assoc. by split_and!.
  - intros e He Hle Hmax. rewrite length_app. specialize (Hb e He Hle Hmax). specialize (Mb e He).
    rewrite u64_add_small in Mb by (unfold counts in *; lia). lia.
Qed.

Lemma moved_from w0 w w' total total' end_at r D c :
  taken w = taken w0 -> sent w = sent w0 -> Moved w w' total total' end_at r D c -> Moved w0 w' total total' end_at r D c.
Proof. intros Ht Hs [Mt [k Ms] Mto Mc Ml Mb Mla]. unfold one_chunk in Mc. rewrite Ht in *. rewrite Hs in *. split; eauto. Qed.

(** A chunk read whose delivery failed. *)
Lemma moved_failed w w' total end_at e c k :
  counts total -> taken w' = taken w ++ c -> sent w' = sent w ++ take k c ->
  (forall e, end_at = Some e -> total <= e -> e <= U64_MAX -> total + Z.of_nat (length c) <= e) ->
  one_chunk w [] c -> Moved w w' total total end_at (Err (write_err sides.2 e)) [] c.
Proof.
  intros Hcs Ht Hs Hb Ho. split; simpl; eauto.
  - by rewrite u64_add_nil.
  - done.
  - intros e' He Hle Hm. specialize (Hb e' He Hle Hm). lia.
  - unfold write_err. by destruct (is_cancelled_error e).
Qed.

(** A chunk just read, by the call [w1] made. *)
Lemma one_chunk_read w n w1 w2 c :
  (n <= CHUNK)%nat -> taken w1 = taken w -> taken w2 = taken w1 ++ c ->
  o_read ops n w1 = (Ok (Some c), w2) \/ o_splice_in ops n w1 = (Ok (length c), w2) -> one_chunk w [] c.
Proof. intros Hn H1 H2 Ho. exists n, w1, w2. rewrite app_nil_r. simpl. split_and!; [done|congruence|congruence|done]. Qed.

Lemma cap_le len total end_at : (cap len total end_at <= len)%nat.
Proof. unfold cap, saturating_sub. destruct end_at; [lia|done]. Qed.

Lemma cap_bound n buf total end_at e :
  reached total end_at = false -> end_at = Some e -> (n <= cap buf total end_at)%nat -> total + Z.of_nat n <= e.
Proof. intros Hr -> Hn. simpl in *. unfold saturating_sub in Hn. lia. Qed.

Lemma read_err_not_timeout side e : read_err side e <> MessageTimeout.
Proof. unfold read_err. by destruct (is_cancelled_error e). Qed.

Lemma write_err_not_timeout side e : write_err side e <> MessageTimeout.
Proof. unfold write_err. by destruct (is_cancelled_error e). Qed.

Lemma wait_same fuel w r w' :
  wait_for_data ops sides deadline fuel w = Some (r, w') ->
  same w w' /\ (r = Err MessageTimeout -> past deadline (now w') = true).
Proof using OpsLaws0.
  revert w. induction fuel as [|fuel IH]; intros w; [done|]. cbn. unfold mbind, io_bind, get, act.
  pose proof (law_wait deadline w) as Hw. destruct (o_wait ops deadline w) as [[[]|e] w1]; simpl in Hw; [by intros [= <- <-]|].
  destruct (is_kind TimedOutKind e && past deadline (now w1)) eqn:El.
  - apply andb_true_iff in El as [_ El]. by intros [= <- <-].
  - destruct (is_kind TimedOutKind e && (negb (progress w1 =? progress w) || (0 <? writers w1))).
    + intros Hr. destruct (IH _ Hr) as [(Ht & Hs & Hp) Hm]. destruct Hw as (Ht' & Hs' & Hp').
      split; [|done]. split_and!; congruence.
    + intros [= <- <-]. split; [done|]. intros [= E]. by apply read_err_not_timeout in E.
Qed.

(** [writing] around an operation keeps what the counters' laws say. *)
Lemma writing_spec {A} (m : io W A) w r w' :
  writing m w = Some (r, w') ->
  exists w1 w2, same w w1 /\ m w1 = Some (r, w2) /\ same w2 w'.
Proof using OpsLaws0.
  unfold writing, mbind, io_bind, act. destruct (m (add_writers 1 w)) as [[a w2]|] eqn:E; [|done].
  intros [= <- <-]. exists (add_writers 1 w), w2. split_and!; [apply law_writers|done|].
  destruct (law_writers (-1) w2) as (? & ? & ?), (law_progress (add_writers (-1) w2)) as (? & ? & ?). split_and!; congruence.
Qed.

Lemma buffered_spec fuel inner total end_at buf w r total' w' :
  counts total -> (buf <= LARGE_BUFFER)%nat ->
  buffered ops sides deadline fuel inner total end_at buf w = Some ((r, total'), w') ->
  exists D c, Moved w w' total total' end_at r D c.
Proof using OpsLaws0.
  revert total buf w. induction fuel as [|fuel IH]; intros total buf w Hct Hbuf; [done|]. cbn [buffered].
  destruct (reached total end_at) eqn:Er; [intros [= <- <- <-]; exists [], []; by apply moved_nil|].
  unfold mbind at 1, io_bind at 1, get at 1. destruct (past deadline (now w)) eqn:Ep;
    [intros [= <- <- <-]; exists [], []; by apply moved_nil|].
  unfold mbind at 1, io_bind at 1.
  destruct ((if (buf =? 0)%nat then wait_for_data ops sides deadline inner else mret (Ok tt)) w) as [[q w1]|] eqn:Eq; [|done].
  assert (same w w1 /\ (q = Err MessageTimeout -> past deadline (now w1) = true)) as [(Ht1 & Hs1 & Hp1) Hq].
  { destruct (buf =? 0)%nat; [by eapply wait_same|]. by injection Eq as <- <-. }
  destruct q as [[]|e]; [|intros [= <- <- <-]; exists [], []; apply moved_nil; [done|by split_and!|done|intros [= ->]; by apply Hq]].
  set (b := if (buf =? 0)%nat then BUFFER else buf).
  assert (b <= LARGE_BUFFER)%nat as Hb by (unfold b, BUFFER, LARGE_BUFFER in *; case_match; lia).
  unfold mbind at 1, io_bind at 1, act at 1.
  pose proof (law_read (cap b total end_at) w1) as Hr. destruct (o_read ops _ w1) as [[[[|x bs]|]|e] w2] eqn:Eread.
  - destruct Hr as (_ & Ht2 & Hs2 & Hp2). intros [= <- <- <-]. exists [], []. rewrite app_nil_r in Ht2.
    apply moved_nil; [done|split_and!; congruence|done|done].
  - destruct Hr as (Hlen & Ht2 & Hs2 & Hp2). remember (x :: bs) as bytes eqn:Eb.
    assert (forall e, end_at = Some e -> total <= e -> e <= U64_MAX -> total + Z.of_nat (length bytes) <= e) as Hbound
      by (intros e He _ _; by eapply cap_bound).
    assert (one_chunk w [] bytes) as Hone.
    { eapply one_chunk_read; [|exact Ht1|exact Ht2|by left]. etrans; [apply cap_le|]. unfold CHUNK, LARGE_BUFFER in *. lia. }
    unfold mbind at 1, io_bind at 1. destruct (writing (act (o_write ops bytes)) w2) as [[[[]|e] w3]|] eqn:Ew; [| |done];
      apply writing_spec in Ew as (wa & wb & (Hta & Hsa & Hpa) & Hw & (Htb & Hsb & Hpb)); unfold act in Hw;
      pose proof (law_write bytes wa) as Hl; injection Hw as Hw; rewrite Hw in Hl.
    + destruct Hl as (Hl1 & Hl2 & _). intros Hrec.
      apply IH in Hrec as (D & c & HM); [|apply u64_add_counts|case_match; lia].
      exists (bytes ++ D), c. eapply (moved_more w w3); [done|congruence|congruence|done|done].
    + destruct Hl as ((k & Hl1) & Hl2 & _). intros [= <- <- <-]. exists [], bytes.
      eapply (moved_failed _ _ _ _ _ _ k); [done|congruence|congruence|done|done].
  - destruct Hr as (Ht2 & Hs2 & _). intros Hrec. apply IH in Hrec as (D & c & HM); [|done|lia]. exists D, c.
    eapply moved_from; [| |exact HM]; congruence.
  - destruct Hr as (Ht2 & Hs2 & Hp2). intros [= <- <- <-]. exists [], []. apply moved_nil; [done|split_and!; congruence|done|].
    intros [= E]. by apply read_err_not_timeout in E.
Qed.

(** Draining the pipe. *)
Lemma drain_spec fuel left w r w' :
  (left <= length (piped w))%nat -> drain ops fuel left w = Some (r, w') ->
  taken w' = taken w /\ exists k, sent w' = sent w ++ take k (piped w) /\ piped w' = drop k (piped w) /\
    (is_ok r = true -> k = left).
Proof using OpsLaws0.
  revert left w. induction fuel as [|fuel IH]; intros left w Hl; destruct left as [|left]; cbn [drain].
  - intros [= <- <-]. split; [done|]. exists 0%nat. by rewrite take_0, app_nil_r, drop_0.
  - done.
  - intros [= <- <-]. split; [done|]. exists 0%nat. by rewrite take_0, app_nil_r, drop_0.
  - unfold try_bind, mbind, io_bind, act. pose proof (law_out (S left) w) as Ho.
    destruct (o_splice_out ops (S left) w) as [[m|e] w1].
    + destruct Ho as (Hm & Hs & Hp & Ht). destruct (Nat.eqb_spec m 0) as [->|Hm0].
      * intros [= <- <-]. split; [done|]. exists 0%nat. by rewrite Hs, Hp.
      * intros Hrec. apply IH in Hrec as (Ht' & k & Hs' & Hp' & Hk); [|rewrite Hp, length_drop; lia].
        split; [congruence|]. exists (m + k)%nat. rewrite Hs', Hs, Hp, Hp', Hp, drop_drop, <- app_assoc.
        split_and!; [|done|intros Hr; specialize (Hk Hr); lia].
        f_equal. rewrite <- (take_drop m (piped w)) at 3. rewrite take_app, take_take, length_take.
        f_equal; f_equal; lia.
    + destruct Ho as (Ht & Hs & Hp). intros [= <- <-]. split; [done|]. exists 0%nat.
      by rewrite take_0, app_nil_r, drop_0.
Qed.

(** What a turn of [splice] has before it splices: a pipe, which is empty; or
    it stops. *)
Lemma splice_ready inner (held : bool) w q w1 :
  (held = true -> piped w = []) ->
  (if held then mret (Ok true)
   else (r ← wait_for_data ops sides deadline inner;
         match r with Err e => mret (Err e) | Ok _ => ok ← act (o_pipe ops); mret (Ok ok) end)) w = Some (q, w1) ->
  taken w1 = taken w /\ sent w1 = sent w /\ (q = Ok true -> piped w1 = []) /\
  (q = Err MessageTimeout -> past deadline (now w1) = true).
Proof using OpsLaws0.
  intros Hh. destruct held; [intros [= <- <-]; split_and!; auto; done|].
  unfold mbind, io_bind, act. destruct (wait_for_data ops sides deadline inner w) as [[[[]|e] w2]|] eqn:E; [| |done];
    apply wait_same in E as [(Ht & Hs & Hp) Hm].
  - pose proof (law_pipe w2) as Hl. destruct (o_pipe ops w2) as [[] w3]; intros [= <- <-]; destruct Hl as (? & ? & ?);
      split_and!; try congruence; done.
  - intros [= <- <-]. split_and!; try congruence. intros [= ->]. by apply Hm.
Qed.

Lemma splice_spec fuel inner total end_at held spliced given w r total' given' w' :
  counts total -> (held = true -> piped w = []) -> Forall (eq []) given ->
  splice ops sides deadline piped fuel inner total end_at held spliced given w = Some ((r, total', given'), w') ->
  Forall (eq []) given' /\ exists D c, Moved w w' total total' end_at (default (Ok Eof) r) D c.
Proof using OpsLaws0.
  revert total held spliced given w. induction fuel as [|fuel IH]; intros total held spliced given w Hct Hh Hg; [done|]. cbn [splice].
  unfold mbind at 1, io_bind at 1, get at 1.
  assert (Forall (eq []) (if held then given ++ [piped w] else given)) as Hback
    by (destruct held; [apply Forall_app; split; [done|]; constructor; [by rewrite Hh|done]|done]).
  destruct (reached total end_at) eqn:Er; [intros [= <- <- <- <-]; split; [done|]; exists [], []; by apply moved_nil|].
  unfold mbind at 1, io_bind at 1, get at 1. destruct (past deadline (now w)) eqn:Ep;
    [intros [= <- <- <- <-]; split; [done|]; exists [], []; by apply moved_nil|].
  unfold mbind at 1, io_bind at 1.
  match goal with |- match ?m w with _ => _ end = _ -> _ => destruct (m w) as [[q w1]|] eqn:Eq; [|done] end.
  apply splice_ready in Eq as (Ht1 & Hs1 & Hp1 & Hq); [|done].
  destruct q as [[|]|e].
  - specialize (Hp1 eq_refl). unfold mbind at 1, io_bind at 1, act at 1.
    pose proof (law_in (cap CHUNK total end_at) w1) as Hi. destruct (o_splice_in ops _ w1) as [[[|n]|e] w2] eqn:Ein.
    + destruct Hi as (bs & Hbs & _ & Ht2 & Hp2 & Hs2). apply nil_length_inv in Hbs as ->. rewrite app_nil_r in *.
      unfold mbind, io_bind, get. intros [= <- <- <- <-]. split; [apply Forall_app; split; [done|]; constructor; [congruence|done]|].
      exists [], []. eapply (moved_from w w1); [done..|]. apply moved_nil; [done|split_and!; congruence|done|done].
    + destruct Hi as (bs & Hbs & Hcap & Ht2 & Hp2 & Hs2). rewrite Hp1 in Hp2. simpl in Hp2.
      assert (forall e, end_at = Some e -> total <= e -> e <= U64_MAX -> total + Z.of_nat (length bs) <= e) as Hbound
        by (intros e He _ _; rewrite Hbs; by eapply cap_bound).
      assert (one_chunk w [] bs) as Hone
        by (eapply one_chunk_read; [apply cap_le|exact Ht1|exact Ht2|right; by rewrite Hbs]).
      unfold mbind at 1, io_bind at 1, get at 1. unfold mbind at 1, io_bind at 1.
      destruct (writing (drain ops inner (S n)) w2) as [[q2 w3]|] eqn:Ew; [|done].
      apply writing_spec in Ew as (wa & wb & (Hta & Hsa & Hpa) & Hd & (Htb & Hsb & Hpb)).
      apply drain_spec in Hd as (Htd & k & Hsd & Hpd & Hk); [|rewrite Hpa, Hp2; lia]. rewrite Hpa, Hp2 in Hsd, Hpd.
      destruct q2 as [[]|e].
      * specialize (Hk eq_refl). subst k. rewrite <- Hbs, take_ge in Hsd by lia. rewrite <- Hbs, drop_ge in Hpd by lia.
        intros Hrec. apply IH in Hrec as (Hg' & D & c & HM); [|apply u64_add_counts|congruence|done]. split; [done|].
        exists (bs ++ D), c. rewrite <- Hbs in HM. eapply (moved_more w w3); [done|congruence|congruence|done|done].
      * intros [= <- <- <- <-]. split; [done|]. exists [], bs.
        eapply (moved_failed _ _ _ _ _ _ k); [done|congruence|congruence|done|done].
    + destruct Hi as (Ht2 & Hs2 & Hp2). unfold mbind at 1, io_bind at 1, get at 1.
      destruct (is_kind WouldBlock e).
      * intros Hrec. apply IH in Hrec as (Hg' & D & c & HM); [|done|done|apply Forall_app; split; [done|]; constructor; [congruence|done]].
        split; [done|]. exists D, c. eapply moved_from; [| |exact HM]; congruence.
      * destruct (negb spliced && unsupported e); intros [= <- <- <- <-]; (split; [done|]); exists [], [];
          (apply moved_nil; [done|split; congruence|done|]); [done|]. intros [= E]. by apply read_err_not_timeout in E.
  - intros [= <- <- <- <-]. split; [done|]. exists [], []. by apply moved_nil.
  - intros [= <- <- <- <-]. split; [done|]. exists [], []. apply moved_nil; [done|done|done|]. intros [= ->]. by apply Hq.
Qed.

Lemma moved_ok w w' total total' end_at x D c : Moved w w' total total' end_at (Ok x) D c -> c = [].
Proof. intros HM. by destruct (m_cut _ _ _ _ _ _ _ _ HM) as [|[_ [e He]]]. Qed.

Lemma one_way_spec fuel total end_at w r total' w' :
  counts total ->
  one_way ops sides deadline piped fuel total end_at w = Some ((r, total'), w') ->
  exists D c, Moved w w' total total' end_at r D c.
Proof using OpsLaws0.
  intros Hct. unfold one_way. destruct (o_plain ops); [|apply buffered_spec; [done|lia]].
  unfold mbind, io_bind. destruct (splice _ _ _ _ _ _ _ _ _ _ _ w) as [[[[q t] g] w1]|] eqn:E; [|done].
  apply splice_spec in E as (_ & D1 & c1 & HM); [|done|done|done]. destruct q as [q|]; simpl in HM.
  - intros [= <- <- <-]. eauto.
  - pose proof (moved_ok _ _ _ _ _ _ _ _ HM) as ->. destruct HM as [Mt [k Ms] -> _ _ Mb _].
    intros Hb. apply buffered_spec in Hb as (D & c & HM2); [|apply u64_add_counts|lia].
    rewrite app_nil_r in *. rewrite take_nil, app_nil_r in Ms.
    exists (D1 ++ D), c. eapply moved_more; [done|exact Mt|exact Ms| |exact HM2].
    intros e He Hle Hmax. specialize (Mb e He Hle Hmax). simpl in Mb. lia.
Qed.

End Spec.

Section Results.
Context {W : Type} `{Sched W, !SharedCounters W} (taken sent piped : W -> list Z) (ops : Ops W).
Context `{!OpsLaws taken sent piped ops} (deadline : deadline).

Lemma copy_to_moves fuel prefix limit w total err w' :
  Z.of_nat (length prefix) <= U64_MAX ->
  (forall n, limit = Some n -> 0 <= n /\ Z.of_nat (length prefix) + n <= U64_MAX) ->
  copy_to ops piped fuel prefix limit deadline w = Some ((total, err), w') ->
  (total = 0 /\ prefix <> [] /\ taken w' = taken w /\ (exists k, sent w' = sent w ++ take k prefix) /\
     exists e, err = Some (write_err SideB e)) \/
  exists D c k,
    taken w' = taken w ++ D ++ c /\ sent w' = sent w ++ prefix ++ D ++ take k c /\
    total = u64_add (Z.of_nat (length prefix)) (Z.of_nat (length D)) /\
    (c = [] \/ one_chunk taken ops w D c /\ exists e, err = Some (write_err SideB e)) /\
    (forall n, limit = Some n -> Z.of_nat (length D) + Z.of_nat (length c) <= n) /\
    (err = None -> c = [] /\ forall n, limit = Some n -> Z.of_nat (length D) = n) /\
    (err = Some MessageTimeout -> past deadline (now w') = true).
Proof using OpsLaws0.
  intros Hpl Hlim. unfold copy_to, mbind at 1, io_bind at 1.
  assert (forall q w1, (match prefix with [] => mret (Ok tt) | _ => act (o_write ops prefix) end) w = Some (q, w1) ->
    taken w1 = taken w /\ match q with Ok _ => sent w1 = sent w ++ prefix | Err _ => prefix <> [] /\ exists k, sent w1 = sent w ++ take k prefix end)
    as Hpre.
  { intros q w1. destruct prefix as [|x prefix]; [intros [= <- <-]; by rewrite app_nil_r|]. unfold act.
    pose proof (law_write taken sent piped (x :: prefix) w) as Hl. destruct (o_write ops (x :: prefix) w) as [[[]|e] w2]; intros [= <- <-]; destr; eauto. }
  destruct ((match prefix with [] => mret (Ok tt) | _ => act (o_write ops prefix) end) w) as [[q w1]|]; [|done].
  destruct (Hpre _ _ eq_refl) as [Ht1 Hs1]. destruct q as [[]|e].
  2:{ intros [= <- <- <-]. left. destruct Hs1. split_and!; eauto. }
  intros Hc. right. unfold mbind at 1, io_bind at 1 in Hc.
  destruct (one_way _ _ _ _ _ _ _ w1) as [[[r t] w2]|] eqn:Eo; [|done].
  assert (w' = w2) as -> by (destruct r as [[]|]; unfold mret, io_ret in Hc; congruence).
  apply (one_way_spec taken sent piped) in Eo as (D & c & [Mt [k Ms] Mto Mc Ml Mb Mla]); [|done|unfold counts; lia].
  exists D, c, k.
  assert (forall n, limit = Some n -> u64_add (Z.of_nat (length prefix)) n = Z.of_nat (length prefix) + n) as Hadd.
  { intros n Hn. destruct (Hlim n Hn). apply u64_add_small. unfold counts. lia. }
  assert (total = t) as -> by (destruct r as [[]|]; unfold mret, io_ret in Hc; congruence).
  assert (is_ok r = true -> c = []) as Mo by (destruct Mc as [|[_ [e ->]]]; done).
  split_and!; [congruence|rewrite Ms, Hs1; by rewrite <- app_assoc|done| | | |].
  - destruct Mc as [|[Mc [e ->]]]; [by left|right]. unfold one_chunk in *. rewrite Ht1 in Mc. split; [done|].
    injection Hc as <-. eauto.
  - intros n Hn. destruct (Hlim n Hn). rewrite Hn in Mb. simpl in Mb. specialize (Mb _ eq_refl). rewrite (Hadd n Hn) in Mb. lia.
  - intros ->. destruct r as [[]|e]; [| |done].
    + split; [by apply Mo|]. intros n ->. simpl in Hc. unfold mret, io_ret in Hc. congruence.
    + split; [by apply Mo|]. intros n Hn. rewrite Hn in *. specialize (Ml eq_refl). simpl in Ml.
      specialize (Mb _ eq_refl). rewrite (Hadd n eq_refl) in *. destruct (Hlim n eq_refl).
      rewrite (Mo eq_refl) in Mb. simpl in Mb. rewrite Mto, u64_add_small in Ml by (unfold counts; lia). lia.
  - intros ->. apply Mla. destruct r as [[]|e]; unfold mret, io_ret in Hc; [destruct limit; simpl in Hc; congruence|congruence|].
    by injection Hc as ->.
Qed.

(** C7: [Pipe.copy_to!] moves exactly the bytes asked for, when the prefix
    and the limit add up to no more than a [u64]: [to] gets the prefix, then
    what was read from [from], in order and nothing else; with a limit it
    never takes a byte past it from [from], and a success means all of them
    were copied.  The count returned (a [u64] sum) is of the prefix and the
    bytes [D] delivered, and unless writing failed [D] is every byte taken
    from [from]; when writing failed it is all of them but the chunk [c] it
    failed in, the bytes of one read or one [splice] of at most 64 KiB, of
    which [to] has a beginning.  If the prefix could not be written the count
    is 0 and nothing was taken.  A message timeout is reported only past the
    deadline. *)
Theorem copy_to_exact fuel prefix limit w total err w' :
  Z.of_nat (length prefix) <= U64_MAX ->
  (forall n, limit = Some n -> 0 <= n /\ Z.of_nat (length prefix) + n <= U64_MAX) ->
  copy_to ops piped fuel prefix limit deadline w = Some ((total, err), w') ->
  (total = 0 /\ prefix <> [] /\ taken w' = taken w /\ (exists k, sent w' = sent w ++ take k prefix) /\
     exists e, err = Some (write_err SideB e)) \/
  exists D c k,
    taken w' = taken w ++ D ++ c /\ sent w' = sent w ++ prefix ++ D ++ take k c /\
    total = u64_add (Z.of_nat (length prefix)) (Z.of_nat (length D)) /\
    (c = [] \/ one_chunk taken ops w D c /\ exists e, err = Some (write_err SideB e)) /\
    (forall n, limit = Some n -> Z.of_nat (length D) + Z.of_nat (length c) <= n) /\
    (err = None -> c = [] /\ forall n, limit = Some n -> Z.of_nat (length D) = n) /\
    (err = Some MessageTimeout -> past deadline (now w') = true).
Proof using OpsLaws0. apply copy_to_moves. Qed.

(** No bytes of one connection can turn up in another: every pipe [splice]
    gives back to the pool of spare ones is empty, however the copy ends. *)
Theorem spare_pipes_empty sides fuel inner total end_at w r total' given w' :
  0 <= total <= U64_MAX ->
  splice ops sides deadline piped fuel inner total end_at false false [] w = Some ((r, total', given), w') ->
  Forall (eq []) given.
Proof using OpsLaws0. intros Ht E. by apply (splice_spec taken sent piped) in E as [? _]. Qed.

(** A session is idle only when neither direction moves: waiting for data
    fails with the read timeout only if, during the last wait, the other
    direction made no progress and is not in the middle of a write. *)
Theorem session_idle_both_ways sides fuel side e w w' :
  wait_for_data ops sides deadline fuel w = Some (Err (CopyRead side e), w') -> kind e = TimedOutKind ->
  exists w1, o_wait ops deadline w1 = (Err e, w') /\ progress w' = progress w1 /\ writers w' <= 0.
Proof.
  intros Hr Hk. revert w Hr. induction fuel as [|fuel IH]; intros w; [done|]. cbn. unfold mbind, io_bind, get, act.
  destruct (o_wait ops deadline w) as [[[]|e1] w1] eqn:Ew; [done|].
  destruct (is_kind TimedOutKind e1 && past deadline (now w1)) eqn:El; [done|].
  destruct (is_kind TimedOutKind e1 && (negb (progress w1 =? progress w) || (0 <? writers w1))) eqn:Em; [apply IH|].
  unfold read_err. destruct (is_cancelled_error e1); [done|]. intros [= _ <- <-].
  exists w. split; [done|]. unfold is_kind in Em. rewrite bool_decide_true in Em by done. simpl in Em. lia.
Qed.

(** *** The loops stop when the streams do

    [left] counts what the stream may still do that makes a loop go round
    again: bytes that arrive, waits that time out, wake-ups with no data. *)
Class Finite (left : W -> nat) : Prop := {
  fin_wait : forall d w, match o_wait ops d w with
    | (Err e, w') => if is_kind TimedOutKind e then (left w' < left w)%nat else (left w' <= left w)%nat
    | (Ok _, w') => (left w' <= left w)%nat end;
  fin_read : forall n w, match o_read ops n w with
    | (Ok None, w') | (Ok (Some (_ :: _)), w') => (left w' < left w)%nat
    | (_, w') => (left w' <= left w)%nat end;
  fin_write : forall d w, (left (o_write ops d w).2 <= left w)%nat;
  fin_pipe : forall w, (left (o_pipe ops w).2 <= left w)%nat;
  fin_in : forall n w, match o_splice_in ops n w with
    | (Ok (S _), w') => (left w' < left w)%nat
    | (Err e, w') => if is_kind WouldBlock e then (left w' < left w)%nat else (left w' <= left w)%nat
    | (_, w') => (left w' <= left w)%nat end;
  fin_out : forall n w, (left (o_splice_out ops n w).2 <= left w)%nat;
  fin_writers : forall n w, left (add_writers n w) = left w;
  fin_progress : forall w, left (add_progress w) = left w;
}.

Definition returns {A} (left : W -> nat) (m : io W A) (w : W) : Prop := exists r w', m w = Some (r, w') /\ (left w' <= left w)%nat.

Context (left : W -> nat) `{!Finite left}.

Lemma wait_returns sides fuel w : (left w < fuel)%nat -> returns left (wait_for_data ops sides deadline fuel) w.
Proof using Finite0.
  revert w. induction fuel as [|fuel IH]; intros w Hf; [lia|]. unfold returns. cbn [wait_for_data]. unfold mbind, io_bind, get, act.
  pose proof (fin_wait deadline w) as Hw. destruct (o_wait ops deadline w) as [[[]|e] w1]; [by eexists _, _|].
  destruct (is_kind TimedOutKind e); simpl; [|by eexists _, _].
  destruct (past deadline (now w1)); [eexists _, _; split; [done|lia]|].
  destruct (negb _ || _); [|eexists _, _; split; [done|lia]].
  destruct (IH w1) as (r & w' & E & Hl); [lia|]. rewrite E. eexists _, _. split; [done|lia].
Qed.

Lemma drain_returns fuel n w : (n <= fuel)%nat -> returns left (drain ops fuel n) w.
Proof using Finite0.
  revert n w. induction fuel as [|fuel IH]; intros [|n] w Hn; [by eexists _, _|lia|by eexists _, _|].
  unfold returns. cbn [drain]. unfold try_bind, mbind, io_bind, act. pose proof (fin_out (S n) w) as Ho.
  destruct (o_splice_out ops (S n) w) as [[m|e] w1]; simpl in Ho; [|by eexists _, _].
  destruct m as [|m]; [by eexists _, _|]. destruct (IH (S n - S m)%nat w1) as (r & w' & E & Hl); [lia|].
  simpl in *. rewrite E. eexists _, _. split; [done|lia].
Qed.

Lemma writing_returns {A} (m : io W A) w : (forall w, returns left m w) -> returns left (writing m) w.
Proof using Finite0.
  intros Hm. unfold returns, writing, mbind, io_bind, act. destruct (Hm (add_writers 1 w)) as (r & w' & E & Hl). rewrite E.
  eexists _, _. split; [done|]. rewrite fin_progress, fin_writers. rewrite fin_writers in Hl. done.
Qed.

Lemma buffered_returns sides fuel inner total end_at buf w :
  (left w < fuel)%nat -> (left w < inner)%nat -> returns left (buffered ops sides deadline fuel inner total end_at buf) w.
Proof using Finite0.
  revert total buf w. induction fuel as [|fuel IH]; intros total buf w Hf Hi; [lia|]. unfold returns. cbn [buffered].
  destruct (reached total end_at); [by eexists _, _|]. unfold mbind at 1, io_bind at 1, get at 1.
  destruct (past deadline (now w)); [by eexists _, _|]. unfold mbind at 1, io_bind at 1.
  assert (returns left (if (buf =? 0)%nat then wait_for_data ops sides deadline inner else mret (Ok tt)) w) as (r & w1 & -> & Hl1).
  { destruct (buf =? 0)%nat; [by apply wait_returns|by eexists _, _]. }
  destruct r as [[]|e]; [|by eexists _, _]. unfold mbind at 1, io_bind at 1, act at 1.
  generalize (if (buf =? 0)%nat then BUFFER else buf). intros buf'. pose proof (fin_read (cap buf' total end_at) w1) as Hr.
  destruct (o_read ops _ w1) as [[[[|b bs]|]|e] w2]; [eexists _, _; split; [done|lia]| | |eexists _, _; split; [done|lia]].
  - unfold mbind at 1, io_bind at 1.
    destruct (writing_returns (act (o_write ops (b :: bs))) w2) as (r & w3 & E & Hl3).
    { intros w0. unfold returns, act. pose proof (fin_write (b :: bs) w0) as Hw. destruct (o_write ops (b :: bs) w0). by eexists _, _. }
    rewrite E. destruct r as [[]|e]; [|eexists _, _; split; [done|lia]].
    destruct (IH (u64_add total (Z.of_nat (length (b :: bs))))
      (if (length (b :: bs) =? buf')%nat && (length (b :: bs) <? LARGE_BUFFER)%nat then LARGE_BUFFER else buf') w3) as (r & w4 & E4 & Hl4); [lia..|].
    rewrite E4. eexists _, _. split; [done|lia].
  - destruct (IH total 0%nat w2) as (r & w4 & E4 & Hl4); [lia..|]. rewrite E4. eexists _, _. split; [done|lia].
Qed.

Lemma splice_returns sides fuel inner total end_at held spliced given w :
  (left w < fuel)%nat -> (left w < inner)%nat -> (CHUNK <= inner)%nat ->
  returns left (splice ops sides deadline piped fuel inner total end_at held spliced given) w.
Proof using Finite0 OpsLaws0.
  revert total held spliced given w. induction fuel as [|fuel IH]; intros total held spliced given w Hf Hi Hc; [lia|].
  assert (forall t h sp g w1, (left w1 < left w)%nat ->
    exists r w', splice ops sides deadline piped fuel inner t end_at h sp g w1 = Some (r, w') /\ (left w' <= left w)%nat) as Hrec.
  { intros t h sp g w1 Hw. destruct (IH t h sp g w1) as (r & w' & E & Hl); [lia..|]. eexists _, _. split; [done|lia]. }
  unfold returns. cbn [splice]. unfold mbind at 1, io_bind at 1, get at 1.
  destruct (reached total end_at); [by eexists _, _|]. unfold mbind at 1, io_bind at 1, get at 1.
  destruct (past deadline (now w)); [by eexists _, _|]. unfold mbind at 1, io_bind at 1.
  match goal with |- context [match ?m w with Some _ => _ | None => None end] => assert (returns left m w) as (r & w1 & -> & Hl1) end.
  { destruct held; [by eexists _, _|]. unfold returns, mbind, io_bind. destruct (wait_returns sides inner w) as (r & w1 & -> & Hl1); [done|].
    destruct r as [[]|e]; [|by eexists _, _]. unfold act. pose proof (fin_pipe w1). destruct (o_pipe ops w1). eexists _, _.
    split; [done|simpl in *; lia]. }
  destruct r as [[]|e]; [|by eexists _, _..]. unfold mbind at 1, io_bind at 1, act at 1.
  pose proof (fin_in (cap CHUNK total end_at) w1) as Hn. pose proof (law_in taken sent piped (cap CHUNK total end_at) w1) as Hb.
  destruct (o_splice_in ops _ w1) as [[[|n]|e] w2]; unfold mbind at 1, io_bind at 1, get at 1.
  - eexists _, _. split; [done|lia].
  - destruct Hb as (bs & _ & Hle & _). pose proof (cap_le CHUNK total end_at).
    unfold mbind at 1, io_bind at 1. destruct (writing_returns (drain ops inner (S n)) w2) as (r & w3 & -> & Hl3).
    { intros w0. apply drain_returns. lia. }
    destruct r as [[]|e]; [|eexists _, _; split; [done|lia]]. apply Hrec. lia.
  - destruct (is_kind WouldBlock e); [apply Hrec; lia|]. destruct (negb spliced && unsupported e); eexists _, _; (split; [done|lia]).
Qed.

(** C35: The copy ends when its streams do: every turn of its loops uses up
    something one of the streams does (bytes that arrive, a wait that ends
    with nothing to read, a read timeout while the other direction moves), so
    a stream that does finitely many of them is copied in as many turns. *)
Theorem copy_to_returns fuel prefix limit w :
  (left w < fuel)%nat -> (CHUNK <= fuel)%nat -> returns left (copy_to ops piped fuel prefix limit deadline) w.
Proof using Finite0 OpsLaws0.
  intros Hf Hc. unfold copy_to, returns, mbind at 1, io_bind at 1.
  assert (returns left (match prefix with [] => mret (Ok tt) | _ => act (o_write ops prefix) end) w) as (r & w1 & -> & Hl1).
  { destruct prefix as [|b bs]; [by eexists _, _|]. unfold returns, act. pose proof (fin_write (b :: bs) w).
    destruct (o_write ops (b :: bs) w). by eexists _, _. }
  destruct r as [[]|e]; [|by eexists _, _]. unfold mbind at 1, io_bind at 1.
  assert (returns left (one_way ops (SideA, SideB) deadline piped fuel (Z.of_nat (length prefix))
    (option_map (fun n => u64_add (Z.of_nat (length prefix)) n) limit)) w1) as (r & w2 & -> & Hl2); [|eexists _, _; split; [done|lia]].
  unfold one_way. destruct (o_plain ops); [|apply buffered_returns; lia].
  unfold returns, mbind, io_bind. destruct (splice_returns (SideA, SideB) fuel fuel (Z.of_nat (length prefix))
    (option_map (fun n => u64_add (Z.of_nat (length prefix)) n) limit) false false [] w1) as (q & w2 & -> & Hl2); [lia..|].
  destruct q as [[[q|] t] g]; [by eexists _, _|]. destruct (buffered_returns (SideA, SideB) fuel fuel t
    (option_map (fun n => u64_add (Z.of_nat (length prefix)) n) limit) 0 w2) as (q & w3 & -> & Hl3); [lia..|].
  eexists _, _. split; [done|lia].
Qed.

End Results.



(** ** A stream of five bytes *)

Module Toy.

Record World := mkWorld { t_src : list Z; t_taken : list Z; t_sent : list Z; t_pipe : list Z; t_now : Z }.

#[global] Instance copy_sched : Sched World := {|
  now := t_now;
  watch_io _ _ w := (WatchAdded, w);
  wait_suspended _ w := (Ready, w);
  consume_budget w := w |}.

#[global] Instance copy_counters : SharedCounters World := {|
  progress _ := 0; writers _ := 0; add_writers _ w := w; add_progress w := w |}.

(** Three bytes at a time. *)
Definition ops : Ops World := {|
  o_wait _ w := (Ok tt, w);
  o_read n w := let b := take (Nat.min n 3) (t_src w) in
    (Ok (Some b), mkWorld (drop (length b) (t_src w)) (t_taken w ++ b) (t_sent w) (t_pipe w) (t_now w));
  o_write d w := (Ok tt, mkWorld (t_src w) (t_taken w) (t_sent w ++ d) (t_pipe w) (t_now w));
  o_plain := true;
  o_pipe w := (true, mkWorld (t_src w) (t_taken w) (t_sent w) [] (t_now w));
  o_splice_in n w := let b := take (Nat.min n 3) (t_src w) in
    (Ok (length b), mkWorld (drop (length b) (t_src w)) (t_taken w ++ b) (t_sent w) (t_pipe w ++ b) (t_now w));
  o_splice_out n w := let k := Nat.min n 2 in
    (Ok k, mkWorld (t_src w) (t_taken w) (t_sent w ++ take k (t_pipe w)) (drop k (t_pipe w)) (t_now w)) |}.

#[global] Instance toy_copy_laws : OpsLaws t_taken t_sent t_pipe ops.
Proof.
  split; intros; cbn [ops o_wait o_read o_write o_pipe o_splice_in o_splice_out t_taken t_sent t_pipe]; unfold same; try done.
  - split_and!; [|done..]. rewrite length_take. lia.
  - exists (take (Nat.min n 3) (t_src w)). split_and!; try done. rewrite length_take. lia.
  - split_and!; [lia|done..].
Qed.

#[global] Instance toy_copy_finite : Finite ops (fun w => length (t_src w)).
Proof.
  split; intros; cbn [ops o_wait o_read o_write o_pipe o_splice_in o_splice_out t_src]; try done.
  - destruct (take (Nat.min n 3) (t_src w)) eqn:E; cbn [length]; [rewrite length_drop; lia|].
    apply (f_equal length) in E. rewrite length_take in E. rewrite length_drop. simpl in *. lia.
  - destruct (length (take (Nat.min n 3) (t_src w))) eqn:E; [rewrite length_drop; lia|].
    rewrite length_take in E. rewrite length_drop. lia.
Qed.

(** Nothing arrives before the read timeout. *)
Definition idle_ops : Ops World := {|
  o_wait _ w := (Err (err_kind TimedOutKind), w);
  o_read := o_read ops; o_write := o_write ops; o_plain := false; o_pipe := o_pipe ops;
  o_splice_in := o_splice_in ops; o_splice_out := o_splice_out ops |}.

(** Two chunks arrive, and writing the second fails after one byte of it. *)
Definition failing_ops : Ops World := {|
  o_wait := o_wait ops; o_read := o_read ops;
  o_write d w := if (length (t_sent w) <? 3)%nat then o_write ops d w
    else (Err (err_kind BrokenPipe), mkWorld (t_src w) (t_taken w) (t_sent w ++ take 1 d) (t_pipe w) (t_now w));
  o_plain := false; o_pipe := o_pipe ops; o_splice_in := o_splice_in ops; o_splice_out := o_splice_out ops |}.

#[global] Instance failing_laws : OpsLaws t_taken t_sent t_pipe failing_ops.
Proof.
  destruct toy_copy_laws. split; try done. intros d w. cbn [failing_ops o_write]. destruct (_ <? 3)%nat; [apply law_write0|].
  split_and!; [by exists 1%nat|done..].
Qed.

Definition start : World := mkWorld [1;2;3;4;5] [] [] [] 0.

End Toy.

(** Three of five bytes were delivered, and counted; two more were read, of
    which one was taken. *)
Lemma copy_to_exact_witness :
  let w' := Toy.mkWorld [] [1;2;3;4;5] [1;2;3;4] [] 0 in
  copy_to Toy.failing_ops Toy.t_pipe 4 [] None None Toy.start = Some ((3, Some (CopyWrite SideB (err_kind BrokenPipe))), w') /\
  ((3 = 0) \/ exists D c k,
    Toy.t_taken w' = D ++ c /\ Toy.t_sent w' = [] ++ D ++ take k c /\ 3 = u64_add 0 (Z.of_nat (length D)) /\
    (c = [] \/ one_chunk Toy.t_taken Toy.failing_ops Toy.start D c)).
Proof.
  intros w'. assert (copy_to Toy.failing_ops Toy.t_pipe 4 [] None None Toy.start =
    Some ((3, Some (CopyWrite SideB (err_kind BrokenPipe))), w')) as E by (vm_compute; reflexivity).
  split; [exact E|].
  destruct (copy_to_exact Toy.t_taken Toy.t_sent Toy.t_pipe Toy.failing_ops None 4 [] None Toy.start 3 (Some (CopyWrite SideB (err_kind BrokenPipe))) w') as
    [(H1 & _)|(D & c & k & H1 & H2 & H3 & H4 & _)].
  - unfold U64_MAX. simpl. lia.
  - intros n [=].
  - exact E.
  - left. exact H1.
  - right. exists D, c, k. split; [exact H1|split; [exact H2|split; [exact H3|]]].
    destruct H4 as [H4|[H4 _]]; [left; exact H4|right; exact H4].
Defined.

Lemma copy_to_returns_witness :
  exists r w', copy_to Toy.ops Toy.t_pipe (CHUNK + 6) [9] None None Toy.start = Some (r, w') /\
    (length (Toy.t_src w') <= 5)%nat.
Proof.
  destruct (copy_to_returns Toy.t_taken Toy.t_sent Toy.t_pipe Toy.ops None (fun w => length (Toy.t_src w)) (CHUNK + 6) [9] None Toy.start)
    as (r & w' & E & Hl).
  - unfold Toy.start. cbn [length Toy.t_src]. lia.
  - lia.
  - exists r, w'. split; [exact E|exact Hl].
Defined.

(** The end of the stream: the pipe goes back. *)
Lemma spare_pipes_empty_witness :
  splice Toy.ops (SideA, SideB) None Toy.t_pipe 5 5 0 None false false [] Toy.start =
    Some ((Some (Ok Eof), 5, [[]]), Toy.mkWorld [] [1;2;3;4;5] [1;2;3;4;5] [] 0) /\ Forall (eq (@nil Z)) [[]].
Proof.
  assert (splice Toy.ops (SideA, SideB) None Toy.t_pipe 5 5 0 None false false [] Toy.start =
    Some ((Some (Ok Eof), 5, [[]]), Toy.mkWorld [] [1;2;3;4;5] [1;2;3;4;5] [] 0)) as E by (vm_compute; reflexivity).
  split; [exact E|]. refine (spare_pipes_empty _ _ _ _ _ _ _ _ _ _ _ _ _ _ _ _ E). unfold U64_MAX. lia.
Defined.

(** A stream that sends nothing, and the read timeout passes. *)
Lemma session_idle_both_ways_witness :
  let e := err_kind TimedOutKind in
  wait_for_data Toy.idle_ops (SideA, SideB) None 1 Toy.start = Some (Err (CopyRead SideA e), Toy.start) /\
  exists w1, o_wait Toy.idle_ops None w1 = (Err e, Toy.start) /\ progress Toy.start = progress w1 /\ writers Toy.start <= 0.
Proof.
  intros e. assert (wait_for_data Toy.idle_ops (SideA, SideB) None 1 Toy.start = Some (Err (CopyRead SideA e), Toy.start)) as E
    by (vm_compute; reflexivity).
  split; [exact E|]. exact (session_idle_both_ways _ _ _ _ _ _ _ _ E eq_refl).
Defined.

End Copy.
