(* ===== verification/PipePool.v ===== *)
(** * The spare buffers and pipes of copies ([src/copy.rs], [spare] and [splice])

    Idle copies keep no buffer and no pipe: they give them to a pool of their
    worker thread, from which any copy on that thread takes them, so a pipe
    goes from one connection's bytes to another's.  [Copy.v] has the loop of
    one copy; here many of them share the pools, a task being on another
    thread after each wait, perhaps. *)
From stdpp Require Import functions.
From S2P Require Import Prelude Io Copy.
Local Open Scope nat_scope.

(** ** Buffers *)

Module Spare.

Definition KEEP : nat := 32.

(** [spare::buffer], with this thread's pool; the last of it is its head. *)
Definition buffer (spare : list (list Z)) : list Z * list (list Z) :=
  match spare with
  | b :: spare => (b, spare)
  | [] => (replicate Copy.BUFFER 0%Z, [])
  end.

(** [spare::give_back] *)
Definition give_back (b : list Z) (spare : list (list Z)) : list (list Z) :=
  if length b =? Copy.BUFFER then if length spare <? KEEP then b :: spare else spare else spare.

(** The threads' pools and the copies' buffers; [None] is the empty [Vec]. *)
Record Sys := mkSys { pools : nat -> list (list Z); bufs : nat -> option (list Z) }.

(** What the buffer of copy [c] goes through on thread [th]. *)
Inductive step : Sys -> Sys -> Prop :=
  | sp_take c th s : bufs s c = None ->
      step s (mkSys (<[th := (buffer (pools s th)).2]> (pools s)) (<[c := Some (buffer (pools s th)).1]> (bufs s)))
  (** A read changes bytes of it; a read that fills it makes it grow. *)
  | sp_read c b b' s : bufs s c = Some b -> length b' = length b -> step s (mkSys (pools s) (<[c := Some b']> (bufs s)))
  | sp_grow c b s : bufs s c = Some b -> length b < Copy.LARGE_BUFFER ->
      step s (mkSys (pools s) (<[c := Some (b ++ replicate (Copy.LARGE_BUFFER - length b) 0%Z)]> (bufs s)))
  | sp_give c th b s : bufs s c = Some b -> step s (mkSys (<[th := give_back b (pools s th)]> (pools s)) (<[c := None]> (bufs s)))
  (** An error drops it. *)
  | sp_drop c s : step s (mkSys (pools s) (<[c := None]> (bufs s))).

Definition sized (b : option (list Z)) : Prop :=
  match b with Some x => length x = Copy.BUFFER \/ length x = Copy.LARGE_BUFFER | None => True end.
Definition pool_ok (l : list (list Z)) : Prop := length l <= KEEP /\ Forall (fun b => length b = Copy.BUFFER) l.

Lemma insert_all {A} (Q : A -> Prop) (f : nat -> A) i x : (forall j, Q (f j)) -> Q x -> forall j, Q (<[i := x]> f j).
Proof. intros Hf Hx j. destruct (decide (i = j)) as [<-|]; [by rewrite fn_lookup_insert|by rewrite fn_lookup_insert_ne]. Qed.

(** A buffer a copy holds has one of the two sizes, so a read is never asked
    for nothing; a thread keeps at most [KEEP] spare ones, none of them
    grown. *)
Theorem spare_buffers_sized s : rtc step (mkSys (fun _ => []) (fun _ => None)) s ->
  (forall c, sized (bufs s c)) /\ (forall th, pool_ok (pools s th)).
Proof.
  intros Hr. eapply (rtc_invariant _ (fun s => (forall c, sized (bufs s c)) /\ (forall th, pool_ok (pools s th)))); [|exact Hr|].
  2: { split; [done|]. intros. split; cbn; [unfold KEEP; lia|constructor]. }
  clear s Hr. intros s s' [Hb Hp] Hs. destruct Hs as [c th s Hc|c b b' s Hc Hl|c b s Hc Hl|c th b s Hc|c s]; cbn [pools bufs].
  - destruct (Hp th) as [Hk Hf]. unfold buffer. destruct (pools s th) as [|b l]; cbn [fst snd].
    + split; (apply insert_all; [done|]); [|by split]. left. apply length_replicate.
    + apply Forall_cons in Hf as [Hb1 Hf]. cbn [length] in Hk. split; (apply insert_all; [done|]); [|split; [lia|done]]. by left.
  - split; [|done]. apply insert_all; [done|]. specialize (Hb c). rewrite Hc in Hb. cbn [sized] in *. by rewrite Hl.
  - split; [|done]. apply insert_all; [done|]. right. rewrite length_app, length_replicate. lia.
  - split; (apply insert_all; [done|]); [done|]. destruct (Hp th) as [Hk Hf]. unfold give_back.
    destruct (Nat.eqb_spec (length b) Copy.BUFFER); [|done]. destruct (Nat.ltb_spec (length (pools s th)) KEEP); [|done].
    split; [cbn [length]; lia|by constructor].
  - split; [|done]. by apply insert_all.
Qed.

End Spare.

(** ** Pipes *)

Module PipePool.

Definition KEEP_PIPES : nat := 16.

(** A copy: without a pipe, with an empty one at the top of its loop, with
    one it still has [left] bytes to get out of, or over, by an error. *)
Inductive Session := SIdle | SHeld (p : nat) | SDraining (p : nat) (left : nat) | SOver.

(** The threads' pools, what pipes hold, the number of pipes made, and for
    each copy where it is and the bytes it has spliced in and out. *)
Record Sys := mkSys {
  pools : nat -> list nat;
  content : nat -> list Z;
  made : nat;
  session : nat -> Session;
  taken : nat -> list Z;
  sent : nat -> list Z;
}.

(** [new_pipe]; [ok] is whether the system has one. *)
Definition new_pipe (ok : bool) (s : Sys) : option nat * Sys :=
  if ok then (Some (made s), mkSys (pools s) (<[made s := []]> (content s)) (S (made s)) (session s) (taken s) (sent s)) else (None, s).

(** [splice::pipe], on thread [th] *)
Definition pipe (ok : bool) (th : nat) (s : Sys) : option nat * Sys :=
  match pools s th with
  | p :: spare => (Some p, mkSys (<[th := spare]> (pools s)) (content s) (made s) (session s) (taken s) (sent s))
  | [] => new_pipe ok s
  end.

(** [splice::give_back]; a pipe that isn't kept is closed. *)
Definition give_back (th p : nat) (s : Sys) : Sys :=
  if length (pools s th) <? KEEP_PIPES then mkSys (<[th := p :: pools s th]> (pools s)) (content s) (made s) (session s) (taken s) (sent s) else s.

Definition at_ (c : nat) (x : Session) (s : Sys) : Sys :=
  mkSys (pools s) (content s) (made s) (<[c := x]> (session s)) (taken s) (sent s).

(** [splice] into the pipe, and out of it. *)
Definition splice_in (c p : nat) (bytes : list Z) (s : Sys) : Sys :=
  mkSys (pools s) (<[p := content s p ++ bytes]> (content s)) (made s) (session s) (<[c := taken s c ++ bytes]> (taken s)) (sent s).
Definition splice_out (c p m : nat) (s : Sys) : Sys :=
  mkSys (pools s) (<[p := drop m (content s p)]> (content s)) (made s) (session s) (taken s) (<[c := sent s c ++ take m (content s p)]> (sent s)).

(** The turns of [splice::copy], by copy [c] on thread [th]. *)
Inductive step : Sys -> Sys -> Prop :=
  | st_pipe c th ok s : session s c = SIdle ->
      step s (match pipe ok th s with (Some p, s) => at_ c (SHeld p) s | (None, s) => at_ c SOver s end)
  | st_in c p bytes s : session s c = SHeld p -> bytes <> [] -> step s (at_ c (SDraining p (length bytes)) (splice_in c p bytes s))
  (** Nothing now, the end of the stream, or the limit: all at the top of the
      loop, where the pipe is given back. *)
  | st_give_back c th p s : session s c = SHeld p -> step s (give_back th p (at_ c SIdle s))
  (** The kernel moves what there is, up to what is asked for. *)
  | st_out c p left m s : session s c = SDraining p left -> 0 < m <= left -> m <= length (content s p) ->
      step s (at_ c (if m =? left then SHeld p else SDraining p (left - m)) (splice_out c p m s))
  (** Any error, or going on with a buffer: the pipe is closed with what is
      in it. *)
  | st_fail c s : step s (at_ c SOver s).

Definition start : Sys := mkSys (fun _ => []) (fun _ => []) 0 (fun _ => SIdle) (fun _ => []) (fun _ => []).
Definition reachable (s : Sys) : Prop := rtc step start s.

Definition held (x : Session) : option nat := match x with SHeld p | SDraining p _ => Some p | _ => None end.

(** What a copy has in its pipe. *)
Definition inside (s : Sys) (x : Session) : list Z := match held x with Some p => content s p | None => [] end.

Definition is_over (x : Session) : bool := match x with SOver => true | _ => false end.

(** Where a pipe is. *)
Inductive Place := InPool (th : nat) | InUse (c : nat).
Definition is_at (s : Sys) (p : nat) (l : Place) : Prop :=
  match l with InPool th => p ∈ pools s th | InUse c => held (session s c) = Some p end.

(** What a copy's place in its loop says of its pipe. *)
Definition fits (x : Session) (bytes : list Z) : Prop :=
  match x with SHeld _ => bytes = [] | SDraining _ n => length bytes = n | _ => True end.

Record Inv (s : Sys) : Prop := {
  i_keep : forall th, length (pools s th) <= KEEP_PIPES /\ NoDup (pools s th);
  i_made : forall p l, is_at s p l -> p < made s;
  i_one : forall p l l', is_at s p l -> is_at s p l' -> l = l';
  i_empty : forall p th, p ∈ pools s th -> content s p = [];
  i_fits : forall c, fits (session s c) (inside s (session s c));
  i_bytes : forall c, if is_over (session s c) then exists rest, taken s c = sent s c ++ rest
                      else taken s c = sent s c ++ inside s (session s c);
}.

(** A step on copy [c] that leaves every other's pipe and bytes alone. *)
Lemma inv_of c s s' : Inv s ->
  (forall c', c' <> c -> session s' c' = session s c' /\ taken s' c' = taken s c' /\ sent s' c' = sent s c') ->
  (forall q, held (session s c) <> Some q -> q < made s -> content s' q = content s q) -> made s <= made s' ->
  (forall th, length (pools s' th) <= KEEP_PIPES /\ NoDup (pools s' th)) ->
  (forall p l, is_at s' p l -> is_at s p l \/ (p < made s' /\ forall l', is_at s' p l' -> l' = l)) ->
  (forall p th, p ∈ pools s' th -> content s' p = []) ->
  fits (session s' c) (inside s' (session s' c)) ->
  (if is_over (session s' c) then exists rest, taken s' c = sent s' c ++ rest else taken s' c = sent s' c ++ inside s' (session s' c)) ->
  Inv s'.
Proof.
  intros HI Ho Hc Hm Hk Hp He Hf Hb.
  assert (forall c', c' <> c -> inside s' (session s' c') = inside s (session s c')) as Hin.
  { intros c' Hne. destruct (Ho c' Hne) as (-> & _). unfold inside. destruct (held (session s c')) as [q|] eqn:Eq; [|done]. apply Hc.
    - intros E. by pose proof (i_one _ HI q (InUse c) (InUse c') E Eq) as [= ->].
    - exact (i_made _ HI q (InUse c') Eq). }
  split; [done|..|done| |].
  - intros p l [Hl|[? _]]%Hp; [|done]. pose proof (i_made _ HI _ _ Hl). lia.
  - intros p l l' Hl Hl'. destruct (Hp _ _ Hl) as [H1|[_ H1]]; [|by symmetry; apply H1]. destruct (Hp _ _ Hl') as [H2|[_ H2]]; [|by apply H2].
    by eapply (i_one _ HI).
  - intros c'. destruct (decide (c' = c)) as [->|Hne]; [done|]. rewrite (Hin _ Hne). destruct (Ho c' Hne) as (-> & _). apply HI.
  - intros c'. destruct (decide (c' = c)) as [->|Hne]; [done|]. rewrite (Hin _ Hne). destruct (Ho c' Hne) as (-> & -> & ->). apply (i_bytes _ HI c').
Qed.

(** The bytes of a copy that isn't over, and of one that may be. *)
Lemma bytes_open s c : Inv s -> session s c <> SOver -> taken s c = sent s c ++ inside s (session s c).
Proof. intros HI Hne. pose proof (i_bytes _ HI c) as H. by destruct (session s c). Qed.

Lemma bytes_rest s c : Inv s -> exists rest, taken s c = sent s c ++ rest.
Proof. intros HI. pose proof (i_bytes _ HI c) as H. destruct (is_over _); eauto. Qed.

Lemma inv_pipe c th ok s : session s c = SIdle -> Inv s ->
  Inv (match pipe ok th s with (Some p, s) => at_ c (SHeld p) s | (None, s) => at_ c SOver s end).
Proof.
  intros Hc HI. pose proof (bytes_open s c HI ltac:(by rewrite Hc)) as Hb. rewrite Hc in Hb. unfold inside in Hb. cbn in Hb. rewrite app_nil_r in Hb.
  assert (forall x c' p, held (<[c := x]> (session s) c') = Some p -> c' = c /\ held x = Some p \/ c' <> c /\ is_at s p (InUse c')) as Hu.
  { intros x c' p. destruct (decide (c = c')) as [<-|]; [rewrite fn_lookup_insert|rewrite fn_lookup_insert_ne by done]; auto. }
  unfold pipe. destruct (pools s th) as [|p l] eqn:El; [unfold new_pipe; destruct ok|].
  - apply (inv_of c s); cbn; rewrite ?fn_lookup_insert; unfold inside; cbn; rewrite ?fn_lookup_insert, ?app_nil_r; try done; try lia.
    + intros c' ?. by rewrite fn_lookup_insert_ne.
    + intros q _ Hq. rewrite fn_lookup_insert_ne by lia. done.
    + apply HI.
    + intros q [th'|c']; cbn; [by left|]. intros [[-> [= <-]]|[_ ?]]%Hu; [right|by left]. split; [lia|].
      intros [th'|c']; cbn; [intros H; pose proof (i_made _ HI _ (InPool th') H); lia|]. intros [[-> _]|[_ H]]%Hu; [done|]. pose proof (i_made _ HI _ _ H). lia.
    + intros q th' Hq. pose proof (i_made _ HI _ (InPool th') Hq). rewrite fn_lookup_insert_ne by lia. by apply (i_empty _ HI q th').
  - apply (inv_of c s); cbn; rewrite ?fn_lookup_insert; try done; try lia.
    + intros c' ?. by rewrite fn_lookup_insert_ne.
    + apply HI.
    + intros q [th'|c']; cbn; [by left|]. intros [[_ ?]|[_ ?]]%Hu; [done|by left].
    + apply HI.
    + exists []. by rewrite app_nil_r.
  - assert (forall q th', q ∈ <[th := l]> (pools s) th' -> q ∈ pools s th' /\ q <> p) as Hl.
    { destruct (i_keep _ HI th) as [_ Hn]. rewrite El in Hn. apply NoDup_cons in Hn as [Hn _]. intros q th'.
      destruct (decide (th = th')) as [<-|Hne]; [rewrite fn_lookup_insert, El|rewrite fn_lookup_insert_ne by done].
      - intros Hq. split; [by right|]. by intros ->.
      - intros Hq. split; [done|]. intros ->. assert (is_at s p (InPool th)) as H by (cbn; rewrite El; left). by pose proof (i_one _ HI _ _ (InPool th') H Hq) as [= ->]. }
    assert (is_at s p (InPool th)) as Hp by (cbn; rewrite El; left).
    apply (inv_of c s); cbn; rewrite ?fn_lookup_insert; unfold inside; cbn; try done; try lia.
    + intros c' ?. by rewrite fn_lookup_insert_ne.
    + intros th'. destruct (i_keep _ HI th') as [Hk Hn]. destruct (decide (th = th')) as [<-|]; [rewrite fn_lookup_insert|by rewrite fn_lookup_insert_ne].
      rewrite El in Hk, Hn. apply NoDup_cons in Hn as [_ Hn]. cbn in Hk. split; [lia|done].
    + intros q [th'|c']; cbn; [intros [? _]%Hl; by left|]. intros [[-> [= <-]]|[_ ?]]%Hu; [right|by left]. split; [by apply (i_made _ HI _ _ Hp)|].
      intros [th'|c']; cbn; [by intros [_ ?]%Hl|]. intros [[-> _]|[_ H]]%Hu; [done|]. by pose proof (i_one _ HI _ _ _ Hp H).
    + intros q th' [Hq _]%Hl. by apply (i_empty _ HI q th').
    + by apply (i_empty _ HI p th).
    + by rewrite (i_empty _ HI p th Hp), app_nil_r.
Qed.

(** The pipe stays where it is. *)
Lemma is_at_kept c x s s' p l : pools s' = pools s -> session s' = <[c := x]> (session s) -> held x = held (session s c) -> is_at s' p l -> is_at s p l.
Proof.
  intros Hp Hs Hx. destruct l as [th|c']; cbn; [by rewrite Hp|]. rewrite Hs.
  destruct (decide (c = c')) as [<-|]; [rewrite fn_lookup_insert, Hx|rewrite fn_lookup_insert_ne by done]; done.
Qed.

(** A pipe in use is in no pool. *)
Lemma in_use_alone s c p q th : Inv s -> held (session s c) = Some p -> q ∈ pools s th -> q <> p.
Proof. intros HI Hp Hq ->. by pose proof (i_one _ HI p (InUse c) (InPool th) Hp Hq). Qed.

Lemma inv_in c p bytes s : session s c = SHeld p -> Inv s -> Inv (at_ c (SDraining p (length bytes)) (splice_in c p bytes s)).
Proof.
  intros Hc HI. assert (held (session s c) = Some p) as Hp by (by rewrite Hc).
  pose proof (i_fits _ HI c) as Hf. pose proof (bytes_open s c HI ltac:(by rewrite Hc)) as Hb. unfold inside in *. rewrite Hc in Hf, Hb. cbn in Hf, Hb.
  rewrite Hf, app_nil_r in Hb. apply (inv_of c s); cbn; rewrite ?fn_lookup_insert; unfold inside; cbn; rewrite ?fn_lookup_insert; try done.
  - intros c' ?. by rewrite !fn_lookup_insert_ne.
  - intros q Hq _. rewrite fn_lookup_insert_ne; [done|congruence].
  - apply HI.
  - intros q l Hl. left. eapply is_at_kept; [..|exact Hl]; [done..|]. by rewrite Hc.
  - intros q th Hq. rewrite fn_lookup_insert_ne; [by apply (i_empty _ HI q th)|]. apply not_eq_sym. by eapply in_use_alone.
  - by rewrite Hf.
  - by rewrite Hb, Hf.
Qed.

Lemma inv_out c p n m s : session s c = SDraining p n -> 0 < m <= n -> Inv s ->
  Inv (at_ c (if m =? n then SHeld p else SDraining p (n - m)) (splice_out c p m s)).
Proof.
  intros Hc Hm HI. assert (held (session s c) = Some p) as Hp by (by rewrite Hc).
  pose proof (i_fits _ HI c) as Hf. pose proof (bytes_open s c HI ltac:(by rewrite Hc)) as Hb. unfold inside in *. rewrite Hc in Hf, Hb. cbn in Hf, Hb.
  assert (held (if m =? n then SHeld p else SDraining p (n - m)) = Some p) as Hh by (by destruct (m =? n)).
  apply (inv_of c s); cbn; rewrite ?fn_lookup_insert; unfold inside; cbn; rewrite ?fn_lookup_insert, ?Hh; try done.
  - intros c' ?. by rewrite !fn_lookup_insert_ne.
  - intros q Hq _. rewrite fn_lookup_insert_ne; [done|congruence].
  - apply HI.
  - intros q l Hl. left. eapply is_at_kept; [..|exact Hl]; [done..|]. by rewrite Hh, Hc.
  - intros q th Hq. rewrite fn_lookup_insert_ne; [by apply (i_empty _ HI q th)|]. apply not_eq_sym. by eapply in_use_alone.
  - cbn. rewrite fn_lookup_insert. destruct (Nat.eqb_spec m n) as [->|]; cbn; [apply drop_ge; lia|]. rewrite length_drop. lia.
  - rewrite fn_lookup_insert. assert (is_over (if m =? n then SHeld p else SDraining p (n - m)) = false) as -> by (by destruct (m =? n)).
    by rewrite <- app_assoc, take_drop.
Qed.

(** Without its pipe. *)
Lemma inv_let_go c x s : held x = None -> (x = SOver \/ exists p, session s c = SHeld p) -> Inv s -> Inv (at_ c x s).
Proof.
  intros Hx Hh HI. apply (inv_of c s); cbn; rewrite ?fn_lookup_insert; unfold inside; cbn; rewrite ?Hx; try done.
  - intros c' ?. by rewrite fn_lookup_insert_ne.
  - apply HI.
  - intros q [th|c']; cbn; [by left|]. destruct (decide (c = c')) as [<-|]; [rewrite fn_lookup_insert, Hx|rewrite fn_lookup_insert_ne by done]; [done|auto].
  - apply HI.
  - by destruct x.
  - destruct Hh as [->|[p Hc]]; [by apply bytes_rest|]. pose proof (bytes_open s c HI ltac:(by rewrite Hc)) as Hb. pose proof (i_fits _ HI c) as Hf.
    rewrite Hc in Hb, Hf. unfold inside in *. cbn in Hb, Hf. rewrite Hf in Hb. destruct x; try done. cbn. eauto.
Qed.

Lemma inv_give_back c th p s : session s c = SHeld p -> Inv s -> Inv (give_back th p (at_ c SIdle s)).
Proof.
  intros Hc HI. pose proof (inv_let_go c SIdle s eq_refl ltac:(eauto) HI) as H1. unfold give_back.
  destruct (Nat.ltb_spec (length (pools (at_ c SIdle s) th)) KEEP_PIPES) as [Hlt|]; [|done]. set (s1 := at_ c SIdle s) in *.
  assert (held (session s c) = Some p) as Hp by (by rewrite Hc). pose proof (i_fits _ HI c) as Hf. unfold inside in Hf. rewrite Hc in Hf. cbn in Hf.
  assert (forall l, is_at s1 p l -> False) as Hnone.
  { intros [th'|c']; cbn; intros H; [exact (in_use_alone s c p p th' HI Hp H eq_refl)|]. destruct (decide (c = c')) as [<-|]; [by rewrite fn_lookup_insert in H|].
    rewrite fn_lookup_insert_ne in H by done. by pose proof (i_one _ HI p (InUse c) (InUse c') Hp H) as [= ->]. }
  assert (forall q th', q ∈ <[th := p :: pools s1 th]> (pools s1) th' -> q = p /\ th' = th \/ q ∈ pools s1 th') as Hin.
  { intros q th'. destruct (decide (th = th')) as [<-|]; [rewrite fn_lookup_insert, elem_of_cons|rewrite fn_lookup_insert_ne by done]; naive_solver. }
  apply (inv_of c s1); cbn [pools content made session taken sent]; try done.
  - intros th'. destruct (i_keep _ H1 th') as [Hk Hn]. destruct (decide (th = th')) as [<-|]; [rewrite fn_lookup_insert|by rewrite fn_lookup_insert_ne].
    split; [cbn [length]; lia|]. apply NoDup_cons. split; [|done]. exact (Hnone (InPool th)).
  - intros q [th'|c']; cbn; [|by left]. intros [[-> ->]|?]%Hin; [right|by left]. split; [exact (i_made _ HI p (InUse c) Hp)|].
    intros [th''|c']; cbn; [intros [[_ ->]|H]%Hin; [done|by destruct (Hnone (InPool th''))]|]. intros H. by destruct (Hnone (InUse c')).
  - intros q th' [[-> _]|?]%Hin; [exact Hf|]. by eapply (i_empty _ H1).
  - apply (i_fits _ H1 c).
  - apply (i_bytes _ H1 c).
Qed.

Lemma pipe_inv_reachable s : reachable s -> Inv s.
Proof.
  intros Hr. eapply rtc_invariant; [|exact Hr|].
  - clear. intros s s' HI Hs. destruct Hs; [by apply inv_pipe|by apply inv_in|by apply inv_give_back|by apply inv_out|apply inv_let_go; auto].
  - split; cbn; try done; try (intros; by constructor).
    + intros th. split; [unfold KEEP_PIPES; lia|constructor].
    + intros p [th|c] H; [by apply elem_of_nil in H|done].
    + intros p [th|c] l' H; [by apply elem_of_nil in H|done].
Qed.

(** C28: Bytes of one connection don't get into another through a pipe that
    both used: however copies take pipes, fail and give them back, on
    whichever threads, a spare pipe is empty, no pipe is two copies' or both
    spare and in use, and what a copy has sent on is, in order, what it took
    in, less what is in its pipe now.  A thread keeps at most [KEEP_PIPES]. *)
Theorem pipes_never_mix s : reachable s ->
  (forall th, length (pools s th) <= KEEP_PIPES /\ forall p, p ∈ pools s th -> content s p = []) /\
  (forall p l l', is_at s p l -> is_at s p l' -> l = l') /\
  (forall c, exists rest, taken s c = sent s c ++ rest) /\
  (forall c, is_over (session s c) = false -> taken s c = sent s c ++ inside s (session s c)) /\
  (forall c, session s c = SIdle -> taken s c = sent s c).
Proof.
  intros HI%pipe_inv_reachable. split_and!.
  - intros th. split; [apply HI|]. intros p. apply HI.
  - apply HI.
  - intros c. by apply bytes_rest.
  - intros c Hc. apply bytes_open; [done|]. intros E. by rewrite E in Hc.
  - intros c Hc. rewrite (bytes_open s c HI) by (by rewrite Hc). rewrite Hc. apply app_nil_r.
Qed.

(** Copy 0 moves two bytes and gives its pipe back; copy 1 has it. *)
Definition with_pipe (c th : nat) (s : Sys) : Sys :=
  match pipe true th s with (Some p, s) => at_ c (SHeld p) s | (None, s) => at_ c SOver s end.
Definition demo1 : Sys := with_pipe 0 7 start.
Definition demo2 : Sys := at_ 0 (SDraining 0 (length [1; 2]%Z)) (splice_in 0 0 [1; 2]%Z demo1).
Definition demo3 : Sys := at_ 0 (if 2 =? 2 then SHeld 0 else SDraining 0 (2 - 2)) (splice_out 0 0 2 demo2).
Definition demo4 : Sys := give_back 7 0 (at_ 0 SIdle demo3).
Definition demo5 : Sys := with_pipe 1 7 demo4.
Definition reused : Sys := at_ 1 (SDraining 0 (length [3]%Z)) (splice_in 1 0 [3]%Z demo5).

Lemma reused_reachable : reachable reused.
Proof.
  apply (rtc_r _ demo5); [|apply st_in; [vm_compute; reflexivity|discriminate]].
  apply (rtc_r _ demo4); [|apply (st_pipe 1 7 true); vm_compute; reflexivity].
  apply (rtc_r _ demo3); [|apply st_give_back; vm_compute; reflexivity].
  apply (rtc_r _ demo2); [|apply (st_out 0 0 2 2); [vm_compute; reflexivity|lia|vm_compute; lia]].
  apply (rtc_r _ demo1); [|apply st_in; [vm_compute; reflexivity|discriminate]].
  apply rtc_once. apply (st_pipe 0 7 true). reflexivity.
Qed.

Lemma pipes_never_mix_witness : held (session reused 1) = Some 0 /\ taken reused 0 = sent reused 0 /\ taken reused 1 = sent reused 1 ++ inside reused (session reused 1).
Proof.
  destruct (pipes_never_mix reused reused_reachable) as (_ & _ & _ & Hb & Hi). split; [vm_compute; reflexivity|].
  split; [apply Hi; vm_compute; reflexivity|apply Hb; vm_compute; reflexivity].
Defined.

End PipePool.
