(* ===== verification/CopyBoth.v ===== *)
(** * Copying both ways ([copy_both] of [src/copy.rs])

    The caller copies A to B, a helper task B to A, and they share the first
    error and, per stream, whether the direction into it ended.  A state
    machine with a step per access to what they share: [copy_both] can
    interleave in any order.  What a direction moves is [Copy.v]'s; here it
    only ends, with the end of its stream or an error.

    Reading a stream after [stop_reading] finds its end, and so does reading a
    Unix stream after [abort], which is a [shutdown] of both ways; reading a
    TCP stream after [abort] fails.  [resets] says which it is. *)
From S2P Require Import Prelude Io Sockets NetOps.
Local Open Scope Z_scope.
Local Open Scope roc_scope.

Module CopyBoth.

(** A stream: its end was passed on ([shutdown_write]), nothing more is read
    from it ([stop_reading]), it was aborted.  [trunc]: the end passed on was
    not that of the other stream, which had only been stopped or aborted. *)
Record Stream := mkStream { shut : bool; cut : bool; aborted : bool; trunc : bool }.

(** [Shared::fail]: to lock and record, then per side to load [ended_into] and
    to stop reading or abort. *)
Inductive Fail := FLock (e : CopyErr) | FLoad (x : Side) | FAct (x : Side) (ended : bool).

(** [direction] *)
Inductive Dir := Copying | AtEof (forced : bool) | Shut | Failing (f : Fail) | Over.

(** [copy_both], on the calling task. *)
Inductive Main := Own (d : Dir) | Waiting | Stopping (f : Fail) | WaitingOn | Returned.

Record State := mkState {
  first_err : option CopyErr;
  ended_a : bool; ended_b : bool;
  a : Stream; b : Stream;
  main : Main; helper : Dir }.

(** What a direction's copying comes to, and the steps. *)
Inductive Event :=
  | MainEof | MainErr (e : CopyErr) | MainStep
  | MainCancelled
  | HelperEof | HelperErr (e : CopyErr) | HelperStep.

Definition with_main (s : State) (m : Main) : State := mkState (first_err s) (ended_a s) (ended_b s) (a s) (b s) m (helper s).
Definition with_helper (s : State) (h : Dir) : State := mkState (first_err s) (ended_a s) (ended_b s) (a s) (b s) (main s) h.
Definition with_first (s : State) (e : CopyErr) : State := mkState (Some e) (ended_a s) (ended_b s) (a s) (b s) (main s) (helper s).
Definition ended (s : State) (x : Side) : bool := match x with SideA => ended_a s | SideB => ended_b s end.
Definition stream (s : State) (x : Side) : Stream := match x with SideA => a s | SideB => b s end.
Definition with_stream (s : State) (x : Side) (st : Stream) : State :=
  match x with
  | SideA => mkState (first_err s) (ended_a s) (ended_b s) st (b s) (main s) (helper s)
  | SideB => mkState (first_err s) (ended_a s) (ended_b s) (a s) st (main s) (helper s)
  end.

(** [stop_reading], [abort] and [shutdown_write], and [Shared::ended_into]. *)
Definition stop_reading (st : Stream) : Stream := mkStream (shut st) true (aborted st) (trunc st).
Definition abort (st : Stream) : Stream := mkStream (shut st) (cut st) true (trunc st).
Definition shutdown_write (forced : bool) (st : Stream) : Stream :=
  mkStream true (cut st) (aborted st) (trunc st || (forced && negb (aborted st))).
Definition ended_into (s : State) (x : Side) : State :=
  match x with
  | SideA => mkState (first_err s) true (ended_b s) (a s) (b s) (main s) (helper s)
  | SideB => mkState (first_err s) (ended_a s) true (a s) (b s) (main s) (helper s)
  end.

(** A step of [Shared::fail]; [None] when it is done. *)
Definition fail_step (f : Fail) (s : State) : option Fail * State :=
  match f with
  | FLock e => match first_err s with Some _ => (None, s) | None => (Some (FLoad SideA), with_first s e) end
  | FLoad x => (Some (FAct x (ended s x)), s)
  | FAct x v =>
      (match x with SideA => Some (FLoad SideB) | SideB => None end,
       with_stream s x (if v then stop_reading (stream s x) else abort (stream s x)))
  end.

Section Machine.
Variable resets : Side -> bool.

(** Reading a stream finds its end: its peer's, or one forced. *)
Definition finds_eof (s : State) (x : Side) : option bool :=
  let st := stream s x in
  if aborted st && resets x then None else Some (cut st || aborted st).

(** A step of the direction into [x]. *)
Definition dir_step (x : Side) (d : Dir) (s : State) : option (Dir * State) :=
  match d with
  | AtEof forced => Some (Shut, with_stream s x (shutdown_write forced (stream s x)))
  | Shut => Some (Over, ended_into s x)
  | Failing f => let '(f', s') := fail_step f s in Some (match f' with Some f' => Failing f' | None => Over end, s')
  | Copying | Over => None
  end.

Definition own (d : Dir) : Main := match d with Over => Waiting | _ => Own d end.

Definition step (ev : Event) (s : State) : option State :=
  match ev, main s, helper s with
  | MainEof, Own Copying, _ => option_map (fun forced => with_main s (Own (AtEof forced))) (finds_eof s SideA)
  | MainErr e, Own Copying, _ => Some (with_main s (Own (Failing (FLock e))))
  | MainStep, Own d, _ => option_map (fun '(d', s') => with_main s' (own d')) (dir_step SideB d s)
  | MainStep, Waiting, Over => Some (with_main s Returned)
  | MainCancelled, Waiting, _ => Some (with_main s (Stopping (FLock CopyCancelled)))
  | MainStep, Stopping f, _ =>
      let '(f', s') := fail_step f s in
      Some (with_main s' (match f' with Some f' => Stopping f' | None => WaitingOn end))
  | MainStep, WaitingOn, Over => Some (with_main s Returned)
  | HelperEof, _, Copying => option_map (fun forced => with_helper s (AtEof forced)) (finds_eof s SideB)
  | HelperErr e, _, Copying => Some (with_helper s (Failing (FLock e)))
  | HelperStep, _, d => option_map (fun '(d', s') => with_helper s' d') (dir_step SideA d s)
  | _, _, _ => None
  end.

Definition start : State :=
  let st := mkStream false false false false in mkState None false false st st (Own Copying) Copying.

Inductive reachable : State -> Prop :=
  | reach_start : reachable start
  | reach_step s ev s' : reachable s -> step ev s = Some s' -> reachable s'.

Fixpoint run (evs : list Event) (s : State) : option State :=
  match evs with [] => Some s | ev :: evs => s' ← step ev s; run evs s' end.

Lemma run_reachable evs s s' : reachable s -> run evs s = Some s' -> reachable s'.
Proof.
  revert s. induction evs as [|ev evs IH]; intros s Hs; simpl; [by intros [= <-]|].
  destruct (step ev s) as [s1|] eqn:E; [|done]. apply IH. by econstructor.
Qed.

(** ** The invariant *)

(** How far a thread that recorded the first error has got. *)
Definition fpos (f : Fail) : option Side := match f with FLock _ => None | FLoad x | FAct x _ => Some x end.
Definition mfail (m : Main) : option Fail := match m with Own (Failing f) | Stopping f => Some f | _ => None end.
Definition hfail (h : Dir) : option Fail := match h with Failing f => Some f | _ => None end.
Definition mpos (s : State) : option Side := mfail (main s) ≫= fpos.
Definition hpos (s : State) : option Side := hfail (helper s) ≫= fpos.
Definition handled (st : Stream) : Prop := cut st = true \/ aborted st = true.

(** The direction is still at it, its end not passed on whole. *)
Definition going (d : Dir) : bool := match d with Copying | AtEof _ | Shut => true | _ => false end.
Definition m_going (m : Main) : bool := match m with Own d => going d | _ => false end.

(** A thread about to stop reading a stream has seen its incoming direction
    end. *)
Definition act_ok (f : option Fail) (ea eb : bool) : Prop :=
  match f with Some (FAct SideA true) => ea = true | Some (FAct SideB true) => eb = true | _ => True end.

Lemma act_ok_a f ea eb : act_ok f ea eb -> act_ok f true eb.
Proof. by destruct f as [[| |[] []]|]. Qed.
Lemma act_ok_b f ea eb : act_ok f ea eb -> act_ok f ea true.
Proof. by destruct f as [[| |[] []]|]. Qed.

Record Inv (s : State) : Prop := {
  i_none : first_err s = None -> mpos s = None /\ hpos s = None /\ ~ handled (a s) /\ ~ handled (b s);
  i_one : mpos s = None \/ hpos s = None;
  i_a : is_Some (first_err s) -> mpos s = Some SideA \/ hpos s = Some SideA \/ handled (a s);
  i_b : is_Some (first_err s) -> is_Some (mpos s) \/ is_Some (hpos s) \/ handled (b s);
  i_order : handled (b s) -> handled (a s);
  i_ahead_m : mpos s = Some SideB -> handled (a s);
  i_ahead_h : hpos s = Some SideB -> handled (a s);
  i_ended_a : ended_a s = true -> helper s = Over;
  i_shut_a : ended_a s = true \/ helper s = Shut -> shut (a s) = true;
  i_ended_b : ended_b s = true -> (exists d, main s = Own d) -> False;
  i_shut_b : ended_b s = true \/ main s = Own Shut -> shut (b s) = true;
  i_act_m : act_ok (mfail (main s)) (ended_a s) (ended_b s);
  i_act_h : act_ok (hfail (helper s)) (ended_a s) (ended_b s);
  i_cut_a : cut (a s) = true -> ended_a s = true;
  i_cut_b : cut (b s) = true -> ended_b s = true;
  i_over_h : helper s = Over -> ended_a s = true \/ is_Some (first_err s);
  i_over_m : (forall d, main s <> Own d) -> ended_b s = true \/ is_Some (first_err s);
  i_claim : is_Some (first_err s) -> m_going (main s) = true -> ended_a s = false /\ going (helper s) = false;
  i_forced_h : helper s = AtEof true -> aborted (a s) = true;
  i_trunc_a : trunc (a s) = false;
  i_ret : main s = Returned -> helper s = Over;
  i_own : main s <> Own Over;
}.

Ltac inv_solve :=
  split; cbn in *; unfold handled in *; first [done | solve [eauto using act_ok_a, act_ok_b] | naive_solver].

Lemma start_inv : Inv start.
Proof. inv_solve. Qed.

(** A step of [fail], by whichever thread. *)
Ltac fail_solve fl f ea eb :=
  destruct fl as [e|x|x v]; cbn in *;
  [destruct f as [e0|]
  |destruct f as [e0|]; [destruct x; [destruct ea|destruct eb]|naive_solver]
  |destruct f as [e0|]; [destruct x, v|naive_solver]]; intros [= <-]; inv_solve.

Lemma inv_main ev s s' : ev = MainStep \/ ev = MainCancelled -> Inv s -> step ev s = Some s' -> Inv s'.
Proof.
  intros Hev HI. destruct s as [f ea eb sa sb m h]. destruct HI as [I1 I2 I3 I4 I5 I6 I7 I8 I8' I9 I10 I11 I12 I13 I14 I15 I16 I17 I18 I19 I20 I21].
  unfold mpos, hpos in *. destruct Hev as [->| ->]; cbn.
  - destruct m as [[| | |fl|]| |fl| |]; try done; cbn.
    + intros [= <-]. inv_solve.
    + intros [= <-]. inv_solve.
    + fail_solve fl f ea eb.
    + destruct h; try done. intros [= <-]. inv_solve.
    + fail_solve fl f ea eb.
    + destruct h; try done. intros [= <-]. inv_solve.
  - destruct m; try done. intros [= <-]. inv_solve.
Qed.

(** The helper's steps do not depend on where the caller is. *)
Lemma helper_steps ev s : step ev s =
  match ev with
  | HelperStep => option_map (fun '(d', s') => with_helper s' d') (dir_step SideA (helper s) s)
  | HelperEof => match helper s with
                 | Copying => option_map (fun forced => with_helper s (AtEof forced)) (finds_eof s SideB) | _ => None end
  | HelperErr e => match helper s with Copying => Some (with_helper s (Failing (FLock e))) | _ => None end
  | _ => step ev s
  end.
Proof. by destruct ev, (main s) as [[]| | | |] eqn:E, (helper s) eqn:E'; unfold step; rewrite ?E, ?E'. Qed.

Lemma inv_helper ev s s' : ev = HelperStep \/ ev = HelperEof \/ (exists e, ev = HelperErr e) -> Inv s -> step ev s = Some s' -> Inv s'.
Proof.
  rewrite helper_steps. intros Hev HI. destruct s as [f ea eb sa sb m h].
  destruct HI as [I1 I2 I3 I4 I5 I6 I7 I8 I8' I9 I10 I11 I12 I13 I14 I15 I16 I17 I18 I19 I20 I21].
  unfold mpos, hpos in *. destruct Hev as [->|[->|[e ->]]]; cbn.
  - destruct h as [|forced| |fl|]; cbn; [done| | | |done].
    + destruct sa as [s1 s2 s3 s4]. cbn in *. subst s4. destruct forced; [specialize (I18 eq_refl); subst s3|];
        intros [= <-]; inv_solve.
    + intros [= <-]. inv_solve.
    + destruct ea; [by discriminate I8|]. fail_solve fl f eb eb.
  - destruct h; try done. unfold finds_eof; cbn. destruct (aborted sb && resets SideB); [done|].
    assert (cut sb || aborted sb = true -> aborted sa = true) as Ha.
    { intros Hb%orb_true_iff. destruct (I5 Hb) as [Hc|]; [by discriminate (I8 (I13 Hc))|done]. }
    revert Ha. generalize (cut sb || aborted sb). intros forced Ha [= <-]. inv_solve.
  - destruct h; try done. intros [= <-]. inv_solve.
Qed.

Lemma both_inv_step ev s s' : Inv s -> step ev s = Some s' -> Inv s'.
Proof.
  intros HI. destruct ev as [|e| | | |e|].
  1, 2: destruct s as [f ea eb sa sb m h]; destruct HI as [I1 I2 I3 I4 I5 I6 I7 I8 I8' I9 I10 I11 I12 I13 I14 I15 I16 I17 I18 I19 I20 I21];
    unfold mpos, hpos in *; cbn; destruct m as [[| | | |]| | | |]; try done.
  - unfold finds_eof. cbn. destruct (aborted sa && resets SideA); [done|]. intros [= <-]. inv_solve.
  - intros [= <-]. inv_solve.
  - apply inv_main; auto.
  - apply inv_main; auto.
  - apply inv_helper; auto.
  - apply inv_helper; eauto.
  - apply inv_helper; auto.
Qed.

Lemma copy_reachable_inv s : reachable s -> Inv s.
Proof. induction 1; [apply start_inv|by eapply both_inv_step]. Qed.

(** ** What [copy_both] reports, and leaves behind *)

Lemma fail_first fl s : first_err (fail_step fl s).2 = match first_err s, fl with None, FLock e => Some e | f, _ => f end.
Proof. by destruct s as [[] ? ? ? ? ? ?], fl as [|[]|[] []]. Qed.

Lemma dir_first x d s d' s' : dir_step x d s = Some (d', s') -> first_err s = None \/ first_err s' = first_err s.
Proof.
  destruct d as [| | |fl|]; cbn; try done; [by destruct x; intros [= <- <-]; right..|].
  pose proof (fail_first fl s) as Hf. destruct (fail_step fl s) as [f' s0], (first_err s) eqn:E; [|by left].
  intros [= _ <-]. right. cbn in *. congruence.
Qed.

Lemma first_kept ev s s' e : first_err s = Some e -> step ev s = Some s' -> first_err s' = Some e.
Proof.
  intros Hf. assert (forall fl, first_err (fail_step fl s).2 = Some e) as Hfail by (intros fl; by rewrite fail_first, Hf).
  assert (forall x d d' s', dir_step x d s = Some (d', s') -> first_err s' = Some e) as Hdir.
  { intros x d d' s0 Hd. apply dir_first in Hd as [|]; congruence. }
  rewrite helper_steps. destruct ev; unfold step.
  - destruct (main s) as [[]| | | |]; try done. destruct (finds_eof s SideA); [by intros [= <-]|done].
  - destruct (main s) as [[]| | | |]; try done. by intros [= <-].
  - destruct (main s) as [d| |fl| |]; try done.
    + destruct (dir_step SideB d s) as [[d' s0]|] eqn:Ed; [|done]. intros [= <-]. cbn. eauto.
    + destruct (helper s); try done. by intros [= <-].
    + specialize (Hfail fl). destruct (fail_step fl s). by intros [= <-].
    + destruct (helper s); try done. by intros [= <-].
  - destruct (main s); try done. by intros [= <-].
  - destruct (helper s); try done. destruct (finds_eof s SideB); [by intros [= <-]|done].
  - destruct (helper s); try done. by intros [= <-].
  - destruct (dir_step SideA (helper s) s) as [[d' s0]|] eqn:Ed; [|done]. intros [= <-]. cbn. eauto.
Qed.

(** The first error is the one reported, whatever fails after it. *)
Theorem first_error_wins evs s s' e : first_err s = Some e -> run evs s = Some s' -> first_err s' = Some e.
Proof.
  revert s. induction evs as [|ev evs IH]; intros s Hf; cbn; [by intros [= <-]|].
  destruct (step ev s) as [s1|] eqn:E; [|done]. apply IH. by eapply first_kept.
Qed.

(** [copy_both] returns only once its helper is done, which borrows the two
    streams.  Without an error both directions ended and passed their end on,
    and neither stream was touched otherwise; with one, each stream was
    aborted, or its incoming direction had ended first, so what it was sent
    is whole, and only its reading was stopped. *)
Theorem copy_both_outcome s : reachable s -> main s = Returned ->
  helper s = Over /\
  match first_err s with
  | None => shut (a s) = true /\ shut (b s) = true /\ ~ handled (a s) /\ ~ handled (b s)
  | Some _ => (aborted (a s) = true \/ cut (a s) = true /\ ended_a s = true) /\
              (aborted (b s) = true \/ cut (b s) = true /\ ended_b s = true)
  end.
Proof.
  intros Hs Hm.
  apply copy_reachable_inv in Hs as [I1 I2 I3 I4 I5 I6 I7 I8 I8' I9 I10 I11 I12 I13 I14 I15 I16 I17 I18 I19 I20 I21].
  specialize (I20 Hm). split; [done|]. unfold mpos, hpos in *. rewrite Hm, I20 in *. cbn in *. destruct (first_err s) as [e|].
  - destruct (I3 (ex_intro _ e eq_refl)) as [|[|Ha]]; [done..|]. destruct (I4 (ex_intro _ e eq_refl)) as [[]|[[]|Hb]]; [done..|].
    unfold handled in *. naive_solver.
  - destruct (I15 eq_refl) as [Ea|[]]; [|done]. destruct I16 as [Eb|[]]; [done| |done]. naive_solver.
Qed.

(** Steps left to each thread, at most. *)
Definition f_left (f : Fail) : nat :=
  match f with FLock _ => 5 | FLoad SideA => 4 | FAct SideA _ => 3 | FLoad SideB => 2 | FAct SideB _ => 1 end.
Definition d_left (d : Dir) : nat := match d with Copying => 6 | AtEof _ => 2 | Shut => 1 | Failing f => f_left f | Over => 0 end.
Definition m_left (m : Main) : nat :=
  match m with Own d => 8 + d_left d | Waiting => 7 | Stopping f => 1 + f_left f | WaitingOn => 1 | Returned => 0 end.
Definition steps_left (s : State) : nat := m_left (main s) + d_left (helper s).

Lemma fail_left fl s : main (fail_step fl s).2 = main s /\ helper (fail_step fl s).2 = helper s /\
  match (fail_step fl s).1 with Some f => f_left f < f_left fl | None => 0 < f_left fl end%nat.
Proof. destruct fl as [e|[]|[] v]; cbn; [destruct (first_err s)|..]; cbn; split_and!; try done; lia. Qed.

Lemma dir_left x d s d' s' : dir_step x d s = Some (d', s') -> main s' = main s /\ helper s' = helper s /\ (d_left d' < d_left d)%nat.
Proof.
  destruct d as [| | |fl|]; cbn; try done; [by destruct x; intros [= <- <-]; cbn; split_and!; try done; lia..|].
  pose proof (fail_left fl s) as (Hm & Hh & Hl). destruct (fail_step fl s) as [[f'|] s0]; intros [= <- <-]; done.
Qed.

Lemma steps_decrease ev s s' : step ev s = Some s' -> (steps_left s' < steps_left s)%nat.
Proof.
  unfold steps_left. rewrite helper_steps. destruct ev; unfold step.
  - destruct (main s) as [[]| | | |]; try done. destruct (finds_eof s SideA); [|done]. intros [= <-]. cbn. lia.
  - destruct (main s) as [[]| | | |]; try done. intros [= <-]. cbn. lia.
  - destruct (main s) as [d| |fl| |] eqn:Em; try done.
    + destruct (dir_step SideB d s) as [[d' s0]|] eqn:Ed; [|done]. intros [= <-]. apply dir_left in Ed as (_ & Hh & Hl).
      destruct d'; cbn -[Nat.add] in *; rewrite Hh; lia.
    + destruct (helper s) eqn:Eh; try done. intros [= <-]. cbn. rewrite Eh. cbn. lia.
    + pose proof (fail_left fl s) as (_ & Hh & Hl). destruct (fail_step fl s) as [[f'|] s0]; intros [= <-]; cbn in *; rewrite Hh; lia.
    + destruct (helper s) eqn:Eh; try done. intros [= <-]. cbn. rewrite Eh. cbn. lia.
  - destruct (main s); try done. intros [= <-]. cbn. lia.
  - destruct (helper s); try done. destruct (finds_eof s SideB); [|done]. intros [= <-]. cbn. lia.
  - destruct (helper s); try done. intros [= <-]. cbn. lia.
  - destruct (dir_step SideA (helper s) s) as [[d' s0]|] eqn:Ed; [|done]. intros [= <-]. apply dir_left in Ed as (Hm & _ & Hl).
    cbn. rewrite Hm. lia.
Qed.

(** [copy_both] gets to return: it takes at most 20 steps, and until it has
    returned one of its threads can step, or a direction is waiting on its
    stream; once an error has been recorded and both streams ended for it, no
    direction is left waiting on a stream that was neither aborted nor had
    its reading stopped. *)
Theorem copy_both_ends evs s : run evs start = Some s ->
  (length evs <= 20)%nat /\
  (main s = Returned \/ is_Some (step MainStep s) \/ is_Some (step HelperStep s) \/ main s = Own Copying \/ helper s = Copying) /\
  (is_Some (first_err s) -> mpos s = None -> hpos s = None -> handled (a s) /\ handled (b s)).
Proof.
  intros Hr. split_and!.
  - assert (forall evs s0, run evs s0 = Some s -> (length evs + steps_left s <= steps_left s0)%nat) as Hl.
    { clear Hr. intros evs'. induction evs' as [|ev evs' IH]; intros s0; cbn; [intros [= <-]; lia|].
      destruct (step ev s0) as [s1|] eqn:E; [|done]. apply steps_decrease in E. intros Hr%IH. lia. }
    specialize (Hl _ _ Hr). cbn in Hl. lia.
  - rewrite (helper_steps HelperStep). unfold step. destruct (helper s) as [| | |fl|] eqn:Eh; [by auto|cbn; eauto..| |].
    + destruct (dir_step SideA (Failing fl) s) as [[]|] eqn:Ed; [cbn; eauto|]. cbn in Ed. by destruct (fail_step fl s).
    + destruct (main s) as [[| | |fl|]| |fl| |] eqn:Em; cbn; eauto; try destruct (fail_step fl s); cbn; eauto.
      by apply (run_reachable _ _ _ reach_start), copy_reachable_inv, i_own in Hr.
  - apply (run_reachable _ _ _ reach_start), copy_reachable_inv in Hr as [I1 I2 I3 I4 I5 I6 I7 I8 I8' I9 I10 I11 I12 I13 I14 I15 I16 I17 I18 I19 I20 I21].
    intros Hf Hm Hh. rewrite Hm, Hh in *. destruct (I3 Hf) as [|[|Ha]]; [done..|]. destruct (I4 Hf) as [[]|[[]|Hb]]; [done..|]. done.
Qed.


Lemma trunc_b_step ev s s' : resets SideA = true -> Inv s -> step ev s = Some s' ->
  main s <> Own (AtEof true) /\ trunc (b s) = false -> main s' <> Own (AtEof true) /\ trunc (b s') = false.
Proof.
  intros Hr HI. assert (forall fl, main (fail_step fl s).2 = main s /\ trunc (b (fail_step fl s).2) = trunc (b s)) as Hf.
  { intros fl. split; [apply fail_left|]. destruct fl as [|[]|[] []]; cbn; try done. by destruct (first_err s). }
  rewrite helper_steps. destruct ev; unfold step.
  - destruct (main s) as [[]| | | |] eqn:Em; try done. unfold finds_eof. cbn. rewrite Hr, andb_true_r.
    destruct (aborted (a s)) eqn:Ea; [done|]. intros [= <-]. cbn. rewrite orb_false_r. destruct (cut (a s)) eqn:Ec; [|naive_solver].
    assert (is_Some (first_err s)) as Hsome.
    { destruct (first_err s) eqn:Ef; [done|]. destruct (i_none s HI Ef) as (_ & _ & Ha & _). exfalso. apply Ha. by left. }
    apply (i_claim s HI) in Hsome as [Hea _]; [|by rewrite Em]. rewrite (i_cut_a s HI Ec) in Hea. done.
  - destruct (main s) as [[]| | | |] eqn:Em; try done. intros [= <-]. naive_solver.
  - destruct (main s) as [[|[]| |fl|]| |fl| |] eqn:Em; try done; try (intros [= <-]; cbn; naive_solver).
    + intros [= <-]. cbn. rewrite orb_false_r. naive_solver.
    + specialize (Hf fl) as [_ Hf]. cbn. destruct (fail_step fl s) as [[f'|] s0]; intros [= <-]; cbn in *; naive_solver.
    + destruct (helper s); try done. intros [= <-]. naive_solver.
    + specialize (Hf fl) as [_ Hf]. destruct (fail_step fl s) as [[f'|] s0]; intros [= <-]; cbn in *; naive_solver.
    + destruct (helper s); try done. intros [= <-]. naive_solver.
  - destruct (main s); try done. intros [= <-]. naive_solver.
  - destruct (helper s); try done. destruct (finds_eof s SideB); [|done]. intros [= <-]. naive_solver.
  - destruct (helper s); try done. intros [= <-]. naive_solver.
  - destruct (helper s) as [| | |fl|]; cbn; try done; [intros [= <-]; naive_solver..|].
    specialize (Hf fl) as [Hf1 Hf2]. destruct (fail_step fl s) as [[f'|] s0]; intros [= <-]; cbn in *; congruence.
Qed.

(** C8: A peer is never told that it has everything when it has not: as long as
    reading an aborted stream A fails (A is TCP, or TLS or Noise over it), the
    end of a stream that was only stopped or aborted is not passed on to a
    stream that has not been aborted before. *)
Theorem no_truncated_end s : resets SideA = true -> reachable s -> trunc (a s) = false /\ trunc (b s) = false.
Proof.
  intros Hr Hs. split; [by apply i_trunc_a, copy_reachable_inv|].
  enough (main s <> Own (AtEof true) /\ trunc (b s) = false) by tauto.
  induction Hs as [|s ev s' Hs IH Hst]; [done|]. eapply trunc_b_step; [done|by apply copy_reachable_inv|done|done].
Qed.

End Machine.

(** With a Unix stream as A that protection can fail: while the helper ends
    both streams for an error of its own, aborting A wakes the caller, which
    takes it for the end of A and passes that on to B before the helper gets
    to B; finding B's incoming direction ended, the helper does not abort it.
    B's peer sees a clean end of a stream that was cut short. *)
Theorem unix_abort_passes_truncation e :
  exists evs s, run (fun x => match x with SideA => false | SideB => true end) evs start = Some s /\
    main s = Returned /\ first_err s = Some e /\ trunc (b s) = true /\ aborted (b s) = false.
Proof.
  exists [HelperErr e; HelperStep; HelperStep; HelperStep; MainEof; MainStep; MainStep; HelperStep; HelperStep; MainStep].
  exists (mkState (Some e) false true (mkStream false false true false) (mkStream true true false true) Returned Over).
  split_and!; [vm_compute; reflexivity|reflexivity..].
Qed.

(** Two TCP streams, and a read timeout of the helper's. *)
Definition tcp (_ : Side) : bool := true.
Definition timeout_trace : list Event :=
  let e := CopyRead SideB (err_kind TimedOutKind) in
  [HelperErr e; HelperStep; HelperStep; HelperStep; HelperStep; HelperStep;
   MainErr (CopyRead SideA (err_kind ConnectionReset)); MainStep; MainStep].
Definition timeout_end : State :=
  mkState (Some (CopyRead SideB (err_kind TimedOutKind))) false false (mkStream false false true false) (mkStream false false true false)
    Returned Over.

Lemma first_error_wins_witness :
  let e := CopyRead SideB (err_kind TimedOutKind) in
  let s := mkState (Some e) false false (mkStream false false false false) (mkStream false false false false) (Own Copying) (Failing (FLoad SideA)) in
  run tcp (skipn 2 timeout_trace) s = Some timeout_end /\ first_err timeout_end = Some e.
Proof.
  intros e s. assert (run tcp (skipn 2 timeout_trace) s = Some timeout_end) as E by (vm_compute; reflexivity).
  split; [exact E|]. exact (first_error_wins tcp (skipn 2 timeout_trace) s timeout_end e eq_refl E).
Defined.

Lemma timeout_run : run tcp timeout_trace start = Some timeout_end.
Proof. vm_compute. reflexivity. Qed.

Lemma copy_both_outcome_witness :
  main timeout_end = Returned /\ helper timeout_end = Over /\ first_err timeout_end <> None /\
  (aborted (a timeout_end) = true \/ cut (a timeout_end) = true /\ ended_a timeout_end = true).
Proof.
  split; [reflexivity|].
  destruct (copy_both_outcome tcp timeout_end (run_reachable tcp _ _ _ (reach_start tcp) timeout_run) eq_refl) as [H1 [H2 H3]].
  split; [exact H1|]. split; [discriminate|exact H2].
Defined.

Lemma copy_both_ends_witness :
  run tcp timeout_trace start = Some timeout_end /\ (length timeout_trace <= 20)%nat /\ handled (a timeout_end) /\ handled (b timeout_end).
Proof.
  split; [exact timeout_run|]. destruct (copy_both_ends tcp timeout_trace timeout_end timeout_run) as (H1 & _ & H3).
  split; [exact H1|]. apply H3; [eexists; reflexivity|reflexivity|reflexivity].
Defined.

Lemma no_truncated_end_witness : trunc (a timeout_end) = false /\ trunc (b timeout_end) = false.
Proof.
  exact (no_truncated_end tcp timeout_end eq_refl (run_reachable tcp _ _ _ (reach_start tcp) timeout_run)).
Defined.

End CopyBoth.
