(* ===== verification/CopyStreams.v ===== *)
(** * Copying between the streams the host has ([src/copy.rs], [src/sockets.rs])

    What a copy asks of its two streams, for each kind of stream: waiting for
    data, reading what has arrived, writing everything, splicing, passing the
    end on, and giving up.  On plain streams (TCP and Unix) they are loops
    over calls of the OS; what a TLS or Noise stream does is asked of it
    through [NetOs] and [CopyOs] here (its own operations are in [TlsSession.v]
    and [NoiseSession.v]).  [stream_ops_laws] shows that, whatever the OS
    answers, the loops keep the promises the copies of [Copy.v] need. *)
From S2P Require Import Prelude TaskProto Io Sockets NetOps Copy.
Local Open Scope Z_scope.
Local Open Scope roc_scope.

Module CopyStreams.

(** ** A thread's scratch buffer *)

(** [with_scratch]: [f] gets the first [len] bytes of the thread's buffer,
    which grows when it is shorter, and may change them. *)
Definition with_scratch {T} (len : nat) (f : list Z -> T * list Z) (scratch : list Z) : T * list Z :=
  let scratch := if (length scratch <? len)%nat then scratch ++ replicate (len - length scratch) 0 else scratch in
  let '(t, used) := f (take len scratch) in
  (t, used ++ drop len scratch).

(** How the host reads with it: what arrived overwrites the front of the
    buffer, and only that is copied out. *)
Definition read_scratch (got : list Z) (buf : list Z) : list Z * list Z :=
  let buf := got ++ drop (length got) buf in (take (length got) buf, buf).

(** What an earlier read, of any connection, left in the buffer is never
    returned: a read gives what arrived and nothing else, whatever the buffer
    held; and the buffer only grows. *)
Theorem scratch_never_leaks len got scratch : (length got <= len)%nat ->
  (with_scratch len (read_scratch got) scratch).1 = got /\
  length (with_scratch len (read_scratch got) scratch).2 = Nat.max len (length scratch).
Proof.
  intros Hg. unfold with_scratch, read_scratch. set (s := if (length scratch <? len)%nat then _ else _).
  assert (length s = Nat.max len (length scratch)) as Hs.
  { unfold s. destruct (Nat.ltb_spec (length scratch) len); [rewrite length_app, length_replicate|]; lia. }
  cbn [fst snd]. split; [apply take_app_length|]. rewrite !length_app, !length_drop, length_take. lia.
Qed.

(** The other calls copies make: [SO_LINGER] of no time, [connect] to [AF_UNSPEC],
    [poll] for reading, [splice] into a pipe and out of one, and the
    streams' own operations. *)
Class CopyOs (W : Type) `{NetOs W} := {
  set_linger_zero : Z -> W -> io_result unit * W;
  connect_unspec : Z -> W -> io_result unit * W;
  poll_in : Z -> W -> Z * Z * W;
  take_pipe : W -> bool * W;
  sys_splice_in : Z -> nat -> W -> io_result nat * W;
  sys_splice_out : Z -> nat -> W -> io_result nat * W;
  tls_fill_by : Z -> deadline -> W -> io_result unit * W;
  tls_abort : Z -> W -> W;
  noise_fill_by : Z -> deadline -> W -> io_result unit * W;
}.

Section Streams.
Context {W : Type} `{CopyOs W}.

(** ** Sockets *)

(** [disconnect], on Linux *)
Definition disconnect (fd : Z) : W -> io_result unit * W := connect_unspec fd.

(** [Conn::abort]: a reset, or else both directions shut down. *)
Definition conn_abort (fd : Z) : io W unit :=
  _ ← act (set_linger_zero fd);
  r ← act (disconnect fd);
  match r with Ok _ => mret tt | Err _ => _ ← act (sys (CShutdown fd ShutBoth)); mret tt end.

Definition POLLIN : Z := 1.
Definition POLLERR : Z := 8.
Definition POLLHUP : Z := 16.

(** [readable_now]: how many descriptors are ready and which events. *)
Definition readable_now (fd : Z) : io W bool := fun w =>
  let '(n, revents, w) := poll_in fd w in
  Some ((0 <? n) && negb (Z.land revents (Z.lor POLLIN (Z.lor POLLHUP POLLERR)) =? 0), w).

(** ** A Noise stream's wire *)

(** [Wire::abort], [shutdown], [set_read_timeout_ms], [set_write_timeout_ms]
    and [read_deadline]: of a TCP stream, or of a Unix one, which has no
    reset. *)
Definition wire_abort (tcp : bool) (c : Z) : io W unit :=
  if tcp then conn_abort c else _ ← act (sys (CShutdown c ShutBoth)); mret tt.
Definition wire_shutdown (c : Z) (how : Shutdown) : io W (io_result unit) := act (sys (CShutdown c how)).
Definition wire_set_read_timeout_ms (c ms : Z) : io W unit := act (fun w => (tt, update_conn c (set_read_timeout_ms ms) w)).
Definition wire_set_write_timeout_ms (c ms : Z) : io W unit := act (fun w => (tt, update_conn c (set_write_timeout_ms ms) w)).
Definition wire_read_deadline (c : Z) (w : W) : deadline := @read_deadline W _ (conn_at c) w.

(** ** Each kind of stream *)

(** [Socket::read_wait_deadline]; [pending] is
    [TlsStream::pending_handshake_deadline]. *)
Definition read_wait_deadline (pending : Z -> W -> deadline) (socket : Socket) (w : W) : deadline :=
  let conn_deadline :=
    match socket with
    | TcpStream c | UnixStream c | Udp c | Tls c => @read_deadline W _ (conn_at c) w
    | Noise c _ => wire_read_deadline c w
    | _ => None
    end in
  let handshake := match socket with Tls c => pending c w | _ => None end in
  match conn_deadline, handshake with
  | Some a, Some b => Some (Z.min a b)
  | Some a, None => Some a
  | None, b => b
  end.

Definition not_a_stream : IoError := err_kind InvalidInput.

(** [abort] *)
Definition abort (socket : Socket) : io W unit :=
  match socket with
  | TcpStream c => conn_abort c
  | Tls c => act (fun w => (tt, tls_abort c w))
  | Noise c tcp => wire_abort tcp c
  | UnixStream c => _ ← act (sys (CShutdown c ShutBoth)); mret tt
  | _ => mret tt
  end.

(** [stop_reading] and [shutdown_write]: best effort. *)
Definition shut (how : Shutdown) (socket : Socket) : io W unit :=
  match socket with
  | TcpStream c | UnixStream c => _ ← act (sys (CShutdown c how)); mret tt
  | Noise c _ => _ ← wire_shutdown c how; mret tt
  | Tls c => _ ← act (tls_shutdown c how); mret tt
  | _ => mret tt
  end.
Definition stop_reading : Socket -> io W unit := shut ShutRead.
Definition shutdown_write : Socket -> io W unit := shut ShutWrite.

(** [wait_readable] *)
Definition stream_wait (fuel : nat) (socket : Socket) (by_ : deadline) : io W (io_result unit) :=
  match socket with
  | TcpStream c | UnixStream c => @wait_readable W _ (conn_at c) fuel by_ (sys (CPeek c))
  | Tls c => act (tls_fill_by c by_)
  | Noise c _ => act (noise_fill_by c by_)
  | _ => mret (Err not_a_stream)
  end.

(** [read_now], of a buffer of [len] bytes *)
Definition stream_read (fuel : nat) (socket : Socket) (len : nat) : io W (io_result (option (list Z))) :=
  match socket with
  | TcpStream c | UnixStream c => read_once fuel (sys (CRead c len))
  | Tls c => tls_read_now fuel c len
  | Noise c _ => act (noise_try_read c len)
  | _ => mret (Err not_a_stream)
  end.

(** [write_all] *)
Definition stream_write (fuel : nat) (socket : Socket) (data : list Z) : io W (io_result unit) :=
  match socket with
  | TcpStream c | UnixStream c => @write_all_with W _ (conn_at c) (length data) fuel data (fun data => sys (CWrite c data))
  | Tls c => act (tls_write_all c data)
  | Noise c _ => act (noise_write_all c data)
  | _ => mret (Err not_a_stream)
  end.

(** ** Splicing *)

(** [plain_fd] *)
Definition plain_fd (socket : Socket) : option Z := match socket with TcpStream c | UnixStream c => Some c | _ => None end.

(** [splice]: again when interrupted. *)
Fixpoint splice_call (fuel : nat) (op : W -> io_result nat * W) : io W (io_result nat) :=
  match fuel with
  | O => fun _ => None
  | S fuel =>
      r ← act op;
      match r with
      | Ok n => mret (Ok n)
      | Err e => if is_kind InterruptedKind e then splice_call fuel op else mret (Err e)
      end
  end.

(** A loop within a total operation.  [plain_operations_return] says how
    many turns are enough; given fewer, the loop counts as failed before it
    began. *)
Definition settled {A} (c : io W (io_result A)) : W -> io_result A * W := fun w =>
  match c w with Some x => x | None => (Err (err_kind OtherKind), w) end.

(** [retry_write], of a [splice] out of the pipe. *)
Definition retry_write (fuel : nat) (socket : Socket) (op : W -> io_result nat * W) : io W (io_result nat) :=
  match plain_fd socket with
  | Some c => d ← get (@write_deadline W _ (conn_at c)); @retry W _ (conn_at c) _ fuel true d op
  | None => mret (Err not_a_stream)
  end.

Definition is_plain (s : Socket) : bool := match plain_fd s with Some _ => true | None => false end.

(** What [Copy.v] asks of the two streams. *)
Definition stream_ops (fuel : nat) (from to : Socket) : Copy.Ops W := Copy.mkOps W
  (fun by_ => settled (stream_wait fuel from by_))
  (fun n => settled (stream_read fuel from n))
  (fun data => settled (stream_write fuel to data))
  (is_plain from && is_plain to)
  take_pipe
  (fun n => settled (splice_call fuel (sys_splice_in (io_parts from) n)))
  (fun n => settled (retry_write fuel to (settled (splice_call fuel (sys_splice_out (io_parts to) n))))).

End Streams.

(** ** What the calls promise *)

Section Laws.
Context {W : Type} {HS : Sched W} {HL : SchedLaws W} {HN : NetOs W} {HC : CopyOs W} {HX : Copy.SharedCounters W}.
(** The bytes taken from the one stream, those the other has taken, and the
    pipe's. *)
Variables taken sent piped : W -> list Z.
Variables from to : Socket.

Abbreviation same := (Copy.same taken sent piped).
Definition read_by (n : nat) (w : W) (bs : list Z) (w' : W) : Prop :=
  (length bs <= n)%nat /\ taken w' = taken w ++ bs /\ sent w' = sent w /\ piped w' = piped w.
Definition written_by (data : list Z) (w : W) (r : io_result unit) (w' : W) : Prop :=
  match r with Ok _ => sent w' = sent w ++ data | Err _ => exists k, sent w' = sent w ++ take k data end /\ taken w' = taken w /\ piped w' = piped w.

(** The scheduler moves no bytes; a call of the OS, or of a TLS or Noise
    stream, moves what it says. *)
Class StreamLaws : Prop := {
  s_watch : forall fd wr w, same w (watch_io fd wr w).2;
  s_wait : forall d w, same w (wait_suspended d w).2;
  s_budget : forall w, same w (consume_budget w);
  s_peek : forall w, same w (sys (CPeek (io_parts from)) w).2;
  s_read : forall n w, match sys (CRead (io_parts from) n) w with (Ok bs, w') => read_by n w bs w' | (Err _, w') => same w w' end;
  s_write : forall d w, match sys (CWrite (io_parts to) d) w with
    | (Ok n, w') => (n <= length d)%nat /\ sent w' = sent w ++ take n d /\ taken w' = taken w /\ piped w' = piped w
    | (Err _, w') => same w w' end;
  s_tls_read : forall n w, match tls_try_read (io_parts from) n w with (Ok (Some bs), w') => read_by n w bs w' | (_, w') => same w w' end;
  s_tls_fill : forall w, same w (tls_fill_now (io_parts from) w).2;
  s_tls_fill_by : forall d w, same w (tls_fill_by (io_parts from) d w).2;
  s_tls_write : forall d w, written_by d w (tls_write_all (io_parts to) d w).1 (tls_write_all (io_parts to) d w).2;
  s_noise_read : forall n w, match noise_try_read (io_parts from) n w with (Ok (Some bs), w') => read_by n w bs w' | (_, w') => same w w' end;
  s_noise_fill : forall d w, same w (noise_fill_by (io_parts from) d w).2;
  s_noise_write : forall d w, written_by d w (noise_write_all (io_parts to) d w).1 (noise_write_all (io_parts to) d w).2;
  s_pipe : forall w, match take_pipe w with (true, w') => taken w' = taken w /\ sent w' = sent w /\ piped w' = [] | (false, w') => same w w' end;
  s_in : forall n w, match sys_splice_in (io_parts from) n w with
    | (Ok m, w') => exists bs, length bs = m /\ (m <= n)%nat /\ taken w' = taken w ++ bs /\ piped w' = piped w ++ bs /\ sent w' = sent w
    | (Err _, w') => same w w' end;
  s_out : forall n w, match sys_splice_out (io_parts to) n w with
    | (Ok m, w') => (m <= n)%nat /\ sent w' = sent w ++ take m (piped w) /\ piped w' = drop m (piped w) /\ taken w' = taken w
    | (Err _, w') => same w w' end;
  s_writers : forall n w, same w (Copy.add_writers n w);
  s_progress : forall w, same w (Copy.add_progress w);
}.
Context `{!StreamLaws}.

Lemma same_refl w : same w w.
Proof. by split. Qed.
Lemma same_trans w1 w2 w3 : same w1 w2 -> same w2 w3 -> same w1 w3.
Proof. intros (? & ? & ?) (? & ? & ?). split_and!; congruence. Qed.

Lemma wait_io_same f wr d w : same w (wait_io f wr d w).2.
Proof.
  unfold wait_io. destruct (past d (now w)); [apply same_refl|]. pose proof (s_watch f wr w) as Hw. destruct (watch_io f wr w) as [[e| |] w1]; cbn [snd] in *; try done.
  pose proof (s_wait d w1) as Hs. destruct (wait_suspended d w1) as [[] w2]; cbn [snd] in *; by eapply same_trans.
Qed.

(** A call repeated under a timeout, whose failures move nothing. *)
Lemma retry_same {R} (c : Z) fuel wr d (op : W -> io_result R * W) w r w' :
  (forall w e w', op w = (Err e, w') -> same w w') -> @retry W _ (conn_at c) _ fuel wr d op w = Some (r, w') ->
  match r with Ok a => exists w1 w2, same w w1 /\ op w1 = (Ok a, w2) /\ same w2 w' | Err _ => same w w' end.
Proof using All.
  intros Hop Hr. apply (retry_ends (fun w1 => same w w1)) in Hr.
  - destruct r as [a|e].
    + destruct Hr as (w1 & w2 & H1 & H2 & ->). exists w1, w2. split_and!; [done..|apply s_budget].
    + destruct Hr as [(w1 & H1 & H2 & _)|[(w1 & f & _ & _ & H1)|(H1 & _)]]; try done. eapply same_trans; [done|by eapply Hop].
  - intros w1 e w2 H1 H2 _. eapply same_trans; [done|by eapply Hop].
  - intros f w1 r1 w2 H1 H2. eapply same_trans; [done|]. pose proof (wait_io_same f wr d w1) as H3. by rewrite H2 in H3.
  - apply same_refl.
Qed.

Lemma settled_of {A} (c : io W (io_result A)) (P : W -> io_result A * W -> Prop) :
  (forall w x, c w = Some x -> P w x) -> (forall w, P w (Err (err_kind OtherKind), w)) -> forall w, P w (settled c w).
Proof. intros H1 H2 w. unfold settled. destruct (c w) as [x|] eqn:E; [by apply H1|apply H2]. Qed.

Lemma plain_wait_same c fuel by_ w x : io_parts from = c -> @wait_readable W _ (conn_at c) fuel by_ (sys (CPeek c)) w = Some x -> same w x.2.
Proof using All.
  intros <- E. destruct x as [r w']. unfold wait_readable, mbind, io_bind, get in E. apply retry_same in E.
  - destruct r as [[]|e]; [|done]. destruct E as (w1 & w2 & Hs1 & Ho & Hs2). pose proof (s_peek w1) as Hp. rewrite Ho in Hp. cbn [snd] in *. by repeat (eapply same_trans; [done|]).
  - intros w1 e w2 Ho. pose proof (s_peek w1) as Hp. by rewrite Ho in Hp.
Qed.

Lemma wait_law fuel by_ w x : stream_wait fuel from by_ w = Some x -> same w x.2.
Proof using All.
  unfold stream_wait. destruct from as [| c | | c | | |c|c tcp] eqn:Ef; try (intros [= <-]; apply same_refl).
  1, 2: apply plain_wait_same; by rewrite Ef.
  1: intros [= <-]; pose proof (s_tls_fill_by by_ w) as H1. 2: intros [= <-]; pose proof (s_noise_fill by_ w) as H1. all: by rewrite Ef in H1.
Qed.

(** What a read of some bytes promises. *)
Definition reads (n : nat) (w : W) (x : io_result (option (list Z)) * W) : Prop :=
  match x with (Ok (Some bs), w') => read_by n w bs w' | (_, w') => same w w' end.

Lemma reads_after n w w1 x : same w w1 -> reads n w1 x -> reads n w x.
Proof. intros (H1 & H2 & H3). destruct x as [[[bs|]|e] w']; cbn; [intros (? & ? & ? & ?); split_and!; congruence|by eapply same_trans..]. Qed.

Lemma once_law fuel n w x : read_once fuel (sys (CRead (io_parts from) n)) w = Some x -> reads n w x.
Proof using All.
  revert w. induction fuel as [|fuel IH]; intros w; [done|]. cbn [read_once]. unfold mbind, io_bind, act. pose proof (s_read n w) as Hr.
  destruct (sys (CRead (io_parts from) n) w) as [[bs|e] w1]; [by intros [= <-]|]. destruct (is_kind WouldBlock e); [by intros [= <-]|].
  destruct (is_kind InterruptedKind e); [|by intros [= <-]]. intros Hx. eapply reads_after; [done|by apply IH].
Qed.

Lemma tls_read_law fuel n w x : tls_read_now fuel (io_parts from) n w = Some x -> reads n w x.
Proof using All.
  revert w. induction fuel as [|fuel IH]; intros w; [done|]. cbn [tls_read_now]. unfold try_bind, mbind, io_bind, act. pose proof (s_tls_read n w) as Hr.
  destruct (tls_try_read (io_parts from) n w) as [[[bs|]|e] w1]; [by intros [= <-]| |by intros [= <-]].
  pose proof (s_tls_fill w1) as Hf. destruct (tls_fill_now (io_parts from) w1) as [[[]|e] w2]; cbn [snd] in Hf;
    [|by intros [= <-]; eapply same_trans..]. intros Hx. eapply reads_after; [by eapply same_trans|by apply IH].
Qed.

Lemma read_law fuel n w x : stream_read fuel from n w = Some x -> reads n w x.
Proof using All.
  unfold stream_read. destruct from as [| c | | c | | |c|c tcp] eqn:Ef; try (intros [= <-]; apply same_refl).
  1, 2: pose proof (once_law fuel n w x) as Hl; by rewrite Ef in Hl.
  - pose proof (tls_read_law fuel n w x) as Hl. by rewrite Ef in Hl.
  - intros [= <-]. pose proof (s_noise_read n w) as Hl. by rewrite Ef in Hl.
Qed.

Lemma plain_write_law writes fuel data w r w' :
  @write_all_with W _ (conn_at (io_parts to)) writes fuel data (fun data => sys (CWrite (io_parts to) data)) w = Some (r, w') -> written_by data w r w'.
Proof using All.
  revert data w. induction writes as [|writes IH]; intros data w; destruct data as [|b data]; cbn [write_all_with];
    try (intros [= <- <-]; unfold written_by; rewrite app_nil_r; by split_and!).
  unfold mbind, io_bind, get, try_bind, mbind, io_bind. destruct (retry _ _ _ _ _) as [[[n|e] w1]|] eqn:Er; [| |done]; apply retry_same in Er.
  2, 4: intros w0 e0 w2 Ho; pose proof (s_write (b :: data) w0) as Hp; by rewrite Ho in Hp.
  - destruct Er as (w0 & w2 & (A1 & A2 & A3) & Ho & (B1 & B2 & B3)). pose proof (s_write (b :: data) w0) as Hp. rewrite Ho in Hp. destruct Hp as (Hn & C1 & C2 & C3).
    assert (sent w1 = sent w ++ take n (b :: data)) as Es by congruence. destruct (Nat.eqb_spec n 0) as [->|Hn0].
    + intros [= <- <-]. split_and!; [exists 0%nat; by rewrite Es|congruence..].
    + intros Hrec. apply IH in Hrec as (Hr & ? & ?). split_and!; [|congruence..]. destruct r as [[]|e].
      * by rewrite Hr, Es, <- app_assoc, take_drop.
      * destruct Hr as (k & Hk). exists (n + k)%nat. rewrite Hk, Es, <- app_assoc. f_equal. rewrite <- (take_drop n (b :: data)) at 3.
        rewrite take_app, take_take, length_take. f_equal; f_equal; lia.
  - intros [= <- <-]. destruct Er as (? & ? & ?). split_and!; [exists 0%nat; by rewrite take_0, app_nil_r|done..].
Qed.

Lemma write_law fuel data w x : stream_write fuel to data w = Some x -> written_by data w x.1 x.2.
Proof using All.
  assert (forall e, written_by data w (Err e) w) as Hno by (intros e; split_and!; [exists 0%nat; by rewrite take_0, app_nil_r|done..]).
  destruct x as [r w']. unfold stream_write. destruct to as [| c | | c | | |c|c tcp] eqn:Et; try (intros [= <- <-]; apply Hno).
  1, 2: pose proof (plain_write_law (length data) fuel data w r w') as Hl; by rewrite Et in Hl.
  - intros E. pose proof (s_tls_write data w) as Hl. rewrite Et in Hl. cbn [io_parts] in Hl. injection E as E. by rewrite E in Hl.
  - intros E. pose proof (s_noise_write data w) as Hl. rewrite Et in Hl. cbn [io_parts] in Hl. injection E as E. by rewrite E in Hl.
Qed.

Definition splices_in (n : nat) (w : W) (x : io_result nat * W) : Prop :=
  match x with
  | (Ok m, w') => exists bs, length bs = m /\ (m <= n)%nat /\ taken w' = taken w ++ bs /\ piped w' = piped w ++ bs /\ sent w' = sent w
  | (Err _, w') => same w w' end.
Definition splices_out (n : nat) (w : W) (x : io_result nat * W) : Prop :=
  match x with
  | (Ok m, w') => (m <= n)%nat /\ sent w' = sent w ++ take m (piped w) /\ piped w' = drop m (piped w) /\ taken w' = taken w
  | (Err _, w') => same w w' end.

Lemma splice_law (P : W -> io_result nat * W -> Prop) fuel op w x :
  (forall w w1 x, same w w1 -> P w1 x -> P w x) -> (forall w e w', op w = (Err e, w') -> same w w') -> (forall w, P w (op w)) ->
  splice_call fuel op w = Some x -> P w x.
Proof.
  intros Ha He Hp. revert w. induction fuel as [|fuel IH]; intros w; [done|]. cbn [splice_call]. unfold mbind, io_bind, act. specialize (Hp w).
  destruct (op w) as [[n|e] w1] eqn:E; [by intros [= <-]|]. destruct (is_kind InterruptedKind e); [|by intros [= <-]]. intros Hx. eapply Ha; [by eapply He|by apply IH].
Qed.

Lemma in_law fuel n w : splices_in n w (settled (splice_call fuel (sys_splice_in (io_parts from) n)) w).
Proof using All.
  apply (settled_of _ (splices_in n)); [|intros; apply same_refl]. intros w1 x. apply splice_law.
  - intros w2 w3 [[m|e] w4] (? & ? & ?); cbn; [intros (bs & ? & ? & ? & ? & ?); exists bs; split_and!; congruence|by apply same_trans].
  - intros w2 e w3 E. pose proof (s_in n w2) as Hp. by rewrite E in Hp.
  - intros w2. apply s_in.
Qed.

Lemma out_call_law fuel n w : splices_out n w (settled (splice_call fuel (sys_splice_out (io_parts to) n)) w).
Proof using All.
  apply (settled_of _ (splices_out n)); [|intros; apply same_refl]. intros w1 x. apply splice_law.
  - intros w2 w3 [[m|e] w4] (? & ? & ?); cbn; [intros (? & ? & ? & ?); split_and!; congruence|by apply same_trans].
  - intros w2 e w3 E. pose proof (s_out n w2) as Hp. by rewrite E in Hp.
  - intros w2. apply s_out.
Qed.

Lemma out_law fuel n w : splices_out n w (settled (retry_write fuel to (settled (splice_call fuel (sys_splice_out (io_parts to) n)))) w).
Proof using All.
  apply (settled_of _ (splices_out n)); [|intros; apply same_refl]. intros w1 [r w2]. unfold retry_write.
  destruct (plain_fd to) as [c|]; [|intros [= <- <-]; apply same_refl]. unfold mbind, io_bind, get. intros Er. apply retry_same in Er.
  - destruct r as [m|e]; [|done]. destruct Er as (w3 & w4 & (? & ? & ?) & Ho & (? & ? & ?)). pose proof (out_call_law fuel n w3) as Hl. rewrite Ho in Hl.
    destruct Hl as (? & ? & ? & ?). cbn. split_and!; congruence.
  - intros w3 e w4 Ho. pose proof (out_call_law fuel n w3) as Hl. by rewrite Ho in Hl.
Qed.

(** The streams are what [Copy.v] takes them to be. *)
#[global] Instance stream_ops_laws fuel : Copy.OpsLaws taken sent piped (stream_ops fuel from to).
Proof using All.
  split; cbn [stream_ops Copy.o_wait Copy.o_read Copy.o_write Copy.o_pipe Copy.o_splice_in Copy.o_splice_out].
  - intros d. apply (settled_of _ (fun w x => same w x.2)); [intros w x; apply wait_law|intros; apply same_refl].
  - intros n. apply (settled_of _ (reads n)); [intros w x; apply read_law|intros; apply same_refl].
  - intros d w. pose proof (settled_of (stream_write fuel to d) (fun w x => written_by d w x.1 x.2)) as Hs.
    specialize (Hs (fun w x => write_law fuel d w x) ltac:(intros; split_and!; [exists 0%nat; by rewrite take_0, app_nil_r|done..]) w).
    destruct (settled _ w) as [[[]|e] w']; exact Hs.
  - apply s_pipe.
  - intros n w. apply in_law.
  - intros n w. apply out_law.
  - apply s_writers.
  - apply s_progress.
Qed.

(** ** Enough turns

    [busy] bounds how often a call may yet be interrupted or blocked. *)
Section Settle.
Variables (busy : W -> nat).
Class Answers (writable : bool) {R} (op : W -> io_result R * W) : Prop := {
  interrupted_less : forall w e w1, op w = (Err e, w1) -> is_kind InterruptedKind e = true -> (busy w1 < busy w)%nat;
  blocked_less : forall w e w1 f d w2, op w = (Err e, w1) -> is_kind WouldBlock e = true -> wait_io f writable d w1 = (Ok tt, w2) -> (busy w2 < busy w)%nat;
}.

Lemma once_returns n fuel w : Answers false (sys (CRead (io_parts from) n)) -> (busy w < fuel)%nat ->
  exists x, read_once fuel (sys (CRead (io_parts from) n)) w = Some x.
Proof.
  intros HA. revert w. induction fuel as [|fuel IH]; intros w Hb; [lia|]. cbn [read_once]. unfold mbind, io_bind, act.
  destruct (sys (CRead (io_parts from) n) w) as [[bs|e] w1] eqn:E; [by eexists|]. destruct (is_kind WouldBlock e); [by eexists|].
  destruct (is_kind InterruptedKind e) eqn:Ei; [|by eexists]. apply IH. pose proof (interrupted_less _ _ _ E Ei). lia.
Qed.

Lemma write_returns N data w : (forall w, (busy w <= N)%nat) -> (forall d, Answers true (sys (CWrite (io_parts to) d))) ->
  exists x, @write_all_with W _ (conn_at (io_parts to)) (length data) (S N) data (fun data => sys (CWrite (io_parts to) data)) w = Some x.
Proof.
  intros HB HA. assert (forall writes data w, (length data <= writes)%nat ->
    exists x, @write_all_with W _ (conn_at (io_parts to)) writes (S N) data (fun data => sys (CWrite (io_parts to) data)) w = Some x) as Hr; [|by apply Hr].
  clear data w. induction writes as [|writes IH]; intros data w Hl; destruct data as [|b data]; cbn [write_all_with]; try (by eexists); [cbn in Hl; lia|].
  unfold mbind, io_bind, get, try_bind, mbind, io_bind. edestruct (@retry_returns W _ (conn_at (io_parts to)) _ busy (S N) true (@write_deadline W _ (conn_at (io_parts to)) w) (sys (CWrite (io_parts to) (b :: data))) w) as (r & w1 & Er).
  - apply HA.
  - intros. by eapply (blocked_less (writable := true)).
  - specialize (HB w). lia.
  - rewrite Er. destruct r as [n|e]; [|by eexists]. destruct (Nat.eqb_spec n 0); [by eexists|]. apply IH. rewrite length_drop. cbn in *. lia.
Qed.

End Settle.
End Laws.

(** ** The theorems *)

Section Results.
Context {W : Type} {HS : Sched W} {HL : SchedLaws W} {HN : NetOs W} {HC : CopyOs W} {HX : Copy.SharedCounters W}.
Variables (taken sent piped : W -> list Z) (from to : Socket).
Context `{!StreamLaws taken sent piped from to}.

(** A [Select] waits for a stream no longer than a read of it would: no later
    than the read timeout of its connection, nor, in a handshake, than the
    handshake's deadline; and for a listener it has no deadline of its own. *)
Theorem select_waits_as_a_read pending s w :
  read_wait_deadline pending s w =
    match s with
    | TcpListener _ _ | UnixListener _ _ _ | TlsListener _ _ _ _ => None
    | Tls c => earliest (@read_deadline W _ (conn_at c) w) (pending c w)
    | _ => @read_deadline W _ (conn_at (io_parts s)) w
    end.
Proof using HS HN.
  destruct s; unfold read_wait_deadline, wire_read_deadline, earliest; cbn [io_parts]; try done; by case_match.
Qed.

(** The operations on plain streams end when the OS answers: within [N]
    tries each of its calls does. *)
Theorem plain_operations_return (busy : W -> nat) N by_ n data w :
  is_plain from = true -> is_plain to = true -> (forall w, (busy w <= N)%nat) ->
  Answers busy false (sys (CPeek (io_parts from))) -> Answers busy false (sys (CRead (io_parts from) n)) -> (forall d, Answers busy true (sys (CWrite (io_parts to) d))) ->
  (exists x, stream_wait (S N) from by_ w = Some x) /\ (exists x, stream_read (S N) from n w = Some x) /\ (exists x, stream_write (S N) to data w = Some x).
Proof using All.
  intros Hf Ht HB H1 H2 H3. specialize (HB w) as HBw. split_and!.
  - assert (exists r w', @wait_readable W _ (conn_at (io_parts from)) (S N) by_ (sys (CPeek (io_parts from))) w = Some (r, w')) as (r & w' & E).
    { unfold wait_readable, mbind, io_bind, get. apply (@retry_returns W _ (conn_at (io_parts from)) _ busy); [apply H1| |lia]. intros w0 e w1 f w2 A B C. exact (blocked_less busy (writable := false) (op := sys (CPeek (io_parts from))) w0 e w1 f _ w2 A B C). }
    exists (r, w'). by destruct from.
  - destruct (once_returns from busy n (S N) w H2 ltac:(lia)) as (x & E). exists x. by destruct from.
  - destruct (write_returns to busy N data w) as (x & E); [done..|]. exists x. by destruct to.
Qed.

End Results.

(** ** Five bytes from a TCP stream to a TLS stream *)

Module Toy.
Record World := mkWorld { t_src : list Z; t_taken : list Z; t_sent : list Z; t_pipe : list Z }.

#[global] Instance toy_sched : Sched World := {|
  now _ := 0;
  watch_io _ _ w := (WatchAdded, w);
  wait_suspended _ w := (Ready, w);
  consume_budget w := w |}.

#[global] Instance toy_sched_laws : SchedLaws World.
Proof. by split. Qed.

#[global] Instance toy_counters : Copy.SharedCounters World := {|
  Copy.progress _ := 0; Copy.writers _ := 0; Copy.add_writers _ w := w; Copy.add_progress w := w |}.

Definition receive (n : nat) (w : World) : list Z * World :=
  let b := take (Nat.min n 3) (t_src w) in (b, mkWorld (drop (length b) (t_src w)) (t_taken w ++ b) (t_sent w) (t_pipe w)).
Definition deliver (data : list Z) (w : World) : World := mkWorld (t_src w) (t_taken w) (t_sent w ++ data) (t_pipe w).

Definition toy_sys {A} (c : Call A) (w : World) : io_result A * World :=
  match c in Call A return io_result A * World with
  | CRead _ n => let '(b, w) := receive n w in (Ok b, w)
  | CPeek _ => (Ok tt, w)
  | CWrite _ d => (Ok (length (take 2 d)), deliver (take 2 d) w)
  | _ => (Err (err_kind Unsupported), w)
  end.

#[global] Instance toy_net : NetOs World := {|
  sys := @toy_sys;
  socket_addrs _ _ w := (Ok [], w);
  host_ips _ _ w := (Ok [], w);
  conn_at c w := Conn_new c;
  settle _ w := w;
  update_conn _ _ w := w;
  close_conn _ w := (Ok tt, w);
  tls_try_read _ n w := let '(b, w) := receive n w in (Ok (Some b), w);
  tls_fill _ w := (Ok tt, w);
  tls_fill_now _ w := (Ok false, w);
  tls_write_all _ d w := (Ok tt, deliver d w);
  tls_shutdown _ _ w := (Ok tt, w);
  tls_server _ _ _ w := (Ok tt, w);
  noise_read _ n w := let '(b, w) := receive n w in (Ok b, w);
  noise_try_read _ n w := let '(b, w) := receive n w in (Ok (Some b), w);
  noise_write_all _ d w := (Ok tt, deliver d w) |}.

#[global] Instance toy_copy : CopyOs World := {|
  set_linger_zero _ w := (Ok tt, w);
  connect_unspec _ w := (Ok tt, w);
  poll_in _ w := (0, 0, w);
  take_pipe w := (true, mkWorld (t_src w) (t_taken w) (t_sent w) []);
  sys_splice_in _ n w := let b := take (Nat.min n 3) (t_src w) in
    (Ok (length b), mkWorld (drop (length b) (t_src w)) (t_taken w ++ b) (t_sent w) (t_pipe w ++ b));
  sys_splice_out _ n w := let k := Nat.min n 2 in (Ok k, mkWorld (t_src w) (t_taken w) (t_sent w ++ take k (t_pipe w)) (drop k (t_pipe w)));
  tls_fill_by _ _ w := (Ok tt, w);
  tls_abort _ w := w;
  noise_fill_by _ _ w := (Ok tt, w) |}.

Lemma toy_receive n w : read_by t_taken t_sent t_pipe n w (receive n w).1 (receive n w).2.
Proof. unfold read_by, receive. cbn. split_and!; [|done..]. rewrite length_take. lia. Qed.

#[global] Instance toy_laws from to : StreamLaws t_taken t_sent t_pipe from to.
Proof.
  split; intros; try done; cbn [sys toy_net toy_sys tls_try_read noise_try_read sys_splice_in sys_splice_out toy_copy]; try apply toy_receive.
  - split_and!; [rewrite length_take; lia| |done..]. by destruct d as [|x [|y d]].
  - exists (take (Nat.min n 3) (t_src w)). split_and!; try done. rewrite length_take. lia.
  - split_and!; [lia|done..].
Qed.

Definition start : World := mkWorld [1; 2; 3; 4; 5] [] [] [].
End Toy.

(** The laws of [Copy.v] have a copy that runs: the prefix and four of five
    bytes, from a TCP stream to a TLS one. *)
Example toy_copy_runs :
  Copy.copy_to (stream_ops 3 (TcpStream 1) (Tls 2)) Toy.t_pipe 4 [9] (Some 4) None Toy.start =
    Some ((5, None), Toy.mkWorld [5] [1; 2; 3; 4] [9; 1; 2; 3; 4] []).
Proof. vm_compute. reflexivity. Qed.

End CopyStreams.
