(* ===== verification/Stdin.v ===== *)
(** * Standard input ([src/stdin.rs])

    [read_line] over what [fill_buf] returns, with Rust's check of UTF-8, and
    the queue between the reader thread and the tasks that want a line. *)
From S2P Require Import Prelude Waiters Sema Io LogFormat.
Local Open Scope Z_scope.
Local Open Scope roc_scope.

(** ** UTF-8 *)

Module Utf8.
Import LogFormat.

Definition within (lo hi b : Z) : bool := (lo <=? b) && (b <=? hi).
Definition cont (b : Z) : bool := within 128 191 b.

(** What [String::from_utf8] accepts: the byte sequences of the Unicode
    standard's table, by first and second byte. *)
Fixpoint valid (l : list Z) : bool :=
  match l with
  | [] => true
  | b0 :: l =>
      if within 0 127 b0 then valid l
      else match l with
      | b1 :: l =>
          if within 194 223 b0 then cont b1 && valid l
          else match l with
          | b2 :: l =>
              if within 224 239 b0 then
                within (if b0 =? 224 then 160 else 128) (if b0 =? 237 then 159 else 191) b1 && cont b2 && valid l
              else match l with
              | b3 :: l =>
                  within 240 244 b0 && within (if b0 =? 240 then 144 else 128) (if b0 =? 244 then 143 else 191) b1 &&
                  cont b2 && cont b3 && valid l
              | [] => false
              end
          | [] => false
          end
      | [] => false
      end
  end.

(** Unicode scalar values, which [char] holds. *)
Definition scalar (c : Z) : Prop := 0 <= c < 55296 \/ 57344 <= c < 1114112.

Lemma land_63 x : 0 <= x -> Z.land x 63 = x mod 64.
Proof. intros. change 63 with (Z.ones 6). by rewrite Z.land_ones. Qed.

(** Disjoint bits add up. *)
Lemma lor_add (hi : Z) (n : nat) :
  forallb (fun x => Z.lor hi (Z.of_nat x) =? hi + Z.of_nat x) (List.seq 0 n) = true ->
  forall x, 0 <= x < Z.of_nat n -> Z.lor hi x = hi + x.
Proof.
  intros H x Hx. rewrite forallb_forall in H. specialize (H (Z.to_nat x)). rewrite Z2Nat.id in H by lia.
  apply Z.eqb_eq, H, in_seq. lia.
Qed.

Definition arith (c : Z) : list Z :=
  if c <? 128 then [c]
  else if c <? 2048 then [192 + c / 64; 128 + c mod 64]
  else if c <? 65536 then [224 + c / 4096; 128 + c / 64 mod 64; 128 + c mod 64]
  else [240 + c / 262144; 128 + c / 4096 mod 64; 128 + c / 64 mod 64; 128 + c mod 64].

Lemma encode_arith c : scalar c -> encode_char c = arith c.
Proof.
  intros Hc. unfold encode_char, arith, scalar in *.
  assert (forall x, 0 <= x < 64 -> Z.lor 128 x = 128 + x) as H128 by (apply (lor_add 128 64); reflexivity).
  assert (forall x, 0 <= x < 32 -> Z.lor 192 x = 192 + x) as H192 by (apply (lor_add 192 32); reflexivity).
  assert (forall x, 0 <= x < 16 -> Z.lor 224 x = 224 + x) as H224 by (apply (lor_add 224 16); reflexivity).
  assert (forall x, 0 <= x < 8 -> Z.lor 240 x = 240 + x) as H240 by (apply (lor_add 240 8); reflexivity).
  rewrite !Z.shiftr_div_pow2 by lia. change (2 ^ 0) with 1. change (2 ^ 6) with 64. change (2 ^ 12) with 4096. change (2 ^ 18) with 262144.
  rewrite Z.div_1_r, !land_63 by first [lia | apply Z.div_pos; lia].
  repeat case_goal; try done; rewrite ?H128, ?H192, ?H224, ?H240; try done; try (apply Z.mod_pos_bound; lia); Z.to_euclidean_division_equations; lia.
Qed.

Ltac bytes_lia := unfold cont, within, scalar in *; rewrite ?andb_true_iff, ?andb_false_iff, ?Z.leb_le, ?Z.leb_gt, ?Z.ltb_lt, ?Z.ltb_ge,
  ?Z.eqb_eq, ?Z.eqb_neq in *; Z.to_euclidean_division_equations; lia.

Lemma within_true lo hi b : lo <= b <= hi -> within lo hi b = true.
Proof. unfold within. lia. Qed.
Lemma within_false lo hi b : b < lo \/ hi < b -> within lo hi b = false.
Proof. unfold within. lia. Qed.

(** Continuation bytes and the next character of a valid sequence. *)
Lemma valid_arith c l : scalar c -> valid (arith c ++ l) = valid l.
Proof.
  intros Hc. unfold arith. repeat case_goal; cbn [app valid].
  - rewrite within_true by bytes_lia. done.
  - rewrite within_false, within_true by bytes_lia. unfold cont. by rewrite within_true by bytes_lia.
  - rewrite !(within_false _ _ (224 + _)), (within_true 224) by bytes_lia. unfold cont.
    rewrite (within_true _ _ (128 + c / 64 mod 64)); [rewrite within_true by bytes_lia; done|].
    destruct (Z.eqb_spec (224 + c / 4096) 224), (Z.eqb_spec (224 + c / 4096) 237); bytes_lia.
  - rewrite !(within_false _ _ (240 + _)), (within_true 240) by bytes_lia. unfold cont.
    rewrite (within_true _ _ (128 + c / 4096 mod 64)); [rewrite !within_true by bytes_lia; done|].
    destruct (Z.eqb_spec (240 + c / 262144) 240), (Z.eqb_spec (240 + c / 262144) 244); bytes_lia.
Qed.

Lemma valid_next b0 l : valid (b0 :: l) = true -> exists c l', scalar c /\ b0 :: l = arith c ++ l' /\ valid l' = true.
Proof.
  cbn [valid]. destruct (within 0 127 b0) eqn:E0.
  { intros Hv. exists b0, l. split_and!; [bytes_lia| |done]. unfold arith. rewrite (proj2 (Z.ltb_lt _ _)) by bytes_lia. done. }
  destruct l as [|b1 l]; [done|]. destruct (within 194 223 b0) eqn:E1.
  { intros [H1 Hv]%andb_true_iff. set (c := (b0 - 192) * 64 + (b1 - 128)).
    exists c, l. assert (128 <= c < 2048) by (unfold c; bytes_lia). split_and!; [bytes_lia| |done]. unfold arith.
    rewrite (proj2 (Z.ltb_ge _ 128)), (proj2 (Z.ltb_lt _ 2048)) by lia. unfold c. cbn. repeat f_equal; bytes_lia. }
  destruct l as [|b2 l]; [done|]. destruct (within 224 239 b0) eqn:E2.
  { intros [[H1 H2]%andb_true_iff Hv]%andb_true_iff. set (c := (b0 - 224) * 4096 + (b1 - 128) * 64 + (b2 - 128)).
    assert (2048 <= c < 65536 /\ scalar c) as [Hc Hs].
    { destruct (Z.eqb_spec b0 224), (Z.eqb_spec b0 237); unfold c; bytes_lia. }
    exists c, l. split_and!; [done| |done]. unfold arith.
    rewrite (proj2 (Z.ltb_ge _ 128)), (proj2 (Z.ltb_ge _ 2048)), (proj2 (Z.ltb_lt _ 65536)) by lia.
    assert (128 <= b1 <= 191) by (destruct (Z.eqb_spec b0 224), (Z.eqb_spec b0 237); bytes_lia).
    unfold c. cbn. repeat f_equal; bytes_lia. }
  destruct l as [|b3 l]; [done|].
  intros [[[[E3 H1]%andb_true_iff H2]%andb_true_iff H3]%andb_true_iff Hv]%andb_true_iff.
  set (c := (b0 - 240) * 262144 + (b1 - 128) * 4096 + (b2 - 128) * 64 + (b3 - 128)).
  assert (65536 <= c < 1114112) as Hc by (destruct (Z.eqb_spec b0 240), (Z.eqb_spec b0 244); unfold c; bytes_lia).
  exists c, l. split_and!; [bytes_lia| |done]. unfold arith.
  rewrite (proj2 (Z.ltb_ge _ 128)), (proj2 (Z.ltb_ge _ 2048)), (proj2 (Z.ltb_ge _ 65536)) by lia.
  assert (128 <= b1 <= 191) by (destruct (Z.eqb_spec b0 240), (Z.eqb_spec b0 244); bytes_lia).
  unfold c. cbn. repeat f_equal; bytes_lia.
Qed.

(** The bytes taken for UTF-8 are exactly the encodings of sequences of
    Unicode scalar values. *)
Theorem utf8_valid_iff l : valid l = true <-> exists s, Forall scalar s /\ into_bytes s = l.
Proof.
  split.
  - induction l as [[|b0 l] IH] using (induction_ltof1 _ (@length Z)); unfold ltof in IH; intros Hv; [exists []; split; [constructor|done]|].
    apply valid_next in Hv as (c & l' & Hc & E & Hv). destruct (IH l') as (s & Hs & <-); [|done|].
    { rewrite E, length_app. unfold arith. repeat case_goal; cbn; lia. }
    exists (c :: s). split; [by constructor|]. rewrite E, <- encode_arith by done. done.
  - intros (s & Hs & <-). induction Hs as [|c s Hc Hs IH]; [done|].
    change (into_bytes (c :: s)) with (encode_char c ++ into_bytes s). by rewrite encode_arith, valid_arith.
Qed.

End Utf8.

(** ** One line *)

Module Stdin.

Definition MAX_LINE : Z := 1024 * 1024.
#[global] Arguments MAX_LINE : simpl never.

(** [Line] *)
Inductive Line := Text (bytes : list Z) | TooLong | End | Failed (e : IoError).

(** What [fill_buf] returns, one call after the other: the bytes buffered
    (none at the end of input) or an error.  [consume] takes bytes off the
    first buffer; past the last one, input has ended. *)
Inductive Fill := Bytes (buf : list Z) | FillErr (e : IoError).
Abbreviation Input := (list Fill).

(** [buf.iter().position(|&b| b == b'\n')]: what is before it and after it. *)
Fixpoint split_nl (buf : list Z) : option (list Z * list Z) :=
  match buf with
  | [] => None
  | b :: buf => if b =? 10 then Some ([], buf) else option_map (fun '(p, r) => (b :: p, r)) (split_nl buf)
  end.

Definition len (l : list Z) : Z := Z.of_nat (length l).

(** The loop of [read_line]: a line returned, or what was kept of one and
    whether it was too long. *)
Fixpoint read_loop (input : Input) (line : list Z) (too_long : bool) : (Line + list Z * bool) * Input :=
  let at_end rest := (if bool_decide (line = []) && negb too_long then inl End else inr (line, too_long), rest) in
  match input with
  | [] => at_end []
  | FillErr e :: rest => if is_kind InterruptedKind e then read_loop rest line too_long else (inl (Failed e), rest)
  | Bytes [] :: rest => at_end rest
  | Bytes buf :: rest =>
      let '(part, found_end) := match split_nl buf with Some (part, _) => (part, true) | None => (buf, false) end in
      let '(line, too_long) :=
        if too_long then (line, too_long)
        else if MAX_LINE + 1 <? len line + len part then ([], true)
        else (line ++ part, too_long) in
      let used := (length part + if found_end then 1 else 0)%nat in
      if found_end : bool then
        (inr (line, too_long), match drop used buf with [] => rest | buf => Bytes buf :: rest end)
      else read_loop rest line too_long
  end.

(** [if line.last() == Some(&b'\r') { line.pop(); }] *)
Definition pop_cr (line : list Z) : list Z := if bool_decide (last line = Some 13) then removelast line else line.

Definition read_line (input : Input) : Line * Input :=
  match read_loop input [] false with
  | (inl r, rest) => (r, rest)
  | (inr (line, too_long), rest) =>
      let line := pop_cr line in
      (if too_long || (MAX_LINE <? len line) then TooLong
       else if Utf8.valid line then Text line
       else Failed (err_kind InvalidData), rest)
  end.

(** *** The same, on the whole input at once *)

(** The bytes of an input with no errors but interruptions. *)
Definition good (f : Fill) : Prop := match f with Bytes buf => buf <> [] | FillErr e => kind e = InterruptedKind end.
Definition content (input : Input) : list Z := input ≫= (fun f => match f with Bytes b => b | FillErr _ => [] end).

Definition first_line (bytes : list Z) : list Z * list Z := default (bytes, []) (split_nl bytes).

Definition spec_line (bytes : list Z) : Line :=
  match bytes with
  | [] => End
  | _ => let line := pop_cr (first_line bytes).1 in
         if MAX_LINE <? len line then TooLong else if Utf8.valid line then Text line else Failed (err_kind InvalidData)
  end.

Lemma split_nl_app b1 b2 : split_nl (b1 ++ b2) =
  match split_nl b1 with
  | Some (p, r) => Some (p, r ++ b2)
  | None => option_map (fun '(p, r) => (b1 ++ p, r)) (split_nl b2)
  end.
Proof.
  induction b1 as [|b b1 IH]; simpl; [by destruct (split_nl b2) as [[]|]|]. destruct (b =? 10); [done|].
  rewrite IH. destruct (split_nl b1) as [[]|]; simpl; [done|]. by destruct (split_nl b2) as [[]|].
Qed.

Lemma split_nl_eq b p r : split_nl b = Some (p, r) -> b = p ++ 10 :: r.
Proof.
  revert p r. induction b as [|x b IH]; simpl; intros p r; [done|]. destruct (Z.eqb_spec x 10); [by intros [= <- <-]; subst|].
  destruct (split_nl b) as [[p' r']|]; [|done]. simpl. intros [= <- <-]. simpl. f_equal. by apply IH.
Qed.

(** What is kept of a line, of which [sofar] has been read. *)
Definition kept (sofar : list Z) : list Z * bool := if MAX_LINE + 1 <? len sofar then ([], true) else (sofar, false).

Lemma kept_more sofar part :
  (if (kept sofar).2 then ((kept sofar).1, (kept sofar).2)
   else if MAX_LINE + 1 <? len (kept sofar).1 + len part then ([], true) else ((kept sofar).1 ++ part, (kept sofar).2)) =
  kept (sofar ++ part).
Proof.
  unfold kept, len. rewrite length_app, Nat2Z.inj_add. destruct (Z.ltb_spec (MAX_LINE + 1) (Z.of_nat (length sofar))); [|done].
  destruct (Z.ltb_spec (MAX_LINE + 1) (Z.of_nat (length sofar) + Z.of_nat (length part))); [done|lia].
Qed.

Lemma read_loop_spec input sofar :
  Forall good input -> split_nl sofar = None ->
  exists input', read_loop input (kept sofar).1 (kept sofar).2 =
    (if bool_decide (sofar ++ content input = []) then inl End else inr (kept (first_line (sofar ++ content input)).1), input') /\
    Forall good input' /\ content input' = (first_line (sofar ++ content input)).2.
Proof.
  intros Hg. revert sofar. induction Hg as [|f input Hf Hg IH]; intros sofar Hs.
  - exists []. simpl. rewrite app_nil_r. unfold first_line. rewrite Hs. simpl. split; [|done]. f_equal. unfold kept, len.
    destruct (Z.ltb_spec (MAX_LINE + 1) (Z.of_nat (length sofar))) as [Hl|]; simpl.
    + rewrite bool_decide_false; [done|]. intros ->. simpl in Hl. unfold MAX_LINE in Hl. lia.
    + by destruct sofar.
  - destruct f as [buf|e]; simpl in Hf.
    + destruct buf as [|b0 buf0]; [done|]. set (buf := b0 :: buf0) in *.
      change (content (Bytes buf :: input)) with (buf ++ content input).
      rewrite bool_decide_false by (by destruct sofar). unfold first_line.
      rewrite split_nl_app, Hs, split_nl_app. change (read_loop (Bytes buf :: input) ?l ?t) with
        (let '(part, found_end) := match split_nl buf with Some (part, _) => (part, true) | None => (buf, false) end in
         let '(line, too_long) := if t then (l, t) else if MAX_LINE + 1 <? len l + len part then ([], true) else (l ++ part, t) in
         let used := (length part + if found_end then 1 else 0)%nat in
         if found_end : bool then (inr (line, too_long), match drop used buf with [] => input | buf => Bytes buf :: input end)
         else read_loop input line too_long).
      destruct (split_nl buf) as [[p r]|] eqn:E; cbn [option_map default from_option id fst snd].
      * rewrite kept_more. destruct (kept (sofar ++ p)) as [l t]. apply split_nl_eq in E. rewrite E.
        replace (drop (length p + 1) (p ++ 10 :: r)) with r by (rewrite drop_app_ge by lia; by replace (length p + 1 - length p)%nat with 1%nat by lia).
        eexists. split; [done|]. destruct r as [|x r]; [by split|]. split; [by constructor|done].
      * rewrite kept_more. destruct (IH (sofar ++ buf)) as (input' & Hi & Hg' & Hc).
        { by rewrite split_nl_app, Hs, E. }
        exists input'. destruct (kept (sofar ++ buf)) as [l t]. simpl in Hi. cbn [read_loop].
        rewrite Hi. rewrite bool_decide_false by (by destruct sofar). unfold first_line in Hc.
        rewrite <- app_assoc, split_nl_app, Hs, split_nl_app, E in Hc. unfold first_line.
        rewrite <- app_assoc, split_nl_app, Hs, split_nl_app, E. by destruct (split_nl (content input)) as [[]|]; cbn in *; rewrite <- ?app_assoc in *.
    + cbn [read_loop]. unfold is_kind. rewrite bool_decide_true by done. by apply IH.
Qed.

Lemma pop_cr_len l : len l - 1 <= len (pop_cr l) <= len l.
Proof.
  unfold pop_cr, len. case_bool_decide as E; [|lia]. destruct l as [|x l _] using rev_ind; [done|].
  rewrite removelast_last, length_app. simpl. lia.
Qed.

(** [read_line] returns the first line of the input, however it arrives:
    with bytes cut into buffers in any way and reads interrupted, the line is
    the bytes before the first newline without a final carriage return, if
    there are at most [MAX_LINE] of those and they are UTF-8, and what is left
    is the input after it; a longer line is skipped whole. *)
Theorem read_line_chunks input : Forall good input ->
  exists input', read_line input = (spec_line (content input), input') /\
    Forall good input' /\ content input' = (first_line (content input)).2.
Proof.
  intros Hg. destruct (read_loop_spec input [] Hg eq_refl) as (input' & Hr & Hg' & Hc). exists input'. split; [|done].
  unfold read_line. change ([], false) with (kept []) in *. simpl app in Hr.
  change (read_loop input (kept []).1 (kept []).2) with (read_loop input [] false) in Hr. rewrite Hr.
  case_bool_decide as E; [by rewrite E|]. unfold spec_line. destruct (content input) as [|b bs] eqn:Eb; [done|]. rewrite <- Eb in *.
  pose proof (pop_cr_len (first_line (content input)).1) as Hl. unfold kept.
  destruct (Z.ltb_spec (MAX_LINE + 1) (len (first_line (content input)).1)); simpl; [|done].
  destruct (Z.ltb_spec MAX_LINE (len (pop_cr (first_line (content input)).1))); [done|lia].
Qed.

(** "ab", "c\r", "\n" and "d", read with an interruption in between. *)
Lemma read_line_chunks_witness :
  let input := [Bytes [97;98]; FillErr (err_kind InterruptedKind); Bytes [99;13]; Bytes [10]; Bytes [100]] in
  spec_line (content input) = Text [97;98;99] /\
  exists input', read_line input = (Text [97;98;99], input') /\ content input' = [100].
Proof.
  intros input. split; [vm_compute; reflexivity|]. destruct (read_line_chunks input) as (input' & H1 & _ & H2).
  - repeat (constructor; [first [discriminate | reflexivity]|]). constructor.
  - exists input'. split; [exact H1|exact H2].
Defined.

(** ** The reader thread and its readers *)

(** [State] *)
Record State := mkState { queue : list Line; wanted : bool; started : bool; ended : bool; watchers : Waiters }.

(** The reader thread: not started, waiting on [WANTED], awake and about to
    look at [wanted], in [read_line], or returned. *)
Inductive Reader := NotStarted | Blocked | Looking | Reading | Gone.

(** [WANTED.notify_one()] *)
Definition notify_one (r : Reader) : Reader := match r with Blocked => Looking | r => r end.

(** [want]; [failed] is the error starting the thread, if it fails. *)
Definition want (failed : option IoError) (s : State) (r : Reader) : State * Reader :=
  if wanted s then (s, r)
  else if started s then (mkState (queue s) true true (ended s) (watchers s), notify_one r)
  else match failed with
       | Some e => (mkState (queue s ++ [Failed e]) false false (ended s) (watchers s), notify_one r)
       | None => (mkState (queue s) true true (ended s) (watchers s), Looking)
       end.

(** [try_line] *)
Definition try_line (failed : option IoError) (s : State) (r : Reader) : option Line * State * Reader :=
  match queue s with
  | line :: q => (Some line, mkState q (wanted s) (started s) (ended s) (watchers s), r)
  | [] => if ended s then (Some End, s, r) else let '(s, r) := want failed s r in (None, s, r)
  end.

Inductive Watch := Ready | Waiting (id : Z).

(** [watch] and [unwatch] *)
Definition watch (failed : option IoError) (k : TaskWaker) (s : State) (r : Reader) : Watch * State * Reader :=
  if negb (bool_decide (queue s = [])) || ended s then (Ready, s, r)
  else
    let '(s, r) := want failed s r in
    let '(ws, id) := add_waker k (watchers s) in
    (Waiting id, mkState (queue s) (wanted s) (started s) (ended s) ws, r).

Definition unwatch (id : Z) (s : State) : State := mkState (queue s) (wanted s) (started s) (ended s) (Waiters.remove id (watchers s)).

(** The turn of [read_lines]: to look at [wanted], *)
Definition look (s : State) : Reader := if wanted s then Reading else Blocked.

(** and to queue the line read. *)
Definition queue_line {W} `{WakeWorld W} (line : Line) (s : State) (w : W) : State * Reader * W :=
  let is_end := match line with End => true | _ => false end in
  let '(ws, w) := Waiters.wake_all (watchers s) w in
  (mkState (queue s ++ [line]) false (started s) (ended s || is_end) ws, if is_end then Gone else Looking, w).

(** *** All of it at once

    [tasks] are the readers' waits; [pushed] and [popped] are the lines ever
    queued and taken off the queue. *)
Record Sys := mkSys { state : State; reader : Reader; tasks : list St; fresh : Z; pushed : list Line; popped : list Line }.

Definition sys_new (n : nat) : Sys := mkSys (mkState [] false false false Waiters_new) NotStarted (replicate n Out) 1 [] [].

(** A failed start of the thread queues its error. *)
Definition pushing (s s' : State) : list Line := drop (length (queue s)) (queue s').

Definition sys_try (failed : option IoError) (s : Sys) : Sys :=
  match queue (state s) with
  | line :: _ => mkSys (try_line failed (state s) (reader s)).1.2 (reader s) (tasks s) (fresh s) (pushed s) (popped s ++ [line])
  | [] => let '(_, st, r) := try_line failed (state s) (reader s) in
          mkSys st r (tasks s) (fresh s) (pushed s ++ pushing (state s) st) (popped s)
  end.

(** The part of [next_line] from [watch] to the wait. *)
Definition sys_watch (t : nat) (failed : option IoError) (s : Sys) : Sys :=
  let '(res, st, r) := watch failed (WTask t (fresh s)) (state s) (reader s) in
  let pushed' := pushed s ++ pushing (state s) st in
  match res with
  | Ready => mkSys st r (tasks s) (fresh s + 1) pushed' (popped s)
  | Waiting id => mkSys st r (<[t := Parked (fresh s) id]> (tasks s)) (fresh s + 1) pushed' (popped s)
  end.

Definition sys_unwatch (t : nat) (id : Z) (s : Sys) : Sys :=
  mkSys (unwatch id (state s)) (reader s) (<[t := Out]> (tasks s)) (fresh s) (pushed s) (popped s).

Definition sys_line (line : Line) (s : Sys) : Sys :=
  let '(st, r, ts) := queue_line line (state s) (tasks s) in
  mkSys st r ts (fresh s) (pushed s ++ [line]) (popped s).

Definition with_reader (r : Reader) (s : Sys) : Sys := mkSys (state s) r (tasks s) (fresh s) (pushed s) (popped s).
Definition with_tasks (l : list St) (s : Sys) : Sys := mkSys (state s) (reader s) l (fresh s) (pushed s) (popped s).

(** [fails]: whether the thread may fail to start. *)
Inductive step (fails : bool) : Sys -> Sys -> Prop :=
  | r_try s t failed : tasks s !! t = Some Out -> (fails = false -> failed = None) -> step fails s (sys_try failed s)
  | r_watch s t failed : tasks s !! t = Some Out -> (fails = false -> failed = None) -> step fails s (sys_watch t failed s)
  | r_unwatch s t st id : tasks s !! t = Some st -> st_id st = Some id -> step fails s (sys_unwatch t id s)
  (** The thread looks, wakes up, reads a line. *)
  | r_look s : reader s = Looking -> step fails s (with_reader (look (state s)) s)
  | r_spurious s : reader s = Blocked -> step fails s (with_reader Looking s)
  | r_line s line : reader s = Reading -> step fails s (sys_line line s)
  (** A wait is cancelled; another task comes along. *)
  | r_stop s t : step fails s (with_tasks (alter (fun st => if st is Parked w id then Stopped w id else st) t (tasks s)) s)
  | r_spawn s : step fails s (with_tasks (tasks s ++ [Out]) s).

Definition reachable (fails : bool) (n : nat) (s : Sys) : Prop := rtc (step fails) (sys_new n) s.

(** *** The invariant *)

Definition sema (s : Sys) : Sema := mkSema 0 (watchers (state s)) (tasks s) (fresh s).

Definition sleeping (s : Sys) : Prop := asleep (tasks s).

(** The state of the queue against the thread's. *)
Record Good (st : State) (r : Reader) : Prop := {
  g_len : (length (queue st) <= 1)%nat;
  g_wanted : wanted st = true -> queue st = [] /\ (r = Looking \/ r = Reading);
  g_reading : r = Reading -> wanted st = true;
  g_started : started st = false <-> r = NotStarted;
  g_ended : ended st = true <-> r = Gone;
}.

Record Inv (fails : bool) (s : Sys) : Prop := {
  v_good : Good (state s) (reader s);
  v_reg : Reg (sema s);
  v_fifo : pushed s = popped s ++ queue (state s);
  v_sleep : fails = false -> sleeping s -> wanted (state s) = true;
}.

Lemma want_good failed s r s' r' : Good s r -> queue s = [] -> ended s = false -> want failed s r = (s', r') ->
  Good s' r' /\ (failed = None -> wanted s' = true /\ queue s' = []) /\ watchers s' = watchers s /\ ended s' = false /\
  (wanted s = true -> wanted s' = true).
Proof.
  intros Hg Hq He. pose proof Hg as [Hl Hw Hr [Hs1 Hs2] [He1 He2]]. unfold want.
  destruct (wanted s) eqn:Ew; [intros [= <- <-]; by rewrite Ew|].
  destruct (started s) eqn:Es; [|destruct failed as [e|]]; intros [= <- <-]; rewrite ?Hq, ?He in *;
    (split; [|by split_and!]); destruct r; split; naive_solver.
Qed.

Lemma inv_new fails n : Inv fails (sys_new n).
Proof.
  split; simpl; [split; simpl; naive_solver lia|apply (sema_new_reg 0 n)|done|].
  intros _ (t & w & id & H). simpl in H. by apply lookup_replicate in H as [? _].
Qed.

Lemma inv_try fails t failed s : Inv fails s -> (fails = false -> failed = None) -> tasks s !! t = Some Out -> Inv fails (sys_try failed s).
Proof.
  intros [Hg Hr Hf Hs] Hfail Ht. unfold sys_try, try_line. destruct (queue (state s)) as [|line q] eqn:Eq.
  - destruct (ended (state s)) eqn:Ee.
    { split; simpl; try done. unfold pushing. by rewrite Eq, drop_ge, !app_nil_r in * by (simpl; lia). }
    destruct (want failed (state s) (reader s)) as [s' r'] eqn:Ew. apply want_good in Ew as (Hg' & Hn & Hws & He & Hm); [|done..].
    split; simpl; [done| | |].
    + unfold sema in *. simpl. by rewrite Hws.
    + unfold pushing. rewrite Eq. simpl. by rewrite Hf, app_nil_r.
    + intros E Hsl. by apply Hn, Hfail.
  - destruct Hg as [Hl Hw Hrd Hst He]. rewrite Eq in *. split; simpl; [split; simpl in *; try done; [lia|]| | |].
    + intros [? _]%Hw. done.
    + done.
    + by rewrite Hf, <- app_assoc.
    + done.
Qed.

Lemma inv_watch fails t failed s : Inv fails s -> (fails = false -> failed = None) -> tasks s !! t = Some Out -> Inv fails (sys_watch t failed s).
Proof.
  intros [Hg Hr Hf Hs] Hfail Ht. unfold sys_watch, watch. case_goal.
  { split; simpl; try done; [by destruct Hr|]. unfold pushing. by rewrite drop_ge, app_nil_r by lia. }
  apply orb_false_iff in Heqb as [Eq%negb_false_iff%bool_decide_eq_true Ee].
  destruct (want failed (state s) (reader s)) as [s' r'] eqn:Ew. apply want_good in Ew as (Hg' & Hn & Hws & He & Hm); [|done..].
  unfold add_waker. rewrite Hws. split; simpl.
  - by destruct Hg'; split.
  - apply (reg_park t) in Hr; [|done]. exact Hr.
  - unfold pushing. rewrite Eq. simpl. by rewrite Hf, ?Eq, app_nil_r.
  - intros E _. by apply Hn, Hfail.
Qed.

Lemma inv_line fails line s : Inv fails s -> reader s = Reading -> Inv fails (sys_line line s) /\ ~ sleeping (sys_line line s).
Proof.
  intros [Hg Hr Hf Hs] Hrd. destruct (notify_all_effect _ Hr) as [Hr' _]. pose proof (notified_awake _ Hr) as Hns.
  unfold notify_all, sema in Hr', Hns. cbn [Sema.waiters Sema.tasks] in Hr', Hns. unfold sys_line, queue_line, sleeping.
  destruct (Waiters.wake_all (watchers (state s)) (tasks s)) as [ws ts]. simpl in *.
  split; [|apply Hns]. destruct Hg as [Hl Hw Hrg Hst He]. destruct (Hw (Hrg Hrd)) as [Hq _]. split; simpl; [|done| |].
  - rewrite Hrd in *. destruct (ended (state s)) eqn:Ee; [by destruct He as [He _]; discriminate He|].
    rewrite Hq. destruct line; split; simpl; naive_solver lia.
  - by rewrite Hf, Hq, !app_nil_r.
  - intros _ H. by apply Hns in H.
Qed.

Lemma stdin_inv_step fails s s' : Inv fails s -> step fails s s' -> Inv fails s'.
Proof.
  intros HI Hst. destruct Hst as [s t failed ? ?|s t failed ? ?|s t st id Ht Hid|s Hr|s Hr|s line Hr|s t|s].
  - by eapply inv_try.
  - by eapply inv_watch.
  - destruct HI as [Hg Hr Hf Hs]. split; simpl; [by destruct Hg; split|by apply (reg_unpark t st id _ Hr)|done|].
    intros E Hsl. by apply Hs, (asleep_out _ t).
  - destruct HI as [Hg Hreg Hf Hs]. split; simpl; [|done..]. unfold look. destruct Hg as [? Hw ? ? ?]. rewrite Hr in *.
    destruct (wanted (state s)) eqn:Ew; split; rewrite ?Ew; naive_solver.
  - destruct HI as [Hg Hreg Hf Hs]. split; simpl; [|done..]. destruct Hg as [? Hw ? ? ?]. rewrite Hr in *. split; naive_solver.
  - by apply inv_line.
  - destruct HI as [Hg Hreg Hf Hs]. split; simpl; [done|by apply (reg_stop t _ Hreg)|done|].
    intros E Hsl. by apply Hs, (asleep_weaker _ _ (weaker_stop t _)).
  - destruct HI as [Hg Hreg Hf Hs]. split; simpl; [done|by apply (reg_spawn _ Hreg)|done|].
    intros E Hsl. by apply Hs, asleep_spawn.
Qed.

Lemma stdin_reachable_inv fails n s : reachable fails n s -> Inv fails s.
Proof. intros H. refine (rtc_invariant (step fails) (Inv fails) _ _ _ H (inv_new fails n)). eauto using stdin_inv_step. Qed.

(** Lines are taken in the order read and none is lost, whichever readers
    are cancelled: what was queued is what was taken, and then the queue,
    which never holds more than one line, and none while the thread has been
    asked for one. *)
Theorem stdin_lines_in_order fails n s : reachable fails n s ->
  pushed s = popped s ++ queue (state s) /\ (length (queue (state s)) <= 1)%nat /\
  (wanted (state s) = true -> queue (state s) = []).
Proof. intros [[Hl Hw _ _ _] _ Hf _]%stdin_reachable_inv. split_and!; [done|done|]. intros E. by apply Hw. Qed.

(** A reader asleep is served, as long as the reader thread could be
    started: there is no line it missed, the thread is awake and has been
    asked for one, and when the thread queues it no reader stays asleep. *)
Theorem stdin_sleeper_served n s : reachable false n s -> sleeping s ->
  queue (state s) = [] /\ wanted (state s) = true /\ (reader s = Looking \/ reader s = Reading) /\
  forall line, reader s = Reading -> ~ sleeping (sys_line line s).
Proof.
  intros HI%stdin_reachable_inv Hs. pose proof HI as [[Hl Hw _ _ _] _ _ Hsl]. specialize (Hsl eq_refl Hs).
  destruct (Hw Hsl) as [Hq Hr]. split_and!; [done..|]. intros line E. by apply (inv_line false).
Qed.

(** When the reader thread cannot be started a reader can be left asleep
    next to a line: the error of the failed start is queued by [want], and
    [watch], which calls it after looking at the queue, goes to sleep all the
    same.  It takes another reader to have taken the error of a first failed
    start in between. *)
Theorem stdin_failed_start_strands e :
  exists s, reachable true 2 s /\ sleeping s /\ queue (state s) = [Failed e] /\ wanted (state s) = false /\ reader s = NotStarted.
Proof.
  set (s1 := sys_try (Some e) (sys_new 2)). set (s2 := sys_try (Some e) s1). set (s3 := sys_watch 0 (Some e) s2).
  exists s3. split_and!; [|by exists 0%nat, 1, 1|done..].
  apply (rtc_l _ _ s1); [by apply (r_try true _ 0)|]. apply (rtc_l _ _ s2); [by apply (r_try true _ 1)|].
  apply (rtc_l _ _ s3); [by apply (r_watch true _ 0)|]. apply rtc_refl.
Qed.

(** A reader asleep while the thread reads, and then its line. *)
Definition demo_asleep : Sys := with_reader Reading (sys_watch 0 None (sys_new 1)).
Definition demo_line : Sys := sys_line (Text [104;105]) demo_asleep.

Lemma demo_asleep_reachable : reachable false 1 demo_asleep.
Proof.
  apply (rtc_l _ _ (sys_watch 0 None (sys_new 1))); [by apply (r_watch false _ 0)|].
  apply (rtc_l _ _ demo_asleep); [|apply rtc_refl]. by apply (r_look false (sys_watch 0 None (sys_new 1))).
Qed.

Lemma demo_line_reachable : reachable false 1 demo_line.
Proof. eapply rtc_r; [apply demo_asleep_reachable|]. by apply r_line. Qed.

Lemma stdin_lines_in_order_witness :
  queue (state demo_line) = [Text [104;105]] /\ pushed demo_line = popped demo_line ++ queue (state demo_line).
Proof.
  split; [reflexivity|]. exact (proj1 (stdin_lines_in_order false 1 demo_line demo_line_reachable)).
Defined.

Lemma stdin_sleeper_served_witness :
  sleeping demo_asleep /\ queue (state demo_asleep) = [] /\ wanted (state demo_asleep) = true /\ ~ sleeping demo_line.
Proof.
  assert (sleeping demo_asleep) as Hs by (exists 0%nat, 1, 1; reflexivity). split; [exact Hs|].
  destruct (stdin_sleeper_served 1 demo_asleep demo_asleep_reachable Hs) as (H1 & H2 & _ & H4).
  split; [exact H1|split; [exact H2|exact (H4 _ eq_refl)]].
Defined.

End Stdin.
