(* ===== verification/RocMem.v ===== *)
(** * Memory that Roc values live in ([src/roc_platform_abi.rs])

    What strings, lists and boxes of Roc share: memory by the byte, the
    allocations that are live in it, and an operation's three ends.  Pointers
    are integers; a word is 8 bytes, little-endian.

    Every access is checked against the live allocations, and so is every
    release: what would be undefined behaviour is the outcome [Undefined], so
    that a theorem about results also says that there is none.  [Stopped] is a
    panic, or the end of the program for want of memory. *)
From S2P Require Import Prelude.
Local Open Scope Z_scope.

Module RocMem.

(** ** Words and bytes *)

Fixpoint le (n : nat) (w : Z) : list Z :=
  match n with O => [] | S n => w mod 256 :: le n (w / 256) end.

Fixpoint of_le (l : list Z) : Z :=
  match l with [] => 0 | b :: l => b + 256 * of_le l end.

Definition is_byte (b : Z) : Prop := 0 <= b < 256.

Lemma length_le n w : length (le n w) = n.
Proof. revert w. induction n; intros; simpl; auto. Qed.

Lemma le_bytes n w : Forall is_byte (le n w).
Proof. revert w. induction n as [|n IH]; intros; simpl; constructor; [|done]. unfold is_byte. apply Z.mod_pos_bound. lia. Qed.

Lemma of_le_le n w : 0 <= w < 256 ^ Z.of_nat n -> of_le (le n w) = w.
Proof.
  revert w. induction n as [|n IH]; intros w Hw; [simpl in *; lia|]. cbn [le of_le]. rewrite IH.
  - pose proof (Z.div_mod w 256). lia.
  - rewrite Nat2Z.inj_succ, Z.pow_succ_r in Hw by lia. split; [apply Z.div_pos; lia|]. apply Z.div_lt_upper_bound; lia.
Qed.

Lemma le_of_le l : Forall is_byte l -> le (length l) (of_le l) = l.
Proof.
  induction 1 as [|b l Hb _ IH]; [done|]. cbn [length le of_le]. unfold is_byte in Hb.
  replace (b + 256 * of_le l) with (of_le l * 256 + b) by lia.
  rewrite Z.div_add_l, (Z.div_small b), Z.add_0_r by lia. rewrite IH. f_equal. rewrite Z.add_comm, Z.mod_add by lia. by apply Z.mod_small.
Qed.

Lemma of_le_range l : Forall is_byte l -> 0 <= of_le l < 256 ^ Z.of_nat (length l).
Proof.
  induction 1 as [|b l Hb _ IH]; [simpl; lia|]. cbn [length of_le]. unfold is_byte in Hb. rewrite Nat2Z.inj_succ, Z.pow_succ_r by lia. lia.
Qed.

(** ** Memory *)

(** [live]: what is allocated, with the length and alignment asked for. *)
Record Mem := mkMem { live : gmap Z (Z * Z); contents : Z -> Z }.

Inductive outcome (A : Type) := Undefined | Stopped | Done (a : A) (m : Mem).
#[global] Arguments Undefined {A}.
#[global] Arguments Stopped {A}.
#[global] Arguments Done {A} a m.

Definition M (A : Type) : Type := Mem -> outcome A.

#[global] Instance M_ret : MRet M := fun A a m => Done a m.
#[global] Instance M_bind : MBind M := fun A B k x m =>
  match x m with Done a m' => k a m' | Stopped => Stopped | Undefined => Undefined end.

(** [expect]: a panic. *)
Definition expect {A} (x : option A) : M A := fun m => match x with Some a => Done a m | None => Stopped end.

(** Addresses [a] up to [a + n] are all within one live allocation. *)
Definition inside (l : gmap Z (Z * Z)) (a n : Z) : bool :=
  existsb (fun '(p, (len, _)) => (p <=? a) && (a + n <=? p + len)) (map_to_list l).

Definition read (a n : Z) (f : Z -> Z) : list Z := map f (seqZ a n).
Definition write (a : Z) (bs : list Z) (f : Z -> Z) : Z -> Z :=
  fun x => if (a <=? x) && (x <? a + Z.of_nat (length bs)) then nth (Z.to_nat (x - a)) bs 0 else f x.

Definition load (a n : Z) : M (list Z) := fun m => if inside (live m) a n then Done (read a n (contents m)) m else Undefined.
Definition store (a : Z) (bs : list Z) : M unit := fun m =>
  if inside (live m) a (Z.of_nat (length bs)) then Done tt (mkMem (live m) (write a bs (contents m))) else Undefined.

Definition WORD : Z := 8.
Definition load_word (a : Z) : M Z := l ← load a WORD; mret (of_le l).
Definition store_word (a v : Z) : M unit := store a (le 8 v).

Lemma inside_spec l a n : inside l a n = true <-> exists p len al, l !! p = Some (len, al) /\ p <= a /\ a + n <= p + len.
Proof.
  unfold inside. rewrite existsb_exists. split.
  - intros ([p [len al]] & Hin & [H1%Z.leb_le H2%Z.leb_le]%andb_true_iff). exists p, len, al. split_and!; [|done..].
    by apply elem_of_map_to_list, list_elem_of_In.
  - intros (p & len & al & Hl & H1 & H2). exists (p, (len, al)). split; [by apply list_elem_of_In, elem_of_map_to_list|].
    apply andb_true_iff. split; by apply Z.leb_le.
Qed.

Lemma length_read a n f : 0 <= n -> length (read a n f) = Z.to_nat n.
Proof. intros. unfold read. by rewrite length_map, length_seqZ. Qed.

Lemma read_ext a n f g : (forall x, a <= x < a + n -> f x = g x) -> read a n f = read a n g.
Proof. intros H. unfold read. apply map_ext_in. intros x Hx. apply list_elem_of_In, elem_of_seqZ in Hx. apply H. lia. Qed.

Lemma write_outside a bs f x : x < a \/ a + Z.of_nat (length bs) <= x -> write a bs f x = f x.
Proof. intros H. unfold write. destruct ((a <=? x) && _) eqn:E; [|done]. apply andb_true_iff in E as [E1%Z.leb_le E2%Z.ltb_lt]. lia. Qed.

Lemma read_write_same a bs f : read a (Z.of_nat (length bs)) (write a bs f) = bs.
Proof.
  unfold read. apply list_eq. intros i. rewrite list_lookup_fmap. destruct (decide (i < length bs)%nat) as [Hi|Hi].
  - rewrite lookup_seqZ_lt by lia. cbn. unfold write. rewrite (proj2 (Z.leb_le _ _)), (proj2 (Z.ltb_lt _ _)) by lia. cbn.
    replace (Z.to_nat (a + Z.of_nat i - a)) with i by lia. destruct (lookup_lt_is_Some_2 bs i Hi) as [b Hb]. rewrite Hb. f_equal. by apply nth_lookup_Some.
  - rewrite lookup_seqZ_ge by lia. symmetry. apply lookup_ge_None. lia.
Qed.

Lemma read_write_apart a n b bs f : a + n <= b \/ b + Z.of_nat (length bs) <= a -> read a n (write b bs f) = read a n f.
Proof. intros H. apply read_ext. intros x Hx. apply write_outside. lia. Qed.

Lemma read_app a n k f : 0 <= n -> 0 <= k -> read a (n + k) f = read a n f ++ read (a + n) k f.
Proof. intros Hn Hk. unfold read. by rewrite seqZ_app, map_app by lia. Qed.

(** ** Allocation *)

(** Where the host's allocator puts a block, or that it has none. *)
Section Alloc.
Variable place : gmap Z (Z * Z) -> Z -> Z -> option Z.

Definition apart (p n q k : Z) : Prop := p + n <= q \/ q + k <= p.

(** What [src/alloc.rs] promises: aligned (to a word at least), away from the
    other allocations, and within the address space. *)
Class Placement : Prop := {
  placed : forall l len align p, place l len align = Some p ->
    0 < p /\ p + len < 2 ^ 63 /\ (WORD | p) /\ (align | p) /\ l !! p = None /\ forall q n al, l !! q = Some (n, al) -> apart p len q n;
}.

(** [RocHost::alloc]; the end of the program when there is no memory. *)
Definition alloc (align len : Z) : M Z := fun m =>
  match place (live m) len align with
  | Some p => Done p (mkMem (<[p := (len, align)]> (live m)) (contents m))
  | None => Stopped
  end.

(** [RocHost::dealloc], with the alignment it was allocated with. *)
Definition dealloc (p align : Z) : M unit := fun m =>
  match live m !! p with
  | Some (_, al) => if al =? align then Done tt (mkMem (delete p (live m)) (contents m)) else Undefined
  | None => Undefined
  end.

(** Allocations do not overlap. *)
Definition tidy (l : gmap Z (Z * Z)) : Prop :=
  forall p n al q k al', l !! p = Some (n, al) -> l !! q = Some (k, al') -> p <> q -> apart p n q k.

Lemma tidy_insert `{!Placement} l len align p : tidy l -> place l len align = Some p -> tidy (<[p := (len, align)]> l).
Proof.
  intros Ht Hp. destruct (placed _ _ _ _ Hp) as (_ & _ & _ & _ & Hn & Ha). intros a n al b k al' H1 H2 Hne.
  destruct (decide (a = p)) as [->|Hap], (decide (b = p)) as [->|Hbp]; [done| | |].
  - rewrite lookup_insert_eq in H1. rewrite lookup_insert_ne in H2 by done. simplify_eq. by eapply Ha.
  - rewrite lookup_insert_ne in H1 by done. rewrite lookup_insert_eq in H2. simplify_eq. specialize (Ha _ _ _ H1). unfold apart in *. lia.
  - rewrite lookup_insert_ne in H1, H2 by done. by eapply Ht.
Qed.

Lemma tidy_delete l p : tidy l -> tidy (delete p l).
Proof. intros Ht a n al b k al' H1%lookup_delete_Some H2%lookup_delete_Some. destr. by eapply Ht. Qed.

End Alloc.

(** ** Accesses that are within an allocation *)

Lemma load_at m p len al a n : live m !! p = Some (len, al) -> p <= a -> a + n <= p + len -> load a n m = Done (read a n (contents m)) m.
Proof. intros Hl H1 H2. unfold load. rewrite (proj2 (inside_spec _ _ _)); [done|]. by exists p, len, al. Qed.

Lemma store_at m p len al a bs : live m !! p = Some (len, al) -> p <= a -> a + Z.of_nat (length bs) <= p + len ->
  store a bs m = Done tt (mkMem (live m) (write a bs (contents m))).
Proof. intros Hl H1 H2. unfold store. rewrite (proj2 (inside_spec _ _ _)); [done|]. by exists p, len, al. Qed.

Lemma load_word_at m p len al a : live m !! p = Some (len, al) -> p <= a -> a + WORD <= p + len ->
  load_word a m = Done (of_le (read a WORD (contents m))) m.
Proof. intros Hl H1 H2. unfold load_word, mbind, M_bind. by rewrite (load_at _ _ _ _ _ _ Hl). Qed.

Lemma store_word_at m p len al a v : live m !! p = Some (len, al) -> p <= a -> a + WORD <= p + len ->
  store_word a v m = Done tt (mkMem (live m) (write a (le 8 v) (contents m))).
Proof. intros Hl H1 H2. unfold store_word. eapply store_at; [done..|]. rewrite length_le. done. Qed.

Lemma wrap_small x : 0 <= x < 2 ^ 64 -> wrap 64 x = x.
Proof. intros. unfold wrap. by apply Z.mod_small. Qed.

(** The word at an address. *)
Definition word (m : Mem) (a : Z) : Z := of_le (read a WORD (contents m)).

Lemma word_write m a v : 0 <= v < 2 ^ 64 -> word (mkMem (live m) (write a (le 8 v) (contents m))) a = v.
Proof.
  intros Hv. unfold word. cbn [contents]. change WORD with (Z.of_nat 8). rewrite <- (length_le 8 v) at 1. rewrite read_write_same.
  by apply of_le_le.
Qed.

End RocMem.
