(* ===== verification/RocValues.v ===== *)
(** * Strings, lists and boxes of Roc ([src/roc_platform_abi.rs])

    The operations of [RocStr], [RocListWith] and the boxes over the memory of
    [RocMem.v], as on a 64-bit target.  A value is the words of its struct;
    what a small string holds is in the bytes of those words.  An element type
    is its size, its alignment, and whether elements are counted themselves;
    an element is its bytes.  Counting is one step each here
    (the atomic operations themselves are in [RefAtomics.v]). *)
From S2P Require Import Prelude RocMem Stdin.
Local Open Scope Z_scope.

Module RocValues.
Import RocMem.

Section Values.
Variable place : gmap Z (Z * Z) -> Z -> Z -> option Z.

(** [checked_mul_usize]; [checked_add_usize] is [checked_add]. *)
Definition checked_mul (a b : Z) : option Z := if a * b <=? U64_MAX then Some (a * b) else None.

(** [shifted_capacity]: [checked_shl] only refuses shifts of 64 and more. *)
Definition shifted_capacity (capacity : Z) : Z := u64_shl capacity 1.

Definition SEAMLESS_SLICE_TAG : Z := 1.

(** ** Counting

    What the releases share: the count is in the word before the data, 0 for
    static data; the last reference tears the contents down and frees the
    allocation, which starts [header] bytes before the data. *)
Definition decref_at (data header align : Z) (teardown : M unit) : M unit :=
  rc ← load_word (data - WORD);
  if rc =? 0 then mret tt
  else
    _ ← store_word (data - WORD) (wrap 64 (rc - 1));
    if rc =? 1 then _ ← teardown; dealloc (data - header) align else mret tt.

Definition incref_at (data amount : Z) : M unit :=
  rc ← load_word (data - WORD);
  if rc =? 0 then mret tt else store_word (data - WORD) (wrap 64 (rc + amount)).

(** ** Strings *)

(** [RocStr] *)
Record RocStr := mkStr { s_bytes : Z; s_capacity_or_alloc_ptr : Z; s_length : Z }.

Definition ROC_STR_SIZE : Z := 24.
Definition ROC_SMALL_STR_BIT : Z := 2 ^ 63.

(** The struct as bytes, and back. *)
Definition str_bytes (s : RocStr) : list Z := le 8 (s_bytes s) ++ le 8 (s_capacity_or_alloc_ptr s) ++ le 8 (s_length s).
Definition str_of_bytes (l : list Z) : RocStr := mkStr (of_le (take 8 l)) (of_le (take 8 (drop 8 l))) (of_le (take 8 (drop 16 l))).

Definition str_empty : RocStr := mkStr 0 0 ROC_SMALL_STR_BIT.

(** [(self.length as isize) < 0] *)
Definition is_small_str (s : RocStr) : bool := 2 ^ 63 <=? s_length s.

Definition str_is_seamless_slice (s : RocStr) : bool :=
  negb (is_small_str s) && negb (Z.land (s_capacity_or_alloc_ptr s) SEAMLESS_SLICE_TAG =? 0).

(** [RocStr::len]: of a small string, the last byte less its top bit. *)
Definition str_len (s : RocStr) : Z :=
  if is_small_str s then Z.lxor (nth 23 (str_bytes s) 0) 128 else s_length s.

Definition str_is_empty (s : RocStr) : bool := str_len s =? 0.

(** [RocStr::as_slice], by [as_u8_ptr]: within the struct, or in memory. *)
Definition str_as_slice (s : RocStr) : M (list Z) :=
  if is_small_str s then mret (take (Z.to_nat (str_len s)) (str_bytes s)) else load (s_bytes s) (str_len s).

(** [RocStr::as_str]: panics on what isn't UTF-8. *)
Definition as_str (s : RocStr) : M (list Z) :=
  l ← str_as_slice s; if Utf8.valid l then mret l else expect None.

(** [copy_nonoverlapping] of [new] to the start of the struct. *)
Definition overwrite (new old : list Z) : list Z := new ++ drop (length new) old.

(** [RocStr::from_slice] *)
Definition str_from_slice (slice : list Z) : M RocStr :=
  if negb (Utf8.valid slice) then expect None
  else if Z.of_nat (length slice) <? ROC_STR_SIZE then
    let copied := overwrite slice (str_bytes str_empty) in
    mret (str_of_bytes (take 23 copied ++ [Z.lor (Z.of_nat (length slice)) 128]))
  else
    total ← expect (checked_add WORD (Z.of_nat (length slice)));
    base ← alloc place WORD total;
    let data := base + WORD in
    _ ← store_word (data - WORD) 1;
    _ ← store data slice;
    mret (mkStr data (shifted_capacity (Z.of_nat (length slice))) (Z.of_nat (length slice))).

(** [RocStr::get_allocation_ptr] *)
Definition str_allocation_ptr (s : RocStr) : Z :=
  if str_is_seamless_slice s then Z.ldiff (s_capacity_or_alloc_ptr s) SEAMLESS_SLICE_TAG else s_bytes s.

(** [RocStr::decref], [incref] and [is_unique] *)
Definition str_decref (s : RocStr) : M unit :=
  if is_small_str s then mret tt
  else if str_allocation_ptr s =? 0 then mret tt
  else decref_at (str_allocation_ptr s) WORD WORD (mret tt).

Definition str_incref (s : RocStr) (amount : Z) : M unit :=
  if is_small_str s then mret tt
  else if str_allocation_ptr s =? 0 then mret tt
  else incref_at (str_allocation_ptr s) amount.

Definition str_is_unique (s : RocStr) : M bool :=
  if is_small_str s then mret true
  else if str_allocation_ptr s =? 0 then mret true
  else count ← load_word (str_allocation_ptr s - WORD); mret ((count =? 0) || (count =? 1)).

(** ** Lists *)

(** The element type [T], and [ELEMENTS_REFCOUNTED]. *)
Record Elem := mkElem { size_of : Z; align_of : Z; refcounted : bool }.

(** [RocListWith] *)
Record RocListWith := mkList { elements : Z; l_length : Z; capacity_or_alloc_ptr : Z }.

Definition header_bytes (T : Elem) : Z := Z.max (if refcounted T then 2 * WORD else WORD) (align_of T).
Definition alloc_align (T : Elem) : Z := Z.max (align_of T) WORD.

Definition list_empty : RocListWith := mkList 0 0 0.
Definition list_is_empty (l : RocListWith) : bool := l_length l =? 0.
Definition is_seamless_slice (l : RocListWith) : bool := negb (Z.land (capacity_or_alloc_ptr l) SEAMLESS_SLICE_TAG =? 0).

(** [get_allocation_ptr] *)
Definition allocation_ptr (l : RocListWith) : Z :=
  if is_seamless_slice l then Z.ldiff (capacity_or_alloc_ptr l) SEAMLESS_SLICE_TAG else elements l.

(** [allocation_element_count]: of a slice with counted elements, the number
    in the allocation's header. *)
Definition allocation_element_count (T : Elem) (l : RocListWith) : M Z :=
  if is_seamless_slice l && refcounted T then
    if allocation_ptr l =? 0 then mret 0 else load_word (allocation_ptr l - 2 * WORD)
  else mret (l_length l).

(** [n] elements from an address on. *)
Fixpoint chunk (size : nat) (n : nat) (l : list Z) : list (list Z) :=
  match n with O => [] | S n => take size l :: chunk size n (drop size l) end.
Definition load_items (T : Elem) (a n : Z) : M (list (list Z)) :=
  l ← load a (n * size_of T); mret (chunk (Z.to_nat (size_of T)) (Z.to_nat n) l).

Definition list_as_slice (T : Elem) (l : RocListWith) : M (list (list Z)) :=
  if elements l =? 0 then mret [] else load_items T (elements l) (l_length l).

Definition allocation_items (T : Elem) (l : RocListWith) : M (list (list Z)) :=
  if elements l =? 0 then mret [] else n ← allocation_element_count T l; load_items T (allocation_ptr l) n.

(** [RocListWith::allocate] *)
Definition list_allocate (T : Elem) (length : Z) : M RocListWith :=
  if length =? 0 then mret list_empty
  else
    data_bytes ← expect (checked_mul length (size_of T));
    total ← expect (checked_add data_bytes (header_bytes T));
    base ← alloc place (alloc_align T) total;
    let data := base + header_bytes T in
    _ ← store_word (data - WORD) 1;
    _ ← (if refcounted T then store_word (data - 2 * WORD) length else mret tt);
    mret (mkList data length (shifted_capacity length)).

(** [RocListWith::from_slice] *)
Definition list_from_slice (T : Elem) (slice : list (list Z)) : M RocListWith :=
  match slice with
  | [] => mret list_empty
  | _ =>
      l ← list_allocate T (Z.of_nat (length slice));
      _ ← store (elements l) (concat slice);
      mret l
  end.

(** [RocListWith::decref]: shallow; [release_with]: each element of the
    allocation is released before it is freed. *)
Definition list_decref (T : Elem) (l : RocListWith) : M unit :=
  if elements l =? 0 then mret tt
  else if allocation_ptr l =? 0 then mret tt
  else decref_at (allocation_ptr l) (header_bytes T) (alloc_align T) (mret tt).

Fixpoint release_all (release : list Z -> M unit) (items : list (list Z)) : M unit :=
  match items with [] => mret tt | x :: items => _ ← release x; release_all release items end.

Definition list_release_with (T : Elem) (release : list Z -> M unit) (l : RocListWith) : M unit :=
  if elements l =? 0 then mret tt
  else if allocation_ptr l =? 0 then mret tt
  else decref_at (allocation_ptr l) (header_bytes T) (alloc_align T)
         (if refcounted T then items ← allocation_items T l; release_all release items else mret tt).

(** [decref_list_of_str]: [release_with] by [RocStrRelease], which is
    [RocStr::decref]. *)
Definition STR : Elem := mkElem ROC_STR_SIZE WORD true.
Definition decref_list_of_str (l : RocListWith) : M unit := list_release_with STR (fun x => str_decref (str_of_bytes x)) l.

Definition list_incref (l : RocListWith) (amount : Z) : M unit :=
  if elements l =? 0 then mret tt
  else if allocation_ptr l =? 0 then mret tt
  else incref_at (allocation_ptr l) amount.

Definition list_is_unique (l : RocListWith) : M bool :=
  if allocation_ptr l =? 0 then mret true
  else count ← load_word (allocation_ptr l - WORD); mret ((count =? 0) || (count =? 1)).

Definition has_one_ref (l : RocListWith) : M bool :=
  if allocation_ptr l =? 0 then mret false else count ← load_word (allocation_ptr l - WORD); mret (count =? 1).

(** ** Boxes *)

Definition box_header (payload_alignment : Z) (payload_contains_refcounted : bool) : Z :=
  Z.max (if payload_contains_refcounted then 2 * WORD else WORD) payload_alignment.
Definition box_align (payload_alignment : Z) : Z := Z.max WORD payload_alignment.

(** [allocate_box]: the payload is for the caller to fill. *)
Definition allocate_box (payload_size payload_alignment : Z) (payload_contains_refcounted : bool) : M Z :=
  let header := box_header payload_alignment payload_contains_refcounted in
  total ← expect (checked_add header payload_size);
  base ← alloc place (box_align payload_alignment) total;
  let data := base + header in
  _ ← store_word (data - WORD) 1;
  mret data.

(** [free_box_allocation] *)
Definition free_box_allocation (data payload_alignment : Z) (payload_contains_refcounted : bool) : M unit :=
  dealloc (data - box_header payload_alignment payload_contains_refcounted) (box_align payload_alignment).

(** [decref_box_with], [free_box_with], [incref_box] and [is_unique_box];
    [payload_decref] is the callback, if there is one. *)
Definition run_callback (payload_decref : option (Z -> M unit)) (data : Z) : M unit :=
  match payload_decref with Some f => f data | None => mret tt end.

Definition decref_box_with (data payload_alignment : Z) (payload_contains_refcounted : bool) (payload_decref : option (Z -> M unit)) : M unit :=
  if data =? 0 then mret tt
  else decref_at data (box_header payload_alignment payload_contains_refcounted) (box_align payload_alignment) (run_callback payload_decref data).

Definition decref_box (data : Z) : M unit := decref_box_with data WORD false None.

Definition free_box_with (data payload_alignment : Z) (payload_contains_refcounted : bool) (payload_decref : option (Z -> M unit)) : M unit :=
  if data =? 0 then mret tt
  else _ ← run_callback payload_decref data; free_box_allocation data payload_alignment payload_contains_refcounted.

Definition incref_box (data amount : Z) : M unit := if data =? 0 then mret tt else incref_at data amount.

Definition is_unique_box (data : Z) : M bool :=
  if data =? 0 then mret true else count ← load_word (data - WORD); mret (count =? 1).

(** *** Boxed functions: a function pointer, its drop callback and what it
    captures. *)
Definition CALLABLE_ALIGNMENT : Z := 16.
Definition CAPTURE_OFFSET : Z := Z.ldiff (2 * WORD + 15) 15.

Definition erased_callable_payload_size (capture_size : Z) : option Z := checked_add CAPTURE_OFFSET capture_size.

(** [roc_erased_callable_allocate]; the callback is a word, 0 for none. *)
Definition erased_callable_allocate (callable_fn_ptr on_drop capture_size : Z) : M Z :=
  let extra_bytes := Z.max WORD CALLABLE_ALIGNMENT in
  payload ← expect (erased_callable_payload_size capture_size);
  total ← expect (checked_add extra_bytes payload);
  base ← alloc place (Z.max WORD CALLABLE_ALIGNMENT) total;
  let data := base + extra_bytes in
  _ ← store_word (data - WORD) 1;
  _ ← store_word data callable_fn_ptr;
  _ ← store_word (data + WORD) on_drop;
  mret data.

(** [drop_erased_callable_payload]: [call] runs the function at an address on
    the capture. *)
Definition drop_erased_callable_payload (call : Z -> Z -> M unit) (data : Z) : M unit :=
  if data =? 0 then mret tt
  else on_drop ← load_word (data + WORD); if on_drop =? 0 then mret tt else call on_drop (data + CAPTURE_OFFSET).

Definition incref_erased_callable (callable amount : Z) : M unit := incref_box callable amount.
Definition decref_erased_callable (call : Z -> Z -> M unit) (callable : Z) : M unit :=
  decref_box_with callable CALLABLE_ALIGNMENT false (Some (drop_erased_callable_payload call)).

End Values.
End RocValues.
