(* ===== verification/RocRefs.v ===== *)
(** * References to Roc values ([src/roc_platform_abi.rs])

    What the operations of [RocValues.v] guarantee together.  The memory is
    described by its counted blocks ([Blocks]): for each data pointer where
    its allocation starts, what it was allocated with and how many references
    there are; [Rep] relates the two.  On top of it a program that holds
    references: it makes strings, lists and boxes, retains and releases them
    and takes slices of them. *)
From S2P Require Import Prelude RocMem RocValues Stdin.
Local Open Scope Z_scope.

Module RocRefs.
Import RocMem RocValues.

(** ** Strings in their own words *)

Lemma valid_bytes l : Utf8.valid l = true -> Forall is_byte l.
Proof.
  induction l as [[|b0 l] IH] using (induction_ltof1 _ (@length Z)); unfold ltof in IH; intros Hv; [constructor|].
  apply Utf8.valid_next in Hv as (c & l' & Hc & E & Hv).
  assert (Forall is_byte (Utf8.arith c) /\ (0 < length (Utf8.arith c))%nat) as [Hb Hp].
  { unfold Utf8.arith, Utf8.scalar, is_byte in *. repeat case_goal; split; try (simpl; lia);
      repeat constructor; rewrite ?Z.ltb_lt, ?Z.ltb_ge in *; Z.to_euclidean_division_equations; lia. }
  rewrite E. apply Forall_app. split; [done|]. apply IH; [|done]. rewrite E, length_app. lia.
Qed.

Lemma of_le_app x y : of_le (x ++ y) = of_le x + 256 ^ Z.of_nat (length x) * of_le y.
Proof.
  induction x as [|b x IH]; [cbn [app length of_le]; lia|]. cbn [app length of_le]. rewrite IH, Nat2Z.inj_succ, Z.pow_succ_r by lia. lia.
Qed.

Lemma str_bytes_of_bytes b : length b = 24%nat -> Forall is_byte b -> str_bytes (str_of_bytes b) = b.
Proof.
  intros Hl Hb. unfold str_bytes, str_of_bytes. cbn [s_bytes s_capacity_or_alloc_ptr s_length].
  assert (forall x, length x = 8%nat -> Forall is_byte x -> le 8 (of_le x) = x) as Hle by (intros x Hx Hf; rewrite <- Hx at 1; by apply le_of_le).
  rewrite !Hle by first [rewrite ?length_take, ?length_drop; lia | by repeat first [apply Forall_take|apply Forall_drop]].
  replace (take 8 (drop 16 b)) with (drop 8 (drop 8 b)) by (rewrite drop_drop; symmetry; apply take_ge; rewrite length_drop; lia).
  by rewrite !take_drop.
Qed.

Lemma small_len n : (n < 24)%nat -> Z.lor (Z.of_nat n) 128 = 128 + Z.of_nat n /\ Z.lxor (Z.lor (Z.of_nat n) 128) 128 = Z.of_nat n.
Proof. intros H. do 24 (destruct n as [|n]; [by split|]). lia. Qed.

(** The struct a small string is made into. *)
Lemma small_str slice : Forall is_byte slice -> (length slice < 24)%nat ->
  let s := str_of_bytes (take 23 (overwrite slice (str_bytes str_empty)) ++ [Z.lor (Z.of_nat (length slice)) 128]) in
  is_small_str s = true /\ str_len s = Z.of_nat (length slice) /\ forall m, str_as_slice s m = Done slice m.
Proof.
  intros Hb Hl s. destruct (small_len _ Hl) as [Hor Hxor].
  set (b := take 23 (overwrite slice (str_bytes str_empty)) ++ [Z.lor (Z.of_nat (length slice)) 128]).
  assert (length (overwrite slice (str_bytes str_empty)) = 24%nat) as Ho.
  { unfold overwrite. rewrite length_app, length_drop. change (length (str_bytes str_empty)) with 24%nat. lia. }
  assert (length b = 24%nat) as Hlb by (unfold b; rewrite length_app, length_take, Ho; done).
  assert (Forall is_byte b) as Hbb.
  { unfold b. apply Forall_app. split.
    - apply Forall_take. unfold overwrite. apply Forall_app. split; [done|]. apply Forall_drop.
      unfold str_bytes. repeat (apply Forall_app; split); apply le_bytes.
    - constructor; [|constructor]. unfold is_byte. lia. }
  assert (str_bytes s = b) as Es by (by apply str_bytes_of_bytes).
  assert (is_small_str s = true) as Hs.
  { unfold is_small_str, s. cbn [s_length str_of_bytes]. apply Z.leb_le. fold b.
    rewrite (take_ge (drop 16 b)) by (rewrite length_drop; lia).
    replace (drop 16 b) with (drop 16 (take 23 b) ++ [Z.lor (Z.of_nat (length slice)) 128]).
    - rewrite of_le_app, length_drop, length_take, Hlb. change (256 ^ Z.of_nat (23 `min` 24 - 16)) with (2 ^ 56). cbn [of_le].
      pose proof (of_le_range (drop 16 (take 23 b)) ltac:(by apply Forall_drop, Forall_take)). lia.
    - unfold b at 2. rewrite (drop_app_le _ _ 16) by (rewrite length_take, Ho; lia). do 2 f_equal. unfold b.
      rewrite take_app_le by (rewrite length_take, Ho; lia). by rewrite take_take. }
  assert (str_len s = Z.of_nat (length slice)) as Hlen.
  { unfold str_len. rewrite Hs, Es. unfold b. rewrite app_nth2 by (rewrite length_take, Ho; lia). rewrite length_take, Ho. exact Hxor. }
  split_and!; [done..|]. intros m. unfold str_as_slice. rewrite Hs, Hlen, Es, Nat2Z.id. unfold mret, M_ret. f_equal. unfold b.
  rewrite take_app_le by (rewrite length_take, Ho; lia). rewrite take_take, Nat.min_l by lia. unfold overwrite. by rewrite take_app_length.
Qed.

(** ** Counted blocks *)

(** A block by its data pointer: [header] before the data, [size] of data. *)
Record Block := mkBlock { header : Z; align : Z; size : Z; count : Z }.
Abbreviation Blocks := (gmap Z Block).

Definition with_count (n : Z) (b : Block) : Block := mkBlock (header b) (align b) (size b) n.

(** One reference more or fewer. *)
Definition retain (d n : Z) (g : Blocks) : Blocks := alter (fun b => with_count (count b + n) b) d g.
Definition release (d : Z) (g : Blocks) : Blocks :=
  match g !! d with
  | Some b => if count b =? 1 then delete d g else <[d := with_count (count b - 1) b]> g
  | None => g
  end.

Record Rep (m : Mem) (g : Blocks) : Prop := {
  r_tidy : tidy (live m);
  r_block : forall d b, g !! d = Some b ->
    live m !! (d - header b) = Some (header b + size b, align b) /\ WORD <= header b /\ 0 <= size b /\
    word m (d - WORD) = count b /\ 0 <= count b < 2 ^ 63 /\ 0 < d - header b /\ d + size b < 2 ^ 63 /\ (WORD | d);
  r_all : forall p v, live m !! p = Some v -> exists d b, g !! d = Some b /\ p = d - header b;
  r_one : forall d b d' b', g !! d = Some b -> g !! d' = Some b' -> d - header b = d' - header b' -> d = d';
}.

(** A block's bytes other than its count. *)
Definition uncounted (d : Z) (b : Block) (x : Z) : Prop := d - header b <= x < d - WORD \/ d <= x < d + size b.

(** They are unchanged between two memories. *)
Definition data_kept (g : Blocks) (m m' : Mem) : Prop :=
  forall d b x, g !! d = Some b -> uncounted d b x -> contents m' x = contents m x.

(** Two blocks' regions, headers included, are apart. *)
Lemma blocks_apart m g d b d' b' : Rep m g -> g !! d = Some b -> g !! d' = Some b' -> d <> d' ->
  apart (d - header b) (header b + size b) (d' - header b') (header b' + size b').
Proof.
  intros HR Hd Hd' Hne. destruct (r_block _ _ HR _ _ Hd) as (Hl & _). destruct (r_block _ _ HR _ _ Hd') as (Hl' & _).
  eapply (r_tidy _ _ HR); [done..|]. intros E. apply Hne. by eapply (r_one _ _ HR).
Qed.

Lemma word_write_apart m a b v : a + WORD <= b \/ b + WORD <= a -> word (mkMem (live m) (write b (le 8 v) (contents m))) a = word m a.
Proof. intros H. unfold word. cbn [contents]. rewrite read_write_apart; [done|]. rewrite length_le. done. Qed.

(** A new count for a block. *)
Definition set_word (m : Mem) (a v : Z) : Mem := mkMem (live m) (write a (le 8 v) (contents m)).

Lemma rep_set_count m g d b n : Rep m g -> g !! d = Some b -> 0 <= n < 2 ^ 63 ->
  Rep (set_word m (d - WORD) n) (<[d := with_count n b]> g) /\ data_kept g m (set_word m (d - WORD) n).
Proof.
  intros HR Hd Hn. pose proof (r_block _ _ HR _ _ Hd) as (Hl & Hh & Hs & Hw & Hc & Hp & Hb & Ha). split.
  - split; [apply HR| | |].
    + intros d' b' Hd'. destruct (decide (d' = d)) as [->|Hne].
      * rewrite lookup_insert_eq in Hd'. injection Hd' as <-. cbn. split_and!; try done; try lia. apply word_write. lia.
      * rewrite lookup_insert_ne in Hd' by done. pose proof (r_block _ _ HR _ _ Hd') as (? & ? & ? & Hw' & ?). cbn. split_and!; try tauto.
        rewrite <- Hw'. apply word_write_apart. pose proof (blocks_apart _ _ _ _ _ _ HR Hd Hd' ltac:(done)) as Hap. unfold apart, WORD in *. lia.
    + intros p v Hp'. destruct (r_all _ _ HR p v Hp') as (d' & b' & Hd' & ->). destruct (decide (d' = d)) as [->|Hne].
      * exists d, (with_count n b). rewrite lookup_insert_eq. rewrite Hd in Hd'. by simplify_eq.
      * exists d', b'. by rewrite lookup_insert_ne.
    + intros d1 b1 d2 b2 H1 H2 E. destruct (decide (d1 = d)) as [->|H1'], (decide (d2 = d)) as [->|H2']; [done| | |].
      * rewrite lookup_insert_eq in H1. rewrite lookup_insert_ne in H2 by done. simplify_eq. by eapply (r_one _ _ HR).
      * rewrite lookup_insert_ne in H1 by done. rewrite lookup_insert_eq in H2. simplify_eq. by eapply (r_one _ _ HR).
      * rewrite lookup_insert_ne in H1, H2 by done. by eapply (r_one _ _ HR).
  - intros d' b' x Hd' Hx. unfold set_word. cbn [contents]. apply write_outside. rewrite length_le. destruct (decide (d' = d)) as [->|Hne].
    + unfold uncounted, WORD in *. lia.
    + pose proof (blocks_apart _ _ _ _ _ _ HR Hd Hd' ltac:(done)) as Hap. pose proof (r_block _ _ HR _ _ Hd') as (_ & ? & ? & _). unfold uncounted, apart, WORD in *. lia.
Qed.

Lemma load_count m g d b : Rep m g -> g !! d = Some b -> load_word (d - WORD) m = Done (count b) m.
Proof.
  intros HR Hd. pose proof (r_block _ _ HR _ _ Hd) as (Hl & Hh & Hs & Hw & _). rewrite <- Hw.
  eapply load_word_at; [done|lia|unfold WORD in *; lia].
Qed.

Lemma store_count m g d b n : Rep m g -> g !! d = Some b -> store_word (d - WORD) n m = Done tt (set_word m (d - WORD) n).
Proof. intros HR Hd. pose proof (r_block _ _ HR _ _ Hd) as (Hl & Hh & Hs & _). eapply store_word_at; [done|lia|unfold WORD in *; lia]. Qed.

(** [incref]: the block has so many references more. *)
Lemma incref_rep m g d b n : Rep m g -> g !! d = Some b -> 1 <= count b -> 0 <= n -> count b + n < 2 ^ 63 ->
  exists m', incref_at d n m = Done tt m' /\ Rep m' (retain d n g) /\ data_kept g m m'.
Proof.
  intros HR Hd Hc1 Hn Hc. exists (set_word m (d - WORD) (count b + n)).
  destruct (rep_set_count m g d b (count b + n) HR Hd ltac:(lia)) as [H1 H2]. split_and!; [| |done].
  - unfold incref_at, mbind, M_bind. rewrite (load_count _ _ _ _ HR Hd). rewrite (proj2 (Z.eqb_neq _ _)) by lia.
    rewrite wrap_small by lia. by eapply store_count.
  - unfold retain. replace (alter _ d g) with (<[d := with_count (count b + n) b]> g); [done|].
    apply map_eq. intros d'. destruct (decide (d' = d)) as [->|Hne].
    + by rewrite lookup_insert_eq, lookup_alter_eq, Hd.
    + by rewrite lookup_insert_ne, lookup_alter_ne.
Qed.

Lemma rep_delete m g d b : Rep m g -> g !! d = Some b ->
  Rep (mkMem (delete (d - header b) (live m)) (contents m)) (delete d g).
Proof.
  intros HR Hd. split; cbn.
  - apply tidy_delete, HR.
  - intros d' b' [Hne Hd']%lookup_delete_Some. pose proof (r_block _ _ HR _ _ Hd') as (? & ?). split; [|tauto].
    rewrite lookup_delete_ne; [done|]. intros E. apply Hne. by eapply (r_one _ _ HR).
  - intros p v [Hne Hp]%lookup_delete_Some. destruct (r_all _ _ HR p v Hp) as (d' & b' & Hd' & ->). exists d', b'.
    split; [|done]. rewrite lookup_delete_ne; [done|]. intros ->. rewrite Hd in Hd'. by simplify_eq.
  - intros d1 b1 d2 b2 [_ H1]%lookup_delete_Some [_ H2]%lookup_delete_Some. by eapply (r_one _ _ HR).
Qed.

(** What [decref_at] does to a block. *)
Lemma decref_at_counted m g d b h a teardown : Rep m g -> g !! d = Some b -> 1 <= count b ->
  decref_at d h a teardown m =
    let m1 := set_word m (d - WORD) (count b - 1) in
    if count b =? 1 then (_ ← teardown; dealloc (d - h) a) m1 else Done tt m1.
Proof.
  intros HR Hd H1. pose proof (r_block _ _ HR _ _ Hd) as (_ & _ & _ & _ & Hc & _).
  unfold decref_at. unfold mbind at 1, M_bind at 1. rewrite (load_count _ _ _ _ HR Hd). rewrite (proj2 (Z.eqb_neq (count b) 0)) by lia.
  rewrite wrap_small by lia. unfold mbind at 1, M_bind at 1. rewrite (store_count _ _ _ _ _ HR Hd). cbv zeta. by destruct (count b =? 1).
Qed.

(** [decref]: one reference fewer; the last one frees the block. *)
Lemma decref_rep m g d b : Rep m g -> g !! d = Some b -> 1 <= count b ->
  exists m', decref_at d (header b) (align b) (mret tt) m = Done tt m' /\ Rep m' (release d g) /\ data_kept g m m'.
Proof.
  intros HR Hd H1. pose proof (r_block _ _ HR _ _ Hd) as (Hl & _ & _ & _ & Hc & _).
  rewrite (decref_at_counted _ _ _ _ _ _ _ HR Hd H1). cbv zeta. unfold release. rewrite Hd. destruct (Z.eqb_spec (count b) 1) as [E|E].
  - exists (mkMem (delete (d - header b) (live m)) (contents (set_word m (d - WORD) (count b - 1)))). split_and!.
    + unfold mbind, M_bind, mret, M_ret, dealloc. cbn. rewrite Hl, Z.eqb_refl. done.
    + pose proof (rep_delete _ _ _ _ HR Hd) as HR2. split; [apply HR2| |apply HR2|apply HR2].
      intros d' b' Hd'. pose proof (r_block _ _ HR2 _ _ Hd') as (? & ? & ? & Hw & ?). split_and!; try tauto. rewrite <- Hw.
      apply lookup_delete_Some in Hd' as [Hne Hd'].
      apply (word_write_apart (mkMem (delete (d - header b) (live m)) (contents m))).
      pose proof (blocks_apart _ _ _ _ _ _ HR Hd Hd' ltac:(done)) as Hap. pose proof (r_block _ _ HR _ _ Hd) as (_ & ? & ? & _). unfold apart, WORD in *. lia.
    + intros d' b' x Hd' Hx. unfold set_word. cbn [contents]. apply write_outside. rewrite length_le. destruct (decide (d' = d)) as [->|Hne]; [unfold uncounted, WORD in *; lia|].
      pose proof (blocks_apart _ _ _ _ _ _ HR Hd Hd' ltac:(done)) as Hap. pose proof (r_block _ _ HR _ _ Hd') as (_ & ? & ? & _). pose proof (r_block _ _ HR _ _ Hd) as (_ & ? & ? & _). unfold uncounted, apart, WORD in *. lia.
  - destruct (rep_set_count m g d b (count b - 1) HR Hd ltac:(lia)) as [H2 H3]. eauto.
Qed.

(** Writes within a block, beside its count. *)
Lemma rep_write m g d b a bs : Rep m g -> g !! d = Some b -> d - header b <= a -> a + Z.of_nat (length bs) <= d + size b ->
  a + Z.of_nat (length bs) <= d - WORD \/ d <= a ->
  Rep (mkMem (live m) (write a bs (contents m))) g /\
  forall d' b' x, d' <> d -> g !! d' = Some b' -> uncounted d' b' x -> write a bs (contents m) x = contents m x.
Proof.
  intros HR Hd H1 H2 H3. assert (forall d' b' x, d' <> d -> g !! d' = Some b' -> d' - header b' <= x < d' + size b' -> write a bs (contents m) x = contents m x) as Hx.
  { intros d' b' x Hne Hd' Hx. apply write_outside. pose proof (blocks_apart _ _ _ _ _ _ HR Hd Hd' ltac:(done)) as Hap. unfold apart in Hap. lia. }
  split.
  - split; [apply HR| |apply HR|apply HR]. intros d' b' Hd'. pose proof (r_block _ _ HR _ _ Hd') as (? & ? & ? & Hw & ?). split_and!; try tauto.
    rewrite <- Hw. unfold word. f_equal. apply read_ext. intros x Hxr. cbn [contents]. destruct (decide (d' = d)) as [->|Hne].
    + apply write_outside. unfold WORD in *. lia.
    + eapply Hx; [done..|]. unfold WORD in *. lia.
  - intros d' b' x Hne Hd' Hxr. pose proof (r_block _ _ HR _ _ Hd') as (_ & ? & ? & _). eapply Hx; [done..|]. unfold uncounted, WORD in *. lia.
Qed.

Section Refs.
Variable place : gmap Z (Z * Z) -> Z -> Z -> option Z.
Context `{!Placement place}.

(** A block fresh from the allocator, its count written. *)
Lemma rep_new m g al hb n p : Rep m g -> place (live m) (hb + n) al = Some p -> WORD <= hb -> 0 <= n -> (WORD | hb) ->
  let d := p + hb in
  let m' := set_word (mkMem (<[p := (hb + n, al)]> (live m)) (contents m)) (d - WORD) 1 in
  Rep m' (<[d := mkBlock hb al n 1]> g) /\ data_kept g m m' /\ g !! d = None.
Proof.
  intros HR Hp Hh Hn Hdiv d m'. destruct (placed place _ _ _ _ Hp) as (Hpos & Hmax & Hw & _ & Hnew & Hap).
  assert (forall d' b', g !! d' = Some b' -> apart p (hb + n) (d' - header b') (header b' + size b') /\ WORD <= header b' /\ 0 <= size b') as Hg.
  { intros d' b' Hd'. destruct (r_block _ _ HR _ _ Hd') as (Hl & ? & ? & _). split; [by eapply Hap|done]. }
  assert (forall d' b', g !! d' = Some b' -> d' <> d) as Hne.
  { intros d' b' Hd' ->. destruct (Hg _ _ Hd') as (Ha & ? & ?). unfold apart, d, WORD in *. lia. }
  assert (g !! d = None) as Hnone by (destruct (g !! d) eqn:E; [by destruct (Hne _ _ E)|done]).
  assert (forall d' b' x, g !! d' = Some b' -> d' - header b' <= x < d' + size b' -> contents m' x = contents m x) as Hx.
  { intros d' b' x Hd' Hx. unfold m', set_word. cbn [contents]. apply write_outside. rewrite length_le. destruct (Hg _ _ Hd') as (Ha & ? & ?).
    unfold apart, d, WORD in *. lia. }
  split_and!; [split| |done].
  - by apply (tidy_insert place); [apply HR|].
  - intros d' b' Hd'. destruct (decide (d' = d)) as [->|Hd''].
    + rewrite lookup_insert_eq in Hd'. injection Hd' as <-. cbn [header size align count]. unfold m', set_word. cbn [live].
      replace (d - hb) with p by (unfold d; lia). rewrite lookup_insert_eq. split_and!; try done; try (unfold d; lia).
      * apply (word_write (mkMem (<[p := (hb + n, al)]> (live m)) (contents m)) (d - WORD) 1). lia.
      * unfold d. by apply Z.divide_add_r.
    + rewrite lookup_insert_ne in Hd' by done. destruct (r_block _ _ HR _ _ Hd') as (Hl & ? & ? & Hwd & ?). split_and!; try tauto.
      * unfold m', set_word. cbn [live]. rewrite lookup_insert_ne; [done|]. intros E. rewrite E in Hnew. congruence.
      * rewrite <- Hwd. unfold word. f_equal. apply read_ext. intros x Hxr. eapply Hx; [done|]. unfold WORD in *. lia.
  - intros q v Hq. unfold m', set_word in Hq. cbn [live] in Hq. destruct (decide (q = p)) as [->|Hqp].
    + exists d, (mkBlock hb al n 1). rewrite lookup_insert_eq. split; [done|]. cbn. unfold d. lia.
    + rewrite lookup_insert_ne in Hq by done. destruct (r_all _ _ HR _ _ Hq) as (d' & b' & Hd' & ->). exists d', b'.
      split; [|done]. rewrite lookup_insert_ne; [done|]. intros E. subst. by destruct (Hne _ _ Hd').
  - intros d1 b1 d2 b2 H1 H2 E. destruct (decide (d1 = d)) as [->|H1'], (decide (d2 = d)) as [->|H2']; [done| | |].
    + rewrite lookup_insert_eq in H1. rewrite lookup_insert_ne in H2 by done. simplify_eq. cbn in E.
      destruct (Hg _ _ H2) as (Ha & ? & ?). unfold apart, d, WORD in *. lia.
    + rewrite lookup_insert_ne in H1 by done. rewrite lookup_insert_eq in H2. simplify_eq. cbn in E.
      destruct (Hg _ _ H1) as (Ha & ? & ?). unfold apart, d, WORD in *. lia.
    + rewrite lookup_insert_ne in H1, H2 by done. by eapply (r_one _ _ HR).
  - intros d' b' x Hd' Hxr. destruct (Hg _ _ Hd') as (_ & ? & ?). eapply Hx; [done|]. unfold uncounted, WORD in *. lia.
Qed.

(** ** Values *)

Inductive Value := VStr (s : RocStr) | VList (T : Elem) (l : RocListWith) | VBox (data size alignment : Z) (refcounted : bool).

(** The allocation a value refers to: its data pointer, and what its release
    takes the header and the alignment for. *)
Definition parts (v : Value) : option (Z * Z * Z) :=
  match v with
  | VStr s => if is_small_str s || (str_allocation_ptr s =? 0) then None else Some (str_allocation_ptr s, WORD, WORD)
  | VList T l => if (elements l =? 0) || (allocation_ptr l =? 0) then None else Some (allocation_ptr l, header_bytes T, alloc_align T)
  | VBox d _ al r => if d =? 0 then None else Some (d, box_header al r, box_align al)
  end.

Definition value_decref (v : Value) : M unit :=
  match v with VStr s => str_decref s | VList T l => list_decref T l | VBox d _ al r => decref_box_with d al r None end.
Definition value_incref (v : Value) (n : Z) : M unit :=
  match v with VStr s => str_incref s n | VList _ l => list_incref l n | VBox d _ _ _ => incref_box d n end.

(** What the value holds, as bytes. *)
Definition value_view (v : Value) : M (list Z) :=
  match v with
  | VStr s => str_as_slice s
  | VList T l => items ← list_as_slice T l; mret (concat items)
  | VBox d n _ _ => load d n
  end.

(** Where it is, of values that refer to an allocation. *)
Definition span (v : Value) : Z * Z :=
  match v with VStr s => (s_bytes s, s_length s) | VList T l => (elements l, l_length l * size_of T) | VBox d n _ _ => (d, n) end.

Lemma value_decref_parts v : value_decref v = match parts v with Some (d, h, a) => decref_at d h a (mret tt) | None => mret tt end.
Proof.
  destruct v as [s|T l|d n al r]; cbn [value_decref parts].
  - unfold str_decref. destruct (is_small_str s); [done|]. cbn. by destruct (_ =? 0).
  - unfold list_decref. destruct (elements l =? 0); [done|]. cbn. by destruct (_ =? 0).
  - unfold decref_box_with. by destruct (d =? 0).
Qed.

Lemma value_incref_parts v n : value_incref v n = match parts v with Some (d, _, _) => incref_at d n | None => mret tt end.
Proof.
  destruct v as [s|T l|d k al r]; cbn [value_incref parts].
  - unfold str_incref. destruct (is_small_str s); [done|]. cbn. by destruct (_ =? 0).
  - unfold list_incref. destruct (elements l =? 0); [done|]. cbn. by destruct (_ =? 0).
  - unfold incref_box. by destruct (d =? 0).
Qed.

Lemma concat_chunk size n l : length l = (n * size)%nat -> concat (chunk size n l) = l.
Proof.
  revert l. induction n as [|n IH]; intros l Hl; cbn [chunk concat]; [by destruct l|].
  rewrite IH by (rewrite length_drop; lia). apply take_drop.
Qed.

(** A value is good: it needs no memory, or it is within a block of its kind
    and reads as [c]. *)
Definition good (m : Mem) (g : Blocks) (v : Value) (c : list Z) : Prop :=
  match parts v with
  | None => forall m', value_view v m' = Done c m'
  | Some (d, h, a) => exists b, g !! d = Some b /\ header b = h /\ align b = a /\
      d <= (span v).1 /\ 0 <= (span v).2 /\ (span v).1 + (span v).2 <= d + size b /\ read (span v).1 (span v).2 (contents m) = c /\
      match v with VList T l => 0 < size_of T /\ 0 <= l_length l | _ => True end
  end.

Lemma good_view m g v c : Rep m g -> good m g v c -> value_view v m = Done c m.
Proof.
  intros HR Hg. unfold good in Hg. destruct (parts v) as [[[d h] a]|] eqn:Ep; [|done].
  destruct Hg as (b & Hb & Hh & Ha & H1 & H2 & H3 & Hc & Hv). destruct (r_block _ _ HR _ _ Hb) as (Hl & ? & _).
  assert (load (span v).1 (span v).2 m = Done c m) as Hload by (rewrite <- Hc; eapply load_at; [done|unfold WORD in *; lia|lia]).
  destruct v as [s|T l|e n al r]; cbn [value_view parts span fst snd] in *; [| |done].
  - unfold str_as_slice, str_len. by destruct (is_small_str s).
  - unfold list_as_slice. destruct (elements l =? 0); [done|]. unfold load_items, mbind, M_bind. rewrite Hload. unfold mret, M_ret. f_equal.
    apply concat_chunk. rewrite <- Hc, length_read by lia. rewrite Z2Nat.inj_mul by lia. done.
Qed.

(** Goodness only depends on the data of the value's block. *)
Lemma good_kept m m' g g' v c : good m g v c ->
  (forall d b, g !! d = Some b -> (exists h a, parts v = Some (d, h, a)) -> exists b', g' !! d = Some b' /\ header b' = header b /\ align b' = align b /\ size b' = size b) ->
  data_kept g m m' -> good m' g' v c.
Proof.
  unfold good. destruct (parts v) as [[[d h] a]|] eqn:Ep; [|done]. intros (b & Hb & Hh & Ha & H1 & H2 & H3 & Hc & Hv) Hg Hk.
  destruct (Hg d b Hb ltac:(eauto)) as (b' & Hb' & E1 & E2 & E3). exists b'. rewrite E1, E2, E3. split_and!; try done.
  rewrite <- Hc. apply read_ext. intros x Hx. eapply Hk; [done|]. unfold uncounted. lia.
Qed.

(** ** Making values *)

(** What making a value leaves: nothing, or a new block with one reference. *)
Definition Made (m : Mem) (g : Blocks) (m' : Mem) (v : Value) (c : list Z) : Prop :=
  (parts v = None /\ m' = m /\ forall m'', value_view v m'' = Done c m'') \/
  exists d b, parts v = Some (d, header b, align b) /\ count b = 1 /\ g !! d = None /\
    Rep m' (<[d := b]> g) /\ data_kept g m m' /\ good m' (<[d := b]> g) v c.

Lemma land_one x : Z.land x 1 = x mod 2.
Proof. change 1 with (Z.ones 1) at 1. by rewrite Z.land_ones by lia. Qed.

Lemma shifted_capacity_even n : 0 <= n < 2 ^ 63 -> Z.land (shifted_capacity n) SEAMLESS_SLICE_TAG = 0.
Proof.
  intros Hn. unfold shifted_capacity, u64_shl, SEAMLESS_SLICE_TAG. rewrite Z.shiftl_mul_pow2 by lia. rewrite wrap_small by lia.
  rewrite land_one. change (2 ^ 1) with 2. apply Z.mod_mul. lia.
Qed.

Lemma data_kept_trans g m1 m2 m3 : data_kept g m1 m2 -> data_kept g m2 m3 -> data_kept g m1 m3.
Proof. intros H1 H2 d b x Hd Hx. by rewrite (H2 d b x Hd Hx), (H1 d b x Hd Hx). Qed.

(** Writing into a new block keeps what the others hold. *)
Lemma fill_new m g d b a bs : Rep m (<[d := b]> g) -> g !! d = None -> d - header b <= a -> a + Z.of_nat (length bs) <= d + size b ->
  a + Z.of_nat (length bs) <= d - WORD \/ d <= a ->
  let m' := mkMem (live m) (write a bs (contents m)) in
  store a bs m = Done tt m' /\ Rep m' (<[d := b]> g) /\ data_kept g m m'.
Proof.
  intros HR Hn H1 H2 H3 m'. assert (<[d := b]> g !! d = Some b) as Hd by apply lookup_insert_eq.
  destruct (rep_write _ _ _ _ _ _ HR Hd H1 H2 H3) as [HR' Hk]. split_and!; [|done|].
  - destruct (r_block _ _ HR _ _ Hd) as (Hl & _). eapply store_at; [done|lia|lia].
  - intros d' b' x Hd' Hx. assert (d' <> d) by congruence. eapply Hk; [done| |done]. by rewrite lookup_insert_ne.
Qed.

Lemma str_made slice s m m' g : Rep m g -> str_from_slice place slice m = Done s m' -> Made m g m' (VStr s) slice.
Proof.
  intros HR. unfold str_from_slice. destruct (Utf8.valid slice) eqn:Ev; [|done]. cbn [negb].
  destruct (Z.ltb_spec (Z.of_nat (length slice)) ROC_STR_SIZE) as [Hs|Hs].
  - unfold mret, M_ret. intros [= <- <-]. destruct (small_str slice (valid_bytes _ Ev) ltac:(unfold ROC_STR_SIZE in Hs; lia)) as (H1 & H2 & H3).
    left. split_and!; [|done|done]. cbn [parts]. by rewrite H1.
  - unfold mbind, M_bind. unfold expect, checked_add. destruct (_ <=? _); [|done]. unfold alloc.
    destruct (place (live m) (WORD + Z.of_nat (length slice)) WORD) as [p|] eqn:Ep; [|done].
    destruct (rep_new m g WORD WORD (Z.of_nat (length slice)) p HR Ep) as (HR1 & Hk1 & Hn); [done|lia|by exists 1|].
    set (d := p + WORD) in *. set (b := mkBlock WORD WORD (Z.of_nat (length slice)) 1) in *.
    pose proof (placed place _ _ _ _ Ep) as (Hp & Hmax & Hw & _).
    rewrite (store_word_at _ p (WORD + Z.of_nat (length slice)) WORD); [|cbn; apply lookup_insert_eq|unfold d; lia|unfold d; lia].
    destruct (fill_new _ g d b d slice HR1 Hn) as (Hst & HR2 & Hk2); [cbn; unfold WORD; lia|cbn; lia|right; lia|].
    unfold set_word in Hst. rewrite Hst. unfold mret, M_ret. intros [= <- <-]. right. exists d, b.
    assert (is_small_str (mkStr d (shifted_capacity (Z.of_nat (length slice))) (Z.of_nat (length slice))) = false) as Hsm.
    { unfold is_small_str. apply Z.leb_gt. cbn. unfold WORD in Hmax. lia. }
    assert (parts (VStr (mkStr d (shifted_capacity (Z.of_nat (length slice))) (Z.of_nat (length slice)))) = Some (d, WORD, WORD)) as Hparts.
    { cbn [parts]. unfold str_allocation_ptr, str_is_seamless_slice. rewrite Hsm. cbn [s_capacity_or_alloc_ptr s_bytes negb andb orb].
      rewrite shifted_capacity_even by (unfold WORD in *; lia). cbn. rewrite (proj2 (Z.eqb_neq d 0)) by (unfold d, WORD; lia). done. }
    split_and!; [done|done|done|done|by eapply data_kept_trans|]. unfold good. rewrite Hparts. exists b.
    cbn [span fst snd s_bytes s_length contents]. rewrite lookup_insert_eq, read_write_same. split_and!; cbn; try done; try lia.
Qed.

(** Element types the layout fits: whole words of header, some size. *)
Definition elem_ok (T : Elem) : Prop := 0 < size_of T /\ (WORD | header_bytes T).

Lemma header_ge T : WORD <= header_bytes T.
Proof. unfold header_bytes, WORD. destruct (refcounted T); lia. Qed.

(** Room for [n] elements: a block of its own, not yet filled. *)
Lemma list_allocated T n m g : Rep m g -> elem_ok T -> 0 < n ->
  list_allocate place T n m = Stopped \/
  exists d m', let b := mkBlock (header_bytes T) (alloc_align T) (n * size_of T) 1 in let l := mkList d n (shifted_capacity n) in
    list_allocate place T n m = Done l m' /\ g !! d = None /\ Rep m' (<[d := b]> g) /\ data_kept g m m' /\ parts (VList T l) = Some (d, header b, align b).
Proof.
  intros HR [Hsz Hdiv] Hn0. pose proof (header_ge T) as Hh.
  unfold list_allocate. rewrite (proj2 (Z.eqb_neq n 0)) by lia. unfold mbind, M_bind, expect, checked_mul, checked_add.
  destruct (_ <=? _); [|by left]. destruct (_ <=? _); [|by left]. unfold alloc.
  destruct (place (live m) (n * size_of T + header_bytes T) (alloc_align T)) as [p|] eqn:Ep; [|by left]. right.
  rewrite (Z.add_comm (n * size_of T) (header_bytes T)) in Ep |- *.
  destruct (rep_new m g (alloc_align T) (header_bytes T) (n * size_of T) p HR Ep) as (HR1 & Hk1 & Hn); [done|nia|done|].
  set (d := p + header_bytes T) in *. set (b := mkBlock (header_bytes T) (alloc_align T) (n * size_of T) 1) in *.
  pose proof (placed place _ _ _ _ Ep) as (Hp & Hmax & Hw & _).
  rewrite (store_word_at _ p (header_bytes T + n * size_of T) (alloc_align T)); [|cbn; apply lookup_insert_eq|unfold d; lia|unfold d; nia].
  set (m1 := set_word _ _ _) in HR1, Hk1. fold (set_word (mkMem (<[p := (header_bytes T + n * size_of T, alloc_align T)]> (live m)) (contents m)) (d - WORD) 1).
  fold m1.
  assert (exists m2, (if refcounted T then store_word (d - 2 * WORD) n else mret tt) m1 = Done tt m2 /\ Rep m2 (<[d := b]> g) /\ data_kept g m m2) as (m2 & E2 & HR2 & Hk2).
  { destruct (refcounted T) eqn:Er; [|by exists m1].
    destruct (fill_new m1 g d b (d - 2 * WORD) (le 8 n) HR1 Hn) as (Hst & HR2 & Hk2).
    - cbn. unfold header_bytes. rewrite Er. unfold WORD. lia.
    - rewrite length_le. cbn. unfold WORD. nia.
    - left. rewrite length_le. unfold WORD. lia.
    - eexists. split_and!; [exact Hst|done|by eapply data_kept_trans]. }
  rewrite E2. exists d, m2. split_and!; [done..|]. assert (n <= n * size_of T) by nia.
  cbn [parts]. unfold allocation_ptr, is_seamless_slice. cbn [elements capacity_or_alloc_ptr].
  rewrite shifted_capacity_even by (unfold WORD in *; lia). cbn. rewrite (proj2 (Z.eqb_neq d 0)) by (unfold d, WORD in *; lia). done.
Qed.

Lemma list_made T items l m m' g : Rep m g -> elem_ok T -> Forall (fun x => Z.of_nat (length x) = size_of T) items ->
  list_from_slice place T items m = Done l m' -> Made m g m' (VList T l) (concat items).
Proof.
  intros HR He Hi. pose proof (header_ge T) as Hh. destruct items as [|x items'] eqn:Ei.
  { unfold list_from_slice, mret, M_ret. intros [= <- <-]. by left. }
  rewrite <- Ei in *. assert (Z.of_nat (length (concat items)) = Z.of_nat (length items) * size_of T) as Hlen.
  { clear Ei. induction Hi as [|y ys Hy _ IH]; [done|]. cbn [concat length]. rewrite length_app. lia. }
  set (n := Z.of_nat (length items)) in *. assert (0 < n) as Hn0 by (unfold n; rewrite Ei; cbn; lia).
  assert (list_from_slice place T items = (l ← list_allocate place T n; _ ← store (elements l) (concat items); mret l)) as -> by (by rewrite Ei; unfold n; rewrite Ei).
  unfold mbind, M_bind. destruct (list_allocated T n m g HR He Hn0) as [->|(d & m2 & -> & Hn & HR2 & Hk2 & Hparts)]; [done|].
  set (b := mkBlock (header_bytes T) (alloc_align T) (n * size_of T) 1) in *. destruct He as [Hsz _].
  cbn [elements]. destruct (fill_new m2 g d b d (concat items) HR2 Hn) as (Hst & HR3 & Hk3); [cbn; unfold WORD in *; lia|cbn; lia|right; lia|].
  rewrite Hst. unfold mret, M_ret. intros [= <- <-]. right. exists d, b.
  split_and!; [done|done|done|done|by eapply data_kept_trans|]. unfold good. rewrite Hparts. exists b.
  cbn [span fst snd elements l_length contents]. rewrite lookup_insert_eq, <- Hlen, read_write_same. split_and!; cbn; try done; try lia.
Qed.

Lemma box_made data size_ al r content m1 m m' g : Rep m g -> (WORD | box_header al r) -> size_ = Z.of_nat (length content) ->
  allocate_box place size_ al r m = Done data m1 -> store data content m1 = Done tt m' -> Made m g m' (VBox data size_ al r) content.
Proof.
  intros HR Hdiv -> . assert (WORD <= box_header al r) as Hh by (unfold box_header, WORD; destruct r; lia).
  unfold allocate_box, mbind, M_bind, expect, checked_add. destruct (_ <=? _); [|done]. unfold alloc.
  destruct (place (live m) (box_header al r + Z.of_nat (length content)) (box_align al)) as [p|] eqn:Ep; [|done].
  destruct (rep_new m g (box_align al) (box_header al r) (Z.of_nat (length content)) p HR Ep) as (HR1 & Hk1 & Hn); [done|lia|done|].
  set (d := p + box_header al r) in *. set (b := mkBlock (box_header al r) (box_align al) (Z.of_nat (length content)) 1) in *.
  pose proof (placed place _ _ _ _ Ep) as (Hp & Hmax & Hw & _).
  rewrite (store_word_at _ p (box_header al r + Z.of_nat (length content)) (box_align al)); [|cbn; apply lookup_insert_eq|unfold d; lia|unfold d; lia].
  unfold mret, M_ret. intros [= <- <-]. destruct (fill_new _ g d b d content HR1 Hn) as (Hst & HR2 & Hk2); [cbn; unfold WORD in *; lia|cbn; lia|right; lia|].
  intros Hst'. pose proof (eq_trans (eq_sym Hst) Hst') as [= <-]. right. exists d, b.
  assert (parts (VBox d (Z.of_nat (length content)) al r) = Some (d, box_header al r, box_align al)) as Hparts.
  { cbn [parts]. rewrite (proj2 (Z.eqb_neq d 0)) by (unfold d, WORD in *; lia). done. }
  split_and!; [done|done|done|done|by eapply data_kept_trans|]. unfold good. rewrite Hparts. exists b.
  cbn [span fst snd contents]. rewrite lookup_insert_eq, read_write_same. split_and!; cbn; try done; try lia.
Qed.

(** ** Slices

    Compiled Roc code makes them: a seamless slice refers to the allocation of
    the value it is of, by a tagged pointer where the capacity would be. *)
Definition slice_of (v : Value) (off len : Z) : option Value :=
  match v with
  | VStr s => Some (VStr (mkStr (s_bytes s + off) (Z.lor (str_allocation_ptr s) SEAMLESS_SLICE_TAG) len))
  | VList T l => Some (VList T (mkList (elements l + off * size_of T) len (Z.lor (allocation_ptr l) SEAMLESS_SLICE_TAG)))
  | VBox _ _ _ _ => None
  end.

(** How many bytes an offset or length of a slice is. *)
Definition unit_of (v : Value) : Z := match v with VList T _ => size_of T | _ => 1 end.

Lemma tag_untag d : d mod 2 = 0 -> Z.land (Z.lor d 1) 1 = 1 /\ Z.ldiff (Z.lor d 1) 1 = d.
Proof.
  intros Hd. assert (Z.testbit d 0 = false) as H0.
  { rewrite Z.bit0_odd, <- Z.negb_even. rewrite Zmod_even in Hd. by destruct (Z.even d). }
  split.
  - rewrite Z.land_lor_distr_l, land_one, Hd. done.
  - apply Z.bits_inj'. intros n Hn. rewrite Z.ldiff_spec, Z.lor_spec. destruct (Z.eq_dec n 0) as [->|Hne]; [by rewrite H0|].
    rewrite (Z.bits_above_log2 1 n) by (simpl; lia). by rewrite orb_false_r, andb_true_r.
Qed.

Lemma read_sub a n off len f : 0 <= off -> 0 <= len -> off + len <= n -> read (a + off) len f = take (Z.to_nat len) (drop (Z.to_nat off) (read a n f)).
Proof.
  intros H1 H2 H3. replace n with (off + (len + (n - off - len))) by lia. rewrite !read_app by lia.
  rewrite drop_app_length' by (rewrite length_read; lia). by rewrite take_app_length' by (rewrite length_read; lia).
Qed.

(** A slice is good where its value is. *)
Lemma slice_good m g v c off len v' : Rep m g -> good m g v c -> parts v <> None -> slice_of v off len = Some v' ->
  0 <= off -> 0 <= len -> (off + len) * unit_of v <= (span v).2 ->
  parts v' = parts v /\ good m g v' (take (Z.to_nat (len * unit_of v)) (drop (Z.to_nat (off * unit_of v)) c)).
Proof.
  intros HR Hg Hp Hs H1 H2 H3. unfold good in Hg. destruct (parts v) as [[[d h] a]|] eqn:Ep; [|done].
  destruct Hg as (b & Hb & Hh & Ha & G1 & G2 & G3 & Hc & Hv). destruct (r_block _ _ HR _ _ Hb) as (_ & Hh8 & _ & _ & _ & Hd0 & Hd1 & Hdw).
  assert (d mod 2 = 0) as Hev by (destruct Hdw as [k ->]; unfold WORD; replace (k * 8) with (k * 4 * 2) by lia; apply Z.mod_mul; lia).
  destruct (tag_untag d Hev) as [Ht Hu].
  assert (parts v' = Some (d, h, a) /\ (span v').1 = (span v).1 + off * unit_of v /\ (span v').2 = len * unit_of v /\
    match v' with VList T l => 0 < size_of T /\ 0 <= l_length l | _ => True end) as (Hp' & S1 & S2 & Hv').
  { destruct v as [s|T l|e n al r]; cbn [slice_of] in Hs; [injection Hs as <-..|done]; cbn [parts span fst snd unit_of] in *.
    - assert (is_small_str s = false /\ str_allocation_ptr s = d /\ h = WORD /\ a = WORD) as (E1 & E2 & -> & ->).
      { destruct (is_small_str s); [done|]. cbn in Ep. destruct (_ =? 0); [done|]. by simplify_eq. }
      rewrite E2. unfold str_allocation_ptr, str_is_seamless_slice, is_small_str. cbn [s_length s_capacity_or_alloc_ptr s_bytes].
      rewrite (proj2 (Z.leb_gt _ _)) by (unfold WORD in *; lia). unfold SEAMLESS_SLICE_TAG. rewrite Ht, Hu. cbn. rewrite (proj2 (Z.eqb_neq d 0)) by (unfold WORD in *; lia).
      split_and!; [done|lia|lia|done].
    - assert (allocation_ptr l = d /\ h = header_bytes T /\ a = alloc_align T) as (E2 & -> & ->).
      { destruct (elements l =? 0); [done|]. cbn in Ep. destruct (_ =? 0); [done|]. by simplify_eq. }
      rewrite E2. unfold allocation_ptr, is_seamless_slice. cbn [elements capacity_or_alloc_ptr l_length]. unfold SEAMLESS_SLICE_TAG. rewrite Ht, Hu. cbn.
      rewrite (proj2 (Z.eqb_neq d 0)) by (unfold WORD in *; lia). rewrite (proj2 (Z.eqb_neq (elements l + _) 0)) by (unfold WORD in *; nia).
      split_and!; [done|done|done|tauto|lia]. }
  split; [done|]. unfold good. rewrite Hp'. exists b. rewrite S1, S2.
  assert (0 < unit_of v) as Hun by (destruct v; cbn; [lia|tauto|lia]).
  split_and!; try done; try nia. rewrite <- Hc. apply read_sub; nia.
Qed.

(** ** Programs that hold references *)

(** The memory, and the references held: each is a value with what it was
    made of. *)
Abbreviation State := (Mem * list (Value * list Z))%type.

Inductive step : State -> State -> Prop :=
  | st_str m h slice s m' : str_from_slice place slice m = Done s m' -> step (m, h) (m', (VStr s, slice) :: h)
  | st_list m h T items l m' : elem_ok T -> Forall (fun x => Z.of_nat (length x) = size_of T) items ->
      list_from_slice place T items m = Done l m' -> step (m, h) (m', (VList T l, concat items) :: h)
  | st_box m h al r content p m1 m' : (WORD | box_header al r) ->
      allocate_box place (Z.of_nat (length content)) al r m = Done p m1 -> store p content m1 = Done tt m' ->
      step (m, h) (m', (VBox p (Z.of_nat (length content)) al r, content) :: h)
  | st_retain m h v c n m' : (v, c) ∈ h -> Z.of_nat (length h + n) < 2 ^ 63 -> value_incref v (Z.of_nat n) m = Done tt m' ->
      step (m, h) (m', repeat (v, c) n ++ h)
  | st_slice m h v c off len v' m' : (v, c) ∈ h -> parts v <> None -> slice_of v off len = Some v' ->
      0 <= off -> 0 <= len -> (off + len) * unit_of v <= (span v).2 -> Z.of_nat (length h + 1) < 2 ^ 63 -> value_incref v 1 m = Done tt m' ->
      step (m, h) (m', (v', take (Z.to_nat (len * unit_of v)) (drop (Z.to_nat (off * unit_of v)) c)) :: h)
  | st_release m h1 v c h2 m' : value_decref v m = Done tt m' -> step (m, h1 ++ (v, c) :: h2) (m', h1 ++ h2).

Definition reachable (s : State) : Prop := rtc step (mkMem ∅ (fun _ => 0), []) s.

Definition refers (d : Z) (x : Value * list Z) : bool := match parts x.1 with Some (d', _, _) => d' =? d | None => false end.
Definition nrefs (d : Z) (h : list (Value * list Z)) : Z := Z.of_nat (length (List.filter (refers d) h)).

Record Inv (s : State) (g : Blocks) : Prop := {
  v_rep : Rep s.1 g;
  v_pos : forall d b, g !! d = Some b -> 1 <= count b;
  v_count : forall d b, g !! d = Some b -> count b = nrefs d s.2;
  v_good : forall v c, (v, c) ∈ s.2 -> good s.1 g v c;
}.

Lemma nrefs_app d h1 h2 : nrefs d (h1 ++ h2) = nrefs d h1 + nrefs d h2.
Proof. unfold nrefs. rewrite List.filter_app, length_app. lia. Qed.

Lemma nrefs_cons d x h : nrefs d (x :: h) = (if refers d x then 1 else 0) + nrefs d h.
Proof. unfold nrefs. cbn [List.filter]. destruct (refers d x); cbn [length]; lia. Qed.

Lemma nrefs_repeat d x n : nrefs d (repeat x n) = if refers d x then Z.of_nat n else 0.
Proof.
  induction n as [|n IH]; [by destruct (refers d x)|]. cbn [repeat]. rewrite nrefs_cons, IH. destruct (refers d x); lia.
Qed.

Lemma nrefs_bound d h : 0 <= nrefs d h <= Z.of_nat (length h).
Proof. unfold nrefs. pose proof (List.filter_length_le (refers d) h). lia. Qed.

Lemma refers_parts d x h a : parts x.1 = Some (d, h, a) -> forall d', refers d' x = (d =? d').
Proof. intros E d'. unfold refers. by rewrite E. Qed.

Lemma refers_none x d : parts x.1 = None -> refers d x = false.
Proof. intros E. unfold refers. by rewrite E. Qed.

(** What is new is held once, and the rest as before. *)
Lemma inv_made m h g m' v c : Inv (m, h) g -> Made m g m' v c -> exists g', Inv (m', (v, c) :: h) g'.
Proof.
  intros [HR H1c Hc Hg] [(Hp & -> & Hv)|(d & b & Hp & H1 & Hn & HR' & Hk & Hgood)]; cbn [fst snd] in *.
  - exists g. split; cbn [fst snd]; [done|done| |].
    + intros d b Hd. rewrite nrefs_cons, refers_none by done. by apply Hc.
    + intros v' c' [[= -> ->]|Hin]%elem_of_cons; [|by apply Hg]. unfold good. by rewrite Hp.
  - assert (nrefs d h = 0) as H0.
    { unfold nrefs. replace (List.filter (refers d) h) with (@nil (Value * list Z)); [done|]. symmetry.
      assert (forall x, x ∈ h -> refers d x = false) as Hno.
      { intros [v' c'] Hin. specialize (Hg _ _ Hin). unfold good, refers in *. cbn [fst]. destruct (parts v') as [[[d' h'] a']|]; [|done].
        destruct Hg as (b' & Hb' & _). apply Z.eqb_neq. congruence. }
      clear -Hno. induction h as [|x h IH]; [done|]. cbn [List.filter]. rewrite Hno by (by apply elem_of_cons; left). apply IH. intros y Hy. apply Hno. by apply elem_of_cons; right. }
    exists (<[d := b]> g). split; cbn [fst snd]; [done| | |].
    + intros d' b' Hd'. destruct (decide (d' = d)) as [->|Hne].
      * rewrite lookup_insert_eq in Hd'. simplify_eq. lia.
      * rewrite lookup_insert_ne in Hd' by done. by eapply H1c.
    + intros d' b' Hd'. rewrite nrefs_cons, (refers_parts d (v, c) _ _ Hp). destruct (Z.eqb_spec d d') as [<-|Hne].
      * rewrite lookup_insert_eq in Hd'. simplify_eq. lia.
      * rewrite lookup_insert_ne in Hd' by done. by apply Hc.
    + intros v' c' [[= -> ->]|Hin]%elem_of_cons; [done|]. eapply good_kept; [by apply Hg| |done].
      intros d' b' Hd' _. exists b'. rewrite lookup_insert_ne by congruence. done.
Qed.

(** A held value's block has room for more references than are held. *)
Lemma held_block m h g v c d hb a : Inv (m, h) g -> (v, c) ∈ h -> parts v = Some (d, hb, a) ->
  exists b, g !! d = Some b /\ header b = hb /\ align b = a /\ 1 <= count b <= Z.of_nat (length h).
Proof.
  intros [HR H1c Hc Hg] Hin Hp. specialize (Hg _ _ Hin). unfold good in Hg. rewrite Hp in Hg. destruct Hg as (b & Hb & Hh & Ha & _).
  exists b. split_and!; [done..| |]; cbn [fst snd] in *; [by eapply H1c|].
  rewrite (Hc _ _ Hb). apply nrefs_bound.
Qed.

(** Retaining a value that is held works; then [n] more references to its
    block may be held. *)
Lemma inv_retain m h g v c n : Inv (m, h) g -> (v, c) ∈ h -> Z.of_nat (length h) + n < 2 ^ 63 -> 0 <= n ->
  exists m' g', value_incref v n m = Done tt m' /\ Rep m' g' /\ (forall d b, g' !! d = Some b -> 1 <= count b) /\
    (forall d b, g' !! d = Some b -> count b = nrefs d h + match parts v with Some (d', _, _) => if d' =? d then n else 0 | None => 0 end) /\
    forall v' c', good m g v' c' -> good m' g' v' c'.
Proof.
  intros HI Hin Hn H0. rewrite value_incref_parts. destruct (parts v) as [[[d hb] a]|] eqn:Ep.
  - destruct (held_block _ _ _ _ _ _ _ _ HI Hin Ep) as (b & Hb & _ & _ & Hc1). destruct HI as [HR H1c Hc Hg]. cbn [fst snd] in *.
    destruct (incref_rep m g d b n HR Hb) as (m' & E & HR' & Hk); [lia..|]. exists m', (retain d n g). split_and!; [done|done| | |].
    + intros d' b' Hd'. unfold retain in Hd'. destruct (Z.eqb_spec d d') as [<-|Hne].
      * rewrite lookup_alter_eq, Hb in Hd'. simplify_eq/=. lia.
      * rewrite lookup_alter_ne in Hd' by done. by eapply H1c.
    + intros d' b' Hd'. unfold retain in Hd'. destruct (Z.eqb_spec d d') as [<-|Hne].
      * rewrite lookup_alter_eq, Hb in Hd'. simplify_eq/=. rewrite (Hc _ _ Hb). lia.
      * rewrite lookup_alter_ne in Hd' by done. rewrite (Hc _ _ Hd'). lia.
    + intros v' c' Hgd. eapply good_kept; [done| |done]. intros d' b' Hd' _. unfold retain. destruct (decide (d' = d)) as [->|Hne].
      * rewrite lookup_alter_eq, Hd'. eexists. split; [done|]. done.
      * rewrite lookup_alter_ne by done. eauto.
  - destruct HI as [HR H1c Hc Hg]. exists m, g. split_and!; [done|done|done| |done]. intros d b Hd. cbn in *. rewrite (Hc _ _ Hd). lia.
Qed.

(** Releasing one works, and leaves the others as they are. *)
Lemma refs_inv_release m h1 v c h2 g : Inv (m, h1 ++ (v, c) :: h2) g ->
  exists m' g', value_decref v m = Done tt m' /\ Inv (m', h1 ++ h2) g'.
Proof.
  intros HI. rewrite value_decref_parts. assert ((v, c) ∈ h1 ++ (v, c) :: h2) as Hin by (apply elem_of_app; right; by apply elem_of_cons; left).
  assert (forall x, x ∈ h1 ++ h2 -> x ∈ h1 ++ (v, c) :: h2) as Hsub.
  { intros x [Hx|Hx]%elem_of_app; apply elem_of_app; [by left|right; by apply elem_of_cons; right]. }
  destruct (parts v) as [[[d hb] a]|] eqn:Ep.
  - destruct (held_block _ _ _ _ _ _ _ _ HI Hin Ep) as (b & Hb & <- & <- & Hc1). destruct HI as [HR H1c Hc Hg]. cbn [fst snd] in *.
    destruct (decref_rep m g d b HR Hb ltac:(lia)) as (m' & E & HR' & Hk). exists m', (release d g). split; [done|].
    assert (forall d', nrefs d' (h1 ++ (v, c) :: h2) = nrefs d' (h1 ++ h2) + if d =? d' then 1 else 0) as Hn.
    { intros d'. rewrite !nrefs_app, nrefs_cons, (refers_parts d (v, c) _ _ Ep). lia. }
    assert (release d g = if count b =? 1 then delete d g else <[d := with_count (count b - 1) b]> g) as Er by (unfold release; by rewrite Hb).
    split; cbn [fst snd]; [done| | |].
    + intros d' b' Hd'. rewrite Er in Hd'. destruct (Z.eqb_spec (count b) 1); [apply lookup_delete_Some in Hd' as [_ Hd']; by eapply H1c|].
      destruct (decide (d' = d)) as [->|Hne]; [rewrite lookup_insert_eq in Hd'; simplify_eq/=; lia|]. rewrite lookup_insert_ne in Hd' by done. by eapply H1c.
    + intros d' b' Hd'. rewrite Er in Hd'. destruct (Z.eqb_spec (count b) 1) as [E1|E1].
      * apply lookup_delete_Some in Hd' as [Hne Hd']. rewrite (Hc _ _ Hd'), Hn, (proj2 (Z.eqb_neq d d')) by done. lia.
      * destruct (decide (d' = d)) as [->|Hne].
        -- rewrite lookup_insert_eq in Hd'. simplify_eq/=. rewrite (Hc _ _ Hb), Hn, Z.eqb_refl. lia.
        -- rewrite lookup_insert_ne in Hd' by done. rewrite (Hc _ _ Hd'), Hn, (proj2 (Z.eqb_neq d d')) by done. lia.
    + intros v' c' Hin'. eapply good_kept; [by apply Hg, Hsub| |done]. intros d' b' Hd' (h' & a' & Hp'). rewrite Er.
      destruct (Z.eqb_spec (count b) 1) as [E1|E1].
      * exists b'. split; [|done]. rewrite lookup_delete_ne; [done|]. intros <-.
        assert (1 <= nrefs d (h1 ++ h2)) as H1.
        { unfold nrefs. assert ((v', c') ∈ List.filter (refers d) (h1 ++ h2)) as Hf.
          { apply list_elem_of_In, filter_In. split; [by apply list_elem_of_In|]. rewrite (refers_parts d (v', c') _ _ Hp'). apply Z.eqb_refl. }
          destruct (List.filter (refers d) (h1 ++ h2)); [by apply elem_of_nil in Hf|cbn; lia]. }
        pose proof (Hc _ _ Hb) as Hcb. rewrite Hn, Z.eqb_refl in Hcb. lia.
      * destruct (decide (d' = d)) as [->|Hne]; [|rewrite lookup_insert_ne by done; eauto].
        rewrite lookup_insert_eq. eexists. split; [done|]. rewrite Hb in Hd'. by simplify_eq.
  - destruct HI as [HR H1c Hc Hg]. cbn [fst snd] in *. exists m, g. split; [done|]. split; cbn [fst snd]; [done|done| |].
    + intros d b Hd. rewrite (Hc _ _ Hd), !nrefs_app, nrefs_cons, refers_none by done. lia.
    + intros v' c' Hin'. by apply Hg, Hsub.
Qed.

Lemma refs_inv_step s s' : (exists g, Inv s g) -> step s s' -> exists g, Inv s' g.
Proof.
  intros [g HI] Hst. destruct Hst as [m h slice s m' E|m h T items l m' Ht Hi E|m h al r content p m1 m' Hd E1 E2
    |m h v c n m' Hin Hb E|m h v c off len v' m' Hin Hp Hs H1 H2 H3 Hb E|m h1 v c h2 m' E].
  - eapply inv_made; [done|]. eapply str_made; [apply HI|done].
  - eapply inv_made; [done|]. eapply list_made; [apply HI|done..].
  - eapply inv_made; [done|]. eapply box_made; [apply HI|done..].
  - destruct (inv_retain m h g v c (Z.of_nat n) HI Hin) as (m2 & g' & E' & HR & H1c & Hc & Hg); [lia..|]. rewrite E in E'. injection E' as <-.
    exists g'. split; cbn [fst snd]; [done|done| |].
    + intros d b Hd. rewrite (Hc _ _ Hd), nrefs_app, nrefs_repeat. unfold refers. cbn [fst]. destruct (parts v) as [[[d' ?] ?]|]; lia.
    + intros v' c' [Hr|Hr]%elem_of_app; apply Hg, HI; [|done]. apply list_elem_of_In, repeat_spec in Hr. by injection Hr as -> ->.
  - destruct (inv_retain m h g v c 1 HI Hin) as (m2 & g' & E' & HR & H1c & Hc & Hg); [lia..|]. rewrite E in E'. injection E' as <-.
    destruct (slice_good m' g' v c off len v' HR (Hg _ _ (v_good _ _ HI _ _ Hin)) Hp Hs H1 H2 H3) as [Hp' Hgood].
    exists g'. split; cbn [fst snd]; [done|done| |].
    + intros d b Hd. rewrite (Hc _ _ Hd), nrefs_cons. unfold refers. cbn [fst]. rewrite Hp'. destruct (parts v) as [[[d' ?] ?]|]; lia.
    + intros v2 c2 [[= -> ->]|Hr]%elem_of_cons; [done|]. by apply Hg, HI.
  - destruct (refs_inv_release _ _ _ _ _ _ HI) as (m2 & g' & E' & HI'). rewrite E in E'. injection E' as <-. eauto.
Qed.

Lemma refs_reachable_inv s : reachable s -> exists g, Inv s g.
Proof.
  intros Hr. refine (rtc_invariant step (fun s => exists g, Inv s g) refs_inv_step _ _ Hr _). exists ∅.
  split; cbn [fst snd]; [split; try done|done|done|by intros v c ?%elem_of_nil].
Qed.

(** C17: References to strings, lists and boxes are counted right, slices
    included: whatever a program makes, retains, slices and releases, each
    value it holds reads as what it was made of, and can be retained and
    released without undefined behaviour; and when it holds none, nothing is
    allocated. *)
Theorem references_safe m h : reachable (m, h) ->
  (forall v c, (v, c) ∈ h -> value_view v m = Done c m /\ (exists m', value_decref v m = Done tt m') /\
     forall n, 0 <= n -> Z.of_nat (length h) + n < 2 ^ 63 -> exists m', value_incref v n m = Done tt m') /\
  (h = [] -> live m = ∅).
Proof.
  intros [g HI]%refs_reachable_inv. split.
  - intros v c Hin. split_and!.
    + eapply good_view; [apply HI|]. by apply (v_good _ _ HI).
    + apply list_elem_of_split in Hin as (h1 & h2 & ->). destruct (refs_inv_release _ _ _ _ _ _ HI) as (m' & g' & E & _). eauto.
    + intros n H0 Hn. destruct (inv_retain _ _ _ _ _ n HI Hin Hn H0) as (m' & g' & E & _). eauto.
  - intros ->. apply map_empty. intros p. destruct (live m !! p) as [v|] eqn:E; [|done]. destruct (r_all _ _ (v_rep _ _ HI) p v E) as (d & b & Hd & _).
    pose proof (v_count _ _ HI _ _ Hd) as Hc. pose proof (v_pos _ _ HI _ _ Hd). change (count b = 0) in Hc. lia.
Qed.

(** A string reads back as the bytes it was made of, whatever its length:
    up to 23 bytes within its own three words, from 24 on in an allocation
    with one reference; and its length is theirs. *)
Theorem str_roundtrip m h slice s m' : reachable (m, h) -> str_from_slice place slice m = Done s m' ->
  str_as_slice s m' = Done slice m' /\ as_str s m' = Done slice m' /\ str_len s = Z.of_nat (length slice) /\
  is_small_str s = (Z.of_nat (length slice) <? 24) /\ str_is_unique s m' = Done true m'.
Proof.
  intros [g HI]%refs_reachable_inv E. pose proof (str_made _ _ _ _ _ (v_rep _ _ HI) E) as Hm. cbn [fst] in Hm.
  assert (Utf8.valid slice = true) as Hv by (unfold str_from_slice in E; by destruct (Utf8.valid slice)).
  assert (str_as_slice s m' = Done slice m') as Hs.
  { destruct Hm as [(_ & -> & Hview)|(d & b & _ & _ & _ & HR & _ & Hg)]; [apply Hview|]. exact (good_view _ _ _ _ HR Hg). }
  assert (is_small_str s = (Z.of_nat (length slice) <? 24) /\ str_len s = Z.of_nat (length slice)) as [H1 H2].
  { unfold str_from_slice in E. rewrite Hv in E. cbn [negb] in E. destruct (Z.ltb_spec (Z.of_nat (length slice)) ROC_STR_SIZE) as [Hl|Hl].
    - unfold mret, M_ret in E. injection E as <- <-.
      destruct (small_str slice (valid_bytes _ Hv) ltac:(unfold ROC_STR_SIZE in Hl; lia)) as (-> & -> & _). split; [|done]. symmetry. apply Z.ltb_lt. done.
    - rewrite (proj2 (Z.ltb_ge _ 24)) by done. unfold mbind, M_bind, expect, checked_add in E. destruct (_ <=? _); [|done]. unfold alloc in E.
      destruct (place (live m) _ WORD) as [p|] eqn:Ep; [|done]. pose proof (placed place _ _ _ _ Ep) as (Hp & Hmax & _).
      destruct (store_word _ _ _) as [| |[] m1]; [done..|]. destruct (store _ _ _) as [| |[] m2]; [done..|]. unfold mret, M_ret in E. injection E as <- <-.
      assert (is_small_str (mkStr (p + WORD) (shifted_capacity (Z.of_nat (length slice))) (Z.of_nat (length slice))) = false) as Hsm.
      { unfold is_small_str. apply Z.leb_gt. cbn. unfold WORD in *. lia. }
      split; [done|]. unfold str_len. by rewrite Hsm. }
  split_and!; [done| |done|done|].
  - unfold as_str, mbind, M_bind. rewrite Hs, Hv. done.
  - unfold str_is_unique. destruct Hm as [(Hp & -> & _)|(d & b & Hp & Hc & _ & HR & _)]; cbn [parts] in Hp.
    + destruct (is_small_str s); [done|]. cbn in Hp. by destruct (_ =? 0).
    + destruct (is_small_str s); [done|]. cbn in Hp. destruct (_ =? 0); [done|]. injection Hp as -> Hh Ha.
      unfold mbind, M_bind. rewrite (load_count _ _ _ _ HR (lookup_insert_eq _ _ _)), Hc. done.
Qed.

End Refs.
(** ** An allocator that never reuses room below a live block *)

Definition top (l : gmap Z (Z * Z)) : Z := map_fold (fun p '(n, _) acc => Z.max acc (p + Z.max n 1)) 64 l.

Definition bump (l : gmap Z (Z * Z)) (len align : Z) : option Z :=
  let p := (top l + 63) / 64 * 64 in
  if (0 <? align) && (64 mod align =? 0) && (p + len <? 2 ^ 63) && (0 <? len) then Some p else None.

Lemma top_ge l : 64 <= top l /\ forall p n al, l !! p = Some (n, al) -> p + Z.max n 1 <= top l.
Proof.
  unfold top. apply (map_fold_weak_ind (fun r l => 64 <= r /\ forall p n al, l !! p = Some (n, al) -> p + Z.max n 1 <= r)); [split; [lia|done]|].
  intros q [k al'] l' r Hq [H1 H2]. split; [lia|]. intros p n al. destruct (decide (p = q)) as [->|Hne].
  - rewrite lookup_insert_eq. intros [= -> ->]. lia.
  - rewrite lookup_insert_ne by done. intros Hp%H2. lia.
Qed.

#[global] Instance bump_placement : Placement bump.
Proof.
  split. intros l len al p. unfold bump. destruct (_ && _) eqn:E; [|done]. intros [= <-].
  destruct (top_ge l) as [H1 H2]. apply andb_true_iff in E as [[[Ha%Z.ltb_lt Hd%Z.eqb_eq]%andb_true_iff Hm%Z.ltb_lt]%andb_true_iff Hl%Z.ltb_lt].
  assert (top l <= (top l + 63) / 64 * 64) as Hge by (Z.to_euclidean_division_equations; lia).
  split_and!; [lia|lia|exists ((top l + 63) / 64 * 8); unfold WORD; lia| | |].
  - apply Z.divide_mul_r. apply Z.mod_divide; lia.
  - destruct (l !! _) as [[n al']|] eqn:E; [|done]. apply H2 in E. lia.
  - intros q n al' Hq%H2. right. lia.
Qed.

(** A string of 24 bytes, a slice of it, and the string released. *)
Definition long : list Z := map Z.of_nat (List.seq 65 24).
Definition slice_value : Value := VStr (mkStr 74 73 3).
Definition after_release : outcome unit :=
  match str_from_slice bump long (mkMem ∅ (fun _ => 0)) with
  | Done s m => match str_incref s 1 m with Done _ m => str_decref s m | _ => Undefined end
  | _ => Undefined
  end.

Lemma references_safe_witness :
  exists m, after_release = Done tt m /\ value_view slice_value m = Done [67; 68; 69] m /\ exists m', value_decref slice_value m = Done tt m' /\ live m' = ∅.
Proof.
  eexists. split; [vm_compute; reflexivity|]. match goal with |- value_view _ ?m' = _ /\ _ => set (m := m') end.
  assert (reachable bump (m, [(slice_value, [67; 68; 69])])) as Hr.
  { eapply rtc_l; [apply (st_str bump _ _ long); vm_compute; reflexivity|].
    eapply rtc_l; [eapply (st_slice bump _ _ _ _ 2 3); [by apply elem_of_cons; left|vm_compute; discriminate|reflexivity|lia|lia|vm_compute; discriminate|cbn; lia|vm_compute; reflexivity]|].
    eapply rtc_l; [apply (st_release bump _ [_] _ _ []); vm_compute; reflexivity|]. apply rtc_refl. }
  destruct (proj1 (references_safe bump m _ Hr) slice_value [67; 68; 69]) as (Hv & [m' Hd] & _); [by apply elem_of_cons; left|].
  split; [exact Hv|]. exists m'. split; [exact Hd|]. apply (proj2 (references_safe bump m' [] (rtc_r _ _ _ Hr (st_release bump m [] _ _ [] m' Hd)))). reflexivity.
Defined.

Lemma str_roundtrip_witness :
  exists s m', str_from_slice bump [104; 105] (mkMem ∅ (fun _ => 0)) = Done s m' /\ as_str s m' = Done [104; 105] m' /\ is_small_str s = true.
Proof.
  eexists _, _. split; [vm_compute; reflexivity|].
  match goal with |- as_str ?s ?m = _ /\ _ => destruct (str_roundtrip bump (mkMem ∅ (fun _ => 0)) [] [104; 105] s m (rtc_refl _ _) ltac:(vm_compute; reflexivity)) as (_ & H2 & _ & H4 & _) end.
  split; [exact H2|exact H4].
Defined.

End RocRefs.
