(* ===== verification/AbiLayout.v ===== *)
(** * Types at the boundary with Roc ([src/roc_platform_abi.rs])

    The types the host and a Roc program exchange are structs, tagged unions
    and lists of them; the file has one declaration of each for targets with
    64-bit and with 32-bit pointers, and asserts what the compiler makes of
    them.  Here is what those declarations are made of ([Ty]), where
    [#[repr(C)]] puts their parts ([layout]), how a value lies in them
    ([encode], [decode]), and, for each type, what releasing a value of it
    means ([release_ty]).  The declarations themselves are in [AbiTypes.v]. *)
From S2P Require Import Prelude RocMem RocValues.
From stdpp Require Import strings.
Local Open Scope Z_scope.

Module AbiLayout.
Import RocMem RocValues.

(** ** Types *)

(** A field or payload type: [Unit] is [[u8; 0]], [Int n] an integer (or
    float) of [n] bytes, [Box] a [*mut u64], [Callable] a
    [RocErasedCallable].  [ListOf r e] is [RocListWith<e, r>].  A [Union] has
    its payloads by variant, in the order of the tags; as its 32-bit
    declaration is a byte array of its own, also that array's length and
    alignment. *)
Inductive Ty :=
  | Unit
  | Bool
  | Int (bytes : Z)
  | Str
  | ListOf (elements_refcounted : bool) (element : Ty)
  | Box
  | Callable
  | Enum (tags : list string)
  | Struct (fields : list (string * Ty))
  | Union (variants : list (string * Ty)) (bytes32 align32 : Z).

Section Ind.
Variable P : Ty -> Prop.
Hypotheses (HUnit : P Unit) (HBool : P Bool) (HInt : forall n, P (Int n)) (HStr : P Str) (HList : forall r e, P e -> P (ListOf r e))
  (HBox : P Box) (HCallable : P Callable) (HEnum : forall tags, P (Enum tags))
  (HStruct : forall fs, Forall (fun f => P f.2) fs -> P (Struct fs))
  (HUnion : forall vs b a, Forall (fun f => P f.2) vs -> P (Union vs b a)).

Fixpoint Ty_rect' (t : Ty) : P t :=
  let all := fix all (fs : list (string * Ty)) : Forall (fun f => P f.2) fs :=
    match fs with [] => Forall_nil_2 _ | f :: fs => Forall_cons_2 _ _ _ (Ty_rect' f.2) (all fs) end in
  match t with
  | Unit => HUnit | Bool => HBool | Int n => HInt n | Str => HStr | ListOf r e => HList r e (Ty_rect' e)
  | Box => HBox | Callable => HCallable | Enum tags => HEnum tags
  | Struct fs => HStruct fs (all fs)
  | Union vs b a => HUnion vs b a (all vs)
  end.
End Ind.

(** ** Layout *)

Inductive Width := W64 | W32.
Definition pointer (w : Width) : Z := match w with W64 => 8 | W32 => 4 end.

Definition round_up (n a : Z) : Z := (n + a - 1) / a * a.

Definition maximum (l : list Z) : Z := foldr Z.max 0 l.

(** The offsets of a [#[repr(C)]] struct's fields, and where they end. *)
Fixpoint place_fields (at_ : Z) (fs : list (Z * Z)) : list Z * Z :=
  match fs with
  | [] => ([], at_)
  | (size, align) :: fs =>
      let off := round_up at_ align in
      let '(offs, end_) := place_fields (off + size) fs in (off :: offs, end_)
  end.

(** [size_of] and [align_of]. *)
Fixpoint size_align (w : Width) (t : Ty) : Z * Z :=
  match t with
  | Unit => (0, 1)
  | Bool => (1, 1)
  | Int n => (n, n)
  | Str | ListOf _ _ => (3 * pointer w, pointer w)
  | Box | Callable => (pointer w, pointer w)
  | Enum _ => (1, 1)
  | Struct fs =>
      let sas := map (fun f => size_align w f.2) fs in
      let align := Z.max 1 (maximum sas.*2) in
      (round_up (place_fields 0 sas).2 align, align)
  | Union vs bytes32 align32 =>
      let sas := map (fun f => size_align w f.2) vs in
      let '(payload, align) := match w with
        | W64 => let align := Z.max 1 (maximum sas.*2) in (round_up (maximum sas.*1) align, align)
        | W32 => (bytes32, align32)
        end in
      (round_up (payload + 1) align, align)
  end.

Definition size (w : Width) (t : Ty) : Z := (size_align w t).1.
Definition align (w : Width) (t : Ty) : Z := (size_align w t).2.

(** [offset_of!(_, tag)] of a union: the tag follows the payload. *)
Definition tag_offset (w : Width) (t : Ty) : option Z :=
  match t with
  | Union vs bytes32 _ =>
      Some (match w with
            | W64 => round_up (maximum (map (fun f => size w f.2) vs)) (Z.max 1 (maximum (map (fun f => align w f.2) vs)))
            | W32 => bytes32
            end)
  | _ => None
  end.

Definition field_offsets (w : Width) (fs : list (string * Ty)) : list Z := (place_fields 0 (map (fun f => size_align w f.2) fs)).1.

(** What a type's assertions say, on one width: size, alignment, and offset
    of the tag. *)
Record Layout := mkLayout { l_size : Z; l_align : Z; l_tag : option Z }.
#[global] Instance Layout_eq : EqDecision Layout := ltac:(solve_decision).

Definition layout (w : Width) (t : Ty) : Layout := mkLayout (size w t) (align w t) (tag_offset w t).

(** ** Which types own references *)

Fixpoint counted (t : Ty) : bool :=
  match t with
  | Unit | Bool | Int _ | Enum _ => false
  | Str | ListOf _ _ | Box | Callable => true
  | Struct fs => existsb (fun f => counted f.2) fs
  | Union vs _ _ => existsb (fun f => counted f.2) vs
  end.

(** A declaration is sound: integers have a size a machine has; each list says of its elements what
    they are; and the 32-bit byte array of a union holds each payload, at an
    alignment that suits it. *)
Fixpoint sound (t : Ty) : bool :=
  match t with
  | Unit | Bool | Str | Box | Callable => true
  | Int n => existsb (Z.eqb n) [1; 2; 4; 8]
  | ListOf r e => Bool.eqb r (counted e) && sound e
  | Enum tags => (length tags <=? 256)%nat
  | Struct fs => forallb (fun f => sound f.2) fs
  | Union vs bytes32 align32 =>
      forallb (fun f => sound f.2 && (size W32 f.2 <=? bytes32) && (align32 mod align W32 f.2 =? 0)) vs &&
      (length vs <=? 256)%nat && existsb (Z.eqb align32) [1; 2; 4; 8] && (0 <=? bytes32)
  end.

(** ** Parts of a value's bytes, on a 64-bit target *)

Definition slice (off n : Z) (value : list Z) : list Z := take (Z.to_nat n) (drop (Z.to_nat off) value).

(** The words of a string, a list or a pointer. *)
Definition list_of_bytes (l : list Z) : RocListWith := mkList (of_le (take 8 l)) (of_le (take 8 (drop 8 l))) (of_le (take 8 (drop 16 l))).
Definition list_bytes (l : RocListWith) : list Z := le 8 (elements l) ++ le 8 (l_length l) ++ le 8 (capacity_or_alloc_ptr l).
Definition ptr_of_bytes (l : list Z) : Z := of_le (take 8 l).

(** [value.tag], and the payload, which is at the start. *)
Definition tag_byte (t : Ty) (value : list Z) : option Z := off ← tag_offset W64 t; value !! Z.to_nat off.
Definition payload (t : Ty) (value : list Z) : list Z := take (Z.to_nat (size W64 t)) value.

(** [value.<name>] of a struct. *)
Fixpoint field_in (name : string) (fs : list (string * Ty)) (offs : list Z) (value : list Z) : list Z :=
  match fs, offs with
  | (n, t) :: fs, off :: offs => if String.eqb n name then slice off (size W64 t) value else field_in name fs offs value
  | _, _ => []
  end.
Definition field (t : Ty) (name : string) (value : list Z) : list Z :=
  match t with Struct fs => field_in name fs (field_offsets W64 fs) value | _ => [] end.

(** ** Releasing and retaining by type

    What every generated [decref] and [incref] should do: each reference the
    value owns, once, in order.  Reading a tag that isn't one is undefined. *)
Definition undefined {A} : M A := fun _ => Undefined.

(** Sequencing over the fields of a struct. *)
Fixpoint each {A} (fs : list A) (offs : list Z) (f : A -> Z -> M unit) : M unit :=
  match fs, offs with x :: fs, off :: offs => _ ← f x off; each fs offs f | _, _ => mret tt end.

(** The arm of a tag, of those from number [i] on. *)
Fixpoint arm (i tag : Z) (arms : list (M unit)) : M unit :=
  match arms with [] => undefined | x :: arms => if tag =? i then x else arm (i + 1) tag arms end.

Definition elem_of (r : bool) (e : Ty) : Elem := mkElem (size W64 e) (align W64 e) r.

Section Release.
Variable call : Z -> Z -> M unit.

Fixpoint release_ty (t : Ty) (value : list Z) : M unit :=
  match t with
  | Unit | Bool | Int _ | Enum _ => mret tt
  | Str => str_decref (str_of_bytes value)
  | ListOf r e => list_release_with (elem_of r e) (release_ty e) (list_of_bytes value)
  | Box => decref_box_with (ptr_of_bytes value) 8 false None
  | Callable => decref_erased_callable call (ptr_of_bytes value)
  | Struct fs => each (map (fun f => (release_ty f.2, size W64 f.2)) fs) (field_offsets W64 fs) (fun '(release, n) off => release (slice off n value))
  | Union vs _ _ =>
      match tag_byte t value with
      | Some tag => arm 0 tag (map (fun f => release_ty f.2 (payload f.2 value)) vs)
      | None => undefined
      end
  end.

Fixpoint retain_ty (t : Ty) (value : list Z) (amount : Z) : M unit :=
  match t with
  | Unit | Bool | Int _ | Enum _ => mret tt
  | Str => str_incref (str_of_bytes value) amount
  | ListOf _ _ => list_incref (list_of_bytes value) amount
  | Box => incref_box (ptr_of_bytes value) amount
  | Callable => incref_erased_callable (ptr_of_bytes value) amount
  | Struct fs => each (map (fun f => (fun v => retain_ty f.2 v amount, size W64 f.2)) fs) (field_offsets W64 fs) (fun '(retain, n) off => retain (slice off n value))
  | Union vs _ _ =>
      match tag_byte t value with
      | Some tag => arm 0 tag (map (fun f => retain_ty f.2 (payload f.2 value) amount) vs)
      | None => undefined
      end
  end.

End Release.
End AbiLayout.
