(* ===== verification/AbiTypes.v ===== *)
(** * The declarations at the boundary with Roc ([src/roc_platform_abi.rs])

    Each type the host and a Roc program exchange, as the file declares it:
    its tags and their numbers, its payloads (or fields), what its accessors
    read, the byte array it is on a 32-bit target, what is asserted of its
    layout, and its [decref] and [incref].  A value is its bytes; the borrowing and
    the taking accessor of a payload read the same ones.  In the order in
    which they use one another. *)
From S2P Require Import Prelude RocMem RocValues AbiLayout.
From stdpp Require Import strings.
Local Open Scope string_scope.
Local Open Scope Z_scope.

Module AbiTypes.
Import RocMem RocValues AbiLayout.

(** The assertions for 64-bit and for 32-bit targets. *)
Record Layouts := mkLayouts { asserted64 : Layout; asserted32 : Layout }.

(** ** Types *)

(** [HostStderrLineResult] *)
Inductive HostStderrLineResultTag := HostStderrLineResultTag_Err | HostStderrLineResultTag_Ok.
Definition HostStderrLineResultTag_of (b : Z) : option HostStderrLineResultTag := match b with 0 => Some HostStderrLineResultTag_Err | 1 => Some HostStderrLineResultTag_Ok | _ => None end.
Definition HostStderrLineResult : Ty := Union [("Err", Str); ("Ok", Unit)] 12 4.
Definition HostStderrLineResult_payload_err (value : list Z) : RocStr := str_of_bytes (payload Str value).
Definition HostStderrLineResult_asserted : Layouts := mkLayouts (mkLayout 32 8 (Some 24)) (mkLayout 16 4 (Some 12)).

(** [HostStdinLineResult] *)
Inductive HostStdinLineResultTag := HostStdinLineResultTag_Err | HostStdinLineResultTag_Ok.
Definition HostStdinLineResultTag_of (b : Z) : option HostStdinLineResultTag := match b with 0 => Some HostStdinLineResultTag_Err | 1 => Some HostStdinLineResultTag_Ok | _ => None end.
Definition HostStdinLineResult : Ty := Union [("Err", Str); ("Ok", Str)] 12 4.
Definition HostStdinLineResult_payload_err (value : list Z) : RocStr := str_of_bytes (payload Str value).
Definition HostStdinLineResult_payload_ok (value : list Z) : RocStr := str_of_bytes (payload Str value).
Definition HostStdinLineResult_asserted : Layouts := mkLayouts (mkLayout 32 8 (Some 24)) (mkLayout 16 4 (Some 12)).

(** [HostIOErr] *)
Inductive HostIOErrTag := HostIOErrTag_AddrInUse | HostIOErrTag_AddrNotAvailable | HostIOErrTag_AlreadyExists | HostIOErrTag_BrokenPipe | HostIOErrTag_Cancelled | HostIOErrTag_ConnectionAborted | HostIOErrTag_ConnectionRefused | HostIOErrTag_ConnectionReset | HostIOErrTag_Interrupted | HostIOErrTag_InvalidInput | HostIOErrTag_NotConnected | HostIOErrTag_NotFound | HostIOErrTag_Other | HostIOErrTag_PermissionDenied | HostIOErrTag_TimedOut | HostIOErrTag_TooManySockets | HostIOErrTag_UnexpectedEof | HostIOErrTag_Unsupported.
Definition HostIOErrTag_of (b : Z) : option HostIOErrTag := match b with 0 => Some HostIOErrTag_AddrInUse | 1 => Some HostIOErrTag_AddrNotAvailable | 2 => Some HostIOErrTag_AlreadyExists | 3 => Some HostIOErrTag_BrokenPipe | 4 => Some HostIOErrTag_Cancelled | 5 => Some HostIOErrTag_ConnectionAborted | 6 => Some HostIOErrTag_ConnectionRefused | 7 => Some HostIOErrTag_ConnectionReset | 8 => Some HostIOErrTag_Interrupted | 9 => Some HostIOErrTag_InvalidInput | 10 => Some HostIOErrTag_NotConnected | 11 => Some HostIOErrTag_NotFound | 12 => Some HostIOErrTag_Other | 13 => Some HostIOErrTag_PermissionDenied | 14 => Some HostIOErrTag_TimedOut | 15 => Some HostIOErrTag_TooManySockets | 16 => Some HostIOErrTag_UnexpectedEof | 17 => Some HostIOErrTag_Unsupported | _ => None end.
Definition HostIOErr : Ty := Union [("AddrInUse", Unit); ("AddrNotAvailable", Unit); ("AlreadyExists", Unit); ("BrokenPipe", Unit); ("Cancelled", Unit); ("ConnectionAborted", Unit); ("ConnectionRefused", Unit); ("ConnectionReset", Unit); ("Interrupted", Unit); ("InvalidInput", Unit); ("NotConnected", Unit); ("NotFound", Unit); ("Other", Str); ("PermissionDenied", Unit); ("TimedOut", Unit); ("TooManySockets", Unit); ("UnexpectedEof", Unit); ("Unsupported", Unit)] 12 4.
Definition HostIOErr_payload_other (value : list Z) : RocStr := str_of_bytes (payload Str value).
Definition HostIOErr_asserted : Layouts := mkLayouts (mkLayout 32 8 (Some 24)) (mkLayout 16 4 (Some 12)).

(** [HostSignalCatchResult] *)
Inductive HostSignalCatchResultTag := HostSignalCatchResultTag_Err | HostSignalCatchResultTag_Ok.
Definition HostSignalCatchResultTag_of (b : Z) : option HostSignalCatchResultTag := match b with 0 => Some HostSignalCatchResultTag_Err | 1 => Some HostSignalCatchResultTag_Ok | _ => None end.
Definition HostSignalCatchResult : Ty := Union [("Err", HostIOErr); ("Ok", Unit)] 16 4.
Definition HostSignalCatchResult_payload_err (value : list Z) : list Z := payload HostIOErr value.
Definition HostSignalCatchResult_asserted : Layouts := mkLayouts (mkLayout 40 8 (Some 32)) (mkLayout 20 4 (Some 16)).

(** [GotOrNotReady] *)
Inductive GotOrNotReadyTag := GotOrNotReadyTag_Got | GotOrNotReadyTag_NotReady.
Definition GotOrNotReadyTag_of (b : Z) : option GotOrNotReadyTag := match b with 0 => Some GotOrNotReadyTag_Got | 1 => Some GotOrNotReadyTag_NotReady | _ => None end.
Definition GotOrNotReady : Ty := Union [("Got", Int 1); ("NotReady", Unit)] 1 1.
Definition GotOrNotReady_payload_got (value : list Z) : Z := of_le (payload (Int 1) value).
Definition GotOrNotReady_asserted : Layouts := mkLayouts (mkLayout 2 1 (Some 1)) (mkLayout 2 1 (Some 1)).

(** [CancelledOrGot] *)
Inductive CancelledOrGotTag := CancelledOrGotTag_Cancelled | CancelledOrGotTag_Got.
Definition CancelledOrGotTag_of (b : Z) : option CancelledOrGotTag := match b with 0 => Some CancelledOrGotTag_Cancelled | 1 => Some CancelledOrGotTag_Got | _ => None end.
Definition CancelledOrGot : Ty := Union [("Cancelled", Unit); ("Got", Int 1)] 1 1.
Definition CancelledOrGot_payload_got (value : list Z) : Z := of_le (payload (Int 1) value).
Definition CancelledOrGot_asserted : Layouts := mkLayouts (mkLayout 2 1 (Some 1)) (mkLayout 2 1 (Some 1)).

(** [EndOrFailedOrLineOrNotReadyOrTooLong] *)
Inductive EndOrFailedOrLineOrNotReadyOrTooLongTag := EndOrFailedOrLineOrNotReadyOrTooLongTag_End | EndOrFailedOrLineOrNotReadyOrTooLongTag_Failed | EndOrFailedOrLineOrNotReadyOrTooLongTag_Line | EndOrFailedOrLineOrNotReadyOrTooLongTag_NotReady | EndOrFailedOrLineOrNotReadyOrTooLongTag_TooLong.
Definition EndOrFailedOrLineOrNotReadyOrTooLongTag_of (b : Z) : option EndOrFailedOrLineOrNotReadyOrTooLongTag := match b with 0 => Some EndOrFailedOrLineOrNotReadyOrTooLongTag_End | 1 => Some EndOrFailedOrLineOrNotReadyOrTooLongTag_Failed | 2 => Some EndOrFailedOrLineOrNotReadyOrTooLongTag_Line | 3 => Some EndOrFailedOrLineOrNotReadyOrTooLongTag_NotReady | 4 => Some EndOrFailedOrLineOrNotReadyOrTooLongTag_TooLong | _ => None end.
Definition EndOrFailedOrLineOrNotReadyOrTooLong : Ty := Union [("End", Unit); ("Failed", Str); ("Line", Str); ("NotReady", Unit); ("TooLong", Unit)] 12 4.
Definition EndOrFailedOrLineOrNotReadyOrTooLong_payload_failed (value : list Z) : RocStr := str_of_bytes (payload Str value).
Definition EndOrFailedOrLineOrNotReadyOrTooLong_payload_line (value : list Z) : RocStr := str_of_bytes (payload Str value).
Definition EndOrFailedOrLineOrNotReadyOrTooLong_asserted : Layouts := mkLayouts (mkLayout 32 8 (Some 24)) (mkLayout 16 4 (Some 12)).

(** [EndOrFailedOrLineOrTooLong] *)
Inductive EndOrFailedOrLineOrTooLongTag := EndOrFailedOrLineOrTooLongTag_End | EndOrFailedOrLineOrTooLongTag_Failed | EndOrFailedOrLineOrTooLongTag_Line | EndOrFailedOrLineOrTooLongTag_TooLong.
Definition EndOrFailedOrLineOrTooLongTag_of (b : Z) : option EndOrFailedOrLineOrTooLongTag := match b with 0 => Some EndOrFailedOrLineOrTooLongTag_End | 1 => Some EndOrFailedOrLineOrTooLongTag_Failed | 2 => Some EndOrFailedOrLineOrTooLongTag_Line | 3 => Some EndOrFailedOrLineOrTooLongTag_TooLong | _ => None end.
Definition EndOrFailedOrLineOrTooLong : Ty := Union [("End", Unit); ("Failed", Str); ("Line", Str); ("TooLong", Unit)] 12 4.
Definition EndOrFailedOrLineOrTooLong_payload_failed (value : list Z) : RocStr := str_of_bytes (payload Str value).
Definition EndOrFailedOrLineOrTooLong_payload_line (value : list Z) : RocStr := str_of_bytes (payload Str value).
Definition EndOrFailedOrLineOrTooLong_asserted : Layouts := mkLayouts (mkLayout 32 8 (Some 24)) (mkLayout 16 4 (Some 12)).

(** [HostStdoutLineResult] *)
Inductive HostStdoutLineResultTag := HostStdoutLineResultTag_Err | HostStdoutLineResultTag_Ok.
Definition HostStdoutLineResultTag_of (b : Z) : option HostStdoutLineResultTag := match b with 0 => Some HostStdoutLineResultTag_Err | 1 => Some HostStdoutLineResultTag_Ok | _ => None end.
Definition HostStdoutLineResult : Ty := Union [("Err", Str); ("Ok", Unit)] 12 4.
Definition HostStdoutLineResult_payload_err (value : list Z) : RocStr := str_of_bytes (payload Str value).
Definition HostStdoutLineResult_asserted : Layouts := mkLayouts (mkLayout 32 8 (Some 24)) (mkLayout 16 4 (Some 12)).

(** [IOErr] *)
Inductive IOErrTag := IOErrTag_AddrInUse | IOErrTag_AddrNotAvailable | IOErrTag_AlreadyExists | IOErrTag_BrokenPipe | IOErrTag_Cancelled | IOErrTag_ConnectionAborted | IOErrTag_ConnectionRefused | IOErrTag_ConnectionReset | IOErrTag_Interrupted | IOErrTag_InvalidInput | IOErrTag_NotConnected | IOErrTag_NotFound | IOErrTag_Other | IOErrTag_PermissionDenied | IOErrTag_TimedOut | IOErrTag_TooManySockets | IOErrTag_UnexpectedEof | IOErrTag_Unsupported.
Definition IOErrTag_of (b : Z) : option IOErrTag := match b with 0 => Some IOErrTag_AddrInUse | 1 => Some IOErrTag_AddrNotAvailable | 2 => Some IOErrTag_AlreadyExists | 3 => Some IOErrTag_BrokenPipe | 4 => Some IOErrTag_Cancelled | 5 => Some IOErrTag_ConnectionAborted | 6 => Some IOErrTag_ConnectionRefused | 7 => Some IOErrTag_ConnectionReset | 8 => Some IOErrTag_Interrupted | 9 => Some IOErrTag_InvalidInput | 10 => Some IOErrTag_NotConnected | 11 => Some IOErrTag_NotFound | 12 => Some IOErrTag_Other | 13 => Some IOErrTag_PermissionDenied | 14 => Some IOErrTag_TimedOut | 15 => Some IOErrTag_TooManySockets | 16 => Some IOErrTag_UnexpectedEof | 17 => Some IOErrTag_Unsupported | _ => None end.
Definition IOErr : Ty := Union [("AddrInUse", Unit); ("AddrNotAvailable", Unit); ("AlreadyExists", Unit); ("BrokenPipe", Unit); ("Cancelled", Unit); ("ConnectionAborted", Unit); ("ConnectionRefused", Unit); ("ConnectionReset", Unit); ("Interrupted", Unit); ("InvalidInput", Unit); ("NotConnected", Unit); ("NotFound", Unit); ("Other", Str); ("PermissionDenied", Unit); ("TimedOut", Unit); ("TooManySockets", Unit); ("UnexpectedEof", Unit); ("Unsupported", Unit)] 12 4.
Definition IOErr_payload_other (value : list Z) : RocStr := str_of_bytes (payload Str value).
Definition IOErr_asserted : Layouts := mkLayouts (mkLayout 32 8 (Some 24)) (mkLayout 16 4 (Some 12)).

(** [HostSocketAcceptResult] *)
Inductive HostSocketAcceptResultTag := HostSocketAcceptResultTag_Err | HostSocketAcceptResultTag_Ok.
Definition HostSocketAcceptResultTag_of (b : Z) : option HostSocketAcceptResultTag := match b with 0 => Some HostSocketAcceptResultTag_Err | 1 => Some HostSocketAcceptResultTag_Ok | _ => None end.
Definition HostSocketAcceptResult : Ty := Union [("Err", IOErr); ("Ok", Box)] 16 4.
Definition HostSocketAcceptResult_payload_err (value : list Z) : list Z := payload IOErr value.
Definition HostSocketAcceptResult_payload_ok (value : list Z) : Z := ptr_of_bytes (payload Box value).
Definition HostSocketAcceptResult_asserted : Layouts := mkLayouts (mkLayout 40 8 (Some 32)) (mkLayout 20 4 (Some 16)).

(** [HostSocketLocalAddrResult] *)
Inductive HostSocketLocalAddrResultTag := HostSocketLocalAddrResultTag_Err | HostSocketLocalAddrResultTag_Ok.
Definition HostSocketLocalAddrResultTag_of (b : Z) : option HostSocketLocalAddrResultTag := match b with 0 => Some HostSocketLocalAddrResultTag_Err | 1 => Some HostSocketLocalAddrResultTag_Ok | _ => None end.
Definition HostSocketLocalAddrResult : Ty := Union [("Err", IOErr); ("Ok", Str)] 16 4.
Definition HostSocketLocalAddrResult_payload_err (value : list Z) : list Z := payload IOErr value.
Definition HostSocketLocalAddrResult_payload_ok (value : list Z) : RocStr := str_of_bytes (payload Str value).
Definition HostSocketLocalAddrResult_asserted : Layouts := mkLayouts (mkLayout 40 8 (Some 32)) (mkLayout 20 4 (Some 16)).

(** [HostTlsPeerCertificatesResult] *)
Inductive HostTlsPeerCertificatesResultTag := HostTlsPeerCertificatesResultTag_Err | HostTlsPeerCertificatesResultTag_Ok.
Definition HostTlsPeerCertificatesResultTag_of (b : Z) : option HostTlsPeerCertificatesResultTag := match b with 0 => Some HostTlsPeerCertificatesResultTag_Err | 1 => Some HostTlsPeerCertificatesResultTag_Ok | _ => None end.
Definition HostTlsPeerCertificatesResult : Ty := Union [("Err", IOErr); ("Ok", ListOf true (ListOf false (Int 1)))] 16 4.
Definition HostTlsPeerCertificatesResult_payload_err (value : list Z) : list Z := payload IOErr value.
Definition HostTlsPeerCertificatesResult_payload_ok (value : list Z) : RocListWith := list_of_bytes (payload (ListOf true (ListOf false (Int 1))) value).
Definition HostTlsPeerCertificatesResult_asserted : Layouts := mkLayouts (mkLayout 40 8 (Some 32)) (mkLayout 20 4 (Some 16)).

(** [HostFileExistsResult] *)
Inductive HostFileExistsResultTag := HostFileExistsResultTag_Err | HostFileExistsResultTag_Ok.
Definition HostFileExistsResultTag_of (b : Z) : option HostFileExistsResultTag := match b with 0 => Some HostFileExistsResultTag_Err | 1 => Some HostFileExistsResultTag_Ok | _ => None end.
Definition HostFileExistsResult : Ty := Union [("Err", IOErr); ("Ok", Bool)] 16 4.
Definition HostFileExistsResult_payload_err (value : list Z) : list Z := payload IOErr value.
Definition HostFileExistsResult_payload_ok (value : list Z) : Z := of_le (payload Bool value).
Definition HostFileExistsResult_asserted : Layouts := mkLayouts (mkLayout 40 8 (Some 32)) (mkLayout 20 4 (Some 16)).

(** [HostFileReadResult] *)
Inductive HostFileReadResultTag := HostFileReadResultTag_Err | HostFileReadResultTag_Ok.
Definition HostFileReadResultTag_of (b : Z) : option HostFileReadResultTag := match b with 0 => Some HostFileReadResultTag_Err | 1 => Some HostFileReadResultTag_Ok | _ => None end.
Definition HostFileReadResult : Ty := Union [("Err", IOErr); ("Ok", ListOf false (Int 1))] 16 4.
Definition HostFileReadResult_payload_err (value : list Z) : list Z := payload IOErr value.
Definition HostFileReadResult_payload_ok (value : list Z) : RocListWith := list_of_bytes (payload (ListOf false (Int 1)) value).
Definition HostFileReadResult_asserted : Layouts := mkLayouts (mkLayout 40 8 (Some 32)) (mkLayout 20 4 (Some 16)).

(** [DataOrFailedOrNotReady] *)
Inductive DataOrFailedOrNotReadyTag := DataOrFailedOrNotReadyTag_Data | DataOrFailedOrNotReadyTag_Failed | DataOrFailedOrNotReadyTag_NotReady.
Definition DataOrFailedOrNotReadyTag_of (b : Z) : option DataOrFailedOrNotReadyTag := match b with 0 => Some DataOrFailedOrNotReadyTag_Data | 1 => Some DataOrFailedOrNotReadyTag_Failed | 2 => Some DataOrFailedOrNotReadyTag_NotReady | _ => None end.
Definition DataOrFailedOrNotReady : Ty := Union [("Data", ListOf false (Int 1)); ("Failed", IOErr); ("NotReady", Unit)] 16 4.
Definition DataOrFailedOrNotReady_payload_data (value : list Z) : RocListWith := list_of_bytes (payload (ListOf false (Int 1)) value).
Definition DataOrFailedOrNotReady_payload_failed (value : list Z) : list Z := payload IOErr value.
Definition DataOrFailedOrNotReady_asserted : Layouts := mkLayouts (mkLayout 40 8 (Some 32)) (mkLayout 20 4 (Some 16)).

(** [AcceptedOrFailedOrNotReady] *)
Inductive AcceptedOrFailedOrNotReadyTag := AcceptedOrFailedOrNotReadyTag_Accepted | AcceptedOrFailedOrNotReadyTag_Failed | AcceptedOrFailedOrNotReadyTag_NotReady.
Definition AcceptedOrFailedOrNotReadyTag_of (b : Z) : option AcceptedOrFailedOrNotReadyTag := match b with 0 => Some AcceptedOrFailedOrNotReadyTag_Accepted | 1 => Some AcceptedOrFailedOrNotReadyTag_Failed | 2 => Some AcceptedOrFailedOrNotReadyTag_NotReady | _ => None end.
Definition AcceptedOrFailedOrNotReady : Ty := Union [("Accepted", Box); ("Failed", IOErr); ("NotReady", Unit)] 16 4.
Definition AcceptedOrFailedOrNotReady_payload_accepted (value : list Z) : Z := ptr_of_bytes (payload Box value).
Definition AcceptedOrFailedOrNotReady_payload_failed (value : list Z) : list Z := payload IOErr value.
Definition AcceptedOrFailedOrNotReady_asserted : Layouts := mkLayouts (mkLayout 40 8 (Some 32)) (mkLayout 20 4 (Some 16)).

(** [CancelledOrDoneOrMessageTimedOutOrReadOrWrite] *)
Inductive CancelledOrDoneOrMessageTimedOutOrReadOrWriteTag := CancelledOrDoneOrMessageTimedOutOrReadOrWriteTag_Cancelled | CancelledOrDoneOrMessageTimedOutOrReadOrWriteTag_Done | CancelledOrDoneOrMessageTimedOutOrReadOrWriteTag_MessageTimedOut | CancelledOrDoneOrMessageTimedOutOrReadOrWriteTag_Read | CancelledOrDoneOrMessageTimedOutOrReadOrWriteTag_Write.
Definition CancelledOrDoneOrMessageTimedOutOrReadOrWriteTag_of (b : Z) : option CancelledOrDoneOrMessageTimedOutOrReadOrWriteTag := match b with 0 => Some CancelledOrDoneOrMessageTimedOutOrReadOrWriteTag_Cancelled | 1 => Some CancelledOrDoneOrMessageTimedOutOrReadOrWriteTag_Done | 2 => Some CancelledOrDoneOrMessageTimedOutOrReadOrWriteTag_MessageTimedOut | 3 => Some CancelledOrDoneOrMessageTimedOutOrReadOrWriteTag_Read | 4 => Some CancelledOrDoneOrMessageTimedOutOrReadOrWriteTag_Write | _ => None end.
Definition CancelledOrDoneOrMessageTimedOutOrReadOrWrite : Ty := Union [("Cancelled", Unit); ("Done", Unit); ("MessageTimedOut", Unit); ("Read", IOErr); ("Write", IOErr)] 16 4.
Definition CancelledOrDoneOrMessageTimedOutOrReadOrWrite_payload_read (value : list Z) : list Z := payload IOErr value.
Definition CancelledOrDoneOrMessageTimedOutOrReadOrWrite_payload_write (value : list Z) : list Z := payload IOErr value.
Definition CancelledOrDoneOrMessageTimedOutOrReadOrWrite_asserted : Layouts := mkLayouts (mkLayout 40 8 (Some 32)) (mkLayout 20 4 (Some 16)).

(** [ExactlyOrUntilEnd] *)
Inductive ExactlyOrUntilEndTag := ExactlyOrUntilEndTag_Exactly | ExactlyOrUntilEndTag_UntilEnd.
Definition ExactlyOrUntilEndTag_of (b : Z) : option ExactlyOrUntilEndTag := match b with 0 => Some ExactlyOrUntilEndTag_Exactly | 1 => Some ExactlyOrUntilEndTag_UntilEnd | _ => None end.
Definition ExactlyOrUntilEnd : Ty := Union [("Exactly", Int 8); ("UntilEnd", Unit)] 8 8.
Definition ExactlyOrUntilEnd_payload_exactly (value : list Z) : Z := of_le (payload (Int 8) value).
Definition ExactlyOrUntilEnd_asserted : Layouts := mkLayouts (mkLayout 16 8 (Some 8)) (mkLayout 16 8 (Some 8)).

(** [CancelledOrDoneOrReadAOrReadBOrTaskLimitReachedOrWriteAOrWriteB] *)
Inductive CancelledOrDoneOrReadAOrReadBOrTaskLimitReachedOrWriteAOrWriteBTag := CancelledOrDoneOrReadAOrReadBOrTaskLimitReachedOrWriteAOrWriteBTag_Cancelled | CancelledOrDoneOrReadAOrReadBOrTaskLimitReachedOrWriteAOrWriteBTag_Done | CancelledOrDoneOrReadAOrReadBOrTaskLimitReachedOrWriteAOrWriteBTag_ReadA | CancelledOrDoneOrReadAOrReadBOrTaskLimitReachedOrWriteAOrWriteBTag_ReadB | CancelledOrDoneOrReadAOrReadBOrTaskLimitReachedOrWriteAOrWriteBTag_TaskLimitReached | CancelledOrDoneOrReadAOrReadBOrTaskLimitReachedOrWriteAOrWriteBTag_WriteA | CancelledOrDoneOrReadAOrReadBOrTaskLimitReachedOrWriteAOrWriteBTag_WriteB.
Definition CancelledOrDoneOrReadAOrReadBOrTaskLimitReachedOrWriteAOrWriteBTag_of (b : Z) : option CancelledOrDoneOrReadAOrReadBOrTaskLimitReachedOrWriteAOrWriteBTag := match b with 0 => Some CancelledOrDoneOrReadAOrReadBOrTaskLimitReachedOrWriteAOrWriteBTag_Cancelled | 1 => Some CancelledOrDoneOrReadAOrReadBOrTaskLimitReachedOrWriteAOrWriteBTag_Done | 2 => Some CancelledOrDoneOrReadAOrReadBOrTaskLimitReachedOrWriteAOrWriteBTag_ReadA | 3 => Some CancelledOrDoneOrReadAOrReadBOrTaskLimitReachedOrWriteAOrWriteBTag_ReadB | 4 => Some CancelledOrDoneOrReadAOrReadBOrTaskLimitReachedOrWriteAOrWriteBTag_TaskLimitReached | 5 => Some CancelledOrDoneOrReadAOrReadBOrTaskLimitReachedOrWriteAOrWriteBTag_WriteA | 6 => Some CancelledOrDoneOrReadAOrReadBOrTaskLimitReachedOrWriteAOrWriteBTag_WriteB | _ => None end.
Definition CancelledOrDoneOrReadAOrReadBOrTaskLimitReachedOrWriteAOrWriteB : Ty := Union [("Cancelled", Unit); ("Done", Unit); ("ReadA", IOErr); ("ReadB", IOErr); ("TaskLimitReached", Unit); ("WriteA", IOErr); ("WriteB", IOErr)] 16 4.
Definition CancelledOrDoneOrReadAOrReadBOrTaskLimitReachedOrWriteAOrWriteB_payload_read_a (value : list Z) : list Z := payload IOErr value.
Definition CancelledOrDoneOrReadAOrReadBOrTaskLimitReachedOrWriteAOrWriteB_payload_read_b (value : list Z) : list Z := payload IOErr value.
Definition CancelledOrDoneOrReadAOrReadBOrTaskLimitReachedOrWriteAOrWriteB_payload_write_a (value : list Z) : list Z := payload IOErr value.
Definition CancelledOrDoneOrReadAOrReadBOrTaskLimitReachedOrWriteAOrWriteB_payload_write_b (value : list Z) : list Z := payload IOErr value.
Definition CancelledOrDoneOrReadAOrReadBOrTaskLimitReachedOrWriteAOrWriteB_asserted : Layouts := mkLayouts (mkLayout 40 8 (Some 32)) (mkLayout 20 4 (Some 16)).

Definition AnonStruct6954d79c85a0b6fd : Ty := Struct [("bytes", ListOf false (Int 1)); ("from", Str); ("truncated", Bool)].
Definition AnonStruct6954d79c85a0b6fd_asserted : Layouts := mkLayouts (mkLayout 56 8 None) (mkLayout 28 4 None).

(** [HostUdpRecvFromResult] *)
Inductive HostUdpRecvFromResultTag := HostUdpRecvFromResultTag_Err | HostUdpRecvFromResultTag_Ok.
Definition HostUdpRecvFromResultTag_of (b : Z) : option HostUdpRecvFromResultTag := match b with 0 => Some HostUdpRecvFromResultTag_Err | 1 => Some HostUdpRecvFromResultTag_Ok | _ => None end.
Definition HostUdpRecvFromResult : Ty := Union [("Err", IOErr); ("Ok", AnonStruct6954d79c85a0b6fd)] 28 4.
Definition HostUdpRecvFromResult_payload_err (value : list Z) : list Z := payload IOErr value.
Definition HostUdpRecvFromResult_payload_ok (value : list Z) : list Z := payload AnonStruct6954d79c85a0b6fd value.
Definition HostUdpRecvFromResult_asserted : Layouts := mkLayouts (mkLayout 64 8 (Some 56)) (mkLayout 32 4 (Some 28)).

Definition AnonStruct20e6ccaadf41c1a1 : Ty := Struct [("bytes", ListOf false (Int 1)); ("truncated", Bool)].
Definition AnonStruct20e6ccaadf41c1a1_asserted : Layouts := mkLayouts (mkLayout 32 8 None) (mkLayout 16 4 None).

(** [HostUdpRecvResult] *)
Inductive HostUdpRecvResultTag := HostUdpRecvResultTag_Err | HostUdpRecvResultTag_Ok.
Definition HostUdpRecvResultTag_of (b : Z) : option HostUdpRecvResultTag := match b with 0 => Some HostUdpRecvResultTag_Err | 1 => Some HostUdpRecvResultTag_Ok | _ => None end.
Definition HostUdpRecvResult : Ty := Union [("Err", IOErr); ("Ok", AnonStruct20e6ccaadf41c1a1)] 16 4.
Definition HostUdpRecvResult_payload_err (value : list Z) : list Z := payload IOErr value.
Definition HostUdpRecvResult_payload_ok (value : list Z) : list Z := payload AnonStruct20e6ccaadf41c1a1 value.
Definition HostUdpRecvResult_asserted : Layouts := mkLayouts (mkLayout 40 8 (Some 32)) (mkLayout 20 4 (Some 16)).

(** [HostSocketBufferSizeResult] *)
Inductive HostSocketBufferSizeResultTag := HostSocketBufferSizeResultTag_Err | HostSocketBufferSizeResultTag_Ok.
Definition HostSocketBufferSizeResultTag_of (b : Z) : option HostSocketBufferSizeResultTag := match b with 0 => Some HostSocketBufferSizeResultTag_Err | 1 => Some HostSocketBufferSizeResultTag_Ok | _ => None end.
Definition HostSocketBufferSizeResult : Ty := Union [("Err", IOErr); ("Ok", Int 8)] 16 8.
Definition HostSocketBufferSizeResult_payload_err (value : list Z) : list Z := payload IOErr value.
Definition HostSocketBufferSizeResult_payload_ok (value : list Z) : Z := of_le (payload (Int 8) value).
Definition HostSocketBufferSizeResult_asserted : Layouts := mkLayouts (mkLayout 40 8 (Some 32)) (mkLayout 24 8 (Some 16)).

Definition AnonStruct4a9a39232e571b2c : Ty := Struct [("gid", Int 4); ("pid", Int 4); ("uid", Int 4)].
Definition AnonStruct4a9a39232e571b2c_asserted : Layouts := mkLayouts (mkLayout 12 4 None) (mkLayout 12 4 None).

(** [HostUnixPeerCredentialsResult] *)
Inductive HostUnixPeerCredentialsResultTag := HostUnixPeerCredentialsResultTag_Err | HostUnixPeerCredentialsResultTag_Ok.
Definition HostUnixPeerCredentialsResultTag_of (b : Z) : option HostUnixPeerCredentialsResultTag := match b with 0 => Some HostUnixPeerCredentialsResultTag_Err | 1 => Some HostUnixPeerCredentialsResultTag_Ok | _ => None end.
Definition HostUnixPeerCredentialsResult : Ty := Union [("Err", IOErr); ("Ok", AnonStruct4a9a39232e571b2c)] 16 4.
Definition HostUnixPeerCredentialsResult_payload_err (value : list Z) : list Z := payload IOErr value.
Definition HostUnixPeerCredentialsResult_payload_ok (value : list Z) : list Z := payload AnonStruct4a9a39232e571b2c value.
Definition HostUnixPeerCredentialsResult_asserted : Layouts := mkLayouts (mkLayout 40 8 (Some 32)) (mkLayout 20 4 (Some 16)).

(** [BoolOrF64OrI64OrStrOrU64] *)
Inductive BoolOrF64OrI64OrStrOrU64Tag := BoolOrF64OrI64OrStrOrU64Tag_Bool | BoolOrF64OrI64OrStrOrU64Tag_F64 | BoolOrF64OrI64OrStrOrU64Tag_I64 | BoolOrF64OrI64OrStrOrU64Tag_Str | BoolOrF64OrI64OrStrOrU64Tag_U64.
Definition BoolOrF64OrI64OrStrOrU64Tag_of (b : Z) : option BoolOrF64OrI64OrStrOrU64Tag := match b with 0 => Some BoolOrF64OrI64OrStrOrU64Tag_Bool | 1 => Some BoolOrF64OrI64OrStrOrU64Tag_F64 | 2 => Some BoolOrF64OrI64OrStrOrU64Tag_I64 | 3 => Some BoolOrF64OrI64OrStrOrU64Tag_Str | 4 => Some BoolOrF64OrI64OrStrOrU64Tag_U64 | _ => None end.
Definition BoolOrF64OrI64OrStrOrU64 : Ty := Union [("Bool", Bool); ("F64", Int 8); ("I64", Int 8); ("Str", Str); ("U64", Int 8)] 12 8.
Definition BoolOrF64OrI64OrStrOrU64_payload_bool (value : list Z) : Z := of_le (payload Bool value).
Definition BoolOrF64OrI64OrStrOrU64_payload_f64 (value : list Z) : Z := of_le (payload (Int 8) value).
Definition BoolOrF64OrI64OrStrOrU64_payload_i64 (value : list Z) : Z := of_le (payload (Int 8) value).
Definition BoolOrF64OrI64OrStrOrU64_payload_str (value : list Z) : RocStr := str_of_bytes (payload Str value).
Definition BoolOrF64OrI64OrStrOrU64_payload_u64 (value : list Z) : Z := of_le (payload (Int 8) value).
Definition BoolOrF64OrI64OrStrOrU64_asserted : Layouts := mkLayouts (mkLayout 32 8 (Some 24)) (mkLayout 16 8 (Some 12)).

(** [HostDnsResolveResult] *)
Inductive HostDnsResolveResultTag := HostDnsResolveResultTag_Err | HostDnsResolveResultTag_Ok.
Definition HostDnsResolveResultTag_of (b : Z) : option HostDnsResolveResultTag := match b with 0 => Some HostDnsResolveResultTag_Err | 1 => Some HostDnsResolveResultTag_Ok | _ => None end.
Definition HostDnsResolveResult : Ty := Union [("Err", IOErr); ("Ok", ListOf true Str)] 16 4.
Definition HostDnsResolveResult_payload_err (value : list Z) : list Z := payload IOErr value.
Definition HostDnsResolveResult_payload_ok (value : list Z) : RocListWith := list_of_bytes (payload (ListOf true Str) value).
Definition HostDnsResolveResult_asserted : Layouts := mkLayouts (mkLayout 40 8 (Some 32)) (mkLayout 20 4 (Some 16)).

(** [FoundOrMissingOrNotUtf8] *)
Inductive FoundOrMissingOrNotUtf8Tag := FoundOrMissingOrNotUtf8Tag_Found | FoundOrMissingOrNotUtf8Tag_Missing | FoundOrMissingOrNotUtf8Tag_NotUtf8.
Definition FoundOrMissingOrNotUtf8Tag_of (b : Z) : option FoundOrMissingOrNotUtf8Tag := match b with 0 => Some FoundOrMissingOrNotUtf8Tag_Found | 1 => Some FoundOrMissingOrNotUtf8Tag_Missing | 2 => Some FoundOrMissingOrNotUtf8Tag_NotUtf8 | _ => None end.
Definition FoundOrMissingOrNotUtf8 : Ty := Union [("Found", Str); ("Missing", Unit); ("NotUtf8", Unit)] 12 4.
Definition FoundOrMissingOrNotUtf8_payload_found (value : list Z) : RocStr := str_of_bytes (payload Str value).
Definition FoundOrMissingOrNotUtf8_asserted : Layouts := mkLayouts (mkLayout 32 8 (Some 24)) (mkLayout 16 4 (Some 12)).

(** [LowOrderOrShared] *)
Inductive LowOrderOrSharedTag := LowOrderOrSharedTag_LowOrder | LowOrderOrSharedTag_Shared.
Definition LowOrderOrSharedTag_of (b : Z) : option LowOrderOrSharedTag := match b with 0 => Some LowOrderOrSharedTag_LowOrder | 1 => Some LowOrderOrSharedTag_Shared | _ => None end.
Definition LowOrderOrShared : Ty := Union [("LowOrder", Unit); ("Shared", ListOf false (Int 1))] 12 4.
Definition LowOrderOrShared_payload_shared (value : list Z) : RocListWith := list_of_bytes (payload (ListOf false (Int 1)) value).
Definition LowOrderOrShared_asserted : Layouts := mkLayouts (mkLayout 32 8 (Some 24)) (mkLayout 16 4 (Some 12)).

(** [InvalidOrOpened] *)
Inductive InvalidOrOpenedTag := InvalidOrOpenedTag_Invalid | InvalidOrOpenedTag_Opened.
Definition InvalidOrOpenedTag_of (b : Z) : option InvalidOrOpenedTag := match b with 0 => Some InvalidOrOpenedTag_Invalid | 1 => Some InvalidOrOpenedTag_Opened | _ => None end.
Definition InvalidOrOpened : Ty := Union [("Invalid", Unit); ("Opened", ListOf false (Int 1))] 12 4.
Definition InvalidOrOpened_payload_opened (value : list Z) : RocListWith := list_of_bytes (payload (ListOf false (Int 1)) value).
Definition InvalidOrOpened_asserted : Layouts := mkLayouts (mkLayout 32 8 (Some 24)) (mkLayout 16 4 (Some 12)).

(** [BytesOrOutOfMemory] *)
Inductive BytesOrOutOfMemoryTag := BytesOrOutOfMemoryTag_Bytes | BytesOrOutOfMemoryTag_OutOfMemory.
Definition BytesOrOutOfMemoryTag_of (b : Z) : option BytesOrOutOfMemoryTag := match b with 0 => Some BytesOrOutOfMemoryTag_Bytes | 1 => Some BytesOrOutOfMemoryTag_OutOfMemory | _ => None end.
Definition BytesOrOutOfMemory : Ty := Union [("Bytes", ListOf false (Int 1)); ("OutOfMemory", Unit)] 12 4.
Definition BytesOrOutOfMemory_payload_bytes (value : list Z) : RocListWith := list_of_bytes (payload (ListOf false (Int 1)) value).
Definition BytesOrOutOfMemory_asserted : Layouts := mkLayouts (mkLayout 32 8 (Some 24)) (mkLayout 16 4 (Some 12)).

Definition AnonStructDfa5943259877aa7 : Ty := Struct [("receiver", Box); ("sender", Box)].
Definition AnonStructDfa5943259877aa7_asserted : Layouts := mkLayouts (mkLayout 16 8 None) (mkLayout 8 4 None).

(** [HostChannelNewResult] *)
Inductive HostChannelNewResultTag := HostChannelNewResultTag_Err | HostChannelNewResultTag_Ok.
Definition HostChannelNewResultTag_of (b : Z) : option HostChannelNewResultTag := match b with 0 => Some HostChannelNewResultTag_Err | 1 => Some HostChannelNewResultTag_Ok | _ => None end.
Definition HostChannelNewResult : Ty := Union [("Err", Unit); ("Ok", AnonStructDfa5943259877aa7)] 8 4.
Definition HostChannelNewResult_payload_ok (value : list Z) : list Z := payload AnonStructDfa5943259877aa7 value.
Definition HostChannelNewResult_asserted : Layouts := mkLayouts (mkLayout 24 8 (Some 16)) (mkLayout 12 4 (Some 8)).

Definition CancelledOrClosedOrTimedOut : Ty := Enum ["Cancelled"; "Closed"; "TimedOut"].
Definition CancelledOrClosedOrTimedOut_asserted : Layouts := mkLayouts (mkLayout 1 1 None) (mkLayout 1 1 None).

(** [HostChannelReceiveResult] *)
Inductive HostChannelReceiveResultTag := HostChannelReceiveResultTag_Err | HostChannelReceiveResultTag_Ok.
Definition HostChannelReceiveResultTag_of (b : Z) : option HostChannelReceiveResultTag := match b with 0 => Some HostChannelReceiveResultTag_Err | 1 => Some HostChannelReceiveResultTag_Ok | _ => None end.
Definition HostChannelReceiveResult : Ty := Union [("Err", CancelledOrClosedOrTimedOut); ("Ok", Callable)] 4 4.
Definition HostChannelReceiveResult_payload_err (value : list Z) : list Z := payload CancelledOrClosedOrTimedOut value.
Definition HostChannelReceiveResult_payload_ok (value : list Z) : Z := ptr_of_bytes (payload Callable value).
Definition HostChannelReceiveResult_asserted : Layouts := mkLayouts (mkLayout 16 8 (Some 8)) (mkLayout 8 4 (Some 4)).

(** [CancelledOrReadyOrSourceTimedOutOrTimedOut] *)
Inductive CancelledOrReadyOrSourceTimedOutOrTimedOutTag := CancelledOrReadyOrSourceTimedOutOrTimedOutTag_Cancelled | CancelledOrReadyOrSourceTimedOutOrTimedOutTag_Ready | CancelledOrReadyOrSourceTimedOutOrTimedOutTag_SourceTimedOut | CancelledOrReadyOrSourceTimedOutOrTimedOutTag_TimedOut.
Definition CancelledOrReadyOrSourceTimedOutOrTimedOutTag_of (b : Z) : option CancelledOrReadyOrSourceTimedOutOrTimedOutTag := match b with 0 => Some CancelledOrReadyOrSourceTimedOutOrTimedOutTag_Cancelled | 1 => Some CancelledOrReadyOrSourceTimedOutOrTimedOutTag_Ready | 2 => Some CancelledOrReadyOrSourceTimedOutOrTimedOutTag_SourceTimedOut | 3 => Some CancelledOrReadyOrSourceTimedOutOrTimedOutTag_TimedOut | _ => None end.
Definition CancelledOrReadyOrSourceTimedOutOrTimedOut : Ty := Union [("Cancelled", Unit); ("Ready", Unit); ("SourceTimedOut", Int 8); ("TimedOut", Unit)] 8 8.
Definition CancelledOrReadyOrSourceTimedOutOrTimedOut_payload_source_timed_out (value : list Z) : Z := of_le (payload (Int 8) value).
Definition CancelledOrReadyOrSourceTimedOutOrTimedOut_asserted : Layouts := mkLayouts (mkLayout 16 8 (Some 8)) (mkLayout 16 8 (Some 8)).

(** [JoinableOrReadableOrReceivableOrSendableOrSignalCaughtOrStdinLineOrWritable] *)
Inductive JoinableOrReadableOrReceivableOrSendableOrSignalCaughtOrStdinLineOrWritableTag := JoinableOrReadableOrReceivableOrSendableOrSignalCaughtOrStdinLineOrWritableTag_Joinable | JoinableOrReadableOrReceivableOrSendableOrSignalCaughtOrStdinLineOrWritableTag_Readable | JoinableOrReadableOrReceivableOrSendableOrSignalCaughtOrStdinLineOrWritableTag_Receivable | JoinableOrReadableOrReceivableOrSendableOrSignalCaughtOrStdinLineOrWritableTag_Sendable | JoinableOrReadableOrReceivableOrSendableOrSignalCaughtOrStdinLineOrWritableTag_SignalCaught | JoinableOrReadableOrReceivableOrSendableOrSignalCaughtOrStdinLineOrWritableTag_StdinLine | JoinableOrReadableOrReceivableOrSendableOrSignalCaughtOrStdinLineOrWritableTag_Writable.
Definition JoinableOrReadableOrReceivableOrSendableOrSignalCaughtOrStdinLineOrWritableTag_of (b : Z) : option JoinableOrReadableOrReceivableOrSendableOrSignalCaughtOrStdinLineOrWritableTag := match b with 0 => Some JoinableOrReadableOrReceivableOrSendableOrSignalCaughtOrStdinLineOrWritableTag_Joinable | 1 => Some JoinableOrReadableOrReceivableOrSendableOrSignalCaughtOrStdinLineOrWritableTag_Readable | 2 => Some JoinableOrReadableOrReceivableOrSendableOrSignalCaughtOrStdinLineOrWritableTag_Receivable | 3 => Some JoinableOrReadableOrReceivableOrSendableOrSignalCaughtOrStdinLineOrWritableTag_Sendable | 4 => Some JoinableOrReadableOrReceivableOrSendableOrSignalCaughtOrStdinLineOrWritableTag_SignalCaught | 5 => Some JoinableOrReadableOrReceivableOrSendableOrSignalCaughtOrStdinLineOrWritableTag_StdinLine | 6 => Some JoinableOrReadableOrReceivableOrSendableOrSignalCaughtOrStdinLineOrWritableTag_Writable | _ => None end.
Definition JoinableOrReadableOrReceivableOrSendableOrSignalCaughtOrStdinLineOrWritable : Ty := Union [("Joinable", Box); ("Readable", Box); ("Receivable", Box); ("Sendable", Box); ("SignalCaught", Unit); ("StdinLine", Unit); ("Writable", Box)] 4 4.
Definition JoinableOrReadableOrReceivableOrSendableOrSignalCaughtOrStdinLineOrWritable_payload_joinable (value : list Z) : Z := ptr_of_bytes (payload Box value).
Definition JoinableOrReadableOrReceivableOrSendableOrSignalCaughtOrStdinLineOrWritable_payload_readable (value : list Z) : Z := ptr_of_bytes (payload Box value).
Definition JoinableOrReadableOrReceivableOrSendableOrSignalCaughtOrStdinLineOrWritable_payload_receivable (value : list Z) : Z := ptr_of_bytes (payload Box value).
Definition JoinableOrReadableOrReceivableOrSendableOrSignalCaughtOrStdinLineOrWritable_payload_sendable (value : list Z) : Z := ptr_of_bytes (payload Box value).
Definition JoinableOrReadableOrReceivableOrSendableOrSignalCaughtOrStdinLineOrWritable_payload_writable (value : list Z) : Z := ptr_of_bytes (payload Box value).
Definition JoinableOrReadableOrReceivableOrSendableOrSignalCaughtOrStdinLineOrWritable_asserted : Layouts := mkLayouts (mkLayout 16 8 (Some 8)) (mkLayout 8 4 (Some 4)).

(** [HostTaskSpawnResult] *)
Inductive HostTaskSpawnResultTag := HostTaskSpawnResultTag_Err | HostTaskSpawnResultTag_Ok.
Definition HostTaskSpawnResultTag_of (b : Z) : option HostTaskSpawnResultTag := match b with 0 => Some HostTaskSpawnResultTag_Err | 1 => Some HostTaskSpawnResultTag_Ok | _ => None end.
Definition HostTaskSpawnResult : Ty := Union [("Err", Unit); ("Ok", Box)] 4 4.
Definition HostTaskSpawnResult_payload_ok (value : list Z) : Z := ptr_of_bytes (payload Box value).
Definition HostTaskSpawnResult_asserted : Layouts := mkLayouts (mkLayout 16 8 (Some 8)) (mkLayout 8 4 (Some 4)).

(** [HostTaskJoinResult] *)
Inductive HostTaskJoinResultTag := HostTaskJoinResultTag_Err | HostTaskJoinResultTag_Ok.
Definition HostTaskJoinResultTag_of (b : Z) : option HostTaskJoinResultTag := match b with 0 => Some HostTaskJoinResultTag_Err | 1 => Some HostTaskJoinResultTag_Ok | _ => None end.
Definition HostTaskJoinResult : Ty := Union [("Err", Unit); ("Ok", Callable)] 4 4.
Definition HostTaskJoinResult_payload_ok (value : list Z) : Z := ptr_of_bytes (payload Callable value).
Definition HostTaskJoinResult_asserted : Layouts := mkLayouts (mkLayout 16 8 (Some 8)) (mkLayout 8 4 (Some 4)).

(** [HostGroupNewResult] *)
Inductive HostGroupNewResultTag := HostGroupNewResultTag_Err | HostGroupNewResultTag_Ok.
Definition HostGroupNewResultTag_of (b : Z) : option HostGroupNewResultTag := match b with 0 => Some HostGroupNewResultTag_Err | 1 => Some HostGroupNewResultTag_Ok | _ => None end.
Definition HostGroupNewResult : Ty := Union [("Err", Unit); ("Ok", Box)] 4 4.
Definition HostGroupNewResult_payload_ok (value : list Z) : Z := ptr_of_bytes (payload Box value).
Definition HostGroupNewResult_asserted : Layouts := mkLayouts (mkLayout 16 8 (Some 8)) (mkLayout 8 4 (Some 4)).

Definition CancelledOrClosedOrFullOrSent : Ty := Enum ["Cancelled"; "Closed"; "Full"; "Sent"].
Definition CancelledOrClosedOrFullOrSent_asserted : Layouts := mkLayouts (mkLayout 1 1 None) (mkLayout 1 1 None).

Definition AnonStructF1e164f99c294fde : Ty := Struct [("cert_file", Str); ("key_file", Str); ("name", Str)].
Definition AnonStructF1e164f99c294fde_asserted : Layouts := mkLayouts (mkLayout 72 8 None) (mkLayout 36 4 None).

Definition AnonStruct3db9d1cc6db3a401 : Ty := Struct [("copied", Int 8); ("outcome", CancelledOrDoneOrMessageTimedOutOrReadOrWrite)].
Definition AnonStruct3db9d1cc6db3a401_asserted : Layouts := mkLayouts (mkLayout 48 8 None) (mkLayout 32 8 None).

Definition AnonStruct91380971f8261c26 : Ty := Struct [("a_to_b", Int 8); ("b_to_a", Int 8); ("outcome", CancelledOrDoneOrReadAOrReadBOrTaskLimitReachedOrWriteAOrWriteB)].
Definition AnonStruct91380971f8261c26_asserted : Layouts := mkLayouts (mkLayout 56 8 None) (mkLayout 40 8 None).

Definition AnonStructBe833d82c728025b : Ty := Struct [("value", BoolOrF64OrI64OrStrOrU64); ("key", Str)].
Definition AnonStructBe833d82c728025b_asserted : Layouts := mkLayouts (mkLayout 56 8 None) (mkLayout 32 8 None).

Definition HostStreamCopyBothRetRecord : Ty := Struct [("a_to_b", Int 8); ("b_to_a", Int 8); ("outcome", CancelledOrDoneOrReadAOrReadBOrTaskLimitReachedOrWriteAOrWriteB)].
Definition HostStreamCopyBothRetRecord_asserted : Layouts := mkLayouts (mkLayout 56 8 None) (mkLayout 40 8 None).

Definition HostStreamCopyToRetRecord : Ty := Struct [("copied", Int 8); ("outcome", CancelledOrDoneOrMessageTimedOutOrReadOrWrite)].
Definition HostStreamCopyToRetRecord_asserted : Layouts := mkLayouts (mkLayout 48 8 None) (mkLayout 32 8 None).

(** ** Releasing and retaining a value *)

Section Generated.
Variable call : Z -> Z -> M unit.

(** [decref_list_of_list_of_type41]: its elements are lists of bytes. *)
Definition decref_list_of_list_of_type41 (l : RocListWith) : M unit := list_release_with (elem_of true (ListOf false (Int 1))) (fun x => list_decref (elem_of false (Int 1)) (list_of_bytes x)) l.

(** [HostStderrLineResult] *)
Definition HostStderrLineResult_decref (value : list Z) : M unit :=
  match tag_byte HostStderrLineResult value ≫= HostStderrLineResultTag_of with
  | Some HostStderrLineResultTag_Err => str_decref (HostStderrLineResult_payload_err value)
  | Some HostStderrLineResultTag_Ok => mret tt
  | None => undefined
  end.
Definition HostStderrLineResult_incref (value : list Z) (amount : Z) : M unit :=
  match tag_byte HostStderrLineResult value ≫= HostStderrLineResultTag_of with
  | Some HostStderrLineResultTag_Err => str_incref (HostStderrLineResult_payload_err value) amount
  | Some HostStderrLineResultTag_Ok => mret tt
  | None => undefined
  end.

(** [HostStdinLineResult] *)
Definition HostStdinLineResult_decref (value : list Z) : M unit :=
  match tag_byte HostStdinLineResult value ≫= HostStdinLineResultTag_of with
  | Some HostStdinLineResultTag_Err => str_decref (HostStdinLineResult_payload_err value)
  | Some HostStdinLineResultTag_Ok => str_decref (HostStdinLineResult_payload_ok value)
  | None => undefined
  end.
Definition HostStdinLineResult_incref (value : list Z) (amount : Z) : M unit :=
  match tag_byte HostStdinLineResult value ≫= HostStdinLineResultTag_of with
  | Some HostStdinLineResultTag_Err => str_incref (HostStdinLineResult_payload_err value) amount
  | Some HostStdinLineResultTag_Ok => str_incref (HostStdinLineResult_payload_ok value) amount
  | None => undefined
  end.

(** [HostIOErr] *)
Definition HostIOErr_decref (value : list Z) : M unit :=
  match tag_byte HostIOErr value ≫= HostIOErrTag_of with
  | Some HostIOErrTag_Other => str_decref (HostIOErr_payload_other value)
  | Some HostIOErrTag_AddrInUse | Some HostIOErrTag_AddrNotAvailable | Some HostIOErrTag_AlreadyExists | Some HostIOErrTag_BrokenPipe | Some HostIOErrTag_Cancelled | Some HostIOErrTag_ConnectionAborted | Some HostIOErrTag_ConnectionRefused | Some HostIOErrTag_ConnectionReset | Some HostIOErrTag_Interrupted | Some HostIOErrTag_InvalidInput | Some HostIOErrTag_NotConnected | Some HostIOErrTag_NotFound | Some HostIOErrTag_PermissionDenied | Some HostIOErrTag_TimedOut | Some HostIOErrTag_TooManySockets | Some HostIOErrTag_UnexpectedEof | Some HostIOErrTag_Unsupported => mret tt
  | None => undefined
  end.
Definition HostIOErr_incref (value : list Z) (amount : Z) : M unit :=
  match tag_byte HostIOErr value ≫= HostIOErrTag_of with
  | Some HostIOErrTag_Other => str_incref (HostIOErr_payload_other value) amount
  | Some HostIOErrTag_AddrInUse | Some HostIOErrTag_AddrNotAvailable | Some HostIOErrTag_AlreadyExists | Some HostIOErrTag_BrokenPipe | Some HostIOErrTag_Cancelled | Some HostIOErrTag_ConnectionAborted | Some HostIOErrTag_ConnectionRefused | Some HostIOErrTag_ConnectionReset | Some HostIOErrTag_Interrupted | Some HostIOErrTag_InvalidInput | Some HostIOErrTag_NotConnected | Some HostIOErrTag_NotFound | Some HostIOErrTag_PermissionDenied | Some HostIOErrTag_TimedOut | Some HostIOErrTag_TooManySockets | Some HostIOErrTag_UnexpectedEof | Some HostIOErrTag_Unsupported => mret tt
  | None => undefined
  end.

(** [HostSignalCatchResult] *)
Definition HostSignalCatchResult_decref (value : list Z) : M unit :=
  match tag_byte HostSignalCatchResult value ≫= HostSignalCatchResultTag_of with
  | Some HostSignalCatchResultTag_Err => HostIOErr_decref (HostSignalCatchResult_payload_err value)
  | Some HostSignalCatchResultTag_Ok => mret tt
  | None => undefined
  end.
Definition HostSignalCatchResult_incref (value : list Z) (amount : Z) : M unit :=
  match tag_byte HostSignalCatchResult value ≫= HostSignalCatchResultTag_of with
  | Some HostSignalCatchResultTag_Err => HostIOErr_incref (HostSignalCatchResult_payload_err value) amount
  | Some HostSignalCatchResultTag_Ok => mret tt
  | None => undefined
  end.

(** [GotOrNotReady] *)
Definition GotOrNotReady_decref (value : list Z) : M unit :=
  match tag_byte GotOrNotReady value ≫= GotOrNotReadyTag_of with
  | Some GotOrNotReadyTag_Got | Some GotOrNotReadyTag_NotReady => mret tt
  | None => undefined
  end.
Definition GotOrNotReady_incref (value : list Z) (amount : Z) : M unit :=
  match tag_byte GotOrNotReady value ≫= GotOrNotReadyTag_of with
  | Some GotOrNotReadyTag_Got | Some GotOrNotReadyTag_NotReady => mret tt
  | None => undefined
  end.

(** [CancelledOrGot] *)
Definition CancelledOrGot_decref (value : list Z) : M unit :=
  match tag_byte CancelledOrGot value ≫= CancelledOrGotTag_of with
  | Some CancelledOrGotTag_Cancelled | Some CancelledOrGotTag_Got => mret tt
  | None => undefined
  end.
Definition CancelledOrGot_incref (value : list Z) (amount : Z) : M unit :=
  match tag_byte CancelledOrGot value ≫= CancelledOrGotTag_of with
  | Some CancelledOrGotTag_Cancelled | Some CancelledOrGotTag_Got => mret tt
  | None => undefined
  end.

(** [EndOrFailedOrLineOrNotReadyOrTooLong] *)
Definition EndOrFailedOrLineOrNotReadyOrTooLong_decref (value : list Z) : M unit :=
  match tag_byte EndOrFailedOrLineOrNotReadyOrTooLong value ≫= EndOrFailedOrLineOrNotReadyOrTooLongTag_of with
  | Some EndOrFailedOrLineOrNotReadyOrTooLongTag_Failed => str_decref (EndOrFailedOrLineOrNotReadyOrTooLong_payload_failed value)
  | Some EndOrFailedOrLineOrNotReadyOrTooLongTag_Line => str_decref (EndOrFailedOrLineOrNotReadyOrTooLong_payload_line value)
  | Some EndOrFailedOrLineOrNotReadyOrTooLongTag_End | Some EndOrFailedOrLineOrNotReadyOrTooLongTag_NotReady | Some EndOrFailedOrLineOrNotReadyOrTooLongTag_TooLong => mret tt
  | None => undefined
  end.
Definition EndOrFailedOrLineOrNotReadyOrTooLong_incref (value : list Z) (amount : Z) : M unit :=
  match tag_byte EndOrFailedOrLineOrNotReadyOrTooLong value ≫= EndOrFailedOrLineOrNotReadyOrTooLongTag_of with
  | Some EndOrFailedOrLineOrNotReadyOrTooLongTag_Failed => str_incref (EndOrFailedOrLineOrNotReadyOrTooLong_payload_failed value) amount
  | Some EndOrFailedOrLineOrNotReadyOrTooLongTag_Line => str_incref (EndOrFailedOrLineOrNotReadyOrTooLong_payload_line value) amount
  | Some EndOrFailedOrLineOrNotReadyOrTooLongTag_End | Some EndOrFailedOrLineOrNotReadyOrTooLongTag_NotReady | Some EndOrFailedOrLineOrNotReadyOrTooLongTag_TooLong => mret tt
  | None => undefined
  end.

(** [EndOrFailedOrLineOrTooLong] *)
Definition EndOrFailedOrLineOrTooLong_decref (value : list Z) : M unit :=
  match tag_byte EndOrFailedOrLineOrTooLong value ≫= EndOrFailedOrLineOrTooLongTag_of with
  | Some EndOrFailedOrLineOrTooLongTag_Failed => str_decref (EndOrFailedOrLineOrTooLong_payload_failed value)
  | Some EndOrFailedOrLineOrTooLongTag_Line => str_decref (EndOrFailedOrLineOrTooLong_payload_line value)
  | Some EndOrFailedOrLineOrTooLongTag_End | Some EndOrFailedOrLineOrTooLongTag_TooLong => mret tt
  | None => undefined
  end.
Definition EndOrFailedOrLineOrTooLong_incref (value : list Z) (amount : Z) : M unit :=
  match tag_byte EndOrFailedOrLineOrTooLong value ≫= EndOrFailedOrLineOrTooLongTag_of with
  | Some EndOrFailedOrLineOrTooLongTag_Failed => str_incref (EndOrFailedOrLineOrTooLong_payload_failed value) amount
  | Some EndOrFailedOrLineOrTooLongTag_Line => str_incref (EndOrFailedOrLineOrTooLong_payload_line value) amount
  | Some EndOrFailedOrLineOrTooLongTag_End | Some EndOrFailedOrLineOrTooLongTag_TooLong => mret tt
  | None => undefined
  end.

(** [HostStdoutLineResult] *)
Definition HostStdoutLineResult_decref (value : list Z) : M unit :=
  match tag_byte HostStdoutLineResult value ≫= HostStdoutLineResultTag_of with
  | Some HostStdoutLineResultTag_Err => str_decref (HostStdoutLineResult_payload_err value)
  | Some HostStdoutLineResultTag_Ok => mret tt
  | None => undefined
  end.
Definition HostStdoutLineResult_incref (value : list Z) (amount : Z) : M unit :=
  match tag_byte HostStdoutLineResult value ≫= HostStdoutLineResultTag_of with
  | Some HostStdoutLineResultTag_Err => str_incref (HostStdoutLineResult_payload_err value) amount
  | Some HostStdoutLineResultTag_Ok => mret tt
  | None => undefined
  end.

(** [IOErr] *)
Definition IOErr_decref (value : list Z) : M unit :=
  match tag_byte IOErr value ≫= IOErrTag_of with
  | Some IOErrTag_Other => str_decref (IOErr_payload_other value)
  | Some IOErrTag_AddrInUse | Some IOErrTag_AddrNotAvailable | Some IOErrTag_AlreadyExists | Some IOErrTag_BrokenPipe | Some IOErrTag_Cancelled | Some IOErrTag_ConnectionAborted | Some IOErrTag_ConnectionRefused | Some IOErrTag_ConnectionReset | Some IOErrTag_Interrupted | Some IOErrTag_InvalidInput | Some IOErrTag_NotConnected | Some IOErrTag_NotFound | Some IOErrTag_PermissionDenied | Some IOErrTag_TimedOut | Some IOErrTag_TooManySockets | Some IOErrTag_UnexpectedEof | Some IOErrTag_Unsupported => mret tt
  | None => undefined
  end.
Definition IOErr_incref (value : list Z) (amount : Z) : M unit :=
  match tag_byte IOErr value ≫= IOErrTag_of with
  | Some IOErrTag_Other => str_incref (IOErr_payload_other value) amount
  | Some IOErrTag_AddrInUse | Some IOErrTag_AddrNotAvailable | Some IOErrTag_AlreadyExists | Some IOErrTag_BrokenPipe | Some IOErrTag_Cancelled | Some IOErrTag_ConnectionAborted | Some IOErrTag_ConnectionRefused | Some IOErrTag_ConnectionReset | Some IOErrTag_Interrupted | Some IOErrTag_InvalidInput | Some IOErrTag_NotConnected | Some IOErrTag_NotFound | Some IOErrTag_PermissionDenied | Some IOErrTag_TimedOut | Some IOErrTag_TooManySockets | Some IOErrTag_UnexpectedEof | Some IOErrTag_Unsupported => mret tt
  | None => undefined
  end.

(** [HostSocketAcceptResult] *)
Definition HostSocketAcceptResult_decref (value : list Z) : M unit :=
  match tag_byte HostSocketAcceptResult value ≫= HostSocketAcceptResultTag_of with
  | Some HostSocketAcceptResultTag_Err => IOErr_decref (HostSocketAcceptResult_payload_err value)
  | Some HostSocketAcceptResultTag_Ok => decref_box_with (HostSocketAcceptResult_payload_ok value) 8 false None
  | None => undefined
  end.
Definition HostSocketAcceptResult_incref (value : list Z) (amount : Z) : M unit :=
  match tag_byte HostSocketAcceptResult value ≫= HostSocketAcceptResultTag_of with
  | Some HostSocketAcceptResultTag_Err => IOErr_incref (HostSocketAcceptResult_payload_err value) amount
  | Some HostSocketAcceptResultTag_Ok => incref_box (HostSocketAcceptResult_payload_ok value) amount
  | None => undefined
  end.

(** [HostSocketLocalAddrResult] *)
Definition HostSocketLocalAddrResult_decref (value : list Z) : M unit :=
  match tag_byte HostSocketLocalAddrResult value ≫= HostSocketLocalAddrResultTag_of with
  | Some HostSocketLocalAddrResultTag_Err => IOErr_decref (HostSocketLocalAddrResult_payload_err value)
  | Some HostSocketLocalAddrResultTag_Ok => str_decref (HostSocketLocalAddrResult_payload_ok value)
  | None => undefined
  end.
Definition HostSocketLocalAddrResult_incref (value : list Z) (amount : Z) : M unit :=
  match tag_byte HostSocketLocalAddrResult value ≫= HostSocketLocalAddrResultTag_of with
  | Some HostSocketLocalAddrResultTag_Err => IOErr_incref (HostSocketLocalAddrResult_payload_err value) amount
  | Some HostSocketLocalAddrResultTag_Ok => str_incref (HostSocketLocalAddrResult_payload_ok value) amount
  | None => undefined
  end.

(** [HostTlsPeerCertificatesResult] *)
Definition HostTlsPeerCertificatesResult_decref (value : list Z) : M unit :=
  match tag_byte HostTlsPeerCertificatesResult value ≫= HostTlsPeerCertificatesResultTag_of with
  | Some HostTlsPeerCertificatesResultTag_Err => IOErr_decref (HostTlsPeerCertificatesResult_payload_err value)
  | Some HostTlsPeerCertificatesResultTag_Ok => decref_list_of_list_of_type41 (HostTlsPeerCertificatesResult_payload_ok value)
  | None => undefined
  end.
Definition HostTlsPeerCertificatesResult_incref (value : list Z) (amount : Z) : M unit :=
  match tag_byte HostTlsPeerCertificatesResult value ≫= HostTlsPeerCertificatesResultTag_of with
  | Some HostTlsPeerCertificatesResultTag_Err => IOErr_incref (HostTlsPeerCertificatesResult_payload_err value) amount
  | Some HostTlsPeerCertificatesResultTag_Ok => list_incref (HostTlsPeerCertificatesResult_payload_ok value) amount
  | None => undefined
  end.

(** [HostFileExistsResult] *)
Definition HostFileExistsResult_decref (value : list Z) : M unit :=
  match tag_byte HostFileExistsResult value ≫= HostFileExistsResultTag_of with
  | Some HostFileExistsResultTag_Err => IOErr_decref (HostFileExistsResult_payload_err value)
  | Some HostFileExistsResultTag_Ok => mret tt
  | None => undefined
  end.
Definition HostFileExistsResult_incref (value : list Z) (amount : Z) : M unit :=
  match tag_byte HostFileExistsResult value ≫= HostFileExistsResultTag_of with
  | Some HostFileExistsResultTag_Err => IOErr_incref (HostFileExistsResult_payload_err value) amount
  | Some HostFileExistsResultTag_Ok => mret tt
  | None => undefined
  end.

(** [HostFileReadResult] *)
Definition HostFileReadResult_decref (value : list Z) : M unit :=
  match tag_byte HostFileReadResult value ≫= HostFileReadResultTag_of with
  | Some HostFileReadResultTag_Err => IOErr_decref (HostFileReadResult_payload_err value)
  | Some HostFileReadResultTag_Ok => list_decref (elem_of false (Int 1)) (HostFileReadResult_payload_ok value)
  | None => undefined
  end.
Definition HostFileReadResult_incref (value : list Z) (amount : Z) : M unit :=
  match tag_byte HostFileReadResult value ≫= HostFileReadResultTag_of with
  | Some HostFileReadResultTag_Err => IOErr_incref (HostFileReadResult_payload_err value) amount
  | Some HostFileReadResultTag_Ok => list_incref (HostFileReadResult_payload_ok value) amount
  | None => undefined
  end.

(** [DataOrFailedOrNotReady] *)
Definition DataOrFailedOrNotReady_decref (value : list Z) : M unit :=
  match tag_byte DataOrFailedOrNotReady value ≫= DataOrFailedOrNotReadyTag_of with
  | Some DataOrFailedOrNotReadyTag_Data => list_decref (elem_of false (Int 1)) (DataOrFailedOrNotReady_payload_data value)
  | Some DataOrFailedOrNotReadyTag_Failed => IOErr_decref (DataOrFailedOrNotReady_payload_failed value)
  | Some DataOrFailedOrNotReadyTag_NotReady => mret tt
  | None => undefined
  end.
Definition DataOrFailedOrNotReady_incref (value : list Z) (amount : Z) : M unit :=
  match tag_byte DataOrFailedOrNotReady value ≫= DataOrFailedOrNotReadyTag_of with
  | Some DataOrFailedOrNotReadyTag_Data => list_incref (DataOrFailedOrNotReady_payload_data value) amount
  | Some DataOrFailedOrNotReadyTag_Failed => IOErr_incref (DataOrFailedOrNotReady_payload_failed value) amount
  | Some DataOrFailedOrNotReadyTag_NotReady => mret tt
  | None => undefined
  end.

(** [AcceptedOrFailedOrNotReady] *)
Definition AcceptedOrFailedOrNotReady_decref (value : list Z) : M unit :=
  match tag_byte AcceptedOrFailedOrNotReady value ≫= AcceptedOrFailedOrNotReadyTag_of with
  | Some AcceptedOrFailedOrNotReadyTag_Accepted => decref_box_with (AcceptedOrFailedOrNotReady_payload_accepted value) 8 false None
  | Some AcceptedOrFailedOrNotReadyTag_Failed => IOErr_decref (AcceptedOrFailedOrNotReady_payload_failed value)
  | Some AcceptedOrFailedOrNotReadyTag_NotReady => mret tt
  | None => undefined
  end.
Definition AcceptedOrFailedOrNotReady_incref (value : list Z) (amount : Z) : M unit :=
  match tag_byte AcceptedOrFailedOrNotReady value ≫= AcceptedOrFailedOrNotReadyTag_of with
  | Some AcceptedOrFailedOrNotReadyTag_Accepted => incref_box (AcceptedOrFailedOrNotReady_payload_accepted value) amount
  | Some AcceptedOrFailedOrNotReadyTag_Failed => IOErr_incref (AcceptedOrFailedOrNotReady_payload_failed value) amount
  | Some AcceptedOrFailedOrNotReadyTag_NotReady => mret tt
  | None => undefined
  end.

(** [CancelledOrDoneOrMessageTimedOutOrReadOrWrite] *)
Definition CancelledOrDoneOrMessageTimedOutOrReadOrWrite_decref (value : list Z) : M unit :=
  match tag_byte CancelledOrDoneOrMessageTimedOutOrReadOrWrite value ≫= CancelledOrDoneOrMessageTimedOutOrReadOrWriteTag_of with
  | Some CancelledOrDoneOrMessageTimedOutOrReadOrWriteTag_Read => IOErr_decref (CancelledOrDoneOrMessageTimedOutOrReadOrWrite_payload_read value)
  | Some CancelledOrDoneOrMessageTimedOutOrReadOrWriteTag_Write => IOErr_decref (CancelledOrDoneOrMessageTimedOutOrReadOrWrite_payload_write value)
  | Some CancelledOrDoneOrMessageTimedOutOrReadOrWriteTag_Cancelled | Some CancelledOrDoneOrMessageTimedOutOrReadOrWriteTag_Done | Some CancelledOrDoneOrMessageTimedOutOrReadOrWriteTag_MessageTimedOut => mret tt
  | None => undefined
  end.
Definition CancelledOrDoneOrMessageTimedOutOrReadOrWrite_incref (value : list Z) (amount : Z) : M unit :=
  match tag_byte CancelledOrDoneOrMessageTimedOutOrReadOrWrite value ≫= CancelledOrDoneOrMessageTimedOutOrReadOrWriteTag_of with
  | Some CancelledOrDoneOrMessageTimedOutOrReadOrWriteTag_Read => IOErr_incref (CancelledOrDoneOrMessageTimedOutOrReadOrWrite_payload_read value) amount
  | Some CancelledOrDoneOrMessageTimedOutOrReadOrWriteTag_Write => IOErr_incref (CancelledOrDoneOrMessageTimedOutOrReadOrWrite_payload_write value) amount
  | Some CancelledOrDoneOrMessageTimedOutOrReadOrWriteTag_Cancelled | Some CancelledOrDoneOrMessageTimedOutOrReadOrWriteTag_Done | Some CancelledOrDoneOrMessageTimedOutOrReadOrWriteTag_MessageTimedOut => mret tt
  | None => undefined
  end.

(** [ExactlyOrUntilEnd] *)
Definition ExactlyOrUntilEnd_decref (value : list Z) : M unit :=
  match tag_byte ExactlyOrUntilEnd value ≫= ExactlyOrUntilEndTag_of with
  | Some ExactlyOrUntilEndTag_Exactly | Some ExactlyOrUntilEndTag_UntilEnd => mret tt
  | None => undefined
  end.
Definition ExactlyOrUntilEnd_incref (value : list Z) (amount : Z) : M unit :=
  match tag_byte ExactlyOrUntilEnd value ≫= ExactlyOrUntilEndTag_of with
  | Some ExactlyOrUntilEndTag_Exactly | Some ExactlyOrUntilEndTag_UntilEnd => mret tt
  | None => undefined
  end.

(** [CancelledOrDoneOrReadAOrReadBOrTaskLimitReachedOrWriteAOrWriteB] *)
Definition CancelledOrDoneOrReadAOrReadBOrTaskLimitReachedOrWriteAOrWriteB_decref (value : list Z) : M unit :=
  match tag_byte CancelledOrDoneOrReadAOrReadBOrTaskLimitReachedOrWriteAOrWriteB value ≫= CancelledOrDoneOrReadAOrReadBOrTaskLimitReachedOrWriteAOrWriteBTag_of with
  | Some CancelledOrDoneOrReadAOrReadBOrTaskLimitReachedOrWriteAOrWriteBTag_ReadA => IOErr_decref (CancelledOrDoneOrReadAOrReadBOrTaskLimitReachedOrWriteAOrWriteB_payload_read_a value)
  | Some CancelledOrDoneOrReadAOrReadBOrTaskLimitReachedOrWriteAOrWriteBTag_ReadB => IOErr_decref (CancelledOrDoneOrReadAOrReadBOrTaskLimitReachedOrWriteAOrWriteB_payload_read_b value)
  | Some CancelledOrDoneOrReadAOrReadBOrTaskLimitReachedOrWriteAOrWriteBTag_WriteA => IOErr_decref (CancelledOrDoneOrReadAOrReadBOrTaskLimitReachedOrWriteAOrWriteB_payload_write_a value)
  | Some CancelledOrDoneOrReadAOrReadBOrTaskLimitReachedOrWriteAOrWriteBTag_WriteB => IOErr_decref (CancelledOrDoneOrReadAOrReadBOrTaskLimitReachedOrWriteAOrWriteB_payload_write_b value)
  | Some CancelledOrDoneOrReadAOrReadBOrTaskLimitReachedOrWriteAOrWriteBTag_Cancelled | Some CancelledOrDoneOrReadAOrReadBOrTaskLimitReachedOrWriteAOrWriteBTag_Done | Some CancelledOrDoneOrReadAOrReadBOrTaskLimitReachedOrWriteAOrWriteBTag_TaskLimitReached => mret tt
  | None => undefined
  end.
Definition CancelledOrDoneOrReadAOrReadBOrTaskLimitReachedOrWriteAOrWriteB_incref (value : list Z) (amount : Z) : M unit :=
  match tag_byte CancelledOrDoneOrReadAOrReadBOrTaskLimitReachedOrWriteAOrWriteB value ≫= CancelledOrDoneOrReadAOrReadBOrTaskLimitReachedOrWriteAOrWriteBTag_of with
  | Some CancelledOrDoneOrReadAOrReadBOrTaskLimitReachedOrWriteAOrWriteBTag_ReadA => IOErr_incref (CancelledOrDoneOrReadAOrReadBOrTaskLimitReachedOrWriteAOrWriteB_payload_read_a value) amount
  | Some CancelledOrDoneOrReadAOrReadBOrTaskLimitReachedOrWriteAOrWriteBTag_ReadB => IOErr_incref (CancelledOrDoneOrReadAOrReadBOrTaskLimitReachedOrWriteAOrWriteB_payload_read_b value) amount
  | Some CancelledOrDoneOrReadAOrReadBOrTaskLimitReachedOrWriteAOrWriteBTag_WriteA => IOErr_incref (CancelledOrDoneOrReadAOrReadBOrTaskLimitReachedOrWriteAOrWriteB_payload_write_a value) amount
  | Some CancelledOrDoneOrReadAOrReadBOrTaskLimitReachedOrWriteAOrWriteBTag_WriteB => IOErr_incref (CancelledOrDoneOrReadAOrReadBOrTaskLimitReachedOrWriteAOrWriteB_payload_write_b value) amount
  | Some CancelledOrDoneOrReadAOrReadBOrTaskLimitReachedOrWriteAOrWriteBTag_Cancelled | Some CancelledOrDoneOrReadAOrReadBOrTaskLimitReachedOrWriteAOrWriteBTag_Done | Some CancelledOrDoneOrReadAOrReadBOrTaskLimitReachedOrWriteAOrWriteBTag_TaskLimitReached => mret tt
  | None => undefined
  end.

Definition AnonStruct6954d79c85a0b6fd_decref (value : list Z) : M unit :=
  _ ← list_decref (elem_of false (Int 1)) (list_of_bytes (field AnonStruct6954d79c85a0b6fd "bytes" value)); _ ← str_decref (str_of_bytes (field AnonStruct6954d79c85a0b6fd "from" value)); mret tt.
Definition AnonStruct6954d79c85a0b6fd_incref (value : list Z) (amount : Z) : M unit :=
  _ ← list_incref (list_of_bytes (field AnonStruct6954d79c85a0b6fd "bytes" value)) amount; _ ← str_incref (str_of_bytes (field AnonStruct6954d79c85a0b6fd "from" value)) amount; mret tt.

(** [HostUdpRecvFromResult] *)
Definition HostUdpRecvFromResult_decref (value : list Z) : M unit :=
  match tag_byte HostUdpRecvFromResult value ≫= HostUdpRecvFromResultTag_of with
  | Some HostUdpRecvFromResultTag_Err => IOErr_decref (HostUdpRecvFromResult_payload_err value)
  | Some HostUdpRecvFromResultTag_Ok => AnonStruct6954d79c85a0b6fd_decref (HostUdpRecvFromResult_payload_ok value)
  | None => undefined
  end.
Definition HostUdpRecvFromResult_incref (value : list Z) (amount : Z) : M unit :=
  match tag_byte HostUdpRecvFromResult value ≫= HostUdpRecvFromResultTag_of with
  | Some HostUdpRecvFromResultTag_Err => IOErr_incref (HostUdpRecvFromResult_payload_err value) amount
  | Some HostUdpRecvFromResultTag_Ok => AnonStruct6954d79c85a0b6fd_incref (HostUdpRecvFromResult_payload_ok value) amount
  | None => undefined
  end.

Definition AnonStruct20e6ccaadf41c1a1_decref (value : list Z) : M unit :=
  _ ← list_decref (elem_of false (Int 1)) (list_of_bytes (field AnonStruct20e6ccaadf41c1a1 "bytes" value)); mret tt.
Definition AnonStruct20e6ccaadf41c1a1_incref (value : list Z) (amount : Z) : M unit :=
  _ ← list_incref (list_of_bytes (field AnonStruct20e6ccaadf41c1a1 "bytes" value)) amount; mret tt.

(** [HostUdpRecvResult] *)
Definition HostUdpRecvResult_decref (value : list Z) : M unit :=
  match tag_byte HostUdpRecvResult value ≫= HostUdpRecvResultTag_of with
  | Some HostUdpRecvResultTag_Err => IOErr_decref (HostUdpRecvResult_payload_err value)
  | Some HostUdpRecvResultTag_Ok => AnonStruct20e6ccaadf41c1a1_decref (HostUdpRecvResult_payload_ok value)
  | None => undefined
  end.
Definition HostUdpRecvResult_incref (value : list Z) (amount : Z) : M unit :=
  match tag_byte HostUdpRecvResult value ≫= HostUdpRecvResultTag_of with
  | Some HostUdpRecvResultTag_Err => IOErr_incref (HostUdpRecvResult_payload_err value) amount
  | Some HostUdpRecvResultTag_Ok => AnonStruct20e6ccaadf41c1a1_incref (HostUdpRecvResult_payload_ok value) amount
  | None => undefined
  end.

(** [HostSocketBufferSizeResult] *)
Definition HostSocketBufferSizeResult_decref (value : list Z) : M unit :=
  match tag_byte HostSocketBufferSizeResult value ≫= HostSocketBufferSizeResultTag_of with
  | Some HostSocketBufferSizeResultTag_Err => IOErr_decref (HostSocketBufferSizeResult_payload_err value)
  | Some HostSocketBufferSizeResultTag_Ok => mret tt
  | None => undefined
  end.
Definition HostSocketBufferSizeResult_incref (value : list Z) (amount : Z) : M unit :=
  match tag_byte HostSocketBufferSizeResult value ≫= HostSocketBufferSizeResultTag_of with
  | Some HostSocketBufferSizeResultTag_Err => IOErr_incref (HostSocketBufferSizeResult_payload_err value) amount
  | Some HostSocketBufferSizeResultTag_Ok => mret tt
  | None => undefined
  end.

Definition AnonStruct4a9a39232e571b2c_decref (value : list Z) : M unit :=
  mret tt.
Definition AnonStruct4a9a39232e571b2c_incref (value : list Z) (amount : Z) : M unit :=
  mret tt.

(** [HostUnixPeerCredentialsResult] *)
Definition HostUnixPeerCredentialsResult_decref (value : list Z) : M unit :=
  match tag_byte HostUnixPeerCredentialsResult value ≫= HostUnixPeerCredentialsResultTag_of with
  | Some HostUnixPeerCredentialsResultTag_Err => IOErr_decref (HostUnixPeerCredentialsResult_payload_err value)
  | Some HostUnixPeerCredentialsResultTag_Ok => AnonStruct4a9a39232e571b2c_decref (HostUnixPeerCredentialsResult_payload_ok value)
  | None => undefined
  end.
Definition HostUnixPeerCredentialsResult_incref (value : list Z) (amount : Z) : M unit :=
  match tag_byte HostUnixPeerCredentialsResult value ≫= HostUnixPeerCredentialsResultTag_of with
  | Some HostUnixPeerCredentialsResultTag_Err => IOErr_incref (HostUnixPeerCredentialsResult_payload_err value) amount
  | Some HostUnixPeerCredentialsResultTag_Ok => AnonStruct4a9a39232e571b2c_incref (HostUnixPeerCredentialsResult_payload_ok value) amount
  | None => undefined
  end.

(** [BoolOrF64OrI64OrStrOrU64] *)
Definition BoolOrF64OrI64OrStrOrU64_decref (value : list Z) : M unit :=
  match tag_byte BoolOrF64OrI64OrStrOrU64 value ≫= BoolOrF64OrI64OrStrOrU64Tag_of with
  | Some BoolOrF64OrI64OrStrOrU64Tag_Str => str_decref (BoolOrF64OrI64OrStrOrU64_payload_str value)
  | Some BoolOrF64OrI64OrStrOrU64Tag_Bool | Some BoolOrF64OrI64OrStrOrU64Tag_F64 | Some BoolOrF64OrI64OrStrOrU64Tag_I64 | Some BoolOrF64OrI64OrStrOrU64Tag_U64 => mret tt
  | None => undefined
  end.
Definition BoolOrF64OrI64OrStrOrU64_incref (value : list Z) (amount : Z) : M unit :=
  match tag_byte BoolOrF64OrI64OrStrOrU64 value ≫= BoolOrF64OrI64OrStrOrU64Tag_of with
  | Some BoolOrF64OrI64OrStrOrU64Tag_Str => str_incref (BoolOrF64OrI64OrStrOrU64_payload_str value) amount
  | Some BoolOrF64OrI64OrStrOrU64Tag_Bool | Some BoolOrF64OrI64OrStrOrU64Tag_F64 | Some BoolOrF64OrI64OrStrOrU64Tag_I64 | Some BoolOrF64OrI64OrStrOrU64Tag_U64 => mret tt
  | None => undefined
  end.

(** [HostDnsResolveResult] *)
Definition HostDnsResolveResult_decref (value : list Z) : M unit :=
  match tag_byte HostDnsResolveResult value ≫= HostDnsResolveResultTag_of with
  | Some HostDnsResolveResultTag_Err => IOErr_decref (HostDnsResolveResult_payload_err value)
  | Some HostDnsResolveResultTag_Ok => decref_list_of_str (HostDnsResolveResult_payload_ok value)
  | None => undefined
  end.
Definition HostDnsResolveResult_incref (value : list Z) (amount : Z) : M unit :=
  match tag_byte HostDnsResolveResult value ≫= HostDnsResolveResultTag_of with
  | Some HostDnsResolveResultTag_Err => IOErr_incref (HostDnsResolveResult_payload_err value) amount
  | Some HostDnsResolveResultTag_Ok => list_incref (HostDnsResolveResult_payload_ok value) amount
  | None => undefined
  end.

(** [FoundOrMissingOrNotUtf8] *)
Definition FoundOrMissingOrNotUtf8_decref (value : list Z) : M unit :=
  match tag_byte FoundOrMissingOrNotUtf8 value ≫= FoundOrMissingOrNotUtf8Tag_of with
  | Some FoundOrMissingOrNotUtf8Tag_Found => str_decref (FoundOrMissingOrNotUtf8_payload_found value)
  | Some FoundOrMissingOrNotUtf8Tag_Missing | Some FoundOrMissingOrNotUtf8Tag_NotUtf8 => mret tt
  | None => undefined
  end.
Definition FoundOrMissingOrNotUtf8_incref (value : list Z) (amount : Z) : M unit :=
  match tag_byte FoundOrMissingOrNotUtf8 value ≫= FoundOrMissingOrNotUtf8Tag_of with
  | Some FoundOrMissingOrNotUtf8Tag_Found => str_incref (FoundOrMissingOrNotUtf8_payload_found value) amount
  | Some FoundOrMissingOrNotUtf8Tag_Missing | Some FoundOrMissingOrNotUtf8Tag_NotUtf8 => mret tt
  | None => undefined
  end.

(** [LowOrderOrShared] *)
Definition LowOrderOrShared_decref (value : list Z) : M unit :=
  match tag_byte LowOrderOrShared value ≫= LowOrderOrSharedTag_of with
  | Some LowOrderOrSharedTag_Shared => list_decref (elem_of false (Int 1)) (LowOrderOrShared_payload_shared value)
  | Some LowOrderOrSharedTag_LowOrder => mret tt
  | None => undefined
  end.
Definition LowOrderOrShared_incref (value : list Z) (amount : Z) : M unit :=
  match tag_byte LowOrderOrShared value ≫= LowOrderOrSharedTag_of with
  | Some LowOrderOrSharedTag_Shared => list_incref (LowOrderOrShared_payload_shared value) amount
  | Some LowOrderOrSharedTag_LowOrder => mret tt
  | None => undefined
  end.

(** [InvalidOrOpened] *)
Definition InvalidOrOpened_decref (value : list Z) : M unit :=
  match tag_byte InvalidOrOpened value ≫= InvalidOrOpenedTag_of with
  | Some InvalidOrOpenedTag_Opened => list_decref (elem_of false (Int 1)) (InvalidOrOpened_payload_opened value)
  | Some InvalidOrOpenedTag_Invalid => mret tt
  | None => undefined
  end.
Definition InvalidOrOpened_incref (value : list Z) (amount : Z) : M unit :=
  match tag_byte InvalidOrOpened value ≫= InvalidOrOpenedTag_of with
  | Some InvalidOrOpenedTag_Opened => list_incref (InvalidOrOpened_payload_opened value) amount
  | Some InvalidOrOpenedTag_Invalid => mret tt
  | None => undefined
  end.

(** [BytesOrOutOfMemory] *)
Definition BytesOrOutOfMemory_decref (value : list Z) : M unit :=
  match tag_byte BytesOrOutOfMemory value ≫= BytesOrOutOfMemoryTag_of with
  | Some BytesOrOutOfMemoryTag_Bytes => list_decref (elem_of false (Int 1)) (BytesOrOutOfMemory_payload_bytes value)
  | Some BytesOrOutOfMemoryTag_OutOfMemory => mret tt
  | None => undefined
  end.
Definition BytesOrOutOfMemory_incref (value : list Z) (amount : Z) : M unit :=
  match tag_byte BytesOrOutOfMemory value ≫= BytesOrOutOfMemoryTag_of with
  | Some BytesOrOutOfMemoryTag_Bytes => list_incref (BytesOrOutOfMemory_payload_bytes value) amount
  | Some BytesOrOutOfMemoryTag_OutOfMemory => mret tt
  | None => undefined
  end.

Definition AnonStructDfa5943259877aa7_decref (value : list Z) : M unit :=
  _ ← decref_box_with (ptr_of_bytes (field AnonStructDfa5943259877aa7 "receiver" value)) 8 false None; _ ← decref_box_with (ptr_of_bytes (field AnonStructDfa5943259877aa7 "sender" value)) 8 false None; mret tt.
Definition AnonStructDfa5943259877aa7_incref (value : list Z) (amount : Z) : M unit :=
  _ ← incref_box (ptr_of_bytes (field AnonStructDfa5943259877aa7 "receiver" value)) amount; _ ← incref_box (ptr_of_bytes (field AnonStructDfa5943259877aa7 "sender" value)) amount; mret tt.

(** [HostChannelNewResult] *)
Definition HostChannelNewResult_decref (value : list Z) : M unit :=
  match tag_byte HostChannelNewResult value ≫= HostChannelNewResultTag_of with
  | Some HostChannelNewResultTag_Ok => AnonStructDfa5943259877aa7_decref (HostChannelNewResult_payload_ok value)
  | Some HostChannelNewResultTag_Err => mret tt
  | None => undefined
  end.
Definition HostChannelNewResult_incref (value : list Z) (amount : Z) : M unit :=
  match tag_byte HostChannelNewResult value ≫= HostChannelNewResultTag_of with
  | Some HostChannelNewResultTag_Ok => AnonStructDfa5943259877aa7_incref (HostChannelNewResult_payload_ok value) amount
  | Some HostChannelNewResultTag_Err => mret tt
  | None => undefined
  end.

Definition CancelledOrClosedOrTimedOut_decref (value : list Z) : M unit := mret tt.
Definition CancelledOrClosedOrTimedOut_incref (value : list Z) (amount : Z) : M unit := mret tt.

(** [HostChannelReceiveResult] *)
Definition HostChannelReceiveResult_decref (value : list Z) : M unit :=
  match tag_byte HostChannelReceiveResult value ≫= HostChannelReceiveResultTag_of with
  | Some HostChannelReceiveResultTag_Err => CancelledOrClosedOrTimedOut_decref (HostChannelReceiveResult_payload_err value)
  | Some HostChannelReceiveResultTag_Ok => decref_erased_callable call (HostChannelReceiveResult_payload_ok value)
  | None => undefined
  end.
Definition HostChannelReceiveResult_incref (value : list Z) (amount : Z) : M unit :=
  match tag_byte HostChannelReceiveResult value ≫= HostChannelReceiveResultTag_of with
  | Some HostChannelReceiveResultTag_Err => CancelledOrClosedOrTimedOut_incref (HostChannelReceiveResult_payload_err value) amount
  | Some HostChannelReceiveResultTag_Ok => incref_erased_callable (HostChannelReceiveResult_payload_ok value) amount
  | None => undefined
  end.

(** [CancelledOrReadyOrSourceTimedOutOrTimedOut] *)
Definition CancelledOrReadyOrSourceTimedOutOrTimedOut_decref (value : list Z) : M unit :=
  match tag_byte CancelledOrReadyOrSourceTimedOutOrTimedOut value ≫= CancelledOrReadyOrSourceTimedOutOrTimedOutTag_of with
  | Some CancelledOrReadyOrSourceTimedOutOrTimedOutTag_Cancelled | Some CancelledOrReadyOrSourceTimedOutOrTimedOutTag_Ready | Some CancelledOrReadyOrSourceTimedOutOrTimedOutTag_SourceTimedOut | Some CancelledOrReadyOrSourceTimedOutOrTimedOutTag_TimedOut => mret tt
  | None => undefined
  end.
Definition CancelledOrReadyOrSourceTimedOutOrTimedOut_incref (value : list Z) (amount : Z) : M unit :=
  match tag_byte CancelledOrReadyOrSourceTimedOutOrTimedOut value ≫= CancelledOrReadyOrSourceTimedOutOrTimedOutTag_of with
  | Some CancelledOrReadyOrSourceTimedOutOrTimedOutTag_Cancelled | Some CancelledOrReadyOrSourceTimedOutOrTimedOutTag_Ready | Some CancelledOrReadyOrSourceTimedOutOrTimedOutTag_SourceTimedOut | Some CancelledOrReadyOrSourceTimedOutOrTimedOutTag_TimedOut => mret tt
  | None => undefined
  end.

(** [JoinableOrReadableOrReceivableOrSendableOrSignalCaughtOrStdinLineOrWritable] *)
Definition JoinableOrReadableOrReceivableOrSendableOrSignalCaughtOrStdinLineOrWritable_decref (value : list Z) : M unit :=
  match tag_byte JoinableOrReadableOrReceivableOrSendableOrSignalCaughtOrStdinLineOrWritable value ≫= JoinableOrReadableOrReceivableOrSendableOrSignalCaughtOrStdinLineOrWritableTag_of with
  | Some JoinableOrReadableOrReceivableOrSendableOrSignalCaughtOrStdinLineOrWritableTag_Joinable => decref_box_with (JoinableOrReadableOrReceivableOrSendableOrSignalCaughtOrStdinLineOrWritable_payload_joinable value) 8 false None
  | Some JoinableOrReadableOrReceivableOrSendableOrSignalCaughtOrStdinLineOrWritableTag_Readable => decref_box_with (JoinableOrReadableOrReceivableOrSendableOrSignalCaughtOrStdinLineOrWritable_payload_readable value) 8 false None
  | Some JoinableOrReadableOrReceivableOrSendableOrSignalCaughtOrStdinLineOrWritableTag_Receivable => decref_box_with (JoinableOrReadableOrReceivableOrSendableOrSignalCaughtOrStdinLineOrWritable_payload_receivable value) 8 false None
  | Some JoinableOrReadableOrReceivableOrSendableOrSignalCaughtOrStdinLineOrWritableTag_Sendable => decref_box_with (JoinableOrReadableOrReceivableOrSendableOrSignalCaughtOrStdinLineOrWritable_payload_sendable value) 8 false None
  | Some JoinableOrReadableOrReceivableOrSendableOrSignalCaughtOrStdinLineOrWritableTag_Writable => decref_box_with (JoinableOrReadableOrReceivableOrSendableOrSignalCaughtOrStdinLineOrWritable_payload_writable value) 8 false None
  | Some JoinableOrReadableOrReceivableOrSendableOrSignalCaughtOrStdinLineOrWritableTag_SignalCaught | Some JoinableOrReadableOrReceivableOrSendableOrSignalCaughtOrStdinLineOrWritableTag_StdinLine => mret tt
  | None => undefined
  end.
Definition JoinableOrReadableOrReceivableOrSendableOrSignalCaughtOrStdinLineOrWritable_incref (value : list Z) (amount : Z) : M unit :=
  match tag_byte JoinableOrReadableOrReceivableOrSendableOrSignalCaughtOrStdinLineOrWritable value ≫= JoinableOrReadableOrReceivableOrSendableOrSignalCaughtOrStdinLineOrWritableTag_of with
  | Some JoinableOrReadableOrReceivableOrSendableOrSignalCaughtOrStdinLineOrWritableTag_Joinable => incref_box (JoinableOrReadableOrReceivableOrSendableOrSignalCaughtOrStdinLineOrWritable_payload_joinable value) amount
  | Some JoinableOrReadableOrReceivableOrSendableOrSignalCaughtOrStdinLineOrWritableTag_Readable => incref_box (JoinableOrReadableOrReceivableOrSendableOrSignalCaughtOrStdinLineOrWritable_payload_readable value) amount
  | Some JoinableOrReadableOrReceivableOrSendableOrSignalCaughtOrStdinLineOrWritableTag_Receivable => incref_box (JoinableOrReadableOrReceivableOrSendableOrSignalCaughtOrStdinLineOrWritable_payload_receivable value) amount
  | Some JoinableOrReadableOrReceivableOrSendableOrSignalCaughtOrStdinLineOrWritableTag_Sendable => incref_box (JoinableOrReadableOrReceivableOrSendableOrSignalCaughtOrStdinLineOrWritable_payload_sendable value) amount
  | Some JoinableOrReadableOrReceivableOrSendableOrSignalCaughtOrStdinLineOrWritableTag_Writable => incref_box (JoinableOrReadableOrReceivableOrSendableOrSignalCaughtOrStdinLineOrWritable_payload_writable value) amount
  | Some JoinableOrReadableOrReceivableOrSendableOrSignalCaughtOrStdinLineOrWritableTag_SignalCaught | Some JoinableOrReadableOrReceivableOrSendableOrSignalCaughtOrStdinLineOrWritableTag_StdinLine => mret tt
  | None => undefined
  end.

(** [HostTaskSpawnResult] *)
Definition HostTaskSpawnResult_decref (value : list Z) : M unit :=
  match tag_byte HostTaskSpawnResult value ≫= HostTaskSpawnResultTag_of with
  | Some HostTaskSpawnResultTag_Ok => decref_box_with (HostTaskSpawnResult_payload_ok value) 8 false None
  | Some HostTaskSpawnResultTag_Err => mret tt
  | None => undefined
  end.
Definition HostTaskSpawnResult_incref (value : list Z) (amount : Z) : M unit :=
  match tag_byte HostTaskSpawnResult value ≫= HostTaskSpawnResultTag_of with
  | Some HostTaskSpawnResultTag_Ok => incref_box (HostTaskSpawnResult_payload_ok value) amount
  | Some HostTaskSpawnResultTag_Err => mret tt
  | None => undefined
  end.

(** [HostTaskJoinResult] *)
Definition HostTaskJoinResult_decref (value : list Z) : M unit :=
  match tag_byte HostTaskJoinResult value ≫= HostTaskJoinResultTag_of with
  | Some HostTaskJoinResultTag_Ok => decref_erased_callable call (HostTaskJoinResult_payload_ok value)
  | Some HostTaskJoinResultTag_Err => mret tt
  | None => undefined
  end.
Definition HostTaskJoinResult_incref (value : list Z) (amount : Z) : M unit :=
  match tag_byte HostTaskJoinResult value ≫= HostTaskJoinResultTag_of with
  | Some HostTaskJoinResultTag_Ok => incref_erased_callable (HostTaskJoinResult_payload_ok value) amount
  | Some HostTaskJoinResultTag_Err => mret tt
  | None => undefined
  end.

(** [HostGroupNewResult] *)
Definition HostGroupNewResult_decref (value : list Z) : M unit :=
  match tag_byte HostGroupNewResult value ≫= HostGroupNewResultTag_of with
  | Some HostGroupNewResultTag_Ok => decref_box_with (HostGroupNewResult_payload_ok value) 8 false None
  | Some HostGroupNewResultTag_Err => mret tt
  | None => undefined
  end.
Definition HostGroupNewResult_incref (value : list Z) (amount : Z) : M unit :=
  match tag_byte HostGroupNewResult value ≫= HostGroupNewResultTag_of with
  | Some HostGroupNewResultTag_Ok => incref_box (HostGroupNewResult_payload_ok value) amount
  | Some HostGroupNewResultTag_Err => mret tt
  | None => undefined
  end.

Definition CancelledOrClosedOrFullOrSent_decref (value : list Z) : M unit := mret tt.
Definition CancelledOrClosedOrFullOrSent_incref (value : list Z) (amount : Z) : M unit := mret tt.

Definition AnonStructF1e164f99c294fde_decref (value : list Z) : M unit :=
  _ ← str_decref (str_of_bytes (field AnonStructF1e164f99c294fde "cert_file" value)); _ ← str_decref (str_of_bytes (field AnonStructF1e164f99c294fde "key_file" value)); _ ← str_decref (str_of_bytes (field AnonStructF1e164f99c294fde "name" value)); mret tt.
Definition AnonStructF1e164f99c294fde_incref (value : list Z) (amount : Z) : M unit :=
  _ ← str_incref (str_of_bytes (field AnonStructF1e164f99c294fde "cert_file" value)) amount; _ ← str_incref (str_of_bytes (field AnonStructF1e164f99c294fde "key_file" value)) amount; _ ← str_incref (str_of_bytes (field AnonStructF1e164f99c294fde "name" value)) amount; mret tt.

Definition AnonStruct3db9d1cc6db3a401_decref (value : list Z) : M unit :=
  _ ← CancelledOrDoneOrMessageTimedOutOrReadOrWrite_decref (field AnonStruct3db9d1cc6db3a401 "outcome" value); mret tt.
Definition AnonStruct3db9d1cc6db3a401_incref (value : list Z) (amount : Z) : M unit :=
  _ ← CancelledOrDoneOrMessageTimedOutOrReadOrWrite_incref (field AnonStruct3db9d1cc6db3a401 "outcome" value) amount; mret tt.

Definition AnonStruct91380971f8261c26_decref (value : list Z) : M unit :=
  _ ← CancelledOrDoneOrReadAOrReadBOrTaskLimitReachedOrWriteAOrWriteB_decref (field AnonStruct91380971f8261c26 "outcome" value); mret tt.
Definition AnonStruct91380971f8261c26_incref (value : list Z) (amount : Z) : M unit :=
  _ ← CancelledOrDoneOrReadAOrReadBOrTaskLimitReachedOrWriteAOrWriteB_incref (field AnonStruct91380971f8261c26 "outcome" value) amount; mret tt.

Definition AnonStructBe833d82c728025b_decref (value : list Z) : M unit :=
  _ ← BoolOrF64OrI64OrStrOrU64_decref (field AnonStructBe833d82c728025b "value" value); _ ← str_decref (str_of_bytes (field AnonStructBe833d82c728025b "key" value)); mret tt.
Definition AnonStructBe833d82c728025b_incref (value : list Z) (amount : Z) : M unit :=
  _ ← BoolOrF64OrI64OrStrOrU64_incref (field AnonStructBe833d82c728025b "value" value) amount; _ ← str_incref (str_of_bytes (field AnonStructBe833d82c728025b "key" value)) amount; mret tt.

(** The lists of values: each element by its own [decref]. *)
Definition decref_list_of_anon_struct_f1e164f99c294fde (l : RocListWith) : M unit := list_release_with (elem_of true AnonStructF1e164f99c294fde) AnonStructF1e164f99c294fde_decref l.
Definition decref_list_of_anon_struct_be833d82c728025b (l : RocListWith) : M unit := list_release_with (elem_of true AnonStructBe833d82c728025b) AnonStructBe833d82c728025b_decref l.
Definition decref_list_of_joinable_or_readable_or_receivable_or_sendable_or_signal_caught_or_stdin_line_or_writable (l : RocListWith) : M unit := list_release_with (elem_of true JoinableOrReadableOrReceivableOrSendableOrSignalCaughtOrStdinLineOrWritable) JoinableOrReadableOrReceivableOrSendableOrSignalCaughtOrStdinLineOrWritable_decref l.

(** ** All of them *)

Record Generated := mkGenerated { g_ty : Ty; g_asserted : Layouts; g_decref : list Z -> M unit; g_incref : list Z -> Z -> M unit }.

Definition generated : list Generated := [
  mkGenerated HostStderrLineResult HostStderrLineResult_asserted HostStderrLineResult_decref HostStderrLineResult_incref;
  mkGenerated HostStdinLineResult HostStdinLineResult_asserted HostStdinLineResult_decref HostStdinLineResult_incref;
  mkGenerated HostIOErr HostIOErr_asserted HostIOErr_decref HostIOErr_incref;
  mkGenerated HostSignalCatchResult HostSignalCatchResult_asserted HostSignalCatchResult_decref HostSignalCatchResult_incref;
  mkGenerated GotOrNotReady GotOrNotReady_asserted GotOrNotReady_decref GotOrNotReady_incref;
  mkGenerated CancelledOrGot CancelledOrGot_asserted CancelledOrGot_decref CancelledOrGot_incref;
  mkGenerated EndOrFailedOrLineOrNotReadyOrTooLong EndOrFailedOrLineOrNotReadyOrTooLong_asserted EndOrFailedOrLineOrNotReadyOrTooLong_decref EndOrFailedOrLineOrNotReadyOrTooLong_incref;
  mkGenerated EndOrFailedOrLineOrTooLong EndOrFailedOrLineOrTooLong_asserted EndOrFailedOrLineOrTooLong_decref EndOrFailedOrLineOrTooLong_incref;
  mkGenerated HostStdoutLineResult HostStdoutLineResult_asserted HostStdoutLineResult_decref HostStdoutLineResult_incref;
  mkGenerated IOErr IOErr_asserted IOErr_decref IOErr_incref;
  mkGenerated HostSocketAcceptResult HostSocketAcceptResult_asserted HostSocketAcceptResult_decref HostSocketAcceptResult_incref;
  mkGenerated HostSocketLocalAddrResult HostSocketLocalAddrResult_asserted HostSocketLocalAddrResult_decref HostSocketLocalAddrResult_incref;
  mkGenerated HostTlsPeerCertificatesResult HostTlsPeerCertificatesResult_asserted HostTlsPeerCertificatesResult_decref HostTlsPeerCertificatesResult_incref;
  mkGenerated HostFileExistsResult HostFileExistsResult_asserted HostFileExistsResult_decref HostFileExistsResult_incref;
  mkGenerated HostFileReadResult HostFileReadResult_asserted HostFileReadResult_decref HostFileReadResult_incref;
  mkGenerated DataOrFailedOrNotReady DataOrFailedOrNotReady_asserted DataOrFailedOrNotReady_decref DataOrFailedOrNotReady_incref;
  mkGenerated AcceptedOrFailedOrNotReady AcceptedOrFailedOrNotReady_asserted AcceptedOrFailedOrNotReady_decref AcceptedOrFailedOrNotReady_incref;
  mkGenerated CancelledOrDoneOrMessageTimedOutOrReadOrWrite CancelledOrDoneOrMessageTimedOutOrReadOrWrite_asserted CancelledOrDoneOrMessageTimedOutOrReadOrWrite_decref CancelledOrDoneOrMessageTimedOutOrReadOrWrite_incref;
  mkGenerated ExactlyOrUntilEnd ExactlyOrUntilEnd_asserted ExactlyOrUntilEnd_decref ExactlyOrUntilEnd_incref;
  mkGenerated CancelledOrDoneOrReadAOrReadBOrTaskLimitReachedOrWriteAOrWriteB CancelledOrDoneOrReadAOrReadBOrTaskLimitReachedOrWriteAOrWriteB_asserted CancelledOrDoneOrReadAOrReadBOrTaskLimitReachedOrWriteAOrWriteB_decref CancelledOrDoneOrReadAOrReadBOrTaskLimitReachedOrWriteAOrWriteB_incref;
  mkGenerated AnonStruct6954d79c85a0b6fd AnonStruct6954d79c85a0b6fd_asserted AnonStruct6954d79c85a0b6fd_decref AnonStruct6954d79c85a0b6fd_incref;
  mkGenerated HostUdpRecvFromResult HostUdpRecvFromResult_asserted HostUdpRecvFromResult_decref HostUdpRecvFromResult_incref;
  mkGenerated AnonStruct20e6ccaadf41c1a1 AnonStruct20e6ccaadf41c1a1_asserted AnonStruct20e6ccaadf41c1a1_decref AnonStruct20e6ccaadf41c1a1_incref;
  mkGenerated HostUdpRecvResult HostUdpRecvResult_asserted HostUdpRecvResult_decref HostUdpRecvResult_incref;
  mkGenerated HostSocketBufferSizeResult HostSocketBufferSizeResult_asserted HostSocketBufferSizeResult_decref HostSocketBufferSizeResult_incref;
  mkGenerated AnonStruct4a9a39232e571b2c AnonStruct4a9a39232e571b2c_asserted AnonStruct4a9a39232e571b2c_decref AnonStruct4a9a39232e571b2c_incref;
  mkGenerated HostUnixPeerCredentialsResult HostUnixPeerCredentialsResult_asserted HostUnixPeerCredentialsResult_decref HostUnixPeerCredentialsResult_incref;
  mkGenerated BoolOrF64OrI64OrStrOrU64 BoolOrF64OrI64OrStrOrU64_asserted BoolOrF64OrI64OrStrOrU64_decref BoolOrF64OrI64OrStrOrU64_incref;
  mkGenerated HostDnsResolveResult HostDnsResolveResult_asserted HostDnsResolveResult_decref HostDnsResolveResult_incref;
  mkGenerated FoundOrMissingOrNotUtf8 FoundOrMissingOrNotUtf8_asserted FoundOrMissingOrNotUtf8_decref FoundOrMissingOrNotUtf8_incref;
  mkGenerated LowOrderOrShared LowOrderOrShared_asserted LowOrderOrShared_decref LowOrderOrShared_incref;
  mkGenerated InvalidOrOpened InvalidOrOpened_asserted InvalidOrOpened_decref InvalidOrOpened_incref;
  mkGenerated BytesOrOutOfMemory BytesOrOutOfMemory_asserted BytesOrOutOfMemory_decref BytesOrOutOfMemory_incref;
  mkGenerated AnonStructDfa5943259877aa7 AnonStructDfa5943259877aa7_asserted AnonStructDfa5943259877aa7_decref AnonStructDfa5943259877aa7_incref;
  mkGenerated HostChannelNewResult HostChannelNewResult_asserted HostChannelNewResult_decref HostChannelNewResult_incref;
  mkGenerated CancelledOrClosedOrTimedOut CancelledOrClosedOrTimedOut_asserted CancelledOrClosedOrTimedOut_decref CancelledOrClosedOrTimedOut_incref;
  mkGenerated HostChannelReceiveResult HostChannelReceiveResult_asserted HostChannelReceiveResult_decref HostChannelReceiveResult_incref;
  mkGenerated CancelledOrReadyOrSourceTimedOutOrTimedOut CancelledOrReadyOrSourceTimedOutOrTimedOut_asserted CancelledOrReadyOrSourceTimedOutOrTimedOut_decref CancelledOrReadyOrSourceTimedOutOrTimedOut_incref;
  mkGenerated JoinableOrReadableOrReceivableOrSendableOrSignalCaughtOrStdinLineOrWritable JoinableOrReadableOrReceivableOrSendableOrSignalCaughtOrStdinLineOrWritable_asserted JoinableOrReadableOrReceivableOrSendableOrSignalCaughtOrStdinLineOrWritable_decref JoinableOrReadableOrReceivableOrSendableOrSignalCaughtOrStdinLineOrWritable_incref;
  mkGenerated HostTaskSpawnResult HostTaskSpawnResult_asserted HostTaskSpawnResult_decref HostTaskSpawnResult_incref;
  mkGenerated HostTaskJoinResult HostTaskJoinResult_asserted HostTaskJoinResult_decref HostTaskJoinResult_incref;
  mkGenerated HostGroupNewResult HostGroupNewResult_asserted HostGroupNewResult_decref HostGroupNewResult_incref;
  mkGenerated CancelledOrClosedOrFullOrSent CancelledOrClosedOrFullOrSent_asserted CancelledOrClosedOrFullOrSent_decref CancelledOrClosedOrFullOrSent_incref;
  mkGenerated AnonStructF1e164f99c294fde AnonStructF1e164f99c294fde_asserted AnonStructF1e164f99c294fde_decref AnonStructF1e164f99c294fde_incref;
  mkGenerated AnonStruct3db9d1cc6db3a401 AnonStruct3db9d1cc6db3a401_asserted AnonStruct3db9d1cc6db3a401_decref AnonStruct3db9d1cc6db3a401_incref;
  mkGenerated AnonStruct91380971f8261c26 AnonStruct91380971f8261c26_asserted AnonStruct91380971f8261c26_decref AnonStruct91380971f8261c26_incref;
  mkGenerated AnonStructBe833d82c728025b AnonStructBe833d82c728025b_asserted AnonStructBe833d82c728025b_decref AnonStructBe833d82c728025b_incref
].

(** The records some functions return, which are released by their fields. *)
Definition returned : list (Ty * Layouts) := [(HostStreamCopyBothRetRecord, HostStreamCopyBothRetRecord_asserted); (HostStreamCopyToRetRecord, HostStreamCopyToRetRecord_asserted)].

(** The functions for lists of counted elements, by element. *)
Definition list_releases : list (Ty * (RocListWith -> M unit)) := [(Str, decref_list_of_str); (AnonStructF1e164f99c294fde, decref_list_of_anon_struct_f1e164f99c294fde); (ListOf false (Int 1), decref_list_of_list_of_type41); (AnonStructBe833d82c728025b, decref_list_of_anon_struct_be833d82c728025b); (JoinableOrReadableOrReceivableOrSendableOrSignalCaughtOrStdinLineOrWritable, decref_list_of_joinable_or_readable_or_receivable_or_sendable_or_signal_caught_or_stdin_line_or_writable)].

End Generated.
End AbiTypes.
