(* ===== verification/AbiRelease.v ===== *)
(** * What the declarations at the boundary with Roc guarantee
    ([src/roc_platform_abi.rs])

    That the layouts agree on both widths and with what is asserted, that a
    value survives being written and read back, and that every generated
    [decref] gives up what a value owns, each reference once. *)
From S2P Require Import Prelude RocMem RocValues RocRefs AbiLayout AbiTypes.
From stdpp Require Import strings.
Local Open Scope Z_scope.

Module AbiRelease.
Import RocMem RocValues RocRefs AbiLayout AbiTypes.

(** ** The generated functions follow the types *)

Section Agree.
Variable call : Z -> Z -> M unit.

Definition agrees (t : Ty) (d : list Z -> M unit) (i : list Z -> Z -> M unit) : Prop :=
  forall v m, d v m = release_ty call t v m /\ forall n, i v n m = retain_ty t v n m.

(** The arm each tag byte selects. *)
Ltac tag_arms := repeat match goal with |- context [tag_byte ?t ?v] => destruct (tag_byte t v) as [[|?p|?p]|]; [|do 5 try (destruct p as [p|p|])|..] end.

(** A union, payload by payload; a struct, field by field. *)
Ltac unfold_head d := match d with ?h _ => unfold h | ?h => unfold h end.
Ltac settle_fields := lazy beta iota zeta delta -[
    release_ty retain_ty payload slice str_decref str_incref list_decref list_incref list_release_with decref_box_with incref_box decref_erased_callable incref_erased_callable decref_list_of_str
    IOErr_decref IOErr_incref
    HostIOErr_decref HostIOErr_incref
    BoolOrF64OrI64OrStrOrU64_decref BoolOrF64OrI64OrStrOrU64_incref
    CancelledOrDoneOrMessageTimedOutOrReadOrWrite_decref CancelledOrDoneOrMessageTimedOutOrReadOrWrite_incref
    CancelledOrDoneOrReadAOrReadBOrTaskLimitReachedOrWriteAOrWriteB_decref CancelledOrDoneOrReadAOrReadBOrTaskLimitReachedOrWriteAOrWriteB_incref].
Ltac settle := lazy beta iota zeta delta -[
    release_ty retain_ty payload slice str_decref str_incref list_decref list_incref list_release_with decref_box_with incref_box decref_erased_callable incref_erased_callable decref_list_of_str
    IOErr_decref IOErr_incref
    HostIOErr_decref HostIOErr_incref
    BoolOrF64OrI64OrStrOrU64_decref BoolOrF64OrI64OrStrOrU64_incref
    CancelledOrDoneOrMessageTimedOutOrReadOrWrite_decref CancelledOrDoneOrMessageTimedOutOrReadOrWrite_incref
    CancelledOrDoneOrReadAOrReadBOrTaskLimitReachedOrWriteAOrWriteB_decref CancelledOrDoneOrReadAOrReadBOrTaskLimitReachedOrWriteAOrWriteB_incref
    IOErr HostIOErr BoolOrF64OrI64OrStrOrU64 CancelledOrDoneOrMessageTimedOutOrReadOrWrite CancelledOrDoneOrReadAOrReadBOrTaskLimitReachedOrWriteAOrWriteB].
Ltac by_lemma H :=
  match type of H with agrees ?t ?d ?i => match goal with |- d ?v ?m = _ => exact (proj1 (H v m)) | |- i ?v ?n ?m = _ => exact (proj2 (H v m) n) end end.
Ltac by_arms :=
  match goal with |- agrees ?t ?d ?i =>
    intros ? ?; split; [unfold_head d; unfold t at 2|intros ?; unfold i; unfold t at 2]; cbn [release_ty retain_ty]; fold t; tag_arms; settle
  end.

Lemma IOErr_agrees : agrees IOErr IOErr_decref IOErr_incref.
Proof. by_arms; reflexivity. Qed.

Lemma copy_outcome_agrees : agrees CancelledOrDoneOrMessageTimedOutOrReadOrWrite
  CancelledOrDoneOrMessageTimedOutOrReadOrWrite_decref CancelledOrDoneOrMessageTimedOutOrReadOrWrite_incref.
Proof. by_arms; first [by_lemma IOErr_agrees | reflexivity]. Qed.

Lemma copy_both_outcome_agrees : agrees CancelledOrDoneOrReadAOrReadBOrTaskLimitReachedOrWriteAOrWriteB
  CancelledOrDoneOrReadAOrReadBOrTaskLimitReachedOrWriteAOrWriteB_decref CancelledOrDoneOrReadAOrReadBOrTaskLimitReachedOrWriteAOrWriteB_incref.
Proof. by_arms; first [by_lemma IOErr_agrees | reflexivity]. Qed.

Lemma HostIOErr_agrees : agrees HostIOErr HostIOErr_decref HostIOErr_incref.
Proof. by_arms; reflexivity. Qed.

Lemma log_value_agrees : agrees BoolOrF64OrI64OrStrOrU64 BoolOrF64OrI64OrStrOrU64_decref BoolOrF64OrI64OrStrOrU64_incref.
Proof. by_arms; reflexivity. Qed.

Ltac nested := first [by_lemma IOErr_agrees | by_lemma HostIOErr_agrees | by_lemma copy_outcome_agrees | by_lemma copy_both_outcome_agrees | by_lemma log_value_agrees].
Ltac by_fields :=
  match goal with |- agrees ?t ?d ?i => let t' := eval unfold t in t in
    change (agrees t' d i); intros ? ?; split; [unfold_head d|intros ?; unfold i]; cbn [release_ty retain_ty]; settle_fields
  end;
  match goal with
  | |- context [CancelledOrDoneOrMessageTimedOutOrReadOrWrite_decref ?v ?m] => rewrite (proj1 (copy_outcome_agrees v m))
  | |- context [CancelledOrDoneOrMessageTimedOutOrReadOrWrite_incref ?v ?n ?m] => rewrite (proj2 (copy_outcome_agrees v m) n)
  | |- context [CancelledOrDoneOrReadAOrReadBOrTaskLimitReachedOrWriteAOrWriteB_decref ?v ?m] => rewrite (proj1 (copy_both_outcome_agrees v m))
  | |- context [CancelledOrDoneOrReadAOrReadBOrTaskLimitReachedOrWriteAOrWriteB_incref ?v ?n ?m] => rewrite (proj2 (copy_both_outcome_agrees v m) n)
  | |- context [BoolOrF64OrI64OrStrOrU64_decref ?v ?m] => rewrite (proj1 (log_value_agrees v m))
  | |- context [BoolOrF64OrI64OrStrOrU64_incref ?v ?n ?m] => rewrite (proj2 (log_value_agrees v m) n)
  | _ => idtac
  end; reflexivity.

Lemma all_agree : Forall (fun g => agrees (g_ty g) (g_decref g) (g_incref g)) (generated call).
Proof.
  unfold generated. repeat apply Forall_cons_2; [..|apply Forall_nil_2]; cbn [g_ty g_decref g_incref].
  all: match goal with |- agrees ?t _ _ => let t' := eval unfold t in t in match t' with Union _ _ _ => by_arms; first [nested | reflexivity] | _ => by_fields end end.
Qed.

(** The functions for lists too. *)
Lemma release_all_ext r1 r2 items m : (forall x m, r1 x m = r2 x m) -> release_all r1 items m = release_all r2 items m.
Proof.
  intros H. revert m. induction items as [|x items IH]; intros m; cbn [release_all]; [done|]. unfold mbind, M_bind. rewrite H. destruct (r2 x m); [done..|apply IH].
Qed.

Lemma list_release_ext T r1 r2 l m : (forall x m, r1 x m = r2 x m) -> list_release_with T r1 l m = list_release_with T r2 l m.
Proof.
  intros H. unfold list_release_with. destruct (elements l =? 0); [done|]. destruct (allocation_ptr l =? 0); [done|].
  unfold decref_at, mbind, M_bind. destruct (load_word _ m); [done..|]. destruct (_ =? 0); [done|]. destruct (store_word _ _ _); [done..|].
  destruct (_ =? 1); [|done]. destruct (refcounted T); [|done]. destruct (allocation_items _ _ _); [done..|]. by rewrite (release_all_ext _ _ _ _ H).
Qed.

Definition list_agrees (x : Ty * (RocListWith -> M unit)) : Prop :=
  forall v m, x.2 (list_of_bytes v) m = release_ty call (ListOf true x.1) v m.

Lemma lists_agree : Forall list_agrees list_releases.
Proof.
  pose proof all_agree as H. unfold generated in H. rewrite !Forall_cons in H. cbn [g_ty g_decref g_incref] in H.
  repeat apply Forall_cons_2; [..|apply Forall_nil_2]; intros v m; cbn [fst snd release_ty]; apply list_release_ext; try reflexivity; intros x m';
    match goal with |- ?d _ _ = _ => match type of H with context [agrees ?t d ?i] => assert (agrees t d i) as Ha by tauto; apply (Ha x m') end end.
Qed.

End Agree.
(** ** What a value owns *)

(** The reference a string, list, box or function value is: its data pointer,
    and the header and alignment its release takes it to have. *)
Definition handle (t : Ty) (v : list Z) : option (Z * Z * Z) :=
  match t with
  | Str => parts (VStr (str_of_bytes v))
  | ListOf r e => parts (VList (AbiLayout.elem_of r e) (list_of_bytes v))
  | Box => parts (VBox (ptr_of_bytes v) 0 8 false)
  | Callable => parts (VBox (ptr_of_bytes v) 0 CALLABLE_ALIGNMENT false)
  | _ => None
  end.

Definition plain (t : Ty) : bool := match t with Unit | Bool | Int _ | Enum _ => true | _ => false end.
Definition reference (t : Ty) : bool := match t with Str | ListOf _ _ | Box | Callable => true | _ => false end.

Section Owned.
(** The bytes of the blocks, which releasing does not change. *)
Variable f : Z -> Z.

(** Nothing more to give up when the last reference goes: a list of plain
    elements, or a function with no callback. *)
Definition shallow (t : Ty) (d : Z) : bool :=
  match t with Str | Box => true | ListOf r _ => negb r | Callable => of_le (read (d + WORD) WORD f) =? 0 | _ => false end.

(** How many elements the allocation of a list has. *)
Definition item_count (l : RocListWith) (d : Z) : Z := if is_seamless_slice l then of_le (read (d - 2 * WORD) WORD f) else l_length l.
Definition items_at (e : Ty) (n d : Z) : list (list Z) := chunk (Z.to_nat (size W64 e)) (Z.to_nat n) (read d (n * size W64 e) f).

(** Giving up a value of a type takes the blocks from one state to another:
    of a shared block one reference; of the last reference the block, with
    what its elements own. *)
Inductive gives_up : Ty -> list Z -> Blocks -> Blocks -> Prop :=
  | gu_plain t v g : plain t = true -> gives_up t v g g
  | gu_none t v g : reference t = true -> handle t v = None -> gives_up t v g g
  | gu_shared t v g d b : handle t v = Some (d, header b, RocRefs.align b) -> g !! d = Some b -> 1 < count b -> gives_up t v g (release d g)
  | gu_last t v g d b : handle t v = Some (d, header b, RocRefs.align b) -> g !! d = Some b -> count b = 1 -> shallow t d = true ->
      (t = Callable -> 2 * WORD <= RocRefs.size b) -> gives_up t v g (delete d g)
  | gu_last_list e v g g' d b n : handle (ListOf true e) v = Some (d, header b, RocRefs.align b) -> g !! d = Some b -> count b = 1 ->
      n = item_count (list_of_bytes v) d -> 0 <= n -> 0 <= size W64 e -> n * size W64 e <= RocRefs.size b ->
      gives_items e (items_at e n d) (delete d g) g' -> gives_up (ListOf true e) v g g'
  | gu_struct fs v g g' : gives_fields fs (field_offsets W64 fs) v g g' -> gives_up (Struct fs) v g g'
  | gu_union vs b a v tag x g g' : tag_byte (Union vs b a) v = Some (Z.of_nat tag) -> vs !! tag = Some x ->
      gives_up x.2 (payload x.2 v) g g' -> gives_up (Union vs b a) v g g'
with gives_fields : list (string * Ty) -> list Z -> list Z -> Blocks -> Blocks -> Prop :=
  | gf_nil v g : gives_fields [] [] v g g
  | gf_cons x fs off offs v g g1 g2 : gives_up x.2 (slice off (size W64 x.2) v) g g1 -> gives_fields fs offs v g1 g2 ->
      gives_fields (x :: fs) (off :: offs) v g g2
with gives_items : Ty -> list (list Z) -> Blocks -> Blocks -> Prop :=
  | gi_nil e g : gives_items e [] g g
  | gi_cons e x items g g1 g2 : gives_up e x g g1 -> gives_items e items g1 g2 -> gives_items e (x :: items) g g2.

Scheme gives_up_mind := Minimality for gives_up Sort Prop
  with gives_fields_mind := Minimality for gives_fields Sort Prop
  with gives_items_mind := Minimality for gives_items Sort Prop.
Combined Scheme gives_mind from gives_up_mind, gives_fields_mind, gives_items_mind.

(** The memory has the bytes [f] in its blocks. *)
Definition filled (m : Mem) (g : Blocks) : Prop := forall d b x, g !! d = Some b -> uncounted d b x -> contents m x = f x.

Lemma filled_kept m m' g g' : filled m g -> data_kept g m m' ->
  (forall d b', g' !! d = Some b' -> exists b, g !! d = Some b /\ header b = header b' /\ RocRefs.size b = RocRefs.size b') -> filled m' g'.
Proof.
  intros Hf Hk Hs d b' x Hd Hx. destruct (Hs d b' Hd) as (b & Hb & Eh & Es). assert (uncounted d b x) as Hx' by (unfold uncounted in *; by rewrite Eh, Es).
  by rewrite (Hk d b x Hb Hx'), (Hf d b x Hb Hx').
Qed.

Lemma filled_count m m' g d b n : filled m g -> data_kept g m m' -> g !! d = Some b -> filled m' (<[d := with_count n b]> g).
Proof.
  intros Hf Hk Hd. eapply filled_kept; [done..|]. intros d' b'. destruct (decide (d' = d)) as [->|Hne].
  - rewrite lookup_insert_eq. intros [= <-]. by exists b.
  - rewrite lookup_insert_ne by done. by exists b'.
Qed.

Lemma filled_read m g d b a n : filled m g -> g !! d = Some b -> (forall x, a <= x < a + n -> uncounted d b x) -> read a n (contents m) = read a n f.
Proof. intros Hf Hd Hx. apply read_ext. intros x ?. by eapply Hf, Hx. Qed.

(** One reference of a shared block, and the last one of a block. *)
Lemma give_shared m g d b td : Rep m g -> filled m g -> g !! d = Some b -> 1 < count b ->
  exists m', decref_at d (header b) (RocRefs.align b) td m = Done tt m' /\ Rep m' (release d g) /\ filled m' (release d g).
Proof.
  intros HR Hf Hd Hc. rewrite (decref_at_counted _ _ _ _ _ _ _ HR Hd ltac:(lia)). cbv zeta. rewrite (proj2 (Z.eqb_neq (count b) 1)) by lia.
  pose proof (r_block _ _ HR _ _ Hd) as (_ & _ & _ & _ & Hr & _). destruct (rep_set_count m g d b (count b - 1) HR Hd ltac:(lia)) as [HR1 Hk].
  assert (release d g = <[d := with_count (count b - 1) b]> g) as -> by (unfold release; rewrite Hd, (proj2 (Z.eqb_neq (count b) 1)) by lia; done).
  eexists. split_and!; [done..|]. by eapply filled_count.
Qed.

Lemma give_last m g g' d b td : Rep m g -> filled m g -> g !! d = Some b -> count b = 1 -> g' !! d = None ->
  (forall m1, Rep m1 (<[d := with_count 0 b]> g) -> filled m1 (<[d := with_count 0 b]> g) ->
     exists m2, td m1 = Done tt m2 /\ Rep m2 (<[d := with_count 0 b]> g') /\ filled m2 (<[d := with_count 0 b]> g')) ->
  exists m', decref_at d (header b) (RocRefs.align b) td m = Done tt m' /\ Rep m' g' /\ filled m' g'.
Proof.
  intros HR Hf Hd Hc Hn Htd. rewrite (decref_at_counted _ _ _ _ _ _ _ HR Hd ltac:(lia)). cbv zeta. rewrite Hc. change (1 - 1) with 0. change (1 =? 1) with true. cbv iota.
  destruct (rep_set_count m g d b 0 HR Hd ltac:(lia)) as [HR1 Hk]. destruct (Htd _ HR1 ltac:(by eapply filled_count)) as (m2 & E2 & HR2 & Hf2).
  unfold mbind, M_bind. rewrite E2. pose proof (r_block _ _ HR2 d _ (lookup_insert_eq _ _ _)) as (Hl & _). cbn [header RocRefs.size RocRefs.align with_count] in Hl.
  unfold dealloc. rewrite Hl, Z.eqb_refl. pose proof (rep_delete _ _ d _ HR2 (lookup_insert_eq _ _ _)) as HR3. cbn [header with_count] in HR3.
  rewrite delete_insert_id in HR3 by done. eexists. split_and!; [done..|]. intros d' b' x Hd' Hx. eapply Hf2; [|exact Hx].
  rewrite lookup_insert_ne; [done|congruence].
Qed.

(** A release in terms of its handle: the teardown runs for the last one. *)
Definition teardown (call : Z -> Z -> M unit) (t : Ty) (v : list Z) (d : Z) : M unit :=
  match t with
  | ListOf true e => items ← allocation_items (AbiLayout.elem_of true e) (list_of_bytes v); release_all (release_ty call e) items
  | Callable => drop_erased_callable_payload call d
  | _ => mret tt
  end.

Lemma release_handle call t v m : reference t = true ->
  release_ty call t v m = match handle t v with Some (d, h, a) => decref_at d h a (teardown call t v d) m | None => Done tt m end.
Proof.
  destruct t as [| | | |r e| | | | |]; try done; intros _; cbn [release_ty handle teardown parts].
  - unfold str_decref. destruct (is_small_str _); [done|]. cbn [orb]. by destruct (_ =? 0).
  - unfold list_release_with. destruct (elements _ =? 0); [done|]. cbn [orb]. destruct (_ =? 0); [done|]. by destruct r.
  - unfold decref_box_with. by destruct (_ =? 0).
  - unfold decref_erased_callable, decref_box_with. by destruct (_ =? 0).
Qed.

Lemma reference_handle t v x : handle t v = Some x -> reference t = true.
Proof. by destruct t. Qed.

Lemma items_filled e v m g d b n : Rep m g -> filled m g -> g !! d = Some b -> handle (ListOf true e) v = Some (d, header b, RocRefs.align b) ->
  n = item_count (list_of_bytes v) d -> 0 <= n -> 0 <= size W64 e -> n * size W64 e <= RocRefs.size b ->
  allocation_items (AbiLayout.elem_of true e) (list_of_bytes v) m = Done (items_at e n d) m.
Proof.
  intros HR Hf Hd Hh En Hn Hs Hm. cbn [handle parts] in Hh. destruct (elements _ =? 0) eqn:El; [done|]. cbn [orb] in Hh.
  destruct (allocation_ptr _ =? 0) eqn:Ea; [done|]. injection Hh as Ed Eh _. pose proof (r_block _ _ HR _ _ Hd) as (Hl & _).
  assert (2 * WORD <= header b) as H16 by (rewrite <- Eh; unfold header_bytes; cbn [refcounted AbiLayout.elem_of]; lia).
  unfold allocation_items. rewrite El, Ed. unfold mbind, M_bind.
  assert (allocation_element_count (AbiLayout.elem_of true e) (list_of_bytes v) m = Done n m) as ->.
  { unfold allocation_element_count. cbn [refcounted AbiLayout.elem_of]. rewrite andb_true_r, Ea, Ed, En. unfold item_count. destruct (is_seamless_slice _); [|done].
    erewrite load_word_at; [|exact Hl|lia|unfold WORD in *; nia]. f_equal. unfold word. f_equal. eapply filled_read; [done..|]. unfold uncounted, WORD in *. lia. }
  unfold load_items, mbind, M_bind. cbn [size_of AbiLayout.elem_of]. erewrite load_at; [|exact Hl|unfold WORD in *; lia|lia].
  unfold mret, M_ret, items_at. do 2 f_equal. eapply filled_read; [done..|]. unfold uncounted. lia.
Qed.

(** The blocks [g] of a value among all the blocks. *)
Definition releases (run : M unit) (g g' : Blocks) : Prop :=
  forall m F, F ##ₘ g -> Rep m (F ∪ g) -> filled m (F ∪ g) ->
    exists m', run m = Done tt m' /\ F ##ₘ g' /\ Rep m' (F ∪ g') /\ filled m' (F ∪ g').

Lemma releases_seq (r1 r2 : M unit) g g1 g2 : releases r1 g g1 -> releases r2 g1 g2 -> releases (_ ← r1; r2) g g2.
Proof.
  intros H1 H2 m F HF HR Hf. destruct (H1 m F HF HR Hf) as (m1 & E1 & HF1 & HR1 & Hf1). destruct (H2 m1 F HF1 HR1 Hf1) as (m2 & E2 & ?).
  exists m2. unfold mbind, M_bind. by rewrite E1.
Qed.

Lemma disjoint_at (F g : Blocks) d b : F ##ₘ g -> g !! d = Some b -> F !! d = None /\ (F ∪ g) !! d = Some b.
Proof. intros HF Hd. pose proof (map_disjoint_Some_r _ _ _ _ HF Hd) as Hn. split; [done|]. by rewrite lookup_union_r. Qed.

Lemma union_release (F g : Blocks) d : F !! d = None -> release d (F ∪ g) = F ∪ release d g.
Proof.
  intros Hn. unfold release. rewrite lookup_union_r by done. destruct (g !! d) as [b|]; [|done]. destruct (_ =? 1).
  - rewrite delete_union, (delete_id F) by done. done.
  - by rewrite insert_union_r.
Qed.

Section Gives.
Variable call : Z -> Z -> M unit.

Lemma releases_shared_at td g d b : g !! d = Some b -> 1 < count b ->
  releases (decref_at d (header b) (RocRefs.align b) td) g (release d g).
Proof.
  intros Hd Hc m F HF HR Hf. destruct (disjoint_at F g d b HF Hd) as [Hn Hd'].
  destruct (give_shared m (F ∪ g) d b td HR Hf Hd' Hc) as (m' & -> & HR' & Hf'). rewrite union_release in HR', Hf' by done.
  exists m'. split_and!; [done| |done..]. unfold release. rewrite Hd, (proj2 (Z.eqb_neq (count b) 1)) by lia. by apply map_disjoint_insert_r_2.
Qed.

Lemma releases_shared t v g d b : handle t v = Some (d, header b, RocRefs.align b) -> g !! d = Some b -> 1 < count b ->
  releases (release_ty call t v) g (release d g).
Proof. intros Hh Hd Hc m F HF HR Hf. rewrite release_handle, Hh by by eapply reference_handle. by apply (releases_shared_at (teardown call t v d)). Qed.

(** The last reference: what the teardown takes from the other blocks. *)
Lemma releases_last_at td g g' d b : g !! d = Some b -> count b = 1 ->
  (forall m F, F ##ₘ delete d g -> F !! d = Some (with_count 0 b) -> Rep m (F ∪ delete d g) -> filled m (F ∪ delete d g) ->
     exists m', td m = Done tt m' /\ F ##ₘ g' /\ Rep m' (F ∪ g') /\ filled m' (F ∪ g')) ->
  releases (decref_at d (header b) (RocRefs.align b) td) g g'.
Proof.
  intros Hd Hc Htd m F HF HR Hf. destruct (disjoint_at F g d b HF Hd) as [Hn Hd'].
  assert (<[d := with_count 0 b]> F ##ₘ delete d g) as HF1 by (apply map_disjoint_insert_l_2; [apply lookup_delete_eq|by apply map_disjoint_delete_r]).
  assert (<[d := with_count 0 b]> (F ∪ g) = <[d := with_count 0 b]> F ∪ delete d g) as Eg.
  { rewrite <- insert_union_l. apply map_eq. intros d'. destruct (decide (d' = d)) as [->|Hne]; [by rewrite !lookup_insert_eq|].
    rewrite !lookup_insert_ne, !lookup_union, lookup_delete_ne by done. done. }
  assert (forall m1, Rep m1 (<[d := with_count 0 b]> (F ∪ g)) -> filled m1 (<[d := with_count 0 b]> (F ∪ g)) ->
    exists m2, td m1 = Done tt m2 /\ <[d := with_count 0 b]> F ##ₘ g' /\ Rep m2 (<[d := with_count 0 b]> (F ∪ g')) /\ filled m2 (<[d := with_count 0 b]> (F ∪ g'))) as Ht.
  { intros m1 HR1 Hf1. rewrite Eg in HR1, Hf1. destruct (Htd m1 _ HF1 (lookup_insert_eq _ _ _) HR1 Hf1) as (m2 & ? & ? & ? & ?).
    exists m2. rewrite insert_union_l. done. }
  assert (g' !! d = None /\ F ##ₘ g') as [Hg' HF'].
  { destruct (rep_set_count m (F ∪ g) d b 0 HR Hd' ltac:(lia)) as [HR1 Hk]. destruct (Ht _ HR1 ltac:(by eapply filled_count)) as (m2 & _ & HF2 & _).
    by apply map_disjoint_insert_l in HF2. }
  destruct (give_last m (F ∪ g) (F ∪ g') d b (td) HR Hf Hd' Hc) as (m' & -> & HR' & Hf').
  - by rewrite lookup_union_None.
  - intros m1 HR1 Hf1. destruct (Ht m1 HR1 Hf1) as (m2 & ? & _ & ? & ?). by exists m2.
  - by exists m'.
Qed.

Lemma releases_last t v g g' d b : handle t v = Some (d, header b, RocRefs.align b) -> g !! d = Some b -> count b = 1 ->
  (forall m F, F ##ₘ delete d g -> F !! d = Some (with_count 0 b) -> Rep m (F ∪ delete d g) -> filled m (F ∪ delete d g) ->
     exists m', teardown call t v d m = Done tt m' /\ F ##ₘ g' /\ Rep m' (F ∪ g') /\ filled m' (F ∪ g')) ->
  releases (release_ty call t v) g g'.
Proof.
  intros Hh Hd Hc Htd m F HF HR Hf. rewrite release_handle, Hh by by eapply reference_handle. by eapply (releases_last_at (teardown call t v d)).
Qed.

Lemma releases_refl g : releases (mret tt) g g.
Proof. intros m F HF HR Hf. by exists m. Qed.

(** Running a union's arm. *)
Lemma arm_lookup i tag arms x : arms !! tag = Some x -> arm i (i + Z.of_nat tag) arms = x.
Proof.
  revert i tag. induction arms as [|y arms IH]; intros i [|tag]; try done; cbn [arm].
  - intros [= ->]. by rewrite Z.add_0_r, Z.eqb_refl.
  - intros H. rewrite (proj2 (Z.eqb_neq _ _)) by lia. rewrite <- (IH (i + 1) tag H). f_equal. lia.
Qed.

Lemma teardown_shallow m g t v d b : Rep m g -> filled m g -> g !! d = Some (with_count 0 b) -> shallow t d = true -> (t = Callable -> 2 * WORD <= RocRefs.size b) ->
  teardown call t v d m = Done tt m.
Proof.
  intros HR Hf Hd Hs Hc. destruct t as [| | | |[]| | | | |]; try done. cbn [teardown]. specialize (Hc eq_refl). cbn [shallow] in Hs.
  unfold drop_erased_callable_payload. destruct (d =? 0); [done|]. pose proof (r_block _ _ HR _ _ Hd) as (Hl & Hh & _). cbn [header RocRefs.size with_count] in *.
  unfold mbind, M_bind. erewrite load_word_at; [|exact Hl|unfold WORD in *; lia|unfold WORD in *; lia].
  unfold word. erewrite filled_read; [|done..|unfold uncounted; cbn [header RocRefs.size with_count]; unfold WORD in *; lia]. by rewrite Hs.
Qed.

Theorem gives_releases :
  (forall t v g g', gives_up t v g g' -> releases (release_ty call t v) g g') /\
  (forall fs offs v g g', gives_fields fs offs v g g' ->
     releases (each (map (fun x => (release_ty call x.2, size W64 x.2)) fs) offs (fun '(release, n) off => release (slice off n v))) g g') /\
  (forall e items g g', gives_items e items g g' -> releases (release_all (release_ty call e) items) g g').
Proof.
  apply gives_mind; cbn [each map release_all].
  - intros t v g Hp. destruct t; try done; apply releases_refl.
  - intros t v g Hr Hh m F HF HR Hf. rewrite release_handle, Hh by done. by exists m.
  - apply releases_shared.
  - intros t v g d b Hh Hd Hc Hs Hcb. eapply releases_last; [done..|]. intros m F HF HFd HR Hf.
    exists m. split_and!; try done. eapply teardown_shallow; [done..| |done|done]. by apply lookup_union_Some_l.
  - intros e v g g' d b n Hh Hd Hc En Hn Hs Hm _ IH. eapply releases_last; [done..|]. intros m F HF HFd HR Hf. cbn [teardown]. unfold mbind, M_bind.
    erewrite (items_filled _ _ _ _ d (with_count 0 b)); [by apply IH|done|done|by apply lookup_union_Some_l|done..].
  - intros fs v g g' _ IH. exact IH.
  - intros vs b a v tag x g g' Ht Hx _ IH m F. cbn [release_ty]. rewrite Ht.
    rewrite (arm_lookup 0 tag _ (release_ty call x.2 (payload x.2 v))); [apply IH|]. by rewrite list_lookup_fmap, Hx.
  - intros v g. apply releases_refl.
  - intros x fs off offs v g g1 g2 _ IH1 _ IH2. by eapply releases_seq.
  - intros e g. apply releases_refl.
  - intros e x items g g1 g2 _ IH1 _ IH2. by eapply releases_seq.
Qed.

End Gives.
End Owned.
(** ** The theorems *)

(** What is asserted of a type's layout is what its declaration gives it, on
    both targets. *)
Definition layout_ok (x : Ty * Layouts) : Prop :=
  layout W64 x.1 = asserted64 x.2 /\ layout W32 x.1 = asserted32 x.2 /\ sound x.1 = true.

(** The numbers in the file are those of its declarations: for every
    generated type and returned record, the asserted size, alignment and tag
    offset are what [#[repr(C)]] gives, on 64-bit and on 32-bit targets; each
    list type says of its elements whether they are counted; and the byte
    array a union is on 32-bit targets holds every payload at an alignment
    that suits it. *)
Theorem layouts_asserted call :
  Forall layout_ok (map (fun g => (g_ty g, g_asserted g)) (generated call) ++ returned).
Proof. unfold layout_ok, generated, returned. cbn [map app g_ty g_asserted]. repeat constructor. Qed.

(** C19: Every generated [decref] and [incref] is the one its type calls for: it
    reads the tag, and releases (or retains) every counted payload or field
    of the value, each once and in order, and nothing else; the functions
    that release lists do so for every element. *)
Theorem generated_by_type call :
  Forall (fun g => agrees call (g_ty g) (g_decref g) (g_incref g)) (generated call) /\ Forall (list_agrees call) list_releases.
Proof. split; [exact (all_agree call)|exact (lists_agree call)]. Qed.

(** C18: Releasing a value gives up exactly what it owns: whatever blocks the
    value's references take from [g] to [g'] (one reference of each shared
    block, each block held by its last reference, and through it what the
    elements of a list own), the generated [decref] runs without undefined
    behaviour, frees nothing twice and leaves [g']; the other blocks keep
    their contents and counts. *)
Theorem generated_release_exact call gen v m g g' : gen ∈ generated call -> Rep m g -> gives_up (contents m) (g_ty gen) v g g' ->
  exists m', g_decref gen v m = Done tt m' /\ Rep m' g' /\ forall d b x, g' !! d = Some b -> uncounted d b x -> contents m' x = contents m x.
Proof.
  intros Hgen HR Hg. rewrite (proj1 (proj1 (Forall_forall _ _) (all_agree call) _ Hgen v m)).
  destruct (proj1 (gives_releases (contents m) call) _ _ _ _ Hg m ∅ ltac:(apply map_disjoint_empty_l)) as (m' & -> & _ & HR' & Hf'); rewrite ?map_empty_union in *; [done|by intros d b x _ _|].
  by exists m'.
Qed.

(** *** The addresses a name resolved to: a short one and a long one *)

Definition m0 : Mem := mkMem ∅ (fun _ => 0).
Definition resolved : outcome (list Z) :=
  (s ← str_from_slice bump long; short ← str_from_slice bump [65]; l ← list_from_slice bump STR [str_bytes short; str_bytes s]; mret (list_bytes l ++ repeat 0 8 ++ [1] ++ repeat 0 7)) m0.

Lemma generated_release_exact_witness :
  exists v m, resolved = Done v m /\ exists m', HostDnsResolveResult_decref v m = Done tt m' /\ live m' = ∅.
Proof.
  eexists _, _. split; [vm_compute; reflexivity|]. match goal with |- exists m', HostDnsResolveResult_decref ?v0 ?m1 = _ /\ _ => set (v := v0); set (m := m1) end.
  assert (exists c g, Inv (m, [(VList STR (list_of_bytes v), c); (VStr (mkStr 72 48 24), long)]) g) as (c & g & HI).
  { eexists. apply (refs_reachable_inv bump). eapply rtc_l; [apply (st_str bump _ _ long); vm_compute; reflexivity|].
    eapply rtc_l; [apply (st_list bump _ _ STR [str_bytes (mkStr 65 0 (129 * 2 ^ 56)); str_bytes (mkStr 72 48 24)]); [split; [done|by exists 2]|repeat constructor|vm_compute; reflexivity]|apply rtc_refl]. }
  destruct (held_block _ _ _ _ _ 144 16 8 HI ltac:(by apply elem_of_cons; left) ltac:(vm_compute; reflexivity)) as (b & Hb & Hh & Ha & Hc).
  destruct (held_block _ _ _ _ _ 72 8 8 HI ltac:(by apply elem_of_cons; right; apply elem_of_cons; left) ltac:(vm_compute; reflexivity)) as (b2 & Hb2 & Hh2 & Ha2 & Hc2).
  pose proof (v_rep _ _ HI) as HR. cbn [fst] in HR.
  assert (count b = 1) as H1 by (rewrite (v_count _ _ HI _ _ Hb); vm_compute; reflexivity).
  assert (count b2 = 1) as H2 by (rewrite (v_count _ _ HI _ _ Hb2); vm_compute; reflexivity).
  assert (RocRefs.size b = 48) as Hsz.
  { destruct (r_block _ _ HR _ _ Hb) as (Hl & _). assert (live m !! 128 = Some (64, 8)) as Hl' by (vm_compute; reflexivity). rewrite Hh in Hl. change (144 - 16) with 128 in Hl. rewrite Hl' in Hl. injection Hl. lia. }
  assert (delete 72 (delete 144 g) = ∅) as Eg.
  { apply map_empty. intros d. rewrite !lookup_delete_None. destruct (decide (d = 72)) as [->|Hn2]; [by left|]. right. destruct (decide (d = 144)) as [->|Hn]; [by left|]. right.
    destruct (g !! d) as [b'|] eqn:E; [|done]. pose proof (v_pos _ _ HI _ _ E). pose proof (v_count _ _ HI _ _ E) as E2. cbn [snd] in E2. rewrite !nrefs_cons in E2.
    rewrite (refers_parts 144 (VList STR (list_of_bytes v), c) 16 8 ltac:(vm_compute; reflexivity)), (refers_parts 72 (VStr (mkStr 72 48 24), long) 8 8 ltac:(vm_compute; reflexivity)) in E2.
    rewrite (proj2 (Z.eqb_neq 144 d)), (proj2 (Z.eqb_neq 72 d)) in E2 by done. change (count b' = 0) in E2. lia. }
  destruct (generated_release_exact (fun _ _ => mret tt) (mkGenerated HostDnsResolveResult HostDnsResolveResult_asserted HostDnsResolveResult_decref HostDnsResolveResult_incref) v m g ∅) as (m' & E & HR' & _).
  - unfold generated. repeat (apply elem_of_cons; first [left; reflexivity | right]).
  - exact HR.
  - cbn [g_ty]. apply (gu_union _ _ _ _ _ 1 ("Ok"%string, ListOf true Str)); [vm_compute; reflexivity|reflexivity|].
    eapply (gu_last_list _ _ _ _ _ 144 b 2); [rewrite Hh, Ha; vm_compute; reflexivity|exact Hb|exact H1|vm_compute; reflexivity|lia|vm_compute; discriminate|rewrite Hsz; vm_compute; discriminate|].
    assert (items_at (contents m) Str 2 144 = [str_bytes (mkStr 65 0 (129 * 2 ^ 56)); str_bytes (mkStr 72 48 24)]) as -> by (vm_compute; reflexivity).
    eapply gi_cons; [apply gu_none; vm_compute; reflexivity|]. eapply gi_cons; [|apply gi_nil]. rewrite <- Eg.
    apply (gu_last _ Str _ _ 72 b2); [rewrite Hh2, Ha2; vm_compute; reflexivity|by rewrite lookup_delete_ne|exact H2|reflexivity|discriminate].
  - exists m'. split; [exact E|]. apply map_empty. intros p. destruct (live m' !! p) as [x|] eqn:Ep; [|done]. destruct (r_all _ _ HR' _ _ Ep) as (d & b' & Hd & _). by rewrite lookup_empty in Hd.
Defined.

(** *** A string alone in memory *)

Definition one_string : outcome RocStr := str_from_slice bump long m0.

Lemma one_string_owned : exists s m g, one_string = Done s m /\ Rep m g /\ gives_up (contents m) Str (str_bytes s) g ∅.
Proof.
  eexists _, _. match goal with |- exists g, one_string = Done ?s ?m /\ _ => assert (one_string = Done s m) as E1 by (vm_compute; reflexivity) end.
  match type of E1 with _ = Done ?s0 ?m1 => set (s := s0) in *; set (m := m1) in * end.
  assert (exists g, Inv (m, [(VStr s, long)]) g) as (g & HI).
  { apply (refs_reachable_inv bump). eapply rtc_l; [apply (st_str bump _ _ long); vm_compute; reflexivity|apply rtc_refl]. }
  destruct (held_block _ _ _ _ _ 72 8 8 HI ltac:(by apply elem_of_cons; left) ltac:(vm_compute; reflexivity)) as (b & Hb & Hh & Ha & Hc).
  assert (count b = 1) as H1 by (rewrite (v_count _ _ HI _ _ Hb); vm_compute; reflexivity).
  assert (delete 72 g = ∅) as Eg.
  { apply map_empty. intros d. rewrite lookup_delete_None. destruct (decide (d = 72)) as [->|Hn]; [by left|]. right.
    destruct (g !! d) as [b'|] eqn:E; [|done]. pose proof (v_pos _ _ HI _ _ E). pose proof (v_count _ _ HI _ _ E) as E2. cbn [snd] in E2. rewrite nrefs_cons in E2.
    rewrite (refers_parts 72 (VStr s, long) 8 8 ltac:(vm_compute; reflexivity)), (proj2 (Z.eqb_neq 72 d)) in E2 by done. change (count b' = 0) in E2. lia. }
  exists g. split_and!; [exact E1|exact (v_rep _ _ HI)|]. rewrite <- Eg.
  apply (gu_last _ Str _ _ 72 b); [rewrite Hh, Ha; vm_compute; reflexivity|exact Hb|exact H1|reflexivity|discriminate].
Qed.

Lemma rep_empty m : Rep m ∅ -> live m = ∅.
Proof. intros HR. apply map_empty. intros p. destruct (live m !! p) as [x|] eqn:Ep; [|done]. destruct (r_all _ _ HR _ _ Ep) as (d & b' & Hd & _). by rewrite lookup_empty in Hd. Qed.

End AbiRelease.
