(* ===== verification/RocInterface.v ===== *)
(** * The interface the platform's Roc code declares ([platform/Host.roc])

    The functions the Roc side of the platform has the host supply, as
    [platform/Host.roc] declares them and [platform/main.roc] names their
    symbols; and the reference the generated declarations are compared with:
    what a Roc type is at the C boundary ([lower]). *)
From S2P Require Import Prelude RocMem RocValues AbiLayout.
From stdpp Require Import strings.
Local Open Scope string_scope.
Local Open Scope Z_scope.

Module RocInterface.
Import AbiLayout.

(** ** Roc types *)

Inductive Num := U8 | U32 | U64 | I32 | I64 | F64.

(** [RThunk] is [Box(() -> a)] or [Box(() => {})], a boxed function of no
    argument.  Each tag has at most one argument here. *)
Inductive RocTy :=
  | RUnit
  | RBool
  | RNum (n : Num)
  | RStr
  | RList (element : RocTy)
  | RBox (content : RocTy)
  | RThunk
  | RRecord (fields : list (string * RocTy))
  | RTags (tags : list (string * option RocTy))
  | RTry (ok err : RocTy).

(** [{} => r] has no arguments. *)
Record RocFn := mkRocFn { roc_params : list RocTy; roc_result : RocTy }.
Notation "a =>> r" := (mkRocFn a r) (at level 70).

(** [IOErr.roc] *)
Definition IOErr : RocTy := RTags [("AddrInUse", None); ("AddrNotAvailable", None); ("AlreadyExists", None); ("BrokenPipe", None); ("Cancelled", None); ("ConnectionAborted", None); ("ConnectionRefused", None); ("ConnectionReset", None); ("Interrupted", None); ("InvalidInput", None); ("NotConnected", None); ("NotFound", None); ("PermissionDenied", None); ("TimedOut", None); ("TooManySockets", None); ("UnexpectedEof", None); ("Unsupported", None); ("Other", Some RStr)].

(** [Host.roc]: the types, then the functions. *)
Module Host.
Definition Socket : RocTy := RBox (RNum U64).
Definition TlsCert : RocTy := RRecord [("name", RStr); ("cert_file", RStr); ("key_file", RStr)].
Definition LogField : RocTy := RRecord [("key", RStr); ("value", RTags [("Str", Some RStr); ("U64", Some (RNum U64)); ("I64", Some (RNum I64)); ("F64", Some (RNum F64)); ("Bool", Some RBool)])].
Definition ChannelEnd : RocTy := RBox (RNum U64).
Definition TaskHandle : RocTy := RBox (RNum U64).
Definition WaitSource : RocTy := RTags [("Readable", Some Socket); ("Writable", Some Socket); ("Receivable", Some ChannelEnd); ("Sendable", Some ChannelEnd); ("Joinable", Some TaskHandle); ("StdinLine", None); ("SignalCaught", None)].
Definition TaskGroup : RocTy := RBox (RNum U64).

Definition stderr_line : RocFn := [RStr] =>> RTry RUnit (RTags [("StderrErr", Some RStr)]).
Definition stdin_line : RocFn := [] =>> RTry RStr (RTags [("StdinErr", Some RStr)]).
Definition signal_catch : RocFn := [RList (RNum U8)] =>> RTry RUnit IOErr.
Definition signal_try_next : RocFn := [] =>> RTags [("Got", Some (RNum U8)); ("NotReady", None)].
Definition signal_next : RocFn := [] =>> RTags [("Got", Some (RNum U8)); ("Cancelled", None)].
Definition stdin_try_line : RocFn := [] =>> RTags [("Line", Some RStr); ("End", None); ("Failed", Some RStr); ("NotReady", None); ("TooLong", None)].
Definition stdin_read_line : RocFn := [] =>> RTags [("Line", Some RStr); ("End", None); ("Failed", Some RStr); ("TooLong", None)].
Definition stdout_line : RocFn := [RStr] =>> RTry RUnit (RTags [("StdoutErr", Some RStr)]).
Definition tcp_listen : RocFn := [RStr; RNum U64; RNum U64; RNum U32; RBool] =>> RTry Socket IOErr.
Definition tcp_connect : RocFn := [RStr; RNum U64; RStr; RStr] =>> RTry Socket IOErr.
Definition unix_listen : RocFn := [RStr; RNum U64; RNum U64] =>> RTry Socket IOErr.
Definition unix_connect : RocFn := [RStr; RNum U64] =>> RTry Socket IOErr.
Definition udp_bind : RocFn := [RStr; RBool] =>> RTry Socket IOErr.
Definition tls_connect : RocFn := [RStr; RStr; RStr; RList RStr; RNum U64; RStr; RStr] =>> RTry Socket IOErr.
Definition tls_listen : RocFn := [RStr; RList TlsCert; RList RStr; RNum U64; RNum U64; RNum U64; RStr; RNum U8] =>> RTry Socket IOErr.
Definition tls_server_name : RocFn := [Socket] =>> RTry RStr IOErr.
Definition tls_alpn_protocol : RocFn := [Socket] =>> RTry RStr IOErr.
Definition tls_handshake : RocFn := [Socket] =>> RTry RUnit IOErr.
Definition tls_ignore_unexpected_eof : RocFn := [Socket; RBool] =>> RTry RUnit IOErr.
Definition noise_wrap : RocFn := [Socket; RNum U8; RList (RNum U8); RNum U64; RList (RNum U8); RNum U64] =>> RTry Socket IOErr.
Definition tls_wrap_client : RocFn := [Socket; RStr; RStr; RList RStr; RNum U64; RStr; RStr] =>> RTry Socket IOErr.
Definition tls_wrap_server : RocFn := [Socket; RList TlsCert; RList RStr; RNum U64; RStr; RNum U8] =>> RTry Socket IOErr.
Definition tls_peer_certificates : RocFn := [Socket] =>> RTry (RList (RList (RNum U8))) IOErr.
Definition tls_peer_certificate_valid_for : RocFn := [Socket; RStr] =>> RTry RBool IOErr.
Definition listener_close : RocFn := [Socket] =>> RTry RUnit IOErr.
Definition socket_accept : RocFn := [Socket] =>> RTry Socket IOErr.
Definition socket_read : RocFn := [Socket; RNum U64] =>> RTry (RList (RNum U8)) IOErr.
Definition socket_try_read : RocFn := [Socket; RNum U64] =>> RTags [("Data", Some (RList (RNum U8))); ("NotReady", None); ("Failed", Some IOErr)].
Definition socket_try_accept : RocFn := [Socket] =>> RTags [("Accepted", Some Socket); ("NotReady", None); ("Failed", Some IOErr)].
Definition socket_read_into : RocFn := [Socket; RList (RNum U8); RNum U64] =>> RTry (RList (RNum U8)) IOErr.
Definition socket_read_append : RocFn := [Socket; RList (RNum U8); RNum U64] =>> RTry (RList (RNum U8)) IOErr.
Definition socket_write : RocFn := [Socket; RList (RNum U8)] =>> RTry RUnit IOErr.
Definition socket_shutdown : RocFn := [Socket; RNum U8] =>> RTry RUnit IOErr.
Definition socket_abort : RocFn := [Socket] =>> RUnit.
Definition socket_set_timeout : RocFn := [Socket; RNum U8; RNum U64] =>> RTry RUnit IOErr.
Definition socket_local_addr : RocFn := [Socket] =>> RTry RStr IOErr.
Definition socket_peer_addr : RocFn := [Socket] =>> RTry RStr IOErr.
Definition tcp_set_nodelay : RocFn := [Socket; RBool] =>> RTry RUnit IOErr.
Definition stream_copy_to : RocFn := [Socket; Socket; RList (RNum U8); RTags [("UntilEnd", None); ("Exactly", Some (RNum U64))]; RNum U64] =>> RRecord [("copied", RNum U64); ("outcome", RTags [("Done", None); ("Read", Some IOErr); ("Write", Some IOErr); ("MessageTimedOut", None); ("Cancelled", None)])].
Definition stream_copy_both : RocFn := [Socket; Socket] =>> RRecord [("a_to_b", RNum U64); ("b_to_a", RNum U64); ("outcome", RTags [("Done", None); ("ReadA", Some IOErr); ("ReadB", Some IOErr); ("WriteA", Some IOErr); ("WriteB", Some IOErr); ("Cancelled", None); ("TaskLimitReached", None)])].
Definition udp_connect : RocFn := [Socket; RStr] =>> RTry RUnit IOErr.
Definition udp_send_to : RocFn := [Socket; RList (RNum U8); RStr] =>> RTry RUnit IOErr.
Definition udp_recv_from : RocFn := [Socket; RNum U64] =>> RTry (RRecord [("bytes", RList (RNum U8)); ("from", RStr); ("truncated", RBool)]) IOErr.
Definition udp_recv : RocFn := [Socket; RNum U64] =>> RTry (RRecord [("bytes", RList (RNum U8)); ("truncated", RBool)]) IOErr.
Definition socket_set_keepalive : RocFn := [Socket; RBool; RNum U64; RNum U64; RNum U32] =>> RTry RUnit IOErr.
Definition socket_set_buffer_size : RocFn := [Socket; RNum U8; RNum U64] =>> RTry RUnit IOErr.
Definition socket_buffer_size : RocFn := [Socket; RNum U8] =>> RTry (RNum U64) IOErr.
Definition unix_peer_credentials : RocFn := [Socket] =>> RTry (RRecord [("uid", RNum U32); ("gid", RNum U32); ("pid", RNum I32)]) IOErr.
Definition udp_set_broadcast : RocFn := [Socket; RBool] =>> RTry RUnit IOErr.
Definition udp_join_multicast : RocFn := [Socket; RStr] =>> RTry RUnit IOErr.
Definition udp_leave_multicast : RocFn := [Socket; RStr] =>> RTry RUnit IOErr.
Definition time_now_ns : RocFn := [] =>> RNum U64.
Definition time_utc_now_ns : RocFn := [] =>> RNum I64.
Definition log_enabled : RocFn := [RNum U8] =>> RBool.
Definition log_write : RocFn := [RNum U8; RStr; RList LogField] =>> RUnit.
Definition time_sleep_ns : RocFn := [RNum U64] =>> RBool.
Definition dns_resolve : RocFn := [RStr; RNum U64] =>> RTry (RList RStr) IOErr.
Definition file_read : RocFn := [RStr] =>> RTry (RList (RNum U8)) IOErr.
Definition file_write : RocFn := [RStr; RList (RNum U8); RNum U8; RNum U32] =>> RTry RUnit IOErr.
Definition file_rename : RocFn := [RStr; RStr] =>> RTry RUnit IOErr.
Definition file_delete : RocFn := [RStr] =>> RTry RUnit IOErr.
Definition file_exists : RocFn := [RStr] =>> RTry RBool IOErr.
Definition env_var : RocFn := [RStr] =>> RTags [("Found", Some RStr); ("Missing", None); ("NotUtf8", None)].
Definition x25519_public_key : RocFn := [RList (RNum U8)] =>> RList (RNum U8).
Definition x25519_shared : RocFn := [RList (RNum U8); RList (RNum U8)] =>> RTags [("Shared", Some (RList (RNum U8))); ("LowOrder", None)].
Definition aead_seal : RocFn := [RNum U8; RList (RNum U8); RList (RNum U8); RList (RNum U8); RList (RNum U8)] =>> RList (RNum U8).
Definition aead_open : RocFn := [RNum U8; RList (RNum U8); RList (RNum U8); RList (RNum U8); RList (RNum U8)] =>> RTags [("Opened", Some (RList (RNum U8))); ("Invalid", None)].
Definition ed25519_public_key : RocFn := [RList (RNum U8)] =>> RList (RNum U8).
Definition ed25519_sign : RocFn := [RList (RNum U8); RList (RNum U8)] =>> RList (RNum U8).
Definition ed25519_verify : RocFn := [RList (RNum U8); RList (RNum U8); RList (RNum U8)] =>> RBool.
Definition constant_time_eq : RocFn := [RList (RNum U8); RList (RNum U8)] =>> RBool.
Definition random_bytes : RocFn := [RNum U64] =>> RTags [("Bytes", Some (RList (RNum U8))); ("OutOfMemory", None)].
Definition channel_new : RocFn := [RNum U64] =>> RTry (RRecord [("sender", ChannelEnd); ("receiver", ChannelEnd)]) (RTags [("TooManyChannels", None)]).
Definition channel_send : RocFn := [ChannelEnd; RThunk; RBool] =>> RTags [("Sent", None); ("Full", None); ("Closed", None); ("Cancelled", None)].
Definition channel_receive : RocFn := [ChannelEnd; RNum U64] =>> RTry RThunk (RTags [("Closed", None); ("TimedOut", None); ("Cancelled", None)]).
Definition channel_close : RocFn := [ChannelEnd] =>> RUnit.
Definition select_wait : RocFn := [RList WaitSource; RNum U64] =>> RTags [("Ready", None); ("TimedOut", None); ("Cancelled", None); ("SourceTimedOut", Some (RNum U64))].
Definition select_turn : RocFn := [] =>> RNum U64.
Definition task_spawn : RocFn := [RThunk] =>> RTry TaskHandle (RTags [("TaskLimitReached", None)]).
Definition task_finish : RocFn := [RThunk] =>> RBool.
Definition task_join : RocFn := [TaskHandle] =>> RTry RThunk (RTags [("Cancelled", None)]).
Definition task_cancel : RocFn := [TaskHandle] =>> RUnit.
Definition task_is_cancelled : RocFn := [] =>> RBool.
Definition task_is_finished : RocFn := [TaskHandle] =>> RBool.
Definition task_yield : RocFn := [] =>> RUnit.
Definition group_new : RocFn := [] =>> RTry TaskGroup (RTags [("TaskLimitReached", None)]).
Definition group_add : RocFn := [TaskGroup; TaskHandle] =>> RUnit.
Definition group_cancel : RocFn := [TaskGroup] =>> RUnit.
Definition group_close : RocFn := [TaskGroup; RBool] =>> RUnit.
End Host.

(** [main.roc]: the symbol each is hosted by. *)
Definition hosted : list (string * RocFn) := [
  ("roc_stderr_line", Host.stderr_line);
  ("roc_stdin_line", Host.stdin_line);
  ("roc_stdin_read_line", Host.stdin_read_line);
  ("roc_stdin_try_line", Host.stdin_try_line);
  ("roc_signal_catch", Host.signal_catch);
  ("roc_signal_try_next", Host.signal_try_next);
  ("roc_signal_next", Host.signal_next);
  ("roc_stdout_line", Host.stdout_line);
  ("roc_aead_open", Host.aead_open);
  ("roc_aead_seal", Host.aead_seal);
  ("roc_constant_time_eq", Host.constant_time_eq);
  ("roc_ed25519_public_key", Host.ed25519_public_key);
  ("roc_ed25519_sign", Host.ed25519_sign);
  ("roc_ed25519_verify", Host.ed25519_verify);
  ("roc_x25519_public_key", Host.x25519_public_key);
  ("roc_x25519_shared", Host.x25519_shared);
  ("roc_log_enabled", Host.log_enabled);
  ("roc_log_write", Host.log_write);
  ("roc_task_spawn", Host.task_spawn);
  ("roc_task_finish", Host.task_finish);
  ("roc_task_join", Host.task_join);
  ("roc_task_cancel", Host.task_cancel);
  ("roc_task_is_cancelled", Host.task_is_cancelled);
  ("roc_task_is_finished", Host.task_is_finished);
  ("roc_task_yield", Host.task_yield);
  ("roc_group_new", Host.group_new);
  ("roc_group_add", Host.group_add);
  ("roc_group_cancel", Host.group_cancel);
  ("roc_group_close", Host.group_close);
  ("roc_channel_close", Host.channel_close);
  ("roc_select_wait", Host.select_wait);
  ("roc_select_turn", Host.select_turn);
  ("roc_channel_new", Host.channel_new);
  ("roc_channel_receive", Host.channel_receive);
  ("roc_channel_send", Host.channel_send);
  ("roc_dns_resolve", Host.dns_resolve);
  ("roc_env_var", Host.env_var);
  ("roc_file_delete", Host.file_delete);
  ("roc_file_exists", Host.file_exists);
  ("roc_file_read", Host.file_read);
  ("roc_file_rename", Host.file_rename);
  ("roc_file_write", Host.file_write);
  ("roc_random_bytes", Host.random_bytes);
  ("roc_time_now_ns", Host.time_now_ns);
  ("roc_time_sleep_ns", Host.time_sleep_ns);
  ("roc_time_utc_now_ns", Host.time_utc_now_ns);
  ("roc_socket_abort", Host.socket_abort);
  ("roc_socket_accept", Host.socket_accept);
  ("roc_listener_close", Host.listener_close);
  ("roc_socket_local_addr", Host.socket_local_addr);
  ("roc_socket_peer_addr", Host.socket_peer_addr);
  ("roc_socket_read", Host.socket_read);
  ("roc_socket_try_read", Host.socket_try_read);
  ("roc_socket_try_accept", Host.socket_try_accept);
  ("roc_socket_read_append", Host.socket_read_append);
  ("roc_socket_read_into", Host.socket_read_into);
  ("roc_socket_set_timeout", Host.socket_set_timeout);
  ("roc_socket_shutdown", Host.socket_shutdown);
  ("roc_socket_write", Host.socket_write);
  ("roc_stream_copy_both", Host.stream_copy_both);
  ("roc_stream_copy_to", Host.stream_copy_to);
  ("roc_noise_wrap", Host.noise_wrap);
  ("roc_tcp_connect", Host.tcp_connect);
  ("roc_tcp_listen", Host.tcp_listen);
  ("roc_tcp_set_nodelay", Host.tcp_set_nodelay);
  ("roc_tls_alpn_protocol", Host.tls_alpn_protocol);
  ("roc_tls_connect", Host.tls_connect);
  ("roc_tls_handshake", Host.tls_handshake);
  ("roc_tls_ignore_unexpected_eof", Host.tls_ignore_unexpected_eof);
  ("roc_tls_listen", Host.tls_listen);
  ("roc_tls_peer_certificates", Host.tls_peer_certificates);
  ("roc_tls_peer_certificate_valid_for", Host.tls_peer_certificate_valid_for);
  ("roc_tls_server_name", Host.tls_server_name);
  ("roc_tls_wrap_client", Host.tls_wrap_client);
  ("roc_tls_wrap_server", Host.tls_wrap_server);
  ("roc_udp_bind", Host.udp_bind);
  ("roc_udp_connect", Host.udp_connect);
  ("roc_udp_join_multicast", Host.udp_join_multicast);
  ("roc_udp_leave_multicast", Host.udp_leave_multicast);
  ("roc_udp_recv_from", Host.udp_recv_from);
  ("roc_udp_recv", Host.udp_recv);
  ("roc_socket_set_keepalive", Host.socket_set_keepalive);
  ("roc_socket_set_buffer_size", Host.socket_set_buffer_size);
  ("roc_socket_buffer_size", Host.socket_buffer_size);
  ("roc_unix_peer_credentials", Host.unix_peer_credentials);
  ("roc_udp_send_to", Host.udp_send_to);
  ("roc_udp_set_broadcast", Host.udp_set_broadcast);
  ("roc_unix_connect", Host.unix_connect);
  ("roc_unix_listen", Host.unix_listen)
].
(** ** At the C boundary *)

(** The type of an argument or a result.  Integers keep their signs, which
    [Ty] leaves out. *)
Inductive CTy :=
  | CVoid
  | CInt (signed : bool) (bytes : Z)
  | CUsize
  | CPtr (pointee : string)
  | CVal (t : Ty).

Record CFn := mkCFn { c_params : list CTy; c_result : CTy }.

Definition bytes_of (n : Num) : Z := match n with U8 => 1 | U32 | I32 => 4 | U64 | I64 | F64 => 8 end.
Definition signed_of (n : Num) : bool := match n with I32 | I64 => true | _ => false end.

(** Insertion sort. *)
Section Sort.
Context {A : Type} (le : A -> A -> bool).
Fixpoint insert_by (x : A) (l : list A) : list A :=
  match l with [] => [x] | y :: r => if le x y then x :: l else y :: insert_by x r end.
Definition sort_by (l : list A) : list A := foldr insert_by [] l.
End Sort.

(** Tags come in the order of their names; fields in that of their
    alignments, the largest first, and then of their names. *)
Definition tag_before (a b : string * Ty) : bool := String.leb a.1 b.1.
Definition field_before (a b : string * Ty) : bool :=
  (align W32 b.2 <? align W32 a.2) || ((align W32 b.2 =? align W32 a.2) && String.leb a.1 b.1).

(** A union's 32-bit byte array is as long as its longest payload and
    aligned as the payloads need. *)
Definition union (vs : list (string * Ty)) : Ty :=
  Union vs (maximum (map (fun v => size W32 v.2) vs)) (Z.max 1 (maximum (map (fun v => align W32 v.2) vs))).

(** A union of one tag is its payload; one of several without payloads only
    has a tag. *)
Definition tagged (vs : list (string * option Ty)) : Ty :=
  match vs with
  | [(_, p)] => default Unit p
  | _ =>
      let sorted := sort_by tag_before (map (fun v => (v.1, default Unit v.2)) vs) in
      if forallb (fun v => match v.2 with None => true | Some _ => false end) vs then Enum sorted.*1 else union sorted
  end.

Fixpoint lower (t : RocTy) : Ty :=
  match t with
  | RUnit => Unit
  | RBool => Bool
  | RNum n => Int (bytes_of n)
  | RStr => Str
  | RList e => let e := lower e in ListOf (counted e) e
  | RBox _ => Box
  | RThunk => Callable
  | RRecord fs => Struct (sort_by field_before (map (fun f => (f.1, lower f.2)) fs))
  | RTags vs => tagged (map (fun v => (v.1, match v.2 with Some t => Some (lower t) | None => None end)) vs)
  | RTry ok err => tagged [("Ok", Some (lower ok)); ("Err", Some (lower err))]
  end.

Definition lower_c (t : RocTy) : CTy :=
  match t with
  | RUnit => CVoid
  | RNum F64 => CVal (Int 8)
  | RNum n => CInt (signed_of n) (bytes_of n)
  | t => CVal (lower t)
  end.

Definition lower_fn (f : RocFn) : CFn := mkCFn (map lower_c (roc_params f)) (lower_c (roc_result f)).

End RocInterface.
