(* ===== verification/AbiHosted.v ===== *)
(** * The hosted functions' declarations ([src/roc_platform_abi.rs])

    For every function the host supplies to a Roc program: its arguments as a
    struct, its symbol with its C types, and which of its arguments it is to
    release and how, with the aliases the host's own code uses for the types. *)
From S2P Require Import Prelude RocMem RocValues RocRefs AbiLayout AbiTypes AbiRelease RocInterface.
From stdpp Require Import strings pretty.
Local Open Scope string_scope.
Local Open Scope Z_scope.

Module AbiHosted.
Import RocMem RocValues AbiLayout RocInterface AbiTypes.

(** How a declaration says an owned argument is released: by its own
    [decref] (of [RocStr] or [RocListWith], or one generated for its type), or
    by one of the functions for boxes, function values and lists of counted
    elements. *)
Inductive Release :=
  | ByDecref
  | ByMethod (decref : list Z -> M unit)
  | ByBox
  | ByCallable
  | ByList (decref_list : RocListWith -> M unit).

(** [owned] has the position of each argument to release;
    [returns_reference] is the line saying that the result is owned by Roc. *)
Record Hosted := mkHosted {
  roc_name : string;
  params : list CTy;
  result : CTy;
  owned : list (nat * Release);
  returns_reference : bool
}.

(** ** Other names of types *)

Definition HostLogWriteArg2 : Ty := AnonStructBe833d82c728025b.
Definition HostSelectWaitArg0 : Ty := JoinableOrReadableOrReceivableOrSendableOrSignalCaughtOrStdinLineOrWritable.
Definition HostChannelNewOk : Ty := AnonStructDfa5943259877aa7.
Definition HostChannelReceiveErr : Ty := CancelledOrClosedOrTimedOut.
Definition HostFileDeleteResult : Ty := HostSignalCatchResult.
Definition HostFileRenameResult : Ty := HostSignalCatchResult.
Definition HostFileWriteResult : Ty := HostSignalCatchResult.
Definition HostListenerCloseResult : Ty := HostSignalCatchResult.
Definition HostSocketPeerAddrResult : Ty := HostSocketLocalAddrResult.
Definition HostSocketReadResult : Ty := HostFileReadResult.
Definition HostSocketReadAppendResult : Ty := HostFileReadResult.
Definition HostSocketReadIntoResult : Ty := HostFileReadResult.
Definition HostSocketSetTimeoutResult : Ty := HostSignalCatchResult.
Definition HostSocketShutdownResult : Ty := HostSignalCatchResult.
Definition HostSocketWriteResult : Ty := HostSignalCatchResult.
Definition HostStreamCopyBoth : Ty := AnonStruct91380971f8261c26.
Definition HostStreamCopyTo : Ty := AnonStruct3db9d1cc6db3a401.
Definition HostNoiseWrapResult : Ty := HostSocketAcceptResult.
Definition HostTcpConnectResult : Ty := HostSocketAcceptResult.
Definition HostTcpListenResult : Ty := HostSocketAcceptResult.
Definition HostTcpSetNodelayResult : Ty := HostSignalCatchResult.
Definition HostTlsAlpnProtocolResult : Ty := HostSocketLocalAddrResult.
Definition HostTlsConnectResult : Ty := HostSocketAcceptResult.
Definition HostTlsHandshakeResult : Ty := HostSignalCatchResult.
Definition HostTlsIgnoreUnexpectedEofResult : Ty := HostSignalCatchResult.
Definition HostTlsListenArg1 : Ty := AnonStructF1e164f99c294fde.
Definition HostTlsListenResult : Ty := HostSocketAcceptResult.
Definition HostTlsPeerCertificateValidForResult : Ty := HostFileExistsResult.
Definition HostTlsServerNameResult : Ty := HostSocketLocalAddrResult.
Definition HostTlsWrapClientResult : Ty := HostSocketAcceptResult.
Definition HostTlsWrapServerArg1 : Ty := AnonStructF1e164f99c294fde.
Definition HostTlsWrapServerResult : Ty := HostSocketAcceptResult.
Definition HostUdpBindResult : Ty := HostSocketAcceptResult.
Definition HostUdpConnectResult : Ty := HostSignalCatchResult.
Definition HostUdpJoinMulticastResult : Ty := HostSignalCatchResult.
Definition HostUdpLeaveMulticastResult : Ty := HostSignalCatchResult.
Definition HostUdpRecvFromOk : Ty := AnonStruct6954d79c85a0b6fd.
Definition HostUdpRecvOk : Ty := AnonStruct20e6ccaadf41c1a1.
Definition HostSocketSetKeepaliveResult : Ty := HostSignalCatchResult.
Definition HostSocketSetBufferSizeResult : Ty := HostSignalCatchResult.
Definition HostUnixPeerCredentialsOk : Ty := AnonStruct4a9a39232e571b2c.
Definition HostUdpSendToResult : Ty := HostSignalCatchResult.
Definition HostUdpSetBroadcastResult : Ty := HostSignalCatchResult.
Definition HostUnixConnectResult : Ty := HostSocketAcceptResult.
Definition HostUnixListenResult : Ty := HostSocketAcceptResult.

(** ** The arguments of each function, as a struct *)

Definition HostStderrLineArgs : Ty := Struct [("arg0", Str)].
Definition HostSignalCatchArgs : Ty := Struct [("arg0", ListOf false (Int 1))].
Definition HostStdoutLineArgs : Ty := Struct [("arg0", Str)].
Definition HostAeadOpenArgs : Ty := Struct [("arg0", Int 1); ("arg1", ListOf false (Int 1)); ("arg2", ListOf false (Int 1)); ("arg3", ListOf false (Int 1)); ("arg4", ListOf false (Int 1))].
Definition HostAeadSealArgs : Ty := Struct [("arg0", Int 1); ("arg1", ListOf false (Int 1)); ("arg2", ListOf false (Int 1)); ("arg3", ListOf false (Int 1)); ("arg4", ListOf false (Int 1))].
Definition HostConstantTimeEqArgs : Ty := Struct [("arg0", ListOf false (Int 1)); ("arg1", ListOf false (Int 1))].
Definition HostEd25519PublicKeyArgs : Ty := Struct [("arg0", ListOf false (Int 1))].
Definition HostEd25519SignArgs : Ty := Struct [("arg0", ListOf false (Int 1)); ("arg1", ListOf false (Int 1))].
Definition HostEd25519VerifyArgs : Ty := Struct [("arg0", ListOf false (Int 1)); ("arg1", ListOf false (Int 1)); ("arg2", ListOf false (Int 1))].
Definition HostX25519PublicKeyArgs : Ty := Struct [("arg0", ListOf false (Int 1))].
Definition HostX25519SharedArgs : Ty := Struct [("arg0", ListOf false (Int 1)); ("arg1", ListOf false (Int 1))].
Definition HostLogEnabledArgs : Ty := Struct [("arg0", Int 1)].
Definition HostLogWriteArgs : Ty := Struct [("arg0", Int 1); ("arg1", Str); ("arg2", ListOf true AnonStructBe833d82c728025b)].
Definition HostTaskSpawnArgs : Ty := Struct [("arg0", Callable)].
Definition HostTaskFinishArgs : Ty := Struct [("arg0", Callable)].
Definition HostTaskJoinArgs : Ty := Struct [("arg0", Box)].
Definition HostTaskCancelArgs : Ty := Struct [("arg0", Box)].
Definition HostTaskIsFinishedArgs : Ty := Struct [("arg0", Box)].
Definition HostGroupAddArgs : Ty := Struct [("arg0", Box); ("arg1", Box)].
Definition HostGroupCancelArgs : Ty := Struct [("arg0", Box)].
Definition HostGroupCloseArgs : Ty := Struct [("arg0", Box); ("arg1", Bool)].
Definition HostChannelCloseArgs : Ty := Struct [("arg0", Box)].
Definition HostSelectWaitArgs : Ty := Struct [("arg0", ListOf true JoinableOrReadableOrReceivableOrSendableOrSignalCaughtOrStdinLineOrWritable); ("arg1", Int 8)].
Definition HostChannelNewArgs : Ty := Struct [("arg0", Int 8)].
Definition HostChannelReceiveArgs : Ty := Struct [("arg0", Box); ("arg1", Int 8)].
Definition HostChannelSendArgs : Ty := Struct [("arg0", Box); ("arg1", Callable); ("arg2", Bool)].
Definition HostDnsResolveArgs : Ty := Struct [("arg0", Str); ("arg1", Int 8)].
Definition HostEnvVarArgs : Ty := Struct [("arg0", Str)].
Definition HostFileDeleteArgs : Ty := Struct [("arg0", Str)].
Definition HostFileExistsArgs : Ty := Struct [("arg0", Str)].
Definition HostFileReadArgs : Ty := Struct [("arg0", Str)].
Definition HostFileRenameArgs : Ty := Struct [("arg0", Str); ("arg1", Str)].
Definition HostFileWriteArgs : Ty := Struct [("arg0", Str); ("arg1", ListOf false (Int 1)); ("arg2", Int 1); ("arg3", Int 4)].
Definition HostRandomBytesArgs : Ty := Struct [("arg0", Int 8)].
Definition HostTimeSleepNsArgs : Ty := Struct [("arg0", Int 8)].
Definition HostSocketAbortArgs : Ty := Struct [("arg0", Box)].
Definition HostSocketAcceptArgs : Ty := Struct [("arg0", Box)].
Definition HostListenerCloseArgs : Ty := Struct [("arg0", Box)].
Definition HostSocketLocalAddrArgs : Ty := Struct [("arg0", Box)].
Definition HostSocketPeerAddrArgs : Ty := Struct [("arg0", Box)].
Definition HostSocketReadArgs : Ty := Struct [("arg0", Box); ("arg1", Int 8)].
Definition HostSocketTryReadArgs : Ty := Struct [("arg0", Box); ("arg1", Int 8)].
Definition HostSocketTryAcceptArgs : Ty := Struct [("arg0", Box)].
Definition HostSocketReadAppendArgs : Ty := Struct [("arg0", Box); ("arg1", ListOf false (Int 1)); ("arg2", Int 8)].
Definition HostSocketReadIntoArgs : Ty := Struct [("arg0", Box); ("arg1", ListOf false (Int 1)); ("arg2", Int 8)].
Definition HostSocketSetTimeoutArgs : Ty := Struct [("arg0", Box); ("arg1", Int 1); ("arg2", Int 8)].
Definition HostSocketShutdownArgs : Ty := Struct [("arg0", Box); ("arg1", Int 1)].
Definition HostSocketWriteArgs : Ty := Struct [("arg0", Box); ("arg1", ListOf false (Int 1))].
Definition HostStreamCopyBothArgs : Ty := Struct [("arg0", Box); ("arg1", Box)].
Definition HostStreamCopyToArgs : Ty := Struct [("arg0", Box); ("arg1", Box); ("arg2", ListOf false (Int 1)); ("arg3", ExactlyOrUntilEnd); ("arg4", Int 8)].
Definition HostNoiseWrapArgs : Ty := Struct [("arg0", Box); ("arg1", Int 1); ("arg2", ListOf false (Int 1)); ("arg3", Int 8); ("arg4", ListOf false (Int 1)); ("arg5", Int 8)].
Definition HostTcpConnectArgs : Ty := Struct [("arg0", Str); ("arg1", Int 8); ("arg2", Str); ("arg3", Str)].
Definition HostTcpListenArgs : Ty := Struct [("arg0", Str); ("arg1", Int 8); ("arg2", Int 8); ("arg3", Int 4); ("arg4", Bool)].
Definition HostTcpSetNodelayArgs : Ty := Struct [("arg0", Box); ("arg1", Bool)].
Definition HostTlsAlpnProtocolArgs : Ty := Struct [("arg0", Box)].
Definition HostTlsConnectArgs : Ty := Struct [("arg0", Str); ("arg1", Str); ("arg2", Str); ("arg3", ListOf true Str); ("arg4", Int 8); ("arg5", Str); ("arg6", Str)].
Definition HostTlsHandshakeArgs : Ty := Struct [("arg0", Box)].
Definition HostTlsIgnoreUnexpectedEofArgs : Ty := Struct [("arg0", Box); ("arg1", Bool)].
Definition HostTlsListenArgs : Ty := Struct [("arg0", Str); ("arg1", ListOf true AnonStructF1e164f99c294fde); ("arg2", ListOf true Str); ("arg3", Int 8); ("arg4", Int 8); ("arg5", Int 8); ("arg6", Str); ("arg7", Int 1)].
Definition HostTlsPeerCertificatesArgs : Ty := Struct [("arg0", Box)].
Definition HostTlsPeerCertificateValidForArgs : Ty := Struct [("arg0", Box); ("arg1", Str)].
Definition HostTlsServerNameArgs : Ty := Struct [("arg0", Box)].
Definition HostTlsWrapClientArgs : Ty := Struct [("arg0", Box); ("arg1", Str); ("arg2", Str); ("arg3", ListOf true Str); ("arg4", Int 8); ("arg5", Str); ("arg6", Str)].
Definition HostTlsWrapServerArgs : Ty := Struct [("arg0", Box); ("arg1", ListOf true AnonStructF1e164f99c294fde); ("arg2", ListOf true Str); ("arg3", Int 8); ("arg4", Str); ("arg5", Int 1)].
Definition HostUdpBindArgs : Ty := Struct [("arg0", Str); ("arg1", Bool)].
Definition HostUdpConnectArgs : Ty := Struct [("arg0", Box); ("arg1", Str)].
Definition HostUdpJoinMulticastArgs : Ty := Struct [("arg0", Box); ("arg1", Str)].
Definition HostUdpLeaveMulticastArgs : Ty := Struct [("arg0", Box); ("arg1", Str)].
Definition HostUdpRecvFromArgs : Ty := Struct [("arg0", Box); ("arg1", Int 8)].
Definition HostUdpRecvArgs : Ty := Struct [("arg0", Box); ("arg1", Int 8)].
Definition HostSocketSetKeepaliveArgs : Ty := Struct [("arg0", Box); ("arg1", Bool); ("arg2", Int 8); ("arg3", Int 8); ("arg4", Int 4)].
Definition HostSocketSetBufferSizeArgs : Ty := Struct [("arg0", Box); ("arg1", Int 1); ("arg2", Int 8)].
Definition HostSocketBufferSizeArgs : Ty := Struct [("arg0", Box); ("arg1", Int 1)].
Definition HostUnixPeerCredentialsArgs : Ty := Struct [("arg0", Box)].
Definition HostUdpSendToArgs : Ty := Struct [("arg0", Box); ("arg1", ListOf false (Int 1)); ("arg2", Str)].
Definition HostUdpSetBroadcastArgs : Ty := Struct [("arg0", Box); ("arg1", Bool)].
Definition HostUnixConnectArgs : Ty := Struct [("arg0", Str); ("arg1", Int 8)].
Definition HostUnixListenArgs : Ty := Struct [("arg0", Str); ("arg1", Int 8); ("arg2", Int 8)].

(** By function. *)
Definition args_structs : list (string * Ty) := [
  ("stderr_line", HostStderrLineArgs);
  ("signal_catch", HostSignalCatchArgs);
  ("stdout_line", HostStdoutLineArgs);
  ("aead_open", HostAeadOpenArgs);
  ("aead_seal", HostAeadSealArgs);
  ("constant_time_eq", HostConstantTimeEqArgs);
  ("ed25519_public_key", HostEd25519PublicKeyArgs);
  ("ed25519_sign", HostEd25519SignArgs);
  ("ed25519_verify", HostEd25519VerifyArgs);
  ("x25519_public_key", HostX25519PublicKeyArgs);
  ("x25519_shared", HostX25519SharedArgs);
  ("log_enabled", HostLogEnabledArgs);
  ("log_write", HostLogWriteArgs);
  ("task_spawn", HostTaskSpawnArgs);
  ("task_finish", HostTaskFinishArgs);
  ("task_join", HostTaskJoinArgs);
  ("task_cancel", HostTaskCancelArgs);
  ("task_is_finished", HostTaskIsFinishedArgs);
  ("group_add", HostGroupAddArgs);
  ("group_cancel", HostGroupCancelArgs);
  ("group_close", HostGroupCloseArgs);
  ("channel_close", HostChannelCloseArgs);
  ("select_wait", HostSelectWaitArgs);
  ("channel_new", HostChannelNewArgs);
  ("channel_receive", HostChannelReceiveArgs);
  ("channel_send", HostChannelSendArgs);
  ("dns_resolve", HostDnsResolveArgs);
  ("env_var", HostEnvVarArgs);
  ("file_delete", HostFileDeleteArgs);
  ("file_exists", HostFileExistsArgs);
  ("file_read", HostFileReadArgs);
  ("file_rename", HostFileRenameArgs);
  ("file_write", HostFileWriteArgs);
  ("random_bytes", HostRandomBytesArgs);
  ("time_sleep_ns", HostTimeSleepNsArgs);
  ("socket_abort", HostSocketAbortArgs);
  ("socket_accept", HostSocketAcceptArgs);
  ("listener_close", HostListenerCloseArgs);
  ("socket_local_addr", HostSocketLocalAddrArgs);
  ("socket_peer_addr", HostSocketPeerAddrArgs);
  ("socket_read", HostSocketReadArgs);
  ("socket_try_read", HostSocketTryReadArgs);
  ("socket_try_accept", HostSocketTryAcceptArgs);
  ("socket_read_append", HostSocketReadAppendArgs);
  ("socket_read_into", HostSocketReadIntoArgs);
  ("socket_set_timeout", HostSocketSetTimeoutArgs);
  ("socket_shutdown", HostSocketShutdownArgs);
  ("socket_write", HostSocketWriteArgs);
  ("stream_copy_both", HostStreamCopyBothArgs);
  ("stream_copy_to", HostStreamCopyToArgs);
  ("noise_wrap", HostNoiseWrapArgs);
  ("tcp_connect", HostTcpConnectArgs);
  ("tcp_listen", HostTcpListenArgs);
  ("tcp_set_nodelay", HostTcpSetNodelayArgs);
  ("tls_alpn_protocol", HostTlsAlpnProtocolArgs);
  ("tls_connect", HostTlsConnectArgs);
  ("tls_handshake", HostTlsHandshakeArgs);
  ("tls_ignore_unexpected_eof", HostTlsIgnoreUnexpectedEofArgs);
  ("tls_listen", HostTlsListenArgs);
  ("tls_peer_certificates", HostTlsPeerCertificatesArgs);
  ("tls_peer_certificate_valid_for", HostTlsPeerCertificateValidForArgs);
  ("tls_server_name", HostTlsServerNameArgs);
  ("tls_wrap_client", HostTlsWrapClientArgs);
  ("tls_wrap_server", HostTlsWrapServerArgs);
  ("udp_bind", HostUdpBindArgs);
  ("udp_connect", HostUdpConnectArgs);
  ("udp_join_multicast", HostUdpJoinMulticastArgs);
  ("udp_leave_multicast", HostUdpLeaveMulticastArgs);
  ("udp_recv_from", HostUdpRecvFromArgs);
  ("udp_recv", HostUdpRecvArgs);
  ("socket_set_keepalive", HostSocketSetKeepaliveArgs);
  ("socket_set_buffer_size", HostSocketSetBufferSizeArgs);
  ("socket_buffer_size", HostSocketBufferSizeArgs);
  ("unix_peer_credentials", HostUnixPeerCredentialsArgs);
  ("udp_send_to", HostUdpSendToArgs);
  ("udp_set_broadcast", HostUdpSetBroadcastArgs);
  ("unix_connect", HostUnixConnectArgs);
  ("unix_listen", HostUnixListenArgs)
].

(** ** The symbols the host exports *)

Module Declared.
Definition roc_stderr_line : Hosted := mkHosted "stderr_line" [CVal Str] (CVal HostStderrLineResult) [(0%nat, ByDecref)] true.
Definition roc_stdin_line : Hosted := mkHosted "stdin_line" [] (CVal HostStdinLineResult) [] true.
Definition roc_stdin_read_line : Hosted := mkHosted "stdin_read_line" [] (CVal EndOrFailedOrLineOrTooLong) [] true.
Definition roc_stdin_try_line : Hosted := mkHosted "stdin_try_line" [] (CVal EndOrFailedOrLineOrNotReadyOrTooLong) [] true.
Definition roc_signal_catch : Hosted := mkHosted "signal_catch" [CVal (ListOf false (Int 1))] (CVal HostSignalCatchResult) [(0%nat, ByDecref)] true.
Definition roc_signal_try_next : Hosted := mkHosted "signal_try_next" [] (CVal GotOrNotReady) [] false.
Definition roc_signal_next : Hosted := mkHosted "signal_next" [] (CVal CancelledOrGot) [] false.
Definition roc_stdout_line : Hosted := mkHosted "stdout_line" [CVal Str] (CVal HostStdoutLineResult) [(0%nat, ByDecref)] true.
Definition roc_aead_open : Hosted := mkHosted "aead_open" [CInt false 1; CVal (ListOf false (Int 1)); CVal (ListOf false (Int 1)); CVal (ListOf false (Int 1)); CVal (ListOf false (Int 1))] (CVal InvalidOrOpened) [(1%nat, ByDecref); (2%nat, ByDecref); (3%nat, ByDecref); (4%nat, ByDecref)] true.
Definition roc_aead_seal : Hosted := mkHosted "aead_seal" [CInt false 1; CVal (ListOf false (Int 1)); CVal (ListOf false (Int 1)); CVal (ListOf false (Int 1)); CVal (ListOf false (Int 1))] (CVal (ListOf false (Int 1))) [(1%nat, ByDecref); (2%nat, ByDecref); (3%nat, ByDecref); (4%nat, ByDecref)] true.
Definition roc_constant_time_eq : Hosted := mkHosted "constant_time_eq" [CVal (ListOf false (Int 1)); CVal (ListOf false (Int 1))] (CVal Bool) [(0%nat, ByDecref); (1%nat, ByDecref)] false.
Definition roc_ed25519_public_key : Hosted := mkHosted "ed25519_public_key" [CVal (ListOf false (Int 1))] (CVal (ListOf false (Int 1))) [(0%nat, ByDecref)] true.
Definition roc_ed25519_sign : Hosted := mkHosted "ed25519_sign" [CVal (ListOf false (Int 1)); CVal (ListOf false (Int 1))] (CVal (ListOf false (Int 1))) [(0%nat, ByDecref); (1%nat, ByDecref)] true.
Definition roc_ed25519_verify : Hosted := mkHosted "ed25519_verify" [CVal (ListOf false (Int 1)); CVal (ListOf false (Int 1)); CVal (ListOf false (Int 1))] (CVal Bool) [(0%nat, ByDecref); (1%nat, ByDecref); (2%nat, ByDecref)] false.
Definition roc_x25519_public_key : Hosted := mkHosted "x25519_public_key" [CVal (ListOf false (Int 1))] (CVal (ListOf false (Int 1))) [(0%nat, ByDecref)] true.
Definition roc_x25519_shared : Hosted := mkHosted "x25519_shared" [CVal (ListOf false (Int 1)); CVal (ListOf false (Int 1))] (CVal LowOrderOrShared) [(0%nat, ByDecref); (1%nat, ByDecref)] true.
Definition roc_log_enabled : Hosted := mkHosted "log_enabled" [CInt false 1] (CVal Bool) [] false.
Definition roc_log_write : Hosted := mkHosted "log_write" [CInt false 1; CVal Str; CVal (ListOf true AnonStructBe833d82c728025b)] CVoid [(1%nat, ByDecref); (2%nat, ByList decref_list_of_anon_struct_be833d82c728025b)] false.
Definition roc_task_spawn : Hosted := mkHosted "task_spawn" [CVal Callable] (CVal HostTaskSpawnResult) [(0%nat, ByCallable)] true.
Definition roc_task_finish : Hosted := mkHosted "task_finish" [CVal Callable] (CVal Bool) [(0%nat, ByCallable)] false.
Definition roc_task_join : Hosted := mkHosted "task_join" [CVal Box] (CVal HostTaskJoinResult) [(0%nat, ByBox)] true.
Definition roc_task_cancel : Hosted := mkHosted "task_cancel" [CVal Box] CVoid [(0%nat, ByBox)] false.
Definition roc_task_is_cancelled : Hosted := mkHosted "task_is_cancelled" [] (CVal Bool) [] false.
Definition roc_task_is_finished : Hosted := mkHosted "task_is_finished" [CVal Box] (CVal Bool) [(0%nat, ByBox)] false.
Definition roc_task_yield : Hosted := mkHosted "task_yield" [] CVoid [] false.
Definition roc_group_new : Hosted := mkHosted "group_new" [] (CVal HostGroupNewResult) [] true.
Definition roc_group_add : Hosted := mkHosted "group_add" [CVal Box; CVal Box] CVoid [(0%nat, ByBox); (1%nat, ByBox)] false.
Definition roc_group_cancel : Hosted := mkHosted "group_cancel" [CVal Box] CVoid [(0%nat, ByBox)] false.
Definition roc_group_close : Hosted := mkHosted "group_close" [CVal Box; CVal Bool] CVoid [(0%nat, ByBox)] false.
Definition roc_channel_close : Hosted := mkHosted "channel_close" [CVal Box] CVoid [(0%nat, ByBox)] false.
Definition roc_select_wait : Hosted := mkHosted "select_wait" [CVal (ListOf true JoinableOrReadableOrReceivableOrSendableOrSignalCaughtOrStdinLineOrWritable); CInt false 8] (CVal CancelledOrReadyOrSourceTimedOutOrTimedOut) [(0%nat, ByList decref_list_of_joinable_or_readable_or_receivable_or_sendable_or_signal_caught_or_stdin_line_or_writable)] false.
Definition roc_select_turn : Hosted := mkHosted "select_turn" [] (CInt false 8) [] false.
Definition roc_channel_new : Hosted := mkHosted "channel_new" [CInt false 8] (CVal HostChannelNewResult) [] true.
Definition roc_channel_receive : Hosted := mkHosted "channel_receive" [CVal Box; CInt false 8] (CVal HostChannelReceiveResult) [(0%nat, ByBox)] true.
Definition roc_channel_send : Hosted := mkHosted "channel_send" [CVal Box; CVal Callable; CVal Bool] (CVal CancelledOrClosedOrFullOrSent) [(0%nat, ByBox); (1%nat, ByCallable)] false.
Definition roc_dns_resolve : Hosted := mkHosted "dns_resolve" [CVal Str; CInt false 8] (CVal HostDnsResolveResult) [(0%nat, ByDecref)] true.
Definition roc_env_var : Hosted := mkHosted "env_var" [CVal Str] (CVal FoundOrMissingOrNotUtf8) [(0%nat, ByDecref)] true.
Definition roc_file_delete : Hosted := mkHosted "file_delete" [CVal Str] (CVal HostSignalCatchResult) [(0%nat, ByDecref)] true.
Definition roc_file_exists : Hosted := mkHosted "file_exists" [CVal Str] (CVal HostFileExistsResult) [(0%nat, ByDecref)] true.
Definition roc_file_read : Hosted := mkHosted "file_read" [CVal Str] (CVal HostFileReadResult) [(0%nat, ByDecref)] true.
Definition roc_file_rename : Hosted := mkHosted "file_rename" [CVal Str; CVal Str] (CVal HostSignalCatchResult) [(0%nat, ByDecref); (1%nat, ByDecref)] true.
Definition roc_file_write : Hosted := mkHosted "file_write" [CVal Str; CVal (ListOf false (Int 1)); CInt false 1; CInt false 4] (CVal HostSignalCatchResult) [(0%nat, ByDecref); (1%nat, ByDecref)] true.
Definition roc_random_bytes : Hosted := mkHosted "random_bytes" [CInt false 8] (CVal BytesOrOutOfMemory) [] true.
Definition roc_time_now_ns : Hosted := mkHosted "time_now_ns" [] (CInt false 8) [] false.
Definition roc_time_sleep_ns : Hosted := mkHosted "time_sleep_ns" [CInt false 8] (CVal Bool) [] false.
Definition roc_time_utc_now_ns : Hosted := mkHosted "time_utc_now_ns" [] (CInt true 8) [] false.
Definition roc_socket_abort : Hosted := mkHosted "socket_abort" [CVal Box] CVoid [(0%nat, ByBox)] false.
Definition roc_socket_accept : Hosted := mkHosted "socket_accept" [CVal Box] (CVal HostSocketAcceptResult) [(0%nat, ByBox)] true.
Definition roc_listener_close : Hosted := mkHosted "listener_close" [CVal Box] (CVal HostSignalCatchResult) [(0%nat, ByBox)] true.
Definition roc_socket_local_addr : Hosted := mkHosted "socket_local_addr" [CVal Box] (CVal HostSocketLocalAddrResult) [(0%nat, ByBox)] true.
Definition roc_socket_peer_addr : Hosted := mkHosted "socket_peer_addr" [CVal Box] (CVal HostSocketLocalAddrResult) [(0%nat, ByBox)] true.
Definition roc_socket_read : Hosted := mkHosted "socket_read" [CVal Box; CInt false 8] (CVal HostFileReadResult) [(0%nat, ByBox)] true.
Definition roc_socket_try_read : Hosted := mkHosted "socket_try_read" [CVal Box; CInt false 8] (CVal DataOrFailedOrNotReady) [(0%nat, ByBox)] true.
Definition roc_socket_try_accept : Hosted := mkHosted "socket_try_accept" [CVal Box] (CVal AcceptedOrFailedOrNotReady) [(0%nat, ByBox)] true.
Definition roc_socket_read_append : Hosted := mkHosted "socket_read_append" [CVal Box; CVal (ListOf false (Int 1)); CInt false 8] (CVal HostFileReadResult) [(0%nat, ByBox); (1%nat, ByDecref)] true.
Definition roc_socket_read_into : Hosted := mkHosted "socket_read_into" [CVal Box; CVal (ListOf false (Int 1)); CInt false 8] (CVal HostFileReadResult) [(0%nat, ByBox); (1%nat, ByDecref)] true.
Definition roc_socket_set_timeout : Hosted := mkHosted "socket_set_timeout" [CVal Box; CInt false 1; CInt false 8] (CVal HostSignalCatchResult) [(0%nat, ByBox)] true.
Definition roc_socket_shutdown : Hosted := mkHosted "socket_shutdown" [CVal Box; CInt false 1] (CVal HostSignalCatchResult) [(0%nat, ByBox)] true.
Definition roc_socket_write : Hosted := mkHosted "socket_write" [CVal Box; CVal (ListOf false (Int 1))] (CVal HostSignalCatchResult) [(0%nat, ByBox); (1%nat, ByDecref)] true.
Definition roc_stream_copy_both : Hosted := mkHosted "stream_copy_both" [CVal Box; CVal Box] (CVal AnonStruct91380971f8261c26) [(0%nat, ByBox); (1%nat, ByBox)] true.
Definition roc_stream_copy_to : Hosted := mkHosted "stream_copy_to" [CVal Box; CVal Box; CVal (ListOf false (Int 1)); CVal ExactlyOrUntilEnd; CInt false 8] (CVal AnonStruct3db9d1cc6db3a401) [(0%nat, ByBox); (1%nat, ByBox); (2%nat, ByDecref); (3%nat, ByMethod ExactlyOrUntilEnd_decref)] true.
Definition roc_noise_wrap : Hosted := mkHosted "noise_wrap" [CVal Box; CInt false 1; CVal (ListOf false (Int 1)); CInt false 8; CVal (ListOf false (Int 1)); CInt false 8] (CVal HostSocketAcceptResult) [(0%nat, ByBox); (2%nat, ByDecref); (4%nat, ByDecref)] true.
Definition roc_tcp_connect : Hosted := mkHosted "tcp_connect" [CVal Str; CInt false 8; CVal Str; CVal Str] (CVal HostSocketAcceptResult) [(0%nat, ByDecref); (2%nat, ByDecref); (3%nat, ByDecref)] true.
Definition roc_tcp_listen : Hosted := mkHosted "tcp_listen" [CVal Str; CInt false 8; CInt false 8; CInt false 4; CVal Bool] (CVal HostSocketAcceptResult) [(0%nat, ByDecref)] true.
Definition roc_tcp_set_nodelay : Hosted := mkHosted "tcp_set_nodelay" [CVal Box; CVal Bool] (CVal HostSignalCatchResult) [(0%nat, ByBox)] true.
Definition roc_tls_alpn_protocol : Hosted := mkHosted "tls_alpn_protocol" [CVal Box] (CVal HostSocketLocalAddrResult) [(0%nat, ByBox)] true.
Definition roc_tls_connect : Hosted := mkHosted "tls_connect" [CVal Str; CVal Str; CVal Str; CVal (ListOf true Str); CInt false 8; CVal Str; CVal Str] (CVal HostSocketAcceptResult) [(0%nat, ByDecref); (1%nat, ByDecref); (2%nat, ByDecref); (3%nat, ByList decref_list_of_str); (5%nat, ByDecref); (6%nat, ByDecref)] true.
Definition roc_tls_handshake : Hosted := mkHosted "tls_handshake" [CVal Box] (CVal HostSignalCatchResult) [(0%nat, ByBox)] true.
Definition roc_tls_ignore_unexpected_eof : Hosted := mkHosted "tls_ignore_unexpected_eof" [CVal Box; CVal Bool] (CVal HostSignalCatchResult) [(0%nat, ByBox)] true.
Definition roc_tls_listen : Hosted := mkHosted "tls_listen" [CVal Str; CVal (ListOf true AnonStructF1e164f99c294fde); CVal (ListOf true Str); CInt false 8; CInt false 8; CInt false 8; CVal Str; CInt false 1] (CVal HostSocketAcceptResult) [(0%nat, ByDecref); (1%nat, ByList decref_list_of_anon_struct_f1e164f99c294fde); (2%nat, ByList decref_list_of_str); (6%nat, ByDecref)] true.
Definition roc_tls_peer_certificates : Hosted := mkHosted "tls_peer_certificates" [CVal Box] (CVal HostTlsPeerCertificatesResult) [(0%nat, ByBox)] true.
Definition roc_tls_peer_certificate_valid_for : Hosted := mkHosted "tls_peer_certificate_valid_for" [CVal Box; CVal Str] (CVal HostFileExistsResult) [(0%nat, ByBox); (1%nat, ByDecref)] true.
Definition roc_tls_server_name : Hosted := mkHosted "tls_server_name" [CVal Box] (CVal HostSocketLocalAddrResult) [(0%nat, ByBox)] true.
Definition roc_tls_wrap_client : Hosted := mkHosted "tls_wrap_client" [CVal Box; CVal Str; CVal Str; CVal (ListOf true Str); CInt false 8; CVal Str; CVal Str] (CVal HostSocketAcceptResult) [(0%nat, ByBox); (1%nat, ByDecref); (2%nat, ByDecref); (3%nat, ByList decref_list_of_str); (5%nat, ByDecref); (6%nat, ByDecref)] true.
Definition roc_tls_wrap_server : Hosted := mkHosted "tls_wrap_server" [CVal Box; CVal (ListOf true AnonStructF1e164f99c294fde); CVal (ListOf true Str); CInt false 8; CVal Str; CInt false 1] (CVal HostSocketAcceptResult) [(0%nat, ByBox); (1%nat, ByList decref_list_of_anon_struct_f1e164f99c294fde); (2%nat, ByList decref_list_of_str); (4%nat, ByDecref)] true.
Definition roc_udp_bind : Hosted := mkHosted "udp_bind" [CVal Str; CVal Bool] (CVal HostSocketAcceptResult) [(0%nat, ByDecref)] true.
Definition roc_udp_connect : Hosted := mkHosted "udp_connect" [CVal Box; CVal Str] (CVal HostSignalCatchResult) [(0%nat, ByBox); (1%nat, ByDecref)] true.
Definition roc_udp_join_multicast : Hosted := mkHosted "udp_join_multicast" [CVal Box; CVal Str] (CVal HostSignalCatchResult) [(0%nat, ByBox); (1%nat, ByDecref)] true.
Definition roc_udp_leave_multicast : Hosted := mkHosted "udp_leave_multicast" [CVal Box; CVal Str] (CVal HostSignalCatchResult) [(0%nat, ByBox); (1%nat, ByDecref)] true.
Definition roc_udp_recv_from : Hosted := mkHosted "udp_recv_from" [CVal Box; CInt false 8] (CVal HostUdpRecvFromResult) [(0%nat, ByBox)] true.
Definition roc_udp_recv : Hosted := mkHosted "udp_recv" [CVal Box; CInt false 8] (CVal HostUdpRecvResult) [(0%nat, ByBox)] true.
Definition roc_socket_set_keepalive : Hosted := mkHosted "socket_set_keepalive" [CVal Box; CVal Bool; CInt false 8; CInt false 8; CInt false 4] (CVal HostSignalCatchResult) [(0%nat, ByBox)] true.
Definition roc_socket_set_buffer_size : Hosted := mkHosted "socket_set_buffer_size" [CVal Box; CInt false 1; CInt false 8] (CVal HostSignalCatchResult) [(0%nat, ByBox)] true.
Definition roc_socket_buffer_size : Hosted := mkHosted "socket_buffer_size" [CVal Box; CInt false 1] (CVal HostSocketBufferSizeResult) [(0%nat, ByBox)] true.
Definition roc_unix_peer_credentials : Hosted := mkHosted "unix_peer_credentials" [CVal Box] (CVal HostUnixPeerCredentialsResult) [(0%nat, ByBox)] true.
Definition roc_udp_send_to : Hosted := mkHosted "udp_send_to" [CVal Box; CVal (ListOf false (Int 1)); CVal Str] (CVal HostSignalCatchResult) [(0%nat, ByBox); (1%nat, ByDecref); (2%nat, ByDecref)] true.
Definition roc_udp_set_broadcast : Hosted := mkHosted "udp_set_broadcast" [CVal Box; CVal Bool] (CVal HostSignalCatchResult) [(0%nat, ByBox)] true.
Definition roc_unix_connect : Hosted := mkHosted "unix_connect" [CVal Str; CInt false 8] (CVal HostSocketAcceptResult) [(0%nat, ByDecref)] true.
Definition roc_unix_listen : Hosted := mkHosted "unix_listen" [CVal Str; CInt false 8; CInt false 8] (CVal HostSocketAcceptResult) [(0%nat, ByDecref)] true.
End Declared.

Definition declared : list (string * Hosted) := [
  ("roc_stderr_line", Declared.roc_stderr_line);
  ("roc_stdin_line", Declared.roc_stdin_line);
  ("roc_stdin_read_line", Declared.roc_stdin_read_line);
  ("roc_stdin_try_line", Declared.roc_stdin_try_line);
  ("roc_signal_catch", Declared.roc_signal_catch);
  ("roc_signal_try_next", Declared.roc_signal_try_next);
  ("roc_signal_next", Declared.roc_signal_next);
  ("roc_stdout_line", Declared.roc_stdout_line);
  ("roc_aead_open", Declared.roc_aead_open);
  ("roc_aead_seal", Declared.roc_aead_seal);
  ("roc_constant_time_eq", Declared.roc_constant_time_eq);
  ("roc_ed25519_public_key", Declared.roc_ed25519_public_key);
  ("roc_ed25519_sign", Declared.roc_ed25519_sign);
  ("roc_ed25519_verify", Declared.roc_ed25519_verify);
  ("roc_x25519_public_key", Declared.roc_x25519_public_key);
  ("roc_x25519_shared", Declared.roc_x25519_shared);
  ("roc_log_enabled", Declared.roc_log_enabled);
  ("roc_log_write", Declared.roc_log_write);
  ("roc_task_spawn", Declared.roc_task_spawn);
  ("roc_task_finish", Declared.roc_task_finish);
  ("roc_task_join", Declared.roc_task_join);
  ("roc_task_cancel", Declared.roc_task_cancel);
  ("roc_task_is_cancelled", Declared.roc_task_is_cancelled);
  ("roc_task_is_finished", Declared.roc_task_is_finished);
  ("roc_task_yield", Declared.roc_task_yield);
  ("roc_group_new", Declared.roc_group_new);
  ("roc_group_add", Declared.roc_group_add);
  ("roc_group_cancel", Declared.roc_group_cancel);
  ("roc_group_close", Declared.roc_group_close);
  ("roc_channel_close", Declared.roc_channel_close);
  ("roc_select_wait", Declared.roc_select_wait);
  ("roc_select_turn", Declared.roc_select_turn);
  ("roc_channel_new", Declared.roc_channel_new);
  ("roc_channel_receive", Declared.roc_channel_receive);
  ("roc_channel_send", Declared.roc_channel_send);
  ("roc_dns_resolve", Declared.roc_dns_resolve);
  ("roc_env_var", Declared.roc_env_var);
  ("roc_file_delete", Declared.roc_file_delete);
  ("roc_file_exists", Declared.roc_file_exists);
  ("roc_file_read", Declared.roc_file_read);
  ("roc_file_rename", Declared.roc_file_rename);
  ("roc_file_write", Declared.roc_file_write);
  ("roc_random_bytes", Declared.roc_random_bytes);
  ("roc_time_now_ns", Declared.roc_time_now_ns);
  ("roc_time_sleep_ns", Declared.roc_time_sleep_ns);
  ("roc_time_utc_now_ns", Declared.roc_time_utc_now_ns);
  ("roc_socket_abort", Declared.roc_socket_abort);
  ("roc_socket_accept", Declared.roc_socket_accept);
  ("roc_listener_close", Declared.roc_listener_close);
  ("roc_socket_local_addr", Declared.roc_socket_local_addr);
  ("roc_socket_peer_addr", Declared.roc_socket_peer_addr);
  ("roc_socket_read", Declared.roc_socket_read);
  ("roc_socket_try_read", Declared.roc_socket_try_read);
  ("roc_socket_try_accept", Declared.roc_socket_try_accept);
  ("roc_socket_read_append", Declared.roc_socket_read_append);
  ("roc_socket_read_into", Declared.roc_socket_read_into);
  ("roc_socket_set_timeout", Declared.roc_socket_set_timeout);
  ("roc_socket_shutdown", Declared.roc_socket_shutdown);
  ("roc_socket_write", Declared.roc_socket_write);
  ("roc_stream_copy_both", Declared.roc_stream_copy_both);
  ("roc_stream_copy_to", Declared.roc_stream_copy_to);
  ("roc_noise_wrap", Declared.roc_noise_wrap);
  ("roc_tcp_connect", Declared.roc_tcp_connect);
  ("roc_tcp_listen", Declared.roc_tcp_listen);
  ("roc_tcp_set_nodelay", Declared.roc_tcp_set_nodelay);
  ("roc_tls_alpn_protocol", Declared.roc_tls_alpn_protocol);
  ("roc_tls_connect", Declared.roc_tls_connect);
  ("roc_tls_handshake", Declared.roc_tls_handshake);
  ("roc_tls_ignore_unexpected_eof", Declared.roc_tls_ignore_unexpected_eof);
  ("roc_tls_listen", Declared.roc_tls_listen);
  ("roc_tls_peer_certificates", Declared.roc_tls_peer_certificates);
  ("roc_tls_peer_certificate_valid_for", Declared.roc_tls_peer_certificate_valid_for);
  ("roc_tls_server_name", Declared.roc_tls_server_name);
  ("roc_tls_wrap_client", Declared.roc_tls_wrap_client);
  ("roc_tls_wrap_server", Declared.roc_tls_wrap_server);
  ("roc_udp_bind", Declared.roc_udp_bind);
  ("roc_udp_connect", Declared.roc_udp_connect);
  ("roc_udp_join_multicast", Declared.roc_udp_join_multicast);
  ("roc_udp_leave_multicast", Declared.roc_udp_leave_multicast);
  ("roc_udp_recv_from", Declared.roc_udp_recv_from);
  ("roc_udp_recv", Declared.roc_udp_recv);
  ("roc_socket_set_keepalive", Declared.roc_socket_set_keepalive);
  ("roc_socket_set_buffer_size", Declared.roc_socket_set_buffer_size);
  ("roc_socket_buffer_size", Declared.roc_socket_buffer_size);
  ("roc_unix_peer_credentials", Declared.roc_unix_peer_credentials);
  ("roc_udp_send_to", Declared.roc_udp_send_to);
  ("roc_udp_set_broadcast", Declared.roc_udp_set_broadcast);
  ("roc_unix_connect", Declared.roc_unix_connect);
  ("roc_unix_listen", Declared.roc_unix_listen)
].
(** ** The runtime's symbols *)

Module Runtime.
Definition roc_alloc : CFn := mkCFn [CUsize; CUsize] (CPtr "c_void").
Definition roc_dealloc : CFn := mkCFn [CPtr "c_void"; CUsize] CVoid.
Definition roc_realloc : CFn := mkCFn [CPtr "c_void"; CUsize; CUsize] (CPtr "c_void").
Definition roc_dbg : CFn := mkCFn [CPtr "u8"; CUsize] CVoid.
Definition roc_expect_failed : CFn := mkCFn [CPtr "u8"; CUsize] CVoid.
Definition roc_crashed : CFn := mkCFn [CPtr "u8"; CUsize] CVoid.
End Runtime.

Definition runtime : list (string * CFn) := [
  ("roc_alloc", Runtime.roc_alloc); ("roc_dealloc", Runtime.roc_dealloc); ("roc_realloc", Runtime.roc_realloc);
  ("roc_dbg", Runtime.roc_dbg); ("roc_expect_failed", Runtime.roc_expect_failed); ("roc_crashed", Runtime.roc_crashed)
].

(** ** What the declarations say *)

Definition signature (h : Hosted) : CFn := mkCFn (params h) (result h).

(** Without the signs. *)
Definition erase (t : CTy) : Ty :=
  match t with CVoid => Unit | CInt _ n => Int n | CUsize | CPtr _ => Box | CVal t => t end.

(** The arguments struct of a declaration. *)
Definition args_of (h : Hosted) : Ty :=
  Struct (imap (fun i t => ("arg" ++ pretty i, erase t)) (params h)).

(** Running a release on an argument's bytes. *)
Definition run_release (call : Z -> Z -> M unit) (r : Release) (t : Ty) (value : list Z) : M unit :=
  match r, t with
  | ByDecref, Str => str_decref (str_of_bytes value)
  | ByDecref, ListOf r e => list_decref (elem_of r e) (list_of_bytes value)
  | ByMethod decref, Union _ _ _ => decref value
  | ByBox, Box => decref_box_with (ptr_of_bytes value) 8 false None
  | ByCallable, Callable => decref_erased_callable call (ptr_of_bytes value)
  | ByList decref_list, ListOf _ _ => decref_list (list_of_bytes value)
  | _, _ => undefined
  end.

(** All the releases a declaration lists, in its order, on the arguments'
    bytes. *)
Fixpoint release_listed (call : Z -> Z -> M unit) (ps : list CTy) (args : list (list Z)) (l : list (nat * Release)) : M unit :=
  match l with
  | [] => mret tt
  | (i, r) :: l =>
      match ps !! i, args !! i with
      | Some t, Some value => _ ← run_release call r (erase t) value; release_listed call ps args l
      | _, _ => undefined
      end
  end.

Definition release_arguments (call : Z -> Z -> M unit) (h : Hosted) (args : list (list Z)) : M unit :=
  release_listed call (params h) args (owned h).

End AbiHosted.
