(* ===== verification/HostExports.v ===== *)
(** * The host's exported functions and the interface they implement

    Linking joins a Roc program and the host by the names of the symbols
    alone.  Here are the types of the functions the host exports, from each
    of its modules, and the theorems that they are the ones [roc_platform_abi.rs]
    declares, and those the ones [platform/Host.roc] asks for; and that
    releasing the arguments as a declaration says gives up what they own. *)
From S2P Require Import Prelude RocMem RocValues RocRefs AbiLayout AbiTypes AbiRelease RocInterface AbiHosted.
From stdpp Require Import strings pretty.
Local Open Scope string_scope.
Local Open Scope Z_scope.

Module HostExports.
Import RocMem RocValues RocRefs AbiLayout RocInterface AbiTypes AbiRelease AbiHosted.

(** The modules' own names for types. *)
Definition crypto_Bytes : Ty := ListOf false (Int 1).
Definition log_RocLogField : Ty := HostLogWriteArg2.
Definition net_CopyResult : Ty := HostStreamCopyBoth.
Definition net_CopyLimit : Ty := ExactlyOrUntilEnd.
Definition net_CopyToResult : Ty := HostStreamCopyTo.
Definition net_RocTlsCert : Ty := HostTlsListenArg1.
Definition select_Source : Ty := JoinableOrReadableOrReceivableOrSendableOrSignalCaughtOrStdinLineOrWritable.
Definition select_Outcome : Ty := CancelledOrReadyOrSourceTimedOutOrTimedOut.

Module Exported.
Definition roc_channel_new : CFn := mkCFn [CInt false 8] (CVal HostChannelNewResult).
Definition roc_channel_send : CFn := mkCFn [CVal Box; CVal Callable; CVal Bool] (CVal CancelledOrClosedOrFullOrSent).
Definition roc_channel_receive : CFn := mkCFn [CVal Box; CInt false 8] (CVal HostChannelReceiveResult).
Definition roc_channel_close : CFn := mkCFn [CVal Box] CVoid.
Definition roc_x25519_public_key : CFn := mkCFn [CVal crypto_Bytes] (CVal crypto_Bytes).
Definition roc_x25519_shared : CFn := mkCFn [CVal crypto_Bytes; CVal crypto_Bytes] (CVal LowOrderOrShared).
Definition roc_aead_seal : CFn := mkCFn [CInt false 1; CVal crypto_Bytes; CVal crypto_Bytes; CVal crypto_Bytes; CVal crypto_Bytes] (CVal crypto_Bytes).
Definition roc_aead_open : CFn := mkCFn [CInt false 1; CVal crypto_Bytes; CVal crypto_Bytes; CVal crypto_Bytes; CVal crypto_Bytes] (CVal InvalidOrOpened).
Definition roc_ed25519_public_key : CFn := mkCFn [CVal crypto_Bytes] (CVal crypto_Bytes).
Definition roc_ed25519_sign : CFn := mkCFn [CVal crypto_Bytes; CVal crypto_Bytes] (CVal crypto_Bytes).
Definition roc_ed25519_verify : CFn := mkCFn [CVal crypto_Bytes; CVal crypto_Bytes; CVal crypto_Bytes] (CVal Bool).
Definition roc_constant_time_eq : CFn := mkCFn [CVal crypto_Bytes; CVal crypto_Bytes] (CVal Bool).
Definition roc_file_read : CFn := mkCFn [CVal Str] (CVal HostFileReadResult).
Definition roc_file_write : CFn := mkCFn [CVal Str; CVal (ListOf false (Int 1)); CInt false 1; CInt false 4] (CVal HostFileDeleteResult).
Definition roc_file_rename : CFn := mkCFn [CVal Str; CVal Str] (CVal HostFileDeleteResult).
Definition roc_file_delete : CFn := mkCFn [CVal Str] (CVal HostFileDeleteResult).
Definition roc_file_exists : CFn := mkCFn [CVal Str] (CVal HostFileExistsResult).
Definition roc_env_var : CFn := mkCFn [CVal Str] (CVal FoundOrMissingOrNotUtf8).
Definition roc_stderr_line : CFn := mkCFn [CVal Str] (CVal HostStderrLineResult).
Definition roc_stdin_line : CFn := mkCFn [] (CVal HostStdinLineResult).
Definition roc_stdin_read_line : CFn := mkCFn [] (CVal EndOrFailedOrLineOrTooLong).
Definition roc_stdin_try_line : CFn := mkCFn [] (CVal EndOrFailedOrLineOrNotReadyOrTooLong).
Definition roc_stdout_line : CFn := mkCFn [CVal Str] (CVal HostStdoutLineResult).
Definition roc_alloc : CFn := mkCFn [CUsize; CUsize] (CPtr "c_void").
Definition roc_dealloc : CFn := mkCFn [CPtr "c_void"; CUsize] CVoid.
Definition roc_realloc : CFn := mkCFn [CPtr "c_void"; CUsize; CUsize] (CPtr "c_void").
Definition roc_dbg : CFn := mkCFn [CPtr "u8"; CUsize] CVoid.
Definition roc_expect_failed : CFn := mkCFn [CPtr "u8"; CUsize] CVoid.
Definition roc_crashed : CFn := mkCFn [CPtr "u8"; CUsize] CVoid.
Definition roc_log_enabled : CFn := mkCFn [CInt false 1] (CVal Bool).
Definition roc_log_write : CFn := mkCFn [CInt false 1; CVal Str; CVal (ListOf true log_RocLogField)] CVoid.
Definition roc_time_utc_now_ns : CFn := mkCFn [] (CInt true 8).
Definition roc_tcp_listen : CFn := mkCFn [CVal Str; CInt false 8; CInt false 8; CInt false 4; CVal Bool] (CVal HostSocketAcceptResult).
Definition roc_tcp_connect : CFn := mkCFn [CVal Str; CInt false 8; CVal Str; CVal Str] (CVal HostSocketAcceptResult).
Definition roc_unix_listen : CFn := mkCFn [CVal Str; CInt false 8; CInt false 8] (CVal HostSocketAcceptResult).
Definition roc_unix_connect : CFn := mkCFn [CVal Str; CInt false 8] (CVal HostSocketAcceptResult).
Definition roc_udp_bind : CFn := mkCFn [CVal Str; CVal Bool] (CVal HostSocketAcceptResult).
Definition roc_listener_close : CFn := mkCFn [CVal Box] (CVal HostSocketSetTimeoutResult).
Definition roc_socket_accept : CFn := mkCFn [CVal Box] (CVal HostSocketAcceptResult).
Definition roc_socket_try_accept : CFn := mkCFn [CVal Box] (CVal AcceptedOrFailedOrNotReady).
Definition roc_socket_try_read : CFn := mkCFn [CVal Box; CInt false 8] (CVal DataOrFailedOrNotReady).
Definition roc_socket_read : CFn := mkCFn [CVal Box; CInt false 8] (CVal HostSocketReadResult).
Definition roc_socket_read_into : CFn := mkCFn [CVal Box; CVal (ListOf false (Int 1)); CInt false 8] (CVal HostSocketReadResult).
Definition roc_socket_read_append : CFn := mkCFn [CVal Box; CVal (ListOf false (Int 1)); CInt false 8] (CVal HostSocketReadResult).
Definition roc_socket_write : CFn := mkCFn [CVal Box; CVal (ListOf false (Int 1))] (CVal HostSocketSetTimeoutResult).
Definition roc_socket_shutdown : CFn := mkCFn [CVal Box; CInt false 1] (CVal HostSocketSetTimeoutResult).
Definition roc_stream_copy_both : CFn := mkCFn [CVal Box; CVal Box] (CVal net_CopyResult).
Definition roc_stream_copy_to : CFn := mkCFn [CVal Box; CVal Box; CVal (ListOf false (Int 1)); CVal net_CopyLimit; CInt false 8] (CVal net_CopyToResult).
Definition roc_socket_abort : CFn := mkCFn [CVal Box] CVoid.
Definition roc_socket_set_timeout : CFn := mkCFn [CVal Box; CInt false 1; CInt false 8] (CVal HostSocketSetTimeoutResult).
Definition roc_socket_local_addr : CFn := mkCFn [CVal Box] (CVal HostSocketLocalAddrResult).
Definition roc_socket_peer_addr : CFn := mkCFn [CVal Box] (CVal HostSocketLocalAddrResult).
Definition roc_tcp_set_nodelay : CFn := mkCFn [CVal Box; CVal Bool] (CVal HostSocketSetTimeoutResult).
Definition roc_udp_connect : CFn := mkCFn [CVal Box; CVal Str] (CVal HostSocketSetTimeoutResult).
Definition roc_udp_send_to : CFn := mkCFn [CVal Box; CVal (ListOf false (Int 1)); CVal Str] (CVal HostSocketSetTimeoutResult).
Definition roc_udp_recv_from : CFn := mkCFn [CVal Box; CInt false 8] (CVal HostUdpRecvFromResult).
Definition roc_udp_recv : CFn := mkCFn [CVal Box; CInt false 8] (CVal HostUdpRecvResult).
Definition roc_udp_set_broadcast : CFn := mkCFn [CVal Box; CVal Bool] (CVal HostSocketSetTimeoutResult).
Definition roc_udp_join_multicast : CFn := mkCFn [CVal Box; CVal Str] (CVal HostSocketSetTimeoutResult).
Definition roc_udp_leave_multicast : CFn := mkCFn [CVal Box; CVal Str] (CVal HostSocketSetTimeoutResult).
Definition roc_dns_resolve : CFn := mkCFn [CVal Str; CInt false 8] (CVal HostDnsResolveResult).
Definition roc_tls_connect : CFn := mkCFn [CVal Str; CVal Str; CVal Str; CVal (ListOf true Str); CInt false 8; CVal Str; CVal Str] (CVal HostSocketAcceptResult).
Definition roc_tls_listen : CFn := mkCFn [CVal Str; CVal (ListOf true net_RocTlsCert); CVal (ListOf true Str); CInt false 8; CInt false 8; CInt false 8; CVal Str; CInt false 1] (CVal HostSocketAcceptResult).
Definition roc_tls_wrap_client : CFn := mkCFn [CVal Box; CVal Str; CVal Str; CVal (ListOf true Str); CInt false 8; CVal Str; CVal Str] (CVal HostSocketAcceptResult).
Definition roc_tls_wrap_server : CFn := mkCFn [CVal Box; CVal (ListOf true net_RocTlsCert); CVal (ListOf true Str); CInt false 8; CVal Str; CInt false 1] (CVal HostSocketAcceptResult).
Definition roc_tls_handshake : CFn := mkCFn [CVal Box] (CVal HostSocketSetTimeoutResult).
Definition roc_tls_server_name : CFn := mkCFn [CVal Box] (CVal HostSocketLocalAddrResult).
Definition roc_tls_peer_certificates : CFn := mkCFn [CVal Box] (CVal HostTlsPeerCertificatesResult).
Definition roc_tls_peer_certificate_valid_for : CFn := mkCFn [CVal Box; CVal Str] (CVal HostFileExistsResult).
Definition roc_tls_alpn_protocol : CFn := mkCFn [CVal Box] (CVal HostSocketLocalAddrResult).
Definition roc_noise_wrap : CFn := mkCFn [CVal Box; CInt false 1; CVal (ListOf false (Int 1)); CInt false 8; CVal (ListOf false (Int 1)); CInt false 8] (CVal HostSocketAcceptResult).
Definition roc_tls_ignore_unexpected_eof : CFn := mkCFn [CVal Box; CVal Bool] (CVal HostSocketSetTimeoutResult).
Definition roc_random_bytes : CFn := mkCFn [CInt false 8] (CVal BytesOrOutOfMemory).
Definition roc_select_turn : CFn := mkCFn [] (CInt false 8).
Definition roc_select_wait : CFn := mkCFn [CVal (ListOf true select_Source); CInt false 8] (CVal select_Outcome).
Definition roc_signal_catch : CFn := mkCFn [CVal (ListOf false (Int 1))] (CVal HostSignalCatchResult).
Definition roc_signal_try_next : CFn := mkCFn [] (CVal GotOrNotReady).
Definition roc_signal_next : CFn := mkCFn [] (CVal CancelledOrGot).
Definition roc_socket_set_keepalive : CFn := mkCFn [CVal Box; CVal Bool; CInt false 8; CInt false 8; CInt false 4] (CVal HostFileDeleteResult).
Definition roc_socket_set_buffer_size : CFn := mkCFn [CVal Box; CInt false 1; CInt false 8] (CVal HostFileDeleteResult).
Definition roc_socket_buffer_size : CFn := mkCFn [CVal Box; CInt false 1] (CVal HostSocketBufferSizeResult).
Definition roc_unix_peer_credentials : CFn := mkCFn [CVal Box] (CVal HostUnixPeerCredentialsResult).
Definition roc_task_spawn : CFn := mkCFn [CVal Callable] (CVal HostTaskSpawnResult).
Definition roc_task_finish : CFn := mkCFn [CVal Callable] (CVal Bool).
Definition roc_task_join : CFn := mkCFn [CVal Box] (CVal HostTaskJoinResult).
Definition roc_task_cancel : CFn := mkCFn [CVal Box] CVoid.
Definition roc_task_is_cancelled : CFn := mkCFn [] (CVal Bool).
Definition roc_task_is_finished : CFn := mkCFn [CVal Box] (CVal Bool).
Definition roc_task_yield : CFn := mkCFn [] CVoid.
Definition roc_group_new : CFn := mkCFn [] (CVal HostGroupNewResult).
Definition roc_group_add : CFn := mkCFn [CVal Box; CVal Box] CVoid.
Definition roc_group_cancel : CFn := mkCFn [CVal Box] CVoid.
Definition roc_group_close : CFn := mkCFn [CVal Box; CVal Bool] CVoid.
Definition roc_time_now_ns : CFn := mkCFn [] (CInt false 8).
Definition roc_time_sleep_ns : CFn := mkCFn [CInt false 8] (CVal Bool).
End Exported.

Definition exported : list (string * CFn) := [
  ("roc_channel_new", Exported.roc_channel_new);
  ("roc_channel_send", Exported.roc_channel_send);
  ("roc_channel_receive", Exported.roc_channel_receive);
  ("roc_channel_close", Exported.roc_channel_close);
  ("roc_x25519_public_key", Exported.roc_x25519_public_key);
  ("roc_x25519_shared", Exported.roc_x25519_shared);
  ("roc_aead_seal", Exported.roc_aead_seal);
  ("roc_aead_open", Exported.roc_aead_open);
  ("roc_ed25519_public_key", Exported.roc_ed25519_public_key);
  ("roc_ed25519_sign", Exported.roc_ed25519_sign);
  ("roc_ed25519_verify", Exported.roc_ed25519_verify);
  ("roc_constant_time_eq", Exported.roc_constant_time_eq);
  ("roc_file_read", Exported.roc_file_read);
  ("roc_file_write", Exported.roc_file_write);
  ("roc_file_rename", Exported.roc_file_rename);
  ("roc_file_delete", Exported.roc_file_delete);
  ("roc_file_exists", Exported.roc_file_exists);
  ("roc_env_var", Exported.roc_env_var);
  ("roc_stderr_line", Exported.roc_stderr_line);
  ("roc_stdin_line", Exported.roc_stdin_line);
  ("roc_stdin_read_line", Exported.roc_stdin_read_line);
  ("roc_stdin_try_line", Exported.roc_stdin_try_line);
  ("roc_stdout_line", Exported.roc_stdout_line);
  ("roc_log_enabled", Exported.roc_log_enabled);
  ("roc_log_write", Exported.roc_log_write);
  ("roc_time_utc_now_ns", Exported.roc_time_utc_now_ns);
  ("roc_tcp_listen", Exported.roc_tcp_listen);
  ("roc_tcp_connect", Exported.roc_tcp_connect);
  ("roc_unix_listen", Exported.roc_unix_listen);
  ("roc_unix_connect", Exported.roc_unix_connect);
  ("roc_udp_bind", Exported.roc_udp_bind);
  ("roc_listener_close", Exported.roc_listener_close);
  ("roc_socket_accept", Exported.roc_socket_accept);
  ("roc_socket_try_accept", Exported.roc_socket_try_accept);
  ("roc_socket_try_read", Exported.roc_socket_try_read);
  ("roc_socket_read", Exported.roc_socket_read);
  ("roc_socket_read_into", Exported.roc_socket_read_into);
  ("roc_socket_read_append", Exported.roc_socket_read_append);
  ("roc_socket_write", Exported.roc_socket_write);
  ("roc_socket_shutdown", Exported.roc_socket_shutdown);
  ("roc_stream_copy_both", Exported.roc_stream_copy_both);
  ("roc_stream_copy_to", Exported.roc_stream_copy_to);
  ("roc_socket_abort", Exported.roc_socket_abort);
  ("roc_socket_set_timeout", Exported.roc_socket_set_timeout);
  ("roc_socket_local_addr", Exported.roc_socket_local_addr);
  ("roc_socket_peer_addr", Exported.roc_socket_peer_addr);
  ("roc_tcp_set_nodelay", Exported.roc_tcp_set_nodelay);
  ("roc_udp_connect", Exported.roc_udp_connect);
  ("roc_udp_send_to", Exported.roc_udp_send_to);
  ("roc_udp_recv_from", Exported.roc_udp_recv_from);
  ("roc_udp_recv", Exported.roc_udp_recv);
  ("roc_udp_set_broadcast", Exported.roc_udp_set_broadcast);
  ("roc_udp_join_multicast", Exported.roc_udp_join_multicast);
  ("roc_udp_leave_multicast", Exported.roc_udp_leave_multicast);
  ("roc_dns_resolve", Exported.roc_dns_resolve);
  ("roc_tls_connect", Exported.roc_tls_connect);
  ("roc_tls_listen", Exported.roc_tls_listen);
  ("roc_tls_wrap_client", Exported.roc_tls_wrap_client);
  ("roc_tls_wrap_server", Exported.roc_tls_wrap_server);
  ("roc_tls_handshake", Exported.roc_tls_handshake);
  ("roc_tls_server_name", Exported.roc_tls_server_name);
  ("roc_tls_peer_certificates", Exported.roc_tls_peer_certificates);
  ("roc_tls_peer_certificate_valid_for", Exported.roc_tls_peer_certificate_valid_for);
  ("roc_tls_alpn_protocol", Exported.roc_tls_alpn_protocol);
  ("roc_noise_wrap", Exported.roc_noise_wrap);
  ("roc_tls_ignore_unexpected_eof", Exported.roc_tls_ignore_unexpected_eof);
  ("roc_random_bytes", Exported.roc_random_bytes);
  ("roc_select_turn", Exported.roc_select_turn);
  ("roc_select_wait", Exported.roc_select_wait);
  ("roc_signal_catch", Exported.roc_signal_catch);
  ("roc_signal_try_next", Exported.roc_signal_try_next);
  ("roc_signal_next", Exported.roc_signal_next);
  ("roc_socket_set_keepalive", Exported.roc_socket_set_keepalive);
  ("roc_socket_set_buffer_size", Exported.roc_socket_set_buffer_size);
  ("roc_socket_buffer_size", Exported.roc_socket_buffer_size);
  ("roc_unix_peer_credentials", Exported.roc_unix_peer_credentials);
  ("roc_task_spawn", Exported.roc_task_spawn);
  ("roc_task_finish", Exported.roc_task_finish);
  ("roc_task_join", Exported.roc_task_join);
  ("roc_task_cancel", Exported.roc_task_cancel);
  ("roc_task_is_cancelled", Exported.roc_task_is_cancelled);
  ("roc_task_is_finished", Exported.roc_task_is_finished);
  ("roc_task_yield", Exported.roc_task_yield);
  ("roc_group_new", Exported.roc_group_new);
  ("roc_group_add", Exported.roc_group_add);
  ("roc_group_cancel", Exported.roc_group_cancel);
  ("roc_group_close", Exported.roc_group_close);
  ("roc_time_now_ns", Exported.roc_time_now_ns);
  ("roc_time_sleep_ns", Exported.roc_time_sleep_ns)
].

Definition exported_runtime : list (string * CFn) := [
  ("roc_alloc", Exported.roc_alloc);
  ("roc_dealloc", Exported.roc_dealloc);
  ("roc_realloc", Exported.roc_realloc);
  ("roc_dbg", Exported.roc_dbg);
  ("roc_expect_failed", Exported.roc_expect_failed);
  ("roc_crashed", Exported.roc_crashed)
].
(** ** Comparing the tables *)
Local Open Scope list_scope.

Fixpoint assoc {A} (key : string) (l : list (string * A)) : option A :=
  match l with [] => None | (k, x) :: l => if String.eqb k key then Some x else assoc key l end.

(** The positions, from [i] on, of the arguments that are not plain. *)
Fixpoint owned_at (i : nat) (ps : list CTy) : list nat :=
  match ps with [] => [] | t :: ps => if plain (erase t) then owned_at (S i) ps else i :: owned_at (S i) ps end.

(** A declaration releases what its types call for: each argument but the
    numbers and booleans, as its type is released; and it says of the
    result whether it owns any references. *)
Definition follows_types (call : Z -> Z -> M unit) (h : Hosted) : Prop :=
  (owned h).*1 = owned_at 0 (params h) /\
  Forall (fun x => exists t, params h !! x.1 = Some t /\ forall v m, run_release call x.2 (erase t) v m = release_ty call (erase t) v m) (owned h) /\
  returns_reference h = counted (erase (result h)).

Section Sorted.
Context {A : Type} (le : A -> A -> bool).

Lemma insert_by_perm x l : insert_by le x l ≡ₚ x :: l.
Proof. induction l as [|y l IH]; cbn [insert_by]; [done|]. destruct (le x y); [done|]. rewrite IH. apply perm_swap. Qed.

Lemma sort_by_perm l : sort_by le l ≡ₚ l.
Proof. induction l as [|x l IH]; cbn [sort_by foldr]; [done|]. by rewrite insert_by_perm, IH. Qed.

Lemma sorted_perm l1 l2 : sort_by le l1 = sort_by le l2 -> l1 ≡ₚ l2.
Proof. intros H. by rewrite <- (sort_by_perm l1), H, sort_by_perm. Qed.
End Sorted.

(** ** Releasing by type *)

Section Calls.
Variable call : Z -> Z -> M unit.

Lemma by_list e d : (e, d) ∈ list_releases -> forall v m, run_release call (ByList d) (ListOf true e) v m = release_ty call (ListOf true e) v m.
Proof. intros H v m. exact (proj1 (Forall_forall _ _) (lists_agree call) _ H v m). Qed.

Lemma by_method d i t : (exists a, mkGenerated t a d i ∈ generated call) -> forall v m, d v m = release_ty call t v m.
Proof. intros (a & H) v m. exact (proj1 (proj1 (Forall_forall _ _) (all_agree call) _ H v m)). Qed.

Lemma declared_follow : Forall (fun x => follows_types call x.2) declared.
Proof.
  unfold declared. repeat apply Forall_cons_2; [..|apply Forall_nil_2];
    (split; [reflexivity|split; [|reflexivity]]); repeat apply Forall_cons_2; try apply Forall_nil_2;
    (eexists; split; [reflexivity|]);
    first [intros v m; reflexivity
      | apply by_list; unfold list_releases; repeat (apply elem_of_cons; first [left; reflexivity | right])
      | apply (by_method _ ExactlyOrUntilEnd_incref); eexists; unfold generated; repeat (apply elem_of_cons; first [left; reflexivity | right])].
Qed.

(** What a list of arguments gives up. *)
Inductive gives_arguments (f : Z -> Z) : list CTy -> list (list Z) -> Blocks -> Blocks -> Prop :=
  | ga_nil g : gives_arguments f [] [] g g
  | ga_cons t ps v vs g g1 g2 : gives_up f (erase t) v g g1 -> gives_arguments f ps vs g1 g2 -> gives_arguments f (t :: ps) (v :: vs) g g2.

Lemma release_listed_exact f ps vs g g' : gives_arguments f ps vs g g' ->
  forall ps0 vs0 l, length ps0 = length vs0 -> l.*1 = owned_at (length ps0) ps ->
  Forall (fun x => exists t, (ps0 ++ ps) !! x.1 = Some t /\ forall v m, run_release call x.2 (erase t) v m = release_ty call (erase t) v m) l ->
  releases f (release_listed call (ps0 ++ ps) (vs0 ++ vs) l) g g'.
Proof.
  induction 1 as [g|t ps v vs g g1 g2 Hv Hvs IH]; intros ps0 vs0 l Hlen Hl Hall; cbn [owned_at] in Hl.
  - destruct l; [|done]. apply releases_refl.
  - assert (forall l, l.*1 = owned_at (S (length ps0)) ps ->
      Forall (fun x => exists t', (ps0 ++ t :: ps) !! x.1 = Some t' /\ forall v m, run_release call x.2 (erase t') v m = release_ty call (erase t') v m) l ->
      releases f (release_listed call (ps0 ++ t :: ps) (vs0 ++ v :: vs) l) g1 g2) as IH'.
    { intros l' Hl' Hall'. specialize (IH (ps0 ++ [t]) (vs0 ++ [v]) l'). rewrite !length_app, <- !app_assoc in IH. cbn [length app] in IH. apply IH; [lia|by rewrite Nat.add_1_r|done]. }
    destruct (plain (erase t)) eqn:Ec.
    + replace g1 with g in IH' by (inversion Hv; subst; try done; destruct (erase t); done). by apply IH'.
    + destruct l as [|[i r] l]; [done|]. cbn [fmap list_fmap fst] in Hl. injection Hl as -> Hl. apply Forall_cons in Hall as [(t' & Ht & Hr) Hall]. cbn [fst snd] in *.
      rewrite list_lookup_middle in Ht by done. injection Ht as <-. cbn [release_listed]. rewrite !list_lookup_middle by done.
      eapply (releases_seq _ _ _ _ g1); [|by apply IH'].
      intros m F HF HR Hf. rewrite Hr. by apply (proj1 (gives_releases f call) _ _ _ _ Hv).
Qed.

End Calls.
(** ** The theorems *)

(** C15: The three descriptions of the boundary agree, function by function:
    the symbols [platform/main.roc] hosts are the ones [roc_platform_abi.rs]
    declares, in the same order, each with the C types its signature in
    [platform/Host.roc] has; the host's modules export each of them once,
    with those types, and nothing else by such a name but the runtime's
    symbols, which are as declared too.  The linker checks none of this. *)
Theorem interface_conforms :
  map (fun x => (x.1, signature x.2)) declared = map (fun x => (x.1, lower_fn x.2)) hosted /\
  exported ≡ₚ map (fun x => (x.1, lower_fn x.2)) hosted /\
  NoDup (exported.*1 ++ exported_runtime.*1) /\
  exported_runtime ≡ₚ runtime.
Proof.
  assert (exported ≡ₚ map (fun x => (x.1, lower_fn x.2)) hosted) as He by (apply (sorted_perm (fun a b => String.leb a.1 b.1)); vm_compute; reflexivity).
  split_and!; [vm_compute; reflexivity|exact He| |apply (sorted_perm (fun a b => String.leb a.1 b.1)); vm_compute; reflexivity].
  apply (bool_decide_unpack _). vm_compute. exact I.
Qed.

(** Every function with arguments has a struct of them, whose fields are its
    arguments in order; and there are no others. *)
Theorem args_structs_match :
  Forall (fun x => assoc (roc_name x.2) args_structs = (if params x.2 is [] then None else Some (args_of x.2))) declared /\
  length args_structs = length (filter (fun x => params x.2 <> []) declared) /\ NoDup args_structs.*1 /\
  Forall (fun x => x.1 = "roc_" +:+ roc_name x.2) declared.
Proof.
  split_and!; [unfold declared; repeat constructor|vm_compute; reflexivity| |unfold declared; repeat constructor].
  apply (bool_decide_unpack _). vm_compute. exact I.
Qed.

Lemma listed_exact call sym h args m g g' :
  (sym, h) ∈ declared -> Rep m g -> gives_arguments (contents m) (params h) args g g' ->
  exists m', release_arguments call h args m = Done tt m' /\ Rep m' g' /\ forall d b x, g' !! d = Some b -> uncounted d b x -> contents m' x = contents m x.
Proof.
  intros Hin HR Hg. destruct (proj1 (Forall_forall _ _) (declared_follow call) _ Hin) as (Hpos & Hall & _). cbn [snd] in *.
  destruct (release_listed_exact call _ _ _ _ _ Hg [] [] (owned h) eq_refl Hpos Hall m ∅ ltac:(apply map_disjoint_empty_l)) as (m' & E & _ & HR' & Hf');
    rewrite ?map_empty_union in *; [done|by intros d b x _ _|]. by exists m'.
Qed.

(** A hosted function that releases its arguments the way its declaration
    says gives up exactly what they own: whatever blocks the arguments'
    references take from [g] to [g'], the listed releases run without
    undefined behaviour, free nothing twice and leave [g'], the other blocks
    as they were. *)
Theorem arguments_released call sym h args m g g' :
  (sym, h) ∈ declared -> Rep m g -> gives_arguments (contents m) (params h) args g g' ->
  exists m', release_arguments call h args m = Done tt m' /\ Rep m' g' /\ forall d b x, g' !! d = Some b -> uncounted d b x -> contents m' x = contents m x.
Proof. apply listed_exact. Qed.

(** *** A line for standard error, long enough to be allocated *)

Lemma arguments_released_witness :
  exists s m, one_string = Done s m /\ exists m', release_arguments (fun _ _ => mret tt) Declared.roc_stderr_line [str_bytes s] m = Done tt m' /\ live m' = ∅.
Proof.
  destruct one_string_owned as (s & m & g & E1 & HR & Hg). exists s, m. split; [exact E1|].
  destruct (arguments_released (fun _ _ => mret tt) "roc_stderr_line" Declared.roc_stderr_line [str_bytes s] m g ∅) as (m' & E & HR' & _);
    [unfold declared; apply elem_of_cons; by left|exact HR|eapply ga_cons; [exact Hg|apply ga_nil]|].
  exists m'. split; [exact E|by apply rep_empty].
Defined.

End HostExports.
