(* ===== verification/AbiOwned.v ===== *)
(** * Values the host owns ([src/roc_platform_abi.rs])

    A value Roc returned to the host is wrapped with the way it is released
    ([RocOwned]), which is chosen by a zero-sized type ([RocRelease]) and run
    when the wrapper is dropped.  The safety contract of [RocRelease] is a
    class of its own here ([Lawful]): what the policy does is what the type
    calls for. *)
From S2P Require Import Prelude RocMem RocValues RocRefs AbiLayout AbiTypes AbiRelease.
From stdpp Require Import strings.
Local Open Scope Z_scope.

Module AbiOwned.
Import RocMem RocValues RocRefs AbiLayout AbiTypes AbiRelease.

(** ** Policies *)

(** [trait RocRelease<T>], for a policy [P]. *)
Class RocRelease (T : Ty) (P : Set) := release : list Z -> M unit.
#[global] Arguments release T P {_} _.

Variant RocNoopRelease : Set := RocNoopRelease_.
Variant RocStrRelease : Set := RocStrRelease_.
Variant RocListRelease (P : Set) : Set := RocListRelease_.
Variant RocListSpineRelease : Set := RocListSpineRelease_.
Variant RocErasedCallableRelease : Set := RocErasedCallableRelease_.
Variant RocBoxRelease (T : Ty) (P : Set) : Set := RocBoxRelease_.
Variant RocBoxSpineRelease (T : Ty) : Set := RocBoxSpineRelease_.
Variant HostStderrLineResultRelease : Set := HostStderrLineResultRelease_.
Variant HostStdinLineResultRelease : Set := HostStdinLineResultRelease_.
Variant HostSignalCatchResultRelease : Set := HostSignalCatchResultRelease_.
Variant HostIOErrRelease : Set := HostIOErrRelease_.
Variant GotOrNotReadyRelease : Set := GotOrNotReadyRelease_.
Variant CancelledOrGotRelease : Set := CancelledOrGotRelease_.
Variant EndOrFailedOrLineOrNotReadyOrTooLongRelease : Set := EndOrFailedOrLineOrNotReadyOrTooLongRelease_.
Variant EndOrFailedOrLineOrTooLongRelease : Set := EndOrFailedOrLineOrTooLongRelease_.
Variant HostStdoutLineResultRelease : Set := HostStdoutLineResultRelease_.
Variant HostSocketAcceptResultRelease : Set := HostSocketAcceptResultRelease_.
Variant IOErrRelease : Set := IOErrRelease_.
Variant AnonStructF1e164f99c294fdeRelease : Set := AnonStructF1e164f99c294fdeRelease_.
Variant HostSocketLocalAddrResultRelease : Set := HostSocketLocalAddrResultRelease_.
Variant HostTlsPeerCertificatesResultRelease : Set := HostTlsPeerCertificatesResultRelease_.
Variant HostFileExistsResultRelease : Set := HostFileExistsResultRelease_.
Variant HostFileReadResultRelease : Set := HostFileReadResultRelease_.
Variant DataOrFailedOrNotReadyRelease : Set := DataOrFailedOrNotReadyRelease_.
Variant AcceptedOrFailedOrNotReadyRelease : Set := AcceptedOrFailedOrNotReadyRelease_.
Variant AnonStruct3db9d1cc6db3a401Release : Set := AnonStruct3db9d1cc6db3a401Release_.
Variant CancelledOrDoneOrMessageTimedOutOrReadOrWriteRelease : Set := CancelledOrDoneOrMessageTimedOutOrReadOrWriteRelease_.
Variant ExactlyOrUntilEndRelease : Set := ExactlyOrUntilEndRelease_.
Variant AnonStruct91380971f8261c26Release : Set := AnonStruct91380971f8261c26Release_.
Variant CancelledOrDoneOrReadAOrReadBOrTaskLimitReachedOrWriteAOrWriteBRelease : Set := CancelledOrDoneOrReadAOrReadBOrTaskLimitReachedOrWriteAOrWriteBRelease_.
Variant HostUdpRecvFromResultRelease : Set := HostUdpRecvFromResultRelease_.
Variant AnonStruct6954d79c85a0b6fdRelease : Set := AnonStruct6954d79c85a0b6fdRelease_.
Variant HostUdpRecvResultRelease : Set := HostUdpRecvResultRelease_.
Variant AnonStruct20e6ccaadf41c1a1Release : Set := AnonStruct20e6ccaadf41c1a1Release_.
Variant HostSocketBufferSizeResultRelease : Set := HostSocketBufferSizeResultRelease_.
Variant HostUnixPeerCredentialsResultRelease : Set := HostUnixPeerCredentialsResultRelease_.
Variant AnonStruct4a9a39232e571b2cRelease : Set := AnonStruct4a9a39232e571b2cRelease_.
Variant AnonStructBe833d82c728025bRelease : Set := AnonStructBe833d82c728025bRelease_.
Variant BoolOrF64OrI64OrStrOrU64Release : Set := BoolOrF64OrI64OrStrOrU64Release_.
Variant HostDnsResolveResultRelease : Set := HostDnsResolveResultRelease_.
Variant FoundOrMissingOrNotUtf8Release : Set := FoundOrMissingOrNotUtf8Release_.
Variant LowOrderOrSharedRelease : Set := LowOrderOrSharedRelease_.
Variant InvalidOrOpenedRelease : Set := InvalidOrOpenedRelease_.
Variant BytesOrOutOfMemoryRelease : Set := BytesOrOutOfMemoryRelease_.
Variant HostChannelNewResultRelease : Set := HostChannelNewResultRelease_.
Variant AnonStructDfa5943259877aa7Release : Set := AnonStructDfa5943259877aa7Release_.
Variant CancelledOrClosedOrFullOrSentRelease : Set := CancelledOrClosedOrFullOrSentRelease_.
Variant HostChannelReceiveResultRelease : Set := HostChannelReceiveResultRelease_.
Variant CancelledOrClosedOrTimedOutRelease : Set := CancelledOrClosedOrTimedOutRelease_.
Variant CancelledOrReadyOrSourceTimedOutOrTimedOutRelease : Set := CancelledOrReadyOrSourceTimedOutOrTimedOutRelease_.
Variant JoinableOrReadableOrReceivableOrSendableOrSignalCaughtOrStdinLineOrWritableRelease : Set := JoinableOrReadableOrReceivableOrSendableOrSignalCaughtOrStdinLineOrWritableRelease_.
Variant HostTaskSpawnResultRelease : Set := HostTaskSpawnResultRelease_.
Variant HostTaskJoinResultRelease : Set := HostTaskJoinResultRelease_.
Variant HostGroupNewResultRelease : Set := HostGroupNewResultRelease_.
Section Policies.
(** Calling a function value's drop callback. *)
Variable call : Z -> Z -> M unit.

Definition RocNoopRelease_release T : RocRelease T RocNoopRelease := fun _ => mret tt.
Definition RocStrRelease_release : RocRelease Str RocStrRelease := fun value => str_decref (str_of_bytes value).
Definition RocListRelease_release T P `{!RocRelease T P} : RocRelease (ListOf true T) (RocListRelease P) :=
  fun value => list_release_with (AbiLayout.elem_of true T) (release T P) (list_of_bytes value).
Definition RocListSpineRelease_release T : RocRelease (ListOf false T) RocListSpineRelease :=
  fun value => list_decref (AbiLayout.elem_of false T) (list_of_bytes value).
Definition RocErasedCallableRelease_release : RocRelease Callable RocErasedCallableRelease :=
  fun value => decref_erased_callable call (ptr_of_bytes value).

(** [release_box_payload]: the context it is given is never null here. *)
Definition release_box_payload (T : Ty) (P : Set) `{!RocRelease T P} (data_ptr : Z) : M unit :=
  if data_ptr =? 0 then mret tt
  else value ← load data_ptr (size W64 T); release T P value.

(** The policies for [*mut T], a pointer to the payload. *)
Definition RocBoxRelease_release T P `{!RocRelease T P} : RocRelease Box (RocBoxRelease T P) :=
  fun value => decref_box_with (ptr_of_bytes value) (AbiLayout.align W64 T) true (Some (release_box_payload T P)).
Definition RocBoxSpineRelease_release T : RocRelease Box (RocBoxSpineRelease T) :=
  fun value => decref_box_with (ptr_of_bytes value) (AbiLayout.align W64 T) false None.

Definition HostStderrLineResultRelease_release : RocRelease HostStderrLineResult HostStderrLineResultRelease := HostStderrLineResult_decref.
Definition HostStdinLineResultRelease_release : RocRelease HostStdinLineResult HostStdinLineResultRelease := HostStdinLineResult_decref.
Definition HostSignalCatchResultRelease_release : RocRelease HostSignalCatchResult HostSignalCatchResultRelease := HostSignalCatchResult_decref.
Definition HostIOErrRelease_release : RocRelease HostIOErr HostIOErrRelease := HostIOErr_decref.
Definition GotOrNotReadyRelease_release : RocRelease GotOrNotReady GotOrNotReadyRelease := GotOrNotReady_decref.
Definition CancelledOrGotRelease_release : RocRelease CancelledOrGot CancelledOrGotRelease := CancelledOrGot_decref.
Definition EndOrFailedOrLineOrNotReadyOrTooLongRelease_release : RocRelease EndOrFailedOrLineOrNotReadyOrTooLong EndOrFailedOrLineOrNotReadyOrTooLongRelease := EndOrFailedOrLineOrNotReadyOrTooLong_decref.
Definition EndOrFailedOrLineOrTooLongRelease_release : RocRelease EndOrFailedOrLineOrTooLong EndOrFailedOrLineOrTooLongRelease := EndOrFailedOrLineOrTooLong_decref.
Definition HostStdoutLineResultRelease_release : RocRelease HostStdoutLineResult HostStdoutLineResultRelease := HostStdoutLineResult_decref.
Definition HostSocketAcceptResultRelease_release : RocRelease HostSocketAcceptResult HostSocketAcceptResultRelease := HostSocketAcceptResult_decref.
Definition IOErrRelease_release : RocRelease IOErr IOErrRelease := IOErr_decref.
Definition AnonStructF1e164f99c294fdeRelease_release : RocRelease AnonStructF1e164f99c294fde AnonStructF1e164f99c294fdeRelease := AnonStructF1e164f99c294fde_decref.
Definition HostSocketLocalAddrResultRelease_release : RocRelease HostSocketLocalAddrResult HostSocketLocalAddrResultRelease := HostSocketLocalAddrResult_decref.
Definition HostTlsPeerCertificatesResultRelease_release : RocRelease HostTlsPeerCertificatesResult HostTlsPeerCertificatesResultRelease := HostTlsPeerCertificatesResult_decref.
Definition HostFileExistsResultRelease_release : RocRelease HostFileExistsResult HostFileExistsResultRelease := HostFileExistsResult_decref.
Definition HostFileReadResultRelease_release : RocRelease HostFileReadResult HostFileReadResultRelease := HostFileReadResult_decref.
Definition DataOrFailedOrNotReadyRelease_release : RocRelease DataOrFailedOrNotReady DataOrFailedOrNotReadyRelease := DataOrFailedOrNotReady_decref.
Definition AcceptedOrFailedOrNotReadyRelease_release : RocRelease AcceptedOrFailedOrNotReady AcceptedOrFailedOrNotReadyRelease := AcceptedOrFailedOrNotReady_decref.
Definition AnonStruct3db9d1cc6db3a401Release_release : RocRelease AnonStruct3db9d1cc6db3a401 AnonStruct3db9d1cc6db3a401Release := AnonStruct3db9d1cc6db3a401_decref.
Definition CancelledOrDoneOrMessageTimedOutOrReadOrWriteRelease_release : RocRelease CancelledOrDoneOrMessageTimedOutOrReadOrWrite CancelledOrDoneOrMessageTimedOutOrReadOrWriteRelease := CancelledOrDoneOrMessageTimedOutOrReadOrWrite_decref.
Definition ExactlyOrUntilEndRelease_release : RocRelease ExactlyOrUntilEnd ExactlyOrUntilEndRelease := ExactlyOrUntilEnd_decref.
Definition AnonStruct91380971f8261c26Release_release : RocRelease AnonStruct91380971f8261c26 AnonStruct91380971f8261c26Release := AnonStruct91380971f8261c26_decref.
Definition CancelledOrDoneOrReadAOrReadBOrTaskLimitReachedOrWriteAOrWriteBRelease_release : RocRelease CancelledOrDoneOrReadAOrReadBOrTaskLimitReachedOrWriteAOrWriteB CancelledOrDoneOrReadAOrReadBOrTaskLimitReachedOrWriteAOrWriteBRelease := CancelledOrDoneOrReadAOrReadBOrTaskLimitReachedOrWriteAOrWriteB_decref.
Definition HostUdpRecvFromResultRelease_release : RocRelease HostUdpRecvFromResult HostUdpRecvFromResultRelease := HostUdpRecvFromResult_decref.
Definition AnonStruct6954d79c85a0b6fdRelease_release : RocRelease AnonStruct6954d79c85a0b6fd AnonStruct6954d79c85a0b6fdRelease := AnonStruct6954d79c85a0b6fd_decref.
Definition HostUdpRecvResultRelease_release : RocRelease HostUdpRecvResult HostUdpRecvResultRelease := HostUdpRecvResult_decref.
Definition AnonStruct20e6ccaadf41c1a1Release_release : RocRelease AnonStruct20e6ccaadf41c1a1 AnonStruct20e6ccaadf41c1a1Release := AnonStruct20e6ccaadf41c1a1_decref.
Definition HostSocketBufferSizeResultRelease_release : RocRelease HostSocketBufferSizeResult HostSocketBufferSizeResultRelease := HostSocketBufferSizeResult_decref.
Definition HostUnixPeerCredentialsResultRelease_release : RocRelease HostUnixPeerCredentialsResult HostUnixPeerCredentialsResultRelease := HostUnixPeerCredentialsResult_decref.
Definition AnonStruct4a9a39232e571b2cRelease_release : RocRelease AnonStruct4a9a39232e571b2c AnonStruct4a9a39232e571b2cRelease := AnonStruct4a9a39232e571b2c_decref.
Definition AnonStructBe833d82c728025bRelease_release : RocRelease AnonStructBe833d82c728025b AnonStructBe833d82c728025bRelease := AnonStructBe833d82c728025b_decref.
Definition BoolOrF64OrI64OrStrOrU64Release_release : RocRelease BoolOrF64OrI64OrStrOrU64 BoolOrF64OrI64OrStrOrU64Release := BoolOrF64OrI64OrStrOrU64_decref.
Definition HostDnsResolveResultRelease_release : RocRelease HostDnsResolveResult HostDnsResolveResultRelease := HostDnsResolveResult_decref.
Definition FoundOrMissingOrNotUtf8Release_release : RocRelease FoundOrMissingOrNotUtf8 FoundOrMissingOrNotUtf8Release := FoundOrMissingOrNotUtf8_decref.
Definition LowOrderOrSharedRelease_release : RocRelease LowOrderOrShared LowOrderOrSharedRelease := LowOrderOrShared_decref.
Definition InvalidOrOpenedRelease_release : RocRelease InvalidOrOpened InvalidOrOpenedRelease := InvalidOrOpened_decref.
Definition BytesOrOutOfMemoryRelease_release : RocRelease BytesOrOutOfMemory BytesOrOutOfMemoryRelease := BytesOrOutOfMemory_decref.
Definition HostChannelNewResultRelease_release : RocRelease HostChannelNewResult HostChannelNewResultRelease := HostChannelNewResult_decref.
Definition AnonStructDfa5943259877aa7Release_release : RocRelease AnonStructDfa5943259877aa7 AnonStructDfa5943259877aa7Release := AnonStructDfa5943259877aa7_decref.
Definition CancelledOrClosedOrFullOrSentRelease_release : RocRelease CancelledOrClosedOrFullOrSent CancelledOrClosedOrFullOrSentRelease := CancelledOrClosedOrFullOrSent_decref.
Definition HostChannelReceiveResultRelease_release : RocRelease HostChannelReceiveResult HostChannelReceiveResultRelease := HostChannelReceiveResult_decref call.
Definition CancelledOrClosedOrTimedOutRelease_release : RocRelease CancelledOrClosedOrTimedOut CancelledOrClosedOrTimedOutRelease := CancelledOrClosedOrTimedOut_decref.
Definition CancelledOrReadyOrSourceTimedOutOrTimedOutRelease_release : RocRelease CancelledOrReadyOrSourceTimedOutOrTimedOut CancelledOrReadyOrSourceTimedOutOrTimedOutRelease := CancelledOrReadyOrSourceTimedOutOrTimedOut_decref.
Definition JoinableOrReadableOrReceivableOrSendableOrSignalCaughtOrStdinLineOrWritableRelease_release : RocRelease JoinableOrReadableOrReceivableOrSendableOrSignalCaughtOrStdinLineOrWritable JoinableOrReadableOrReceivableOrSendableOrSignalCaughtOrStdinLineOrWritableRelease := JoinableOrReadableOrReceivableOrSendableOrSignalCaughtOrStdinLineOrWritable_decref.
Definition HostTaskSpawnResultRelease_release : RocRelease HostTaskSpawnResult HostTaskSpawnResultRelease := HostTaskSpawnResult_decref.
Definition HostTaskJoinResultRelease_release : RocRelease HostTaskJoinResult HostTaskJoinResultRelease := HostTaskJoinResult_decref call.
Definition HostGroupNewResultRelease_release : RocRelease HostGroupNewResult HostGroupNewResultRelease := HostGroupNewResult_decref.
End Policies.
#[export] Existing Instances
  RocNoopRelease_release
  RocStrRelease_release
  RocListRelease_release
  RocListSpineRelease_release
  RocErasedCallableRelease_release
  RocBoxRelease_release
  RocBoxSpineRelease_release
  HostStderrLineResultRelease_release
  HostStdinLineResultRelease_release
  HostSignalCatchResultRelease_release
  HostIOErrRelease_release
  GotOrNotReadyRelease_release
  CancelledOrGotRelease_release
  EndOrFailedOrLineOrNotReadyOrTooLongRelease_release
  EndOrFailedOrLineOrTooLongRelease_release
  HostStdoutLineResultRelease_release
  HostSocketAcceptResultRelease_release
  IOErrRelease_release
  AnonStructF1e164f99c294fdeRelease_release
  HostSocketLocalAddrResultRelease_release
  HostTlsPeerCertificatesResultRelease_release
  HostFileExistsResultRelease_release
  HostFileReadResultRelease_release
  DataOrFailedOrNotReadyRelease_release
  AcceptedOrFailedOrNotReadyRelease_release
  AnonStruct3db9d1cc6db3a401Release_release
  CancelledOrDoneOrMessageTimedOutOrReadOrWriteRelease_release
  ExactlyOrUntilEndRelease_release
  AnonStruct91380971f8261c26Release_release
  CancelledOrDoneOrReadAOrReadBOrTaskLimitReachedOrWriteAOrWriteBRelease_release
  HostUdpRecvFromResultRelease_release
  AnonStruct6954d79c85a0b6fdRelease_release
  HostUdpRecvResultRelease_release
  AnonStruct20e6ccaadf41c1a1Release_release
  HostSocketBufferSizeResultRelease_release
  HostUnixPeerCredentialsResultRelease_release
  AnonStruct4a9a39232e571b2cRelease_release
  AnonStructBe833d82c728025bRelease_release
  BoolOrF64OrI64OrStrOrU64Release_release
  HostDnsResolveResultRelease_release
  FoundOrMissingOrNotUtf8Release_release
  LowOrderOrSharedRelease_release
  InvalidOrOpenedRelease_release
  BytesOrOutOfMemoryRelease_release
  HostChannelNewResultRelease_release
  AnonStructDfa5943259877aa7Release_release
  CancelledOrClosedOrFullOrSentRelease_release
  HostChannelReceiveResultRelease_release
  CancelledOrClosedOrTimedOutRelease_release
  CancelledOrReadyOrSourceTimedOutOrTimedOutRelease_release
  JoinableOrReadableOrReceivableOrSendableOrSignalCaughtOrStdinLineOrWritableRelease_release
  HostTaskSpawnResultRelease_release
  HostTaskJoinResultRelease_release
  HostGroupNewResultRelease_release.

(** ** The wrapper *)

(** [RocOwned<T, P>]: [from_raw], [as_ref] (and [Deref]), [into_raw], and
    [Drop]. *)
Record RocOwned (T : Ty) (P : Set) := mkOwned { value : list Z }.
#[global] Arguments mkOwned {T P} _.
#[global] Arguments value {T P} _.

Definition from_raw {T P} (v : list Z) : RocOwned T P := mkOwned v.
Definition as_ref {T P} (o : RocOwned T P) : list Z := value o.
Definition deref {T P} (o : RocOwned T P) : list Z := as_ref o.
Definition into_raw {T P} (o : RocOwned T P) : list Z := value o.
Definition drop_owned {T P} `{!RocRelease T P} (o : RocOwned T P) : M unit := release T P (value o).

(** ** The contract *)

Section Contract.
Variable call : Z -> Z -> M unit.

(** "Implementations must match Roc's exact allocation and nested ownership
    layout." *)
Class Lawful (T : Ty) (P : Set) `{!RocRelease T P} : Prop := lawful : forall v m, release T P v m = release_ty call T v m.
#[global] Arguments Lawful T P {_}.

#[export] Instance RocStrRelease_lawful : Lawful Str RocStrRelease.
Proof. by intros v m. Qed.

#[export] Instance RocListRelease_lawful T P `{!RocRelease T P, !Lawful T P} : Lawful (ListOf true T) (RocListRelease P).
Proof. intros v m. by apply list_release_ext. Qed.

#[export] Instance RocListSpineRelease_lawful T : Lawful (ListOf false T) RocListSpineRelease.
Proof. by intros v m. Qed.

#[export] Instance RocErasedCallableRelease_lawful : @Lawful Callable RocErasedCallableRelease (RocErasedCallableRelease_release call).
Proof. by intros v m. Qed.

#[export] Instance RocBoxSpineRelease_lawful : Lawful Box (RocBoxSpineRelease (Int 8)).
Proof. by intros v m. Qed.

(** Nothing is owned by a plain value. *)
#[export] Instance RocNoopRelease_lawful T : plain T = true -> Lawful T RocNoopRelease.
Proof. intros H v m. by destruct T. Qed.

(** The policies of the generated types, each with its type. *)
Definition generated_policies : list (Ty * (list Z -> M unit)) := [
  (HostStderrLineResult, @release HostStderrLineResult HostStderrLineResultRelease _);
  (HostStdinLineResult, @release HostStdinLineResult HostStdinLineResultRelease _);
  (HostIOErr, @release HostIOErr HostIOErrRelease _);
  (HostSignalCatchResult, @release HostSignalCatchResult HostSignalCatchResultRelease _);
  (GotOrNotReady, @release GotOrNotReady GotOrNotReadyRelease _);
  (CancelledOrGot, @release CancelledOrGot CancelledOrGotRelease _);
  (EndOrFailedOrLineOrNotReadyOrTooLong, @release EndOrFailedOrLineOrNotReadyOrTooLong EndOrFailedOrLineOrNotReadyOrTooLongRelease _);
  (EndOrFailedOrLineOrTooLong, @release EndOrFailedOrLineOrTooLong EndOrFailedOrLineOrTooLongRelease _);
  (HostStdoutLineResult, @release HostStdoutLineResult HostStdoutLineResultRelease _);
  (IOErr, @release IOErr IOErrRelease _);
  (HostSocketAcceptResult, @release HostSocketAcceptResult HostSocketAcceptResultRelease _);
  (HostSocketLocalAddrResult, @release HostSocketLocalAddrResult HostSocketLocalAddrResultRelease _);
  (HostTlsPeerCertificatesResult, @release HostTlsPeerCertificatesResult HostTlsPeerCertificatesResultRelease _);
  (HostFileExistsResult, @release HostFileExistsResult HostFileExistsResultRelease _);
  (HostFileReadResult, @release HostFileReadResult HostFileReadResultRelease _);
  (DataOrFailedOrNotReady, @release DataOrFailedOrNotReady DataOrFailedOrNotReadyRelease _);
  (AcceptedOrFailedOrNotReady, @release AcceptedOrFailedOrNotReady AcceptedOrFailedOrNotReadyRelease _);
  (CancelledOrDoneOrMessageTimedOutOrReadOrWrite, @release CancelledOrDoneOrMessageTimedOutOrReadOrWrite CancelledOrDoneOrMessageTimedOutOrReadOrWriteRelease _);
  (ExactlyOrUntilEnd, @release ExactlyOrUntilEnd ExactlyOrUntilEndRelease _);
  (CancelledOrDoneOrReadAOrReadBOrTaskLimitReachedOrWriteAOrWriteB, @release CancelledOrDoneOrReadAOrReadBOrTaskLimitReachedOrWriteAOrWriteB CancelledOrDoneOrReadAOrReadBOrTaskLimitReachedOrWriteAOrWriteBRelease _);
  (AnonStruct6954d79c85a0b6fd, @release AnonStruct6954d79c85a0b6fd AnonStruct6954d79c85a0b6fdRelease _);
  (HostUdpRecvFromResult, @release HostUdpRecvFromResult HostUdpRecvFromResultRelease _);
  (AnonStruct20e6ccaadf41c1a1, @release AnonStruct20e6ccaadf41c1a1 AnonStruct20e6ccaadf41c1a1Release _);
  (HostUdpRecvResult, @release HostUdpRecvResult HostUdpRecvResultRelease _);
  (HostSocketBufferSizeResult, @release HostSocketBufferSizeResult HostSocketBufferSizeResultRelease _);
  (AnonStruct4a9a39232e571b2c, @release AnonStruct4a9a39232e571b2c AnonStruct4a9a39232e571b2cRelease _);
  (HostUnixPeerCredentialsResult, @release HostUnixPeerCredentialsResult HostUnixPeerCredentialsResultRelease _);
  (BoolOrF64OrI64OrStrOrU64, @release BoolOrF64OrI64OrStrOrU64 BoolOrF64OrI64OrStrOrU64Release _);
  (HostDnsResolveResult, @release HostDnsResolveResult HostDnsResolveResultRelease _);
  (FoundOrMissingOrNotUtf8, @release FoundOrMissingOrNotUtf8 FoundOrMissingOrNotUtf8Release _);
  (LowOrderOrShared, @release LowOrderOrShared LowOrderOrSharedRelease _);
  (InvalidOrOpened, @release InvalidOrOpened InvalidOrOpenedRelease _);
  (BytesOrOutOfMemory, @release BytesOrOutOfMemory BytesOrOutOfMemoryRelease _);
  (AnonStructDfa5943259877aa7, @release AnonStructDfa5943259877aa7 AnonStructDfa5943259877aa7Release _);
  (HostChannelNewResult, @release HostChannelNewResult HostChannelNewResultRelease _);
  (CancelledOrClosedOrTimedOut, @release CancelledOrClosedOrTimedOut CancelledOrClosedOrTimedOutRelease _);
  (HostChannelReceiveResult, @release HostChannelReceiveResult HostChannelReceiveResultRelease (HostChannelReceiveResultRelease_release call));
  (CancelledOrReadyOrSourceTimedOutOrTimedOut, @release CancelledOrReadyOrSourceTimedOutOrTimedOut CancelledOrReadyOrSourceTimedOutOrTimedOutRelease _);
  (JoinableOrReadableOrReceivableOrSendableOrSignalCaughtOrStdinLineOrWritable, @release JoinableOrReadableOrReceivableOrSendableOrSignalCaughtOrStdinLineOrWritable JoinableOrReadableOrReceivableOrSendableOrSignalCaughtOrStdinLineOrWritableRelease _);
  (HostTaskSpawnResult, @release HostTaskSpawnResult HostTaskSpawnResultRelease _);
  (HostTaskJoinResult, @release HostTaskJoinResult HostTaskJoinResultRelease (HostTaskJoinResultRelease_release call));
  (HostGroupNewResult, @release HostGroupNewResult HostGroupNewResultRelease _);
  (CancelledOrClosedOrFullOrSent, @release CancelledOrClosedOrFullOrSent CancelledOrClosedOrFullOrSentRelease _);
  (AnonStructF1e164f99c294fde, @release AnonStructF1e164f99c294fde AnonStructF1e164f99c294fdeRelease _);
  (AnonStruct3db9d1cc6db3a401, @release AnonStruct3db9d1cc6db3a401 AnonStruct3db9d1cc6db3a401Release _);
  (AnonStruct91380971f8261c26, @release AnonStruct91380971f8261c26 AnonStruct91380971f8261c26Release _);
  (AnonStructBe833d82c728025b, @release AnonStructBe833d82c728025b AnonStructBe833d82c728025bRelease _)
].

Lemma generated_lawful : Forall (fun p => forall v m, p.2 v m = release_ty call p.1 v m) generated_policies.
Proof.
  change generated_policies with (map (fun g => (g_ty g, g_decref g)) (generated call)). apply Forall_map. eapply Forall_impl; [apply (all_agree call)|].
  intros g H v m. exact (proj1 (H v m)).
Qed.

(** ** A box whose payload owns references

    What giving up such a box is: one reference of a shared block; the block
    of the last one, with what the payload owns. *)
Section Boxed.
Variable f : Z -> Z.
Context (T : Ty) (P : Set) `{!RocRelease T P, !Lawful T P}.

Inductive gives_box : Z -> Blocks -> Blocks -> Prop :=
  | gb_null g : gives_box 0 g g
  | gb_shared d b g : d <> 0 -> g !! d = Some b -> header b = box_header (AbiLayout.align W64 T) true -> RocRefs.align b = box_align (AbiLayout.align W64 T) ->
      1 < count b -> gives_box d g (RocRefs.release d g)
  | gb_last d b g g' : d <> 0 -> g !! d = Some b -> header b = box_header (AbiLayout.align W64 T) true -> RocRefs.align b = box_align (AbiLayout.align W64 T) ->
      count b = 1 -> 0 <= size W64 T <= RocRefs.size b -> gives_up f T (read d (size W64 T) f) (delete d g) g' -> gives_box d g g'.

Lemma box_releases v g g' : gives_box (ptr_of_bytes v) g g' -> releases f (release Box (RocBoxRelease T P) v) g g'.
Proof.
  unfold release, RocBoxRelease_release, decref_box_with. generalize (ptr_of_bytes v). intros d0 [g0|d b g0 Hn Hd Hh Ha Hc|d b g0 g1 Hn Hd Hh Ha Hc Hs Hg].
  - apply releases_refl.
  - rewrite (proj2 (Z.eqb_neq d 0)), <- Hh, <- Ha by done. by apply releases_shared_at.
  - rewrite (proj2 (Z.eqb_neq d 0)), <- Hh, <- Ha by done. eapply releases_last_at; [done..|]. intros m F HF HFd HR Hf. cbn [run_callback].
    unfold release_box_payload. rewrite (proj2 (Z.eqb_neq d 0)) by done. unfold mbind, M_bind.
    assert ((F ∪ delete d g0) !! d = Some (with_count 0 b)) as Hd1 by by apply lookup_union_Some_l.
    pose proof (r_block _ _ HR _ _ Hd1) as (Hl & Hhd & _). cbn [header RocRefs.size with_count] in *.
    erewrite load_at; [|exact Hl|unfold WORD in *; lia|lia].
    erewrite filled_read; [|exact Hf|exact Hd1|intros x Hx; unfold uncounted; cbn [header RocRefs.size with_count]; lia].
    rewrite lawful. by apply (proj1 (gives_releases f call) _ _ _ _ Hg).
Qed.
End Boxed.

(** ** The life of wrappers

    A function's wrappers: it makes them, reads them, drops them early or
    turns them back into raw values; those left when it returns are dropped,
    the newest first.  Using one that has been moved does not compile
    ([None]). *)
Record Own := pack { own_T : Ty; own_P : Set; own_release : RocRelease own_T own_P; own : RocOwned own_T own_P }.

Inductive Act := Wrap (o : Own) | Read (i : nat) | IntoRaw (i : nat) | DropEarly (i : nat).

(** The wrappers released, in order, and those handed out. *)
Fixpoint exec (acts : list Act) (scope : list (option Own)) : option (list Own * list Own) :=
  match acts with
  | [] => Some (rev (omap id scope), [])
  | Wrap o :: acts => exec acts (scope ++ [Some o])
  | Read i :: acts => match scope !! i with Some (Some _) => exec acts scope | _ => None end
  | IntoRaw i :: acts =>
      match scope !! i with
      | Some (Some o) => '(r, h) ← exec acts (<[i := None]> scope); Some (r, o :: h)
      | _ => None
      end
  | DropEarly i :: acts =>
      match scope !! i with
      | Some (Some o) => '(r, h) ← exec acts (<[i := None]> scope); Some (o :: r, h)
      | _ => None
      end
  end.

Definition made (acts : list Act) : list Own := omap (fun a => match a with Wrap o => Some o | _ => None end) acts.

(** Dropping wrappers one after the other. *)
Fixpoint drop_each (os : list Own) : M unit :=
  match os with [] => mret tt | o :: os => _ ← @drop_owned _ _ (own_release o) (own o); drop_each os end.

Definition own_lawful (o : Own) : Prop := @Lawful (own_T o) (own_P o) (own_release o).

Inductive gives_owned (f : Z -> Z) : list Own -> Blocks -> Blocks -> Prop :=
  | go_nil g : gives_owned f [] g g
  | go_cons o os g g1 g2 : gives_up f (own_T o) (as_ref (own o)) g g1 -> gives_owned f os g1 g2 -> gives_owned f (o :: os) g g2.

Lemma omap_take (scope : list (option Own)) i o : scope !! i = Some (Some o) -> omap id scope ≡ₚ o :: omap id (<[i := None]> scope).
Proof.
  revert i. induction scope as [|x scope IH]; intros [|i] H; [done..| |]; cbn [lookup list_lookup] in H.
  - injection H as ->. done.
  - change (<[S i := None]> (x :: scope)) with (x :: <[i := None]> scope). cbn [omap list_omap]. destruct x as [x|]; cbn [id]; [|by apply IH].
    rewrite (IH i H). apply perm_swap.
Qed.

Lemma exec_once acts scope r h : exec acts scope = Some (r, h) -> r ++ h ≡ₚ omap id scope ++ made acts.
Proof.
  revert scope r h. induction acts as [|a acts IH]; intros scope r h H; cbn [exec] in H.
  - injection H as <- <-. cbn [made omap list_omap]. rewrite !app_nil_r, <- Permutation_rev. done.
  - destruct a as [o|i|i|i]; cbn [made omap list_omap].
    + rewrite (IH _ _ _ H), omap_app. cbn [omap list_omap id]. by rewrite <- app_assoc.
    + destruct (scope !! i) as [[o|]|] eqn:E; [|done..]. by rewrite (IH _ _ _ H).
    + destruct (scope !! i) as [[o|]|] eqn:E; [|done..]. destruct (exec acts _) as [[r1 h1]|] eqn:E1; [|done]. injection H as <- <-.
      rewrite (omap_take _ _ _ E). rewrite <- Permutation_middle, (IH _ _ _ E1). done.
    + destruct (scope !! i) as [[o|]|] eqn:E; [|done..]. destruct (exec acts _) as [[r1 h1]|] eqn:E1; [|done]. injection H as <- <-.
      rewrite (omap_take _ _ _ E). cbn [app]. by rewrite (IH _ _ _ E1).
Qed.

Lemma drop_each_releases f os g g' : Forall own_lawful os -> gives_owned f os g g' -> releases f (drop_each os) g g'.
Proof.
  intros Hl. induction 1 as [g|o os g g1 g2 Hg Hos IH]; cbn [drop_each]; [apply releases_refl|]. apply Forall_cons in Hl as [Ho Hl].
  eapply releases_seq; [|by apply IH]. intros m F HF HR Hf. unfold drop_owned. rewrite Ho. by apply (proj1 (gives_releases f call) _ _ _ _ Hg).
Qed.

End Contract.

(** ** The theorems *)

(** Every way the glue releases a value is the one its type calls for: of
    each generated type, of strings, of lists (when that of the elements is),
    of plain lists and function values.  So the safety contract its
    [unsafe impl]s state holds of all of them. *)
Theorem policies_lawful call :
  Forall (fun p => forall v m, p.2 v m = release_ty call p.1 v m) (generated_policies call) /\
  Lawful call Str RocStrRelease /\
  (forall T P (R : RocRelease T P), Lawful call T P -> Lawful call (ListOf true T) (RocListRelease P)) /\
  (forall T, Lawful call (ListOf false T) RocListSpineRelease) /\
  @Lawful call Callable RocErasedCallableRelease (RocErasedCallableRelease_release call) /\
  Lawful call Box (RocBoxSpineRelease (Int 8)).
Proof. split_and!; [apply generated_lawful|apply _|intros; apply _|intros; apply _|apply RocErasedCallableRelease_lawful|apply _]. Qed.

(** A value the host owns is released once: whatever a function does with
    its wrappers, each it made is either released or handed out as a raw
    value, once; and the releases run without undefined behaviour, giving up
    exactly what those values own. *)
Theorem owned_released_once call acts r h m g g' :
  exec acts [] = Some (r, h) -> Forall (own_lawful call) r -> Rep m g -> gives_owned (contents m) r g g' ->
  r ++ h ≡ₚ made acts /\ exists m', drop_each r m = Done tt m' /\ Rep m' g'.
Proof.
  intros He Hl HR Hg. split; [by apply exec_once in He|].
  destruct (drop_each_releases call _ _ _ _ Hl Hg m ∅ ltac:(apply map_disjoint_empty_l)) as (m' & E & _ & HR' & _); rewrite ?map_empty_union in *; [done|by intros d b x _ _|].
  by exists m'.
Qed.

(** A box of counted payload, released by its policy: the payload's
    references go with the last one of the box. *)
Theorem box_released call T P (R : RocRelease T P) v m g g' : Lawful call T P -> Rep m g -> gives_box (contents m) T (ptr_of_bytes v) g g' ->
  exists m', release Box (RocBoxRelease T P) v m = Done tt m' /\ Rep m' g'.
Proof.
  intros Hl HR Hg. destruct (box_releases call _ _ _ _ _ _ Hg m ∅ ltac:(apply map_disjoint_empty_l)) as (m' & E & _ & HR' & _); rewrite ?map_empty_union in *; [done|by intros d b x _ _|].
  by exists m'.
Qed.

(** *** A long string and an empty one, of which the second is handed out *)

Definition wrap_str (v : list Z) : Own := pack Str RocStrRelease _ (from_raw v).

Lemma owned_released_once_witness :
  exists s m, one_string = Done s m /\
    exec [Wrap (wrap_str (str_bytes s)); Wrap (wrap_str (repeat 0 24)); Read 0; IntoRaw 1] [] = Some ([wrap_str (str_bytes s)], [wrap_str (repeat 0 24)]) /\
    exists m', drop_each [wrap_str (str_bytes s)] m = Done tt m' /\ live m' = ∅.
Proof.
  destruct one_string_owned as (s & m & g & E1 & HR & Hg). exists s, m. split_and!; [exact E1|reflexivity|].
  destruct (owned_released_once (fun _ _ => mret tt) [Wrap (wrap_str (str_bytes s)); Wrap (wrap_str (repeat 0 24)); Read 0; IntoRaw 1]
    [wrap_str (str_bytes s)] [wrap_str (repeat 0 24)] m g ∅) as (_ & m' & E & HR'); [reflexivity| |exact HR|eapply go_cons; [exact Hg|apply go_nil]|].
  - apply Forall_cons_2; [|apply Forall_nil_2]. by intros v m1.
  - exists m'. split; [exact E|by apply rep_empty].
Defined.

End AbiOwned.
