(* ===== verification/LogHosted.v ===== *)
(** * The log's hosted functions ([src/log.rs])

    [roc_log_write] reads the message and the fields where Roc put them,
    formats a line ([LogFormat.v]) and queues it ([LogQueue.v]) if its level
    is enabled, and gives up the arguments. *)
From S2P Require Import Prelude LogQueue LogFormat Stdin RocMem RocValues RocRefs AbiLayout AbiTypes AbiRelease RocInterface AbiHosted HostExports.
From stdpp Require Import strings.
Local Open Scope Z_scope.

Module LogHosted.
Import RocMem RocValues RocRefs AbiLayout AbiTypes AbiRelease.

(** ** The characters of a string *)

(** A [str]'s [chars]: of valid UTF-8. *)
Fixpoint chars (l : list Z) : list Z :=
  match l with
  | [] => []
  | b0 :: l =>
      if b0 <? 128 then b0 :: chars l
      else match l with
      | b1 :: l =>
          if b0 <? 224 then (b0 - 192) * 64 + (b1 - 128) :: chars l
          else match l with
          | b2 :: l =>
              if b0 <? 240 then (b0 - 224) * 4096 + (b1 - 128) * 64 + (b2 - 128) :: chars l
              else match l with
              | b3 :: l => (b0 - 240) * 262144 + (b1 - 128) * 4096 + (b2 - 128) * 64 + (b3 - 128) :: chars l
              | [] => []
              end
          | [] => []
          end
      | [] => []
      end
  end.

Lemma lor_base base n x : forallb (fun x => Z.lor base x =? base + x) (seqZ 0 n) = true -> 0 <= x < n -> Z.lor base x = base + x.
Proof. intros H Hx. rewrite forallb_forall in H. apply Z.eqb_eq, H, list_elem_of_In, elem_of_seqZ. lia. Qed.

Lemma low_bits c k : 0 <= k -> Z.land (Z.shiftr c k) 63 = c / 2 ^ k mod 64.
Proof. intros Hk. change 63 with (Z.ones 6). rewrite Z.land_ones, Z.shiftr_div_pow2 by lia. done. Qed.

Lemma tail_byte c k : 0 <= k -> Z.lor 128 (Z.land (Z.shiftr c k) 63) = 128 + c / 2 ^ k mod 64.
Proof. intros Hk. rewrite low_bits by done. apply (lor_base 128 64); [vm_compute; reflexivity|]. apply Z.mod_pos_bound. lia. Qed.

Lemma encode_2 b0 b1 : 194 <= b0 <= 223 -> 128 <= b1 <= 191 -> LogFormat.encode_char ((b0 - 192) * 64 + (b1 - 128)) = [b0; b1].
Proof.
  intros H0 H1. set (c := (b0 - 192) * 64 + (b1 - 128)). unfold LogFormat.encode_char. rewrite (proj2 (Z.ltb_ge c 128)), (proj2 (Z.ltb_lt c 2048)) by (unfold c; lia).
  rewrite tail_byte by done. change (2 ^ 0) with 1. rewrite Z.shiftr_div_pow2, Z.div_1_r by lia. change (2 ^ 6) with 64.
  assert (c / 64 = b0 - 192) as -> by (unfold c; rewrite Z.add_comm, Z.div_add, Z.div_small by lia; lia).
  assert (c mod 64 = b1 - 128) as -> by (unfold c; rewrite Z.add_comm, Z.mod_add, Z.mod_small by lia; lia).
  rewrite (lor_base 192 64); [|vm_compute; reflexivity|lia]. f_equal; [lia|f_equal; lia].
Qed.

Lemma encode_3 b0 b1 b2 : 224 <= b0 <= 239 -> (if b0 =? 224 then 160 else 128) <= b1 <= 191 -> 128 <= b2 <= 191 ->
  LogFormat.encode_char ((b0 - 224) * 4096 + (b1 - 128) * 64 + (b2 - 128)) = [b0; b1; b2].
Proof.
  intros H0 H1 H2. assert (128 <= b1 /\ (b0 = 224 -> 160 <= b1)) as [H1a H1b] by (destruct (Z.eqb_spec b0 224); lia). set (c := (b0 - 224) * 4096 + (b1 - 128) * 64 + (b2 - 128)).
  unfold LogFormat.encode_char. rewrite (proj2 (Z.ltb_ge c 128)), (proj2 (Z.ltb_ge c 2048)), (proj2 (Z.ltb_lt c 65536)) by (unfold c; lia).
  rewrite !tail_byte by done. change (2 ^ 0) with 1. rewrite Z.shiftr_div_pow2, Z.div_1_r by lia. change (2 ^ 12) with 4096. change (2 ^ 6) with 64.
  pose proof (Z.div_mod c 4096). pose proof (Z.div_mod c 64). pose proof (Z.div_mod (c / 64) 64).
  assert (c / 64 = (b0 - 224) * 64 + (b1 - 128)) as E1 by (symmetry; apply (Z.div_unique c 64 _ (b2 - 128)); unfold c; lia).
  assert (c / 4096 = b0 - 224) as -> by (symmetry; apply (Z.div_unique c 4096 _ ((b1 - 128) * 64 + (b2 - 128))); unfold c; lia).
  assert (c mod 64 = b2 - 128) as -> by lia. rewrite E1.
  assert (((b0 - 224) * 64 + (b1 - 128)) mod 64 = b1 - 128) as -> by (rewrite Z.add_comm, Z.mod_add, Z.mod_small by lia; lia).
  rewrite (lor_base 224 16); [|vm_compute; reflexivity|lia]. repeat f_equal; lia.
Qed.

Lemma encode_4 b0 b1 b2 b3 : 240 <= b0 <= 244 -> (if b0 =? 240 then 144 else 128) <= b1 <= 191 -> 128 <= b2 <= 191 -> 128 <= b3 <= 191 ->
  LogFormat.encode_char ((b0 - 240) * 262144 + (b1 - 128) * 4096 + (b2 - 128) * 64 + (b3 - 128)) = [b0; b1; b2; b3].
Proof.
  intros H0 H1 H2 H3. assert (128 <= b1 /\ (b0 = 240 -> 144 <= b1)) as [H1a H1b] by (destruct (Z.eqb_spec b0 240); lia).
  set (c := (b0 - 240) * 262144 + (b1 - 128) * 4096 + (b2 - 128) * 64 + (b3 - 128)).
  unfold LogFormat.encode_char. rewrite (proj2 (Z.ltb_ge c 128)), (proj2 (Z.ltb_ge c 2048)), (proj2 (Z.ltb_ge c 65536)) by (unfold c; lia).
  rewrite !tail_byte by done. change (2 ^ 0) with 1. rewrite Z.shiftr_div_pow2, Z.div_1_r by lia. change (2 ^ 18) with 262144. change (2 ^ 12) with 4096. change (2 ^ 6) with 64.
  assert (c / 64 = (b0 - 240) * 4096 + (b1 - 128) * 64 + (b2 - 128)) as -> by (symmetry; apply (Z.div_unique c 64 _ (b3 - 128)); unfold c; lia).
  assert (c / 4096 = (b0 - 240) * 64 + (b1 - 128)) as -> by (symmetry; apply (Z.div_unique c 4096 _ ((b2 - 128) * 64 + (b3 - 128))); unfold c; lia).
  assert (c / 262144 = b0 - 240) as -> by (symmetry; apply (Z.div_unique c 262144 _ ((b1 - 128) * 4096 + (b2 - 128) * 64 + (b3 - 128))); unfold c; lia).
  assert (c mod 64 = b3 - 128) as -> by (symmetry; apply (Z.mod_unique c 64 ((b0 - 240) * 4096 + (b1 - 128) * 64 + (b2 - 128))); unfold c; lia).
  assert (((b0 - 240) * 64 + (b1 - 128)) mod 64 = b1 - 128) as -> by (rewrite Z.add_comm, Z.mod_add, Z.mod_small by lia; lia).
  assert (((b0 - 240) * 4096 + (b1 - 128) * 64 + (b2 - 128)) mod 64 = b2 - 128) as ->
    by (symmetry; apply (Z.mod_unique _ 64 ((b0 - 240) * 64 + (b1 - 128))); lia).
  rewrite (lor_base 240 8); [|vm_compute; reflexivity|lia]. repeat f_equal; lia.
Qed.

Lemma within_spec lo hi b : Utf8.within lo hi b = true -> lo <= b <= hi.
Proof. unfold Utf8.within. rewrite andb_true_iff, !Z.leb_le. done. Qed.

(** The characters of a valid string are what it encodes. *)
Lemma chars_encode l : Utf8.valid l = true -> LogFormat.into_bytes (chars l) = l.
Proof.
  remember (length l) as n eqn:En. assert (length l <= n)%nat as Hn by lia. clear En. revert l Hn.
  induction n as [|n IH]; intros [|b0 l] Hn; cbn [length] in Hn; try lia; try done. cbn [Utf8.valid chars]. unfold LogFormat.into_bytes in *.
  destruct (Utf8.within 0 127 b0) eqn:E0.
  { apply within_spec in E0. intros Hv. rewrite (proj2 (Z.ltb_lt b0 128)) by lia. cbn [mbind list_bind]. rewrite IH by (done || lia).
    unfold LogFormat.encode_char. rewrite (proj2 (Z.ltb_lt b0 128)) by lia. done. }
  destruct l as [|b1 l]; [done|]. destruct (Utf8.within 194 223 b0) eqn:E1.
  { apply within_spec in E1. intros [H1%within_spec Hv]%andb_true_iff. rewrite (proj2 (Z.ltb_ge b0 128)), (proj2 (Z.ltb_lt b0 224)) by lia.
    cbn [mbind list_bind]. cbn [length] in Hn. rewrite IH, encode_2 by (done || lia). done. }
  destruct l as [|b2 l]; [done|]. destruct (Utf8.within 224 239 b0) eqn:E2.
  { apply within_spec in E2. intros [[H1%within_spec H2%within_spec]%andb_true_iff Hv]%andb_true_iff.
    rewrite (proj2 (Z.ltb_ge b0 128)), (proj2 (Z.ltb_ge b0 224)), (proj2 (Z.ltb_lt b0 240)) by lia.
    cbn [mbind list_bind]. cbn [length] in Hn. rewrite IH, encode_3; try done; try lia. destruct (b0 =? 224), (b0 =? 237); lia. }
  destruct l as [|b3 l]; [done|]. intros [[[[H0%within_spec H1%within_spec]%andb_true_iff H2%within_spec]%andb_true_iff H3%within_spec]%andb_true_iff Hv]%andb_true_iff.
  rewrite (proj2 (Z.ltb_ge b0 128)), (proj2 (Z.ltb_ge b0 224)), (proj2 (Z.ltb_ge b0 240)) by lia.
  cbn [mbind list_bind]. cbn [length] in Hn. rewrite IH, encode_4; try done; try lia. destruct (b0 =? 240), (b0 =? 244); lia.
Qed.

(** ** Hosted functions *)

Section Hosted.
(** A float's bits, as Rust formats the float they are. *)
Variables (float : Z -> LogFormat.str) (is_finite : Z -> bool).
(** The settings, the time a line is logged at, and the task logging. *)
Variables (log_level : Z) (log_json : bool) (log_buffer_bytes : nat).

(** [enabled] and [roc_log_enabled] *)
Definition enabled (level : Z) : bool := log_level <=? level.
Definition roc_log_enabled (level : Z) : bool := enabled level.

(** [log] *)
Definition log (level : Z) (message : LogFormat.str) (fields : list (LogFormat.str * LogFormat.Value Z)) (now_millis : Z) (task : option Z) (s : LogQueue.Sys) : LogQueue.Sys :=
  if negb (enabled level) then s
  else LogQueue.push log_buffer_bytes (LogFormat.format_line float is_finite log_json now_millis level message fields task) s.

(** The [i64] whose bits these are. *)
Definition i64_of (n : Z) : Z := if 2 ^ 63 <=? n then n - 2 ^ 64 else n.

(** A field of [roc_log_write]'s list: each payload is only read for its own
    tag. *)
Definition read_value (value : list Z) : M (LogFormat.Value Z) :=
  match tag_byte BoolOrF64OrI64OrStrOrU64 value ≫= BoolOrF64OrI64OrStrOrU64Tag_of with
  | Some BoolOrF64OrI64OrStrOrU64Tag_Str => s ← as_str (BoolOrF64OrI64OrStrOrU64_payload_str value); mret (LogFormat.VStr (chars s))
  | Some BoolOrF64OrI64OrStrOrU64Tag_U64 => mret (LogFormat.VU64 (BoolOrF64OrI64OrStrOrU64_payload_u64 value))
  | Some BoolOrF64OrI64OrStrOrU64Tag_I64 => mret (LogFormat.VI64 (i64_of (BoolOrF64OrI64OrStrOrU64_payload_i64 value)))
  | Some BoolOrF64OrI64OrStrOrU64Tag_F64 => mret (LogFormat.VF64 (BoolOrF64OrI64OrStrOrU64_payload_f64 value))
  | Some BoolOrF64OrI64OrStrOrU64Tag_Bool => mret (LogFormat.VBool (negb (BoolOrF64OrI64OrStrOrU64_payload_bool value =? 0)))
  | None => undefined
  end.

Definition read_field (x : list Z) : M (LogFormat.str * LogFormat.Value Z) :=
  value ← read_value (field AnonStructBe833d82c728025b "value" x);
  key ← as_str (str_of_bytes (field AnonStructBe833d82c728025b "key" x));
  mret (chars key, value).

Fixpoint read_fields (items : list (list Z)) : M (list (LogFormat.str * LogFormat.Value Z)) :=
  match items with [] => mret [] | x :: items => f ← read_field x; fs ← read_fields items; mret (f :: fs) end.

(** [roc_log_write] *)
Definition roc_log_write (level : Z) (message : RocStr) (fields : RocListWith) (now_millis : Z) (task : option Z) (s : LogQueue.Sys) : M LogQueue.Sys :=
  items ← list_as_slice (AbiLayout.elem_of true AnonStructBe833d82c728025b) fields;
  fs ← read_fields items;
  text ← as_str message;
  let s := log level (chars text) fs now_millis task s in
  _ ← str_decref message;
  _ ← decref_list_of_anon_struct_be833d82c728025b fields;
  mret s.

(** Logging from Roc: what is queued is the line of the message and the
    fields as they are in memory, if the level is enabled, and nothing
    otherwise; in either case the message and the fields are given up, just
    as the function's declaration says, and nothing else is. *)
Theorem log_write_exact call level vm vf now_millis task s m g g' items fs text :
  list_as_slice (AbiLayout.elem_of true AnonStructBe833d82c728025b) (list_of_bytes vf) m = Done items m ->
  read_fields items m = Done fs m -> as_str (str_of_bytes vm) m = Done text m ->
  Rep m g -> HostExports.gives_arguments (contents m) (AbiHosted.params AbiHosted.Declared.roc_log_write) [le 1 level; vm; vf] g g' ->
  exists m', roc_log_write level (str_of_bytes vm) (list_of_bytes vf) now_millis task s m =
      Done (if log_level <=? level
            then LogQueue.push log_buffer_bytes (LogFormat.format_line float is_finite log_json now_millis level (chars text) fs task) s else s) m' /\
    AbiHosted.release_arguments call AbiHosted.Declared.roc_log_write [le 1 level; vm; vf] m = Done tt m' /\ Rep m' g'.
Proof.
  intros Hl Hf Ht HR Hg. destruct (HostExports.listed_exact call "roc_log_write" AbiHosted.Declared.roc_log_write [le 1 level; vm; vf] m g g') as (m' & E & HR' & _);
    [unfold AbiHosted.declared; repeat (apply elem_of_cons; first [left; reflexivity | right])|done..|].
  exists m'. split_and!; [|exact E|exact HR']. unfold roc_log_write, mbind, M_bind. rewrite Hl, Hf, Ht.
  unfold AbiHosted.release_arguments in E. cbn [AbiHosted.owned AbiHosted.params AbiHosted.Declared.roc_log_write AbiHosted.release_listed lookup list_lookup AbiHosted.erase AbiHosted.run_release] in E.
  unfold mbind, M_bind in E. destruct (str_decref (str_of_bytes vm) m) as [| |[] m1]; [done..|].
  destruct (decref_list_of_anon_struct_be833d82c728025b (list_of_bytes vf) m1) as [| |[] m2]; [done..|]. injection E as <-.
  unfold mret, M_ret, log, enabled. by destruct (log_level <=? level).
Qed.

End Hosted.

(** A line without fields, at a level that is written. *)
Lemma log_write_exact_witness :
  exists s m, one_string = Done s m /\ exists q m', roc_log_write (fun _ => []) (fun _ => true) 1 true 64 2 s (list_of_bytes (repeat 0 24)) 1000 None LogQueue.sys_new m = Done q m' /\
    length (LogQueue.lines (LogQueue.queue q)) = 1%nat /\ live m' = ∅.
Proof.
  destruct one_string_owned as (s & m & g & E1 & HR & Hg). pose proof E1 as E2. vm_compute in E2. injection E2 as <- <-.
  match type of HR with Rep ?m _ => match type of Hg with gives_up _ _ (str_bytes ?s) _ _ => exists s, m end end. split; [exact E1|].
  match type of HR with Rep ?m _ => match type of Hg with gives_up _ _ ?v _ _ =>
    destruct (log_write_exact (fun _ => []) (fun _ => true) 1 true 64 (fun _ _ => mret tt) 2 v (repeat 0 24) 1000 None LogQueue.sys_new m g ∅ [] [] long) as (m' & E & _ & HR') end end;
    [vm_compute; reflexivity|reflexivity|vm_compute; reflexivity|exact HR| |].
  - eapply HostExports.ga_cons; [by apply gu_plain|]. eapply HostExports.ga_cons; [exact Hg|]. eapply HostExports.ga_cons; [by apply gu_none|apply HostExports.ga_nil].
  - eexists _, m'. split_and!; [exact E|vm_compute; reflexivity|by apply rep_empty].
Defined.

End LogHosted.
