(* ===== verification/AbiCodec.v ===== *)
(** * Values as bytes ([src/roc_platform_abi.rs])

    That [#[repr(C)]] keeps the parts of a type apart, aligned and inside it,
    on both widths; and that what is written as a tagged union is read back
    by the generated accessors of its tag and payloads, whatever the padding
    holds. *)
From S2P Require Import Prelude RocMem RocValues RocRefs AbiLayout AbiTypes.
From stdpp Require Import strings.
Local Open Scope Z_scope.

Module AbiCodec.
Import RocMem RocValues AbiLayout AbiTypes.

(** ** Values *)

Inductive Val :=
  | VUnit
  | VBool (b : bool)
  | VInt (n : Z)
  | VStr (s : RocStr)
  | VList (l : RocListWith)
  | VPtr (p : Z)
  | VTag (n : nat)
  | VStruct (vs : list Val)
  | VUnion (tag : nat) (v : Val).

Definition in_word (x : Z) : bool := (0 <=? x) && (x <? 2 ^ 64).

Section Codec.
(** What the padding holds. *)
Variable fill : Z.
Definition pad (n : Z) : list Z := repeat fill (Z.to_nat n).

Fixpoint encode_fields (at_ : Z) (fs : list ((Val -> option (list Z)) * Z)) (offs : list Z) (vs : list Val) : option (list Z) :=
  match fs, offs, vs with
  | [], [], [] => Some []
  | (enc, n) :: fs, off :: offs, v :: vs => b ← enc v; rest ← encode_fields (off + n) fs offs vs; Some (pad (off - at_) ++ b ++ rest)
  | _, _, _ => None
  end.

(** A value of the type as bytes, as on a 64-bit target; [None] if it isn't one. *)
Fixpoint encode (t : Ty) (v : Val) : option (list Z) :=
  match t, v with
  | Unit, VUnit => Some []
  | Bool, VBool b => Some [if b then 1 else 0]
  | Int n, VInt k => if (0 <=? k) && (k <? 256 ^ n) then Some (le (Z.to_nat n) k) else None
  | Str, VStr s => if in_word (s_bytes s) && in_word (s_capacity_or_alloc_ptr s) && in_word (s_length s) then Some (str_bytes s) else None
  | ListOf _ _, VList l => if in_word (elements l) && in_word (l_length l) && in_word (capacity_or_alloc_ptr l) then Some (list_bytes l) else None
  | Box, VPtr p | Callable, VPtr p => if in_word p then Some (le 8 p) else None
  | Enum tags, VTag n => if (n <? length tags)%nat then Some [Z.of_nat n] else None
  | Struct fs, VStruct vs =>
      b ← encode_fields 0 (map (fun f => (encode f.2, size W64 f.2)) fs) (field_offsets W64 fs) vs;
      Some (b ++ pad (size W64 t - Z.of_nat (length b)))
  | Union vs _ _, VUnion tag p =>
      enc ← map (fun f => encode f.2) vs !! tag; b ← enc p; off ← tag_offset W64 t;
      Some (b ++ pad (off - Z.of_nat (length b)) ++ [Z.of_nat tag] ++ pad (size W64 t - off - 1))
  | _, _ => None
  end.

Fixpoint decode_fields (fs : list ((list Z -> option Val) * Z)) (offs : list Z) (value : list Z) : option (list Val) :=
  match fs, offs with
  | (dec, n) :: fs, off :: offs => v ← dec (slice off n value); vs ← decode_fields fs offs value; Some (v :: vs)
  | _, _ => Some []
  end.

(** Reading a value by the type's fields and accessors. *)
Fixpoint decode (t : Ty) (value : list Z) : option Val :=
  match t with
  | Unit => Some VUnit
  | Bool => match value with [0] => Some (VBool false) | [1] => Some (VBool true) | _ => None end
  | Int n => Some (VInt (of_le value))
  | Str => Some (VStr (str_of_bytes value))
  | ListOf _ _ => Some (VList (list_of_bytes value))
  | Box | Callable => Some (VPtr (ptr_of_bytes value))
  | Enum tags => b ← head value; if (0 <=? b) && (b <? Z.of_nat (length tags)) then Some (VTag (Z.to_nat b)) else None
  | Struct fs => vs ← decode_fields (map (fun f => (decode f.2, size W64 f.2)) fs) (field_offsets W64 fs) value; Some (VStruct vs)
  | Union vs _ _ =>
      tag ← tag_byte t value;
      dec ← (if 0 <=? tag then map (fun f => fun v => decode f.2 (payload f.2 v)) vs !! Z.to_nat tag else None);
      p ← dec value; Some (VUnion (Z.to_nat tag) p)
  end.

(** ** Where the parts lie *)

Definition power (a : Z) : Prop := a = 1 \/ a = 2 \/ a = 4 \/ a = 8.

Lemma power_divide a b : power a -> power b -> a <= b -> (a | b).
Proof.
  intros [->|[->|[->| ->]]] [->|[->|[->| ->]]] ?; try lia; apply Z.mod_divide; (lia || reflexivity).
Qed.

Lemma power_pos a : power a -> 1 <= a.
Proof. unfold power. lia. Qed.

Lemma power_max l : Forall power l -> power (Z.max 1 (maximum l)) /\ forall a, a ∈ l -> a <= Z.max 1 (maximum l).
Proof.
  intros H. assert (maximum l = 0 \/ power (maximum l)) as Hm.
  { induction H as [|a l Ha _ IH]; [by left|]. right. change (maximum (a :: l)) with (Z.max a (maximum l)). pose proof (power_pos _ Ha).
    destruct IH as [->|IH]; [by rewrite Z.max_l by lia|]. destruct (Z.max_spec a (maximum l)) as [[_ ->]|[_ ->]]; done. }
  split.
  - destruct Hm as [->|Hm]; [by left|]. pose proof (power_pos _ Hm). by rewrite Z.max_r by lia.
  - intros a Ha. clear H Hm. induction l as [|b l IH]; [by apply elem_of_nil in Ha|]. change (maximum (b :: l)) with (Z.max b (maximum l)).
    apply elem_of_cons in Ha as [->|Ha]; [lia|]. specialize (IH Ha). lia.
Qed.

Lemma maximum_ge l a : a ∈ l -> a <= maximum l.
Proof.
  induction l as [|b l IH]; intros Ha; [by apply elem_of_nil in Ha|]. change (maximum (b :: l)) with (Z.max b (maximum l)).
  apply elem_of_cons in Ha as [->|Ha]; [lia|]. specialize (IH Ha). lia.
Qed.

Lemma round_up_spec n a : 0 < a -> n <= round_up n a < n + a /\ (a | round_up n a).
Proof.
  intros Ha. unfold round_up. split; [|by exists ((n + a - 1) / a)]. pose proof (Z.div_mod (n + a - 1) a ltac:(lia)). pose proof (Z.mod_pos_bound (n + a - 1) a Ha). nia.
Qed.

(** The fields follow one another from [at_] on, each at its alignment. *)
Fixpoint spaced (at_ : Z) (fs : list (Z * Z)) (offs : list Z) (end_ : Z) : Prop :=
  match fs, offs with
  | [], [] => at_ = end_
  | (n, a) :: fs, off :: offs => at_ <= off /\ (a | off) /\ spaced (off + n) fs offs end_
  | _, _ => False
  end.

Lemma place_spaced fs at_ : Forall (fun x => 0 <= x.1 /\ 0 < x.2) fs -> spaced at_ fs (place_fields at_ fs).1 (place_fields at_ fs).2.
Proof.
  intros H. revert at_. induction H as [|[n a] fs [Hn Ha] _ IH]; intros at_; cbn [place_fields]; [done|]. cbn [fst snd] in *.
  specialize (IH (round_up at_ a + n)). destruct (place_fields _ fs) as [offs end_]. cbn [fst snd spaced] in *.
  destruct (round_up_spec at_ a Ha) as [? ?]. split_and!; [lia|done..].
Qed.

Lemma spaced_end at_ fs offs end_ : Forall (fun x => 0 <= x.1 /\ 0 < x.2) fs -> spaced at_ fs offs end_ -> at_ <= end_.
Proof.
  intros H. revert at_ offs. induction H as [|[n a] fs [Hn Ha] _ IH]; intros at_ [|off offs]; cbn [spaced]; try done; [lia|].
  intros (? & _ & Hs). apply IH in Hs. cbn [fst] in Hn. lia.
Qed.

Lemma spaced_ge at_ fs offs end_ j off : Forall (fun x => 0 <= x.1 /\ 0 < x.2) fs -> spaced at_ fs offs end_ -> offs !! j = Some off -> at_ <= off.
Proof.
  intros H. revert at_ offs j. induction H as [|[n a] fs [Hn Ha] _ IH]; intros at_ [|off' offs] [|j]; cbn [spaced]; try done.
  - by intros (? & _) [= ->].
  - intros (? & _ & Hs) Hj. specialize (IH _ _ _ Hs Hj). cbn [fst] in Hn. lia.
Qed.

(** Where one field is among them. *)
Lemma spaced_at at_ fs offs end_ i n a off : Forall (fun x => 0 <= x.1 /\ 0 < x.2) fs -> spaced at_ fs offs end_ ->
  fs !! i = Some (n, a) -> offs !! i = Some off ->
  at_ <= off /\ (a | off) /\ off + n <= end_ /\ forall j off', (i < j)%nat -> offs !! j = Some off' -> off + n <= off'.
Proof.
  intros H. revert at_ offs i. induction H as [|[n' a'] fs [Hn Ha] Hfs IH]; intros at_ [|off' offs] [|i]; cbn [spaced]; try done.
  - intros (Hat & Hd & Hs) [= -> ->] [= ->]. split_and!; [done..|by eapply spaced_end|]. intros [|j] off' ?; [lia|]. cbn. intros Hj.
    by eapply spaced_ge.
  - intros (Hat & _ & Hs) Hf Ho. cbn in Hf, Ho. destruct (IH _ _ _ Hs Hf Ho) as (H1 & H2 & H3 & H4). cbn [fst] in Hn. split_and!; [lia|done..|].
    intros [|j] o ? Hj; [lia|]. cbn in Hj. eapply H4; [|done]. lia.
Qed.

(** Sizes and alignments of sound types. *)
Definition fine (sa : Z * Z) : Prop := 0 <= sa.1 /\ power sa.2 /\ (sa.2 | sa.1).

Lemma fine_weak l : Forall fine l -> Forall (fun x : Z * Z => 0 <= x.1 /\ 0 < x.2) l.
Proof. intros H. eapply Forall_impl; [exact H|]. intros [n a] (? & Ha%power_pos & _). cbn in *. lia. Qed.

Lemma fine_round n a : 0 <= n -> power a -> fine (round_up n a, a).
Proof. intros Hn Ha. pose proof (power_pos _ Ha). destruct (round_up_spec n a ltac:(lia)). split_and!; [cbn; lia|done..]. Qed.

Lemma maximum_nonneg l : 0 <= maximum l.
Proof. induction l as [|a l IH]; [done|]. change (maximum (a :: l)) with (Z.max a (maximum l)). lia. Qed.

Lemma map_snd_size w (fs : list (string * Ty)) : (map (fun f => size_align w f.2) fs).*1 = map (fun f => size w f.2) fs /\
  (map (fun f => size_align w f.2) fs).*2 = map (fun f => align w f.2) fs.
Proof. induction fs as [|f fs [IH1 IH2]]; [done|]. cbn. by rewrite IH1, IH2. Qed.

Lemma existsb_in n l : existsb (Z.eqb n) l = true -> n ∈ l.
Proof. intros (x & Hx%list_elem_of_In & ->%Z.eqb_eq)%existsb_exists. done. Qed.

Lemma power_in n : n ∈ [1; 2; 4; 8] -> power n.
Proof. unfold power. set_solver. Qed.

Lemma sound_fields vs (P : string * Ty -> bool) : forallb P vs = true -> Forall (fun f => P f = true) vs.
Proof. intros H. apply Forall_forall. intros f Hf%list_elem_of_In. by eapply forallb_forall in H. Qed.

Lemma sound_fine w t : sound t = true -> fine (size_align w t).
Proof.
  induction t as [| |n| |r e _| | |tags|fs IH|vs b a IH] using Ty_rect'; cbn [sound size_align]; intros Hs.
  - split_and!; [done|by left|by exists 0].
  - split_and!; [done|by left|by exists 1].
  - apply existsb_in, power_in in Hs. pose proof (power_pos _ Hs). split_and!; [cbn; lia|done|apply Z.divide_refl].
  - destruct w; (split_and!; [done|unfold power; cbn; lia|by exists 3]).
  - destruct w; (split_and!; [done|unfold power; cbn; lia|by exists 3]).
  - destruct w; (split_and!; [done|unfold power; cbn; lia|by exists 1]).
  - destruct w; (split_and!; [done|unfold power; cbn; lia|by exists 1]).
  - split_and!; [done|by left|by exists 1].
  - assert (Forall fine (map (fun f => size_align w f.2) fs)) as Hf.
    { apply Forall_fmap. apply sound_fields in Hs. eapply Forall_impl; [apply Forall_and; split; [exact IH|exact Hs]|]. intros f [H1 H2]. by apply H1. }
    apply fine_round.
    + eapply spaced_end; [by apply fine_weak|apply place_spaced; by apply fine_weak].
    + apply power_max, Forall_fmap. eapply Forall_impl; [exact Hf|]. by intros [??] (_ & ? & _).
  - apply andb_true_iff in Hs as [[[Hs _]%andb_true_iff Ha]%andb_true_iff Hb%Z.leb_le].
    assert (Forall fine (map (fun f => size_align w f.2) vs)) as Hf.
    { apply Forall_fmap. apply sound_fields in Hs. eapply Forall_impl; [apply Forall_and; split; [exact IH|exact Hs]|]. intros f [H1 H2]. apply H1.
      by apply andb_true_iff in H2 as [[? _]%andb_true_iff _]. }
    destruct w.
    + assert (power (Z.max 1 (maximum (map (fun f => size_align W64 f.2) vs).*2))) as Hp.
      { apply power_max, Forall_fmap. eapply Forall_impl; [exact Hf|]. by intros [??] (_ & ? & _). }
      apply fine_round; [|done]. destruct (fine_round (maximum (map (fun f => size_align W64 f.2) vs).*1) _ (maximum_nonneg _) Hp) as [H0 _]. cbn [fst] in H0. lia.
    + apply fine_round; [lia|]. by apply power_in, existsb_in.
Qed.

Lemma sound_struct fs : sound (Struct fs) = true -> Forall (fun f => sound f.2 = true) fs.
Proof. apply sound_fields. Qed.

Lemma sound_union vs b a : sound (Union vs b a) = true -> Forall (fun f => sound f.2 = true) vs /\ (length vs <= 256)%nat.
Proof.
  cbn [sound]. intros [[[Hs Hl%Nat.leb_le]%andb_true_iff _]%andb_true_iff _]%andb_true_iff. split; [|done].
  apply sound_fields in Hs. eapply Forall_impl; [exact Hs|]. by intros f [[? _]%andb_true_iff _]%andb_true_iff.
Qed.

Lemma all_fine w fs : Forall (fun f : string * Ty => sound f.2 = true) fs -> Forall fine (map (fun f => size_align w f.2) fs).
Proof. intros H. apply Forall_fmap. eapply Forall_impl; [exact H|]. intros f Hf. by apply sound_fine. Qed.

(** The fields of a struct are apart and inside it. *)
Lemma struct_spaced w fs : sound (Struct fs) = true ->
  exists end_, spaced 0 (map (fun f => size_align w f.2) fs) (field_offsets w fs) end_ /\ 0 <= end_ <= size w (Struct fs).
Proof.
  intros Hs. pose proof (all_fine w fs (sound_struct _ Hs)) as Hf. exists (place_fields 0 (map (fun f => size_align w f.2) fs)).2.
  assert (spaced 0 (map (fun f => size_align w f.2) fs) (field_offsets w fs) (place_fields 0 (map (fun f => size_align w f.2) fs)).2) as Hsp by (apply place_spaced; by apply fine_weak).
  split; [done|]. split; [by eapply spaced_end; [apply fine_weak|]|]. unfold size. cbn [size_align fst]. apply round_up_spec. lia.
Qed.

(** The payloads of a union lie before its tag, and the tag is inside it. *)
Lemma union_tag w vs b a : sound (Union vs b a) = true ->
  exists off, tag_offset w (Union vs b a) = Some off /\ 0 <= off < size w (Union vs b a) /\ forall f, f ∈ vs -> size w f.2 <= off.
Proof.
  intros Hs. pose proof Hs as Hs'. cbn [sound] in Hs'. apply andb_true_iff in Hs' as [[[Hv _]%andb_true_iff Ha]%andb_true_iff Hb%Z.leb_le].
  cbn [tag_offset]. eexists. split; [done|]. change (size w (Union vs b a)) with (size_align w (Union vs b a)).1. cbn [size_align]. destruct (map_snd_size w vs) as [E1 E2].
  assert (forall f, f ∈ vs -> size w f.2 ∈ map (fun f => size w f.2) vs) as Hin by (intros f Hf; apply list_elem_of_fmap; by exists f).
  destruct w.
  - rewrite E1, E2. set (al := Z.max 1 _). destruct (round_up_spec (maximum (map (fun f => size W64 f.2) vs)) al ltac:(lia)) as [H1 _]. cbn [fst].
    pose proof (maximum_nonneg (map (fun f => size W64 f.2) vs)). split.
    + destruct (round_up_spec (round_up (maximum (map (fun f => size W64 f.2) vs)) al + 1) al ltac:(lia)). lia.
    + intros f Hf%Hin%maximum_ge. lia.
  - cbn [fst]. apply existsb_in, power_in, power_pos in Ha. split; [destruct (round_up_spec (b + 1) a ltac:(lia)); lia|].
    intros f Hf%list_elem_of_In. eapply forallb_forall in Hv; [|done]. apply andb_true_iff in Hv as [[_ ?%Z.leb_le]%andb_true_iff _]. done.
Qed.

(** ** Reading back what was written *)

Definition restores (t : Ty) : Prop := forall v b, encode t v = Some b -> Z.of_nat (length b) = size W64 t /\ decode t b = Some v.

Lemma length_pad n : 0 <= n -> Z.of_nat (length (pad n)) = n.
Proof. intros. unfold pad. rewrite repeat_length. lia. Qed.

Lemma slice_here pre b post off n : Z.of_nat (length pre) = off -> Z.of_nat (length b) = n -> slice off n (pre ++ b ++ post) = b.
Proof. intros <- <-. unfold slice. rewrite !Nat2Z.id, drop_app_length, take_app_length. done. Qed.

Lemma fields_restored fs at_ offs end_ vs b :
  Forall (fun f : string * Ty => restores f.2) fs -> spaced at_ (map (fun f => size_align W64 f.2) fs) offs end_ ->
  encode_fields at_ (map (fun f => (encode f.2, size W64 f.2)) fs) offs vs = Some b ->
  at_ + Z.of_nat (length b) = end_ /\
  forall pre post, Z.of_nat (length pre) = at_ -> decode_fields (map (fun f => (decode f.2, size W64 f.2)) fs) offs (pre ++ b ++ post) = Some vs.
Proof.
  intros H. revert at_ offs vs b. induction H as [|f fs Hf _ IH]; intros at_ [|off offs] [|v vs] b; cbn [map encode_fields decode_fields spaced]; try done.
  - intros ->. intros [= <-]. split; [cbn; lia|done].
  - destruct (size_align W64 f.2) as [n al] eqn:Esa. intros (Hat & _ & Hsp). assert (size W64 f.2 = n) as En by (unfold size; by rewrite Esa). rewrite En.
    intros E. apply bind_Some in E as (b1 & E1 & E). apply bind_Some in E as (rest & E2 & [= <-]). destruct (Hf _ _ E1) as [L1 D1]. rewrite En in L1.
    destruct (IH _ _ _ _ Hsp E2) as [L2 D2]. pose proof (length_pad (off - at_) ltac:(lia)) as Lp. split; [rewrite !length_app; lia|].
    intros pre post Hpre. rewrite <- !app_assoc. rewrite (app_assoc pre). rewrite (slice_here (pre ++ pad (off - at_))) by first [rewrite length_app; lia|done].
    rewrite D1. cbn [mbind option_bind]. rewrite (app_assoc _ b1), D2 by (rewrite !length_app; lia). done.
Qed.

Lemma in_word_true x : in_word x = true <-> 0 <= x < 2 ^ 64.
Proof. unfold in_word. rewrite andb_true_iff, Z.leb_le, Z.ltb_lt. done. Qed.

Lemma three_words x y z : 0 <= x < 2 ^ 64 -> 0 <= y < 2 ^ 64 -> 0 <= z < 2 ^ 64 ->
  let b := le 8 x ++ le 8 y ++ le 8 z in of_le (take 8 b) = x /\ of_le (take 8 (drop 8 b)) = y /\ of_le (take 8 (drop 16 b)) = z.
Proof.
  intros Hx Hy Hz b. unfold b. change 16%nat with (8 + 8)%nat. rewrite <- drop_drop.
  rewrite !(drop_app_length' _ _ 8) by (by rewrite ?length_le). rewrite !(take_app_length' _ _ 8), take_ge by (by rewrite ?length_le).
  rewrite !of_le_le; [done|..]; change (256 ^ Z.of_nat 8) with (2 ^ 64); done.
Qed.

Lemma ptr_restored p : 0 <= p < 2 ^ 64 -> ptr_of_bytes (le 8 p) = p.
Proof. intros Hp. unfold ptr_of_bytes. rewrite take_ge by (by rewrite length_le). by apply of_le_le. Qed.

Lemma encode_restores t : sound t = true -> restores t.
Proof.
  induction t as [| |n| |r e _| | |tags|fs IH|vs b32 a32 IH] using Ty_rect'; intros Hs v b; destruct v; cbn [encode]; try done.
  - by intros [= <-].
  - intros [= <-]. by destruct b0.
  - destruct (_ && _) eqn:E; [|done]. apply andb_true_iff in E as [H1%Z.leb_le H2%Z.ltb_lt]. intros [= <-].
    apply existsb_in, power_in, power_pos in Hs. split; [rewrite length_le; unfold size; cbn; lia|]. cbn [decode]. by rewrite of_le_le by (rewrite Z2Nat.id by lia; done).
  - destruct (in_word _) eqn:E1; [|done]. destruct (in_word _) eqn:E2 in |- *; [|done]. cbn [andb]. destruct (in_word (s_length s)) eqn:E3; [|done]. intros [= <-].
    apply in_word_true in E1, E2, E3. split; [done|]. cbn [decode]. unfold str_of_bytes, str_bytes. destruct (three_words _ _ _ E1 E2 E3) as (-> & -> & ->). by destruct s.
  - destruct (in_word _) eqn:E1; [|done]. destruct (in_word _) eqn:E2 in |- *; [|done]. cbn [andb]. destruct (in_word (capacity_or_alloc_ptr l)) eqn:E3; [|done]. intros [= <-].
    apply in_word_true in E1, E2, E3. split; [done|]. cbn [decode]. unfold list_of_bytes, list_bytes. destruct (three_words _ _ _ E1 E2 E3) as (-> & -> & ->). by destruct l.
  - destruct (in_word p) eqn:E; [|done]. intros [= <-]. apply in_word_true in E. split; [done|]. cbn [decode]. do 2 f_equal. exact (ptr_restored p E).
  - destruct (in_word p) eqn:E; [|done]. intros [= <-]. apply in_word_true in E. split; [done|]. cbn [decode]. do 2 f_equal. exact (ptr_restored p E).
  - destruct (Nat.ltb_spec n (length tags)); [|done]. intros [= <-]. split; [done|]. cbn [decode head mbind option_bind].
    rewrite (proj2 (Z.leb_le _ _)), (proj2 (Z.ltb_lt _ _)) by lia. cbn [andb]. by rewrite Nat2Z.id.
  - intros E. apply bind_Some in E as (b0 & E & [= <-]). destruct (struct_spaced W64 fs Hs) as (end_ & Hsp & He).
    destruct (fields_restored fs 0 (field_offsets W64 fs) end_ vs b0) as [L D]; [|done..|].
    { eapply Forall_impl; [apply Forall_and; split; [exact IH|exact (sound_struct _ Hs)]|]. intros f [H1 H2]. by apply H1. }
    split; [rewrite length_app; pose proof (length_pad (size W64 (Struct fs) - Z.of_nat (length b0)) ltac:(lia)); lia|].
    cbn [decode]. specialize (D [] (pad (size W64 (Struct fs) - Z.of_nat (length b0))) eq_refl). cbn [app] in D. by rewrite D.
  - destruct (union_tag W64 vs b32 a32 Hs) as (off & Eo & Ho & Hp). cbv zeta.
    intros E. apply bind_Some in E as (enc & E1 & E). apply bind_Some in E as (b0 & E2 & E). rewrite Eo in E. injection E as <-.
    rewrite list_lookup_fmap in E1. destruct (vs !! tag) as [f|] eqn:Ev; [|done]. injection E1 as <-. pose proof (list_elem_of_lookup_2 _ _ _ Ev) as Hin.
    destruct (sound_union _ _ _ Hs) as [Hsv Hl]. assert (restores f.2) as Hr by (apply (proj1 (Forall_forall _ _) IH f Hin); by apply (proj1 (Forall_forall _ _) Hsv f Hin)).
    destruct (Hr _ _ E2) as [L D]. specialize (Hp f Hin). pose proof (length_pad (off - Z.of_nat (length b0)) ltac:(lia)) as L1.
    pose proof (length_pad (size W64 (Union vs b32 a32) - off - 1) ltac:(lia)) as L2. split; [rewrite !length_app; cbn [length]; lia|].
    cbn [decode]. unfold tag_byte. rewrite Eo. cbn [mbind option_bind]. rewrite (app_assoc b0), lookup_app_r by (rewrite length_app; lia).
    replace (Z.to_nat off - length (b0 ++ pad (off - Z.of_nat (length b0))))%nat with 0%nat by (rewrite length_app; lia). cbn [lookup list_lookup app mbind option_bind].
    rewrite (proj2 (Z.leb_le _ _)), Nat2Z.id, list_lookup_fmap, Ev by lia. cbn [fmap option_fmap option_map mbind option_bind]. rewrite <- app_assoc.
    unfold payload. rewrite <- L, Nat2Z.id, take_app_length, D. done.
Qed.

(** What an encoded union has at its tag and at its start. *)
Lemma union_parts vs b32 a32 v b : sound (Union vs b32 a32) = true -> encode (Union vs b32 a32) v = Some b ->
  exists k p f, v = VUnion k p /\ vs !! k = Some f /\ tag_byte (Union vs b32 a32) b = Some (Z.of_nat k) /\ decode f.2 (payload f.2 b) = Some p.
Proof.
  intros Hs He. destruct (encode_restores _ Hs _ _ He) as [_ Hd]. cbn [decode] in Hd. apply bind_Some in Hd as (tag & Ht & Hd).
  apply bind_Some in Hd as (dec & Hdec & Hd). apply bind_Some in Hd as (p & Hp & [= <-]). destruct (Z.leb_spec 0 tag); [|done].
  rewrite list_lookup_fmap in Hdec. destruct (vs !! Z.to_nat tag) as [f|] eqn:Ef; [|done]. injection Hdec as <-.
  exists (Z.to_nat tag), p, f. split_and!; [done|done|by rewrite Z2Nat.id|done].
Qed.

End Codec.

(** ** The generated accessors *)

(** What an accessor returns, as a value: a string, a list, a pointer, an
    integer, a [bool], or a type of its own. *)
Definition as_str (read : list Z -> RocStr) (b : list Z) : option Val := Some (VStr (read b)).
Definition as_list (read : list Z -> RocListWith) (b : list Z) : option Val := Some (VList (read b)).
Definition as_ptr (read : list Z -> Z) (b : list Z) : option Val := Some (VPtr (read b)).
Definition as_int (read : list Z -> Z) (b : list Z) : option Val := Some (VInt (read b)).
Definition as_bool (read : list Z -> Z) (b : list Z) : option Val :=
  match read b with 0 => Some (VBool false) | 1 => Some (VBool true) | _ => None end.
Definition as_bytes (t : Ty) (read : list Z -> list Z) (b : list Z) : option Val := decode t (read b).

(** A union: the name of the tag its tag type gives a byte, and the accessor
    of each variant with a payload. *)
Record Accessors := mkAccessors { a_ty : Ty; a_tag : Z -> option string; a_payloads : list (string * (list Z -> option Val)) }.

Definition accessors : list Accessors := [
  mkAccessors HostStderrLineResult (fun b => match HostStderrLineResultTag_of b with Some HostStderrLineResultTag_Err => Some "Err" | Some HostStderrLineResultTag_Ok => Some "Ok" | None => None end)
    [("Err", as_str HostStderrLineResult_payload_err)];
  mkAccessors HostStdinLineResult (fun b => match HostStdinLineResultTag_of b with Some HostStdinLineResultTag_Err => Some "Err" | Some HostStdinLineResultTag_Ok => Some "Ok" | None => None end)
    [("Err", as_str HostStdinLineResult_payload_err); ("Ok", as_str HostStdinLineResult_payload_ok)];
  mkAccessors HostIOErr (fun b => match HostIOErrTag_of b with Some HostIOErrTag_AddrInUse => Some "AddrInUse" | Some HostIOErrTag_AddrNotAvailable => Some "AddrNotAvailable" | Some HostIOErrTag_AlreadyExists => Some "AlreadyExists" | Some HostIOErrTag_BrokenPipe => Some "BrokenPipe" | Some HostIOErrTag_Cancelled => Some "Cancelled" | Some HostIOErrTag_ConnectionAborted => Some "ConnectionAborted" | Some HostIOErrTag_ConnectionRefused => Some "ConnectionRefused" | Some HostIOErrTag_ConnectionReset => Some "ConnectionReset" | Some HostIOErrTag_Interrupted => Some "Interrupted" | Some HostIOErrTag_InvalidInput => Some "InvalidInput" | Some HostIOErrTag_NotConnected => Some "NotConnected" | Some HostIOErrTag_NotFound => Some "NotFound" | Some HostIOErrTag_Other => Some "Other" | Some HostIOErrTag_PermissionDenied => Some "PermissionDenied" | Some HostIOErrTag_TimedOut => Some "TimedOut" | Some HostIOErrTag_TooManySockets => Some "TooManySockets" | Some HostIOErrTag_UnexpectedEof => Some "UnexpectedEof" | Some HostIOErrTag_Unsupported => Some "Unsupported" | None => None end)
    [("Other", as_str HostIOErr_payload_other)];
  mkAccessors HostSignalCatchResult (fun b => match HostSignalCatchResultTag_of b with Some HostSignalCatchResultTag_Err => Some "Err" | Some HostSignalCatchResultTag_Ok => Some "Ok" | None => None end)
    [("Err", as_bytes HostIOErr HostSignalCatchResult_payload_err)];
  mkAccessors GotOrNotReady (fun b => match GotOrNotReadyTag_of b with Some GotOrNotReadyTag_Got => Some "Got" | Some GotOrNotReadyTag_NotReady => Some "NotReady" | None => None end)
    [("Got", as_int GotOrNotReady_payload_got)];
  mkAccessors CancelledOrGot (fun b => match CancelledOrGotTag_of b with Some CancelledOrGotTag_Cancelled => Some "Cancelled" | Some CancelledOrGotTag_Got => Some "Got" | None => None end)
    [("Got", as_int CancelledOrGot_payload_got)];
  mkAccessors EndOrFailedOrLineOrNotReadyOrTooLong (fun b => match EndOrFailedOrLineOrNotReadyOrTooLongTag_of b with Some EndOrFailedOrLineOrNotReadyOrTooLongTag_End => Some "End" | Some EndOrFailedOrLineOrNotReadyOrTooLongTag_Failed => Some "Failed" | Some EndOrFailedOrLineOrNotReadyOrTooLongTag_Line => Some "Line" | Some EndOrFailedOrLineOrNotReadyOrTooLongTag_NotReady => Some "NotReady" | Some EndOrFailedOrLineOrNotReadyOrTooLongTag_TooLong => Some "TooLong" | None => None end)
    [("Failed", as_str EndOrFailedOrLineOrNotReadyOrTooLong_payload_failed); ("Line", as_str EndOrFailedOrLineOrNotReadyOrTooLong_payload_line)];
  mkAccessors EndOrFailedOrLineOrTooLong (fun b => match EndOrFailedOrLineOrTooLongTag_of b with Some EndOrFailedOrLineOrTooLongTag_End => Some "End" | Some EndOrFailedOrLineOrTooLongTag_Failed => Some "Failed" | Some EndOrFailedOrLineOrTooLongTag_Line => Some "Line" | Some EndOrFailedOrLineOrTooLongTag_TooLong => Some "TooLong" | None => None end)
    [("Failed", as_str EndOrFailedOrLineOrTooLong_payload_failed); ("Line", as_str EndOrFailedOrLineOrTooLong_payload_line)];
  mkAccessors HostStdoutLineResult (fun b => match HostStdoutLineResultTag_of b with Some HostStdoutLineResultTag_Err => Some "Err" | Some HostStdoutLineResultTag_Ok => Some "Ok" | None => None end)
    [("Err", as_str HostStdoutLineResult_payload_err)];
  mkAccessors IOErr (fun b => match IOErrTag_of b with Some IOErrTag_AddrInUse => Some "AddrInUse" | Some IOErrTag_AddrNotAvailable => Some "AddrNotAvailable" | Some IOErrTag_AlreadyExists => Some "AlreadyExists" | Some IOErrTag_BrokenPipe => Some "BrokenPipe" | Some IOErrTag_Cancelled => Some "Cancelled" | Some IOErrTag_ConnectionAborted => Some "ConnectionAborted" | Some IOErrTag_ConnectionRefused => Some "ConnectionRefused" | Some IOErrTag_ConnectionReset => Some "ConnectionReset" | Some IOErrTag_Interrupted => Some "Interrupted" | Some IOErrTag_InvalidInput => Some "InvalidInput" | Some IOErrTag_NotConnected => Some "NotConnected" | Some IOErrTag_NotFound => Some "NotFound" | Some IOErrTag_Other => Some "Other" | Some IOErrTag_PermissionDenied => Some "PermissionDenied" | Some IOErrTag_TimedOut => Some "TimedOut" | Some IOErrTag_TooManySockets => Some "TooManySockets" | Some IOErrTag_UnexpectedEof => Some "UnexpectedEof" | Some IOErrTag_Unsupported => Some "Unsupported" | None => None end)
    [("Other", as_str IOErr_payload_other)];
  mkAccessors HostSocketAcceptResult (fun b => match HostSocketAcceptResultTag_of b with Some HostSocketAcceptResultTag_Err => Some "Err" | Some HostSocketAcceptResultTag_Ok => Some "Ok" | None => None end)
    [("Err", as_bytes IOErr HostSocketAcceptResult_payload_err); ("Ok", as_ptr HostSocketAcceptResult_payload_ok)];
  mkAccessors HostSocketLocalAddrResult (fun b => match HostSocketLocalAddrResultTag_of b with Some HostSocketLocalAddrResultTag_Err => Some "Err" | Some HostSocketLocalAddrResultTag_Ok => Some "Ok" | None => None end)
    [("Err", as_bytes IOErr HostSocketLocalAddrResult_payload_err); ("Ok", as_str HostSocketLocalAddrResult_payload_ok)];
  mkAccessors HostTlsPeerCertificatesResult (fun b => match HostTlsPeerCertificatesResultTag_of b with Some HostTlsPeerCertificatesResultTag_Err => Some "Err" | Some HostTlsPeerCertificatesResultTag_Ok => Some "Ok" | None => None end)
    [("Err", as_bytes IOErr HostTlsPeerCertificatesResult_payload_err); ("Ok", as_list HostTlsPeerCertificatesResult_payload_ok)];
  mkAccessors HostFileExistsResult (fun b => match HostFileExistsResultTag_of b with Some HostFileExistsResultTag_Err => Some "Err" | Some HostFileExistsResultTag_Ok => Some "Ok" | None => None end)
    [("Err", as_bytes IOErr HostFileExistsResult_payload_err); ("Ok", as_bool HostFileExistsResult_payload_ok)];
  mkAccessors HostFileReadResult (fun b => match HostFileReadResultTag_of b with Some HostFileReadResultTag_Err => Some "Err" | Some HostFileReadResultTag_Ok => Some "Ok" | None => None end)
    [("Err", as_bytes IOErr HostFileReadResult_payload_err); ("Ok", as_list HostFileReadResult_payload_ok)];
  mkAccessors DataOrFailedOrNotReady (fun b => match DataOrFailedOrNotReadyTag_of b with Some DataOrFailedOrNotReadyTag_Data => Some "Data" | Some DataOrFailedOrNotReadyTag_Failed => Some "Failed" | Some DataOrFailedOrNotReadyTag_NotReady => Some "NotReady" | None => None end)
    [("Data", as_list DataOrFailedOrNotReady_payload_data); ("Failed", as_bytes IOErr DataOrFailedOrNotReady_payload_failed)];
  mkAccessors AcceptedOrFailedOrNotReady (fun b => match AcceptedOrFailedOrNotReadyTag_of b with Some AcceptedOrFailedOrNotReadyTag_Accepted => Some "Accepted" | Some AcceptedOrFailedOrNotReadyTag_Failed => Some "Failed" | Some AcceptedOrFailedOrNotReadyTag_NotReady => Some "NotReady" | None => None end)
    [("Accepted", as_ptr AcceptedOrFailedOrNotReady_payload_accepted); ("Failed", as_bytes IOErr AcceptedOrFailedOrNotReady_payload_failed)];
  mkAccessors CancelledOrDoneOrMessageTimedOutOrReadOrWrite (fun b => match CancelledOrDoneOrMessageTimedOutOrReadOrWriteTag_of b with Some CancelledOrDoneOrMessageTimedOutOrReadOrWriteTag_Cancelled => Some "Cancelled" | Some CancelledOrDoneOrMessageTimedOutOrReadOrWriteTag_Done => Some "Done" | Some CancelledOrDoneOrMessageTimedOutOrReadOrWriteTag_MessageTimedOut => Some "MessageTimedOut" | Some CancelledOrDoneOrMessageTimedOutOrReadOrWriteTag_Read => Some "Read" | Some CancelledOrDoneOrMessageTimedOutOrReadOrWriteTag_Write => Some "Write" | None => None end)
    [("Read", as_bytes IOErr CancelledOrDoneOrMessageTimedOutOrReadOrWrite_payload_read); ("Write", as_bytes IOErr CancelledOrDoneOrMessageTimedOutOrReadOrWrite_payload_write)];
  mkAccessors ExactlyOrUntilEnd (fun b => match ExactlyOrUntilEndTag_of b with Some ExactlyOrUntilEndTag_Exactly => Some "Exactly" | Some ExactlyOrUntilEndTag_UntilEnd => Some "UntilEnd" | None => None end)
    [("Exactly", as_int ExactlyOrUntilEnd_payload_exactly)];
  mkAccessors CancelledOrDoneOrReadAOrReadBOrTaskLimitReachedOrWriteAOrWriteB (fun b => match CancelledOrDoneOrReadAOrReadBOrTaskLimitReachedOrWriteAOrWriteBTag_of b with Some CancelledOrDoneOrReadAOrReadBOrTaskLimitReachedOrWriteAOrWriteBTag_Cancelled => Some "Cancelled" | Some CancelledOrDoneOrReadAOrReadBOrTaskLimitReachedOrWriteAOrWriteBTag_Done => Some "Done" | Some CancelledOrDoneOrReadAOrReadBOrTaskLimitReachedOrWriteAOrWriteBTag_ReadA => Some "ReadA" | Some CancelledOrDoneOrReadAOrReadBOrTaskLimitReachedOrWriteAOrWriteBTag_ReadB => Some "ReadB" | Some CancelledOrDoneOrReadAOrReadBOrTaskLimitReachedOrWriteAOrWriteBTag_TaskLimitReached => Some "TaskLimitReached" | Some CancelledOrDoneOrReadAOrReadBOrTaskLimitReachedOrWriteAOrWriteBTag_WriteA => Some "WriteA" | Some CancelledOrDoneOrReadAOrReadBOrTaskLimitReachedOrWriteAOrWriteBTag_WriteB => Some "WriteB" | None => None end)
    [("ReadA", as_bytes IOErr CancelledOrDoneOrReadAOrReadBOrTaskLimitReachedOrWriteAOrWriteB_payload_read_a); ("ReadB", as_bytes IOErr CancelledOrDoneOrReadAOrReadBOrTaskLimitReachedOrWriteAOrWriteB_payload_read_b); ("WriteA", as_bytes IOErr CancelledOrDoneOrReadAOrReadBOrTaskLimitReachedOrWriteAOrWriteB_payload_write_a); ("WriteB", as_bytes IOErr CancelledOrDoneOrReadAOrReadBOrTaskLimitReachedOrWriteAOrWriteB_payload_write_b)];
  mkAccessors HostUdpRecvFromResult (fun b => match HostUdpRecvFromResultTag_of b with Some HostUdpRecvFromResultTag_Err => Some "Err" | Some HostUdpRecvFromResultTag_Ok => Some "Ok" | None => None end)
    [("Err", as_bytes IOErr HostUdpRecvFromResult_payload_err); ("Ok", as_bytes AnonStruct6954d79c85a0b6fd HostUdpRecvFromResult_payload_ok)];
  mkAccessors HostUdpRecvResult (fun b => match HostUdpRecvResultTag_of b with Some HostUdpRecvResultTag_Err => Some "Err" | Some HostUdpRecvResultTag_Ok => Some "Ok" | None => None end)
    [("Err", as_bytes IOErr HostUdpRecvResult_payload_err); ("Ok", as_bytes AnonStruct20e6ccaadf41c1a1 HostUdpRecvResult_payload_ok)];
  mkAccessors HostSocketBufferSizeResult (fun b => match HostSocketBufferSizeResultTag_of b with Some HostSocketBufferSizeResultTag_Err => Some "Err" | Some HostSocketBufferSizeResultTag_Ok => Some "Ok" | None => None end)
    [("Err", as_bytes IOErr HostSocketBufferSizeResult_payload_err); ("Ok", as_int HostSocketBufferSizeResult_payload_ok)];
  mkAccessors HostUnixPeerCredentialsResult (fun b => match HostUnixPeerCredentialsResultTag_of b with Some HostUnixPeerCredentialsResultTag_Err => Some "Err" | Some HostUnixPeerCredentialsResultTag_Ok => Some "Ok" | None => None end)
    [("Err", as_bytes IOErr HostUnixPeerCredentialsResult_payload_err); ("Ok", as_bytes AnonStruct4a9a39232e571b2c HostUnixPeerCredentialsResult_payload_ok)];
  mkAccessors BoolOrF64OrI64OrStrOrU64 (fun b => match BoolOrF64OrI64OrStrOrU64Tag_of b with Some BoolOrF64OrI64OrStrOrU64Tag_Bool => Some "Bool" | Some BoolOrF64OrI64OrStrOrU64Tag_F64 => Some "F64" | Some BoolOrF64OrI64OrStrOrU64Tag_I64 => Some "I64" | Some BoolOrF64OrI64OrStrOrU64Tag_Str => Some "Str" | Some BoolOrF64OrI64OrStrOrU64Tag_U64 => Some "U64" | None => None end)
    [("Bool", as_bool BoolOrF64OrI64OrStrOrU64_payload_bool); ("F64", as_int BoolOrF64OrI64OrStrOrU64_payload_f64); ("I64", as_int BoolOrF64OrI64OrStrOrU64_payload_i64); ("Str", as_str BoolOrF64OrI64OrStrOrU64_payload_str); ("U64", as_int BoolOrF64OrI64OrStrOrU64_payload_u64)];
  mkAccessors HostDnsResolveResult (fun b => match HostDnsResolveResultTag_of b with Some HostDnsResolveResultTag_Err => Some "Err" | Some HostDnsResolveResultTag_Ok => Some "Ok" | None => None end)
    [("Err", as_bytes IOErr HostDnsResolveResult_payload_err); ("Ok", as_list HostDnsResolveResult_payload_ok)];
  mkAccessors FoundOrMissingOrNotUtf8 (fun b => match FoundOrMissingOrNotUtf8Tag_of b with Some FoundOrMissingOrNotUtf8Tag_Found => Some "Found" | Some FoundOrMissingOrNotUtf8Tag_Missing => Some "Missing" | Some FoundOrMissingOrNotUtf8Tag_NotUtf8 => Some "NotUtf8" | None => None end)
    [("Found", as_str FoundOrMissingOrNotUtf8_payload_found)];
  mkAccessors LowOrderOrShared (fun b => match LowOrderOrSharedTag_of b with Some LowOrderOrSharedTag_LowOrder => Some "LowOrder" | Some LowOrderOrSharedTag_Shared => Some "Shared" | None => None end)
    [("Shared", as_list LowOrderOrShared_payload_shared)];
  mkAccessors InvalidOrOpened (fun b => match InvalidOrOpenedTag_of b with Some InvalidOrOpenedTag_Invalid => Some "Invalid" | Some InvalidOrOpenedTag_Opened => Some "Opened" | None => None end)
    [("Opened", as_list InvalidOrOpened_payload_opened)];
  mkAccessors BytesOrOutOfMemory (fun b => match BytesOrOutOfMemoryTag_of b with Some BytesOrOutOfMemoryTag_Bytes => Some "Bytes" | Some BytesOrOutOfMemoryTag_OutOfMemory => Some "OutOfMemory" | None => None end)
    [("Bytes", as_list BytesOrOutOfMemory_payload_bytes)];
  mkAccessors HostChannelNewResult (fun b => match HostChannelNewResultTag_of b with Some HostChannelNewResultTag_Err => Some "Err" | Some HostChannelNewResultTag_Ok => Some "Ok" | None => None end)
    [("Ok", as_bytes AnonStructDfa5943259877aa7 HostChannelNewResult_payload_ok)];
  mkAccessors HostChannelReceiveResult (fun b => match HostChannelReceiveResultTag_of b with Some HostChannelReceiveResultTag_Err => Some "Err" | Some HostChannelReceiveResultTag_Ok => Some "Ok" | None => None end)
    [("Err", as_bytes CancelledOrClosedOrTimedOut HostChannelReceiveResult_payload_err); ("Ok", as_ptr HostChannelReceiveResult_payload_ok)];
  mkAccessors CancelledOrReadyOrSourceTimedOutOrTimedOut (fun b => match CancelledOrReadyOrSourceTimedOutOrTimedOutTag_of b with Some CancelledOrReadyOrSourceTimedOutOrTimedOutTag_Cancelled => Some "Cancelled" | Some CancelledOrReadyOrSourceTimedOutOrTimedOutTag_Ready => Some "Ready" | Some CancelledOrReadyOrSourceTimedOutOrTimedOutTag_SourceTimedOut => Some "SourceTimedOut" | Some CancelledOrReadyOrSourceTimedOutOrTimedOutTag_TimedOut => Some "TimedOut" | None => None end)
    [("SourceTimedOut", as_int CancelledOrReadyOrSourceTimedOutOrTimedOut_payload_source_timed_out)];
  mkAccessors JoinableOrReadableOrReceivableOrSendableOrSignalCaughtOrStdinLineOrWritable (fun b => match JoinableOrReadableOrReceivableOrSendableOrSignalCaughtOrStdinLineOrWritableTag_of b with Some JoinableOrReadableOrReceivableOrSendableOrSignalCaughtOrStdinLineOrWritableTag_Joinable => Some "Joinable" | Some JoinableOrReadableOrReceivableOrSendableOrSignalCaughtOrStdinLineOrWritableTag_Readable => Some "Readable" | Some JoinableOrReadableOrReceivableOrSendableOrSignalCaughtOrStdinLineOrWritableTag_Receivable => Some "Receivable" | Some JoinableOrReadableOrReceivableOrSendableOrSignalCaughtOrStdinLineOrWritableTag_Sendable => Some "Sendable" | Some JoinableOrReadableOrReceivableOrSendableOrSignalCaughtOrStdinLineOrWritableTag_SignalCaught => Some "SignalCaught" | Some JoinableOrReadableOrReceivableOrSendableOrSignalCaughtOrStdinLineOrWritableTag_StdinLine => Some "StdinLine" | Some JoinableOrReadableOrReceivableOrSendableOrSignalCaughtOrStdinLineOrWritableTag_Writable => Some "Writable" | None => None end)
    [("Joinable", as_ptr JoinableOrReadableOrReceivableOrSendableOrSignalCaughtOrStdinLineOrWritable_payload_joinable); ("Readable", as_ptr JoinableOrReadableOrReceivableOrSendableOrSignalCaughtOrStdinLineOrWritable_payload_readable); ("Receivable", as_ptr JoinableOrReadableOrReceivableOrSendableOrSignalCaughtOrStdinLineOrWritable_payload_receivable); ("Sendable", as_ptr JoinableOrReadableOrReceivableOrSendableOrSignalCaughtOrStdinLineOrWritable_payload_sendable); ("Writable", as_ptr JoinableOrReadableOrReceivableOrSendableOrSignalCaughtOrStdinLineOrWritable_payload_writable)];
  mkAccessors HostTaskSpawnResult (fun b => match HostTaskSpawnResultTag_of b with Some HostTaskSpawnResultTag_Err => Some "Err" | Some HostTaskSpawnResultTag_Ok => Some "Ok" | None => None end)
    [("Ok", as_ptr HostTaskSpawnResult_payload_ok)];
  mkAccessors HostTaskJoinResult (fun b => match HostTaskJoinResultTag_of b with Some HostTaskJoinResultTag_Err => Some "Err" | Some HostTaskJoinResultTag_Ok => Some "Ok" | None => None end)
    [("Ok", as_ptr HostTaskJoinResult_payload_ok)];
  mkAccessors HostGroupNewResult (fun b => match HostGroupNewResultTag_of b with Some HostGroupNewResultTag_Err => Some "Err" | Some HostGroupNewResultTag_Ok => Some "Ok" | None => None end)
    [("Ok", as_ptr HostGroupNewResult_payload_ok)]
].

Definition variants (t : Ty) : list (string * Ty) := match t with Union vs _ _ => vs | _ => [] end.

Fixpoint accessor (name : string) (l : list (string * (list Z -> option Val))) : option (list Z -> option Val) :=
  match l with [] => None | (n, read) :: l => if String.eqb n name then Some read else accessor name l end.

(** What is checked of each: its type is sound, each byte that is a tag has
    the name of its variant, and each variant with a payload has an accessor
    that reads what the payload's type says. *)
Definition tags_named (a : Accessors) : Prop :=
  forall k f, variants (a_ty a) !! k = Some f -> a_tag a (Z.of_nat k) = Some f.1.
Definition payloads_read (a : Accessors) : Prop :=
  Forall (fun f => f.2 = Unit \/ exists read, accessor f.1 (a_payloads a) = Some read /\
    forall b p, decode f.2 (payload f.2 b) = Some p -> read b = Some p) (variants (a_ty a)).

Lemma as_bool_reads b p : decode Bool (payload Bool b) = Some p -> as_bool (fun value => of_le (payload Bool value)) b = Some p.
Proof. cbn [decode]. unfold as_bool. by destruct (payload Bool b) as [|[| |] []] eqn:E; repeat case_match; simplify_eq. Qed.

Lemma tags_named_by a : imap (fun k _ => a_tag a (Z.of_nat k)) (variants (a_ty a)) = map (fun f => Some f.1) (variants (a_ty a)) -> tags_named a.
Proof.
  intros E k f Hk. apply (f_equal (fun l => l !! k)) in E. rewrite list_lookup_imap, list_lookup_fmap, Hk in E. by injection E.
Qed.

Ltac accessor_reads :=
  first [left; reflexivity
        |right; eexists; split; [reflexivity|intros b p Hd; first [exact Hd | exact (as_bool_reads b p Hd)]]].

Lemma accessors_ok : Forall (fun a => is_Some (tag_offset W64 (a_ty a)) /\ sound (a_ty a) = true /\ tags_named a /\ payloads_read a) accessors.
Proof.
  unfold accessors. repeat apply Forall_cons_2; [..|apply Forall_nil_2];
    (split; [eexists; reflexivity|split; [vm_compute; reflexivity|split; [apply tags_named_by; vm_compute; reflexivity|]]]);
    unfold payloads_read; cbn [a_ty variants]; repeat apply Forall_cons_2; try apply Forall_nil_2; cbn [fst snd]; accessor_reads.
Qed.

(** C20: What the host writes as a tagged union at the boundary is what the
    generated accessors read.  For each of the 37 unions the file declares,
    on a 64-bit target: a value written as the declaration lays it out
    (payload, then tag, whatever the padding holds) has, at the offset of the
    tag, a byte that the union's tag type reads as the name of the value's
    variant; and if that variant has a payload it has an accessor, which reads
    exactly the payload written.  So no accessor reads the wrong variant's
    layout, and no two tags are swapped. *)
Theorem accessors_read_back fill a v b : a ∈ accessors -> encode fill (a_ty a) v = Some b ->
  Z.of_nat (length b) = size W64 (a_ty a) /\
  exists k p name t tag, v = VUnion k p /\ variants (a_ty a) !! k = Some (name, t) /\
    tag_byte (a_ty a) b = Some tag /\ a_tag a tag = Some name /\
    (t <> Unit -> exists read, accessor name (a_payloads a) = Some read /\ read b = Some p).
Proof.
  intros Ha He. destruct (proj1 (Forall_forall _ _) accessors_ok a Ha) as ([off Ho] & Hs & Ht & Hp).
  split; [by apply (encode_restores fill _ Hs v b)|]. unfold tags_named, payloads_read in *.
  destruct (a_ty a) as [| | | | | | | | |vs b32 a32]; try done. cbn [variants] in *.
  destruct (union_parts fill vs b32 a32 v b Hs He) as (k & p & [name t] & -> & Hk & Htag & Hd). exists k, p, name, t, (Z.of_nat k).
  split_and!; [done..|exact (Ht k (name, t) Hk)|]. intros Hu. eapply Forall_lookup_1 in Hp; [|exact Hk]. destruct Hp as [Hp|(read & Hr & Hread)]; [done|].
  exists read. split; [done|]. by apply Hread.
Qed.

(** A refused connection, as the result of connecting. *)
Definition refused : Val := VUnion 0 (VUnion 6 VUnit).

Definition refused_bytes : list Z := default [] (encode 255 HostSocketAcceptResult refused).

(** Its tag is read as [Err], and its payload through an accessor. *)
Lemma accessors_read_back_witness : length refused_bytes = 40%nat /\
  exists a, a ∈ accessors /\ a_ty a = HostSocketAcceptResult /\ exists k p name t tag, refused = VUnion k p /\
    variants (a_ty a) !! k = Some (name, t) /\ tag_byte (a_ty a) refused_bytes = Some tag /\ a_tag a tag = Some name /\
    (t <> Unit -> exists read, accessor name (a_payloads a) = Some read /\ read refused_bytes = Some p).
Proof.
  split; [vm_compute; reflexivity|]. destruct (proj1 (list_elem_of_fmap a_ty accessors HostSocketAcceptResult)) as (a & Ea & Ha).
  - cbn. repeat (first [apply list_elem_of_here | apply list_elem_of_further]).
  - exists a. split; [exact Ha|split; [symmetry; exact Ea|]]. apply (accessors_read_back 255 a refused refused_bytes Ha). rewrite <- Ea. vm_compute. reflexivity.
Defined.

End AbiCodec.
