(* ===== verification/RefAtomics.v ===== *)
(** * Counting from several threads ([src/roc_platform_abi.rs])

    Tasks on different workers hold references to one allocation, and each
    [decref] and [incref] is several steps: a look at the count (0 is static
    data), the atomic change, and for whoever took the last reference the
    teardown and the free.  Here every step of every thread is one of its own;
    the one-step operations are those of [RocValues.v]. *)
From S2P Require Import Prelude RocMem RocValues.
Local Open Scope Z_scope.

Module RefAtomics.

(** Where a thread is: between operations; before [fetch_sub]; before
    [fetch_add]; or after [fetch_sub] returned 1, about to tear down and free. *)
Inductive Phase := Idle | Decref | Incref (amount : nat) | Last.

(** A thread and the references it holds (the one it is giving up included,
    until [fetch_sub]). *)
Record Thread := mkThread { refs : nat; phase : Phase }.

(** The allocation: its count, and how often it was freed. *)
Record State := mkState { count : Z; frees : nat; threads : list Thread }.

(** Every access is to the allocation: after the free it is undefined. *)
Inductive result := Undefined | Next (s : State).

Definition access (s : State) (r : State) : result := match frees s with O => Next r | _ => Undefined end.

Definition set_thread (i : nat) (t : Thread) (s : State) : State := mkState (count s) (frees s) (<[i := t]> (threads s)).

(** [decref]: [load]; then [fetch_sub]; then, if it returned 1, the teardown and [dealloc]. *)
Definition decref_load (i : nat) (t : Thread) (s : State) : result :=
  access s (if count s =? 0 then set_thread i (mkThread (refs t - 1) Idle) s else set_thread i (mkThread (refs t) Decref) s).

Definition decref_sub (i : nat) (t : Thread) (s : State) : result :=
  let prev := count s in
  access s (set_thread i (mkThread (refs t - 1) (if prev =? 1 then Last else Idle)) (mkState (wrap 64 (prev - 1)) (frees s) (threads s))).

Definition decref_free (i : nat) (t : Thread) (s : State) : result :=
  access s (set_thread i (mkThread (refs t) Idle) (mkState (count s) (S (frees s)) (threads s))).

(** [incref]: [load]; then [fetch_add]. *)
Definition incref_load (i : nat) (t : Thread) (n : nat) (s : State) : result :=
  access s (if count s =? 0 then set_thread i (mkThread (refs t + n) Idle) s else set_thread i (mkThread (refs t) (Incref n)) s).

Definition incref_add (i : nat) (t : Thread) (n : nat) (s : State) : result :=
  access s (set_thread i (mkThread (refs t + n) Idle) (mkState (wrap 64 (count s + Z.of_nat n)) (frees s) (threads s))).

(** [is_unique] and [has_one_ref] *)
Definition is_unique (s : State) : bool := (count s =? 0) || (count s =? 1).
Definition has_one_ref (s : State) : bool := count s =? 1.

Definition total (ts : list Thread) : nat := sum_list_with refs ts.

(** A thread acts only on references it holds; one it holds it can also hand
    to another thread, or read through.  A reference takes up memory, so there
    are never [2 ^ 63] of them. *)
Inductive step (s : State) : result -> Prop :=
  | st_decref_load i t : threads s !! i = Some t -> phase t = Idle -> (0 < refs t)%nat -> step s (decref_load i t s)
  | st_decref_sub i t : threads s !! i = Some t -> phase t = Decref -> step s (decref_sub i t s)
  | st_decref_free i t : threads s !! i = Some t -> phase t = Last -> step s (decref_free i t s)
  | st_incref_load i t n : threads s !! i = Some t -> phase t = Idle -> (0 < refs t)%nat -> step s (incref_load i t n s)
  | st_incref_add i t n : threads s !! i = Some t -> phase t = Incref n -> Z.of_nat (total (threads s) + n) < 2 ^ 63 -> step s (incref_add i t n s)
  | st_give i t j u : i <> j -> threads s !! i = Some t -> threads s !! j = Some u -> phase t = Idle -> (0 < refs t)%nat ->
      step s (Next (set_thread j (mkThread (S (refs u)) (phase u)) (set_thread i (mkThread (refs t - 1) Idle) s)))
  | st_use i t : threads s !! i = Some t -> (0 < refs t)%nat -> step s (access s s).

(** A counted allocation with its references spread over threads. *)
Definition starts (s : State) : Prop :=
  frees s = 0%nat /\ count s = Z.of_nat (total (threads s)) /\ 0 < count s < 2 ^ 63 /\ Forall (fun t => phase t = Idle) (threads s).

Inductive reachable (s0 : State) : result -> Prop :=
  | r_start : reachable s0 (Next s0)
  | r_step s r : reachable s0 (Next s) -> step s r -> reachable s0 r.

(** ** The invariant *)

Definition is_last (t : Thread) : bool := match phase t with Last => true | _ => false end.
Definition lasts (ts : list Thread) : nat := sum_list_with (fun t => if is_last t then 1 else 0)%nat ts.

(** A thread in the middle of an operation holds the reference it acts on. *)
Definition holds (t : Thread) : Prop := match phase t with Decref | Incref _ => (0 < refs t)%nat | _ => True end.

Record Inv (s : State) : Prop := {
  i_count : count s = Z.of_nat (total (threads s));
  i_once : (frees s + lasts (threads s) + (if (count s =? 0)%Z then 0 else 1) = 1)%nat;
  i_range : 0 <= count s < 2 ^ 63;
  i_holds : Forall holds (threads s);
}.

Lemma sum_insert (f : Thread -> nat) ts i t u : ts !! i = Some t -> (sum_list_with f (<[i := u]> ts) + f t = sum_list_with f ts + f u)%nat.
Proof.
  revert i. induction ts as [|x ts IH]; intros [|i]; try done; [intros [= ->]; cbn; lia|].
  change (<[S i := u]> (x :: ts)) with (x :: <[i := u]> ts). cbn [sum_list_with]. intros H. specialize (IH i H). lia.
Qed.

Lemma sum_ge (f : Thread -> nat) ts i t : ts !! i = Some t -> (f t <= sum_list_with f ts)%nat.
Proof. revert i. induction ts as [|x ts IH]; intros [|i]; try done; cbn; [intros [= ->]; lia|]. intros H%IH. lia. Qed.

Lemma total_insert ts i t u : ts !! i = Some t -> (total (<[i := u]> ts) + refs t = total ts + refs u)%nat.
Proof. apply sum_insert. Qed.

Lemma lasts_insert ts i t u : ts !! i = Some t ->
  (lasts (<[i := u]> ts) + (if is_last t then 1 else 0) = lasts ts + (if is_last u then 1 else 0))%nat.
Proof. apply (sum_insert (fun t => if is_last t then 1 else 0)%nat). Qed.

(** What holding a reference says about the allocation. *)
Lemma held s i t : Inv s -> threads s !! i = Some t -> (0 < refs t)%nat -> 0 < count s /\ frees s = 0%nat /\ lasts (threads s) = 0%nat.
Proof.
  intros [Hc Ho _ _] Ht Hr. pose proof (sum_ge refs _ _ _ Ht). unfold total in Hc. rewrite (proj2 (Z.eqb_neq (count s) 0)) in Ho by lia. lia.
Qed.

Lemma inv_start s : starts s -> Inv s.
Proof.
  intros (Hf & Hc & Hp & Hi). split; [done| |lia|].
  - assert (lasts (threads s) = 0%nat) as ->.
    { clear -Hi. induction Hi as [|t ts Ht _ IH]; [done|]. cbn. unfold is_last. rewrite Ht. exact IH. }
    rewrite (proj2 (Z.eqb_neq _ 0)) by lia. lia.
  - eapply Forall_impl; [exact Hi|]. intros t E. unfold holds. by rewrite E.
Qed.

(** A step from a good state goes to one. *)
Definition good (r : result) : Prop := match r with Undefined => False | Next s => Inv s end.

(** The free steps of a thread: its references and phase change, and the count with them. *)
Lemma inv_update s i t u c f : Inv s -> threads s !! i = Some t -> holds u ->
  c = count s - Z.of_nat (refs t) + Z.of_nat (refs u) -> c < 2 ^ 63 ->
  (f + (if is_last u then 1 else 0) + (if (c =? 0)%Z then 0 else 1) = frees s + (if is_last t then 1 else 0) + (if (count s =? 0)%Z then 0 else 1))%nat ->
  Inv (mkState c f (<[i := u]> (threads s))).
Proof.
  intros [Hc Ho _ Hh] Ht Hu Ec Hm Ef. pose proof (total_insert _ _ _ u Ht). pose proof (lasts_insert _ _ _ u Ht). split; cbn [count frees threads]; [lia|lia|lia|].
  by apply Forall_insert.
Qed.

Lemma atomics_inv_step s r : Inv s -> step s r -> good r.
Proof.
  intros HI Hs. pose proof (i_holds _ HI) as Hh. pose proof (i_range _ HI) as Hm. destruct Hs as [i t Ht Hp Hr|i t Ht Hp|i t Ht Hp|i t n Ht Hp Hr|i t n Ht Hp Hn|i t j u Hij Ht Hu Hp Hr|i t Ht Hr].
  - destruct (held _ _ _ HI Ht Hr) as (Hc & Hf & _). unfold decref_load, access. rewrite Hf, (proj2 (Z.eqb_neq _ 0)) by lia.
    apply (inv_update s i t); [done|done|exact Hr|cbn [refs count]; lia|cbn [count]; lia|]. unfold is_last. rewrite Hp. done.
  - pose proof (proj1 (Forall_lookup _ _) Hh _ _ Ht) as Hr. unfold holds in Hr. rewrite Hp in Hr.
    destruct (held _ _ _ HI Ht Hr) as (Hc & Hf & _). unfold decref_sub, access. rewrite Hf, RocMem.wrap_small by lia.
    apply (inv_update s i t); [done|done|unfold holds; cbn; by destruct (_ =? 1)|cbn [refs count]; lia|cbn [count]; lia|]. unfold is_last. cbn [phase count frees]. rewrite Hp.
    destruct (Z.eqb_spec (count s) 1) as [E|E]; [rewrite E, Hf; done|]. rewrite !(proj2 (Z.eqb_neq _ 0)) by lia. lia.
  - pose proof (sum_ge (fun t => if is_last t then 1 else 0)%nat _ _ _ Ht) as Hl. unfold is_last at 1 in Hl. rewrite Hp in Hl. fold (lasts (threads s)) in Hl.
    pose proof (i_once _ HI). assert (frees s = 0%nat) as Hf by (destruct (_ =? 0); lia). unfold decref_free, access. rewrite Hf.
    apply (inv_update s i t); [done|done|done|cbn [refs count]; lia|cbn [count]; lia|]. unfold is_last. cbn [phase count frees]. rewrite Hp, Hf. lia.
  - destruct (held _ _ _ HI Ht Hr) as (Hc & Hf & _). unfold incref_load, access. rewrite Hf, (proj2 (Z.eqb_neq _ 0)) by lia.
    apply (inv_update s i t); [done|done|exact Hr|cbn [refs count]; lia|cbn [count]; lia|]. unfold is_last. rewrite Hp. done.
  - pose proof (proj1 (Forall_lookup _ _) Hh _ _ Ht) as Hr. unfold holds in Hr. rewrite Hp in Hr.
    destruct (held _ _ _ HI Ht Hr) as (Hc & Hf & _). unfold incref_add, access. pose proof (i_count _ HI). rewrite Hf, RocMem.wrap_small by lia.
    apply (inv_update s i t); [done|done|done|cbn [refs count]; lia|cbn [count]; lia|]. unfold is_last. cbn [phase count frees]. rewrite Hp, !(proj2 (Z.eqb_neq _ 0)) by lia. lia.
  - unfold good, set_thread. cbn [count frees threads].
    pose proof (proj1 (Forall_lookup _ _) Hh _ _ Hu) as Hhu.
    pose proof (total_insert _ _ _ (mkThread (refs t - 1) Idle) Ht) as H1. pose proof (lasts_insert _ _ _ (mkThread (refs t - 1) Idle) Ht) as H2.
    assert (<[i := mkThread (refs t - 1) Idle]> (threads s) !! j = Some u) as Hu' by (by rewrite list_lookup_insert_ne).
    pose proof (total_insert _ _ _ (mkThread (S (refs u)) (phase u)) Hu') as H3. pose proof (lasts_insert _ _ _ (mkThread (S (refs u)) (phase u)) Hu') as H4.
    unfold is_last in H2, H4. cbn [phase refs] in *. rewrite Hp in H2. destruct HI as [Hc Ho _ _]. split; cbn [count frees threads]; [lia|lia|done|].
    apply Forall_insert; [by apply Forall_insert|]. unfold holds in *. cbn [phase refs]. destruct (phase u); lia || done.
  - destruct (held _ _ _ HI Ht Hr) as (_ & Hf & _). unfold access. by rewrite Hf.
Qed.

Lemma reachable_good s0 r : starts s0 -> reachable s0 r -> good r.
Proof. intros Hs. induction 1 as [|s r _ IH Hst]; [by apply inv_start|]. by eapply atomics_inv_step. Qed.

(** C29: Whatever the threads' steps interleave to, an allocation is never touched after
    it was freed, and it is freed at most once: while anyone holds a
    reference it isn't freed and nobody is about to; exactly one thread takes
    the last reference; when no reference is left and no free is pending it
    was freed once; and a thread that finds a count of one holds the only
    reference. *)
Theorem last_reference_frees s0 r : starts s0 -> reachable s0 r ->
  exists s, r = Next s /\ (frees s + lasts (threads s) <= 1)%nat /\
    (forall i t, threads s !! i = Some t -> (0 < refs t)%nat -> frees s = 0%nat /\ lasts (threads s) = 0%nat) /\
    (total (threads s) = 0%nat -> lasts (threads s) = 0%nat -> frees s = 1%nat) /\
    (forall i t, threads s !! i = Some t -> (0 < refs t)%nat -> is_unique s = true ->
       refs t = 1%nat /\ has_one_ref s = true /\ forall j u, threads s !! j = Some u -> (0 < refs u)%nat -> j = i).
Proof.
  intros Hs Hr. pose proof (reachable_good _ _ Hs Hr) as HI. destruct r as [|s]; [done|]. exists s. split; [done|]. cbn [good] in HI.
  pose proof (i_once _ HI) as Ho. pose proof (i_count _ HI) as Hc. split_and!.
  - destruct (_ =? 0); lia.
  - intros i t Ht H0. by destruct (held _ _ _ HI Ht H0) as (_ & ? & ?).
  - intros Ht Hl. assert ((count s =? 0) = true) as E by (apply Z.eqb_eq; lia). rewrite E, Hl in Ho. lia.
  - intros i t Ht H0 Hu. destruct (held _ _ _ HI Ht H0) as (Hp & _). unfold is_unique, has_one_ref in *.
    rewrite (proj2 (Z.eqb_neq _ 0)) in Hu by lia. cbn [orb] in Hu. rewrite Hu. apply Z.eqb_eq in Hu. pose proof (sum_ge refs _ _ _ Ht) as Hge. fold (total (threads s)) in Hge.
    split_and!; [lia|done|]. intros j u Hj Hu0. destruct (decide (j = i)) as [|Hne]; [done|]. exfalso.
    pose proof (total_insert _ _ _ (mkThread 0 Idle) Ht) as E. assert (<[i := mkThread 0 Idle]> (threads s) !! j = Some u) as Hj' by (by rewrite list_lookup_insert_ne).
    pose proof (sum_ge refs _ _ _ Hj') as Hge'. fold (total (<[i := mkThread 0 Idle]> (threads s))) in Hge'. cbn [refs] in E. lia.
Qed.

(** Two threads give up their references at the same time: both look before
    either subtracts. *)
Definition two : State := mkState 2 0 [mkThread 1 Idle; mkThread 1 Idle].
Definition both_released : State := mkState 0 1 [mkThread 0 Idle; mkThread 0 Idle].

Lemma last_reference_frees_witness : reachable two (Next both_released) /\ frees both_released = 1%nat.
Proof.
  assert (reachable two (Next both_released)) as Hr.
  { set (s1 := mkState 2 0 [mkThread 1 Decref; mkThread 1 Idle]). set (s2 := mkState 2 0 [mkThread 1 Decref; mkThread 1 Decref]).
    set (s3 := mkState 1 0 [mkThread 1 Decref; mkThread 0 Idle]). set (s4 := mkState 0 0 [mkThread 0 Last; mkThread 0 Idle]).
    apply (r_step _ s4); [|exact (st_decref_free s4 0 (mkThread 0 Last) eq_refl eq_refl)].
    apply (r_step _ s3); [|exact (st_decref_sub s3 0 (mkThread 1 Decref) eq_refl eq_refl)].
    apply (r_step _ s2); [|exact (st_decref_sub s2 1 (mkThread 1 Decref) eq_refl eq_refl)].
    apply (r_step _ s1); [|exact (st_decref_load s1 1 (mkThread 1 Idle) eq_refl eq_refl (le_n _))].
    apply (r_step _ two); [apply r_start|exact (st_decref_load two 0 (mkThread 1 Idle) eq_refl eq_refl (le_n _))]. }
  split; [exact Hr|]. destruct (last_reference_frees two _ ltac:(repeat split; repeat constructor; lia) Hr) as (s & [= <-] & _ & _ & H & _).
  apply H; reflexivity.
Defined.

End RefAtomics.
