(* ===== verification/Stdio.v ===== *)
(** * Lines to and from the standard streams ([src/lib.rs])

    The hosted functions over the memory of [RocMem.v]: what they read, what
    becomes of the message they are given, and the value they return, as one of
    the declared types of [AbiTypes.v]. *)
From S2P Require Import Prelude Io RocMem RocValues RocRefs AbiLayout AbiTypes AbiCodec LogFormat Stdin.
From stdpp Require Import strings.
Local Open Scope Z_scope.

Module Stdio.
Import RocMem RocValues RocRefs AbiLayout AbiTypes.

Section Stdio.
Variable place : gmap Z (Z * Z) -> Z -> Z -> option Z.
(** [err.to_string()], which is a [String]. *)
Variable display : IoError -> list Z.

(** [RocStr::from_str], for a string. *)
Definition from_str (s : list Z) : M RocStr := str_from_slice place s.

Definition err_str (err : IoError) : M RocStr := from_str (display err).

(** A result whose tag selects no payload or a string. *)
Definition unit_of_tag (tag : nat) : M AbiCodec.Val := mret (AbiCodec.VUnion tag AbiCodec.VUnit).
Definition str_of_tag (tag : nat) (s : M RocStr) : M AbiCodec.Val := s ← s; mret (AbiCodec.VUnion tag (AbiCodec.VStr s)).

(** [roc_stderr_line] and [roc_stdout_line]: [result] is what [writeln!] of
    the message returned; also the bytes it was given. *)
Definition roc_stderr_line (result : option IoError) (message : RocStr) : M (AbiCodec.Val * list Z) :=
  text ← as_str message;
  _ ← str_decref message;
  out ← match result with None => unit_of_tag 1 | Some err => str_of_tag 0 (err_str err) end;
  mret (out, text ++ [10]).

Definition roc_stdout_line (result : option IoError) (message : RocStr) : M (AbiCodec.Val * list Z) :=
  text ← as_str message;
  _ ← str_decref message;
  out ← match result with None => unit_of_tag 1 | Some err => str_of_tag 0 (err_str err) end;
  mret (out, text ++ [10]).

(** [format!("line too long (over {} bytes); skipped", stdin::MAX_LINE)] *)
Definition too_long_message : list Z := LogFormat.lit "line too long (over 1048576 bytes); skipped".

(** [roc_stdin_line], on the next line. *)
Definition roc_stdin_line (next_line : Stdin.Line) : M AbiCodec.Val :=
  match next_line with
  | Stdin.Text line => str_of_tag 1 (from_str line)
  | Stdin.End => str_of_tag 1 (from_str [])
  | Stdin.TooLong => str_of_tag 0 (from_str too_long_message)
  | Stdin.Failed err => str_of_tag 0 (err_str err)
  end.

Definition roc_stdin_read_line (next_line : Stdin.Line) : M AbiCodec.Val :=
  match next_line with
  | Stdin.Text line => str_of_tag 2 (from_str line)
  | Stdin.End => unit_of_tag 0
  | Stdin.TooLong => unit_of_tag 3
  | Stdin.Failed err => str_of_tag 1 (err_str err)
  end.

(** [roc_stdin_try_line], on a line if there was one. *)
Definition roc_stdin_try_line (try_line : option Stdin.Line) : M AbiCodec.Val :=
  match try_line with
  | None => unit_of_tag 3
  | Some (Stdin.Text line) => str_of_tag 2 (from_str line)
  | Some Stdin.End => unit_of_tag 0
  | Some Stdin.TooLong => unit_of_tag 4
  | Some (Stdin.Failed err) => str_of_tag 1 (err_str err)
  end.

(** ** What they return and what becomes of the message *)

Context `{!Placement place}.
Hypothesis display_valid : forall e, Utf8.valid (display e) = true.

(** The words of a string just made. *)
Lemma from_str_words s r m m' : from_str s m = Done r m' -> AbiCodec.in_word (s_bytes r) && AbiCodec.in_word (s_capacity_or_alloc_ptr r) && AbiCodec.in_word (s_length r) = true.
Proof.
  unfold from_str, str_from_slice. destruct (Utf8.valid s) eqn:Ev; [|done]. cbn [negb]. rewrite !andb_true_iff, !AbiCodec.in_word_true.
  destruct (Z.ltb_spec (Z.of_nat (length s)) ROC_STR_SIZE) as [Hl|Hl].
  - unfold mret, M_ret. intros [= <- _]. cbn [s_bytes s_capacity_or_alloc_ptr s_length str_of_bytes].
    set (l := take 23 _ ++ _). assert (Forall is_byte l) as Hb.
    { unfold l. apply Forall_app. split; [|constructor; [|constructor]].
      - apply Forall_take. unfold overwrite. apply Forall_app. split; [by apply valid_bytes|]. apply Forall_drop. unfold str_bytes. repeat (apply Forall_app; split); apply le_bytes.
      - unfold is_byte. rewrite (proj1 (small_len (length s) ltac:(unfold ROC_STR_SIZE in Hl; lia))). unfold ROC_STR_SIZE in Hl. lia. }
    assert (forall x, Forall is_byte x -> (length x <= 8)%nat -> 0 <= of_le x < 2 ^ 64) as Hw.
    { intros x Hx Hn. pose proof (of_le_range x Hx). assert (256 ^ Z.of_nat (length x) <= 256 ^ 8) by (apply Z.pow_le_mono_r; lia). change (256 ^ 8) with (2 ^ 64) in *. lia. }
    split_and!; apply Hw; repeat first [apply Forall_take | apply Forall_drop | done]; rewrite length_take; lia.
  - unfold mbind, M_bind, expect, checked_add. destruct (Z.leb_spec (WORD + Z.of_nat (length s)) U64_MAX); [|done]. unfold alloc.
    destruct (place (live m) _ WORD) as [p|] eqn:Ep; [|done]. pose proof (placed place _ _ _ _ Ep) as (Hp & Hmax & _).
    destruct (store_word _ _ _) as [| |[] m1]; [done..|]. destruct (store _ _ _) as [| |[] m2]; [done..|]. unfold mret, M_ret. intros [= <- _]. cbn [s_bytes s_capacity_or_alloc_ptr s_length].
    unfold WORD in *. split_and!; try lia; unfold shifted_capacity, u64_shl, wrap; apply Z.mod_pos_bound; lia.
Qed.

Lemma str_of_tag_typed vs a b tag name s r m m' :
  vs !! tag = Some (name, Str) -> str_of_tag tag (from_str s) m = Done r m' -> exists l, AbiCodec.encode 0 (Union vs a b) r = Some l.
Proof.
  intros Ht. unfold str_of_tag, mbind, M_bind. destruct (from_str s m) as [| |x m1] eqn:E; [done..|]. unfold mret, M_ret. intros [= <- _].
  cbn [AbiCodec.encode]. rewrite list_lookup_fmap, Ht. cbn [fmap option_fmap option_map mbind option_bind snd AbiCodec.encode]. rewrite (from_str_words _ _ _ _ E). cbn [mbind option_bind tag_offset]. eauto.
Qed.

(** A new string is a step of the machine of references. *)
Lemma from_str_step s r m m' h : reachable place (m, h) -> from_str s m = Done r m' -> reachable place (m', (VStr r, s) :: h).
Proof. intros Hr E. eapply rtc_r; [exact Hr|]. by apply st_str. Qed.

(** The strings a call may return. *)
Definition returned (v : AbiCodec.Val) (text : list Z) : list (Value * list Z) :=
  match v with AbiCodec.VUnion _ (AbiCodec.VStr s) => [(VStr s, text)] | _ => [] end.

Lemma str_of_tag_step tag s r m m' h : reachable place (m, h) -> str_of_tag tag (from_str s) m = Done r m' -> reachable place (m', returned r s ++ h).
Proof.
  intros Hr. unfold str_of_tag, mbind, M_bind. destruct (from_str s m) as [| |x m1] eqn:E; [done..|]. unfold mret, M_ret. intros [= <- <-]. by eapply from_str_step.
Qed.

(** Making a string ends in one, or the program for want of memory. *)
Lemma from_str_total s m : Utf8.valid s = true -> from_str s m = Stopped \/ exists r m', from_str s m = Done r m'.
Proof.
  intros Hv. unfold from_str, str_from_slice. rewrite Hv. cbn [negb]. destruct (_ <? ROC_STR_SIZE); [right; by eexists _, _|].
  unfold mbind, M_bind, expect, checked_add. destruct (_ <=? U64_MAX); [|by left]. unfold alloc. destruct (place (live m) _ WORD) as [p|]; [|by left]. right.
  set (m1 := mkMem _ _). assert (live m1 !! p = Some (WORD + Z.of_nat (length s), WORD)) as Hl by apply lookup_insert_eq.
  erewrite store_word_at by first [exact Hl | lia]. erewrite store_at by first [exact Hl | unfold WORD; lia]. by eexists _, _.
Qed.

Lemma str_of_tag_total tag s m : Utf8.valid s = true -> str_of_tag tag (from_str s) m = Stopped \/ exists r m', str_of_tag tag (from_str s) m = Done r m'.
Proof.
  intros Hv. unfold str_of_tag, mbind, M_bind. destruct (from_str_total s m Hv) as [->|(r & m' & ->)]; [by left|right; by eexists _, _].
Qed.

(** Printing a line takes the message and gives back a result, whatever
    the stream did: the text written is the message's with a line feed, its
    reference is given up exactly once (every other value stays as it was,
    and the only new one is the error's text in the result), and the result
    is a value of the declared type.  It only fails to return when there is
    no memory for the text of an error. *)
Theorem print_line_accounted result message text m h1 h2 :
  reachable place (m, h1 ++ (VStr message, text) :: h2) -> Utf8.valid text = true ->
  (result <> None /\ roc_stderr_line result message m = Stopped) \/
  exists v m', roc_stderr_line result message m = Done (v, text ++ [10]) m' /\ (result = None -> v = AbiCodec.VUnion 1 AbiCodec.VUnit) /\
    reachable place (m', returned v (from_option display [] result) ++ h1 ++ h2) /\
    exists l, AbiCodec.encode 0 HostStderrLineResult v = Some l.
Proof.
  intros Hr Hu. pose proof (refs_reachable_inv place _ Hr) as [g HI].
  assert ((VStr message, text) ∈ h1 ++ (VStr message, text) :: h2) as Hin by (apply elem_of_app; right; by apply elem_of_cons; left).
  pose proof (good_view _ _ _ _ (v_rep _ _ HI) (v_good _ _ HI _ _ Hin)) as Hv. cbn [value_view fst] in Hv.
  destruct (refs_inv_release _ _ _ _ _ _ HI) as (m1 & g1 & Ed & _). pose proof (rtc_r _ _ _ Hr (st_release place _ _ _ _ _ _ Ed)) as Hr1. cbn [value_decref] in Ed.
  unfold roc_stderr_line, as_str. unfold mbind, M_bind. rewrite Hv, Hu. unfold mret, M_ret. rewrite Ed. destruct result as [e|].
  - destruct (str_of_tag_total 0 (display e) m1 (display_valid e)) as [E|(r & m2 & E)]; unfold err_str; rewrite E; [by left|right].
    eexists _, _. split_and!; [done|done|by eapply str_of_tag_step|by eapply (str_of_tag_typed _ _ _ 0)].
  - right. unfold unit_of_tag, mret, M_ret. eexists _, _. split_and!; [done|done|exact Hr1|by vm_compute; eexists].
Qed.

(** A line of input arrives as it was read: the hosted functions return
    its text, or the tag for the end of input, a line too long or a failure
    with its reason, as a value of the declared type whose string is the only
    new reference; a line that was read is never lost for want of anything
    but memory. *)
Theorem input_line_returned line m h : reachable place (m, h) -> (forall l, line = Stdin.Text l -> Utf8.valid l = true) ->
  roc_stdin_read_line line m = Stopped \/
  exists v m' text, roc_stdin_read_line line m = Done v m' /\ roc_stdin_try_line (Some line) m =
      Done (match v with AbiCodec.VUnion 3 p => AbiCodec.VUnion 4 p | v => v end) m' /\
    reachable place (m', returned v text ++ h) /\ (exists l, AbiCodec.encode 0 EndOrFailedOrLineOrTooLong v = Some l) /\
    match line, v with
    | Stdin.Text l, AbiCodec.VUnion 2 (AbiCodec.VStr s) => text = l
    | Stdin.End, AbiCodec.VUnion 0 AbiCodec.VUnit => True
    | Stdin.TooLong, AbiCodec.VUnion 3 AbiCodec.VUnit => True
    | Stdin.Failed e, AbiCodec.VUnion 1 (AbiCodec.VStr s) => text = display e
    | _, _ => False
    end.
Proof.
  intros Hr Hl. destruct line as [l| | |e]; cbn [roc_stdin_read_line roc_stdin_try_line].
  - unfold str_of_tag, mbind, M_bind. destruct (from_str_total l m (Hl l eq_refl)) as [E|(r & m' & E)]; rewrite E; [by left|right].
    exists (AbiCodec.VUnion 2 (AbiCodec.VStr r)), m', l. split_and!; [done|done|by eapply from_str_step| |done].
    eapply (str_of_tag_typed _ _ _ 2 _ l _ m m'); [done|]. unfold str_of_tag, mbind, M_bind. by rewrite E.
  - right. eexists _, m, []. split_and!; [done|done|exact Hr|by vm_compute; eexists|done].
  - right. eexists _, m, []. split_and!; [done|done|exact Hr|by vm_compute; eexists|done].
  - unfold err_str, str_of_tag, mbind, M_bind. destruct (from_str_total (display e) m (display_valid e)) as [E|(r & m' & E)]; rewrite E; [by left|right].
    exists (AbiCodec.VUnion 1 (AbiCodec.VStr r)), m', (display e). split_and!; [done|done|by eapply from_str_step| |done].
    eapply (str_of_tag_typed _ _ _ 1 _ (display e) _ m m'); [done|]. unfold str_of_tag, mbind, M_bind. by rewrite E.
Qed.

End Stdio.

(** A greeting that cannot be written. *)
Definition hi : RocStr := mkStr (104 + 256 * 105) 0 (130 * 2 ^ 56).
Definition broken : IoError := err_kind OtherKind.
Definition reason (e : IoError) : list Z := [33].

Lemma print_line_accounted_witness :
  exists v m', roc_stderr_line bump reason (Some broken) hi (mkMem ∅ (fun _ => 0)) = Done (v, [104; 105; 10]) m' /\ reachable bump (m', returned v [33] ++ []).
Proof.
  assert (reachable bump (mkMem ∅ (fun _ => 0), [(VStr hi, [104; 105])])) as Hr.
  { eapply rtc_l; [|apply rtc_refl]. apply (st_str bump _ _ [104; 105]). vm_compute. reflexivity. }
  destruct (print_line_accounted bump reason ltac:(reflexivity) (Some broken) hi [104; 105] _ [] [] Hr ltac:(reflexivity)) as [[_ E]|(v & m' & E & _ & H & _)]; [vm_compute in E; discriminate E|].
  exists v, m'. split; [exact E|exact H].
Defined.

Lemma input_line_returned_witness :
  exists v m', roc_stdin_read_line bump reason (Stdin.Text [104; 105]) (mkMem ∅ (fun _ => 0)) = Done v m' /\ exists l, AbiCodec.encode 0 EndOrFailedOrLineOrTooLong v = Some l.
Proof.
  destruct (input_line_returned bump reason ltac:(reflexivity) (Stdin.Text [104; 105]) (mkMem ∅ (fun _ => 0)) [] (rtc_refl _ _) ltac:(intros l [= <-]; reflexivity)) as [E|(v & m' & t & E & _ & _ & H & _)]; [vm_compute in E; discriminate E|].
  exists v, m'. split; [exact E|exact H].
Defined.

End Stdio.
