(* ===== verification/Args.v ===== *)
(** * The program's arguments ([src/lib.rs])

    [build_args_list] makes the list of strings [main!] is called with: room
    for all of them first, then one string after the other, each written to
    its place.  Until the last one is there the list isn't a value yet, which
    is why this isn't a matter of the operations of [RocRefs.v] alone. *)
From S2P Require Import Prelude Io RocMem RocValues RocRefs LogFormat Stdin Stdio.
Local Open Scope Z_scope.

Module Args.
Import RocMem RocValues RocRefs Stdio.

(** ** The arguments as strings *)

(** U+FFFD, in UTF-8. *)
Definition REPLACEMENT : list Z := [239; 191; 189].

(** [to_string_lossy]: bytes that aren't UTF-8 become [REPLACEMENT], one for
    each longest start of a character. *)
Fixpoint lossy (l : list Z) : list Z :=
  match l with
  | [] => []
  | b0 :: l0 =>
      if Utf8.within 0 127 b0 then b0 :: lossy l0
      else if Utf8.within 194 223 b0 then
        match l0 with
        | b1 :: l1 => if Utf8.cont b1 then b0 :: b1 :: lossy l1 else REPLACEMENT ++ lossy l0
        | [] => REPLACEMENT
        end
      else if Utf8.within 224 239 b0 then
        match l0 with
        | b1 :: l1 =>
            if Utf8.within (if b0 =? 224 then 160 else 128) (if b0 =? 237 then 159 else 191) b1 then
              match l1 with
              | b2 :: l2 => if Utf8.cont b2 then b0 :: b1 :: b2 :: lossy l2 else REPLACEMENT ++ lossy l1
              | [] => REPLACEMENT
              end
            else REPLACEMENT ++ lossy l0
        | [] => REPLACEMENT
        end
      else if Utf8.within 240 244 b0 then
        match l0 with
        | b1 :: l1 =>
            if Utf8.within (if b0 =? 240 then 144 else 128) (if b0 =? 244 then 143 else 191) b1 then
              match l1 with
              | b2 :: l2 =>
                  if Utf8.cont b2 then
                    match l2 with
                    | b3 :: l3 => if Utf8.cont b3 then b0 :: b1 :: b2 :: b3 :: lossy l3 else REPLACEMENT ++ lossy l2
                    | [] => REPLACEMENT
                    end
                  else REPLACEMENT ++ lossy l1
              | [] => REPLACEMENT
              end
            else REPLACEMENT ++ lossy l0
        | [] => REPLACEMENT
        end
      else REPLACEMENT ++ lossy l0
  end.

(** [main]'s arguments: [argv] is a vector of C strings, null pointers
    ([None]) among them. *)
Definition main_args (argc : Z) (argv : list (option (list Z))) : list (list Z) :=
  map (fun arg => match arg with None => [] | Some bytes => lossy bytes end) (take (Z.to_nat (Z.max argc 0)) argv).

Lemma valid_replacement l : Utf8.valid (REPLACEMENT ++ l) = Utf8.valid l.
Proof. reflexivity. Qed.

Ltac on_bytes := repeat match goal with
  | H : Utf8.within _ _ _ = _ |- _ => progress rewrite H in *
  | H : Utf8.cont _ = _ |- _ => progress rewrite H in *
  end.

Ltac copied c l := left; exists c, l; split_and!; [done|simpl; lia|done|intros; simpl; by on_bytes].
Ltac replaced l := right; exists l; split_and!; [simpl; lia|by rewrite ?app_nil_r|simpl; by on_bytes].

(** The shape of a step of [lossy]: it copies a whole character, or replaces
    something. *)
Lemma lossy_step l : l <> [] ->
  (exists c l', l = c ++ l' /\ (length l' < length l)%nat /\ lossy l = c ++ lossy l' /\ forall r, Utf8.valid (c ++ r) = Utf8.valid r) \/
  (exists l', (length l' < length l)%nat /\ lossy l = REPLACEMENT ++ lossy l' /\ Utf8.valid l = false).
Proof.
  intros Hl.
  destruct l as [|b0 l0]; [done|]. cbn [lossy].
  destruct (Utf8.within 0 127 b0) eqn:E0; [copied [b0] l0|].
  destruct (Utf8.within 194 223 b0) eqn:E2.
  - destruct l0 as [|b1 l1]; [replaced (@nil Z)|]. destruct (Utf8.cont b1) eqn:C1; [copied [b0; b1] l1|replaced (b1 :: l1)].
  - destruct (Utf8.within 224 239 b0) eqn:E3.
    + destruct l0 as [|b1 l1]; [replaced (@nil Z)|].
      destruct (Utf8.within (if b0 =? 224 then 160 else 128) (if b0 =? 237 then 159 else 191) b1) eqn:W.
      * destruct l1 as [|b2 l2]; [replaced (@nil Z)|]. destruct (Utf8.cont b2) eqn:C2; [copied [b0; b1; b2] l2|replaced (b2 :: l2)].
      * right. exists (b1 :: l1). split_and!; [simpl; lia|done|]. cbn [Utf8.valid]. on_bytes. by destruct l1.
    + destruct (Utf8.within 240 244 b0) eqn:E4.
      2: { right. exists l0. split_and!; [simpl; lia|done|]. cbn [Utf8.valid]. on_bytes. by destruct l0 as [|? [|? [|? ?]]]. }
      destruct l0 as [|b1 l1]; [replaced (@nil Z)|].
      destruct (Utf8.within (if b0 =? 240 then 144 else 128) (if b0 =? 244 then 143 else 191) b1) eqn:W.
      2: { right. exists (b1 :: l1). split_and!; [simpl; lia|done|]. cbn [Utf8.valid]. on_bytes. by destruct l1 as [|? [|? ?]]. }
      destruct l1 as [|b2 l2]; [replaced (@nil Z)|]. destruct (Utf8.cont b2) eqn:C2.
      2: { right. exists (b2 :: l2). split_and!; [simpl; lia|done|]. cbn [Utf8.valid]. on_bytes. by destruct l2. }
      destruct l2 as [|b3 l3]; [replaced (@nil Z)|]. destruct (Utf8.cont b3) eqn:C3; [copied [b0; b1; b2; b3] l3|replaced (b3 :: l3)].
Qed.

Lemma lossy_valid l : Utf8.valid (lossy l) = true.
Proof.
  remember (length l) as n eqn:En. revert l En. induction n as [n IH] using lt_wf_ind. intros l ->.
  destruct (decide (l = [])) as [->|Hl]; [done|].
  destruct (lossy_step l Hl) as [(c & l' & _ & Hlt & -> & Hv)|(l' & Hlt & -> & _)]; rewrite ?Hv, ?valid_replacement; by eapply IH.
Qed.

Lemma lossy_id l : Utf8.valid l = true -> lossy l = l.
Proof.
  remember (length l) as n eqn:En. revert l En. induction n as [n IH] using lt_wf_ind. intros l -> Hv.
  destruct (decide (l = [])) as [->|Hl]; [done|].
  destruct (lossy_step l Hl) as [(c & l' & -> & Hlt & -> & Hc)|(l' & _ & _ & Hn)]; [|congruence].
  rewrite Hc in Hv. f_equal. by eapply IH.
Qed.

Lemma main_args_valid argc argv : Forall (fun a => Utf8.valid a = true) (main_args argc argv).
Proof. apply Forall_fmap, Forall_forall. intros [bytes|] _; [apply lossy_valid|done]. Qed.

Section Args.
Variable place : gmap Z (Z * Z) -> Z -> Z -> option Z.

(** [for (i, arg) in args.iter().enumerate()] *)
Fixpoint write_args (elements : Z) (i : Z) (args : list (list Z)) : M unit :=
  match args with
  | [] => mret tt
  | arg :: args =>
      roc_str ← from_str place arg;
      _ ← store (elements + i * ROC_STR_SIZE) (str_bytes roc_str);
      write_args elements (i + 1) args
  end.

Definition build_args_list (args : list (list Z)) : M RocListWith :=
  match args with
  | [] => mret list_empty
  | _ =>
      l ← list_allocate place STR (Z.of_nat (length args));
      _ ← write_args (elements l) 0 args;
      mret l
  end.

(** ** Each argument is in its place *)

Context `{!Placement place}.

(** [g'] has what [g] has, and every block but [d] holds what it held. *)
Record grown (d : Z) (g g' : Blocks) (m m' : Mem) : Prop := {
  gr_blocks : g ⊆ g';
  gr_others : forall e b x, e <> d -> g !! e = Some b -> uncounted e b x -> contents m' x = contents m x;
}.

Lemma grown_trans d g1 g2 g3 m1 m2 m3 : grown d g1 g2 m1 m2 -> grown d g2 g3 m2 m3 -> grown d g1 g3 m1 m3.
Proof.
  intros [H1 H2] [H3 H4]. split; [by etrans|]. intros e b x Hne He Hx. rewrite (H4 e b x Hne (lookup_weaken _ _ _ _ He H1) Hx). by eapply H2.
Qed.

(** A good string elsewhere stays one. *)
Lemma good_grown d g g' m m' s c : good m g (VStr s) c -> (forall h a, parts (VStr s) <> Some (d, h, a)) -> grown d g g' m m' -> good m' g' (VStr s) c.
Proof.
  unfold good. destruct (parts (VStr s)) as [[[e h] a]|] eqn:Ep; [|done]. intros (b & Hb & Hh & Ha & H1 & H2 & H3 & Hc & _) Hne [Hs Hk].
  exists b. split_and!; try done; [by eapply lookup_weaken|]. rewrite <- Hc. apply read_ext. intros x Hx. eapply Hk; [|done|unfold uncounted; lia]. intros ->. by eapply Hne.
Qed.

Lemma length_str_bytes s : length (str_bytes s) = 24%nat.
Proof. unfold str_bytes. rewrite !length_app, !length_le. done. Qed.

(** One argument: a new string, then its words in the list's block. *)
Lemma write_arg arg a m g d b : Rep m g -> g !! d = Some b -> d <= a -> a + 24 <= d + size b -> Utf8.valid arg = true ->
  from_str place arg m = Stopped \/
  exists s m1 m2 g', from_str place arg m = Done s m1 /\ store a (str_bytes s) m1 = Done tt m2 /\ Rep m2 g' /\ grown d g g' m m2 /\
    good m2 g' (VStr s) arg /\ (forall h al, parts (VStr s) <> Some (d, h, al)) /\
    read a 24 (contents m2) = str_bytes s /\ forall x, d <= x < d + size b -> x < a \/ a + 24 <= x -> contents m2 x = contents m x.
Proof.
  intros HR Hd Ha Hb Hv. destruct (from_str_total place arg m Hv) as [->|(s & m1 & E)]; [by left|right].
  pose proof (str_made place _ _ _ _ _ HR E) as Hm.
  assert (exists g', Rep m1 g' /\ g ⊆ g' /\ data_kept g m m1 /\ good m1 g' (VStr s) arg /\ forall h al, parts (VStr s) <> Some (d, h, al)) as (g' & HR' & Hg & Hk & Hgood & Hne).
  { destruct Hm as [(Hp & -> & Hview)|(e & b' & Hp & _ & Hn & HR' & Hk & Hgood)].
    - exists g. split_and!; [done..|unfold good; by rewrite Hp|by rewrite Hp].
    - exists (<[e := b']> g). split_and!; [done|by apply insert_subseteq|done..|]. rewrite Hp. intros h al [= -> _ _]. congruence. }
  pose proof (lookup_weaken _ _ _ _ Hd Hg) as Hd'. pose proof (r_block _ _ HR' _ _ Hd') as (Hl & Hh & Hs0 & _). pose proof (length_str_bytes s) as Ls.
  destruct (rep_write m1 g' d b a (str_bytes s) HR' Hd' ltac:(unfold WORD in *; lia) ltac:(lia) ltac:(right; lia)) as [HR2 Hk2].
  exists s, m1, (mkMem (live m1) (write a (str_bytes s) (contents m1))), g'.
  assert (grown d g g' m (mkMem (live m1) (write a (str_bytes s) (contents m1)))) as Hgr.
  { split; [done|]. intros e b' x Hne' He Hx. cbn [contents]. rewrite (Hk2 e b' x Hne' (lookup_weaken _ _ _ _ He Hg) Hx). by eapply Hk. }
  split_and!; [done|eapply store_at; [exact Hl|unfold WORD in *; lia|lia]|done|done| |done| |].
  - eapply good_grown; [exact Hgood|done|]. split; [done|]. intros e b' x Hne' He Hx. by eapply Hk2.
  - cbn [contents]. change 24 with (Z.of_nat 24). rewrite <- Ls. apply read_write_same.
  - intros x Hx Hout. cbn [contents]. rewrite write_outside by (rewrite Ls; lia). eapply Hk; [exact Hd|]. right. lia.
Qed.

Lemma write_args_placed args i m g d b : Rep m g -> g !! d = Some b -> 0 <= i -> (i + Z.of_nat (length args)) * 24 <= size b -> Forall (fun a => Utf8.valid a = true) args ->
  write_args d i args m = Stopped \/
  exists m' g' ss, write_args d i args m = Done tt m' /\ Rep m' g' /\ grown d g g' m m' /\
    (forall x, d <= x < d + i * 24 -> contents m' x = contents m x) /\
    read (d + i * 24) (Z.of_nat (length args) * 24) (contents m') = concat (map str_bytes ss) /\
    Forall2 (fun s a => good m' g' (VStr s) a) ss args.
Proof.
  intros HR Hd Hi Hm Hv. revert i m g HR Hd Hi Hm. induction Hv as [|arg args Hva _ IH]; intros i m g HR Hd Hi Hm; cbn [write_args].
  { right. exists m, g, []. by split_and!. }
  cbn [length] in Hm |- *. unfold mbind, M_bind.
  destruct (write_arg arg (d + i * 24) m g d b HR Hd ltac:(lia) ltac:(lia) Hva) as [->|(s & m1 & m2 & g2 & -> & E & HR2 & Hg2 & Hgood & Hne & Hread & Hin)]; [by left|].
  unfold ROC_STR_SIZE. rewrite E. pose proof (lookup_weaken _ _ _ _ Hd (gr_blocks _ _ _ _ _ Hg2)) as Hd2.
  destruct (IH (i + 1) m2 g2 HR2 Hd2 ltac:(lia) ltac:(lia)) as [->|(m' & g' & ss & -> & HR' & Hg' & Hlow & Hrest & Hall)]; [by left|right].
  exists m', g', (s :: ss). split_and!; [done|done|by eapply grown_trans| | |].
  - intros x Hx. rewrite Hlow by lia. apply Hin; lia.
  - replace (Z.of_nat (S (length args)) * 24) with (24 + Z.of_nat (length args) * 24) by lia. rewrite read_app by lia. cbn [map concat]. f_equal.
    + rewrite <- Hread. apply read_ext. intros x Hx. apply Hlow. lia.
    + rewrite <- Hrest. f_equal. lia.
  - constructor; [|done]. by eapply good_grown.
Qed.

Lemma chunk_concat (xs : list (list Z)) size : Forall (fun x => length x = size) xs -> chunk size (length xs) (concat xs) = xs.
Proof. induction 1 as [|x xs Hx _ IH]; [done|]. cbn [length chunk concat]. by rewrite (take_app_length' x), (drop_app_length' x), IH. Qed.

(** [build_args_list] returns a list with as many elements as there are
    arguments, in order, each a string that reads as the argument. *)
Lemma args_in_order args m : live m = ∅ -> Forall (fun a => Utf8.valid a = true) args ->
  build_args_list args m = Stopped \/
  exists l items m', build_args_list args m = Done l m' /\ l_length l = Z.of_nat (length args) /\
    list_as_slice STR l m' = Done items m' /\ Forall2 (fun x a => exists s, str_bytes s = x /\ as_str s m' = Done a m') items args.
Proof.
  intros Hm Hv. destruct args as [|a0 args0] eqn:Ea; [right; by eexists _, [], m|]. rewrite <- Ea in *.
  assert (build_args_list args = (l ← list_allocate place STR (Z.of_nat (length args)); _ ← write_args (elements l) 0 args; mret l)) as -> by (by rewrite Ea).
  assert (Rep m ∅) as HR0.
  { split; [by rewrite Hm|by intros ? ? ?%lookup_empty_Some|by rewrite Hm|by intros ? ? ? ? ?%lookup_empty_Some]. }
  assert (0 < Z.of_nat (length args)) as Hn by (rewrite Ea; cbn; lia). unfold mbind, M_bind.
  destruct (list_allocated place STR (Z.of_nat (length args)) m ∅ HR0 ltac:(split; [done|by exists 2]) Hn) as [->|(d & m1 & -> & _ & HR1 & _ & Hparts)]; [by left|].
  cbn [elements]. destruct (write_args_placed args 0 m1 _ d _ HR1 (lookup_insert_eq _ _ _) ltac:(lia) ltac:(cbn; unfold ROC_STR_SIZE; lia) Hv) as [->|(m' & g' & ss & -> & HR' & Hg' & _ & Hread & Hall)]; [by left|right].
  unfold mret, M_ret. eexists _, (map str_bytes ss), m'. pose proof (Forall2_length _ _ _ Hall) as Hlen. split_and!; [done|done| |].
  - unfold list_as_slice. cbn [elements l_length]. cbn [parts elements] in Hparts. destruct (d =? 0); [done|].
    pose proof (lookup_weaken _ _ _ _ (lookup_insert_eq ∅ d _) (gr_blocks _ _ _ _ _ Hg')) as Hd. pose proof (r_block _ _ HR' _ _ Hd) as (Hl & Hh & _). cbn [header size align] in Hl.
    unfold load_items, mbind, M_bind. cbn [size_of STR]. rewrite (load_at _ _ _ _ _ _ Hl) by (cbn in *; unfold WORD, ROC_STR_SIZE in *; lia).
    unfold mret, M_ret. f_equal. rewrite Z.add_0_r in Hread. unfold ROC_STR_SIZE. rewrite Hread. rewrite Nat2Z.id, <- Hlen. change (Z.to_nat 24) with 24%nat.
    rewrite <- (length_map str_bytes ss). apply chunk_concat. apply Forall_fmap, Forall_forall. intros s _. apply length_str_bytes.
  - clear -Hall HR' Hv. revert Hv. induction Hall as [|s a ss args Hg _ IH]; intros Hv; [constructor|]. cbn [map]. apply Forall_cons in Hv as [Ha Hv]. constructor; [|by apply IH].
    exists s. split; [done|]. pose proof (good_view _ _ _ _ HR' Hg) as Hview. cbn [value_view] in Hview. unfold as_str, mbind, M_bind. by rewrite Hview, Ha.
Qed.

(** The program gets the arguments it was started with: unless memory runs
    out, what [main] makes of [argc] and [argv] and hands to [main!] is a list
    of as many strings as [argc] says, in order; each reads as its argument
    where that is UTF-8, is empty for a null pointer, and is UTF-8 whatever
    the bytes were. *)
Theorem main_args_in_order argc argv m : live m = ∅ -> argc <= Z.of_nat (length argv) ->
  build_args_list (main_args argc argv) m = Stopped \/
  exists l items m', build_args_list (main_args argc argv) m = Done l m' /\ l_length l = Z.max argc 0 /\
    list_as_slice STR l m' = Done items m' /\ Z.of_nat (length items) = Z.max argc 0 /\
    forall i x, items !! i = Some x -> exists s arg text, str_bytes s = x /\ as_str s m' = Done text m' /\
      argv !! i = Some arg /\ Utf8.valid text = true /\
      match arg with None => text = [] | Some bytes => Utf8.valid bytes = true -> text = bytes end.
Proof.
  intros Hm Hlen. assert (Z.of_nat (length (main_args argc argv)) = Z.max argc 0) as Hn.
  { unfold main_args. rewrite length_map, length_take. lia. }
  destruct (args_in_order _ m Hm (main_args_valid argc argv)) as [->|(l & items & m' & -> & El & Hs & Hall)]; [by left|right].
  exists l, items, m'. pose proof (Forall2_length _ _ _ Hall) as Hi. split_and!; [done|congruence|done|congruence|].
  intros i x Hx. destruct (Forall2_lookup_l _ _ _ _ _ Hall Hx) as (text & Ht & s & Es & Ev).
  unfold main_args in Ht. rewrite list_lookup_fmap in Ht. destruct (take _ argv !! i) as [arg|] eqn:Ea; [|done]. simplify_eq/=.
  apply lookup_take_Some in Ea as [Ea _]. exists s, arg, (match arg with None => [] | Some bytes => lossy bytes end).
  split_and!; [done|done|done| |]; destruct arg; auto using lossy_valid, lossy_id.
Qed.

End Args.

(** Three arguments, one of them not UTF-8, one a null pointer. *)
Lemma main_args_in_order_witness :
  exists l items m', build_args_list bump (main_args 3 [Some [104; 255; 105]; None; Some long; None]) (mkMem ∅ (fun _ => 0)) = Done l m' /\
    list_as_slice STR l m' = Done items m' /\ Z.of_nat (length items) = 3.
Proof.
  destruct (main_args_in_order bump 3 [Some [104; 255; 105]; None; Some long; None] (mkMem ∅ (fun _ => 0)) eq_refl ltac:(simpl; lia))
    as [E|(l & items & m' & E & _ & H & H2 & _)]; [vm_compute in E; discriminate E|].
  exists l, items, m'. split; [exact E|]. split; [exact H|exact H2].
Defined.

End Args.
