(* ===== verification/Crypto.v ===== *)
(** * Cryptography ([src/crypto.rs])

    The primitives are AWS-LC's, parameters here; what is the host's own is
    what surrounds them: the lists they are given are read, then each released
    once; an algorithm there isn't, a key, a nonce or a signature of the
    wrong length, or an agreement that came to nothing is the operation's own failure; and what
    they return is a list of the program's. *)
From S2P Require Import Prelude Io RocMem RocValues RocRefs AbiLayout AbiTypes AbiCodec.
Local Open Scope Z_scope.

Module Crypto.
Import RocMem RocValues RocRefs.

(** [type Bytes = RocListWith<u8, false>] *)
Definition U8 : Elem := mkElem 1 1 false.

Inductive Alg := CHACHA20_POLY1305 | AES_256_GCM.

(** What the library does, or that it refused. *)
Record Library := mkLibrary {
  x25519_private : list Z -> option (list Z);
  x25519_public : list Z -> option (list Z);
  x25519_agree : list Z -> list Z -> option (list Z);
  aead_key_ok : Alg -> list Z -> bool;
  aead_nonce_ok : list Z -> bool;
  seal_in_place : Alg -> list Z -> list Z -> list Z -> list Z -> option (list Z);
  open_in_place : Alg -> list Z -> list Z -> list Z -> list Z -> option (list Z);
  ed25519_key : list Z -> option (list Z);
  ed25519_public : list Z -> list Z;
  ed25519_signature : list Z -> list Z -> list Z;
  ed25519_ok : list Z -> list Z -> list Z -> bool;
  slices_equal : list Z -> list Z -> bool;
}.

Section Crypto.
Variable place : gmap Z (Z * Z) -> Z -> Z -> option Z.
Variable lib : Library.

(** [bytes] *)
Definition bytes (slice : list Z) : M RocListWith := list_from_slice place U8 (map (fun b => [b]) slice).

(** [with_lists]: all of them are read before any is released. *)
Fixpoint read_lists (lists : list RocListWith) : M (list (list Z)) :=
  match lists with [] => mret [] | l :: lists => s ← list_as_slice U8 l; ss ← read_lists lists; mret (concat s :: ss) end.
Fixpoint release_lists (lists : list RocListWith) : M unit :=
  match lists with [] => mret tt | l :: lists => _ ← list_decref U8 l; release_lists lists end.
Definition with_lists {R} (lists : list RocListWith) (f : list (list Z) -> M R) : M R :=
  slices ← read_lists lists; result ← f slices; _ ← release_lists lists; mret result.

(** A key is the library's; here the bytes it stands for. *)
Definition x25519_secret (secret : list Z) : option (list Z) := x25519_private lib secret.
Definition public_key (secret : list Z) : option (list Z) := key ← x25519_secret secret; x25519_public lib key.

Definition roc_x25519_public_key (secret : RocListWith) : M RocListWith :=
  with_lists [secret] (fun s => bytes (match public_key (nth 0 s []) with Some public => public | None => [] end)).

(** The agreed secret, unless it is all zeros. *)
Definition shared_secret (secret public : list Z) : option (list Z) :=
  key ← x25519_secret secret;
  shared ← x25519_agree lib key public;
  if (length shared =? 32)%nat && existsb (fun b => negb (b =? 0)) shared then Some shared else None.

(** Tags [LowOrder] 0 and [Shared] 1. *)
Definition roc_x25519_shared (secret public : RocListWith) : M (nat * option RocListWith) :=
  shared ← with_lists [secret; public] (fun s => mret (shared_secret (nth 0 s []) (nth 1 s [])));
  match shared with Some shared => l ← bytes shared; mret (1%nat, Some l) | None => mret (0%nat, None) end.

Definition aead_alg (alg : Z) : option Alg := match alg with 0 => Some CHACHA20_POLY1305 | 1 => Some AES_256_GCM | _ => None end.
Definition aead_key (alg : Z) (key : list Z) : option (Alg * list Z) := a ← aead_alg alg; if aead_key_ok lib a key then Some (a, key) else None.
Definition nonce (n : list Z) : option (list Z) := if aead_nonce_ok lib n then Some n else None.

(** What [roc_aead_seal] and [roc_aead_open] make of the bytes. *)
Definition sealed (alg : Z) (key nonce_bytes ad plaintext : list Z) : list Z :=
  match aead_key alg key, nonce nonce_bytes with
  | Some (a, k), Some n => match seal_in_place lib a k n ad plaintext with Some sealed => sealed | None => [] end
  | _, _ => []
  end.
Definition opened (alg : Z) (key nonce_bytes ad ciphertext : list Z) : option (list Z) :=
  '(a, k) ← aead_key alg key; n ← nonce nonce_bytes; open_in_place lib a k n ad ciphertext.

Definition roc_aead_seal (alg : Z) (key nonce_bytes ad plaintext : RocListWith) : M RocListWith :=
  with_lists [key; nonce_bytes; ad; plaintext] (fun s => bytes (sealed alg (nth 0 s []) (nth 1 s []) (nth 2 s []) (nth 3 s []))).

(** Tags [Invalid] 0 and [Opened] 1. *)
Definition roc_aead_open (alg : Z) (key nonce_bytes ad ciphertext : RocListWith) : M (nat * option RocListWith) :=
  opened ← with_lists [key; nonce_bytes; ad; ciphertext] (fun s =>
    match opened alg (nth 0 s []) (nth 1 s []) (nth 2 s []) (nth 3 s []) with Some plain => l ← bytes plain; mret (Some l) | None => mret None end);
  mret (match opened with Some plain => (1%nat, Some plain) | None => (0%nat, None) end).

Definition roc_ed25519_public_key (seed : RocListWith) : M RocListWith :=
  with_lists [seed] (fun s => match ed25519_key lib (nth 0 s []) with Some key => bytes (ed25519_public lib key) | None => bytes [] end).

Definition roc_ed25519_sign (seed message : RocListWith) : M RocListWith :=
  with_lists [seed; message] (fun s => match ed25519_key lib (nth 0 s []) with Some key => bytes (ed25519_signature lib key (nth 1 s [])) | None => bytes [] end).

Definition roc_ed25519_verify (public message sig : RocListWith) : M bool :=
  with_lists [public; message; sig] (fun s => mret (ed25519_ok lib (nth 0 s []) (nth 1 s []) (nth 2 s []))).

Definition roc_constant_time_eq (a b : RocListWith) : M bool :=
  with_lists [a; b] (fun s => mret (slices_equal lib (nth 0 s []) (nth 1 s []))).

(** ** What becomes of the lists *)

Context `{!Placement place}.

(** The lists with what they hold, as values of the program. *)
Abbreviation args := (zip_with (fun l c => (VList U8 l, c))).

(** A call that, from any state of the program, ends it for want of memory or
    leaves a result and what is new. *)
Definition yields {R} (run : M R) (held : list (Value * list Z)) (Q : R -> list (Value * list Z) -> Prop) : Prop :=
  forall m h, reachable place (m, held ++ h) ->
    run m = Stopped \/ exists r m' new, run m = Done r m' /\ reachable place (m', new ++ h) /\ Q r new.

Lemma list_view m h l c : reachable place (m, h) -> (VList U8 l, c) ∈ h -> exists s, list_as_slice U8 l m = Done s m /\ concat s = c.
Proof.
  intros Hr Hin. destruct (refs_reachable_inv place _ Hr) as [g HI]. pose proof (good_view _ _ _ _ (v_rep _ _ HI) (v_good _ _ HI _ _ Hin)) as Hv. cbn [value_view fst] in Hv.
  unfold mbind, M_bind in Hv. destruct (list_as_slice U8 l m) as [| |s m'] eqn:E; [done..|]. unfold mret, M_ret in Hv. injection Hv as <- ->. by exists s.
Qed.

Lemma read_lists_view lists cs m h : length lists = length cs -> reachable place (m, h) -> (forall x, x ∈ args lists cs -> x ∈ h) -> read_lists lists m = Done cs m.
Proof.
  revert cs. induction lists as [|l lists IH]; intros [|c cs] Hlen Hr Hin; try done. cbn [read_lists]. unfold mbind, M_bind.
  destruct (list_view m h l c Hr ltac:(apply Hin; by apply elem_of_cons; left)) as (s & -> & <-).
  rewrite (IH cs); [done|cbn in Hlen; lia|done|]. intros x Hx. apply Hin. by apply elem_of_cons; right.
Qed.

Lemma release_lists_step lists cs new m h : length lists = length cs -> reachable place (m, new ++ args lists cs ++ h) ->
  exists m', release_lists lists m = Done tt m' /\ reachable place (m', new ++ h).
Proof.
  revert cs m. induction lists as [|l lists IH]; intros [|c cs] m Hlen Hr; try done; cbn [release_lists]; [by exists m|].
  cbn [zip_with app] in Hr. destruct (refs_reachable_inv place _ Hr) as [g HI]. destruct (refs_inv_release _ _ _ _ _ _ HI) as (m1 & g1 & Ed & _).
  pose proof (rtc_r _ _ _ Hr (st_release place _ _ _ _ _ _ Ed)) as Hr1. cbn [value_decref] in Ed. unfold mbind, M_bind. rewrite Ed.
  apply (IH cs); [cbn in Hlen; lia|done].
Qed.

Lemma with_lists_yields {R} lists cs (f : list (list Z) -> M R) Q : length lists = length cs ->
  yields (f cs) [] Q -> yields (with_lists lists f) (args lists cs) Q.
Proof.
  intros Hlen Hf m h Hr. unfold with_lists, mbind, M_bind. rewrite (read_lists_view lists cs m _ Hlen Hr) by (intros x Hx; apply elem_of_app; by left).
  destruct (Hf m (args lists cs ++ h) Hr) as [->|(r & m1 & new & -> & Hr1 & HQ)]; [by left|right].
  destruct (release_lists_step lists cs new m1 h Hlen Hr1) as (m' & -> & Hr'). by exists r, m', new.
Qed.

Lemma concat_singletons (slice : list Z) : concat (map (fun b => [b]) slice) = slice.
Proof. induction slice as [|b slice IH]; [done|]. cbn. by rewrite IH. Qed.

(** A list made is a value of the program's. *)
Lemma bytes_yields slice : yields (bytes slice) [] (fun l new => new = [(VList U8 l, slice)]).
Proof.
  intros m h Hr. destruct (refs_reachable_inv place _ Hr) as [g HI].
  assert (elem_ok U8) as He by (split; [done|by exists 1]).
  assert (Forall (fun x => Z.of_nat (length x) = size_of U8) (map (fun b => [b]) slice)) as Hs by (apply Forall_fmap, Forall_forall; done).
  assert (bytes slice m = Stopped \/ exists l m', bytes slice m = Done l m') as [E|(l & m' & E)]; [|by left|right].
  { unfold bytes. destruct slice as [|b slice]; [right; by eexists _, _|]. cbn [map list_from_slice].
    destruct (list_allocated place U8 (Z.of_nat (length ([b] :: map (fun b => [b]) slice))) m g (v_rep _ _ HI) He ltac:(cbn; lia)) as [E|(d & m1 & E & Hn & HR1 & _ & Hp)].
    - left. unfold mbind, M_bind. by rewrite E.
    - right. unfold mbind, M_bind. rewrite E. cbn [elements]. pose proof (r_block _ _ HR1 _ _ (lookup_insert_eq _ _ _)) as (Hl & Hh & _).
      change (concat ([b] :: map (fun b => [b]) slice)) with (concat (map (fun b => [b]) (b :: slice))). rewrite concat_singletons.
      rewrite (store_at _ _ _ _ _ _ Hl) by (cbn [header size size_of U8 length] in *; unfold WORD in *; rewrite ?length_map; lia). by eexists _, _. }
  exists l, m', [(VList U8 l, slice)]. split_and!; [done| |done]. pose proof (st_list place m h U8 _ l m' He Hs E) as Hst. rewrite concat_singletons in Hst.
  by eapply rtc_r; [exact Hr|].
Qed.

(** Continuing a call. *)
Lemma yields_bind {R R'} (run : M R) (k : R -> M R') held Q Q' : yields run held Q ->
  (forall r new, Q r new -> yields (k r) new (fun r' new' => Q' r' new')) -> yields (r ← run; k r) held Q'.
Proof.
  intros H1 H2 m h Hr. unfold mbind, M_bind. destruct (H1 m h Hr) as [->|(r & m1 & new & -> & Hr1 & HQ)]; [by left|]. exact (H2 r new HQ m1 h Hr1).
Qed.

Lemma yields_ret {R} (r : R) held (Q : R -> list (Value * list Z) -> Prop) : Q r held -> yields (mret r) held Q.
Proof. intros HQ m h Hr. right. by exists r, m, held. Qed.

Lemma yields_mono {R} (run : M R) held (Q Q' : R -> list (Value * list Z) -> Prop) : yields run held Q -> (forall r new, Q r new -> Q' r new) -> yields run held Q'.
Proof. intros H1 H2 m h Hr. destruct (H1 m h Hr) as [->|(r & m1 & new & -> & Hr1 & HQ)]; [by left|right]. exists r, m1, new. auto. Qed.

(** A result that is a tag, with a new list for one of them. *)
Definition tagged (secret : option (list Z)) (r : nat * option RocListWith) (new : list (Value * list Z)) : Prop :=
  match secret with Some s => exists l, r = (1%nat, Some l) /\ new = [(VList U8 l, s)] | None => r = (0%nat, None) /\ new = [] end.

(** Every cryptographic function takes its lists and gives back its
    result, and nothing else: each list is given up exactly once, also when
    the operation fails or the lists are one and the same; what is new is
    the returned list; and that holds what the library computed from the
    lists' contents, or is the operation's failure. *)
Theorem crypto_accounted :
  (forall l c, yields (roc_x25519_public_key l) (args [l] [c]) (fun r new => new = [(VList U8 r, default [] (public_key c))])) /\
  (forall l1 l2 c1 c2, yields (roc_x25519_shared l1 l2) (args [l1; l2] [c1; c2]) (tagged (shared_secret c1 c2))) /\
  (forall alg l1 l2 l3 l4 c1 c2 c3 c4, yields (roc_aead_seal alg l1 l2 l3 l4) (args [l1; l2; l3; l4] [c1; c2; c3; c4]) (fun r new => new = [(VList U8 r, sealed alg c1 c2 c3 c4)])) /\
  (forall alg l1 l2 l3 l4 c1 c2 c3 c4, yields (roc_aead_open alg l1 l2 l3 l4) (args [l1; l2; l3; l4] [c1; c2; c3; c4]) (tagged (opened alg c1 c2 c3 c4))) /\
  (forall l c, yields (roc_ed25519_public_key l) (args [l] [c]) (fun r new => new = [(VList U8 r, from_option (ed25519_public lib) [] (ed25519_key lib c))])) /\
  (forall l1 l2 c1 c2, yields (roc_ed25519_sign l1 l2) (args [l1; l2] [c1; c2]) (fun r new => new = [(VList U8 r, from_option (fun k => ed25519_signature lib k c2) [] (ed25519_key lib c1))])) /\
  (forall l1 l2 l3 c1 c2 c3, yields (roc_ed25519_verify l1 l2 l3) (args [l1; l2; l3] [c1; c2; c3]) (fun r new => new = [] /\ r = ed25519_ok lib c1 c2 c3)) /\
  (forall l1 l2 c1 c2, yields (roc_constant_time_eq l1 l2) (args [l1; l2] [c1; c2]) (fun r new => new = [] /\ r = slices_equal lib c1 c2)).
Proof.
  split_and!; intros.
  - apply with_lists_yields; [done|]. cbn [nth]. destruct (public_key c); apply bytes_yields.
  - eapply (yields_bind _ _ _ (fun r new => new = [] /\ r = shared_secret c1 c2)).
    + apply with_lists_yields; [done|]. by apply yields_ret.
    + intros r new [-> ->]. unfold tagged. destruct (shared_secret c1 c2) as [s|]; [|by apply yields_ret].
      eapply yields_bind; [apply bytes_yields|]. intros l new ->. apply yields_ret. by exists l.
  - apply with_lists_yields; [done|]. apply bytes_yields.
  - eapply (yields_bind _ _ _ (fun r new => match opened alg c1 c2 c3 c4 with Some s => exists l, r = Some l /\ new = [(VList U8 l, s)] | None => r = None /\ new = [] end)).
    + apply with_lists_yields; [done|]. cbn [nth]. destruct (opened alg c1 c2 c3 c4) as [s|]; [|by apply yields_ret].
      eapply yields_bind; [apply bytes_yields|]. intros l new ->. apply yields_ret. by exists l.
    + intros r new Hr. apply yields_ret. unfold tagged. destruct (opened alg c1 c2 c3 c4) as [s|]; [destruct Hr as (l & -> & ->); by exists l|by destruct Hr as [-> ->]].
  - apply with_lists_yields; [done|]. cbn [nth]. destruct (ed25519_key lib c); apply bytes_yields.
  - apply with_lists_yields; [done|]. cbn [nth]. destruct (ed25519_key lib c1); apply bytes_yields.
  - apply with_lists_yields; [done|]. by apply yields_ret.
  - apply with_lists_yields; [done|]. by apply yields_ret.
Qed.

(** Failures stay failures: an unknown algorithm seals to nothing and
    opens nothing, and a shared secret that was returned is 32 bytes that are
    not all zero, whatever the library agreed on. *)
Theorem crypto_refuses alg key n ad text secret public s :
  (alg <> 0 -> alg <> 1 -> sealed alg key n ad text = [] /\ opened alg key n ad text = None) /\
  (shared_secret secret public = Some s -> length s = 32%nat /\ exists b, b ∈ s /\ b <> 0).
Proof.
  split.
  - intros H0 H1. assert (aead_alg alg = None) as E by (unfold aead_alg; destruct alg as [|p|p]; [done|destruct p; done|done]).
    unfold sealed, opened, aead_key. by rewrite E.
  - unfold shared_secret. destruct (x25519_secret secret) as [k|]; [|done]. cbn [mbind option_bind]. destruct (x25519_agree lib k public) as [x|]; [|done]. cbn [mbind option_bind]. destruct (_ && _) eqn:E; [|done]. intros [= <-].
    apply andb_true_iff in E as [E1%Nat.eqb_eq E2]. split; [done|]. apply existsb_exists in E2 as (b & Hb%list_elem_of_In & Hn%negb_true_iff%Z.eqb_neq). by exists b.
Qed.

End Crypto.
(** A library whose keys are any 32 bytes and whose ciphers add nothing. *)
Definition toy : Library :=
  let key (k : list Z) := if (length k =? 32)%nat then Some k else None in
  mkLibrary key Some (fun _ p => Some p) (fun _ k => (length k =? 32)%nat) (fun n => (length n =? 12)%nat) (fun _ _ _ _ p => Some p) (fun _ _ _ _ c => Some c)
    key id (fun _ m => m) (fun _ m s => bool_decide (m = s)) (fun a b => bool_decide (a = b)).

(** Two lists of one byte each, made one after the other. *)
Definition first : RocListWith := mkList 72 1 2.
Definition second : RocListWith := mkList 136 1 2.
Definition m0 : Mem := mkMem ∅ (fun _ => 0).
Definition m1 : Mem := match bytes bump [7] m0 with Done _ m => m | _ => m0 end.
Definition m2 : Mem := match bytes bump [7] m1 with Done _ m => m | _ => m0 end.

Lemma crypto_demo_reachable : reachable bump (m2, [(VList U8 second, [7]); (VList U8 first, [7])]).
Proof.
  eapply rtc_l; [apply (st_list bump m0 [] U8 [[7]] first m1); [split; [done|by exists 1]|by repeat constructor|vm_compute; reflexivity]|].
  eapply rtc_l; [apply (st_list bump m1 _ U8 [[7]] second m2); [split; [done|by exists 1]|by repeat constructor|vm_compute; reflexivity]|]. apply rtc_refl.
Qed.

Lemma crypto_accounted_witness : exists m', roc_constant_time_eq toy second first m2 = Done true m' /\ reachable bump (m', []).
Proof.
  destruct (crypto_accounted bump toy) as (_ & _ & _ & _ & _ & _ & _ & H).
  destruct (H second first [7] [7] m2 [] crypto_demo_reachable) as [E|(r & m' & new & E & Hr' & -> & Hq)]; [vm_compute in E; discriminate E|].
  exists m'. split; [rewrite E, Hq; reflexivity|exact Hr'].
Defined.

Lemma crypto_refuses_witness : sealed toy 2 [] [] [] [5] = [] /\ length (repeat 9 32) = 32%nat.
Proof.
  destruct (crypto_refuses toy 2 [] [] [] [5] (repeat 1 32) (repeat 9 32) (repeat 9 32)) as [H1 H2].
  split; [exact (proj1 (H1 ltac:(discriminate) ltac:(discriminate)))|exact (proj1 (H2 eq_refl))].
Defined.

End Crypto.
