(* ===== verification/Random.v ===== *)
(** * Random bytes ([src/random.rs])

    [roc_random_bytes] makes its list by hand, because the generated
    [RocListWith::allocate] ends the program when there is no memory; at run
    time [check_layout] compares the two on a list of one byte.  Here they are
    compared on every length.  That the host's allocator gives out what the
    list needs is [Alloc.v]'s [random_list_laid_out]. *)
From S2P Require Import Prelude RocMem RocValues RocRefs Crypto.
Local Open Scope Z_scope.

Module Random.
Import RocMem RocValues RocRefs.

Abbreviation U8 := Crypto.U8.

(** ** The list *)

Section Random.
Variable place : gmap Z (Z * Z) -> Z -> Z -> option Z.

(** [alloc::try_alloc] *)
Definition try_alloc (len align : Z) : M (option Z) := fun m =>
  match place (live m) len align with
  | Some p => Done (Some p) (mkMem (<[p := (len, align)]> (live m)) (contents m))
  | None => Done None m
  end.

Definition try_alloc_bytes (count : Z) : M (option RocListWith) :=
  if count =? 0 then mret (Some list_empty)
  else match checked_add count WORD with
       | None => mret None
       | Some size =>
           base ← try_alloc size WORD;
           match base with
           | None => mret None
           | Some base =>
               let elements := base + WORD in
               _ ← store_word (elements - WORD) 1;
               mret (Some (mkList elements count (u64_shl count 1)))
           end
       end.

(** [check_layout]: the glue's list of one byte, in a buffer at [probe]; what
    it asked for is what the buffer is recorded with. *)
Definition probe_alloc (probe : Z) (l : gmap Z (Z * Z)) (len align : Z) : option Z := Some probe.

Definition layout_matches (probe : Z) : bool :=
  match list_allocate (probe_alloc probe) U8 1 (mkMem ∅ (fun _ => 0)) with
  | Done l m =>
      bool_decide (live m !! probe = Some (1 + WORD, WORD)) && (elements l =? probe + WORD) &&
      (word m probe =? 1) && (l_length l =? 1) && (capacity_or_alloc_ptr l =? 2)
  | _ => false
  end.

Definition check_layout (probe : Z) : M unit := expect (if layout_matches probe then Some tt else None).

(** [roc_random_bytes]: [fill] is what the generator gives for so many bytes,
    [None] its failure, which ends the program.  Tags [Bytes] 0 and
    [OutOfMemory] 1. *)
Definition roc_random_bytes (probe : Z) (fill : Z -> option (list Z)) (count : Z) : M (nat * option RocListWith) :=
  _ ← check_layout probe;
  list ← try_alloc_bytes count;
  match list with
  | None => mret (1%nat, None)
  | Some l =>
      _ ← (if 0 <? count then bytes ← expect (fill count); store (elements l) bytes else mret tt);
      mret (0%nat, Some l)
  end.

(** ** The two layouts are one *)

(** What [allocate] does, but that running out of memory is a result. *)
Definition or_none (run : outcome RocListWith) (m : Mem) : outcome (option RocListWith) :=
  match run with Done l m' => Done (Some l) m' | Stopped => Done None m | Undefined => Undefined end.

Lemma list_as_allocated count m : 0 <= count <= U64_MAX -> try_alloc_bytes count m = or_none (list_allocate place U8 count m) m.
Proof.
  intros Hc. unfold try_alloc_bytes, list_allocate. destruct (count =? 0); [done|].
  unfold mbind, M_bind, expect, checked_mul, checked_add. cbn [size_of refcounted align_of U8 Crypto.U8].
  rewrite Z.mul_1_r, (proj2 (Z.leb_le count U64_MAX)) by lia. change (header_bytes U8) with WORD. change (alloc_align U8) with WORD.
  destruct (_ <=? _); [|done]. unfold try_alloc, alloc. destruct (place _ _ _) as [p|]; [|done].
  unfold store_word, store. by destruct (inside _ _ _).
Qed.

Lemma probe_ok probe : layout_matches probe = true.
Proof.
  unfold layout_matches, list_allocate, mbind, M_bind, expect, alloc, probe_alloc, mret, M_ret.
  change (checked_mul 1 (size_of U8)) with (Some 1). change (header_bytes U8) with WORD. change (alloc_align U8) with WORD.
  cbn [Z.eqb refcounted U8 Crypto.U8 live contents]. change (checked_add 1 WORD) with (Some (1 + WORD)). cbn [live contents].
  replace (probe + WORD - WORD) with probe by lia.
  rewrite (store_word_at _ probe (1 + WORD) WORD); [|apply lookup_insert_eq|lia|unfold WORD; lia].
  cbn [live elements l_length capacity_or_alloc_ptr]. rewrite (bool_decide_eq_true_2 _ (lookup_insert_eq _ _ _)).
  unfold word. cbn [contents]. 
  assert (read probe WORD (write probe (le 8 1) (fun _ => 0)) = le 8 1) as -> by exact (read_write_same _ (le 8 1) _).
  by rewrite Z.eqb_refl.
Qed.

Context `{!Placement place}.

(** The list [roc_random_bytes] lays out by hand is the one the generated
    code would have made, for every length and not just the one compared at
    start-up, which always matches; out of memory is an answer, and leaves
    the memory alone.  What is returned is a list of the program's own that
    holds the generator's bytes. *)
Theorem random_list_as_generated probe fill count m h :
  0 <= count <= U64_MAX -> (forall n b, fill n = Some b -> Z.of_nat (length b) = n) -> reachable place (m, h) ->
  layout_matches probe = true /\
  try_alloc_bytes count m = or_none (list_allocate place U8 count m) m /\
  ((0 < count /\ fill count = None /\ is_Some (place (live m) (count + WORD) WORD) /\ roc_random_bytes probe fill count m = Stopped) \/
   roc_random_bytes probe fill count m = Done (1%nat, None) m \/
   exists l bytes m', roc_random_bytes probe fill count m = Done (0%nat, Some l) m' /\ Z.of_nat (length bytes) = count /\
     (0 < count -> fill count = Some bytes) /\ reachable place (m', (VList U8 l, bytes) :: h)).
Proof.
  intros Hc Hfill Hr. split; [apply probe_ok|]. split; [by apply list_as_allocated|].
  unfold roc_random_bytes, check_layout, mbind, M_bind, expect. rewrite probe_ok, (list_as_allocated count m Hc).
  destruct (Z.eqb_spec count 0) as [->|Hne].
  { right; right. exists list_empty, [], m. split_and!; [done..|]. eapply rtc_r; [exact Hr|].
    apply (st_list place m h U8 [] list_empty m); [split; [done|by exists 1]|constructor|done]. }
  assert (0 < count) as Hpos by lia. destruct (refs_reachable_inv place _ Hr) as [g HI].
  assert (elem_ok U8) as He by (split; [done|by exists 1]).
  destruct (list_allocated place U8 count m g (v_rep _ _ HI) He Hpos) as [->|(d & m1 & E & Hn & HR1 & _ & Hp)]; [by right; left|].
  rewrite E. cbn [or_none]. rewrite (proj2 (Z.ltb_lt 0 count)) by lia. destruct (fill count) as [bytes|] eqn:Ef.
  2: { left. split_and!; [done..| |done]. unfold list_allocate in E. rewrite (proj2 (Z.eqb_neq count 0)) in E by lia.
       unfold mbind, M_bind, expect, checked_mul, checked_add, alloc in E. cbn [size_of U8 Crypto.U8] in E.
       rewrite Z.mul_1_r, (proj2 (Z.leb_le count U64_MAX)) in E by lia. change (header_bytes _) with WORD in E. change (alloc_align _) with WORD in E.
       destruct (_ <=? _); [|done]. destruct (place _ _ _); [done|discriminate]. }
  pose proof (Hfill _ _ Ef) as Hlen. right; right.
  assert (list_from_slice place U8 (map (fun b => [b]) bytes) m = (l ← list_allocate place U8 count; _ ← store (elements l) bytes; mret l) m) as Efs.
  { destruct bytes as [|b bytes]; [cbn in Hlen; lia|]. cbn [map list_from_slice].
    change ([b] :: map (fun b => [b]) bytes) with (map (fun b => [b]) (b :: bytes)). by rewrite Crypto.concat_singletons, length_map, Hlen. }
  unfold mbind, M_bind in Efs. rewrite E in Efs. cbn [elements] in Efs |- *.
  pose proof (r_block _ _ HR1 _ _ (lookup_insert_eq _ _ _)) as (Hl & Hh & _).
  rewrite (store_at _ _ _ _ _ bytes Hl) in Efs |- * by (cbn [header size size_of U8 Crypto.U8] in *; unfold WORD in *; lia).
  eexists _, bytes, _. split_and!; [done|done|done|]. eapply rtc_r; [exact Hr|].
  pose proof (st_list place m h U8 (map (fun b => [b]) bytes) _ _ He ltac:(apply Forall_fmap, Forall_forall; done) Efs) as Hst.
  by rewrite Crypto.concat_singletons in Hst.
Qed.

End Random.

Lemma random_list_as_generated_witness :
  exists l m', roc_random_bytes bump 4096 (fun n => if n =? 3 then Some [7; 7; 7] else None) 3 (mkMem ∅ (fun _ => 0)) = Done (0%nat, Some l) m' /\
    reachable bump (m', [(VList U8 l, [7; 7; 7])]).
Proof.
  destruct (random_list_as_generated bump 4096 (fun n => if n =? 3 then Some [7; 7; 7] else None) 3 (mkMem ∅ (fun _ => 0)) [])
    as (_ & _ & [(_ & E & _)|[E|(l & bytes & m' & E & _ & Eb & Hr)]]).
  - unfold U64_MAX. lia.
  - intros n b. destruct (Z.eqb_spec n 3) as [->|]; [|done]. by intros [= <-].
  - apply rtc_refl.
  - discriminate E.
  - vm_compute in E. discriminate E.
  - exists l, m'. specialize (Eb eq_refl). cbn in Eb. injection Eb as <-. split; [exact E|exact Hr].
Defined.

End Random.
