(* ===== verification/NetResults.v ===== *)
(** * What hosted functions return ([src/net.rs])

    [NetHosted.v] ends with Rust results; here they become the values a Roc
    program gets: unions of the generated types ([AbiTypes.v]), with an error
    under the name Roc knows it by, and strings and lists that are the
    program's own.  The makers of results are the source's macros and
    functions, tags taken by name as the source takes them. *)
From S2P Require Import Prelude Io Sockets NetOps RocMem RocValues RocRefs AbiLayout AbiTypes AbiCodec LogFormat Stdin Stdio Args Crypto.
From stdpp Require Import strings.
Local Open Scope string_scope.
Local Open Scope Z_scope.
Local Open Scope list_scope.

Module NetResults.
Import RocMem RocValues RocRefs AbiLayout AbiTypes.

Abbreviation U8 := Crypto.U8.
Abbreviation Val := AbiCodec.Val.

(** ** Tags by name *)

Definition variants (t : Ty) : list (string * Ty) := match t with Union vs _ _ => vs | _ => [] end.

(** A name the type doesn't have is past its last tag. *)
Definition tag_named (t : Ty) (name : string) : nat :=
  match list_find (fun v => v.1 = name) (variants t) with Some (i, _) => i | None => length (variants t) end.

Definition union_of (t : Ty) (name : string) (v : Val) : Val := AbiCodec.VUnion (tag_named t name) v.

(** The names on the way into a value. *)
Fixpoint names (t : Ty) (v : Val) {struct v} : list string :=
  match t, v with
  | Union vs _ _, AbiCodec.VUnion tag p => match vs !! tag with Some (n, t') => n :: names t' p | None => ["?"] end
  | _, _ => []
  end.

(** What is at the end of them. *)
Fixpoint leaf (v : Val) : Val := match v with AbiCodec.VUnion _ p => leaf p | _ => v end.

(** Roc's names of [IOErr]'s tags. *)
Definition err_name (e : NetOps.IOErr) : string :=
  match e with
  | RAddrInUse => "AddrInUse" | RAddrNotAvailable => "AddrNotAvailable" | RAlreadyExists => "AlreadyExists" | RBrokenPipe => "BrokenPipe"
  | RConnectionAborted => "ConnectionAborted" | RConnectionRefused => "ConnectionRefused" | RConnectionReset => "ConnectionReset"
  | RInterrupted => "Interrupted" | RInvalidInput => "InvalidInput" | RNotConnected => "NotConnected" | RNotFound => "NotFound"
  | RPermissionDenied => "PermissionDenied" | RTimedOut => "TimedOut" | RUnexpectedEof => "UnexpectedEof" | RUnsupported => "Unsupported"
  | RTooManySockets => "TooManySockets" | RCancelled => "Cancelled" | ROther => "Other"
  end.

Section Results.
Variable place : gmap Z (Z * Z) -> Z -> Z -> option Z.
(** The text of an error without a tag of its own, a [String]. *)
Variable message : NetErr -> list Z.

(** [io_err!], for either copy [t] of the type *)
Definition io_err (t : Ty) (err : NetErr) : M Val :=
  match from_net_err err with
  | ROther => s ← Stdio.from_str place (message err); mret (union_of t "Other" (AbiCodec.VStr s))
  | k => mret (union_of t (err_name k) AbiCodec.VUnit)
  end.

(** [roc_result!] *)
Definition roc_result {A} (t err_t : Ty) (value : net_result A) (ok : A -> M Val) : M Val :=
  match value with
  | Ok a => v ← ok a; mret (union_of t "Ok" v)
  | Err e => v ← io_err err_t e; mret (union_of t "Err" v)
  end.

(** [HostSocketReadResult] is [HostFileReadResult], and
    [HostSocketSetTimeoutResult] [HostSignalCatchResult]. *)
Definition handle_result (value : net_result Z) : M Val := roc_result HostSocketAcceptResult IOErr value (fun h => mret (AbiCodec.VPtr h)).
Definition str_result (value : net_result (list Z)) : M Val :=
  roc_result HostSocketLocalAddrResult IOErr value (fun text => s ← Stdio.from_str place text; mret (AbiCodec.VStr s)).
Definition bytes_result (value : net_result RocListWith) : M Val := roc_result HostFileReadResult IOErr value (fun l => mret (AbiCodec.VList l)).
Definition unit_result (value : net_result unit) : M Val := roc_result HostSignalCatchResult HostIOErr value (fun _ => mret AbiCodec.VUnit).

Definition roc_bytes (bytes : list Z) : M RocListWith := list_from_slice place U8 (map (fun b => [b]) bytes).

(** The ends of [roc_socket_try_accept] and [roc_socket_try_read] *)
Definition accept_outcome (value : net_result (option Z)) : M Val :=
  match value with
  | Ok (Some handle) => mret (union_of AcceptedOrFailedOrNotReady "Accepted" (AbiCodec.VPtr handle))
  | Ok None => mret (union_of AcceptedOrFailedOrNotReady "NotReady" AbiCodec.VUnit)
  | Err err => v ← io_err IOErr err; mret (union_of AcceptedOrFailedOrNotReady "Failed" v)
  end.

Definition read_outcome (value : net_result (option RocListWith)) : M Val :=
  match value with
  | Ok (Some bytes) => mret (union_of DataOrFailedOrNotReady "Data" (AbiCodec.VList bytes))
  | Ok None => mret (union_of DataOrFailedOrNotReady "NotReady" AbiCodec.VUnit)
  | Err err => v ← io_err IOErr err; mret (union_of DataOrFailedOrNotReady "Failed" v)
  end.

(** [roc_udp_recv_from]'s record and result *)
Definition recv_from_result (value : net_result (list Z * bool * list Z)) : M Val :=
  roc_result HostUdpRecvFromResult IOErr value (fun '(data, truncated, from) =>
    bytes ← roc_bytes data;
    from ← Stdio.from_str place from;
    mret (AbiCodec.VStruct [AbiCodec.VList bytes; AbiCodec.VStr from; AbiCodec.VBool truncated])).

(** [roc_str_list] *)
Definition roc_str_list (items : list (list Z)) : M RocListWith :=
  l ← list_allocate place STR (Z.of_nat (length items));
  _ ← Args.write_args place (elements l) 0 items;
  mret l.

(** ** What the program gets *)

Context `{!Placement place}.
Hypothesis message_valid : forall e, Utf8.valid (message e) = true.

(** A value of the type, the payload [x] found under these names, whatever the
    padding. *)
Definition told (t : Ty) (v : Val) (path : list string) (x : Val) : Prop :=
  names t v = path /\ leaf v = x /\ forall fill, exists b, AbiCodec.encode fill t v = Some b /\ AbiCodec.decode t b = Some v.

Abbreviation yields := (Crypto.yields place).

Lemma encoded_told t v path x : sound t = true -> names t v = path -> leaf v = x -> (forall fill, exists b, AbiCodec.encode fill t v = Some b) -> told t v path x.
Proof.
  intros Hs Hn Hx He. split; [done|]. split; [done|]. intros fill. destruct (He fill) as [b Hb]. exists b. split; [done|].
  by apply (AbiCodec.encode_restores fill t Hs v b).
Qed.

(** A union around a value of one of its variants. *)
Lemma told_union vs a b name t v path x : let u := Union vs a b in
  sound u = true -> vs !! tag_named u name = Some (name, t) -> told t v path x -> told u (union_of u name v) (name :: path) x.
Proof.
  intros u Hs Hl (Hn & Hx & He). apply encoded_told; [done| |done|].
  - cbn [names union_of u]. change (Union vs a b) with u. rewrite Hl. by rewrite Hn.
  - intros fill. destruct (He fill) as (bs & Hbs & _). cbn [AbiCodec.encode union_of u]. change (Union vs a b) with u.
    rewrite list_lookup_fmap, Hl. cbn [fmap option_fmap option_map mbind option_bind snd]. rewrite Hbs. cbn [mbind option_bind tag_offset u]. eauto.
Qed.

Lemma told_unit : told Unit AbiCodec.VUnit [] AbiCodec.VUnit.
Proof. split; [done|]. split; [done|]. intros fill. by exists []. Qed.

Lemma told_str s r m m' : Stdio.from_str place s m = Done r m' -> told Str (AbiCodec.VStr r) [] (AbiCodec.VStr r).
Proof.
  intros E. apply encoded_told; [done..|]. intros fill. cbn [AbiCodec.encode].
  rewrite (Stdio.from_str_words place s r m m' E). eauto.
Qed.

Lemma told_ptr p : 0 <= p < 2 ^ 64 -> told Box (AbiCodec.VPtr p) [] (AbiCodec.VPtr p).
Proof.
  intros Hp. apply encoded_told; [done..|]. intros fill. cbn [AbiCodec.encode].
  rewrite (proj2 (AbiCodec.in_word_true p)) by lia. eauto.
Qed.

Definition words (l : RocListWith) : Prop := 0 <= elements l < 2 ^ 64 /\ 0 <= l_length l < 2 ^ 64 /\ 0 <= capacity_or_alloc_ptr l < 2 ^ 64.

Lemma told_list e l : sound (ListOf false e) = true -> words l -> told (ListOf false e) (AbiCodec.VList l) [] (AbiCodec.VList l).
Proof.
  intros Hs (H1 & H2 & H3). apply encoded_told; [done..|]. intros fill. cbn [AbiCodec.encode].
  by rewrite !(proj2 (AbiCodec.in_word_true _)); eauto.
Qed.

(** A string just made: new, and the program's. *)
Lemma from_str_yields s : Utf8.valid s = true -> yields (Stdio.from_str place s) [] (fun r new => new = [(VStr r, s)] /\ told Str (AbiCodec.VStr r) [] (AbiCodec.VStr r)).
Proof.
  intros Hv m h Hr. destruct (Stdio.from_str_total place s m Hv) as [->|(r & m' & E)]; [by left|right].
  exists r, m', [(VStr r, s)]. split_and!; [done|by eapply Stdio.from_str_step|done|by eapply told_str].
Qed.

(** The words of a list just made. *)
Lemma roc_bytes_words data l m m' : roc_bytes data m = Done l m' -> words l.
Proof.
  unfold roc_bytes, words. destruct data as [|x data]; [unfold list_from_slice, mret, M_ret; cbn; intros [= <- _]; cbn; lia|].
  cbn [map list_from_slice]. unfold list_allocate, mbind, M_bind, expect, checked_mul, checked_add.
  set (n := Z.of_nat _). assert (0 < n) as Hn by (unfold n; cbn; lia). rewrite (proj2 (Z.eqb_neq n 0)) by lia.
  change (size_of U8) with 1. change (header_bytes U8) with WORD. change (alloc_align U8) with WORD. cbn [refcounted U8 Crypto.U8].
  rewrite Z.mul_1_r. destruct (_ <=? _); [|done]. destruct (_ <=? _); [|done]. unfold alloc.
  destruct (place (live m) (n + WORD) WORD) as [p|] eqn:Ep; [|done]. pose proof (placed place _ _ _ _ Ep) as (Hp & Hmax & _).
  destruct (store_word _ _ _) as [| |[] m1]; [done..|]. unfold mret, M_ret. destruct (store _ _ _) as [| |[] m2]; [done..|].
  intros [= <- _]. cbn [elements l_length capacity_or_alloc_ptr]. unfold WORD in *.
  split_and!; try lia; unfold shifted_capacity, u64_shl, wrap; apply Z.mod_pos_bound; lia.
Qed.

Lemma roc_bytes_yields data : yields (roc_bytes data) [] (fun l new => new = [(VList U8 l, data)] /\ words l).
Proof.
  intros m h Hr. destruct (Crypto.bytes_yields place data m h Hr) as [E|(l & m' & new & E & Hr' & ->)]; [by left|right].
  exists l, m', [(VList U8 l, data)]. split_and!; [done..|]. by eapply roc_bytes_words.
Qed.

Lemma encode_struct fill fs vs : AbiCodec.encode fill (Struct fs) (AbiCodec.VStruct vs) =
  (b ← AbiCodec.encode_fields fill 0 (map (fun f => (AbiCodec.encode fill f.2, size W64 f.2)) fs) (field_offsets W64 fs) vs;
   Some (b ++ AbiCodec.pad fill (size W64 (Struct fs) - Z.of_nat (length b)))).
Proof. reflexivity. Qed.

Lemma told_received bytes from truncated : told (ListOf false (Int 1)) (AbiCodec.VList bytes) [] (AbiCodec.VList bytes) -> told Str (AbiCodec.VStr from) [] (AbiCodec.VStr from) ->
  let x := AbiCodec.VStruct [AbiCodec.VList bytes; AbiCodec.VStr from; AbiCodec.VBool truncated] in told AnonStruct6954d79c85a0b6fd x [] x.
Proof.
  intros (_ & _ & H1) (_ & _ & H2) x. apply encoded_told; [done..|]. intros fill. destruct (H1 fill) as (x1 & E1 & _), (H2 fill) as (x2 & E2 & _).
  unfold AnonStruct6954d79c85a0b6fd, x. rewrite encode_struct. cbn [map snd]. change (field_offsets W64 _) with [0; 24; 48].
  cbn [AbiCodec.encode_fields]. rewrite E1, E2. cbn [AbiCodec.encode mbind option_bind]. eauto.
Qed.

(** The standard library's names of the kinds of errors. *)
Definition kind_name (k : ErrorKind) : string :=
  match k with
  | AddrInUse => "AddrInUse" | AddrNotAvailable => "AddrNotAvailable" | AlreadyExists => "AlreadyExists" | BrokenPipe => "BrokenPipe"
  | ConnectionAborted => "ConnectionAborted" | ConnectionRefused => "ConnectionRefused" | ConnectionReset => "ConnectionReset"
  | InterruptedKind => "Interrupted" | InvalidData => "InvalidData" | InvalidInput => "InvalidInput" | NotConnected => "NotConnected"
  | NotFound => "NotFound" | PermissionDenied => "PermissionDenied" | TimedOutKind => "TimedOut" | UnexpectedEof => "UnexpectedEof"
  | Unsupported => "Unsupported" | WouldBlock => "WouldBlock" | WriteZero => "WriteZero" | OtherKind => "Other"
  end.

(** The name an error goes by in Roc: its kind's own, where [IOErr] has one. *)
Definition known_as (e : NetErr) : string :=
  match e with
  | TooManySockets => "TooManySockets"
  | NetOther => "Other"
  | NetIo e =>
      if is_cancelled_error e then "Cancelled"
      else if bool_decide (kind e = WouldBlock) then "TimedOut"
      else if bool_decide (kind_name (kind e) ∈ map fst (variants IOErr)) then kind_name (kind e) else "Other"
  end.

Lemma known_as_err_name e : err_name (from_net_err e) = known_as e.
Proof. destruct e as [[k os []]| |]; [done| |done..]. by destruct k. Qed.

(** An error as the program finds it under [before]: its name, and if that is
    [Other] its text, which is a new string and the only thing new. *)
Definition error_told (t : Ty) (before : list string) (e : NetErr) (v : Val) (new : list (Value * list Z)) : Prop :=
  if bool_decide (known_as e = "Other") then exists s, told t v (before ++ ["Other"]) (AbiCodec.VStr s) /\ new = [(VStr s, message e)]
  else told t v (before ++ [known_as e]) AbiCodec.VUnit /\ new = [].

Lemma error_told_union vs a b name t before e v new : let u := Union vs a b in
  sound u = true -> vs !! tag_named u name = Some (name, t) -> error_told t before e v new -> error_told u (name :: before) e (union_of u name v) new.
Proof.
  intros u Hs Hl. unfold error_told. case_bool_decide.
  - intros (s & Ht & ->). exists s. split; [|done]. by eapply told_union.
  - intros [Ht ->]. split; [|done]. by eapply told_union.
Qed.

Lemma io_err_yields t e : t = IOErr \/ t = HostIOErr -> yields (io_err t e) [] (error_told t [] e).
Proof.
  assert (forall k, err_name k <> "Other" -> (t = IOErr \/ t = HostIOErr) -> told t (union_of t (err_name k) AbiCodec.VUnit) [err_name k] AbiCodec.VUnit) as Hu.
  { intros k Hk [-> | ->]; (eapply told_union; [reflexivity|destruct k; (reflexivity || done)|apply told_unit]). }
  intros Ht. unfold io_err, error_told. rewrite <- known_as_err_name. destruct (from_net_err e) eqn:Ek;
    try (apply Crypto.yields_ret; rewrite bool_decide_eq_false_2 by done; split; [by apply Hu|done]).
  eapply Crypto.yields_bind; [by apply from_str_yields|]. intros r new [-> Hr]. apply Crypto.yields_ret.
  rewrite bool_decide_eq_true_2 by done. exists r. split; [|done].
  destruct Ht as [-> | ->]; (eapply told_union; [reflexivity..|done]).
Qed.

(** A [Try]: what is said of an [Ok], or an error under [Err]. *)
Definition answered {A} (t : Ty) (r : net_result A) (ok : A -> Val -> list (Value * list Z) -> Prop) (v : Val) (new : list (Value * list Z)) : Prop :=
  match r with Ok a => exists x, told t v ["Ok"] x /\ ok a x new | Err e => error_told t ["Err"] e v new end.

Lemma roc_result_yields {A} vs a b err_t ok_t (r : net_result A) (ok : A -> M Val) (Q : A -> Val -> list (Value * list Z) -> Prop) :
  let t := Union vs a b in sound t = true -> (err_t = IOErr \/ err_t = HostIOErr) ->
  vs !! tag_named t "Ok" = Some ("Ok", ok_t) -> vs !! tag_named t "Err" = Some ("Err", err_t) ->
  (forall y, r = Ok y -> yields (ok y) [] (fun v new => exists x, told ok_t v [] x /\ Q y x new)) ->
  yields (roc_result t err_t r ok) [] (answered t r Q).
Proof.
  intros t Hs He Hok Herr Hv. destruct r as [y|e]; cbn [roc_result answered].
  - eapply Crypto.yields_bind; [by apply Hv|]. intros v new (x & Ht & HQ). apply Crypto.yields_ret. exists x. split; [|done]. by eapply told_union.
  - eapply Crypto.yields_bind; [by apply io_err_yields|]. intros v new Ht. apply Crypto.yields_ret. by eapply error_told_union.
Qed.

(** A call that, from any state of the program, ends it for want of memory or
    leaves a result and what is new, which reads as it should. *)
Definition gives (run : M Val) (Q : Val -> list (Value * list Z) -> Prop) : Prop :=
  forall m h, reachable place (m, h) ->
    run m = Stopped \/
    exists v m' new, run m = Done v m' /\ reachable place (m', new ++ h) /\ Forall (fun x => value_view x.1 m' = Done x.2 m') new /\ Q v new.

Lemma yields_gives run Q : yields run [] Q -> gives run Q.
Proof.
  intros Hy m h Hr. destruct (Hy m h Hr) as [E|(v & m' & new & E & Hr' & HQ)]; [by left|right]. exists v, m', new. split_and!; [done..| |done].
  destruct (refs_reachable_inv place _ Hr') as [g HI]. apply Forall_forall. intros [x c] Hx.
  eapply good_view; [apply HI|]. apply (v_good _ _ HI). cbn [snd]. apply elem_of_app. by left.
Qed.

(** C31: What a hosted socket function answers reaches the program as it was
    meant.  A handle, a list of bytes or nothing is the payload under [Ok]
    ([Accepted] and [Data] where the answer may also be [NotReady]), and
    nothing is new; a text is a string under [Ok] that is new, the program's,
    and reads as the text.  An error is under [Err] (or [Failed]) and the name
    of its kind where Roc's [IOErr] has that name, [Cancelled] for a cancelled
    task and [TimedOut] for a wait that would block; any other is [Other] with
    the error's text, a new string that reads as it.  Nothing else is new in
    any of these, so nothing leaks; and each is a value of the declared type
    whose bytes read back as itself. *)
Theorem net_results_told :
  (forall r : net_result Z, (forall h, r = Ok h -> 0 <= h < 2 ^ 64) ->
     gives (handle_result r) (answered HostSocketAcceptResult r (fun h x new => x = AbiCodec.VPtr h /\ new = []))) /\
  (forall r : net_result (list Z), (forall text, r = Ok text -> Utf8.valid text = true) ->
     gives (str_result r) (answered HostSocketLocalAddrResult r (fun text x new => exists s, x = AbiCodec.VStr s /\ new = [(VStr s, text)]))) /\
  (forall r : net_result RocListWith, (forall l, r = Ok l -> words l) ->
     gives (bytes_result r) (answered HostFileReadResult r (fun l x new => x = AbiCodec.VList l /\ new = []))) /\
  (forall r : net_result unit, gives (unit_result r) (answered HostSignalCatchResult r (fun _ x new => x = AbiCodec.VUnit /\ new = []))) /\
  (forall r : net_result (option Z), (forall h, r = Ok (Some h) -> 0 <= h < 2 ^ 64) ->
     gives (accept_outcome r) (fun v new =>
       match r with
       | Ok (Some h) => told AcceptedOrFailedOrNotReady v ["Accepted"] (AbiCodec.VPtr h) /\ new = []
       | Ok None => told AcceptedOrFailedOrNotReady v ["NotReady"] AbiCodec.VUnit /\ new = []
       | Err e => error_told AcceptedOrFailedOrNotReady ["Failed"] e v new
       end)) /\
  (forall r : net_result (option RocListWith), (forall l, r = Ok (Some l) -> words l) ->
     gives (read_outcome r) (fun v new =>
       match r with
       | Ok (Some l) => told DataOrFailedOrNotReady v ["Data"] (AbiCodec.VList l) /\ new = []
       | Ok None => told DataOrFailedOrNotReady v ["NotReady"] AbiCodec.VUnit /\ new = []
       | Err e => error_told DataOrFailedOrNotReady ["Failed"] e v new
       end)).
Proof.
  split_and!; intros r.
  - intros Hh. eapply yields_gives, roc_result_yields; [reflexivity|by left|reflexivity|reflexivity|].
    intros y Hy. apply Crypto.yields_ret. eexists. split; [by apply told_ptr, Hh|done].
  - intros Ht. eapply yields_gives, roc_result_yields; [reflexivity|by left|reflexivity|reflexivity|]. intros text Hy.
    eapply Crypto.yields_bind; [by apply from_str_yields, Ht|]. intros s new [-> Hs]. apply Crypto.yields_ret. eexists. split; [done|]. eauto.
  - intros Hl. eapply yields_gives, roc_result_yields; [reflexivity|by left|reflexivity|reflexivity|].
    intros l Hy. apply Crypto.yields_ret. eexists. split; [|done]. apply told_list; [done|by apply Hl].
  - eapply yields_gives, roc_result_yields; [reflexivity|by right|reflexivity|reflexivity|].
    intros [] _. apply Crypto.yields_ret. eexists. split; [apply told_unit|done].
  - intros Hh. apply yields_gives. destruct r as [[h|]|e]; cbn [accept_outcome].
    + apply Crypto.yields_ret. split; [|done]. eapply told_union; [reflexivity..|]. by apply told_ptr, Hh.
    + apply Crypto.yields_ret. split; [|done]. eapply told_union; [reflexivity..|]. apply told_unit.
    + eapply Crypto.yields_bind; [by apply io_err_yields; left|]. intros v new Hv. apply Crypto.yields_ret. by eapply error_told_union.
  - intros Hl. apply yields_gives. destruct r as [[l|]|e]; cbn [read_outcome].
    + apply Crypto.yields_ret. split; [|done]. eapply told_union; [reflexivity..|]. apply told_list; [done|by apply Hl].
    + apply Crypto.yields_ret. split; [|done]. eapply told_union; [reflexivity..|]. apply told_unit.
    + eapply Crypto.yields_bind; [by apply io_err_yields; left|]. intros v new Hv. apply Crypto.yields_ret. by eapply error_told_union.
Qed.

(** A datagram arrives whole: what [roc_udp_recv_from] read, who sent it
    and whether it was cut off are the record the program gets, its bytes and
    its address two new values of the program's own. *)
Theorem datagram_told r : (forall data truncated from, r = Ok (data, truncated, from) -> Utf8.valid from = true) ->
  gives (recv_from_result r) (answered HostUdpRecvFromResult r (fun '(data, truncated, from) x new =>
    exists l s, x = AbiCodec.VStruct [AbiCodec.VList l; AbiCodec.VStr s; AbiCodec.VBool truncated] /\ new = [(VStr s, from); (VList U8 l, data)])).
Proof.
  intros Hf. eapply yields_gives, roc_result_yields; [reflexivity|by left|reflexivity|reflexivity|]. intros [[data truncated] from] Hx.
  eapply Crypto.yields_bind; [apply roc_bytes_yields|]. intros l new [-> Hl].
  intros m h Hr. destruct (from_str_yields from (Hf _ _ _ Hx) m ([(VList U8 l, data)] ++ h) Hr) as [E|(s & m' & new & E & Hr' & -> & Hs)];
    unfold mbind, M_bind; rewrite E; [by left|right].
  eexists _, m', [(VStr s, from); (VList U8 l, data)]. split; [done|]. split; [exact Hr'|]. eexists. split; [|by exists l, s].
  by apply told_received; [apply told_list|].
Qed.

(** The list of addresses a name resolved to is made as the program's
    arguments are. *)
Lemma roc_str_list_args items m : roc_str_list items m = Args.build_args_list place items m.
Proof. unfold roc_str_list, Args.build_args_list. destruct items as [|x items]; [|reflexivity]. unfold list_allocate, mbind, M_bind, mret, M_ret. cbn [length Z.of_nat Z.eqb Args.write_args]. reflexivity. Qed.

End Results.

(** ** A refused connection, and an error without a name *)

Definition reason (e : NetErr) : list Z := [33].

Lemma net_results_told_witness :
  (exists v m' s, unit_result bump reason (Err NetOther) (mkMem ∅ (fun _ => 0)) = Done v m' /\
    told HostSignalCatchResult v ["Err"; "Other"] (AbiCodec.VStr s) /\ value_view (VStr s) m' = Done [33] m' /\ reachable bump (m', [(VStr s, [33])])) /\
  (exists v m', handle_result bump reason (Ok 4096) (mkMem ∅ (fun _ => 0)) = Done v m' /\ told HostSocketAcceptResult v ["Ok"] (AbiCodec.VPtr 4096)).
Proof.
  destruct (net_results_told bump reason ltac:(reflexivity)) as (Hh & _ & _ & Hu & _). split.
  - destruct (Hu (Err NetOther) (mkMem ∅ (fun _ => 0)) [] (rtc_refl _ _)) as [E|(v & m' & new & E & Hr & Hv & s & Ht & ->)]; [vm_compute in E; discriminate E|].
    exists v, m', s. split; [exact E|]. split; [exact Ht|]. split; [exact (Forall_inv Hv)|exact Hr].
  - destruct (Hh (Ok 4096) ltac:(intros h [= <-]; lia) (mkMem ∅ (fun _ => 0)) [] (rtc_refl _ _)) as [E|(v & m' & new & E & _ & _ & x & Ht & -> & _)]; [vm_compute in E; discriminate E|].
    exists v, m'. split; [exact E|exact Ht].
Defined.

Lemma datagram_told_witness :
  exists v m' l s, recv_from_result bump reason (Ok ([1; 2], true, [49])) (mkMem ∅ (fun _ => 0)) = Done v m' /\
    told HostUdpRecvFromResult v ["Ok"] (AbiCodec.VStruct [AbiCodec.VList l; AbiCodec.VStr s; AbiCodec.VBool true]).
Proof.
  destruct (datagram_told bump reason ltac:(reflexivity) (Ok ([1; 2], true, [49])) ltac:(by intros ? ? ? [= _ _ <-]) (mkMem ∅ (fun _ => 0)) [] (rtc_refl _ _))
    as [E|(v & m' & new & E & _ & _ & x & Ht & l & s & -> & _)]; [vm_compute in E; discriminate E|].
  exists v, m', l, s. split; [exact E|exact Ht].
Defined.

End NetResults.
