(* ===== verification/FilesHosted.v ===== *)
(** * The hosted file and environment functions ([src/files.rs])

    What [Files.v] does on disk, as the program calls it: the path is taken
    and its string given up, the work runs on a thread of its own
    ([Blocking.v]), and its outcome becomes a value of the generated types
    ([NetResults.v]).  Reading, [exists] and the environment are here too. *)
From S2P Require Import Prelude TaskProto Waiters Sema SchedLock Io Blocking Sockets NetOps RocMem RocValues RocRefs AbiLayout AbiTypes AbiCodec LogFormat Stdin Stdio Crypto NetResults.
From stdpp Require Import strings.
Local Open Scope string_scope.
Local Open Scope Z_scope.
Local Open Scope list_scope.

Module FilesHosted.
Import RocMem RocValues RocRefs AbiLayout AbiTypes NetResults.

(** ** On a thread of its own *)

(** [off_thread]: [None] is [expect]'s panic; [r] is what [blocking] with no
    deadline returned. *)
Definition off_thread {T} (r : io_result (option (io_result T))) : option (io_result T) :=
  match r with
  | Err e => Some (Err e)
  | Ok (Some v) => Some v
  | Ok None => None
  end.

(** It doesn't panic: with no deadline, [blocking] comes back with the value,
    or because of a cancellation or a thread that didn't start. *)
Lemma off_thread_answers {T} (value : io_result T) in_worker claim spawned now s r :
  Blocking.refusal None claim now -> Blocking.reachable value None in_worker claim spawned now s -> Blocking.caller s = Blocking.Returned r ->
  off_thread r = Some value \/ exists e, off_thread r = Some (Err e) /\ (e = cancelled \/ spawned = Err e).
Proof.
  intros Hc Hs Er. destruct (Blocking.blocking_inv _ _ _ _ _ _ _ Hc Hs) as [_ _ _ _ _ Hres]. unfold Blocking.result_ok in Hres. rewrite Er in Hres.
  destruct r as [[v|]|e]; cbn [off_thread]; [left|done|right].
  - by destruct Hres as [-> _].
  - exists e. split; [done|]. destruct Hres as [?|[_ ?]]; auto.
Qed.

(** ** The functions *)

Section Hosted.
Variable place : gmap Z (Z * Z) -> Z -> Z -> option Z.
Variable message : NetErr -> list Z.

(** [take_path], and the start of [roc_env_var] *)
Definition take_text (text : RocStr) : M (list Z) := s ← as_str text; _ ← str_decref text; mret s.

(** [unit_result] *)
Definition unit_result (value : io_result unit) : M Val := roc_result place message HostSignalCatchResult HostIOErr (to_net value) (fun _ => mret AbiCodec.VUnit).

(** [roc_file_read]: [read] is what the helper thread's [fs::read] of the path
    comes back with. *)
Definition roc_file_read (read : list Z -> io_result (list Z)) (path : RocStr) : M Val :=
  path ← take_text path;
  roc_result place message HostFileReadResult IOErr (to_net (read path)) (fun bytes => l ← roc_bytes place bytes; mret (AbiCodec.VList l)).

(** [roc_file_write]: [work] is what [Files.file_write] comes back with. *)
Definition roc_file_write (work : list Z -> list Z -> io_result unit) (path : RocStr) (bytes : RocListWith) : M Val :=
  path ← take_text path;
  data ← Crypto.with_lists [bytes] (fun s => mret (nth 0 s []));
  unit_result (work path data).

Definition roc_file_rename (rename : list Z -> list Z -> io_result unit) (from to : RocStr) : M Val :=
  from ← take_text from; to ← take_text to; unit_result (rename from to).

Definition roc_file_delete (remove : list Z -> io_result unit) (path : RocStr) : M Val :=
  path ← take_text path; unit_result (remove path).

(** The closure of [roc_file_exists]: what [symlink_metadata] says. *)
Definition exists_of (metadata : io_result unit) : io_result bool :=
  match metadata with
  | Ok _ => Ok true
  | Err e => if is_kind NotFound e then Ok false else Err e
  end.

Definition roc_file_exists (metadata : list Z -> io_result unit) (path : RocStr) : M Val :=
  path ← take_text path;
  roc_result place message HostFileExistsResult IOErr (to_net (exists_of (metadata path))) (fun found => mret (AbiCodec.VBool found)).

(** [var_os], but for names the system can't hold: the value's bytes. *)
Definition env_value (var_os : list Z -> option (list Z)) (key : list Z) : option (list Z) :=
  if bool_decide (key = []) || existsb (fun c => (c =? 61) || (c =? 0)) key then None else var_os key.

Definition roc_env_var (var_os : list Z -> option (list Z)) (name : RocStr) : M Val :=
  key ← take_text name;
  match env_value var_os key with
  | Some text =>
      if Utf8.valid text then s ← Stdio.from_str place text; mret (union_of FoundOrMissingOrNotUtf8 "Found" (AbiCodec.VStr s))
      else mret (union_of FoundOrMissingOrNotUtf8 "NotUtf8" AbiCodec.VUnit)
  | None => mret (union_of FoundOrMissingOrNotUtf8 "Missing" AbiCodec.VUnit)
  end.

(** ** What the program gives up and gets *)

Context `{!Placement place}.
Hypothesis message_valid : forall e, Utf8.valid (message e) = true.
Abbreviation yields := (Crypto.yields place).

Lemma take_text_yields s text : Utf8.valid text = true -> yields (take_text s) [(VStr s, text)] (fun r new => r = text /\ new = []).
Proof.
  intros Hu m h Hr. right. pose proof (refs_reachable_inv place _ Hr) as [g HI].
  assert ((VStr s, text) ∈ [(VStr s, text)] ++ h) as Hin by (by apply elem_of_cons; left).
  pose proof (good_view _ _ _ _ (v_rep _ _ HI) (v_good _ _ HI _ _ Hin)) as Hv. cbn [value_view fst] in Hv.
  destruct (refs_inv_release _ [] _ _ h _ HI) as (m1 & g1 & Ed & _). pose proof (rtc_r _ _ _ Hr (st_release place _ [] _ text h _ Ed : step place (m, [(VStr s, text)] ++ h) (m1, [] ++ h))) as Hr1. cbn [value_decref] in Ed.
  exists text, m1, []. unfold take_text, as_str, mbind, M_bind. rewrite Hv, Hu. unfold mret, M_ret. rewrite Ed. split_and!; [done|exact Hr1|done..].
Qed.

(** A call that takes some of the arguments leaves the others to the rest. *)
Lemma yields_take {R R'} (run : M R) (k : R -> M R') held others r Q :
  yields run held (fun x new => x = r /\ new = []) -> yields (k r) others Q -> yields (x ← run; k x) (held ++ others) Q.
Proof.
  intros H1 H2 m h Hr. rewrite <- app_assoc in Hr. unfold mbind, M_bind.
  destruct (H1 m (others ++ h) Hr) as [->|(x & m1 & new & -> & Hr1 & -> & ->)]; [by left|]. exact (H2 m1 h Hr1).
Qed.

Abbreviation answered := (NetResults.answered message).

(** Nothing but the outcome. *)
Definition plain_ok {A} (_ : A) (x : Val) (new : list (Value * list Z)) : Prop := x = AbiCodec.VUnit /\ new = [].

Lemma unit_result_yields r : yields (unit_result r) [] (answered HostSignalCatchResult (to_net r) plain_ok).
Proof.
  eapply (roc_result_yields place message message_valid); [reflexivity|by right|reflexivity|reflexivity|]. intros [] _. apply Crypto.yields_ret.
  eexists. split; [apply told_unit|done].
Qed.

Lemma told_bool b : told Bool (AbiCodec.VBool b) [] (AbiCodec.VBool b).
Proof. apply encoded_told; [done..|]. intros fill. eauto. Qed.

(** Each call takes its arguments once, whatever comes of the work, and the
    program gets its outcome: the bytes of a file as a list of its own, or
    the error under its name; whether something is at a path, an absence not
    being an error; a variable's text if there is one and it is UTF-8, and
    names no variable can have are missing without asking. *)
Theorem files_told path text : Utf8.valid text = true ->
  (forall read, yields (roc_file_read read path) [(VStr path, text)] (answered HostFileReadResult (to_net (read text))
     (fun bytes x new => exists l, x = AbiCodec.VList l /\ new = [(VList U8 l, bytes)]))) /\
  (forall work l data, yields (roc_file_write work path l) [(VStr path, text); (VList U8 l, data)]
     (answered HostSignalCatchResult (to_net (work text data)) plain_ok)) /\
  (forall rename to to_text, Utf8.valid to_text = true -> yields (roc_file_rename rename path to) [(VStr path, text); (VStr to, to_text)]
     (answered HostSignalCatchResult (to_net (rename text to_text)) plain_ok)) /\
  (forall remove, yields (roc_file_delete remove path) [(VStr path, text)] (answered HostSignalCatchResult (to_net (remove text)) plain_ok)) /\
  (forall metadata, yields (roc_file_exists metadata path) [(VStr path, text)] (fun v new =>
     match metadata text with
     | Ok _ => told HostFileExistsResult v ["Ok"] (AbiCodec.VBool true) /\ new = []
     | Err e => if is_kind NotFound e then told HostFileExistsResult v ["Ok"] (AbiCodec.VBool false) /\ new = []
                else error_told message HostFileExistsResult ["Err"] (NetIo e) v new
     end)) /\
  (forall var_os, yields (roc_env_var var_os path) [(VStr path, text)] (fun v new =>
     match env_value var_os text with
     | Some value =>
         if Utf8.valid value then exists s, told FoundOrMissingOrNotUtf8 v ["Found"] (AbiCodec.VStr s) /\ new = [(VStr s, value)]
         else told FoundOrMissingOrNotUtf8 v ["NotUtf8"] AbiCodec.VUnit /\ new = []
     | None => told FoundOrMissingOrNotUtf8 v ["Missing"] AbiCodec.VUnit /\ new = []
     end)).
Proof.
  intros Hu. pose proof (fun s => take_text_yields s text Hu) as Ht.
  split_and!; intros f;
    [|intros l data|intros to to_text Hto|..]; (eapply (yields_take _ _ [_]); [apply Ht|]).
  - eapply (roc_result_yields place message message_valid); [reflexivity|by left|reflexivity|reflexivity|]. intros bytes Hx.
    eapply Crypto.yields_bind; [by apply roc_bytes_yields|]. intros l new [-> Hl]. apply Crypto.yields_ret.
    eexists. split; [by apply told_list|]. by exists l.
  - eapply (yields_take _ _ [_] []); [|apply unit_result_yields]. apply (Crypto.with_lists_yields place [l] [data]); [done|]. by apply Crypto.yields_ret.
  - eapply (yields_take _ _ [_] []); [by apply take_text_yields|apply unit_result_yields].
  - apply unit_result_yields.
  - destruct (f text) as [[]|e] eqn:Ef.
    + cbn. apply Crypto.yields_ret. split; [|done]. eapply told_union; [reflexivity..|apply told_bool].
    + cbn [exists_of]. destruct (is_kind NotFound e) eqn:Ek.
      * cbn. apply Crypto.yields_ret. split; [|done]. eapply told_union; [reflexivity..|apply told_bool].
      * change (yields (roc_result place message HostFileExistsResult IOErr (to_net (Err e)) (fun found : bool => mret (AbiCodec.VBool found))) []
          (answered HostFileExistsResult (to_net (Err e)) (fun (_ : bool) _ _ => False))).
        eapply (roc_result_yields place message message_valid); [reflexivity|by left|reflexivity|reflexivity|discriminate].
  - destruct (env_value f text) as [value|].
    + destruct (Utf8.valid value) eqn:Ev.
      * eapply Crypto.yields_bind; [by apply from_str_yields|]. intros s new [-> Hs]. apply Crypto.yields_ret.
        exists s. split; [by eapply told_union|done].
      * apply Crypto.yields_ret. split; [eapply told_union; [reflexivity..|apply told_unit]|done].
    + apply Crypto.yields_ret. split; [eapply told_union; [reflexivity..|apply told_unit]|done].
Qed.

End Hosted.

(** ** A variable with a name no variable can have *)

(** ["a="], as a small string. *)
Definition name_arg : RocStr := mkStr (97 + 256 * 61) 0 (130 * 2 ^ 56).

Lemma files_told_witness :
  exists v m', roc_env_var bump (fun _ => Some [49]) name_arg (mkMem ∅ (fun _ => 0)) = Done v m' /\ told FoundOrMissingOrNotUtf8 v ["Missing"] AbiCodec.VUnit /\ reachable bump (m', []).
Proof.
  assert (reachable bump (mkMem ∅ (fun _ => 0), [(VStr name_arg, [97; 61])] ++ [])) as Hr.
  { eapply rtc_l; [|apply rtc_refl]. apply (st_str bump _ _ [97; 61]). vm_compute. reflexivity. }
  destruct (files_told bump reason ltac:(reflexivity) name_arg [97; 61] eq_refl) as (_ & _ & _ & _ & _ & H).
  destruct (H (fun _ => Some [49]) _ _ Hr) as [E|(v & m' & new & E & Hr' & Ht & ->)]; [vm_compute in E; discriminate E|].
  exists v, m'. split; [exact E|]. split; [exact Ht|exact Hr'].
Defined.

End FilesHosted.
