(* ===== verification/Select.v ===== *)
(** * Waiting on several sources at once ([src/select.rs])

    [wait_any] over the operations of the sources it watches: [SelectOps].
    What they promise ([SelectLaws]) is about the registrations a wait leaves
    behind, and about the clock: channels, tasks, stdin, signals and streams
    keep the waker until it is taken back ([Channels.v], [Stdin.v], ...). *)
From S2P Require Import Prelude TaskProto Waiters Io.
Local Open Scope Z_scope.
Local Open Scope roc_scope.

Module Select.

(** The Roc tag union of sources; a handle is a number. *)
Inductive Source :=
  | Readable (h : Z) | Writable (h : Z) | Receivable (h : Z) | Sendable (h : Z) | Joinable (h : Z) | StdinLine | SignalCaught.

(** [Watching], and a socket watched with [add_io]. *)
Inductive Watching :=
  | WChannel (h id : Z) | WTls (h id : Z) | WNoise (h id : Z) | WTask (h id : Z) | WStdin (id : Z) | WSignal (id : Z).

#[global] Instance Watching_eq_dec : EqDecision Watching.
Proof. solve_decision. Defined.

Inductive SocketKind := Plain | Tls | Noise.

Inductive Outcome := OReady | OCancelled | OTimedOut | OSourceTimedOut (index : nat).

(** The sources, in a world [W]; [None] from a watch means ready. *)
Class SelectOps (W : Type) := {
  sel_now : W -> instant;
  begin_multi_wait : W -> option TaskWaker * W;
  watch_signal : TaskWaker -> W -> option Z * W;
  watch_stdin : TaskWaker -> W -> option Z * W;
  watch_task : Z -> TaskWaker -> W -> option Z * W;
  watch_channel : Z -> TaskWaker -> W -> option Z * W;
  (** [sockets::get], and what of it matters here *)
  socket_kind : Z -> W -> option SocketKind;
  read_wait_deadline : Z -> W -> deadline;
  watch_tls : Z -> TaskWaker -> W -> option (Z * bool) * W;
  watch_noise : Z -> TaskWaker -> W -> option Z * W;
  add_io : Z -> bool -> TaskWaker -> W -> bool * W;
  multi_wait : TaskWaker -> deadline -> W -> Woke * W;
  abandon : TaskWaker -> W -> W;
  unwatch : Watching -> W -> W;
  sleep_ms : Z -> W -> W;
}.

Section Ops.
Context {W : Type} `{SelectOps W}.

(** What watching one source comes to: ready (or it can't be watched), or
    what to undo, the stream's own deadline aside. *)
Definition watched := option (list Watching).

Definition watch_one (wrap : Z -> Watching) (r : option Z * W) : watched * W :=
  match r with (Some id, w) => (Some [wrap id], w) | (None, w) => (None, w) end.

(** A TLS or Noise stream, watched for reading: another task may leave
    plaintext behind, or (TLS) a reply wait for the socket to take it. *)
Definition watch_session (sk : SocketKind) (h : Z) (writable : bool) (k : TaskWaker) (w : W) : bool * list Watching * bool * W :=
  match sk, writable with
  | Tls, false =>
      match watch_tls h k w with
      | (None, w) => (true, [], false, w)
      | (Some (id, wants_write), w) => (false, [WTls h id], wants_write, w)
      end
  | Noise, false =>
      match watch_noise h k w with
      | (None, w) => (true, [], false, w)
      | (Some id, w) => (false, [WNoise h id], false, w)
      end
  | _, _ => (false, [], false, w)
  end.

(** The socket branch of the loop: TLS and Noise streams watched for reading
    also register with their session, then the socket is added.  What was
    registered is kept even if the source turns out ready. *)
Definition watch_socket (h : Z) (writable : bool) (k : TaskWaker) (w : W) : bool * list Watching * deadline * W :=
  match socket_kind h w with
  | None => (true, [], None, w)
  | Some sk =>
      let d := if writable then None else read_wait_deadline h w in
      let '(ready, reg, also_writable, w) := watch_session sk h writable k w in
      if ready : bool then (true, reg, d, w)
      else
        let '(ok, w) := add_io h writable k w in
        let '(ok, w) := if ok && also_writable then add_io h true k w else (ok, w) in
        (negb ok, reg, d, w)
  end.

(** The body of the loop, for one source. *)
Definition watch_source (s : Source) (k : TaskWaker) (w : W) : bool * list Watching * deadline * W :=
  let one wrap r := match watch_one wrap r with (Some reg, w) => (false, reg, None, w) | (None, w) => (true, [], None, w) end in
  match s with
  | SignalCaught => one WSignal (watch_signal k w)
  | StdinLine => one WStdin (watch_stdin k w)
  | Joinable h => one (WTask h) (watch_task h k w)
  | Readable h => watch_socket h false k w
  | Writable h => watch_socket h true k w
  | Receivable h | Sendable h => one (WChannel h) (watch_channel h k w)
  end.

(** [for (index, source) in sources.iter().enumerate()]: stops at a source
    that is ready. *)
Fixpoint watch_all (index : nat) (sources : list Source) (k : TaskWaker) (w : W) : bool * list Watching * list (nat * instant) * W :=
  match sources with
  | [] => (false, [], [], w)
  | s :: sources =>
      let '(ready, reg, d, w) := watch_source s k w in
      let ds := match d with Some at_ => [(index, at_)] | None => [] end in
      if ready : bool then (true, reg, ds, w)
      else
        let '(ready, reg', ds', w) := watch_all (S index) sources k w in
        (ready, reg ++ reg', ds ++ ds', w)
  end.

(** [min_by_key]: the first of the least. *)
Fixpoint min_by_key (l : list (nat * instant)) : option (nat * instant) :=
  match l with
  | [] => None
  | (i, at_) :: l =>
      match min_by_key l with
      | Some (j, b) => if b <? at_ then Some (j, b) else Some (i, at_)
      | None => Some (i, at_)
      end
  end.

(** [wait_any] *)
Definition wait_any (sources : list Source) (d : deadline) (w : W) : Outcome * W :=
  if past d (sel_now w) then (OTimedOut, w)
  else
    match begin_multi_wait w with
    | (None, w) => (OReady, sleep_ms 1 w)
    | (Some k, w) =>
        let '(ready, watching, stream_deadlines, w) := watch_all 0 sources k w in
        let first := min_by_key stream_deadlines in
        let wait_until :=
          match d, first with
          | Some a, Some (_, b) => Some (Z.min a b)
          | Some a, None => Some a
          | None, b => option_map snd b
          end in
        let '(result, w) :=
          if ready then (OReady, abandon k w)
          else
            match multi_wait k wait_until w with
            | (Ready, w) => (OReady, w)
            | (Cancelled, w) => (OCancelled, w)
            | (TimedOut, w) =>
                (match first with
                 | Some (index, at_) =>
                     if match d with None => true | Some limit => at_ <? limit end then OSourceTimedOut index else OTimedOut
                 | None => OTimedOut
                 end, w)
            end in
        (result, foldl (fun w x => unwatch x w) w watching)
    end.

(** [roc_select_wait]: a timeout of [u64::MAX], or too far off, is none. *)
Definition roc_select_wait (checked_add : instant -> Z -> option instant) (sources : list Source) (timeout_ns : Z) (w : W) : Outcome * W :=
  let d := if timeout_ns =? U64_MAX then None else checked_add (sel_now w) timeout_ns in
  wait_any sources d w.

End Ops.

(** ** What the sources promise

    [regs] are the registrations outstanding, [ios] the wakers that sockets
    hold. *)
Class SelectLaws (W : Type) `{SelectOps W} (regs : W -> list Watching) (ios : W -> list TaskWaker) : Prop := {
  law_begin : forall w, regs (begin_multi_wait w).2 = regs w /\ ios (begin_multi_wait w).2 = ios w;
  (** A registration is all that changes. *)
  law_signal : forall k w, let '(r, w') := watch_signal k w in ios w' = ios w /\
    match r with Some id => regs w' = WSignal id :: regs w | None => regs w' = regs w end;
  law_stdin : forall k w, let '(r, w') := watch_stdin k w in ios w' = ios w /\
    match r with Some id => regs w' = WStdin id :: regs w | None => regs w' = regs w end;
  law_task : forall h k w, let '(r, w') := watch_task h k w in ios w' = ios w /\
    match r with Some id => regs w' = WTask h id :: regs w | None => regs w' = regs w end;
  law_channel : forall h k w, let '(r, w') := watch_channel h k w in ios w' = ios w /\
    match r with Some id => regs w' = WChannel h id :: regs w | None => regs w' = regs w end;
  law_tls : forall h k w, let '(r, w') := watch_tls h k w in ios w' = ios w /\
    match r with Some (id, _) => regs w' = WTls h id :: regs w | None => regs w' = regs w end;
  law_noise : forall h k w, let '(r, w') := watch_noise h k w in ios w' = ios w /\
    match r with Some id => regs w' = WNoise h id :: regs w | None => regs w' = regs w end;
  law_add_io : forall h b k w, let '(_, w') := add_io h b k w in
    regs w' = regs w /\ (ios w' = k :: ios w \/ ios w' = ios w);
  (** While it waits, wake-ups take registrations off; the sockets' are
      forgotten by [forget_io]. *)
  law_wait : forall k d w, let '(r, w') := multi_wait k d w in
    regs w' ⊆ regs w /\ (forall k', k' ∈ ios w' -> k' ∈ ios w /\ k' <> k) /\ (r = TimedOut -> past d (sel_now w') = true);
  law_abandon : forall k w, regs (abandon k w) ⊆ regs w /\ (forall k', k' ∈ ios (abandon k w) -> k' ∈ ios w /\ k' <> k);
  law_unwatch : forall x w, (forall y, y ∈ regs (unwatch x w) -> y ∈ regs w /\ y <> x) /\ ios (unwatch x w) = ios w /\
    sel_now (unwatch x w) = sel_now w;
  law_sleep : forall ms w, regs (sleep_ms ms w) = regs w /\ ios (sleep_ms ms w) = ios w;
}.

Section Spec.
Context {W : Type} (regs : W -> list Watching) (ios : W -> list TaskWaker) `{SelectLaws W regs ios}.

(** At most [reg] and the waker [k] have been added. *)
Definition added (k : TaskWaker) (reg : list Watching) (w w' : W) : Prop :=
  (forall y, y ∈ regs w' -> y ∈ reg \/ y ∈ regs w) /\ (forall k', k' ∈ ios w' -> k' = k \/ k' ∈ ios w).

Lemma added_one k reg wrap (r : option Z) w w' :
  ios w' = ios w /\ match r with Some id => regs w' = wrap id :: regs w | None => regs w' = regs w end ->
  reg = match r with Some id => [wrap id] | None => [] end -> added k reg w w'.
Proof.
  intros [Hi Hr] ->. unfold added. rewrite Hi. split; [|auto]. intros y Hy. destruct r; rewrite Hr in Hy; [|auto].
  apply elem_of_cons in Hy as [->|]; [left; by apply list_elem_of_singleton|auto].
Qed.

Lemma added_trans k reg reg' w1 w2 w3 : added k reg w1 w2 -> added k reg' w2 w3 -> added k (reg ++ reg') w1 w3.
Proof.
  intros [H1 H2] [H3 H4]. split.
  - intros y [?|[?|?]%H1]%H3; rewrite elem_of_app; auto.
  - intros y [?|[?|?]%H2]%H4; auto.
Qed.

Lemma added_io h b k w ok w' : add_io h b k w = (ok, w') -> added k [] w w'.
Proof using H0.
  intros E. pose proof (law_add_io h b k w) as Hl. rewrite E in Hl. destruct Hl as [Hr Hi]. unfold added. rewrite Hr.
  split; [auto|]. intros k' Hk. destruct Hi as [Hi|Hi]; rewrite Hi in Hk; [|auto]. apply elem_of_cons in Hk as [->|]; auto.
Qed.

Lemma added_refl k w : added k [] w w.
Proof. split; auto. Qed.

Lemma watch_socket_added h wr k w ready reg d w' : watch_socket h wr k w = (ready, reg, d, w') -> added k reg w w'.
Proof using H0.
  unfold watch_socket. destruct (socket_kind h w) as [sk|]; [|intros [= <- <- <- <-]; apply added_refl].
  destruct (watch_session sk h wr k w) as [[[rd rg] aw] w1] eqn:E1.
  assert (added k rg w w1) as Ha.
  { unfold watch_session in E1. destruct sk, wr; simplify_eq; try apply added_refl.
    - pose proof (law_tls h k w) as Hl. destruct (watch_tls h k w) as [[[id b]|] w2]; simplify_eq;
        [by eapply (added_one _ _ (WTls h) (Some id))|by eapply (added_one _ _ (WTls h) None)].
    - pose proof (law_noise h k w) as Hl. destruct (watch_noise h k w) as [[id|] w2]; simplify_eq;
        [by eapply (added_one _ _ (WNoise h) (Some id))|by eapply (added_one _ _ (WNoise h) None)]. }
  destruct rd; [by intros [= <- <- <- <-]|]. destruct (add_io h wr k w1) as [ok w2] eqn:E2. apply added_io in E2.
  destruct (ok && aw).
  - destruct (add_io h true k w2) as [ok2 w3] eqn:E3. apply added_io in E3. intros [= <- <- <- <-].
    rewrite <- (app_nil_r rg), <- (app_nil_r (rg ++ _)). eapply added_trans; [by eapply added_trans|done].
  - intros [= <- <- <- <-]. rewrite <- (app_nil_r rg). by eapply added_trans.
Qed.

Lemma watch_source_added s k w ready reg d w' : watch_source s k w = (ready, reg, d, w') -> added k reg w w'.
Proof using H0.
  destruct s; cbn; try apply watch_socket_added;
    [pose proof (law_channel h k w) as Hl; destruct (watch_channel h k w) as [[id|] w2]
    |pose proof (law_channel h k w) as Hl; destruct (watch_channel h k w) as [[id|] w2]
    |pose proof (law_task h k w) as Hl; destruct (watch_task h k w) as [[id|] w2]
    |pose proof (law_stdin k w) as Hl; destruct (watch_stdin k w) as [[id|] w2]
    |pose proof (law_signal k w) as Hl; destruct (watch_signal k w) as [[id|] w2]];
    intros [= <- <- <- <-];
    first [by eapply (added_one _ _ _ (Some id))|by eapply (added_one _ _ WStdin None)].
Qed.

(** What the loop leaves: its registrations; all sources watched, unless one
    was ready; and the deadlines of the streams it got to. *)
Lemma watch_all_spec n sources k w ready reg ds w' : watch_all n sources k w = (ready, reg, ds, w') ->
  added k reg w w' /\
  (ready = false -> Forall (fun s => exists reg1 d w1 w2, watch_source s k w1 = (false, reg1, d, w2) /\ reg1 ⊆ reg) sources) /\
  Forall (fun '(i, at_) => exists h w1, (n <= i)%nat /\ sources !! (i - n)%nat = Some (Readable h) /\ read_wait_deadline h w1 = Some at_) ds.
Proof using H0.
  revert n w ready reg ds w'. induction sources as [|s sources IH]; intros n w ready reg ds w'; simpl.
  { intros [= <- <- <- <-]. split_and!; [apply added_refl|constructor..]. }
  destruct (watch_source s k w) as [[[rd rg] d] w1] eqn:E1.
  assert (Forall (fun '(i, at_) => exists h w1, (n <= i)%nat /\ (s :: sources) !! (i - n)%nat = Some (Readable h) /\
    read_wait_deadline h w1 = Some at_) (match d with Some at_ => [(n, at_)] | None => [] end)) as Hd.
  { destruct d as [at_|]; [|constructor]. constructor; [|constructor]. rewrite Nat.sub_diag.
    destruct s; cbn in E1; try (repeat case_match; simplify_eq; done).
    all: unfold watch_socket in E1; destruct (socket_kind h w); [|done].
    - exists h, w. split_and!; [lia|done|]. by repeat case_match; simplify_eq.
    - by repeat case_match; simplify_eq. }
  pose proof (watch_source_added _ _ _ _ _ _ _ E1) as Ha. destruct rd.
  { intros [= <- <- <- <-]. split_and!; done. }
  destruct (watch_all (S n) sources k w1) as [[[rd' rg'] ds'] w2] eqn:E2. apply IH in E2 as (Ha2 & Hw2 & Hd2).
  intros [= <- <- <- <-]. split_and!; [by eapply added_trans| |].
  - intros Hr. constructor; [exists rg, d, w, w1; split; [done|set_solver]|].
    eapply Forall_impl; [by apply Hw2|]. intros s' (r1 & d1 & wa & wb & ? & ?). exists r1, d1, wa, wb. split; [done|set_solver].
  - apply Forall_app. split; [done|]. eapply Forall_impl; [exact Hd2|]. intros [i at_] (h & wa & Hi & Hs & Hr).
    exists h, wa. split_and!; [lia| |done]. replace (i - n)%nat with (S (i - S n)) by lia. done.
Qed.

Lemma min_by_key_in l i at_ : min_by_key l = Some (i, at_) -> (i, at_) ∈ l /\ Forall (fun e => at_ <= e.2) l.
Proof.
  revert i at_. induction l as [|[j b] l IH]; intros i at_; simpl; [done|].
  destruct (min_by_key l) as [[j' b']|] eqn:E.
  - destruct (IH _ _ eq_refl) as [Hin Hall]. destruct (Z.ltb_spec b' b); intros [= <- <-].
    + split; [by right|]. constructor; [simpl; lia|done].
    + split; [by left|]. constructor; [simpl; lia|]. eapply Forall_impl; [exact Hall|]. simpl. lia.
  - intros [= <- <-]. split; [by left|]. constructor; [simpl; lia|]. destruct l as [|[j1 b1] l]; [constructor|]. simpl in E.
    by repeat case_match.
Qed.

Lemma unwatch_all l w :
  (forall y, y ∈ regs (foldl (fun w x => unwatch x w) w l) -> y ∈ regs w /\ y ∉ l) /\
  ios (foldl (fun w x => unwatch x w) w l) = ios w /\ sel_now (foldl (fun w x => unwatch x w) w l) = sel_now w.
Proof using H0.
  revert w. induction l as [|x l IH]; intros w; simpl; [split_and!; [set_solver|done..]|].
  destruct (IH (unwatch x w)) as (H1 & H2 & H3). destruct (law_unwatch x w) as (H4 & H5 & H6).
  rewrite H2, H3. split_and!; [|done..]. intros y [Hy Hn]%H1. apply H4 in Hy as [? ?]. split; [done|]. by apply not_elem_of_cons.
Qed.

(** A Select leaves nothing behind: however it ends, every registration it
    made with a channel, a task, a session, stdin or signals is taken back, and
    no socket keeps its waker. *)
Theorem select_leaves_nothing sources d w o w' : wait_any sources d w = (o, w') ->
  regs w' ⊆ regs w /\ (forall k, k ∈ ios w' -> k ∈ ios w).
Proof using H0.
  unfold wait_any. destruct (past d (sel_now w)); [by intros [= _ <-]|]. destruct (law_begin w) as [Hb1 Hb2].
  destruct (begin_multi_wait w) as [[k|] w1]; simpl in Hb1, Hb2.
  2:{ intros [= _ <-]. destruct (law_sleep 1 w1) as [E1 E2]. rewrite E1, E2, Hb1, Hb2. done. }
  destruct (watch_all 0 sources k w1) as [[[ready reg] ds] w2] eqn:E. apply watch_all_spec in E as ([Hr Hi] & _ & _).
  assert (forall w3, regs w3 ⊆ regs w2 -> (forall k', k' ∈ ios w3 -> k' ∈ ios w2 /\ k' <> k) ->
    regs (foldl (fun w x => unwatch x w) w3 reg) ⊆ regs w /\ forall k', k' ∈ ios (foldl (fun w x => unwatch x w) w3 reg) -> k' ∈ ios w) as Hend.
  { intros w3 Hr3 Hi3. destruct (unwatch_all reg w3) as (H1 & H2 & _). rewrite H2, <- Hb1, <- Hb2. split.
    - intros y [Hy Hn]%H1. apply Hr3, Hr in Hy as [|]; done.
    - intros k' [Hk Hne]%Hi3. apply Hi in Hk as [|]; done. }
  destruct ready.
  - intros [= _ <-]. apply Hend; apply law_abandon.
  - match goal with |- context [multi_wait k ?u w2] => pose proof (law_wait k u w2) as Hw; destruct (multi_wait k u w2) as [[] w3] end;
      intros [= _ <-]; apply Hend; apply Hw.
Qed.

(** What a Select reports: a timeout only once its own deadline has passed;
    a source's timeout only for a stream it watched for reading, whose own
    deadline has passed and is before the Select's; and it reports a source's timeout or a cancellation
    only after it has watched every source, with none of them ready. *)
Theorem select_outcome sources d w o w' : wait_any sources d w = (o, w') ->
  match o with
  | OReady => True
  | OTimedOut => past d (sel_now w') = true
  | OCancelled => exists k, Forall (fun s => exists reg d w1 w2, watch_source s k w1 = (false, reg, d, w2)) sources
  | OSourceTimedOut i =>
      (exists k, Forall (fun s => exists reg d w1 w2, watch_source s k w1 = (false, reg, d, w2)) sources) /\
      exists h w1 at_, sources !! i = Some (Readable h) /\ read_wait_deadline h w1 = Some at_ /\
        at_ <= sel_now w' /\ (forall limit, d = Some limit -> at_ < limit)
  end.
Proof using H0.
  unfold wait_any. destruct (past d (sel_now w)) eqn:Ep; [by intros [= <- <-]|].
  destruct (begin_multi_wait w) as [[k|] w1]; [|by intros [= <- _]].
  destruct (watch_all 0 sources k w1) as [[[ready reg] ds] w2] eqn:E. apply watch_all_spec in E as (_ & Hw & Hd).
  destruct ready; [by intros [= <- _]|].
  assert (exists k, Forall (fun s => exists reg d w1 w2, watch_source s k w1 = (false, reg, d, w2)) sources) as Hall.
  { exists k. eapply Forall_impl; [by apply Hw|]. intros s (r1 & d1 & wa & wb & ? & _). by exists r1, d1, wa, wb. }
  match goal with |- context [multi_wait k ?u w2] => pose proof (law_wait k u w2) as Hl; destruct (multi_wait k u w2) as [[] w3] end;
    destruct Hl as (_ & _ & Ht); [by intros [= <- _]|intros [= <- <-]|by intros [= <- _]].
  specialize (Ht eq_refl). simpl in Ht. destruct (unwatch_all reg w3) as (_ & _ & ->).
  destruct (min_by_key ds) as [[i at_]|] eqn:Em; [|by destruct d].
  apply min_by_key_in in Em as [Hin _]. rewrite Forall_forall in Hd. destruct (Hd _ Hin) as (h & wa & _ & Hs & Hr). rewrite Nat.sub_0_r in Hs.
  destruct d as [limit|]; simpl in *.
  - destruct (Z.ltb_spec at_ limit).
    + split; [done|]. exists h, wa, at_. split_and!; [done|done| |by intros ? [= <-]]. apply Z.leb_le in Ht. lia.
    + apply Z.leb_le. apply Z.leb_le in Ht. lia.
  - split; [done|]. exists h, wa, at_. split_and!; [done|done| |done]. by apply Z.leb_le in Ht.
Qed.

End Spec.

(** ** A Select of a silent stream and a channel *)

Module Toy.

Record World := mkWorld { t_now : Z; t_regs : list Watching; t_ios : list TaskWaker; t_next : Z }.

Definition register (f : Z -> Watching) (w : World) : option Z * World :=
  (Some (t_next w), mkWorld (t_now w) (f (t_next w) :: t_regs w) (t_ios w) (t_next w + 1)).

(** Nothing happens until the deadline. *)
#[global] Instance sel_toy : SelectOps World := {|
  sel_now := t_now;
  begin_multi_wait w := (Some (WThread 0), w);
  watch_signal _ w := register WSignal w;
  watch_stdin _ w := register WStdin w;
  watch_task h _ w := register (WTask h) w;
  watch_channel h _ w := register (WChannel h) w;
  socket_kind _ _ := Some Noise;
  read_wait_deadline h w := Some (t_now w + 5);
  watch_tls h _ w := (None, w);
  watch_noise h _ w := register (WNoise h) w;
  add_io h _ k w := (true, mkWorld (t_now w) (t_regs w) (k :: t_ios w) (t_next w));
  multi_wait k d w :=
    match d with
    | Some at_ => (TimedOut, mkWorld (Z.max (t_now w) at_) (t_regs w) (List.filter (fun k' => negb (bool_decide (k' = k))) (t_ios w)) (t_next w))
    | None => (Ready, mkWorld (t_now w) (t_regs w) (List.filter (fun k' => negb (bool_decide (k' = k))) (t_ios w)) (t_next w))
    end;
  abandon k w := mkWorld (t_now w) (t_regs w) (List.filter (fun k' => negb (bool_decide (k' = k))) (t_ios w)) (t_next w);
  unwatch x w := mkWorld (t_now w) (List.filter (fun y => negb (bool_decide (y = x))) (t_regs w)) (t_ios w) (t_next w);
  sleep_ms _ w := w |}.

Lemma forget {A} `{EqDecision A} (x y : A) l : y ∈ List.filter (fun y => negb (bool_decide (y = x))) l -> y ∈ l /\ y <> x.
Proof. rewrite !list_elem_of_In, filter_In. intros [? ?%negb_true_iff%bool_decide_eq_false]. done. Qed.

#[global] Instance sel_toy_laws : SelectLaws World t_regs t_ios.
Proof.
  split; intros; simpl; try done; try (split; [done|by left || auto]).
  - destruct d; simpl; (split_and!; [done|intros ?; apply forget|try done]). intros _. apply Z.leb_le. lia.
  - split; [done|intros ?; apply forget].
  - split_and!; [intros ?; apply forget|done..].
Qed.

Definition start : World := mkWorld 0 [WSignal 7] [] 8.

End Toy.

Lemma select_leaves_nothing_witness :
  let w' := Toy.mkWorld 5 [WSignal 7] [] 10 in
  wait_any [Receivable 1; Readable 2] (Some 9) Toy.start = (OSourceTimedOut 1, w') /\
  Toy.t_regs w' ⊆ [WSignal 7] /\ (forall k, k ∈ Toy.t_ios w' -> k ∈ Toy.t_ios Toy.start).
Proof.
  intros w'. assert (wait_any [Receivable 1; Readable 2] (Some 9) Toy.start = (OSourceTimedOut 1, w')) as E by (vm_compute; reflexivity).
  split; [exact E|]. exact (select_leaves_nothing Toy.t_regs Toy.t_ios _ _ _ _ _ E).
Defined.

Lemma select_outcome_witness :
  let w' := Toy.mkWorld 5 [WSignal 7] [] 10 in
  wait_any [Receivable 1; Readable 2] (Some 9) Toy.start = (OSourceTimedOut 1, w') /\
  exists h w1 at_, [Receivable 1; Readable 2] !! 1%nat = Some (Readable h) /\ read_wait_deadline h w1 = Some at_ /\ at_ <= sel_now w'.
Proof.
  intros w'. assert (wait_any [Receivable 1; Readable 2] (Some 9) Toy.start = (OSourceTimedOut 1, w')) as E by (vm_compute; reflexivity).
  split; [exact E|]. destruct (select_outcome Toy.t_regs Toy.t_ios _ _ _ _ _ E) as (_ & h & w1 & at_ & H1 & H2 & H3 & _).
  exists h, w1, at_. split; [exact H1|split; [exact H2|exact H3]].
Defined.

End Select.
