(* ===== verification/Signals.v ===== *)
(** * Signals ([src/signals.rs])

    From the handler, through the pipe and its reader thread, to the queue
    and the tasks that wait for a signal; and [catch], which sets it up.
    [PENDING] is a 32-bit word with a bit per signal.  The handler may run on
    any thread at any moment, also while another run of it is not done. *)
From S2P Require Import Prelude Waiters Sema Io.
Local Open Scope Z_scope.
Local Open Scope roc_scope.

Module Signals.

(** [SIGNALS], by code: their numbers on Linux. *)
Definition SIGNALS : list Z := [2; 15; 1; 10; 12].
Definition N_SIGNALS : nat := 5.

Definition bit (code : nat) : Z := Z.shiftl 1 (Z.of_nat code).

(** [State] *)
Record State := mkState { queue : list nat; caught : Z; started : bool; watchers : Waiters }.

(** ** [catch] *)

(** What the system does: [pipe], starting the thread, [sigaction]. *)
Record Os := mkOs { os_pipe : io_result (Z * Z); os_spawn : io_result unit; os_sigaction : Z -> io_result unit }.

(** Whether the code's signal is caught already. *)
Definition is_caught (s : State) (code : nat) : bool := negb (Z.land (caught s) (bit code) =? 0).

(** [for &code in codes] *)
Fixpoint catch_codes (os : Os) (codes : list nat) (s : State) : io_result unit * State :=
  match codes with
  | [] => (Ok tt, s)
  | code :: codes =>
      match SIGNALS !! code with
      | None => catch_codes os codes s
      | Some signal =>
          if is_caught s code then catch_codes os codes s
          else match os_sigaction os signal with
               | Err e => (Err e, s)
               | Ok _ => catch_codes os codes (mkState (queue s) (Z.lor (caught s) (bit code)) (started s) (watchers s))
               end
      end
  end.

(** [catch]; the last component is the descriptors opened, then those kept
    (the thread's end and [PIPE_WRITE]). *)
Definition catch (os : Os) (codes : list nat) (s : State) : io_result unit * State * (list Z * list Z) :=
  if started s then (catch_codes os codes s, ([], []))
  else
    match os_pipe os with
    | Err e => (Err e, s, ([], []))
    | Ok (rd, wr) =>
        match os_spawn os with
        | Err e => (Err e, s, ([rd; wr], []))
        | Ok _ => (catch_codes os codes (mkState (queue s) (caught s) true (watchers s)), ([rd; wr], [rd; wr]))
        end
    end.

(** ** Delivery *)

(** [read_signals]: in [read]; about to swap [PENDING]; holding what it took. *)
Inductive Reader := InRead | ToSwap | Holding (pending : Z).

(** [writing]: runs of the handler between setting the bit and writing to the
    pipe; [pipe]: bytes in the pipe, of at most [PIPE_CAP]. *)
Record Sys := mkSys { state : State; pending : Z; writing : nat; pipe : nat; reader : Reader; tasks : list St; fresh : Z }.

Definition PIPE_CAP : nat := 65536%nat.
#[global] Arguments PIPE_CAP : simpl never.

Definition with_state (st : State) (s : Sys) : Sys := mkSys st (pending s) (writing s) (pipe s) (reader s) (tasks s) (fresh s).
Definition with_reader (r : Reader) (s : Sys) : Sys := mkSys (state s) (pending s) (writing s) (pipe s) r (tasks s) (fresh s).
Definition with_tasks (l : list St) (s : Sys) : Sys := mkSys (state s) (pending s) (writing s) (pipe s) (reader s) l (fresh s).

(** The two accesses of [handler]. *)
Definition handler_set (code : nat) (s : Sys) : Sys :=
  mkSys (state s) (Z.lor (pending s) (bit code)) (S (writing s)) (pipe s) (reader s) (tasks s) (fresh s).
Definition handler_write (s : Sys) : Sys :=
  mkSys (state s) (pending s) (pred (writing s)) (if (pipe s <? PIPE_CAP)%nat then S (pipe s) else pipe s) (reader s) (tasks s) (fresh s).

(** [read] into a buffer of 64 bytes, or interrupted. *)
Definition read_pipe (s : Sys) : Sys :=
  mkSys (state s) (pending s) (writing s) (pipe s - 64) ToSwap (tasks s) (fresh s).
Definition swap_pending (s : Sys) : Sys :=
  mkSys (state s) 0 (writing s) (pipe s) (if pending s =? 0 then InRead else Holding (pending s)) (tasks s) (fresh s).

(** [for code in 0..SIGNALS.len()] *)
Definition queue_code (p : Z) (q : list nat) (code : nat) : list nat :=
  if negb (Z.land p (bit code) =? 0) && negb (bool_decide (code ∈ q)) then q ++ [code] else q.
Definition queue_pending (p : Z) (q : list nat) : list nat := foldl (queue_code p) q (seq 0 N_SIGNALS).

Definition queue_signals (p : Z) (s : Sys) : Sys :=
  let st := state s in
  let '(ws, ts) := wake_all (watchers st) (tasks s) in
  mkSys (mkState (queue_pending p (queue st)) (caught st) (started st) ws) (pending s) (writing s) (pipe s) InRead ts (fresh s).

(** [try_next] *)
Definition try_next (st : State) : option nat * State :=
  match queue st with
  | code :: q => (Some code, mkState q (caught st) (started st) (watchers st))
  | [] => (None, st)
  end.

Inductive Watch := Ready | Waiting (id : Z).

(** [watch] and [unwatch] *)
Definition watch (k : TaskWaker) (st : State) : Watch * State :=
  if negb (bool_decide (queue st = [])) then (Ready, st)
  else let '(ws, id) := add_waker k (watchers st) in (Waiting id, mkState (queue st) (caught st) (started st) ws).
Definition unwatch (id : Z) (st : State) : State := mkState (queue st) (caught st) (started st) (Waiters.remove id (watchers st)).

(** [next], from [watch] to the wait. *)
Definition sys_watch (t : nat) (s : Sys) : Sys :=
  match watch (WTask t (fresh s)) (state s) with
  | (Ready, st) => mkSys st (pending s) (writing s) (pipe s) (reader s) (tasks s) (fresh s + 1)
  | (Waiting id, st) => mkSys st (pending s) (writing s) (pipe s) (reader s) (<[t := Parked (fresh s) id]> (tasks s)) (fresh s + 1)
  end.

Definition sys_new (n : nat) : Sys := mkSys (mkState [] 0 false Waiters_new) 0 0 0 InRead (replicate n Out) 1.

Inductive step : Sys -> Sys -> Prop :=
  (** [catch], and its handlers. *)
  | g_catch s os codes : step s (with_state (catch os codes (state s)).1.2 s)
  | g_set s code : is_caught (state s) code = true -> (code < N_SIGNALS)%nat -> step s (handler_set code s)
  | g_write s : (0 < writing s)%nat -> step s (handler_write s)
  (** The reader thread. *)
  | g_read s : reader s = InRead -> (0 < pipe s)%nat -> step s (read_pipe s)
  | g_interrupted s : reader s = InRead -> step s (with_reader ToSwap s)
  | g_swap s : reader s = ToSwap -> step s (swap_pending s)
  | g_queue s p : reader s = Holding p -> step s (queue_signals p s)
  (** Tasks. *)
  | g_next s t : tasks s !! t = Some Out -> step s (with_state (try_next (state s)).2 s)
  | g_watch s t : tasks s !! t = Some Out -> step s (sys_watch t s)
  | g_unwatch s t st id : tasks s !! t = Some st -> st_id st = Some id ->
      step s (with_tasks (<[t := Out]> (tasks s)) (with_state (unwatch id (state s)) s))
  | g_stop s t : step s (with_tasks (alter (fun st => if st is Parked w id then Stopped w id else st) t (tasks s)) s)
  | g_spawn s : step s (with_tasks (tasks s ++ [Out]) s).

Definition reachable (n : nat) (s : Sys) : Prop := rtc step (sys_new n) s.

(** ** The theorems *)

(** Where a signal received and not yet taken is. *)
Definition outstanding (s : Sys) (code : nat) : Prop :=
  Z.testbit (pending s) (Z.of_nat code) = true \/
  (exists p, reader s = Holding p /\ Z.testbit p (Z.of_nat code) = true) \/
  code ∈ queue (state s).

Definition sleeping (s : Sys) : Prop := asleep (tasks s).
Definition sema (s : Sys) : Sema := mkSema 0 (watchers (state s)) (tasks s) (fresh s).

Record Inv (s : Sys) : Prop := {
  v_reg : Reg (sema s);
  v_pending : pending s = 0 \/ (0 < pipe s)%nat \/ (0 < writing s)%nat \/ reader s = ToSwap;
  v_queue : NoDup (queue (state s)) /\ Forall (fun c => c < N_SIGNALS)%nat (queue (state s));
  v_sleep : sleeping s -> queue (state s) = [];
  v_hold : forall p, reader s = Holding p -> p <> 0;
}.

Lemma land_bit p code : negb (Z.land p (bit code) =? 0) = Z.testbit p (Z.of_nat code).
Proof.
  unfold bit. destruct (Z.testbit p (Z.of_nat code)) eqn:E.
  - apply negb_true_iff, Z.eqb_neq. intros H. apply (f_equal (fun x => Z.testbit x (Z.of_nat code))) in H.
    rewrite Z.land_spec, E, Z.shiftl_spec, Z.sub_diag, Z.bits_0 in H by lia. done.
  - apply negb_false_iff, Z.eqb_eq, Z.bits_inj'. intros n Hn. rewrite Z.land_spec, Z.bits_0, Z.shiftl_1_l.
    destruct (decide (n = Z.of_nat code)) as [->|Hne]; [by rewrite E|]. by rewrite Z.pow2_bits_false, andb_false_r.
Qed.

Lemma testbit_lor_bit p code : Z.testbit (Z.lor p (bit code)) (Z.of_nat code) = true.
Proof. unfold bit. rewrite Z.lor_spec, Z.shiftl_1_l, Z.pow2_bits_true by lia. apply orb_true_r. Qed.

Lemma lor_bit_nonzero p code : Z.lor p (bit code) <> 0.
Proof. intros H. pose proof (testbit_lor_bit p code) as Ht. by rewrite H, Z.bits_0 in Ht. Qed.

(** What the loop makes of the queue. *)
Lemma queue_pending_spec p l q : NoDup q ->
  let q' := foldl (queue_code p) q l in
  NoDup q' /\ (forall c, c ∈ q' <-> c ∈ q \/ (c ∈ l /\ Z.testbit p (Z.of_nat c) = true)) /\ q `prefix_of` q'.
Proof.
  revert q. induction l as [|c l IH]; intros q Hq; simpl; [split_and!; [done|set_solver|done]|].
  assert (NoDup (queue_code p q c) /\ (forall c', c' ∈ queue_code p q c <-> c' ∈ q \/ (c' = c /\ Z.testbit p (Z.of_nat c') = true)) /\
    q `prefix_of` queue_code p q c) as (Hn & He & Hp).
  { unfold queue_code. rewrite land_bit. destruct (Z.testbit p (Z.of_nat c)) eqn:E; simpl.
    - case_bool_decide as Hin; simpl.
      + split_and!; [done| |done]. intros c'. split; [auto|]. by intros [?|[-> _]].
      + split_and!; [|intros c'; rewrite elem_of_app, list_elem_of_singleton; naive_solver|by apply prefix_app_r].
        apply NoDup_app. split_and!; [done|set_solver|]. apply NoDup_singleton.
    - split_and!; [done| |done]. intros c'. split; [auto|]. intros [?|[-> ?]]; [done|congruence]. }
  destruct (IH _ Hn) as (H1 & H2 & H3). split_and!; [done| |by etrans]. intros c'. rewrite H2, He, elem_of_cons. naive_solver.
Qed.

Lemma catch_codes_keeps os codes s : let s' := (catch_codes os codes s).2 in
  queue s' = queue s /\ watchers s' = watchers s /\ started s' = started s.
Proof.
  revert s. induction codes as [|c codes IH]; intros s; simpl; [done|]. destruct (SIGNALS !! c); [|apply IH].
  destruct (is_caught s c); [apply IH|]. destruct (os_sigaction os z); [apply (IH (mkState _ _ _ _))|done].
Qed.

Lemma catch_keeps os codes s : queue (catch os codes s).1.2 = queue s /\ watchers (catch os codes s).1.2 = watchers s.
Proof.
  unfold catch. destruct (started s); [split; apply catch_codes_keeps|]. destruct (os_pipe os) as [[rd wr]|e]; [|done].
  destruct (os_spawn os); [|done]. split; apply (catch_codes_keeps os codes (mkState _ _ _ _)).
Qed.

Lemma cap_pos : (0 < PIPE_CAP)%nat.
Proof. by apply Nat.ltb_lt. Qed.

Lemma sys_new_inv n : Inv (sys_new n).
Proof.
  split; simpl; [apply (sema_new_reg 0 n)|auto|split; constructor|done|done].
Qed.

Lemma inv_queue p s : Inv s -> reader s = Holding p -> Inv (queue_signals p s) /\ ~ sleeping (queue_signals p s).
Proof.
  intros [Hr Hp [Hn Hf] Hs Hh] Hrd. destruct (notify_all_effect _ Hr) as [Hr' _]. pose proof (notified_awake _ Hr) as Hns.
  unfold notify_all, sema in Hr', Hns. cbn [Sema.waiters Sema.tasks] in Hr', Hns. unfold queue_signals, sleeping.
  destruct (wake_all (watchers (state s)) (tasks s)) as [ws ts]. cbn [Sema.tasks] in Hns.
  split; [|apply Hns]. destruct (queue_pending_spec p (seq 0 N_SIGNALS) (queue (state s)) Hn) as (H1 & H2 & _).
  split; simpl; [done| | | |done].
  - rewrite Hrd in Hp. naive_solver.
  - split; [done|]. apply Forall_forall. intros c [Hc'|[Hc' _]]%H2; [by eapply Forall_forall in Hf|].
    apply elem_of_seq in Hc'. lia.
  - intros H. by apply Hns in H.
Qed.

Lemma signals_inv_step s s' : Inv s -> step s s' -> Inv s'.
Proof.
  intros HI Hst. pose proof HI as [Hr Hp [Hn Hf] Hs Hh].
  destruct Hst as [s os codes|s code Hc Hl|s Hw|s Hrd Hpi|s Hrd|s Hrd|s p Hrd|s t Ht|s t Ht|s t st id Ht Hid|s t|s].
  - destruct (catch_keeps os codes (state s)) as [Hq Hw]. split; cbn [with_state state pending pipe writing reader]; rewrite ?Hq; try done.
    unfold sema. simpl. by rewrite Hw.
  - split; simpl; try done. right. right. left. lia.
  - split; simpl; try done. destruct Hp as [|[Hp|[Hp|]]]; [auto| |right; left|auto].
    + right. left. destruct (pipe s <? PIPE_CAP)%nat; lia.
    + pose proof cap_pos. destruct (Nat.ltb_spec (pipe s) PIPE_CAP); lia.
  - split; simpl; try done. auto.
  - split; simpl; try done. auto.
  - split; simpl; try done; [auto|]. intros p. destruct (Z.eqb_spec (pending s) 0); [done|]. by intros [= <-].
  - by apply inv_queue.
  - unfold try_next. destruct (queue (state s)) as [|c q] eqn:Eq; simpl; [by destruct s|]. inversion_clear Hn. inversion_clear Hf.
    split; simpl; try done. intros Hsl. by specialize (Hs Hsl).
  - unfold sys_watch, watch. case_bool_decide as Eq; simpl.
    + split; simpl; try done. apply (reg_park t _ Hr Ht).
    + split; simpl; try done. by destruct Hr.
  - split; simpl; try done; [by apply (reg_unpark t st id _ Hr)|]. intros Hsl. by apply Hs, (asleep_out _ t).
  - split; simpl; try done; [by apply (reg_stop t _ Hr)|]. intros Hsl. by apply Hs, (asleep_weaker _ _ (weaker_stop t _)).
  - split; simpl; try done; [by apply (reg_spawn _ Hr)|]. intros Hsl. by apply Hs, asleep_spawn.
Qed.

Lemma signals_reachable_inv n s : reachable n s -> Inv s.
Proof. intros H. refine (rtc_invariant step Inv _ _ _ H (sys_new_inv n)). eauto using signals_inv_step. Qed.

(** A caught signal is not lost: from the moment its bit is set until a
    task takes it it stays pending, held by the reader thread or queued; while
    any is pending the thread has a byte to read, will be written one, or is
    about to look; each signal is queued at most once; and no task sleeps
    next to a queued one. *)
Theorem signal_not_lost n s : reachable n s ->
  (pending s <> 0 -> (0 < pipe s)%nat \/ (0 < writing s)%nat \/ reader s = ToSwap) /\
  (NoDup (queue (state s)) /\ (length (queue (state s)) <= N_SIGNALS)%nat) /\
  (sleeping s -> queue (state s) = []) /\
  (forall p, reader s = Holding p -> ~ sleeping (queue_signals p s)) /\
  forall s' c, step s s' -> (c < N_SIGNALS)%nat -> outstanding s c ->
    outstanding s' c \/ exists q, queue (state s) = c :: q /\ queue (state s') = q.
Proof.
  intros HI%signals_reachable_inv. pose proof HI as [Hr Hp [Hn Hf] Hs Hh]. split_and!; [naive_solver|done| |done| |].
  { rewrite <- (length_seq N_SIGNALS 0). apply submseteq_length, NoDup_submseteq; [done|]. intros c Hc.
    apply elem_of_seq. rewrite Forall_forall in Hf. specialize (Hf c Hc). lia. }
  { intros p Hrd. by apply inv_queue. }
  intros s' c Hst Hc Ho.
  destruct Hst as [s os codes|s code Hc' Hl|s Hw|s Hrd Hpi|s Hrd|s Hrd|s p Hrd|s t Ht|s t Ht|s t st id Ht Hid|s t|s];
    try (left; exact Ho).
  - left. unfold outstanding in *. simpl. destruct (catch_keeps os codes (state s)) as [-> _]. done.
  - left. destruct Ho as [Ho|Ho]; [left; simpl; rewrite Z.lor_spec, Ho; done|by right].
  - left. destruct Ho as [Ho|[(p & Hp' & _)|Ho]]; [left; done|congruence|by do 2 right].
  - left. destruct Ho as [Ho|[(p & Hp' & _)|Ho]]; [left; done|congruence|by do 2 right].
  - left. destruct Ho as [Ho|[(p & Hp' & _)|Ho]]; [|congruence|by do 2 right]. right. left. simpl. exists (pending s).
    split; [|done]. destruct (Z.eqb_spec (pending s) 0) as [E|]; [|done]. by rewrite E, Z.bits_0 in Ho.
  - left. unfold queue_signals. destruct (wake_all (watchers (state s)) (tasks s)) as [ws ts].
    destruct (queue_pending_spec p (seq 0 N_SIGNALS) (queue (state s)) Hn) as (_ & H2 & _).
    destruct Ho as [Ho|[(p' & Hp' & Ho)|Ho]]; [left; done| |]; right; right; apply H2; [|auto]. right.
    assert (p' = p) as -> by congruence. split; [|done]. apply elem_of_seq. lia.
  - unfold try_next. destruct (queue (state s)) as [|c' q] eqn:Eq; simpl; [by left|]. destruct Ho as [Ho|[Ho|Ho]]; [by left; left|by left; right; left|].
    rewrite Eq in Ho. apply elem_of_cons in Ho as [->|Ho]; [right; by exists q|]. left. by right; right.
  - left. unfold sys_watch, watch. case_bool_decide; simpl; done.
Qed.

(** What [catch_codes] adds to the signals caught. *)
Lemma catch_codes_caught os codes s r s' : catch_codes os codes s = (r, s') ->
  (forall c, is_caught s c = true -> is_caught s' c = true) /\
  (r = Ok tt -> forall c, c ∈ codes -> (c < N_SIGNALS)%nat -> is_caught s' c = true).
Proof.
  revert s. induction codes as [|code codes IH]; intros s; simpl; [intros [= <- <-]; split; [done|]; intros _ c Hc; by inversion Hc|].
  destruct (SIGNALS !! code) as [signal|] eqn:El.
  - destruct (is_caught s code) eqn:Ec.
    + intros Hr. apply IH in Hr as [H1 H2]. split; [done|]. intros E c [->|Hc]%elem_of_cons Hl; [by apply H1|by apply H2].
    + destruct (os_sigaction os signal) as [[]|e]; [|by intros [= <- <-]]. intros Hr. apply IH in Hr as [H1 H2].
      assert (forall c, c = code \/ is_caught s c = true -> is_caught s' c = true) as H3.
      { intros c Hc. apply H1. unfold is_caught in *. simpl. rewrite land_bit in *. destruct Hc as [->|Hc]; [apply testbit_lor_bit|].
        by rewrite Z.lor_spec, Hc. }
      split; [auto|]. intros E c [->|Hc]%elem_of_cons Hl; [by auto|by apply H2].
  - intros Hr. apply IH in Hr as [H1 H2]. split; [done|]. intros E c [->|Hc]%elem_of_cons Hl; [|by apply H2].
    apply lookup_ge_None in El. unfold SIGNALS, N_SIGNALS in *. simpl in El. lia.
Qed.

(** [catch]: on success every signal asked for is caught, with the thread
    started; whatever happens, those caught before stay caught; and the pipe's
    two descriptors are in use afterwards, unless the thread could not be
    started: then nothing has changed, and they stay open, to no use. *)
Theorem catch_outcome os codes s r s' opened kept : catch os codes s = (r, s', (opened, kept)) ->
  (forall c, is_caught s c = true -> is_caught s' c = true) /\
  (r = Ok tt -> started s' = true /\ forall c, c ∈ codes -> (c < N_SIGNALS)%nat -> is_caught s' c = true) /\
  (opened <> kept -> s' = s /\ kept = [] /\ length opened = 2%nat /\ exists e, r = Err e /\ os_spawn os = Err e).
Proof.
  unfold catch. destruct (started s) eqn:Es.
  - destruct (catch_codes os codes s) as [r0 s0] eqn:E. intros [= <- <- <- <-]. pose proof (catch_codes_caught _ _ _ _ _ E) as [H1 H2].
    pose proof (catch_codes_keeps os codes s) as (_ & _ & H3). rewrite E in H3. simpl in H3. split_and!; [done| |done].
    intros Hr. split; [congruence|by apply H2].
  - destruct (os_pipe os) as [[rd wr]|e]; [|by intros [= <- <- <- <-]].
    destruct (os_spawn os) as [[]|e] eqn:Esp.
    + destruct (catch_codes os codes (mkState (queue s) (caught s) true (watchers s))) as [r0 s0] eqn:E. intros [= <- <- <- <-].
      pose proof (catch_codes_caught _ _ _ _ _ E) as [H1 H2].
      pose proof (catch_codes_keeps os codes (mkState (queue s) (caught s) true (watchers s))) as (_ & _ & H3). rewrite E in H3. simpl in H3.
      split_and!; [done| |done]. intros Hr. split; [done|by apply H2].
    + intros [= <- <- <- <-]. split; [done|]. split; [done|]. intros _. split_and!; [done..|]. by exists e.
Qed.

(** No thread for it: two descriptors lost. *)
Lemma catch_outcome_witness :
  let e := err_kind OtherKind in
  let os := mkOs (Ok (5, 6)) (Err e) (fun _ => Ok tt) in
  let s := mkState [] 0 false Waiters_new in
  catch os [0%nat] s = (Err e, s, ([5; 6], [])) /\ exists e', Err e = @Err unit IoError e' /\ os_spawn os = Err e'.
Proof.
  intros e os s. assert (catch os [0%nat] s = (Err e, s, ([5; 6], []))) as E by reflexivity. split; [exact E|].
  destruct (catch_outcome os [0%nat] s _ _ _ _ E) as (_ & _ & H). destruct H as (_ & _ & _ & H); [discriminate|exact H].
Defined.

(** SIGTERM, with a task asleep: handled, read and swapped. *)
Definition demo_os : Os := mkOs (Ok (5, 6)) (Ok tt) (fun _ => Ok tt).
Definition demo0 : Sys := with_state (catch demo_os [1%nat] (state (sys_new 1))).1.2 (sys_new 1).
Definition demo1 : Sys := sys_watch 0 demo0.
Definition demo2 : Sys := handler_write (handler_set 1 demo1).
Definition demo3 : Sys := swap_pending (read_pipe demo2).

Lemma signal_demo_reachable : reachable 1 demo3.
Proof.
  unfold reachable. eapply rtc_l; [apply (g_catch _ demo_os [1%nat])|]. fold demo0.
  eapply rtc_l; [by apply (g_watch _ 0)|]. fold demo1.
  eapply rtc_l; [apply (g_set _ 1); [done|unfold N_SIGNALS; lia]|]. eapply rtc_l; [apply g_write; simpl; lia|]. fold demo2.
  eapply rtc_l; [apply g_read; [done|simpl; lia]|]. eapply rtc_l; [by apply g_swap|]. apply rtc_refl.
Qed.

Lemma signal_not_lost_witness :
  outstanding demo3 1 /\ (outstanding (queue_signals 2 demo3) 1 \/
    exists q, queue (state demo3) = 1%nat :: q /\ queue (state (queue_signals 2 demo3)) = q) /\ ~ sleeping (queue_signals 2 demo3).
Proof.
  assert (outstanding demo3 1) as Ho by (right; left; exists 2; split; reflexivity). split; [exact Ho|].
  destruct (signal_not_lost 1 demo3 signal_demo_reachable) as (_ & _ & _ & H4 & H5). split.
  - apply H5; [apply g_queue; reflexivity|unfold N_SIGNALS; lia|exact Ho].
  - apply H4. reflexivity.
Defined.

End Signals.
