(* ===== verification/Limits.v ===== *)
(** * Limits from the environment ([src/limits.rs])

    Reading a number or a choice from an environment variable, as Rust's
    [trim], [parse::<usize>] and [eq_ignore_ascii_case] do, and the limits
    read with it.  An environment says what a variable is set to: a list of
    code points, or [None] if it is unset or not Unicode. *)
From Stdlib Require Import String.
From S2P Require Import Prelude Resource LogFormat.
Local Open Scope Z_scope.

Module Limits.
Import LogFormat.

Definition Env : Type := str -> option str.

(** [char::is_whitespace] *)
Definition is_whitespace (c : Z) : bool :=
  ((9 <=? c) && (c <=? 13)) || ((8192 <=? c) && (c <=? 8202)) ||
  existsb (Z.eqb c) [32; 133; 160; 5760; 8232; 8233; 8239; 8287; 12288].

(** [str::trim] *)
Fixpoint trim_start (s : str) : str := match s with c :: s' => if is_whitespace c then trim_start s' else s | [] => [] end.
Definition trim (s : str) : str := rev (trim_start (rev (trim_start s))).

(** [parse::<usize>]: digits, after a [+] or not; no overflow. *)
Fixpoint parse_digits (acc : Z) (s : str) : option Z :=
  match s with
  | [] => Some acc
  | c :: s =>
      if (48 <=? c) && (c <=? 57) then
        let acc := acc * 10 + (c - 48) in if acc <=? USIZE_MAX then parse_digits acc s else None
      else None
  end.
Definition parse_usize (s : str) : option Z :=
  match s with
  | [] => None
  | c :: s' => if c =? 43 then (match s' with [] => None | _ => parse_digits 0 s' end) else parse_digits 0 s
  end.

(** [from_env] *)
Definition from_env (env : Env) (name : str) (default min max : Z) : Z :=
  match env name with
  | None => default
  | Some raw =>
      match parse_usize (trim raw) with
      | Some value => if (min <=? value) && (value <=? max) then value else default
      | None => default
      end
  end.

(** [eq_ignore_ascii_case] *)
Definition to_ascii_lowercase (c : Z) : Z := if (65 <=? c) && (c <=? 90) then c + 32 else c.
Definition eq_ignore_ascii_case (a b : str) : bool := bool_decide (map to_ascii_lowercase a = map to_ascii_lowercase b).

Fixpoint position (s : str) (choices : list str) : option nat :=
  match choices with
  | [] => None
  | c :: choices => if eq_ignore_ascii_case s c then Some 0%nat else option_map S (position s choices)
  end.

(** [from_env_choice] *)
Definition from_env_choice (env : Env) (name : str) (choices : list str) (default : nat) : nat :=
  match env name with
  | None => default
  | Some raw => match position (trim raw) choices with Some index => index | None => default end
  end.

(** The limits; [cpus] is [available_parallelism], 1 if it fails. *)
Definition max_tasks (env : Env) : Z := from_env env (lit "ROC_NET_MAX_TASKS") 100000 1 USIZE_MAX.
Definition workers (env : Env) (cpus : Z) : Z := from_env env (lit "ROC_NET_WORKERS") (Z.min cpus 64) 1 64.
(** In microseconds. *)
Definition share_after (env : Env) : Z := from_env env (lit "ROC_NET_SHARE_AFTER_US") 500 0 10000000.
Definition task_stack_bytes (env : Env) : Z := from_env env (lit "ROC_NET_TASK_STACK_KIB") 256 64 (1024 * 1024) * 1024.
Definition max_sockets (env : Env) : Z := from_env env (lit "ROC_NET_MAX_SOCKETS") 16384 1 65535.
Definition max_channels (env : Env) : Z := from_env env (lit "ROC_NET_MAX_CHANNELS") 8192 1 32767.
Definition log_level (env : Env) : nat :=
  from_env_choice env (lit "ROC_NET_LOG") [lit "debug"; lit "info"; lit "warn"; lit "error"; lit "off"] 1.
Definition log_json (env : Env) : bool := (from_env_choice env (lit "ROC_NET_LOG_FORMAT") [lit "text"; lit "json"] 0 =? 1)%nat.
Definition log_buffer_bytes (env : Env) : Z := from_env env (lit "ROC_NET_LOG_BUFFER_KIB") 1024 4 (1024 * 1024) * 1024.

(** ** Every setting is in its range *)

Lemma from_env_range env name default min max :
  min <= default <= max -> min <= from_env env name default min max <= max.
Proof.
  intros Hd. unfold from_env. destruct (env name) as [raw|]; [|done]. destruct (parse_usize (trim raw)) as [v|]; [|done].
  destruct ((min <=? v) && (v <=? max)) eqn:E; [lia|done].
Qed.

Lemma position_lt s choices i : position s choices = Some i -> (i < length choices)%nat.
Proof.
  revert i. induction choices as [|c choices IH]; intros i; simpl; [done|]. destruct (eq_ignore_ascii_case s c); [intros [= <-]; lia|].
  destruct (position s choices) as [j|]; [|done]. simpl. intros [= <-]. specialize (IH j eq_refl). lia.
Qed.

(** Whatever the environment says, the limits are ones the host can work
    with: the heaps of sockets and of channels' ends can be made, their
    indexes fitting a token's 16 bits; a worker has a bit in a 64-bit mask;
    and the sizes in bytes do not overflow. *)
Theorem limits_usable env cpus : 1 <= cpus ->
  is_Some (@heap_new unit (Z.to_nat (max_sockets env))) /\
  is_Some (@heap_new unit (Z.to_nat (u64_add (max_channels env) (max_channels env)))) /\
  1 <= workers env cpus <= 64 /\ 1 <= max_tasks env <= USIZE_MAX /\
  65536 <= task_stack_bytes env <= 2 ^ 30 /\ 4096 <= log_buffer_bytes env <= 2 ^ 30 /\
  0 <= share_after env <= 10000000 /\ (log_level env <= 4)%nat.
Proof.
  intros Hc. pose proof (from_env_range env (lit "ROC_NET_MAX_SOCKETS") 16384 1 65535) as H1.
  pose proof (from_env_range env (lit "ROC_NET_MAX_CHANNELS") 8192 1 32767) as H2.
  pose proof (from_env_range env (lit "ROC_NET_TASK_STACK_KIB") 256 64 (1024 * 1024)) as H3.
  pose proof (from_env_range env (lit "ROC_NET_LOG_BUFFER_KIB") 1024 4 (1024 * 1024)) as H4.
  assert (forall n, 1 <= n <= 65535 -> is_Some (@heap_new unit (Z.to_nat n))) as Hh.
  { intros n Hn. unfold heap_new. assert ((0 <? Z.to_nat n)%nat && (Z.of_nat (Z.to_nat n) <=? INDEX_MASK) = true) as ->; [|done].
    unfold INDEX_MASK, INDEX_BITS. change (Z.shiftl 1 16 - 1) with 65535. apply andb_true_iff. split; [apply Nat.ltb_lt|apply Z.leb_le]; lia. }
  unfold max_sockets, max_channels, task_stack_bytes, log_buffer_bytes. split_and!; try lia.
  - apply Hh. lia.
  - apply Hh. unfold u64_add, wrap. rewrite Z.mod_small by lia. lia.
  - apply from_env_range. lia.
  - apply from_env_range. lia.
  - unfold max_tasks. apply from_env_range. unfold USIZE_MAX, U64_MAX. lia.
  - unfold max_tasks. apply from_env_range. unfold USIZE_MAX, U64_MAX. lia.
  - apply from_env_range. lia.
  - apply from_env_range. lia.
  - unfold log_level, from_env_choice. destruct (env _) as [raw|]; [|lia]. destruct (position _ _) as [i|] eqn:E; [|lia].
    apply position_lt in E. simpl in E. lia.
Qed.

Lemma limits_usable_witness :
  let env := fun _ => Some (lit "0") in
  1 <= 8 /\ is_Some (@heap_new unit (Z.to_nat (max_sockets env))).
Proof. intros env. split; [lia|]. apply (limits_usable env 8). lia. Defined.

(** ** Reading a number back *)

Lemma parse_digits_digits fuel n acc :
  0 <= n <= USIZE_MAX -> n < 10 ^ Z.of_nat fuel -> parse_digits 0 (digits fuel n acc) = parse_digits n acc.
Proof.
  revert n acc. induction fuel as [|fuel IH]; intros n acc Hn Hf; cbn [digits].
  { simpl in Hf. by replace n with 0 by lia. }
  assert (forall a, 0 <= a -> a * 10 + n mod 10 = n -> parse_digits a ((48 + n mod 10) :: acc) = parse_digits n acc) as Hstep.
  { intros a Ha E. cbn [parse_digits]. pose proof (Z.mod_pos_bound n 10).
    rewrite (proj2 (Z.leb_le 48 _)), (proj2 (Z.leb_le _ 57)) by lia. cbn [andb].
    replace (48 + n mod 10 - 48) with (n mod 10) by lia. rewrite E. by rewrite (proj2 (Z.leb_le n _)) by lia. }
  pose proof (Z.div_mod n 10). pose proof (Z.mod_pos_bound n 10). pose proof (Z.div_pos n 10).
  destruct (Z.eqb_spec (n / 10) 0) as [E|E]; [apply Hstep; lia|]. rewrite IH; [apply Hstep; lia|lia|].
  apply Z.div_lt_upper_bound; [lia|]. rewrite <- Z.pow_succ_r by lia. by replace (Z.succ (Z.of_nat fuel)) with (Z.of_nat (S fuel)) by lia.
Qed.

Lemma digits_head fuel n acc : (0 < fuel)%nat -> 0 <= n -> exists c s, digits fuel n acc = c :: s /\ 48 <= c <= 57.
Proof.
  revert n acc. induction fuel as [|fuel IH]; intros n acc Hf Hn; [lia|]. cbn [digits]. pose proof (Z.mod_pos_bound n 10).
  destruct (n / 10 =? 0); [eexists _, _; split; [done|lia]|].
  destruct fuel as [|fuel]; [cbn [digits]; eexists _, _; split; [done|lia]|]. apply IH; [lia|]. apply Z.div_pos; lia.
Qed.

Definition digit (c : Z) : Prop := 48 <= c <= 57.

Lemma digits_are fuel n acc : 0 <= n -> Forall digit acc -> Forall digit (digits fuel n acc).
Proof.
  revert n acc. induction fuel as [|fuel IH]; intros n acc Hn Ha; cbn [digits]; [done|]. pose proof (Z.mod_pos_bound n 10).
  assert (Forall digit ((48 + n mod 10) :: acc)) by (constructor; [unfold digit; lia|done]).
  destruct (n / 10 =? 0); [done|]. apply IH; [apply Z.div_pos; lia|done].
Qed.

Lemma digit_not_space c : digit c -> is_whitespace c = false.
Proof. unfold digit, is_whitespace. simpl. lia. Qed.

Lemma trim_start_digits s : Forall digit s -> trim_start s = s.
Proof. intros [|c s' Hc _]; simpl; [done|]. by rewrite digit_not_space. Qed.

Lemma trim_digits s : Forall digit s -> trim s = s.
Proof.
  intros Hs. unfold trim. rewrite (trim_start_digits s), trim_start_digits, rev_involutive; [done| |done]. by apply Forall_rev.
Qed.

(** A setting takes effect: a variable set to a number in range, in
    decimal, is that number. *)
Theorem setting_reads_back env name default min max v :
  env name = Some (to_string v) -> 0 <= min -> min <= v <= max -> max <= USIZE_MAX -> from_env env name default min max = v.
Proof.
  intros He H0 Hv Hm. unfold from_env. rewrite He.
  assert (to_string v = digits 20 v []) as Es by (unfold to_string; by rewrite (proj2 (Z.ltb_ge v 0)) by lia).
  assert (parse_usize (to_string v) = Some v) as Hp.
  { pose proof (parse_digits_digits 20 v [] ltac:(lia)) as Hd. rewrite Es. destruct (digits_head 20 v []) as (c & s & E & Hc); [lia..|].
    rewrite E in *. unfold USIZE_MAX, U64_MAX in Hm. change (10 ^ Z.of_nat 20) with 100000000000000000000 in Hd.
    specialize (Hd ltac:(lia)). unfold parse_usize. rewrite (proj2 (Z.eqb_neq c 43)) by lia. exact Hd. }
  assert (trim (to_string v) = to_string v) as ->.
  { rewrite Es. apply trim_digits, digits_are; [lia|constructor]. }
  rewrite Hp. by rewrite (proj2 (Z.leb_le min v)), (proj2 (Z.leb_le v max)) by lia.
Qed.

(** " 42" would do too. *)
Lemma setting_reads_back_witness :
  let env := fun _ => Some (to_string 42) in from_env env (lit "ROC_NET_WORKERS") 8 1 64 = 42.
Proof.
  intros env. apply (setting_reads_back env (lit "ROC_NET_WORKERS") 8 1 64 42); [reflexivity|lia|lia|unfold USIZE_MAX, U64_MAX; lia].
Defined.

Example spaces_around : from_env (fun _ => Some (lit " +42 ")) (lit "ROC_NET_WORKERS") 8 1 64 = 42.
Proof. vm_compute. reflexivity. Qed.

Example out_of_range : from_env (fun _ => Some (lit "65")) (lit "ROC_NET_WORKERS") 8 1 64 = 8.
Proof. vm_compute. reflexivity. Qed.

End Limits.
