(* ===== verification/Alloc.v ===== *)
(** * The host's allocator ([src/alloc.rs])

    Each allocation is a block of the system allocator's with the block's
    total size in the word before the pointer handed out.  Addresses are
    integers; memory is a function from addresses to contents, with the size
    word as one cell at its address.  The system allocator ([std::alloc]) is
    a parameter: where it puts a block ([place]), or that it has none.  What
    its documentation calls undefined behaviour (freeing a block with another
    layout, sizes over [isize::MAX]) is [None]. *)
From S2P Require Import Prelude.
Local Open Scope Z_scope.

Module Alloc.

Definition WORD : Z := 8.
Definition ISIZE_MAX : Z := 9223372036854775807.

(** [Layout]: size and alignment. *)
Abbreviation Layout := (Z * Z)%type.

Record Heap := mkHeap { blocks : gmap Z Layout; mem : Z -> Z }.

Definition round_up (n align : Z) : Z := (n + align - 1) / align * align.

Definition power_of_two (a : Z) : bool := (0 <? a) && (Z.land a (a - 1) =? 0).

(** [Layout::from_size_align] *)
Definition from_size_align (size align : Z) : option Layout :=
  if power_of_two align && (round_up size align <=? ISIZE_MAX) then Some (size, align) else None.

Definition overlap (b1 s1 b2 s2 : Z) : Prop := b1 < b2 + s2 /\ b2 < b1 + s1.

(** What the system allocator promises of where it puts a block: aligned, not
    null, and away from the other live blocks. *)
Class Placement (place : gmap Z Layout -> Layout -> option Z) : Prop := {
  placed : forall bs size align b, place bs (size, align) = Some b ->
    0 < b /\ (align | b) /\ forall b' l, bs !! b' = Some l -> ~ overlap b size b' l.1;
}.

Definition write (a v : Z) (m : Z -> Z) : Z -> Z := fun x => if x =? a then v else m x.

(** [memcpy] of [n] cells. *)
Definition copy (from to n : Z) (m : Z -> Z) : Z -> Z := fun x => if (to <=? x) && (x <? to + n) then m (from + (x - to)) else m x.

Section Alloc.
Variable place : gmap Z Layout -> Layout -> option Z.

(** [std::alloc::alloc], [dealloc] and [realloc]; the outer [None] is
    undefined behaviour, the inner one a null pointer. *)
Definition sys_alloc (l : Layout) (h : Heap) : option Z * Heap :=
  match place (blocks h) l with
  | Some b => (Some b, mkHeap (<[b := l]> (blocks h)) (mem h))
  | None => (None, h)
  end.
Definition sys_dealloc (b : Z) (l : Layout) (h : Heap) : option Heap :=
  if bool_decide (blocks h !! b = Some l) then Some (mkHeap (delete b (blocks h)) (mem h)) else None.
Definition sys_realloc (b : Z) (l : Layout) (new_size : Z) (h : Heap) : option (option Z * Heap) :=
  if bool_decide (blocks h !! b = Some l) && (0 <? new_size) && (round_up new_size l.2 <=? ISIZE_MAX) then
    match place (delete b (blocks h)) (new_size, l.2) with
    | Some b' => Some (Some b', mkHeap (<[b' := (new_size, l.2)]> (delete b (blocks h))) (copy b b' (Z.min l.1 new_size) (mem h)))
    | None => Some (None, h)
    end
  else None.

(** [alignment.max(align_of::<usize>())] *)
Definition align_of (alignment : Z) : Z := Z.max alignment WORD.

(** [try_alloc]: the pointer, or null. *)
Definition try_alloc (length alignment : Z) (h : Heap) : option Z * Heap :=
  let align := align_of alignment in
  match checked_add length align with
  | None => (None, h)
  | Some total =>
      match from_size_align total align with
      | None => (None, h)
      | Some layout =>
          match sys_alloc layout h with
          | (None, h) => (None, h)
          | (Some base, h) =>
              let user := base + align in
              (Some user, mkHeap (blocks h) (write (user - WORD) total (mem h)))
          end
      end
  end.

(** [dealloc] *)
Definition dealloc (ptr alignment : Z) (h : Heap) : option Heap :=
  let align := align_of alignment in
  let total := mem h (ptr - WORD) in
  sys_dealloc (ptr - align) (total, align) h.

(** [alloc]: ends the program when there is no memory. *)
Inductive Exits (A : Type) := Exit | Go (a : A).
#[global] Arguments Exit {A}.
#[global] Arguments Go {A}.

Definition alloc (length alignment : Z) (h : Heap) : Exits (Z * Heap) :=
  match try_alloc length alignment h with (Some ptr, h) => Go (ptr, h) | (None, _) => Exit end.

(** [realloc] *)
Definition realloc (ptr new_length alignment : Z) (h : Heap) : option (Exits (Z * Heap)) :=
  let align := align_of alignment in
  let old_total := mem h (ptr - WORD) in
  match checked_add new_length align with
  | None => Some Exit
  | Some new_total =>
      match sys_realloc (ptr - align) (old_total, align) new_total h with
      | None => None
      | Some (None, _) => Some Exit
      | Some (Some base, h) =>
          let user := base + align in
          Some (Go (user, mkHeap (blocks h) (write (user - WORD) new_total (mem h))))
      end
  end.

(** [RocListWith<u8>]: where its elements are, how many, and its capacity
    word. *)
Record RocBytes := mkBytes { elements : Z; length : Z; capacity_or_alloc_ptr : Z }.

(** [random::try_alloc_bytes]: a list of [count] bytes to fill, its reference
    count 1 in the word before them.  [checked_shl] only refuses shifts of 64
    and more, so it shifts bits out. *)
Definition try_alloc_bytes (count : Z) (h : Heap) : option RocBytes * Heap :=
  if count =? 0 then (Some (mkBytes 0 0 0), h)
  else
    match checked_add count WORD with
    | None => (None, h)
    | Some size =>
        match try_alloc size WORD h with
        | (None, h) => (None, h)
        | (Some base, h) =>
            let elements := base + WORD in
            (Some (mkBytes elements count (u64_shl count 1)), mkHeap (blocks h) (write (elements - WORD) 1 (mem h)))
        end
    end.

(** ** What Roc holds

    [live]: the pointers Roc has, with their lengths and alignments. *)
Record Held (h : Heap) (live : gmap Z (Z * Z)) : Prop := {
  held_block : forall p n a, live !! p = Some (n, a) ->
    0 <= n /\ 0 < a /\ blocks h !! (p - align_of a) = Some (n + align_of a, align_of a) /\ mem h (p - WORD) = n + align_of a;
  held_apart : forall b l b' l', blocks h !! b = Some l -> blocks h !! b' = Some l' -> b <> b' -> ~ overlap b l.1 b' l'.1;
  held_one : forall p n a p' n' a', live !! p = Some (n, a) -> live !! p' = Some (n', a') -> p - align_of a = p' - align_of a' -> p = p';
  held_aligned : forall p n a, live !! p = Some (n, a) -> power_of_two a = true /\ (a | p);
}.

Context `{!Placement place}.

Lemma align_ge a : WORD <= align_of a /\ a <= align_of a.
Proof. unfold align_of. lia. Qed.

(** Cells of different live pointers are different. *)
Lemma held_disjoint h live p n a p' n' a' x y :
  Held h live -> live !! p = Some (n, a) -> live !! p' = Some (n', a') -> p <> p' ->
  p - align_of a <= x < p + n -> p' - align_of a' <= y < p' + n' -> x <> y.
Proof.
  intros [Hb Ha Ho _] H1 H2 Hne Hx Hy ->. destruct (Hb _ _ _ H1) as (_ & _ & B1 & _). destruct (Hb _ _ _ H2) as (_ & _ & B2 & _).
  apply (Ha _ _ _ _ B1 B2); [intros E; by apply Hne, (Ho _ _ _ _ _ _ H1 H2)|]. unfold overlap. simpl. lia.
Qed.

Lemma align_divides a : power_of_two a = true -> (a | align_of a).
Proof.
  intros H. unfold align_of, WORD. destruct (Z.le_ge_cases 8 a); [rewrite Z.max_l by lia; done|]. rewrite Z.max_r by lia.
  assert (a = 1 \/ a = 2 \/ a = 4 \/ a = 8) as [->|[->|[->| ->]]]; [|by exists 8|by exists 4|by exists 2|by exists 1].
  unfold power_of_two in H. assert (1 <= a <= 8) as Hr by lia.
  assert (a = 1 \/ a = 2 \/ a = 3 \/ a = 4 \/ a = 5 \/ a = 6 \/ a = 7 \/ a = 8) as Hc by lia.
  repeat destruct Hc as [->|Hc]; auto; subst; vm_compute in H; try done; auto.
Qed.

(** A new block, with its size word, for a new pointer. *)
Lemma held_new h live b n a :
  Held h live -> 0 <= n -> power_of_two a = true -> (align_of a | b) -> (forall b' l, blocks h !! b' = Some l -> ~ overlap b (n + align_of a) b' l.1) ->
  let p := b + align_of a in
  live !! p = None /\
  Held (mkHeap (<[b := (n + align_of a, align_of a)]> (blocks h)) (write (p - WORD) (n + align_of a) (mem h))) (<[p := (n, a)]> live) /\
  forall q n' a' x, live !! q = Some (n', a') -> q - WORD <= x < q + n' -> write (p - WORD) (n + align_of a) (mem h) x = mem h x.
Proof.
  intros [Hb Ha Ho Hal] Hn Hp2 Hdiv Hov p. assert (0 < a) as Ha0 by (unfold power_of_two in Hp2; lia). pose proof (align_ge a) as [Hw1 Hw2]. unfold WORD in *.
  (* No pointer held is within the new block. *)
  assert (forall q n' a', live !! q = Some (n', a') -> ~ overlap b (n + align_of a) (q - align_of a') (n' + align_of a')) as Hq.
  { intros q n' a' Hl. destruct (Hb _ _ _ Hl) as (_ & _ & Bl & _). by apply (Hov _ _ Bl). }
  assert (forall q n' a', live !! q = Some (n', a') -> q <> p /\ q - align_of a' <> b) as Hne.
  { intros q n' a' Hl. specialize (Hq _ _ _ Hl). destruct (Hb _ _ _ Hl) as (Hn' & _). pose proof (align_ge a') as [Hv1 _].
    unfold overlap, p, WORD in *. split; lia. }
  split; [|split].
  - destruct (live !! p) as [[n' a']|] eqn:E; [|done]. by destruct (Hne _ _ _ E).
  - split.
    + intros q n' a'. rewrite lookup_insert_Some. intros [[<- [= <- <-]]|[Hpq Hl]]; simpl.
      * split_and!; [done|done| |]; unfold p, WORD.
        -- replace (b + align_of a - align_of a) with b by lia. by rewrite lookup_insert_eq.
        -- unfold write. by rewrite Z.eqb_refl.
      * destruct (Hb _ _ _ Hl) as (Hn' & Ha' & Bl & Ml). destruct (Hne _ _ _ Hl) as [N1 N2].
        rewrite lookup_insert_ne by done. split_and!; [done..|]. unfold write, WORD in *. by rewrite (proj2 (Z.eqb_neq _ _)) by lia.
    + intros b1 l1 b2 l2. simpl. rewrite !lookup_insert_Some. intros [[<- <-]|[_ H1]] [[<- <-]|[_ H2]] Hne'; simpl; [done|by apply Hov| |by apply Ha].
      intros Hv. apply (Hov _ _ H1). unfold overlap in *. lia.
    + intros q n1 a1 q' n2 a2. rewrite !lookup_insert_Some. intros [[<- [= <- <-]]|[_ H1]] [[<- [= <- <-]]|[_ H2]] E; [done| | |by eapply Ho].
      * destruct (Hne _ _ _ H2). unfold p in *. lia.
      * destruct (Hne _ _ _ H1). unfold p in *. lia.
    + intros q n' a'. rewrite lookup_insert_Some. intros [[<- [= <- <-]]|[_ Hl]]; [|by eapply Hal]. split; [done|].
      pose proof (align_divides _ Hp2). unfold p. apply Z.divide_add_r; [by etransitivity|done].
  - intros q n' a' x Hl Hx. unfold write. rewrite (proj2 (Z.eqb_neq _ _)); [done|]. intros ->. specialize (Hq _ _ _ Hl).
    pose proof (align_ge a') as [Hv1 _]. unfold overlap, p, WORD in *. lia.
Qed.

(** ** Roc at work *)

(** What Roc and the glue do with memory: allocate, free, resize and write
    inside what they hold, naming the alignment they allocated with. *)
Inductive step : Heap * gmap Z (Z * Z) -> Heap * gmap Z (Z * Z) -> Prop :=
  | a_alloc h live n a p h' : 0 <= n -> power_of_two a = true -> try_alloc n a h = (Some p, h') ->
      step (h, live) (h', <[p := (n, a)]> live)
  | a_dealloc h live p n a h' : live !! p = Some (n, a) -> dealloc p a h = Some h' -> step (h, live) (h', delete p live)
  | a_realloc h live p n a n' p' h' : live !! p = Some (n, a) -> 0 <= n' -> realloc p n' a h = Some (Go (p', h')) ->
      step (h, live) (h', <[p' := (n', a)]> (delete p live))
  | a_write h live p n a x v : live !! p = Some (n, a) -> p <= x < p + n -> step (h, live) (mkHeap (blocks h) (write x v (mem h)), live).

Definition reachable (s : Heap * gmap Z (Z * Z)) : Prop := exists m, rtc step (mkHeap ∅ m, ∅) s.

Lemma checked_add_eq x y z : checked_add x y = Some z -> z = x + y.
Proof. unfold checked_add. case_goal; [congruence|done]. Qed.

Lemma held_alloc h live n a p h' : Held h live -> 0 <= n -> power_of_two a = true -> try_alloc n a h = (Some p, h') ->
  Held h' (<[p := (n, a)]> live) /\ forall q n' a' x, live !! q = Some (n', a') -> q <= x < q + n' -> mem h' x = mem h x.
Proof using Placement0.
  intros Hh Hn Ha. unfold try_alloc. destruct (checked_add n (align_of a)) as [total|] eqn:Et; [|done]. apply checked_add_eq in Et as ->.
  unfold from_size_align. destruct (_ && _); [|done]. unfold sys_alloc. destruct (place _ _) as [b|] eqn:Ep; [|done].
  destruct (placed _ _ _ _ Ep) as (_ & Hd & Hov). intros [= <- <-].
  destruct (held_new h live b n a Hh Hn Ha Hd Hov) as (_ & H1 & H2). split; [exact H1|]. simpl.
  intros q n' a' x Hl Hx. eapply H2; [done|]. unfold WORD. lia.
Qed.

Lemma held_delete h live p n a : Held h live -> live !! p = Some (n, a) ->
  Held (mkHeap (delete (p - align_of a) (blocks h)) (mem h)) (delete p live).
Proof.
  intros [Hb Ha Ho Hal] Hp. split; simpl.
  - intros q n' a'. rewrite lookup_delete_Some. intros [Hne Hl]. destruct (Hb _ _ _ Hl) as (? & ? & Bl & ?).
    split_and!; [done..| |done]. rewrite lookup_delete_ne; [done|]. intros E. by apply Hne, (Ho _ _ _ _ _ _ Hp Hl).
  - intros b l b' l'. rewrite !lookup_delete_Some. intros [_ ?] [_ ?]. by apply Ha.
  - intros q n1 a1 q' n2 a2. rewrite !lookup_delete_Some. intros [_ ?] [_ ?]. by eapply Ho.
  - intros q n1 a1. rewrite !lookup_delete_Some. intros [_ ?]. by eapply Hal.
Qed.

Lemma dealloc_defined h live p n a : Held h live -> live !! p = Some (n, a) ->
  dealloc p a h = Some (mkHeap (delete (p - align_of a) (blocks h)) (mem h)).
Proof.
  intros Hh Hp. destruct (held_block _ _ Hh _ _ _ Hp) as (_ & _ & B & M). unfold dealloc, sys_dealloc. rewrite M.
  by rewrite bool_decide_true.
Qed.

(** Memory of other pointers is as it was. *)
Definition others_kept (live : gmap Z (Z * Z)) (p : Z) (m m' : Z -> Z) : Prop :=
  forall q n a x, live !! q = Some (n, a) -> q <> p -> q - WORD <= x < q + n -> m' x = m x.

Lemma held_mem h live m : Held h live -> (forall p n a, live !! p = Some (n, a) -> m (p - WORD) = mem h (p - WORD)) ->
  Held (mkHeap (blocks h) m) live.
Proof.
  intros [Hb Ha Ho Hal] Hm. split; try done. simpl. intros p n a Hl. rewrite (Hm _ _ _ Hl). by apply Hb.
Qed.

Lemma held_realloc h live p n a n' r : Held h live -> live !! p = Some (n, a) -> 0 <= n' ->
  realloc p n' a h = Some r ->
  r = Exit \/ exists p' h', r = Go (p', h') /\ Held h' (<[p' := (n', a)]> (delete p live)) /\
    (forall i, 0 <= i < Z.min n n' -> mem h' (p' + i) = mem h (p + i)) /\ others_kept live p (mem h) (mem h').
Proof using Placement0.
  intros Hh Hp Hn'. pose proof (held_block _ _ Hh _ _ _ Hp) as (Hn & Ha & B & M). destruct (held_aligned _ _ Hh _ _ _ Hp) as [Hp2 _].
  unfold realloc. destruct (checked_add n' (align_of a)) as [total|] eqn:Et; [|intros [= <-]; by left]. apply checked_add_eq in Et as ->.
  rewrite M. unfold sys_realloc. rewrite bool_decide_true by done. simpl. destruct (_ && _); [|done].
  destruct (place _ _) as [b|] eqn:Ep; [|intros [= <-]; by left]. destruct (placed _ _ _ _ Ep) as (_ & Hd & Hov).
  intros [= <-]. right. eexists _, _. split; [done|].
  pose proof (align_ge a) as [Hw _].
  set (m1 := copy (p - align_of a) b (Z.min (n + align_of a) (n' + align_of a)) (mem h)).
  assert (forall q n1 a1 x, live !! q = Some (n1, a1) -> q <> p -> q - align_of a1 <= x < q + n1 -> m1 x = mem h x) as Hm1.
  { intros q n1 a1 x Hl Hne Hx. unfold m1, copy. destruct ((b <=? x) && _) eqn:E; [|done]. exfalso.
    destruct (held_block _ _ Hh _ _ _ Hl) as (_ & _ & Bq & _).
    apply (Hov (q - align_of a1) (n1 + align_of a1, align_of a1)); [|unfold overlap; simpl; lia].
    rewrite lookup_delete_ne; [done|]. intros E'. by apply Hne, (held_one _ _ Hh _ _ _ _ _ _ Hl Hp). }
  assert (Held (mkHeap (delete (p - align_of a) (blocks h)) m1) (delete p live)) as Hh1.
  { refine (held_mem (mkHeap (delete (p - align_of a) (blocks h)) (mem h)) (delete p live) m1 _ _); [by apply (held_delete _ _ _ n)|]. simpl.
    intros q n1 a1 [Hne Hl]%lookup_delete_Some. destruct (held_block _ _ Hh _ _ _ Hl) as (? & _).
    apply (Hm1 q n1 a1); [done|done|]. pose proof (align_ge a1) as [? _]. unfold WORD in *. lia. }
  destruct (held_new _ _ b n' a Hh1 Hn' Hp2 Hd Hov) as (_ & H1 & H2). split_and!; [exact H1| |].
  - intros i Hi. simpl. unfold write. destruct (Z.eqb_spec (b + align_of a + i) (b + align_of a - WORD)); [unfold WORD in *; lia|]. unfold m1, copy.
    replace ((b <=? b + align_of a + i) && (b + align_of a + i <? b + Z.min (n + align_of a) (n' + align_of a))) with true; [f_equal; lia|].
    symmetry. unfold WORD in *. apply andb_true_iff. split; [apply Z.leb_le|apply Z.ltb_lt]; lia.
  - intros q n1 a1 x Hl Hne Hx. simpl. pose proof (align_ge a1) as [Hw1 _].
    specialize (H2 q n1 a1 x). simpl in H2. rewrite H2; [|by apply lookup_delete_Some|done]. apply (Hm1 q n1 a1); [done|done|]. unfold WORD in *. lia.
Qed.

Lemma held_step s s' : Held s.1 s.2 -> step s s' -> Held s'.1 s'.2.
Proof using Placement0.
  intros Hh Hs. destruct Hs as [h live n a p h' Hn Ha E|h live p n a h' Hp E|h live p n a n' p' h' Hp Hn E|h live p n a x v Hp Hx]; simpl in *.
  - by eapply held_alloc.
  - rewrite (dealloc_defined _ _ _ _ _ Hh Hp) in E. injection E as <-. by eapply held_delete.
  - destruct (held_realloc _ _ _ _ _ _ _ Hh Hp Hn E) as [|(p1 & h1 & [= <- <-] & ? & _)]; done.
  - apply held_mem; [done|]. intros q n' a' Hl. unfold write. rewrite (proj2 (Z.eqb_neq _ _)); [done|]. intros E.
    destruct (held_block _ _ Hh _ _ _ Hl) as (? & _). pose proof (align_ge a') as [? _]. destruct (decide (p = q)) as [->|Hne]; [unfold WORD in *; lia|].
    pose proof (align_ge a) as [? _]. apply (held_disjoint _ _ _ _ _ _ _ _ x (q - WORD) Hh Hp Hl Hne); unfold WORD in *; lia.
Qed.

Lemma reachable_held h live : reachable (h, live) -> Held h live.
Proof using Placement0.
  intros [m H]. assert (Held (h, live).1 (h, live).2) as ?; [|done].
  refine (rtc_invariant step (fun s => Held s.1 s.2) _ _ _ H _); [eauto using held_step|]. by split.
Qed.

(** Memory is handed back the way it was taken: a pointer Roc holds can be
    freed, and resized to any size that is not over [isize::MAX] with its
    header, without undefined behaviour, since the size word before it gives
    the layout the block was allocated with; pointers are aligned as asked for
    and nothing Roc holds overlaps; and resizing keeps the contents, and every
    other pointer's. *)
Theorem alloc_layouts_match h live p n a : reachable (h, live) -> live !! p = Some (n, a) ->
  (exists h', dealloc p a h = Some h') /\ (a | p) /\
  (forall q n' a' x, live !! q = Some (n', a') -> q <> p -> p <= x < p + n -> q <= x < q + n' -> False) /\
  forall n', 0 <= n' -> round_up (n' + align_of a) (align_of a) <= ISIZE_MAX ->
    exists r, realloc p n' a h = Some r /\ forall p' h', r = Go (p', h') ->
      (forall i, 0 <= i < Z.min n n' -> mem h' (p' + i) = mem h (p + i)) /\ others_kept live p (mem h) (mem h').
Proof using Placement0.
  intros Hh%reachable_held Hp. pose proof (held_block _ _ Hh _ _ _ Hp) as (Hn & Ha & B & M). pose proof (align_ge a) as [Hw _]. split_and!.
  - eexists. by eapply dealloc_defined.
  - by eapply held_aligned.
  - intros q n' a' x Hq Hne H1 H2. pose proof (align_ge a') as [Hw' _].
    by apply (held_disjoint _ _ _ _ _ _ _ _ x x Hh Hp Hq (not_eq_sym Hne)); unfold WORD in *; try lia.
  - intros n' Hn' Hr. destruct (realloc p n' a h) as [r|] eqn:E.
    + exists r. split; [done|]. intros p' h' ->. by destruct (held_realloc _ _ _ _ _ _ _ Hh Hp Hn' E) as [|(p1 & h1 & [= <- <-] & _ & ? & ?)].
    + exfalso. unfold realloc in E. destruct (checked_add n' (align_of a)) as [total|] eqn:Et; [|done]. apply checked_add_eq in Et as ->.
      rewrite M in E. unfold sys_realloc in E. rewrite bool_decide_true in E by done. simpl in E.
      rewrite (proj2 (Z.ltb_lt _ _)), (proj2 (Z.leb_le _ _)) in E by (unfold WORD in *; lia). simpl in E. by destruct (place _ _).
Qed.

(** A list of random bytes: its elements and count lie in memory of its own,
    it is counted once, and its capacity word is twice its length, no bit of
    which is lost. *)
Theorem random_list_laid_out h live count l h' : reachable (h, live) -> 0 < count <= USIZE_MAX -> try_alloc_bytes count h = (Some l, h') ->
  let p := elements l - WORD in
  Held h' (<[p := (count + WORD, WORD)]> live) /\ mem h' p = 1 /\ length l = count /\ capacity_or_alloc_ptr l = 2 * count.
Proof using Placement0.
  intros Hh%reachable_held Hc. unfold try_alloc_bytes. destruct (Z.eqb_spec count 0); [lia|].
  destruct (checked_add count WORD) as [size|] eqn:Es; [|done]. apply checked_add_eq in Es as ->.
  destruct (try_alloc (count + WORD) WORD h) as [[base|] h1] eqn:Et; [|done]. intros [= <- <-]. cbn zeta. cbn [elements length capacity_or_alloc_ptr].
  replace (base + WORD - WORD) with base by lia.
  assert (0 <= count + WORD) as Hcw by (unfold WORD; lia).
  pose proof (held_alloc _ _ _ _ _ _ Hh Hcw (eq_refl : power_of_two WORD = true) Et) as [Hh1 _].
  split_and!; [| |done|].
  - apply held_mem; [done|]. intros q n1 a Hl. unfold write. destruct (Z.eqb_spec (q - WORD) base) as [E|]; [|done]. exfalso.
    destruct (held_block _ _ Hh1 _ _ _ Hl) as (Hn & _). pose proof (align_ge a) as [Hw _].
    destruct (decide (q = base)) as [->|Hne]; [unfold WORD in *; lia|].
    apply (held_disjoint h1 _ base (count + WORD) WORD q n1 a base (q - WORD) Hh1); [by rewrite lookup_insert_eq|done|done| | |done];
      unfold WORD, align_of in *; lia.
  - simpl. unfold write. by rewrite Z.eqb_refl.
  - unfold u64_shl, wrap. rewrite Z.shiftl_mul_pow2 by lia. rewrite Z.mod_small; [lia|]. split; [lia|].
    unfold try_alloc in Et. destruct (checked_add (count + WORD) (align_of WORD)) as [total|] eqn:Ec; [|done]. apply checked_add_eq in Ec as ->.
    unfold from_size_align in Et. destruct (_ && (round_up _ _ <=? ISIZE_MAX)) eqn:Er; [|done]. apply andb_true_iff in Er as [_ Er%Z.leb_le].
    unfold round_up, align_of, WORD, ISIZE_MAX in Er. change (Z.max 8 8) with 8 in Er. change (2 ^ 1) with 2. change (2 ^ 64) with 18446744073709551616.
    Z.to_euclidean_division_equations. lia.
Qed.

(** [realloc] does not check what [try_alloc] does: a new length that fits
    a [usize] with the header but not [isize::MAX] is passed on to the system
    allocator, whose contract leaves that undefined. *)
Theorem realloc_unchecked h live p n a : reachable (h, live) -> live !! p = Some (n, a) -> align_of a = WORD ->
  try_alloc ISIZE_MAX a h = (None, h) /\ realloc p ISIZE_MAX a h = None.
Proof using Placement0.
  intros Hh%reachable_held Hp Ea. pose proof (held_block _ _ Hh _ _ _ Hp) as (Hn & Ha & B & M).
  unfold try_alloc, realloc. rewrite M, Ea in *.
  split.
  - reflexivity.
  - unfold sys_realloc. rewrite bool_decide_true by done. reflexivity.
Qed.

End Alloc.
(** ** A system allocator that puts blocks after all the others *)

Module Toy.

Definition top (bs : gmap Z Layout) : Z := foldr (fun x acc => Z.max acc (x.1 + x.2.1)) 1 (map_to_list bs).
Definition place (bs : gmap Z Layout) (l : Layout) : option Z := if 0 <? l.2 then Some (round_up (top bs) l.2) else None.

Lemma top_above bs b l : bs !! b = Some l -> b + l.1 <= top bs.
Proof.
  rewrite <- elem_of_map_to_list. unfold top. generalize (map_to_list bs). intros xs. induction xs as [|x xs IH]; [by intros ?%elem_of_nil|].
  intros [<-|H]%elem_of_cons; simpl; [lia|]. specialize (IH H). lia.
Qed.

Lemma top_pos bs : 1 <= top bs.
Proof. unfold top. generalize (map_to_list bs). intros xs. induction xs as [|x xs IH]; simpl; lia. Qed.

#[global] Instance toy_placement : Placement place.
Proof.
  split. intros bs size align b. unfold place. simpl. destruct (Z.ltb_spec 0 align); [|done]. intros [= <-].
  pose proof (top_pos bs) as Ht. assert (top bs <= round_up (top bs) align) as Hr.
  { unfold round_up. pose proof (Z.div_mod (top bs + align - 1) align ltac:(lia)). pose proof (Z.mod_pos_bound (top bs + align - 1) align). lia. }
  split_and!; [lia|unfold round_up; by eexists|]. intros b' l Hl Hv. apply top_above in Hl. unfold overlap in Hv. lia.
Qed.

Definition start : Heap := mkHeap ∅ (fun _ => 0).
Definition one : Heap := (try_alloc place 16 8 start).2.

End Toy.

Lemma toy_reachable : reachable Toy.place (Toy.one, {[16 := (16, 8)]}).
Proof.
  exists (fun _ => 0). eapply rtc_l; [|apply rtc_refl]. rewrite <- (insert_empty (M := gmap Z)).
  apply a_alloc; [lia|reflexivity|]. unfold Toy.one. vm_compute. reflexivity.
Qed.

Lemma alloc_layouts_match_witness : (exists h', dealloc 16 8 Toy.one = Some h') /\ (8 | 16).
Proof.
  destruct (alloc_layouts_match Toy.place Toy.one {[16 := (16, 8)]} 16 16 8 toy_reachable) as (H1 & H2 & _); [reflexivity|].
  split; [exact H1|exact H2].
Defined.

Lemma realloc_unchecked_witness : try_alloc Toy.place ISIZE_MAX 8 Toy.one = (None, Toy.one) /\ realloc Toy.place 16 ISIZE_MAX 8 Toy.one = None.
Proof. exact (realloc_unchecked Toy.place Toy.one {[16 := (16, 8)]} 16 16 8 toy_reachable eq_refl eq_refl). Defined.

End Alloc.
