(* ===== verification/Start.v ===== *)
(** * The memory entry points ([src/lib.rs])

    Every deallocation, of a Roc value or of a handle to something of the
    host's, goes through [host_dealloc], which finds out whose the pointer is.
    The program's last reference to a socket gets there too, and closes it.
    [__clear_cache] is the host's own on AArch64 Linux. *)
From S2P Require Import Prelude TaskProto Waiters Sema SchedLock Resource Alloc Limits RocMem RocValues.
Local Open Scope Z_scope.

Module Start.

(** ** Whose a pointer is *)

Section Dealloc.
Context {S C K : Type}.
(** Where each heap's slots are, and how big one is. *)
Variables (sockets_at channels_at tasks_at : Z * Z).

(** The three heaps, once they exist, and the memory of [src/alloc.rs]. *)
Record Host := mkHost { sockets : option (Heap S); channels : option (Heap C); tasks : option (Heap K); memory : Alloc.Heap }.

(** [sockets::release], [channels::release] and [tasks::release]: what was
    found at the pointer if it is the heap's, and [None] for [false]. *)
Definition heap_release {T} (at_ : Z * Z) (heap : option (Heap T)) (ptr : Z) : option (Released T * option (Heap T)) :=
  match heap with
  | None => None
  | Some h => match release at_.1 at_.2 ptr h with (NotOurs, _) => None | (r, h') => Some (r, Some h') end
  end.

(** Where a deallocation went. *)
Inductive Route := ToSockets (r : Released S) | ToChannels (r : Released C) | ToTasks (r : Released K) | ToMemory.

(** [host_dealloc]; [None] is undefined behaviour in the allocator. *)
Definition host_dealloc (ptr alignment : Z) (host : Host) : option (Route * Host) :=
  match heap_release sockets_at (sockets host) ptr with
  | Some (r, heap) => Some (ToSockets r, mkHost heap (channels host) (tasks host) (memory host))
  | None =>
      match heap_release channels_at (channels host) ptr with
      | Some (r, heap) => Some (ToChannels r, mkHost (sockets host) heap (tasks host) (memory host))
      | None =>
          match heap_release tasks_at (tasks host) ptr with
          | Some (r, heap) => Some (ToTasks r, mkHost (sockets host) (channels host) heap (memory host))
          | None => memory' ← Alloc.dealloc ptr alignment (memory host); Some (ToMemory, mkHost (sockets host) (channels host) (tasks host) memory')
          end
      end
  end.

(** ** The heaps and the program's memory are apart *)

Definition span {T} (at_ : Z * Z) (heap : option (Heap T)) : Z * Z :=
  match heap with Some h => (at_.1, at_.1 + Z.of_nat (length (slots h)) * at_.2) | None => (0, 0) end.

Definition separate (x y : Z * Z) : Prop := x.2 <= y.1 \/ y.2 <= x.1 \/ x.2 <= x.1 \/ y.2 <= y.1.

(** As the allocator places them: no two of the three arrays of slots overlap,
    and none overlaps what Roc holds. *)
Record Placed (host : Host) (live : gmap Z (Z * Z)) : Prop := {
  p_strides : 0 < sockets_at.2 /\ 0 < channels_at.2 /\ 0 < tasks_at.2;
  p_sc : separate (span sockets_at (sockets host)) (span channels_at (channels host));
  p_st : separate (span sockets_at (sockets host)) (span tasks_at (tasks host));
  p_ct : separate (span channels_at (channels host)) (span tasks_at (tasks host));
  p_live : forall p n a, live !! p = Some (n, a) -> 0 < n ->
    separate (p, p + n) (span sockets_at (sockets host)) /\ separate (p, p + n) (span channels_at (channels host)) /\ separate (p, p + n) (span tasks_at (tasks host));
}.

(** An address outside the slots is none of the heap's business. *)
Lemma release_outside {T} (at_ : Z * Z) (heap : option (Heap T)) ptr : 0 < at_.2 -> ~ ((span at_ heap).1 <= ptr < (span at_ heap).2) -> heap_release at_ heap ptr = None.
Proof.
  intros Hs Ho. destruct heap as [h|]; [|done]. cbn [heap_release span fst snd] in *. unfold release.
  assert (base_index at_.1 at_.2 h ptr = None) as ->.
  { unfold base_index, checked_sub. destruct (Z.leb_spec at_.1 ptr) as [Hl|Hl]; [|done]. cbn [mbind option_bind]. destruct (_ && _) eqn:E; [|done]. exfalso.
    apply andb_true_iff in E as [Em%Z.eqb_eq El%Z.ltb_lt]. apply Ho. split; [lia|]. pose proof (Z.div_mod (ptr - at_.1) at_.2 ltac:(lia)). nia. }
  unfold contains. destruct (_ && _) eqn:E; [|done]. apply andb_true_iff in E as [?%Z.leb_le ?%Z.ltb_lt]. lia.
Qed.

Lemma base_of_slot {T} (at_ : Z * Z) (h : Heap T) i : 0 < at_.2 -> (i < length (slots h))%nat -> base_index at_.1 at_.2 h (at_.1 + Z.of_nat i * at_.2) = Some i.
Proof.
  intros Hs Hi. unfold base_index, checked_sub. rewrite (proj2 (Z.leb_le _ _)) by nia. cbn [mbind option_bind]. replace (at_.1 + Z.of_nat i * at_.2 - at_.1) with (Z.of_nat i * at_.2) by lia.
  rewrite Z.mod_mul, Z.div_mul by lia. cbn [Z.eqb andb]. rewrite (proj2 (Z.ltb_lt _ _)) by lia. by rewrite Nat2Z.id.
Qed.

(** The base of a slot in use. *)
Lemma release_slot {T} (at_ : Z * Z) (h : Heap T) i : 0 < at_.2 -> (i < length (slots h))%nat -> live h !! i = Some true ->
  exists r h', heap_release at_ (Some h) (at_.1 + Z.of_nat i * at_.2) = Some (Closing i r, Some h') /\ (s ← slots h !! i; resource s) = r /\ live h' = <[i := false]> (live h).
Proof.
  intros Hs Hi Hl. cbn [heap_release]. unfold release.
  rewrite (base_of_slot at_ h i Hs Hi), Hl. cbn [default from_option]. eexists _, _. split_and!; [done|done|done].
Qed.

Lemma slot_in_span {T} (at_ : Z * Z) (h : Heap T) i : 0 < at_.2 -> (i < length (slots h))%nat ->
  (span at_ (Some h)).1 <= at_.1 + Z.of_nat i * at_.2 < (span at_ (Some h)).2.
Proof. intros Hs Hi. cbn [span fst snd]. nia. Qed.

(** ** A socket's handle

    [decref_box_with] on a handle: the slot is laid out as a box of a [u64]
    with its count in front, so the word before the payload is the slot's
    count and the base it frees is the slot. *)
Definition set_count (h : Heap S) (i : nat) (s : Slot S) (n : Z) : Heap S :=
  mkHeap (<[i := mkSlot n (token s) (resource s)]> (slots h)) (free h) (generations h) (live h) (waiters h).

Definition socket_decref (handle : Z) (host : Host) : option (option Route * Host) :=
  h ← sockets host;
  i ← payload_index sockets_at.1 sockets_at.2 h handle;
  s ← slots h !! i;
  if refcount s =? 0 then Some (None, host)
  else
    let host := mkHost (Some (set_count h i s (refcount s - 1))) (channels host) (tasks host) (memory host) in
    if refcount s =? 1 then '(r, host) ← host_dealloc (handle - RocValues.box_header 8 false) 8 host; Some (Some r, host)
    else Some (None, host).

(** ** What is guaranteed *)

Variable place : gmap Z (Z * Z) -> Z * Z -> option Z.
Context `{!Alloc.Placement place}.

Lemma separate_outside x y ptr : separate x y -> x.1 <= ptr < x.2 -> ~ (y.1 <= ptr < y.2).
Proof. unfold separate. lia. Qed.

Lemma separate_comm x y : separate x y -> separate y x.
Proof. unfold separate. lia. Qed.

(** Every deallocation reaches its owner, and only that: memory Roc holds
    goes back to the allocator, which can take it; the base of a slot in use
    closes the resource in that slot, and nothing else changes, whichever of
    the three heaps it is in. *)
Theorem dealloc_routed host held : Placed host held -> Alloc.reachable place (memory host, held) ->
  (forall p n a, held !! p = Some (n, a) -> 0 < n ->
     exists mem', Alloc.dealloc p a (memory host) = Some mem' /\ host_dealloc p a host = Some (ToMemory, mkHost (sockets host) (channels host) (tasks host) mem')) /\
  (forall h i a, sockets host = Some h -> (i < length (slots h))%nat -> live h !! i = Some true ->
     exists h', host_dealloc (sockets_at.1 + Z.of_nat i * sockets_at.2) a host =
       Some (ToSockets (Closing i (s ← slots h !! i; resource s)), mkHost (Some h') (channels host) (tasks host) (memory host)) /\ live h' = <[i := false]> (live h)) /\
  (forall h i a, channels host = Some h -> (i < length (slots h))%nat -> live h !! i = Some true ->
     exists h', host_dealloc (channels_at.1 + Z.of_nat i * channels_at.2) a host =
       Some (ToChannels (Closing i (s ← slots h !! i; resource s)), mkHost (sockets host) (Some h') (tasks host) (memory host)) /\ live h' = <[i := false]> (live h)) /\
  (forall h i a, tasks host = Some h -> (i < length (slots h))%nat -> live h !! i = Some true ->
     exists h', host_dealloc (tasks_at.1 + Z.of_nat i * tasks_at.2) a host =
       Some (ToTasks (Closing i (s ← slots h !! i; resource s)), mkHost (sockets host) (channels host) (Some h') (memory host)) /\ live h' = <[i := false]> (live h)).
Proof.
  intros [(Hs1 & Hs2 & Hs3) Hsc Hst Hct Hlive] Hm. unfold host_dealloc. split_and!.
  - intros p n a Hp Hn. destruct (Hlive _ _ _ Hp Hn) as (H1 & H2 & H3).
    pose proof (Alloc.dealloc_defined (memory host) held p n a ltac:(by eapply Alloc.reachable_held) Hp) as Ed. eexists. split; [exact Ed|].
    rewrite (release_outside sockets_at _ _ Hs1 (separate_outside _ _ p H1 ltac:(cbn; lia))), (release_outside channels_at _ _ Hs2 (separate_outside _ _ p H2 ltac:(cbn; lia))),
      (release_outside tasks_at _ _ Hs3 (separate_outside _ _ p H3 ltac:(cbn; lia))). by rewrite Ed.
  - intros h i a Eh Hi Hl. rewrite Eh. destruct (release_slot sockets_at h i Hs1 Hi Hl) as (r & h' & -> & <- & El). by exists h'.
  - intros h i a Eh Hi Hl. rewrite Eh in *. pose proof (slot_in_span channels_at h i Hs2 Hi) as Hsp.
    rewrite (release_outside sockets_at _ _ Hs1 (separate_outside _ _ _ (separate_comm _ _ Hsc) Hsp)).
    destruct (release_slot channels_at h i Hs2 Hi Hl) as (r & h' & -> & <- & El). by exists h'.
  - intros h i a Eh Hi Hl. rewrite Eh in *. pose proof (slot_in_span tasks_at h i Hs3 Hi) as Hsp.
    rewrite (release_outside sockets_at _ _ Hs1 (separate_outside _ _ _ (separate_comm _ _ Hst) Hsp)), (release_outside channels_at _ _ Hs2 (separate_outside _ _ _ (separate_comm _ _ Hct) Hsp)).
    destruct (release_slot tasks_at h i Hs3 Hi Hl) as (r & h' & -> & <- & El). by exists h'.
Qed.

(** Handles to one slot released one after the other, and where the
    deallocations among them went. *)
Fixpoint release_handles (n : nat) (handle : Z) (host : Host) : option (list Route * Host) :=
  match n with
  | O => Some ([], host)
  | Datatypes.S n => '(r, host) ← socket_decref handle host; '(rs, host) ← release_handles n handle host; Some (option_list r ++ rs, host)
  end.

Definition handle_of (i : nat) : Z := sockets_at.1 + Z.of_nat i * sockets_at.2 + TOKEN_OFFSET.

Lemma payload_of (h : Heap S) i : 0 <= sockets_at.1 -> 0 < sockets_at.2 -> (i < length (slots h))%nat -> payload_index sockets_at.1 sockets_at.2 h (handle_of i) = Some i.
Proof.
  intros H0 Hs Hi. unfold payload_index, handle_of, checked_sub, TOKEN_OFFSET. rewrite (proj2 (Z.leb_le _ _)) by nia. cbn [mbind option_bind].
  replace (_ + 8 - 8) with (sockets_at.1 + Z.of_nat i * sockets_at.2) by lia. by apply base_of_slot.
Qed.

(** C27: A socket is closed by the last reference to it: of as many handles as
    the slot's count says, none but the last closes the socket, and the last
    one closes the one it referred to; nothing goes to the allocator. *)
Theorem socket_closed_by_last n host h i s : 0 <= sockets_at.1 -> 0 < sockets_at.2 ->
  sockets host = Some h -> slots h !! i = Some s -> live h !! i = Some true -> refcount s = Z.of_nat (Datatypes.S n) ->
  (exists host' h' s', release_handles n (handle_of i) host = Some ([], host') /\ sockets host' = Some h' /\ live h' = live h /\
     slots h' !! i = Some s' /\ refcount s' = 1 /\ resource s' = resource s) /\
  exists host', release_handles (Datatypes.S n) (handle_of i) host = Some ([ToSockets (Closing i (resource s))], host').
Proof.
  intros H0 Hs. revert host h s. induction n as [|n IH]; intros host h s Eh Hi Hl Hc.
  - split; [by exists host, h, s|]. pose proof (lookup_lt_Some _ _ _ Hi) as Hlt. cbn [release_handles]. unfold socket_decref. rewrite Eh. cbn [mbind option_bind].
    rewrite (payload_of h i H0 Hs Hlt). cbn [mbind option_bind]. rewrite Hi. cbn [mbind option_bind]. rewrite Hc. cbn [Z.of_nat Pos.of_succ_nat Z.eqb Pos.eqb Z.sub].
    set (h1 := set_count _ _ _ _). assert (slots h1 !! i = Some (mkSlot 0 (token s) (resource s))) as Hi1 by (by apply list_lookup_insert_eq).
    destruct (release_slot sockets_at h1 i Hs ltac:(cbn [h1 set_count slots]; by rewrite length_insert) Hl) as (r & h' & Er & Hr & _).
    unfold host_dealloc. cbn [sockets]. replace (handle_of i - RocValues.box_header 8 false) with (sockets_at.1 + Z.of_nat i * sockets_at.2) by (change (RocValues.box_header 8 false) with 8; unfold handle_of, TOKEN_OFFSET; lia).
    rewrite Er. cbn [mbind option_bind app option_list]. rewrite Hi1 in Hr. cbn in Hr. rewrite <- Hr. by eexists.
  - pose proof (lookup_lt_Some _ _ _ Hi) as Hlt. set (h1 := set_count h i s (Z.of_nat (Datatypes.S n))).
    assert (socket_decref (handle_of i) host = Some (None, mkHost (Some h1) (channels host) (tasks host) (memory host))) as Ed.
    { unfold socket_decref. rewrite Eh. cbn [mbind option_bind]. rewrite (payload_of h i H0 Hs Hlt). cbn [mbind option_bind]. rewrite Hi. cbn [mbind option_bind].
      rewrite (proj2 (Z.eqb_neq _ 0)), (proj2 (Z.eqb_neq _ 1)) by lia. unfold h1. do 4 f_equal. f_equal. lia. }
    destruct (IH (mkHost (Some h1) (channels host) (tasks host) (memory host)) h1 (mkSlot (Z.of_nat (Datatypes.S n)) (token s) (resource s)) eq_refl
      ltac:(by apply list_lookup_insert_eq) Hl eq_refl) as [(host' & h' & s' & E1 & ?) (host2 & E2)].
    split.
    + exists host', h', s'. split; [|done]. change (release_handles (Datatypes.S n) (handle_of i) host) with ('(r, host) ← socket_decref (handle_of i) host; '(rs, host) ← release_handles n (handle_of i) host; Some (option_list r ++ rs, host)).
      rewrite Ed. cbn [mbind option_bind]. by rewrite E1.
    + exists host2. change (release_handles (Datatypes.S (Datatypes.S n)) (handle_of i) host) with ('(r, host) ← socket_decref (handle_of i) host; '(rs, host) ← release_handles (Datatypes.S n) (handle_of i) host; Some (option_list r ++ rs, host)).
      rewrite Ed. cbn [mbind option_bind]. by rewrite E2.
Qed.

End Dealloc.
(** A host with one socket, held twice, and sixteen bytes of the program's. *)
Definition demo_heap : Heap nat := mkHeap [mkSlot 2 (2 ^ 16) (Some 7%nat)] [] [1] [true] Waiters_new.
Definition demo_host : Host (S := nat) (C := nat) (K := nat) := mkHost (Some demo_heap) None None Alloc.Toy.one.

Lemma dealloc_routed_witness :
  (exists mem', host_dealloc (4096, 32) (8192, 32) (16384, 32) 16 8 demo_host = Some (ToMemory, mkHost (Some demo_heap) None None mem')) /\
  exists h', host_dealloc (4096, 32) (8192, 32) (16384, 32) 4096 8 demo_host = Some (ToSockets (Closing 0 (Some 7%nat)), mkHost (Some h') None None Alloc.Toy.one).
Proof.
  assert (Placed (4096, 32) (8192, 32) (16384, 32) demo_host {[16 := (16, 8)]}) as Hp.
  { split; cbn; unfold separate; cbn; try lia. intros p n a [<- [= <- <-]]%lookup_singleton_Some _. cbn. lia. }
  destruct (dealloc_routed _ _ _ Alloc.Toy.place demo_host {[16 := (16, 8)]} Hp Alloc.toy_reachable) as (H1 & H2 & _). split.
  - destruct (H1 16 16 8 eq_refl ltac:(lia)) as (mem' & _ & E). exists mem'. exact E.
  - destruct (H2 demo_heap 0%nat 8 eq_refl ltac:(cbn; lia) eq_refl) as (h' & E & _). exists h'. exact E.
Defined.

Lemma socket_closed_by_last_witness :
  exists host', release_handles (4096, 32) (8192, 32) (16384, 32) 2 4104 demo_host = Some ([ToSockets (Closing 0 (Some 7%nat))], host').
Proof.
  exact (proj2 (socket_closed_by_last (4096, 32) (8192, 32) (16384, 32) 1 demo_host demo_heap 0 (mkSlot 2 (2 ^ 16) (Some 7%nat)) ltac:(cbn; lia) ltac:(cbn; lia) eq_refl eq_refl eq_refl eq_refl)).
Defined.

(** ** Code the program makes at run time: [__clear_cache] on AArch64 Linux *)

(** The instructions it executes. *)
Inductive Op := DcCvau (address : Z) | IcIvau (address : Z) | DsbIsh | Isb.

(** [while address < end { ..; address += size }]; [None]: out of fuel. *)
Fixpoint lines (fuel : nat) (address end_ size : Z) : option (list Z) :=
  if address <? end_ then
    match fuel with
    | O => None
    | Datatypes.S fuel => rest ← lines fuel (wrap 64 (address + size)) end_ size; Some (address :: rest)
    end
  else Some [].

Definition line_size (cache_type shift : Z) : Z := Z.shiftl 4 (Z.land (Z.shiftr cache_type shift) 15).

(** Each loop, from the start of the line [begin] is in; skipped if the bit
    says the caches keep themselves coherent. *)
Definition clear_loop (fuel : nat) (cache_type bit shift begin end_ : Z) : option (list Z) :=
  if Z.land cache_type (Z.shiftl 1 bit) =? 0 then lines fuel (Z.ldiff begin (line_size cache_type shift - 1)) end_ (line_size cache_type shift) else Some [].

Definition clear_cache (fuel : nat) (cache_type begin end_ : Z) : option (list Op) :=
  data ← clear_loop fuel cache_type 28 16 begin end_;
  code ← clear_loop fuel cache_type 29 0 begin end_;
  Some (map DcCvau data ++ [DsbIsh] ++ map IcIvau code ++ [DsbIsh; Isb]).

Lemma line_size_power cache_type shift : exists k, 0 <= k < 16 /\ line_size cache_type shift = 2 ^ (k + 2).
Proof.
  unfold line_size. change 15 with (Z.ones 4). rewrite Z.land_ones by lia. set (k := _ mod 2 ^ 4). assert (0 <= k < 2 ^ 4) by (apply Z.mod_pos_bound; lia).
  exists k. split; [lia|]. rewrite Z.shiftl_mul_pow2, Z.pow_add_r by lia. lia.
Qed.

Lemma line_start x k : 0 <= k -> 0 <= x -> let n := 2 ^ k in Z.ldiff x (n - 1) = x / n * n.
Proof.
  intros Hk Hx n. unfold n. replace (2 ^ k - 1) with (Z.ones k) by (rewrite Z.ones_equiv; lia). rewrite Z.ldiff_ones_r by lia.
  by rewrite Z.shiftl_mul_pow2, Z.shiftr_div_pow2 by lia.
Qed.

Lemma lines_cover fuel address end_ size : 0 < size -> 0 <= address -> end_ + size <= 2 ^ 64 -> end_ - address <= Z.of_nat fuel * size ->
  exists l, lines fuel address end_ size = Some l /\ (forall x, address <= x < end_ -> exists a, a ∈ l /\ a <= x < a + size) /\
    forall a, a ∈ l -> address <= a < end_ /\ (size | a - address).
Proof.
  intros Hs. revert address. induction fuel as [|fuel IH]; intros address Ha He Hf; cbn [lines]; destruct (Z.ltb_spec address end_) as [Hl|Hl].
  - lia.
  - exists []. split_and!; [done|lia|by intros a ?%elem_of_nil].
  - assert (wrap 64 (address + size) = address + size) as -> by (apply RocMem.wrap_small; lia).
    destruct (IH (address + size) ltac:(lia) He ltac:(lia)) as (l & -> & Hc & Hi). exists (address :: l). split_and!; [done| |].
    + intros x Hx. destruct (Z.lt_ge_cases x (address + size)); [exists address; split; [by apply elem_of_cons; left|lia]|].
      destruct (Hc x ltac:(lia)) as (a & Hin & ?). exists a. split; [by apply elem_of_cons; right|done].
    + intros a [->|Hin]%elem_of_cons; [split; [lia|exists 0; lia]|]. destruct (Hi a Hin) as [? [k Hk]]. split; [lia|]. exists (k + 1). lia.
  - exists []. split_and!; [done|lia|by intros a ?%elem_of_nil].
Qed.

(** Clearing the caches ends, and covers the code: with a step for every
    four bytes and one to spare, every byte of the range is in a line that was
    cleaned (unless the caches are coherent), and every line starts at a
    multiple of the line size and no later than the range ends; the cleaning
    of the data cache comes before the invalidation of the other. *)
Theorem clear_cache_covers cache_type begin end_ : 0 <= begin <= end_ -> end_ + 2 ^ 17 <= 2 ^ 64 ->
  exists data code, clear_cache (Z.to_nat ((end_ - begin) / 4 + 2)) cache_type begin end_ = Some (map DcCvau data ++ [DsbIsh] ++ map IcIvau code ++ [DsbIsh; Isb]) /\
    (Z.land cache_type (Z.shiftl 1 28) = 0 -> forall x, begin <= x < end_ -> exists a, a ∈ data /\ a <= x < a + line_size cache_type 16) /\
    (Z.land cache_type (Z.shiftl 1 29) = 0 -> forall x, begin <= x < end_ -> exists a, a ∈ code /\ a <= x < a + line_size cache_type 0) /\
    (forall a, a ∈ data -> a < end_ /\ (line_size cache_type 16 | a)) /\ (forall a, a ∈ code -> a < end_ /\ (line_size cache_type 0 | a)).
Proof.
  intros Hb He.
  assert (forall bit shift, exists l, clear_loop (Z.to_nat ((end_ - begin) / 4 + 2)) cache_type bit shift begin end_ = Some l /\
    (Z.land cache_type (Z.shiftl 1 bit) = 0 -> forall x, begin <= x < end_ -> exists a, a ∈ l /\ a <= x < a + line_size cache_type shift) /\
    forall a, a ∈ l -> a < end_ /\ (line_size cache_type shift | a)) as Hloop.
  { intros bit shift. unfold clear_loop. destruct (Z.eqb_spec (Z.land cache_type (Z.shiftl 1 bit)) 0) as [E|E]; [|exists []; split_and!; [done|done|by intros a ?%elem_of_nil]].
    destruct (line_size_power cache_type shift) as (k & Hk & Es). rewrite Es, line_start by lia. set (n := 2 ^ (k + 2)).
    assert (4 <= n <= 2 ^ 17) as Hn by (unfold n; split; [change 4 with (2 ^ 2)|]; apply Z.pow_le_mono_r; lia).
    pose proof (Z.div_mod begin n ltac:(lia)). pose proof (Z.mod_pos_bound begin n ltac:(lia)). pose proof (Z.div_mod (end_ - begin) 4 ltac:(lia)). pose proof (Z.mod_pos_bound (end_ - begin) 4 ltac:(lia)).
    assert (0 <= begin / n * n) by (pose proof (Z.div_pos begin n ltac:(lia) ltac:(lia)); nia).
    destruct (lines_cover (Z.to_nat ((end_ - begin) / 4 + 2)) (begin / n * n) end_ n) as (l & -> & Hc & Hi); [lia|lia|lia|rewrite Z2Nat.id by lia; nia|].
    exists l. split_and!; [done|intros _ x Hx; apply Hc; lia|]. intros a Ha. destruct (Hi a Ha) as [? Hd]. split; [lia|].
    replace a with ((a - begin / n * n) + begin / n * n) by lia. apply Z.divide_add_r; [done|by exists (begin / n)]. }
  destruct (Hloop 28 16) as (data & E1 & Hc1 & Hi1). destruct (Hloop 29 0) as (code & E2 & Hc2 & Hi2). exists data, code.
  unfold clear_cache. rewrite E1, E2. by split_and!.
Qed.

(** Lines of 64 bytes for data and for code. *)
Lemma clear_cache_covers_witness : exists data code, clear_cache 27 (4 * 2 ^ 16 + 4) 1000 1100 = Some (map DcCvau data ++ [DsbIsh] ++ map IcIvau code ++ [DsbIsh; Isb]) /\ exists a, a ∈ data /\ a <= 1099 < a + 64.
Proof.
  destruct (clear_cache_covers (4 * 2 ^ 16 + 4) 1000 1100 ltac:(lia) ltac:(lia)) as (data & code & E & H & _). exists data, code. split; [exact E|]. exact (H eq_refl 1099 ltac:(lia)).
Defined.

End Start.
