(* ===== verification/HostContext.v ===== *)
(** * The host's context and its start ([src/roc_platform_abi.rs], [src/lib.rs], [src/main.rs])

    Memory is asked for in three ways: compiled Roc code calls the symbols
    [roc_alloc], [roc_dealloc] and [roc_realloc]; the glue's helpers go
    through the [RocHost] they are given; and an owned value of the glue's
    makes its own [RocHost] of the symbols.  Here is the context they go
    through, with the glue's default allocator and handlers, and how the
    program starts. *)
From S2P Require Import Prelude Waiters Resource Alloc LogFormat Start.
From Stdlib Require Import String.
Local Open Scope string_scope.
Local Open Scope list_scope.
Local Open Scope Z_scope.

Module HostContext.
Import LogFormat.

Section Host.
Context {S C K : Type}.
Variables (sockets_at channels_at tasks_at : Z * Z).
Variable place : gmap Z Alloc.Layout -> Alloc.Layout -> option Z.

(** ** Effects *)

(** The heaps and the memory, and the lines written to standard error. *)
Record World := mkWorld { heaps : Start.Host (S := S) (C := C) (K := K); stderr : list str }.

(** A call returns, ends the process with a status, aborts it (a panic in an
    [extern "C"] function), or is undefined. *)
Inductive Result (A : Type) :=
  | Undefined
  | Aborts
  | Exits (status : Z) (w : World)
  | Returns (a : A) (w : World).
#[global] Arguments Undefined {A}.
#[global] Arguments Aborts {A}.
#[global] Arguments Exits {A}.
#[global] Arguments Returns {A}.

Definition Op (A : Type) : Type := World -> Result A.
#[global] Instance Op_ret : MRet Op := fun A a w => Returns a w.
#[global] Instance Op_bind : MBind Op := fun A B f x w =>
  match x w with Undefined => Undefined | Aborts => Aborts | Exits n w => Exits n w | Returns a w => f a w end.

Definition eprintln (line : str) : Op unit := fun w => Returns tt (mkWorld (heaps w) (stderr w ++ [line])).
Definition exit {A} (status : Z) : Op A := fun w => Exits status w.
Definition undefined {A} : Op A := fun _ => Undefined.
Definition panic {A} : Op A := fun _ => Aborts.

Definition memory : Op Alloc.Heap := fun w => Returns (Start.memory (heaps w)) w.
Definition set_memory (h : Alloc.Heap) : Op unit := fun w =>
  Returns tt (mkWorld (Start.mkHost (Start.sockets (heaps w)) (Start.channels (heaps w)) (Start.tasks (heaps w)) h) (stderr w)).

(** ** The context *)

Record RocHost := mkRocHost {
  env : Z;
  roc_alloc : Z -> Z -> Op Z;
  roc_dealloc : Z -> Z -> Op unit;
  roc_realloc : Z -> Z -> Z -> Op Z;
  roc_dbg : str -> Op unit;
  roc_expect_failed : str -> Op unit;
  roc_crashed : str -> Op unit
}.

(** [RocHost::alloc], [dealloc] and [realloc]: the alignment comes first. *)
Definition host_alloc (self : RocHost) (alignment length : Z) : Op Z := roc_alloc self length alignment.
Definition host_dealloc_ (self : RocHost) (ptr alignment : Z) : Op unit := roc_dealloc self ptr alignment.
Definition host_realloc (self : RocHost) (old_ptr alignment new_length : Z) : Op Z := roc_realloc self old_ptr new_length alignment.

(** [checked_add_usize] *)
Definition checked_add_usize (left right : Z) : Op Z := match checked_add left right with Some n => mret n | None => panic end.

(** ** The default allocator and handlers *)

(** [Layout::from_size_align_unchecked]: what isn't a layout is undefined. *)
Definition layout_unchecked (size align : Z) : Op Alloc.Layout :=
  match Alloc.from_size_align size align with Some l => mret l | None => undefined end.

Definition default_roc_alloc (length alignment : Z) : Op Z :=
  let min_alignment := Z.max alignment Alloc.WORD in
  total_size ← checked_add_usize length min_alignment;
  layout ← layout_unchecked total_size min_alignment;
  h ← memory;
  match Alloc.sys_alloc place layout h with
  | (None, _) => _ ← eprintln (lit "roc_alloc: out of memory"); exit 1
  | (Some base_ptr, h) =>
      _ ← set_memory (Alloc.mkHeap (Alloc.blocks h) (Alloc.write (base_ptr + min_alignment - Alloc.WORD) total_size (Alloc.mem h)));
      mret (base_ptr + min_alignment)
  end.

Definition default_roc_dealloc (ptr alignment : Z) : Op unit :=
  let min_alignment := Z.max alignment Alloc.WORD in
  h ← memory;
  let total_size := Alloc.mem h (ptr - Alloc.WORD) in
  match Alloc.sys_dealloc (ptr - min_alignment) (total_size, min_alignment) h with Some h => set_memory h | None => undefined end.

Definition default_roc_realloc (ptr new_length alignment : Z) : Op Z :=
  let min_alignment := Z.max alignment Alloc.WORD in
  h ← memory;
  let old_total_size := Alloc.mem h (ptr - Alloc.WORD) in
  new_total_size ← checked_add_usize new_length min_alignment;
  match Alloc.sys_realloc place (ptr - min_alignment) (old_total_size, min_alignment) new_total_size h with
  | None => undefined
  | Some (None, _) => _ ← eprintln (lit "roc_realloc: out of memory"); exit 1
  | Some (Some new_base_ptr, h) =>
      let new_user_ptr := new_base_ptr + min_alignment in
      _ ← set_memory (Alloc.mkHeap (Alloc.blocks h) (Alloc.write (new_user_ptr - Alloc.WORD) new_total_size (Alloc.mem h)));
      mret new_user_ptr
  end.

Definition default_roc_dbg (msg : str) : Op unit := eprintln (lit "[ROC DBG] " ++ msg).
Definition default_roc_expect_failed (msg : str) : Op unit := eprintln (lit "[ROC EXPECT] " ++ msg).
Definition default_roc_crashed (msg : str) : Op unit := _ ← eprintln (lit "[ROC CRASHED] " ++ msg); exit 1.

Definition make_roc_host (e : Z) : RocHost :=
  mkRocHost e default_roc_alloc default_roc_dealloc default_roc_realloc
    default_roc_dbg default_roc_expect_failed default_roc_crashed.

(** ** The host's own ([src/alloc.rs], [src/lib.rs]) *)

Definition out_of_memory {A} (what : str) : Op A := _ ← eprintln (what ++ lit ": out of memory"); exit 1.

Definition alloc_alloc (length alignment : Z) : Op Z :=
  h ← memory;
  match Alloc.alloc place length alignment h with
  | Alloc.Exit => out_of_memory (lit "roc_alloc")
  | Alloc.Go (ptr, h) => _ ← set_memory h; mret ptr
  end.

Definition alloc_realloc (ptr new_length alignment : Z) : Op Z :=
  h ← memory;
  match Alloc.realloc place ptr new_length alignment h with
  | None => undefined
  | Some Alloc.Exit => out_of_memory (lit "roc_realloc")
  | Some (Alloc.Go (ptr, h)) => _ ← set_memory h; mret ptr
  end.

Definition host_dealloc (ptr alignment : Z) : Op unit := fun w =>
  match Start.host_dealloc sockets_at channels_at tasks_at ptr alignment (heaps w) with
  | Some (_, hs) => Returns tt (mkWorld hs (stderr w))
  | None => Undefined
  end.

(** [ROC_HOST] and [roc_host_ptr]; [roc_host] dereferences it. *)
Definition RocHostStatic : Type := option RocHost.
Definition roc_host_ptr (ROC_HOST : RocHostStatic) : Op RocHost :=
  match ROC_HOST with None => _ ← eprintln (lit "roc host error: RocHost not initialized"); exit 1 | Some h => mret h end.

(** The symbols compiled Roc code calls. *)
Definition symbol_roc_alloc (s : RocHostStatic) (length alignment : Z) : Op Z := _ ← roc_host_ptr s; alloc_alloc length alignment.
Definition symbol_roc_dealloc (s : RocHostStatic) (ptr alignment : Z) : Op unit := _ ← roc_host_ptr s; host_dealloc ptr alignment.
Definition symbol_roc_realloc (s : RocHostStatic) (ptr new_length alignment : Z) : Op Z := _ ← roc_host_ptr s; alloc_realloc ptr new_length alignment.
Definition symbol_roc_dbg (s : RocHostStatic) (msg : str) : Op unit := _ ← roc_host_ptr s; default_roc_dbg msg.
Definition symbol_roc_expect_failed (s : RocHostStatic) (msg : str) : Op unit := _ ← roc_host_ptr s; default_roc_expect_failed msg.
Definition symbol_roc_crashed (s : RocHostStatic) (msg : str) : Op unit := _ ← roc_host_ptr s; default_roc_crashed msg.

(** [direct_roc_host]: a context of the symbols. *)
Definition direct_roc_host (s : RocHostStatic) : RocHost :=
  mkRocHost 0 (symbol_roc_alloc s) (symbol_roc_dealloc s) (symbol_roc_realloc s) (symbol_roc_dbg s) (symbol_roc_expect_failed s) (symbol_roc_crashed s).

(** ** Starting *)

(** The context [run] makes: the host's allocator over the default one. *)
Definition the_host : RocHost :=
  let d := make_roc_host 0 in
  mkRocHost (env d) alloc_alloc host_dealloc alloc_realloc (roc_dbg d) (roc_expect_failed d) (roc_crashed d).

Fixpoint in_order (l : list (Op unit)) : Op unit := match l with [] => mret tt | x :: l => _ ← x; in_order l end.

(** What [run] calls: [time::init]; the settings it reads, each of which may
    report that it is bad ([limits::max_tasks], [max_sockets],
    [max_channels], [workers], [task_stack_bytes], [share_after],
    [log_level], [log_json] and [log_buffer_bytes]); [build_args_list] with
    the context; [sched::run_main] of the program's [roc_main], whose code
    finds the context in [ROC_HOST]; and [log::flush]. *)
Record Parts (Args : Type) := mkParts {
  time_init : Op unit;
  limits : list (Op unit);
  build_args_list : list str -> RocHost -> Op Args;
  run_main : RocHostStatic -> Args -> Op Z;
  flush : Z -> Op unit
}.
#[global] Arguments time_init {Args}.
#[global] Arguments limits {Args}.
#[global] Arguments build_args_list {Args}.
#[global] Arguments run_main {Args}.
#[global] Arguments flush {Args}.

(** [run]; the flush may take a second. *)
Definition run {Args} (parts : Parts Args) (args : list str) : Op Z :=
  _ ← time_init parts;
  _ ← in_order (limits parts);
  args_list ← build_args_list parts args the_host;
  code ← run_main parts (Some the_host) args_list;
  _ ← flush parts 1000000000;
  mret code.

(** [rust_main] and [main] of the [host] binary. *)
Definition rust_main {Args} (parts : Parts Args) (env_args : list str) : Op Z := run parts env_args.
Definition main {Args} (parts : Parts Args) (env_args : list str) : Op unit := code ← rust_main parts env_args; exit code.

(** ** The theorems *)

Definition same {A} (x y : Op A) : Prop := forall w, x w = y w.

(** Once the program has started, memory has one owner: whether compiled
    Roc code asks by the symbols, the glue's helpers by the context they are
    given, or an owned value by a context of the symbols, the same allocator
    is asked, with the same length and alignment, and what one allocated
    another may free.  Before the program has started each ends it with
    status 1, touching no memory. *)
Theorem one_allocator : forall length alignment ptr msg,
  let s := Some the_host in
  same (host_alloc the_host alignment length) (symbol_roc_alloc s length alignment) /\
  same (host_alloc (direct_roc_host s) alignment length) (symbol_roc_alloc s length alignment) /\
  same (host_dealloc_ the_host ptr alignment) (symbol_roc_dealloc s ptr alignment) /\
  same (host_dealloc_ (direct_roc_host s) ptr alignment) (symbol_roc_dealloc s ptr alignment) /\
  same (host_realloc the_host ptr alignment length) (symbol_roc_realloc s ptr length alignment) /\
  same (host_realloc (direct_roc_host s) ptr alignment length) (symbol_roc_realloc s ptr length alignment) /\
  same (roc_crashed the_host msg) (symbol_roc_crashed s msg) /\
  forall w, exists line, symbol_roc_alloc None length alignment w = Exits 1 (mkWorld (heaps w) (stderr w ++ [line])) /\
    symbol_roc_dealloc None ptr alignment w = Exits 1 (mkWorld (heaps w) (stderr w ++ [line])) /\
    symbol_roc_realloc None ptr length alignment w = Exits 1 (mkWorld (heaps w) (stderr w ++ [line])).
Proof. intros. split_and!; try (intros w; reflexivity). intros w. eexists. split_and!; reflexivity. Qed.

(** C16: The host's allocator is the glue's default one where that is defined:
    for every request whose size is one the system allocator takes, they
    allocate alike; where the default one's layout would be undefined (the
    size rounds over [isize::MAX]) or its size overflows, the host's
    says it is out of memory and ends the program with status 1 instead; they
    reallocate alike, but that for a size that overflows the host's says so
    and ends the program with status 1, touching no memory, where the default
    one aborts it; and they free alike whatever isn't a handle. *)
Theorem default_allocator_refined length alignment ptr w :
  let align := Alloc.align_of alignment in
  (forall total, checked_add length align = Some total -> Alloc.from_size_align total align <> None ->
     alloc_alloc length alignment w = default_roc_alloc length alignment w) /\
  ((checked_add length align = None \/ exists total, checked_add length align = Some total /\ Alloc.from_size_align total align = None) ->
     alloc_alloc length alignment w = Exits 1 (mkWorld (heaps w) (stderr w ++ [lit "roc_alloc: out of memory"])) /\
       (default_roc_alloc length alignment w = Aborts \/ default_roc_alloc length alignment w = Undefined)) /\
  (checked_add length align <> None -> alloc_realloc ptr length alignment w = default_roc_realloc ptr length alignment w) /\
  (checked_add length align = None ->
     alloc_realloc ptr length alignment w = Exits 1 (mkWorld (heaps w) (stderr w ++ [lit "roc_realloc: out of memory"])) /\
     default_roc_realloc ptr length alignment w = Aborts) /\
  (Start.heap_release sockets_at (Start.sockets (heaps w)) ptr = None ->
   Start.heap_release channels_at (Start.channels (heaps w)) ptr = None ->
   Start.heap_release tasks_at (Start.tasks (heaps w)) ptr = None ->
   host_dealloc ptr alignment w = default_roc_dealloc ptr alignment w).
Proof.
  cbv zeta. split_and!.
  - intros total Ht Hl. unfold alloc_alloc, default_roc_alloc, layout_unchecked, checked_add_usize, Alloc.alloc, Alloc.try_alloc.
    change (Z.max alignment Alloc.WORD) with (Alloc.align_of alignment). rewrite Ht. unfold mbind, Op_bind, memory, mret, Op_ret.
    destruct (Alloc.from_size_align total (Alloc.align_of alignment)) as [l|]; [|done]. destruct (Alloc.sys_alloc place l _) as [[b|] h] eqn:E; [|done].
    done.
  - intros H. unfold alloc_alloc, default_roc_alloc, layout_unchecked, checked_add_usize, Alloc.alloc, Alloc.try_alloc.
    change (Z.max alignment Alloc.WORD) with (Alloc.align_of alignment). unfold mbind, Op_bind, memory, mret, Op_ret.
    destruct H as [-> | (total & -> & ->)]; (split; [reflexivity|]); [by left|by right].
  - intros Ht. unfold alloc_realloc, default_roc_realloc, checked_add_usize, Alloc.realloc.
    change (Z.max alignment Alloc.WORD) with (Alloc.align_of alignment). destruct (checked_add length (Alloc.align_of alignment)) as [n|]; [|done].
    unfold mbind, Op_bind, memory, mret, Op_ret. destruct (Alloc.sys_realloc place _ _ n _) as [[[b|] h]|]; done.
  - intros Ht. unfold alloc_realloc, default_roc_realloc, checked_add_usize, Alloc.realloc.
    change (Z.max alignment Alloc.WORD) with (Alloc.align_of alignment). rewrite Ht. unfold mbind, Op_bind, memory, mret, Op_ret. done.
  - intros Hs Hc Hk. unfold host_dealloc, Start.host_dealloc, default_roc_dealloc, Alloc.dealloc. rewrite Hs, Hc, Hk.
    change (Z.max alignment Alloc.WORD) with (Alloc.align_of alignment). unfold memory. cbv [mbind Op_bind option_bind]. destruct (Alloc.sys_dealloc _ _ _) as [h|]; done.
Qed.

(** A crash of the Roc program is written before the process ends with
    status 1; [dbg] and a failed [expect] are written and go on; and the
    program's status is [main!]'s, once the log has had its second. *)
Theorem diagnostics_written msg w :
  symbol_roc_crashed (Some the_host) msg w = Exits 1 (mkWorld (heaps w) (stderr w ++ [lit "[ROC CRASHED] " ++ msg])) /\
  symbol_roc_dbg (Some the_host) msg w = Returns tt (mkWorld (heaps w) (stderr w ++ [lit "[ROC DBG] " ++ msg])) /\
  symbol_roc_expect_failed (Some the_host) msg w = Returns tt (mkWorld (heaps w) (stderr w ++ [lit "[ROC EXPECT] " ++ msg])).
Proof. done. Qed.

Theorem status_is_mains {Args} (parts : Parts Args) args list w w0 w1 w2 w3 w4 code :
  time_init parts w = Returns tt w0 -> in_order (limits parts) w0 = Returns tt w1 -> build_args_list parts args the_host w1 = Returns list w2 ->
  run_main parts (Some the_host) list w2 = Returns code w3 -> flush parts 1000000000 w3 = Returns tt w4 ->
  main parts args w = Exits code w4.
Proof. intros H0 H1 H2 H3 H4. unfold main, rust_main, run, mbind, Op_bind. by rewrite H0, H1, H2, H3, H4. Qed.

End Host.

(** *** A request that is met, and one that is too large *)

Definition demo : World (S := nat) (C := nat) (K := nat) := mkWorld (Start.mkHost None None None Alloc.Toy.one) [].

Lemma default_allocator_refined_witness :
  alloc_alloc Alloc.Toy.place 16 8 demo = default_roc_alloc Alloc.Toy.place 16 8 demo /\
  alloc_alloc Alloc.Toy.place Alloc.ISIZE_MAX 8 demo = Exits 1 (mkWorld (heaps demo) (stderr demo ++ [lit "roc_alloc: out of memory"])) /\
  alloc_realloc Alloc.Toy.place 8 U64_MAX 8 demo = Exits 1 (mkWorld (heaps demo) (stderr demo ++ [lit "roc_realloc: out of memory"])).
Proof.
  split; [|split].
  - apply (proj1 (default_allocator_refined (0, 1) (0, 1) (0, 1) Alloc.Toy.place 16 8 0 demo) 24); [reflexivity|vm_compute; discriminate].
  - apply (proj1 (proj2 (default_allocator_refined (0, 1) (0, 1) (0, 1) Alloc.Toy.place Alloc.ISIZE_MAX 8 0 demo))).
    right. exists 9223372036854775815. split; [vm_compute; reflexivity|vm_compute; reflexivity].
  - destruct (default_allocator_refined (0, 1) (0, 1) (0, 1) Alloc.Toy.place U64_MAX 8 8 demo) as (_ & _ & _ & H & _).
    apply H. vm_compute. reflexivity.
Defined.

End HostContext.
