(* ===== verification/Files.v ===== *)
(** * Files ([src/files.rs])

    Writing files whole: to a temporary file first, then renamed or linked
    into place.  The disk is what is at each path and which of it has not
    been flushed; [seen] collects every state it has been in, which is what a
    crash could leave and what other programs could see.  The operating
    system's answers come from an oracle, one per call: whether the call
    fails, how much a failing write had written, random bytes. *)
From Stdlib Require Import String.
From S2P Require Import Prelude Io LogFormat.
Local Open Scope Z_scope.
Local Open Scope roc_scope.

Module Files.
Import LogFormat.

(** ** Paths

    [Path::components]: whether it starts at the root, and the names between
    the slashes, without empty ones and [.]. *)
Record Path := mkPath { root : bool; comps : list str }.

#[global] Instance Path_eq_dec : EqDecision Path.
Proof. solve_decision. Defined.
#[global] Instance Path_countable : Countable Path.
Proof.
  refine (inj_countable (fun p => (root p, comps p)) (fun '(r, c) => Some (mkPath r c)) _). by intros [].
Defined.

Fixpoint split_slash (s : str) (acc : str) : list str :=
  match s with
  | [] => [acc]
  | c :: s => if c =? 47 then acc :: split_slash s [] else split_slash s (acc ++ [c])
  end.
Definition path_from (s : str) : Path :=
  mkPath (match s with 47 :: _ => true | _ => false end)
         (List.filter (fun c => negb (bool_decide (c = []) || bool_decide (c = [46]))) (split_slash s [])).

(** [split]: the directory (the current one if there is none) and the file
    name, which [..] is not. *)
Definition split (p : Path) : io_result (Path * str) :=
  match last (comps p) with
  | Some name => if bool_decide (name = [46; 46]) then Err (err_kind InvalidInput)
                 else Ok (mkPath (root p) (removelast (comps p)), name)
  | None => Err (err_kind InvalidInput)
  end.

(** [Path::join] of a name. *)
Definition join (dir : Path) (name : str) : Path := mkPath (root dir) (comps dir ++ [name]).

(** [format!("{b:02x}")] *)
Definition hex (b : Z) : str := let d n := if n <? 10 then 48 + n else 87 + n in [d (b / 16); d (b mod 16)].

(** [format!(".{}.{suffix}.tmp", name)] *)
Definition temp_name (name : str) (random : list Z) : str := [46] ++ name ++ [46] ++ (random ≫= hex) ++ lit ".tmp".

(** ** The disk *)

Record Disk := mkDisk { files : gmap Path (list Z); dirty : gset Path }.

Record Answer := mkAnswer { fails : option IoError; wrote : nat; random : option (list Z) }.

Record World := mkWorld { disk : Disk; seen : list Disk; calls : nat }.

Section Calls.
Variable os : nat -> Answer.

(** A call: the system's answer, then what it does to the disk. *)
Definition answer (w : World) : Answer := os (calls w).
Definition after (d : Disk) (states : list Disk) (w : World) : World := mkWorld d (seen w ++ states) (S (calls w)).
Definition unchanged (w : World) : World := after (disk w) [] w.

Definition put (p : Path) (data : list Z) (d : Disk) : Disk := mkDisk (<[p := data]> (files d)) ({[p]} ∪ dirty d).
Definition gone (p : Path) (d : Disk) : Disk := mkDisk (delete p (files d)) (dirty d ∖ {[p]}).

(** [OpenOptions::create_new(true).open] *)
Definition create_new (p : Path) (w : World) : io_result unit * World :=
  if files (disk w) !! p is Some _ then (Err (err_kind AlreadyExists), unchanged w)
  else match fails (answer w) with
       | Some e => (Err e, unchanged w)
       | None => let d := put p [] (disk w) in (Ok tt, after d [d] w)
       end.

(** [open] for writing, creating: truncated or not. *)
Definition open_create (truncate : bool) (p : Path) (w : World) : io_result unit * World :=
  match fails (answer w) with
  | Some e => (Err e, unchanged w)
  | None =>
      let old := default [] (files (disk w) !! p) in
      let d := put p (if truncate then [] else old) (disk w) in (Ok tt, after d [d] w)
  end.

Definition states (upto : nat -> Disk) (k : nat) : list Disk := map upto (seq 0 (S k)).

(** [write_all] at the end of an open file: a failing one has written a part;
    on the way, every prefix can be seen. *)
Definition write_all (p : Path) (data : list Z) (w : World) : io_result unit * World :=
  let old := default [] (files (disk w) !! p) in
  let upto k := put p (old ++ take k data) (disk w) in
  match fails (answer w) with
  | Some e => (Err e, after (upto (wrote (answer w))) (states upto (wrote (answer w))) w)
  | None => (Ok tt, after (upto (length data)) (states upto (length data)) w)
  end.

(** [File::sync_all] *)
Definition sync_all (p : Path) (w : World) : io_result unit * World :=
  match fails (answer w) with
  | Some e => (Err e, unchanged w)
  | None => let d := mkDisk (files (disk w)) (dirty (disk w) ∖ {[p]}) in (Ok tt, after d [d] w)
  end.

Definition move_dirty (from to : Path) (d : Disk) : gset Path :=
  if decide (from ∈ dirty d) then {[to]} ∪ dirty d else dirty d ∖ {[to]}.

(** [fs::rename], over what is there; [fs::hard_link], which is not. *)
Definition rename (from to : Path) (w : World) : io_result unit * World :=
  match files (disk w) !! from with
  | None => (Err (err_kind NotFound), unchanged w)
  | Some data =>
      match fails (answer w) with
      | Some e => (Err e, unchanged w)
      | None =>
          let d := mkDisk (<[to := data]> (delete from (files (disk w)))) (move_dirty from to (disk w) ∖ ({[from]} ∖ {[to]})) in
          (Ok tt, after d [d] w)
      end
  end.
Definition hard_link (from to : Path) (w : World) : io_result unit * World :=
  match files (disk w) !! from, files (disk w) !! to with
  | None, _ => (Err (err_kind NotFound), unchanged w)
  | _, Some _ => (Err (err_kind AlreadyExists), unchanged w)
  | Some data, None =>
      match fails (answer w) with
      | Some e => (Err e, unchanged w)
      | None => let d := mkDisk (<[to := data]> (files (disk w))) (move_dirty from to (disk w)) in (Ok tt, after d [d] w)
      end
  end.
Definition remove_file (p : Path) (w : World) : io_result unit * World :=
  match files (disk w) !! p with
  | None => (Err (err_kind NotFound), unchanged w)
  | Some _ =>
      match fails (answer w) with
      | Some e => (Err e, unchanged w)
      | None => let d := gone p (disk w) in (Ok tt, after d [d] w)
      end
  end.

(** [rand::fill] of eight bytes *)
Definition rand_fill (w : World) : io_result (list Z) * World :=
  (match random (answer w) with Some r => Ok (take 8 r) | None => Err (err_kind OtherKind) end, unchanged w).

(** ** The functions *)

(** [file.write_all(data).and_then(|()| file.sync_all())] *)
Definition write_and_sync (p : Path) (data : list Z) (w : World) : io_result unit * World :=
  match write_all p data w with
  | (Ok _, w) => sync_all p w
  | r => r
  end.

(** [write_temp]; [tries] more collisions may be tried again. *)
Fixpoint write_temp_from (tries : nat) (dir : Path) (name : str) (data : list Z) (w : World) : io_result Path * World :=
  match rand_fill w with
  | (Err e, w) => (Err e, w)
  | (Ok rnd, w) =>
      let temp := join dir (temp_name name rnd) in
      match create_new temp w with
      | (Ok _, w) =>
          match write_and_sync temp data w with
          | (Ok _, w) => (Ok temp, w)
          | (Err e, w) => let '(_, w) := remove_file temp w in (Err e, w)
          end
      | (Err e, w) =>
          match tries with
          | S tries => if is_kind AlreadyExists e then write_temp_from tries dir name data w else (Err e, w)
          | O => (Err e, w)
          end
      end
  end.
Definition write_temp (path : Path) (data : list Z) (w : World) : io_result Path * World :=
  match split path with
  | Err e => (Err e, w)
  | Ok (dir, name) => write_temp_from 8 dir name data w
  end.

(** [sync_dir]: best effort, and nothing here depends on it. *)
Definition sync_dir (path : Path) (w : World) : World :=
  match split path with Ok _ => unchanged (unchanged w) | Err _ => w end.

(** [write_atomic] *)
Definition write_atomic (path : Path) (data : list Z) (w : World) : io_result unit * World :=
  match write_temp path data w with
  | (Err e, w) => (Err e, w)
  | (Ok temp, w) =>
      match rename temp path w with
      | (Err e, w) => let '(_, w) := remove_file temp w in (Err e, w)
      | (Ok _, w) => (Ok tt, sync_dir path w)
      end
  end.

Definition EPERM : Z := 1.
Definition ENOSYS : Z := 38.
Definition ENOTSUP : Z := 95.

(** [no_hard_links]; [EOPNOTSUPP] is [ENOTSUP] on Linux. *)
Definition no_hard_links (e : IoError) : bool :=
  is_kind Unsupported e || match raw_os_error e with Some n => existsb (Z.eqb n) [EPERM; ENOTSUP; ENOSYS] | None => false end.

(** [write_new] *)
Definition write_new (path : Path) (data : list Z) (w : World) : io_result unit * World :=
  match write_temp path data w with
  | (Err e, w) => (Err e, w)
  | (Ok temp, w) =>
      let '(linked, w) := hard_link temp path w in
      let '(_, w) := remove_file temp w in
      match linked with
      | Ok _ => (Ok tt, sync_dir path w)
      | Err e =>
          if no_hard_links e then
            match create_new path w with
            | (Err e, w) => (Err e, w)
            | (Ok _, w) =>
                match write_and_sync path data w with
                | (Err e, w) => let '(_, w) := remove_file path w in (Err e, w)
                | (Ok _, w) => (Ok tt, sync_dir path w)
                end
            end
          else (Err e, w)
      end
  end.

(** What [roc_file_write] runs off the task's thread, by [how]. *)
Definition file_write (path : Path) (data : list Z) (how : Z) (w : World) : io_result unit * World :=
  if how =? 2 then write_new path data w
  else if how =? 3 then write_atomic path data w
  else match open_create (how =? 0) path w with
       | (Err e, w) => (Err e, w)
       | (Ok _, w) => write_all path data w
       end.

End Calls.

(** ** Temporary names *)

Lemma split_ok p dir name : split p = Ok (dir, name) -> p = join dir name.
Proof.
  unfold split, join. destruct (last (comps p)) as [n|] eqn:E; [|done]. case_bool_decide; [done|]. intros [= <- <-].
  destruct p as [r c]. simpl in *. f_equal. destruct c as [|x c _] using rev_ind; [done|].
  rewrite last_snoc in E. injection E as ->. by rewrite removelast_last.
Qed.

Lemma temp_not_path dir name rnd : join dir (temp_name name rnd) <> join dir name.
Proof.
  unfold join. intros [= E]. apply app_inv_head in E. injection E as E. apply (f_equal length) in E.
  unfold temp_name in E. rewrite !length_app in E. simpl in E. lia.
Qed.

(** ** What a run may touch *)

(** Two disks agree at a path. *)
Definition agree (q : Path) (d d' : Disk) : Prop := files d' !! q = files d !! q /\ (q ∈ dirty d' <-> q ∈ dirty d).

Lemma agree_refl q d : agree q d d.
Proof. by split. Qed.
Lemma agree_trans q d1 d2 d3 : agree q d1 d2 -> agree q d2 d3 -> agree q d1 d3.
Proof. intros [H1 H2] [H3 H4]. split; [congruence|tauto]. Qed.

(** From [w] to [w'] only paths of [T] changed, also in between. *)
Definition touched (T : Path -> Prop) (w w' : World) : Prop :=
  (forall q, ~ T q -> agree q (disk w) (disk w')) /\
  exists new, seen w' = seen w ++ new /\ Forall (fun d => forall q, ~ T q -> agree q (disk w) d) new.

Lemma touched_refl T w : touched T w w.
Proof. split; [intros; apply agree_refl|]. exists []. by rewrite app_nil_r. Qed.

Lemma touched_trans T w1 w2 w3 : touched T w1 w2 -> touched T w2 w3 -> touched T w1 w3.
Proof.
  intros [H1 (n1 & E1 & F1)] [H2 (n2 & E2 & F2)]. split; [eauto using agree_trans|].
  exists (n1 ++ n2). rewrite E2, E1, app_assoc. split; [done|]. apply Forall_app. split; [done|].
  eapply Forall_impl; [exact F2|]. eauto using agree_trans.
Qed.

Lemma touched_mono (T T' : Path -> Prop) w w' : (forall q, T q -> T' q) -> touched T w w' -> touched T' w w'.
Proof.
  intros Hm [H1 (n & E & F)]. split; [eauto|]. exists n. split; [done|]. eapply Forall_impl; [exact F|]. eauto.
Qed.

Lemma touched_after T d new w :
  (forall q, ~ T q -> agree q (disk w) d) -> Forall (fun d => forall q, ~ T q -> agree q (disk w) d) new -> touched T w (after d new w).
Proof. intros H1 H2. split; [done|]. by exists new. Qed.

Lemma touched_unchanged T w : touched T w (unchanged w).
Proof. apply touched_after; [intros; apply agree_refl|constructor]. Qed.

Lemma agree_put p data d q : q <> p -> agree q d (put p data d).
Proof. intros. split; simpl; [by rewrite lookup_insert_ne|set_solver]. Qed.
Lemma agree_gone p d q : q <> p -> agree q d (gone p d).
Proof. intros. split; simpl; [by rewrite lookup_delete_ne|set_solver]. Qed.

#[local] Hint Resolve touched_unchanged touched_refl agree_put agree_gone agree_refl : roc.

Section Specs.
Variable os : nat -> Answer.

Lemma touched_one d new p w :
  (forall q, q <> p -> agree q (disk w) d) -> Forall (fun d => forall q, q <> p -> agree q (disk w) d) new -> touched (eq p) w (after d new w).
Proof.
  intros H1 H2. apply touched_after; [intros q Hq; apply H1; congruence|]. eapply Forall_impl; [exact H2|].
  intros d' Hd q Hq. apply Hd. congruence.
Qed.

Lemma create_new_spec p w r w' : create_new os p w = (r, w') ->
  touched (eq p) w w' /\ (r = Ok tt -> files (disk w) !! p = None /\ disk w' = put p [] (disk w)) /\ (forall e, r = Err e -> disk w' = disk w /\ seen w' = seen w).
Proof.
  unfold create_new. destruct (files (disk w) !! p) eqn:E; [|destruct (fails (answer os w))]; intros [= <- <-];
    (split; [|split; [done|by simpl; rewrite ?app_nil_r]]).
  - apply touched_unchanged.
  - apply touched_unchanged.
  - apply touched_one; [eauto with roc|]. constructor; [eauto with roc|constructor].
Qed.

Lemma states_agree p (f : nat -> list Z) k w :
  Forall (fun d => forall q, q <> p -> agree q (disk w) d) (states (fun k => put p (f k) (disk w)) k).
Proof. unfold states. apply Forall_forall. intros d (j & -> & _)%list_elem_of_fmap q Hq. eauto with roc. Qed.

Lemma file_write_all_spec p data w r w' : write_all os p data w = (r, w') -> touched (eq p) w w' /\
  (r = Ok tt -> disk w' = put p (default [] (files (disk w) !! p) ++ data) (disk w)).
Proof.
  unfold write_all. destruct (fails (answer os w)); intros [= <- <-]; (split; [|try done]).
  - apply touched_one; [eauto with roc|]. apply states_agree.
  - apply touched_one; [eauto with roc|]. apply states_agree.
  - intros _. simpl. by rewrite take_ge.
Qed.

Lemma write_and_sync_spec p data w r w' : write_and_sync os p data w = (r, w') -> touched (eq p) w w' /\
  (r = Ok tt -> files (disk w') !! p = Some (default [] (files (disk w) !! p) ++ data) /\ p ∉ dirty (disk w')).
Proof.
  unfold write_and_sync. destruct (write_all os p data w) as [[[]|e] w1] eqn:E; apply file_write_all_spec in E as [Ht Hd]; [|by intros [= <- <-]].
  specialize (Hd eq_refl). unfold sync_all. destruct (fails (answer os w1)); intros [= <- <-].
  - split; [|done]. eapply touched_trans; [done|]. apply touched_unchanged.
  - split.
    + eapply touched_trans; [done|]. assert (forall q, q <> p -> agree q (disk w1) (mkDisk (files (disk w1)) (dirty (disk w1) ∖ {[p]}))) as Ha.
      { intros q Hq. split; simpl; [done|set_solver]. }
      apply touched_one; [done|]. by constructor; [|constructor].
    + intros _. simpl. rewrite Hd. simpl. rewrite lookup_insert_eq. split; [done|set_solver].
Qed.

Lemma remove_file_spec p w r w' : remove_file os p w = (r, w') -> touched (eq p) w w' /\
  (r = Ok tt -> files (disk w') !! p = None) /\ (files (disk w) !! p = None -> disk w' = disk w).
Proof.
  unfold remove_file. destruct (files (disk w) !! p) eqn:E; [destruct (fails (answer os w))|]; intros [= <- <-];
    (split; [|split; [try done|done]]); try apply touched_unchanged.
  - apply touched_one; [eauto with roc|]. constructor; [eauto with roc|constructor].
  - intros _. simpl. by rewrite lookup_delete_eq.
Qed.

(** A temporary file is one that was not there. *)
Definition fresh (w : World) (path q : Path) : Prop := q <> path /\ files (disk w) !! q = None.

Lemma fill_temp_spec temp data w1 w2 r w' :
  files (disk w1) !! temp = None -> disk w2 = put temp [] (disk w1) -> touched (eq temp) w1 w2 ->
  (match write_and_sync os temp data w2 with
   | (Ok _, w) => (Ok temp, w)
   | (Err e, w) => let '(_, w) := remove_file os temp w in (Err e, w)
   end) = (r, w') ->
  touched (eq temp) w1 w' /\ forall t, r = Ok t -> t = temp /\ files (disk w') !! temp = Some data /\ temp ∉ dirty (disk w').
Proof.
  intros Hn Hd Ht. destruct (write_and_sync os temp data w2) as [[[]|e] w3] eqn:Ew; apply write_and_sync_spec in Ew as [Ht3 Hok].
  - intros [= <- <-]. split; [by eapply touched_trans|]. intros t [= <-]. destruct (Hok eq_refl) as [Hf Hdirty]. split_and!; [done| |done].
    rewrite Hf, Hd. simpl. by rewrite lookup_insert_eq.
  - destruct (remove_file os temp w3) as [q w4] eqn:Er. apply remove_file_spec in Er as [Ht4 _]. intros [= <- <-].
    split; [|done]. eapply touched_trans; [by eapply touched_trans|done].
Qed.

Lemma write_temp_spec path data w r w' : write_temp os path data w = (r, w') ->
  touched (fresh w path) w w' /\
  forall temp, r = Ok temp -> fresh w path temp /\ (forall q, q <> temp -> agree q (disk w) (disk w')) /\
    files (disk w') !! temp = Some data /\ temp ∉ dirty (disk w').
Proof.
  unfold write_temp. destruct (split path) as [[dir name]|e] eqn:Es; [|intros [= <- <-]; split; [apply touched_refl|done]].
  apply split_ok in Es as ->. generalize 8%nat as tries.
  assert (forall tries w0, disk w0 = disk w -> write_temp_from os tries dir name data w0 = (r, w') ->
    touched (fresh w (join dir name)) w0 w' /\
    forall temp, r = Ok temp -> fresh w (join dir name) temp /\ (forall q, q <> temp -> agree q (disk w) (disk w')) /\
      files (disk w') !! temp = Some data /\ temp ∉ dirty (disk w')) as Hl; [|intros tries; by apply Hl].
  induction tries as [|tries IH]; intros w0 Hw0; cbn [write_temp_from];
    (destruct (rand_fill os w0) as [rr w1] eqn:Er;
     assert (touched (fresh w (join dir name)) w0 w1 /\ disk w1 = disk w) as [Ht1 Hd1] by (injection Er as _ <-; split; [apply touched_unchanged|done]);
     destruct rr as [rnd|e]; [|intros [= <- <-]; by split]; set (temp := join dir (temp_name name rnd));
     destruct (create_new os temp w1) as [rc w2] eqn:Ec; apply create_new_spec in Ec as (Ht2 & Hok & Herr); destruct rc as [[]|e]).
  1, 3: destruct (Hok eq_refl) as [Hn Hd2]; intros Hf; destruct (fill_temp_spec temp data w1 w2 r w' Hn Hd2 Ht2 Hf) as [Ht3 Hres];
    rewrite Hd1 in Hn; assert (fresh w (join dir name) temp) as Hfr by (split; [apply temp_not_path|done]);
    (split; [eapply touched_trans; [done|]; eapply touched_mono; [|done]; by intros q <-|]);
    intros t Et; destruct (Hres t Et) as (-> & H1 & H2); split_and!; [done| |done|done];
    intros q Hq; destruct Ht3 as [Ht3 _]; rewrite <- Hd1; apply Ht3; congruence.
  - destruct (Herr e eq_refl) as [Hd2 Hs2]. intros [= <- <-]. split; [|done]. eapply touched_trans; [done|]. split; [rewrite Hd2; intros; apply agree_refl|].
    exists []. by rewrite Hs2, app_nil_r.
  - destruct (Herr e eq_refl) as [Hd2 Hs2]. assert (touched (fresh w (join dir name)) w0 w2) as Ht.
    { eapply touched_trans; [done|]. split; [rewrite Hd2; intros; apply agree_refl|]. exists []. by rewrite Hs2, app_nil_r. }
    destruct (is_kind AlreadyExists e); [|by intros [= <- <-]]. intros Hrec. apply IH in Hrec as [Ht' Hr]; [|congruence].
    split; [by eapply touched_trans|done].
Qed.

(** What a crash may leave at [path]: what was there, or all of [data],
    flushed. *)
Definition whole (path : Path) (data : list Z) (d0 d : Disk) : Prop :=
  agree path d0 d \/ (files d !! path = Some data /\ path ∉ dirty d).

(** The states of a run, with what each says of [path]. *)
Definition always (P : Disk -> Prop) (w w' : World) : Prop := exists new, seen w' = seen w ++ new /\ Forall P new.

Lemma touched_always T path data w w' : ~ T path -> touched T w w' -> always (whole path data (disk w)) w w'.
Proof.
  intros Hn [_ (new & E & F)]. exists new. split; [done|]. eapply Forall_impl; [exact F|]. intros d Hd. left. by apply Hd.
Qed.

Lemma always_trans P w1 w2 w3 : always P w1 w2 -> always P w2 w3 -> always P w1 w3.
Proof.
  intros (n1 & E1 & F1) (n2 & E2 & F2). exists (n1 ++ n2). rewrite E2, E1, app_assoc. split; [done|]. by apply Forall_app.
Qed.

(** States of a later part, seen from before it. *)
Lemma always_from path data d0 w w' : whole path data d0 (disk w) -> always (whole path data (disk w)) w w' -> always (whole path data d0) w w'.
Proof.
  intros H0 (new & E & F). exists new. split; [done|]. eapply Forall_impl; [exact F|]. intros d [Ha|Hw]; [|by right].
  destruct H0 as [H0|[H1 H2]]; [left; by eapply agree_trans|]. right. destruct Ha as [Hf Hd]. rewrite Hf, Hd. done.
Qed.

Lemma sync_dir_same path w : disk (sync_dir path w) = disk w /\ seen (sync_dir path w) = seen w.
Proof. unfold sync_dir. destruct (split path) as [[]|]; simpl; by rewrite ?app_nil_r. Qed.

Lemma rename_spec from to w r w' : from <> to -> rename os from to w = (r, w') ->
  touched (fun q => q = from \/ q = to) w w' /\
  (forall e, r = Err e -> disk w' = disk w /\ seen w' = seen w) /\
  (r = Ok tt -> files (disk w) !! from = files (disk w') !! to /\ files (disk w') !! from = None /\ seen w' = seen w ++ [disk w'] /\
    (to ∈ dirty (disk w') <-> from ∈ dirty (disk w))).
Proof.
  intros Hne. unfold rename. destruct (files (disk w) !! from) as [data|] eqn:E; [destruct (fails (answer os w))|]; intros [= <- <-].
  - split; [apply touched_unchanged|]. simpl. by rewrite app_nil_r.
  - assert (forall q, ~ (q = from \/ q = to) -> agree q (disk w)
      (mkDisk (<[to := data]> (delete from (files (disk w)))) (move_dirty from to (disk w) ∖ ({[from]} ∖ {[to]})))) as Ha.
    { intros q Hq. split; simpl; [by rewrite lookup_insert_ne, lookup_delete_ne by naive_solver|]. unfold move_dirty. case_decide; set_solver. }
    split; [apply touched_after; [done|]; by constructor; [|constructor]|]. split; [done|]. intros _. simpl. rewrite lookup_insert_eq.
    split_and!; [done|by rewrite lookup_insert_ne, lookup_delete_eq|done|]. unfold move_dirty. case_decide; set_solver.
  - split; [apply touched_unchanged|]. simpl. by rewrite app_nil_r.
Qed.

(** C23: [File.write_atomic!] is all or nothing: if it succeeds, [path] holds all
    of [data], flushed, and nothing else has changed; if it fails, [path] is
    as it was; no file that was there before is touched in any case; and
    whenever the program or the machine stops in between, [path] holds either
    what it did or all of [data], flushed. *)
Theorem write_atomic_all_or_nothing path data w r w' : write_atomic os path data w = (r, w') ->
  (r = Ok tt -> files (disk w') !! path = Some data /\ path ∉ dirty (disk w') /\
     forall q, q <> path -> files (disk w') !! q = files (disk w) !! q) /\
  (forall e, r = Err e -> agree path (disk w) (disk w')) /\
  (forall q, q <> path -> files (disk w) !! q <> None -> agree q (disk w) (disk w')) /\
  always (whole path data (disk w)) w w'.
Proof.
  unfold write_atomic. destruct (write_temp os path data w) as [rt w1] eqn:Et. apply write_temp_spec in Et as [Ht1 Htemp].
  assert (~ fresh w path path) as Hnp by (by intros [? _]).
  assert (forall q, files (disk w) !! q <> None -> ~ fresh w path q) as Hold by (by intros q Hq [_ ?]).
  destruct rt as [temp|e].
  2:{ intros [= <- <-]. split_and!; [done| | |exact (touched_always _ path data w w1 Hnp Ht1)].
      - intros _ _. by apply Ht1.
      - intros q _ Hq. by apply Ht1, Hold. }
  destruct (Htemp temp eq_refl) as ([Hne Hnone] & Hag & Hf & Hd).
  destruct (rename os temp path w1) as [rr w2] eqn:Er. apply rename_spec in Er as (Ht2 & Herr & Hok); [|done].
  destruct rr as [[]|e].
  - destruct (Hok eq_refl) as (Hp & Hgone & Hs & Hdp). destruct (sync_dir_same path w2) as [Es1 Es2]. intros [= <- <-]. rewrite Es1.
    assert (files (disk w2) !! path = Some data) as Hfp by congruence. split_and!; [|done| |].
    + intros _. split_and!; [done|tauto|]. intros q Hq. destruct (decide (q = temp)) as [->|Hqt]; [congruence|].
      destruct Ht2 as [Ht2 _]. destruct (Ht2 q) as [-> _]; [naive_solver|]. by apply Hag.
    + intros q Hq Hn. eapply agree_trans; [by apply Ht1, Hold|]. apply Ht2. intros [->| ->]; done.
    + eapply always_trans; [exact (touched_always _ path data w w1 Hnp Ht1)|]. exists [disk w2]. rewrite Es2. split; [done|]. constructor; [|constructor].
      right. split; [done|tauto].
  - destruct (Herr e eq_refl) as [Hd2 Hs2]. destruct (remove_file os temp w2) as [rm w3] eqn:Em. apply remove_file_spec in Em as [Ht3 _].
    intros [= <- <-].
    assert (touched (fresh w path) w w3) as Ht.
    { eapply touched_trans; [exact Ht1|]. eapply touched_trans; [|eapply touched_mono; [|exact Ht3]; by intros q <-].
      split; [rewrite Hd2; intros; apply agree_refl|]. exists []. by rewrite Hs2, app_nil_r. }
    split_and!; [done| | |exact (touched_always _ path data w w3 Hnp Ht)].
    + intros _ _. by apply Ht.
    + intros q _ Hq. by apply Ht, Hold.
Qed.

Lemma hard_link_spec from to w r w' : from <> to -> hard_link os from to w = (r, w') ->
  touched (eq to) w w' /\
  (forall e, r = Err e -> disk w' = disk w /\ seen w' = seen w) /\
  (r = Ok tt -> files (disk w) !! to = None /\ files (disk w) !! from = files (disk w') !! to /\ seen w' = seen w ++ [disk w'] /\
    (to ∈ dirty (disk w') <-> from ∈ dirty (disk w))).
Proof.
  intros Hne. unfold hard_link.
  destruct (files (disk w) !! from) as [data|] eqn:E, (files (disk w) !! to) as [data'|] eqn:E'; [|destruct (fails (answer os w))| |];
    intros [= <- <-]; try (split; [apply touched_unchanged|by simpl; rewrite app_nil_r]).
  assert (forall q, q <> to -> agree q (disk w) (mkDisk (<[to := data]> (files (disk w))) (move_dirty from to (disk w)))) as Ha.
  { intros q Hq. split; simpl; [by rewrite lookup_insert_ne|]. unfold move_dirty. case_decide; set_solver. }
  split; [apply touched_one; [done|]; by constructor; [|constructor]|]. split; [done|]. intros _. simpl. rewrite lookup_insert_eq.
  split_and!; [done..|]. unfold move_dirty. case_decide; set_solver.
Qed.

Lemma hard_link_error from to w e w' : hard_link os from to w = (Err e, w') -> no_hard_links e = true -> fails (os (calls w)) = Some e.
Proof.
  unfold hard_link, answer. destruct (files (disk w) !! from), (files (disk w) !! to); [|destruct (fails (os (calls w))) eqn:E| |];
    intros [= <- _]; try done; by vm_compute.
Qed.

(** The direct write where there are no hard links. *)
Lemma write_direct_spec path data w r w' :
  match create_new os path w with
  | (Err e, w) => (Err e, w)
  | (Ok _, w) =>
      match write_and_sync os path data w with
      | (Err e, w) => let '(_, w) := remove_file os path w in (Err e, w)
      | (Ok _, w) => (Ok tt, sync_dir path w)
      end
  end = (r, w') ->
  touched (eq path) w w' /\
  (files (disk w) !! path <> None -> r <> Ok tt /\ disk w' = disk w /\ seen w' = seen w) /\
  (r = Ok tt -> files (disk w) !! path = None /\ files (disk w') !! path = Some data /\ path ∉ dirty (disk w')).
Proof.
  destruct (create_new os path w) as [rc w1] eqn:Ec. apply create_new_spec in Ec as (Ht1 & Hok & Herr).
  destruct rc as [[]|e]; [|intros [= <- <-]; split_and!; [done| |done]; intros _; split; [done|by eapply Herr]].
  destruct (Hok eq_refl) as [Hn Hd1]. destruct (write_and_sync os path data w1) as [rw w2] eqn:Ew. apply write_and_sync_spec in Ew as [Ht2 Hw].
  destruct rw as [[]|e].
  - destruct (sync_dir_same path w2) as [E1 E2]. intros [= <- <-]. destruct (Hw eq_refl) as [Hf Hd].
    assert (touched (eq path) w w2) as Ht by (by eapply touched_trans).
    split_and!; [|done|rewrite E1; intros _; split_and!; [done| |done]].
    + destruct Ht as [H1 H2]. split; rewrite ?E1, ?E2; done.
    + rewrite Hf, Hd1. simpl. by rewrite lookup_insert_eq.
  - destruct (remove_file os path w2) as [rm w3] eqn:Em. apply remove_file_spec in Em as [Ht3 _]. intros [= <- <-].
    split_and!; [|done|done]. eapply touched_trans; [by eapply touched_trans|done].
Qed.

(** [File.write_new!] never replaces anything: if something is at [path],
    it stays as it is, at every moment, and the call fails; success means that
    nothing was there and now all of [data] is, flushed; and on a file system
    with hard links, whenever the program or the machine stops in between,
    [path] is as it was or holds all of [data], flushed. *)
Theorem write_new_keeps_what_is_there path data w r w' : write_new os path data w = (r, w') ->
  (files (disk w) !! path <> None -> r <> Ok tt /\ agree path (disk w) (disk w') /\ always (agree path (disk w)) w w') /\
  (r = Ok tt -> files (disk w) !! path = None /\ files (disk w') !! path = Some data /\ path ∉ dirty (disk w')) /\
  (forall q, q <> path -> files (disk w) !! q <> None -> agree q (disk w) (disk w')) /\
  ((forall n e, fails (os n) = Some e -> no_hard_links e = false) -> always (whole path data (disk w)) w w').
Proof.
  unfold write_new. destruct (write_temp os path data w) as [rt w1] eqn:Et. apply write_temp_spec in Et as [Ht1 Htemp].
  assert (~ fresh w path path) as Hnp by (by intros [? _]).
  assert (forall q, files (disk w) !! q <> None -> ~ fresh w path q) as Hold by (by intros q Hq [_ ?]).
  assert (forall T w', ~ T path -> touched T w w' -> always (agree path (disk w)) w w') as Halw.
  { intros T w0 Hn [_ (new & E & F)]. exists new. split; [done|]. eapply Forall_impl; [exact F|]. intros d Hd. by apply Hd. }
  destruct rt as [temp|e].
  2:{ intros [= <- <-]. split_and!; [|done| |].
      - intros _. split_and!; [done|by apply Ht1|by apply (Halw _ _ Hnp)].
      - intros q _ Hq. by apply Ht1, Hold.
      - intros _. exact (touched_always _ path data w w1 Hnp Ht1). }
  destruct (Htemp temp eq_refl) as (Hfr & Hag & Hf & Hd). pose proof Hfr as [Hne Hnone].
  destruct (hard_link os temp path w1) as [rl w2] eqn:El. pose proof El as El'. apply hard_link_spec in El as (Ht2 & Herr & Hok); [|done].
  destruct (remove_file os temp w2) as [rm w3] eqn:Em. apply remove_file_spec in Em as (Ht3 & _ & _).
  destruct rl as [[]|e].
  - destruct (Hok eq_refl) as (Hno & Hp & Hs & Hdp). destruct (sync_dir_same path w3) as [E1 E2]. intros [= <- <-]. rewrite E1.
    assert (files (disk w) !! path = None) as Hno0 by (destruct (Hag path) as [<- _]; done).
    assert (agree path (disk w2) (disk w3)) as [Hf3 Hd3] by (by apply Ht3).
    assert (files (disk w2) !! path = Some data /\ path ∉ dirty (disk w2)) as Hw2 by (split; [congruence|tauto]).
    split_and!; [done| | |].
    + intros _. split_and!; [done|rewrite Hf3; apply Hw2|rewrite Hd3; apply Hw2].
    + intros q Hq Hn. assert (q <> temp) by (by intros ->). eapply agree_trans; [by apply Hag|].
      eapply agree_trans; [by apply Ht2, not_eq_sym|by apply Ht3, not_eq_sym].
    + intros _. eapply always_trans; [exact (touched_always _ path data w w1 Hnp Ht1)|].
      eapply (always_trans _ w1 w2); [exists [disk w2]; split; [done|]; constructor; [by right|constructor]|].
      destruct (always_from path data (disk w) w2 w3) as (new & En & Fn); [by right| |exists new; rewrite E2; done].
      exact (touched_always _ path data w2 w3 Hne Ht3).
  - destruct (Herr e eq_refl) as [Hd2 Hs2].
    assert (touched (fresh w path) w w3) as Ht.
    { eapply touched_trans; [exact Ht1|]. eapply touched_trans; [|eapply touched_mono; [|exact Ht3]; by intros q <-].
      split; [rewrite Hd2; intros; apply agree_refl|]. exists []. by rewrite Hs2, app_nil_r. }
    destruct (no_hard_links e) eqn:Enl.
    + intros Hdir. apply write_direct_spec in Hdir as (Ht4 & Hex & Hr).
      assert (agree path (disk w) (disk w3)) as [Hfp Hdp] by (by apply Ht). rewrite Hfp in Hex, Hr. split_and!; [|done| |].
      * intros Hn. destruct (Hex Hn) as (Hne' & Hd4 & Hs4). rewrite Hd4. split_and!; [done|by split|].
        destruct (Halw _ _ Hnp Ht) as (new & En & Fn). exists new. by rewrite Hs4.
      * intros q Hq Hn. eapply agree_trans; [by apply Ht, Hold|]. by apply Ht4, not_eq_sym.
      * intros Hno. rewrite (Hno _ _ (hard_link_error _ _ _ _ _ El' Enl)) in Enl. done.
    + intros [= <- <-]. split_and!; [|done| |].
      * intros _. split_and!; [done|by apply Ht|by apply (Halw _ _ Hnp)].
      * intros q _ Hq. by apply Ht, Hold.
      * intros _. exact (touched_always _ path data w w3 Hnp Ht).
Qed.

End Specs.

(** ** A file replaced, and one that is there already *)

Module Toy.
Definition os (n : nat) : Answer := mkAnswer None 0 (Some [1; 2; 3; 4; 5; 6; 7; 255]).
Definition path : Path := path_from (lit "etc//./conf").
Definition start : World := mkWorld (mkDisk {[path := [1]]} ∅) [] 0.
Definition replaced : World := (write_atomic os path [2; 3] start).2.
Definition refused : World := (write_new os path [2; 3] start).2.
End Toy.

Lemma write_atomic_all_or_nothing_witness :
  write_atomic Toy.os Toy.path [2; 3] Toy.start = (Ok tt, Toy.replaced) /\ files (disk Toy.replaced) !! Toy.path = Some [2; 3] /\
  always (whole Toy.path [2; 3] (disk Toy.start)) Toy.start Toy.replaced.
Proof.
  assert (write_atomic Toy.os Toy.path [2; 3] Toy.start = (Ok tt, Toy.replaced)) as E.
  { unfold Toy.replaced. rewrite (surjective_pairing (write_atomic Toy.os Toy.path [2; 3] Toy.start)) at 1. by f_equal. }
  split; [exact E|]. destruct (write_atomic_all_or_nothing Toy.os Toy.path [2; 3] Toy.start (Ok tt) Toy.replaced E) as (H1 & _ & _ & H4).
  split; [exact (proj1 (H1 eq_refl))|exact H4].
Defined.

Lemma write_new_keeps_what_is_there_witness :
  write_new Toy.os Toy.path [2; 3] Toy.start = (Err (err_kind AlreadyExists), Toy.refused) /\
  agree Toy.path (disk Toy.start) (disk Toy.refused).
Proof.
  assert (write_new Toy.os Toy.path [2; 3] Toy.start = (Err (err_kind AlreadyExists), Toy.refused)) as E.
  { unfold Toy.refused. rewrite (surjective_pairing (write_new Toy.os Toy.path [2; 3] Toy.start)) at 1. by f_equal. }
  split; [exact E|]. destruct (write_new_keeps_what_is_there Toy.os Toy.path [2; 3] Toy.start _ Toy.refused E) as (H1 & _).
  destruct H1 as (_ & H & _); [discriminate|exact H].
Defined.

End Files.
