(* ===== verification/TlsNames.v ===== *)
(** * Names and certificates of TLS ([src/tls.rs])

    Which certificate a server presents for the name a client asks for, and
    the host part of an address.  Names are lists of code points.  What is a
    DNS name or an IP address is a parameter (the standard library's parser
    and [rustls-pki-types]'), and so is how Rust quotes a string ([{:?}]). *)
From Stdlib Require Import String.
From S2P Require Import Prelude Io LogFormat.
Local Open Scope Z_scope.
Local Open Scope roc_scope.

Module TlsNames.

Abbreviation str := (list Z).
Definition DOT : Z := 46.
Definition STAR : Z := 42.

Fixpoint strip_leading (c : Z) (s : str) : str := match s with x :: s' => if x =? c then strip_leading c s' else s | [] => [] end.

(** [trim_end_matches(c)] *)
Definition trim_end_matches (c : Z) (s : str) : str := rev (strip_leading c (rev s)).

Definition to_ascii_lowercase (c : Z) : Z := if (65 <=? c) && (c <=? 90) then c + 32 else c.

(** [normalize_name] *)
Definition normalize_name (name : str) : str := map to_ascii_lowercase (trim_end_matches DOT name).

(** [split_once(c)] *)
Fixpoint split_once (c : Z) (s : str) : option (str * str) :=
  match s with
  | [] => None
  | x :: s => if x =? c then Some ([], s) else option_map (fun '(a, b) => (x :: a, b)) (split_once c s)
  end.

(** [rsplit_once(c)] *)
Definition rsplit_once (c : Z) (s : str) : option (str * str) := option_map (fun '(a, b) => (rev b, rev a)) (split_once c (rev s)).

(** An [io::Error] made here: its kind and its text. *)
Record TextError := mkText { te_kind : ErrorKind; te_text : str }.

(** [io::Error::other] *)
Definition other (text : str) : TextError := mkText OtherKind text.

Section Certs.
Context {K : Type}.

(** [CertsByName]; [K] is a certificate with its key. *)
Record CertsByName := mkCerts { default_ : option K; by_name : gmap str K }.

Definition certs_empty : CertsByName := mkCerts None ∅.

(** [CertsByName::lookup] and [resolve] *)
Definition lookup_cert (c : CertsByName) (name : str) : option K :=
  let name := normalize_name name in
  match by_name c !! name with
  | Some key => Some key
  | None => '(_, parent) ← split_once DOT name; by_name c !! ([STAR; DOT] ++ parent)
  end.

Definition resolve (c : CertsByName) (server_name : option str) : option K :=
  match server_name ≫= lookup_cert c with Some k => Some k | None => default_ c end.

(** [CertFiles], its files loaded (or not). *)
Record CertFiles := mkCert { name : str; key : result K TextError }.

Variable is_dns : str -> bool.
Variable debug : str -> str.

(** [check_cert_name]: what follows an optional [*.] is a DNS name. *)
Definition strip_wildcard (name : str) : str :=
  match name with x :: y :: rest => if (x =? STAR) && (y =? DOT) then rest else name | _ => name end.
Definition bad_name (name : str) : str :=
  debug name ++ LogFormat.lit " can't be a certificate's server name: it must be a DNS name, optionally starting with " ++
  [34] ++ LogFormat.lit "*." ++ [34].
Definition check_cert_name (name : str) : result unit TextError :=
  let host := strip_wildcard name in
  if negb (bool_decide (host = [])) && is_dns host then Ok tt else Err (other (bad_name name)).

(** The loop of [server_config]. *)
Fixpoint add_certs (certs : list CertFiles) (c : CertsByName) : result CertsByName TextError :=
  match certs with
  | [] => Ok c
  | files :: certs =>
      match key files with
      | Err e => Err e
      | Ok k =>
          if bool_decide (name files = []) then add_certs certs (mkCerts (Some k) (by_name c))
          else match check_cert_name (name files) with
               | Err e => Err e
               | Ok _ => add_certs certs (mkCerts (default_ c) (<[normalize_name (name files) := k]> (by_name c)))
               end
      end
  end.

(** *** Which certificate a client gets *)

(** The last one configured whose name is [n]. *)
Definition named (n : str) (f : CertFiles) : bool := negb (bool_decide (name f = [])) && bool_decide (normalize_name (name f) = n).
Definition unnamed (f : CertFiles) : bool := bool_decide (name f = []).
Definition last_of (P : CertFiles -> bool) (certs : list CertFiles) : option K :=
  match last (List.filter P certs) with Some f => match key f with Ok k => Some k | Err _ => None end | None => None end.

Lemma last_of_cons P f certs : last_of P (f :: certs) =
  match last_of P certs with
  | Some k => Some k
  | None => if P f && bool_decide (List.filter P certs = []) then match key f with Ok k => Some k | Err _ => None end else None
  end.
Proof.
  unfold last_of. simpl. destruct (P f); simpl; [|by repeat case_match].
  destruct (List.filter P certs) as [|g l] eqn:E; [done|]. rewrite last_cons_cons. rewrite bool_decide_false by done. by repeat case_match.
Qed.

Lemma add_certs_spec certs c c' : add_certs certs c = Ok c' ->
  (forall n, by_name c' !! n = match last_of (named n) certs with Some k => Some k | None => by_name c !! n end) /\
  default_ c' = match last_of unnamed certs with Some k => Some k | None => default_ c end /\
  Forall (fun f => exists k, key f = Ok k) certs.
Proof.
  revert c. induction certs as [|f certs IH]; intros c; cbn [add_certs]; [intros [= <-]; split_and!; done || constructor|].
  destruct (key f) as [k|e] eqn:Ek; [|done].
  assert (forall P, Forall (fun f => exists k, key f = Ok k) certs -> last_of P certs = None -> List.filter P certs = []) as Hlast.
  { intros P Hk Hn. unfold last_of in Hn. destruct (last (List.filter P certs)) as [g|] eqn:E.
    - assert (g ∈ List.filter P certs) as Hg by (by apply last_Some_elem_of). rewrite list_elem_of_In, filter_In, <- list_elem_of_In in Hg.
      destruct Hg as [Hg _]. rewrite Forall_forall in Hk. destruct (Hk g Hg) as [k' Hk']. by rewrite Hk' in Hn.
    - by apply last_None in E. }
  case_bool_decide as En.
  - intros Hr. apply IH in Hr as (H1 & H2 & H3). split_and!; [| |by constructor; [eexists|]].
    + intros n. rewrite H1, last_of_cons. destruct (last_of (named n) certs); [done|]. unfold named at 1. rewrite (bool_decide_true (name f = [])) by done.
      done.
    + rewrite H2, last_of_cons, Ek. destruct (last_of unnamed certs) eqn:El; [done|]. unfold unnamed at 1.
      rewrite (bool_decide_true (name f = [])) by done. simpl. by rewrite bool_decide_true by (by apply Hlast).
  - destruct (check_cert_name (name f)); [|done]. intros Hr. apply IH in Hr as (H1 & H2 & H3). split_and!; [| |by constructor; [eexists|]].
    + intros n. rewrite H1, last_of_cons, Ek. destruct (last_of (named n) certs) eqn:El; [done|]. unfold named at 1.
      rewrite (bool_decide_false (name f = [])) by done. simpl. destruct (decide (normalize_name (name f) = n)) as [<-|Hne].
      * rewrite lookup_insert_eq. rewrite bool_decide_true by done. simpl. by rewrite bool_decide_true by (by apply Hlast).
      * rewrite lookup_insert_ne by done. by rewrite bool_decide_false.
    + rewrite H2, last_of_cons. destruct (last_of unnamed certs); [done|]. unfold unnamed at 1. by rewrite bool_decide_false.
Qed.

Definition to_ascii_uppercase (c : Z) : Z := if (97 <=? c) && (c <=? 122) then c - 32 else c.

Lemma normalize_dot n : normalize_name (n ++ [DOT]) = normalize_name n.
Proof. unfold normalize_name, trim_end_matches. rewrite rev_app_distr. done. Qed.

Lemma normalize_upper n : normalize_name (map to_ascii_uppercase n) = normalize_name n.
Proof.
  unfold normalize_name, trim_end_matches. rewrite <- map_rev.
  assert (forall l, map to_ascii_lowercase (strip_leading DOT (map to_ascii_uppercase l)) = map to_ascii_lowercase (strip_leading DOT l)) as Hs.
  { assert (forall x, to_ascii_lowercase (to_ascii_uppercase x) = to_ascii_lowercase x) as Hx.
    { intros x. unfold to_ascii_lowercase, to_ascii_uppercase. repeat case_goal; lia. }
    assert (forall x, (to_ascii_uppercase x =? DOT) = (x =? DOT)) as Hd.
    { intros x. unfold to_ascii_uppercase, DOT. case_goal; [|done]. apply eq_true_iff_eq. rewrite !Z.eqb_eq. lia. }
    induction l as [|x l IH]; simpl; [done|]. rewrite Hd. destruct (x =? DOT); [done|]. simpl. rewrite Hx. f_equal.
    rewrite map_map. by apply map_ext. }
  by rewrite !(map_rev to_ascii_lowercase), Hs.
Qed.

(** The certificate a server presents: the last one configured for exactly
    the name asked for, else the last for a wildcard one label up, else the
    last without a name; case and a trailing dot make no difference. *)
Theorem certificate_chosen certs c n : add_certs certs certs_empty = Ok c ->
  let pick P (otherwise : option K) := match last_of P certs with Some k => Some k | None => otherwise end in
  resolve c (Some n) =
    pick (named (normalize_name n))
      (match split_once DOT (normalize_name n) with
       | Some (_, parent) => pick (named ([STAR; DOT] ++ parent)) (last_of unnamed certs)
       | None => last_of unnamed certs
       end) /\
  resolve c None = last_of unnamed certs /\
  resolve c (Some (n ++ [DOT])) = resolve c (Some n) /\ resolve c (Some (map to_ascii_uppercase n)) = resolve c (Some n).
Proof.
  intros (H1 & H2 & _)%add_certs_spec pick. assert (default_ c = last_of unnamed certs) as Hd by (rewrite H2; by destruct (last_of unnamed certs)).
  assert (forall m, by_name c !! m = last_of (named m) certs) as Hb by (intros m; rewrite H1; by destruct (last_of (named m) certs)).
  split_and!; [|done|by unfold resolve, lookup_cert; simpl; rewrite normalize_dot|by unfold resolve, lookup_cert; simpl; rewrite normalize_upper].
  unfold resolve, lookup_cert, pick. simpl. rewrite !Hb, Hd. destruct (last_of (named (normalize_name n)) certs); [done|].
  destruct (split_once DOT (normalize_name n)) as [[l parent]|]; simpl; [|done]. by rewrite Hb.
Qed.

End Certs.
(** ** The host part of an address *)

Definition COLON : Z := 58.

(** [host_of] *)
Definition host_of (address : str) : str :=
  match address with
  | c :: rest =>
      if c =? 91 then match split_once 93 rest with Some (host, _) => host | None => rest end
      else match rsplit_once COLON address with Some (host, _) => host | None => address end
  | [] => match rsplit_once COLON address with Some (host, _) => host | None => address end
  end.

Lemma split_once_first c a b : c ∉ a -> split_once c (a ++ c :: b) = Some (a, b).
Proof.
  induction a as [|x a IH]; intros Ha; simpl; [by rewrite Z.eqb_refl|]. apply not_elem_of_cons in Ha as [Hx Ha].
  rewrite (proj2 (Z.eqb_neq x c)) by congruence. by rewrite IH.
Qed.

(** The host of ["host:port"] and of ["[v6]:port"], for a port without a
    colon. *)
Theorem host_of_address host port : COLON ∉ port ->
  (forall c rest, host = c :: rest -> c <> 91) -> (93 ∉ host -> host_of ([91] ++ host ++ [93; COLON] ++ port) = host) /\
  host_of (host ++ [COLON] ++ port) = host.
Proof.
  intros Hp Hb. split.
  - intros Hh. simpl. by rewrite split_once_first.
  - assert (rsplit_once COLON (host ++ [COLON] ++ port) = Some (host, port)) as Hr.
    { unfold rsplit_once. rewrite !rev_app_distr. simpl. rewrite <- app_assoc. simpl. rewrite split_once_first; [|by rewrite list_elem_of_In, <- in_rev, <- list_elem_of_In].
      simpl. by rewrite !rev_involutive. }
    unfold host_of. destruct (host ++ [COLON] ++ port) as [|c rest] eqn:E; [by destruct host|].
    destruct (Z.eqb_spec c 91) as [->|]; [|by rewrite Hr]. destruct host as [|x host]; [done|]. injection E as -> _. by destruct (Hb 91 host).
Qed.

Ltac not_in := intros H; unfold COLON in H; repeat (apply elem_of_cons in H as [H|H]; [discriminate H|]); by apply elem_of_nil in H.

Lemma host_of_address_witness :
  host_of ([91] ++ [58; 58; 49] ++ [93; COLON] ++ [56; 48]) = [58; 58; 49] /\ host_of ([97; 46; 98] ++ [COLON] ++ [56; 48]) = [97; 46; 98].
Proof.
  split.
  - refine (proj1 (host_of_address [58; 58; 49] [56; 48] _ _) _); [not_in|intros c rest [= <- _]; lia|not_in].
  - refine (proj2 (host_of_address [97; 46; 98] [56; 48] _ _)); [not_in|intros c rest [= <- _]; lia].
Defined.

(** "A.b" against certificates for "a.b", "*.b" and none. *)
Lemma certificate_chosen_witness :
  let certs := [mkCert [97; 46; 98] (Ok 1); mkCert [42; 46; 98] (Ok 2); mkCert [] (Ok 3)] in
  exists c, add_certs (fun _ => true) id certs certs_empty = Ok c /\ resolve c (Some [65; 46; 98]) = Some 1 /\
    resolve c (Some [99; 46; 98; 46]) = Some 2 /\ resolve c None = Some 3.
Proof.
  intros certs. destruct (add_certs (fun _ => true) id certs certs_empty) as [c|e] eqn:E; [|discriminate E].
  exists c. split; [reflexivity|]. split; [|split].
  - rewrite (proj1 (certificate_chosen _ _ certs c [65; 46; 98] E)). vm_compute. reflexivity.
  - rewrite (proj1 (certificate_chosen _ _ certs c [99; 46; 98; 46] E)). vm_compute. reflexivity.
  - rewrite (proj1 (proj2 (certificate_chosen _ _ certs c [] E))). vm_compute. reflexivity.
Defined.

End TlsNames.
