(* ===== verification/TlsConfig.v ===== *)
(** * Configurations of TLS ([src/tls.rs])

    What a TLS client trusts and presents, and what a server presents and
    asks of its clients, from the files the program names, and the text of
    the error when one of them can't be used.  [rustls] (reading PEM, building
    trust anchors, pairing a certificate with its key, the verifier of
    clients) and the reading of files are parameters; which of a server's
    certificates a client gets is [TlsNames.v]'s. *)
From Stdlib Require Import String.
From S2P Require Import Prelude Io LogFormat TlsNames.
Local Open Scope Z_scope.

Module TlsConfig.
Import TlsNames.

(** [rustls], [webpki] and [fs::read]; an error is what it says of itself
    ([Display]). *)
Class Rustls (Cert Key Anchor Pair : Type) := {
  read_file : str -> result (list Z) str;
  pem_certs : list Z -> result (list Cert) str;
  pem_key : list Z -> result Key str;
  (** [RootCertStore::add] *)
  anchor : Cert -> result Anchor str;
  (** [webpki_roots::TLS_SERVER_ROOTS] *)
  mozilla : list Anchor;
  (** [CertifiedKey::from_der], [with_client_auth_cert]: an error, and whether
      it is [InconsistentKeys]. *)
  pair : list Cert -> Key -> result Pair (bool * str);
  (** [WebPkiClientVerifier]'s [build]. *)
  verifier : list Anchor -> result unit str;
  (** [with_safe_default_protocol_versions] *)
  versions : result unit str;
}.

(** The error as the rest of the host sees it, without its text. *)
Definition to_io (e : TextError) : IoError := err_kind (te_kind e).

(** [tls_error] *)
Definition tls_error_of (err : str) : TextError := mkText InvalidData err.
Definition tls_error : IoError := to_io (tls_error_of []).

Section Config.
Context {Cert Key Anchor Pair : Type} `{!Rustls Cert Key Anchor Pair}.

Definition file_error (path err : str) : TextError := other (path ++ LogFormat.lit ": " ++ err).

Definition mismatch (cert_file key_file : str) : TextError :=
  other (cert_file ++ LogFormat.lit ": the private key in " ++ key_file ++ LogFormat.lit " doesn't match this certificate").

Definition and_then {A B E} (r : result A E) (k : A -> result B E) : result B E := match r with Ok a => k a | Err e => Err e end.

Definition load_certs (path : str) : result (list Cert) TextError :=
  and_then (map_err (file_error path) (read_file path)) (fun pem =>
  and_then (map_err (file_error path) (pem_certs pem)) (fun certs =>
  match certs with [] => Err (file_error path (LogFormat.lit "no certificates found")) | _ => Ok certs end)).

(** [protocol.as_bytes()] of each *)
Definition alpn_ids (protocols : list str) : list (list Z) := map LogFormat.into_bytes protocols.

Fixpoint add_roots (ca_file : str) (certs : list Cert) (roots : list Anchor) : result (list Anchor) TextError :=
  match certs with
  | [] => Ok roots
  | cert :: certs => and_then (map_err (file_error ca_file) (anchor cert)) (fun a => add_roots ca_file certs (roots ++ [a]))
  end.

Definition load_roots (ca_file : str) : result (list Anchor) TextError := and_then (load_certs ca_file) (fun certs => add_roots ca_file certs []).

Definition load_key (key_file : str) : result Key TextError :=
  and_then (map_err (file_error key_file) (read_file key_file)) (fun pem => map_err (file_error key_file) (pem_key pem)).

(** [load_certified_key], and how [client_config] pairs a client's own. *)
Definition load_pair (cert_file key_file : str) : result Pair TextError :=
  and_then (load_certs cert_file) (fun certs =>
  and_then (load_key key_file) (fun key =>
  map_err (fun '((inconsistent, err) : bool * str) => if inconsistent then mismatch cert_file key_file else file_error key_file err) (pair certs key))).

(** [ClientConfig], as far as this code sets it. *)
Record ClientConfig := mkClient { trust : list Anchor; presents : option Pair; alpn_protocols : list (list Z) }.

Definition default_client_config : ClientConfig := mkClient mozilla None [].

(** [client_config]; [cert] is a [ClientCert]'s two files. *)
Definition client_config (ca_file : str) (alpn : list str) (cert : option (str * str)) : result ClientConfig TextError :=
  and_then
    (match bool_decide (ca_file = []), cert with
     | true, None => Ok default_client_config
     | no_ca, _ =>
         and_then (if no_ca : bool then Ok mozilla else load_roots ca_file) (fun roots =>
         match cert with
         | None => Ok (mkClient roots None [])
         | Some (cert_file, key_file) => and_then (load_pair cert_file key_file) (fun p => Ok (mkClient roots (Some p) []))
         end)
     end)
    (fun base => match alpn with [] => Ok base | _ => Ok (mkClient (trust base) (presents base) (alpn_ids alpn)) end).

(** [CertFiles] and [ClientAuth] *)
Record CertPaths := mkPaths { server_name : str; cert_file : str; key_file : str }.
Record ClientAuth := mkAuth { ca_file : str; required : bool }.

(** [ServerConfig]: the certificates by name, and whether clients are asked
    for one that leads to these anchors, and let in without. *)
Record ServerConfig := mkServer { resolver : @CertsByName Pair; clients : option (list Anchor * bool); s_alpn : list (list Z) }.

Variable is_dns : str -> bool.
Variable debug : str -> str.

Definition loaded (files : CertPaths) : @CertFiles Pair := mkCert (server_name files) (load_pair (cert_file files) (key_file files)).

Definition server_config (certs : list CertPaths) (alpn : list str) (client_auth : option ClientAuth) : result ServerConfig TextError :=
  and_then (add_certs is_dns debug (map loaded certs) certs_empty) (fun resolver =>
  and_then (map_err tls_error_of versions) (fun _ =>
  and_then
    (match client_auth with
     | None => Ok None
     | Some auth =>
         and_then (load_roots (ca_file auth)) (fun roots =>
         and_then (map_err (file_error (ca_file auth)) (verifier roots)) (fun _ => Ok (Some (roots, required auth))))
     end)
    (fun clients => Ok (mkServer resolver clients (alpn_ids alpn))))).

(** ** What the files hold

    And why one can't be used, stated of the files themselves. *)

Definition certs_in (path : str) (certs : list Cert) : Prop :=
  exists pem, read_file path = Ok pem /\ pem_certs pem = Ok certs /\ certs <> [].

Definition certs_bad (path why : str) : Prop :=
  read_file path = Err why \/
  exists pem, read_file path = Ok pem /\ (pem_certs pem = Err why \/ (pem_certs pem = Ok [] /\ why = LogFormat.lit "no certificates found")).

Definition anchors_in (path : str) (roots : list Anchor) : Prop :=
  exists certs, certs_in path certs /\ Forall2 (fun c a => anchor c = Ok a) certs roots.

(** The first of its certificates that is no anchor is why. *)
Definition anchors_bad (path why : str) : Prop :=
  certs_bad path why \/
  exists before c after, certs_in path (before ++ c :: after) /\ Forall (fun c => exists a, anchor c = Ok a) before /\ anchor c = Err why.

Definition key_in (path : str) (key : Key) : Prop := exists pem, read_file path = Ok pem /\ pem_key pem = Ok key.

Definition key_bad (path why : str) : Prop :=
  read_file path = Err why \/ exists pem, read_file path = Ok pem /\ pem_key pem = Err why.

Definition pair_in (cert_file key_file : str) (p : Pair) : Prop :=
  exists certs key, certs_in cert_file certs /\ key_in key_file key /\ pair certs key = Ok p.

(** The text of an error that names one file and says why. *)
Definition names (path why text : str) : Prop := text = path ++ LogFormat.lit ": " ++ why.

(** Why two files are no pair, and the file at fault named in the text. *)
Inductive pair_bad (cert_file key_file : str) (text : str) : Prop :=
  | bad_cert why : certs_bad cert_file why -> names cert_file why text -> pair_bad cert_file key_file text
  | bad_key certs why : certs_in cert_file certs -> key_bad key_file why -> names key_file why text -> pair_bad cert_file key_file text
  | bad_pair certs key why : certs_in cert_file certs -> key_in key_file key -> pair certs key = Err (false, why) ->
      names key_file why text -> pair_bad cert_file key_file text
  | bad_match certs key why : certs_in cert_file certs -> key_in key_file key -> pair certs key = Err (true, why) ->
      text = cert_file ++ LogFormat.lit ": the private key in " ++ key_file ++ LogFormat.lit " doesn't match this certificate" ->
      pair_bad cert_file key_file text.

Lemma load_certs_spec path :
  match load_certs path with
  | Ok certs => certs_in path certs
  | Err e => exists why, certs_bad path why /\ e = file_error path why
  end.
Proof.
  unfold load_certs, certs_in, certs_bad. destruct (read_file path) as [pem|e]; cbn; [|by exists e; auto].
  destruct (pem_certs pem) as [[|c certs]|e] eqn:Ep; cbn; [eexists; split; [|done]; eauto 6|by exists pem|exists e; eauto 6].
Qed.

Lemma add_roots_spec path certs roots :
  match add_roots path certs roots with
  | Ok r => exists more, Forall2 (fun c a => anchor c = Ok a) certs more /\ r = roots ++ more
  | Err e => exists before c after why, certs = before ++ c :: after /\ Forall (fun c => exists a, anchor c = Ok a) before /\
               anchor c = Err why /\ e = file_error path why
  end.
Proof.
  revert roots. induction certs as [|c certs IH]; intros roots; cbn [add_roots]; [exists []; rewrite app_nil_r; by split|].
  destruct (anchor c) as [a|why] eqn:Ea; cbn; [|exists [], c, certs, why; by split_and!].
  specialize (IH (roots ++ [a])). destruct (add_roots _ _ _) as [r|e].
  - destruct IH as (more & Hm & ->). exists (a :: more). rewrite <- app_assoc. split; [by constructor|done].
  - destruct IH as (before & c' & after & why & -> & Hb & Hc & ->). exists (c :: before), c', after, why. split_and!; eauto.
Qed.

Lemma load_roots_spec path :
  match load_roots path with
  | Ok r => anchors_in path r
  | Err e => exists why, anchors_bad path why /\ e = file_error path why
  end.
Proof.
  unfold load_roots, anchors_in, anchors_bad. pose proof (load_certs_spec path) as Hc.
  destruct (load_certs path) as [certs|e]; cbn; [|destruct Hc as (why & Hb & ->); eauto].
  pose proof (add_roots_spec path certs []) as H. destruct (add_roots _ _ _) as [r|e].
  - destruct H as (more & Hm & ->). eauto.
  - destruct H as (before & c & after & why & -> & Hb & He & ->). exists why. split; [right|done]. by exists before, c, after.
Qed.

Lemma load_key_spec path :
  match load_key path with
  | Ok key => key_in path key
  | Err e => exists why, key_bad path why /\ e = file_error path why
  end.
Proof.
  unfold load_key, key_in, key_bad. destruct (read_file path) as [pem|e]; cbn; [|by exists e; auto].
  destruct (pem_key pem) as [key|e] eqn:Ep; cbn; [by exists pem|exists e; eauto 6].
Qed.

Lemma load_pair_spec c k :
  match load_pair c k with
  | Ok p => pair_in c k p
  | Err e => te_kind e = OtherKind /\ pair_bad c k (te_text e)
  end.
Proof.
  unfold load_pair. pose proof (load_certs_spec c) as Hc. destruct (load_certs c) as [certs|e]; cbn.
  2: { destruct Hc as (why & Hb & ->). split; [done|by eapply bad_cert]. }
  pose proof (load_key_spec k) as Hk. destruct (load_key k) as [key|e]; cbn.
  2: { destruct Hk as (why & Hb & ->). split; [done|by eapply bad_key]. }
  destruct (pair certs key) as [p|[[] why]] eqn:Ep; cbn; [by exists certs, key|split; [done|by eapply bad_match]|split; [done|by eapply bad_pair]].
Qed.

(** ** Clients *)

Lemma client_trusts ca alpn cert :
  match client_config ca alpn cert with
  | Ok c => (if bool_decide (ca = []) then trust c = mozilla else anchors_in ca (trust c)) /\
      match cert with Some (cf, kf) => exists p, presents c = Some p /\ pair_in cf kf p | None => presents c = None end /\
      alpn_protocols c = map LogFormat.into_bytes alpn
  | Err e => te_kind e = OtherKind /\
      ((ca <> [] /\ exists why, anchors_bad ca why /\ names ca why (te_text e)) \/
       ((ca = [] \/ exists roots, anchors_in ca roots) /\ exists cf kf, cert = Some (cf, kf) /\ pair_bad cf kf (te_text e)))
  end.
Proof.
  unfold client_config. pose proof (load_roots_spec ca) as Hr. destruct cert as [[cf kf]|].
  - pose proof (load_pair_spec cf kf) as Hp. case_bool_decide; cbn [and_then].
    + destruct (load_pair cf kf) as [p|e]; cbn [and_then]; [destruct alpn; cbn; split_and!; eauto|]. destruct Hp. split; [done|]. right. split; [by left|eauto].
    + destruct (load_roots ca) as [r|e]; cbn [and_then]; [|destruct Hr as (why & Hb & ->); split; [done|left; split; [done|by exists why]]].
      destruct (load_pair cf kf) as [p|e]; cbn [and_then]; [destruct alpn; cbn; split_and!; eauto|]. destruct Hp. split; [done|]. right. split; [by right; exists r|eauto].
  - case_bool_decide; cbn [and_then]; [by destruct alpn|].
    destruct (load_roots ca) as [r|e]; cbn [and_then]; [by destruct alpn|destruct Hr as (why & Hb & ->); split; [done|left; split; [done|by exists why]]].
Qed.

(** ** Servers *)

(** What a server presents is one of the certificates configured. *)
Lemma last_of_in (P : @CertFiles Pair -> bool) certs k : last_of P certs = Some k -> exists f, f ∈ certs /\ key f = Ok k.
Proof.
  unfold last_of. destruct (last (List.filter P certs)) as [f|] eqn:E; [|done]. destruct (key f) as [k'|] eqn:Ek; [|done]. intros [= ->].
  exists f. split; [|done]. apply last_Some_elem_of in E. rewrite list_elem_of_In, filter_In, <- list_elem_of_In in E. tauto.
Qed.

Lemma resolve_in (certs : list (@CertFiles Pair)) c n k : add_certs is_dns debug certs certs_empty = Ok c -> resolve c n = Some k -> exists f, f ∈ certs /\ key f = Ok k.
Proof.
  intros (Hn & Hd & _)%add_certs_spec. assert (forall m x, by_name c !! m = Some x -> exists f, f ∈ certs /\ key f = Ok x) as Hb.
  { intros m x. rewrite Hn. destruct (last_of (named m) certs) as [y|] eqn:E; [|by cbn; rewrite lookup_empty]. intros [= ->]. exact (last_of_in _ _ _ E). }
  unfold resolve. destruct (n ≫= lookup_cert c) as [x|] eqn:E.
  - intros [= <-]. destruct n as [n|]; [|done]. cbn in E. unfold lookup_cert in E. destruct (by_name c !! _) as [y|] eqn:Ey; [injection E as <-; eauto|].
    destruct (split_once _ _) as [[a b]|]; cbn in E; [eauto|done].
  - rewrite Hd. destruct (last_of _ certs) eqn:El; [intros Hx; simplify_eq; by eapply last_of_in|done].
Qed.

(** A name by which a certificate can be chosen: none, or a DNS name after an
    optional wildcard. *)
Definition good_name (name : str) : Prop := name = [] \/ (strip_wildcard name <> [] /\ is_dns (strip_wildcard name) = true).

Definition good_cert (files : CertPaths) : Prop := good_name (server_name files) /\ exists p, pair_in (cert_file files) (key_file files) p.

(** What is wrong with a certificate, and the text that says so. *)
Inductive cert_bad (files : CertPaths) (text : str) : Prop :=
  | bad_files : pair_bad (cert_file files) (key_file files) text -> cert_bad files text
  | bad_server_name p : pair_in (cert_file files) (key_file files) p -> ~ good_name (server_name files) ->
      text = bad_name debug (server_name files) -> cert_bad files text.

Lemma check_cert_name_spec n : n <> [] ->
  match check_cert_name is_dns debug n with Ok _ => good_name n | Err e => ~ good_name n /\ e = other (bad_name debug n) end.
Proof.
  intros Hn. unfold check_cert_name, good_name. case_bool_decide as Eh; cbn; [by split; [intros [|[]]|]|].
  destruct (is_dns _); cbn; [by right|]. by split; [intros [|[]]|].
Qed.

Lemma add_certs_outcome certs c :
  match add_certs is_dns debug (map loaded certs) c with
  | Ok _ => Forall good_cert certs
  | Err e => te_kind e = OtherKind /\ exists before files after, certs = before ++ files :: after /\ Forall good_cert before /\ cert_bad files (te_text e)
  end.
Proof.
  assert (forall files certs e, good_cert files ->
    (te_kind e = OtherKind /\ exists before f after, certs = before ++ f :: after /\ Forall good_cert before /\ cert_bad f (te_text e)) ->
    te_kind e = OtherKind /\ exists before f after, files :: certs = before ++ f :: after /\ Forall good_cert before /\ cert_bad f (te_text e)) as Hmore.
  { intros files l e Hg (Hk & before & f & after & -> & Hb & Hc). split; [done|]. exists (files :: before), f, after. split_and!; [done|by constructor|done]. }
  revert c. induction certs as [|files certs IH]; intros c; cbn [map add_certs loaded key name]; [done|].
  pose proof (load_pair_spec (cert_file files) (key_file files)) as Hp. destruct (load_pair _ _) as [p|e].
  2: { destruct Hp as [Hk Hp]. split; [done|]. exists [], files, certs. split_and!; [done|constructor|by apply bad_files]. }
  case_bool_decide as En.
  - assert (good_cert files) as Hg by (split; [by left|eauto]). match goal with |- context [add_certs _ _ _ ?c'] => specialize (IH c') end.
    destruct (add_certs _ _ _ _); [by constructor|auto].
  - pose proof (check_cert_name_spec _ En) as Hn. destruct (check_cert_name _ _ _) as [u|e].
    + assert (good_cert files) as Hg by (split; [done|eauto]). match goal with |- context [add_certs _ _ _ ?c'] => specialize (IH c') end.
      destruct (add_certs _ _ _ _); [by constructor|auto].
    + destruct Hn as [Hn ->]. split; [done|]. exists [], files, certs. split_and!; [done|constructor|by eapply bad_server_name].
Qed.

Lemma loaded_key f p : key (loaded f) = Ok p -> pair_in (cert_file f) (key_file f) p.
Proof. cbn. pose proof (load_pair_spec (cert_file f) (key_file f)) as H. destruct (load_pair _ _); [by intros [= ->]|done]. Qed.

Lemma server_checks certs alpn auth :
  match server_config certs alpn auth with
  | Ok s => match auth with
            | Some a => exists roots, anchors_in (ca_file a) roots /\ verifier roots = Ok tt /\ clients s = Some (roots, required a)
            | None => clients s = None
            end /\ add_certs is_dns debug (map loaded certs) certs_empty = Ok (resolver s) /\ Forall good_cert certs /\ s_alpn s = map LogFormat.into_bytes alpn
  | Err e =>
      (te_kind e = OtherKind /\ exists before files after, certs = before ++ files :: after /\ Forall good_cert before /\ cert_bad files (te_text e)) \/
      (Forall good_cert certs /\ exists why, versions = Err why /\ e = mkText InvalidData why) \/
      (Forall good_cert certs /\ te_kind e = OtherKind /\ exists a why, auth = Some a /\ names (ca_file a) why (te_text e) /\
         (anchors_bad (ca_file a) why \/ exists roots, anchors_in (ca_file a) roots /\ verifier roots = Err why))
  end.
Proof.
  unfold server_config. pose proof (add_certs_outcome certs certs_empty) as Ha. destruct (add_certs _ _ _ _) as [c|e]; cbn [and_then]; [|by left].
  destruct versions as [[]|why] eqn:Ev; cbn [and_then map_err]; [|by right; left; eauto].
  destruct auth as [a|]; cbn [and_then]; [|by split_and!].
  pose proof (load_roots_spec (ca_file a)) as Hr. destruct (load_roots (ca_file a)) as [roots|e]; cbn [and_then].
  2: { destruct Hr as (why & Hb & ->). right. right. split_and!; [done..|]. exists a, why. split_and!; [done..|by left]. }
  destruct (verifier roots) as [[]|why] eqn:Eb; cbn [and_then map_err]; [by split_and!; eauto|].
  right. right. split_and!; [done..|]. exists a, why. split_and!; [done..|right; eauto].
Qed.

(** C32: No configuration trusts or presents anything but what it was asked to.
    A client with a CA file trusts exactly the certificates in it, all of them
    and at least one, and without a file Mozilla's; a server given a CA file
    for its clients checks them against exactly that file's, and lets in a
    client without a certificate only where it was said to; certificates and
    keys come from the files named and fit together; the protocols are those
    given.  A file that can't be used is never a configuration without it but
    an error, and its text starts with that file's name and ends with the
    reason: the CA's if that one can't be used, else the certificate's or the
    key's, whichever is at fault, or both when they don't fit each other; of a
    server's certificates the first that is bad, of which a bad server name is
    an error that quotes it. *)
Theorem configured_as_asked :
  (forall ca alpn cert c, client_config ca alpn cert = Ok c ->
     (if bool_decide (ca = []) then trust c = mozilla else anchors_in ca (trust c)) /\
     match cert with Some (cf, kf) => exists p, presents c = Some p /\ pair_in cf kf p | None => presents c = None end /\
     alpn_protocols c = map LogFormat.into_bytes alpn) /\
  (forall ca alpn cert e, client_config ca alpn cert = Err e ->
     te_kind e = OtherKind /\
     ((ca <> [] /\ exists why, anchors_bad ca why /\ names ca why (te_text e)) \/
      ((ca = [] \/ exists roots, anchors_in ca roots) /\ exists cf kf, cert = Some (cf, kf) /\ pair_bad cf kf (te_text e)))) /\
  (forall certs alpn auth s, server_config certs alpn auth = Ok s ->
     match auth with
     | Some a => exists roots, anchors_in (ca_file a) roots /\ verifier roots = Ok tt /\ clients s = Some (roots, required a)
     | None => clients s = None
     end /\
     add_certs is_dns debug (map loaded certs) certs_empty = Ok (resolver s) /\ Forall good_cert certs /\
     (forall n p, resolve (resolver s) n = Some p -> exists files, files ∈ certs /\ pair_in (cert_file files) (key_file files) p) /\
     s_alpn s = map LogFormat.into_bytes alpn) /\
  (forall certs alpn auth e, server_config certs alpn auth = Err e ->
     (te_kind e = OtherKind /\ exists before files after, certs = before ++ files :: after /\ Forall good_cert before /\ cert_bad files (te_text e)) \/
     (Forall good_cert certs /\ exists why, versions = Err why /\ e = mkText InvalidData why) \/
     (Forall good_cert certs /\ te_kind e = OtherKind /\ exists a why, auth = Some a /\ names (ca_file a) why (te_text e) /\
        (anchors_bad (ca_file a) why \/ exists roots, anchors_in (ca_file a) roots /\ verifier roots = Err why))).
Proof.
  split_and!.
  - intros ca alpn cert c E. pose proof (client_trusts ca alpn cert) as H. by rewrite E in H.
  - intros ca alpn cert e E. pose proof (client_trusts ca alpn cert) as H. by rewrite E in H.
  - intros certs alpn auth s E. pose proof (server_checks certs alpn auth) as H. rewrite E in H. destruct H as (Hc & Ha & Hg & Hp). split_and!; [done..| |done].
    intros n p Hn. destruct (resolve_in _ _ _ _ Ha Hn) as (f & Hf & Hk). apply list_elem_of_fmap in Hf as (x & -> & Hx). exists x. split; [done|by apply loaded_key].
  - intros certs alpn auth e E. pose proof (server_checks certs alpn auth) as H. by rewrite E in H.
Qed.

End Config.

(** ** Files by their first letter *)

Module Toy.
(** A PEM file is the numbers of its certificates; key [k] goes with a chain
    that starts with [k]. *)
#[export] Instance toy_rustls : Rustls Z Z Z Z := {|
  read_file p := match p with [c] => Ok [c; c + 1] | _ => Err (LogFormat.lit "not found") end;
  pem_certs pem := Ok pem; pem_key pem := match pem with k :: _ => Ok k | [] => Err [] end; anchor c := if c =? 13 then Err (LogFormat.lit "bad") else Ok c;
  mozilla := [1000]; pair certs k := match certs with c :: _ => if c =? k then Ok k else Err (true, []) | [] => Err (false, []) end;
  verifier _ := Ok tt; versions := Ok tt |}.
End Toy.
Import Toy.

Lemma configured_as_asked_witness :
  client_config [5] [[104]] None = Ok (mkClient [5; 6] None [[104]]) /\ anchors_in [5] [5; 6] /\
  (exists e, client_config [12] [] (Some ([7], [7])) = Err e /\ te_text e = [12] ++ LogFormat.lit ": bad" /\ anchors_bad [12] (LogFormat.lit "bad")) /\
  (exists s roots, server_config (fun _ => true) id [mkPaths [97] [7] [7]] [] (Some (mkAuth [5] true)) = Ok s /\ clients s = Some (roots, true)) /\
  (exists e, server_config (fun _ => true) id [mkPaths [] [7] [7]; mkPaths [97] [7] [8]] [] None = Err e /\
     exists before files after, [mkPaths [] [7] [7]; mkPaths [97] [7] [8]] = before ++ files :: after /\ cert_bad (fun _ => true) id files (te_text e)).
Proof.
  destruct (configured_as_asked (fun _ => true) id) as (H1 & H2 & H3 & H4). split; [reflexivity|]. split; [|split; [|split]].
  - exact (proj1 (H1 [5] [[104]] None _ eq_refl)).
  - eexists. split; [reflexivity|]. split; [reflexivity|].
    destruct (H2 [12] [] (Some ([7], [7])) _ eq_refl) as (_ & [(_ & why & Hb & Hn)|([E|[roots Hr]] & _)]); [| |exfalso].
    + by injection Hn as <-.
    + discriminate E.
    + destruct Hr as (certs & (pem & [= <-] & [= <-] & _) & HF). inversion HF as [|? ? ? ? _ HF']; subst. inversion HF' as [|? ? ? ? Hx _]; subst. discriminate Hx.
  - eexists. destruct (H3 [mkPaths [97] [7] [7]] [] (Some (mkAuth [5] true)) _ eq_refl) as ((roots & _ & _ & E) & _). exists roots. split; [reflexivity|exact E].
  - eexists. split; [reflexivity|].
    destruct (H4 [mkPaths [] [7] [7]; mkPaths [97] [7] [8]] [] None _ eq_refl) as [(_ & b & f & a & E & _ & Hc)|[(_ & why & [=] & _)|(_ & _ & a & why & [=] & _)]].
    exists b, f, a. by split.
Defined.

End TlsConfig.
