(* ===== verification/Tls.v ===== *)
(** * TLS streams ([src/tls.rs])

    rustls is a parameter: a connection [C] with the records it has queued to
    send, which takes ciphertext and gives plaintext ([Rustls]; what is relied
    on is [RustlsLaws]).  Around it, the operations of [TlsStream]: what each
    does under the mutex [inner], as a function, and the stream as a state
    machine of tasks that hold its read, write and handshake locks across
    their waits on the socket.

    Kept alongside are the bytes received from the socket and given to rustls,
    and those rustls made and the socket took. *)
From S2P Require Import Prelude Io.
Local Open Scope Z_scope.
Local Open Scope roc_scope.

Module Tls.

Definition CHUNK : nat := Z.to_nat (16 * 1024).
#[global] Arguments CHUNK : simpl never.

(** [rustls::Connection] *)
Class Rustls (C : Type) := {
  is_handshaking : C -> bool;
  (** The records queued; [wants_write] is that there are any. *)
  out : C -> list Z;
  (** [write_tls], of which the sink took so many bytes. *)
  drop_out : nat -> C -> C;
  (** [read_tls] from bytes at hand: how many it took; from a socket it reads
      at most [room]. *)
  room : C -> nat;
  read_tls : list Z -> C -> io_result nat * C;
  (** [process_new_packets]: plaintext to read, whether the peer has closed. *)
  process_new_packets : C -> io_result (nat * bool) * C;
  (** [reader().read] and [writer().write_all] *)
  read_plain : nat -> C -> io_result (list Z) * C;
  write_plain : list Z -> C -> io_result unit * C;
  send_close_notify : C -> C;
}.

Definition wants_write {C} `{Rustls C} (c : C) : bool := negb (bool_decide (out c = [])).

(** Records are only ever added at the end, and [read_tls] takes bytes from
    the front, at least one unless it fails, and all if it has room. *)
Class RustlsLaws (C : Type) `{Rustls C} : Prop := {
  out_drop : forall n c, out (drop_out n c) = drop n (out c);
  out_read : forall b c, out (read_tls b c).2 = out c;
  read_takes : forall b c n c', read_tls b c = (Ok n, c') -> (n <= length b)%nat /\ (b <> [] -> (0 < n)%nat);
  read_room : forall b c n c', (length b <= room c)%nat -> read_tls b c = (Ok n, c') -> n = length b;
  out_process : forall c, out c `prefix_of` out (process_new_packets c).2;
  out_read_plain : forall n c, out (read_plain n c).2 = out c;
  out_write_plain : forall d c, out c `prefix_of` out (write_plain d c).2;
  out_close : forall c, out c `prefix_of` out (send_close_notify c);
}.

Section Ops.
Context {C : Type} `{Rustls C}.

(** [Inner] *)
Record Inner := mkInner { conn : C; pending : list Z }.

(** [take_records]: [while conn.wants_write() { conn.write_tls(&mut records)?; }],
    into a vector, which takes all. *)
Definition take_records (c : C) : list Z * C := (out c, drop_out (length (out c)) c).

(** The loop of [try_read], with [inner] held: the result and whether the hold
    was idle. *)
Fixpoint try_read_loop (fuel : nat) (ignore_eof : bool) (len : nat) (i : Inner) : option (io_result (option (list Z)) * bool * Inner) :=
  match fuel with
  | O => None
  | S fuel =>
      match read_plain len (conn i) with
      | (Ok bytes, c) => Some (Ok (Some bytes), false, mkInner c (pending i))
      | (Err e, c) =>
          if is_kind WouldBlock e then
            if bool_decide (pending i = []) then Some (Ok None, true, mkInner c (pending i))
            else
              match read_tls (pending i) c with
              | (Err e, c) => Some (Err e, false, mkInner c (pending i))
              | (Ok consumed, c) =>
                  let rest := drop consumed (pending i) in
                  match process_new_packets c with
                  | (Err e, c) => Some (Err e, false, mkInner c rest)
                  | (Ok _, c) => if wants_write c then Some (Ok None, false, mkInner c rest) else try_read_loop fuel ignore_eof len (mkInner c rest)
                  end
              end
          else if is_kind UnexpectedEof e && ignore_eof then Some (Ok (Some []), false, mkInner c (pending i))
          else Some (Err e, false, mkInner c (pending i))
      end
  end.

(** What [fill_by] and [fill_now] find before they go to the socket. *)
Inductive Fill := SendPending | HasData | Receive | FillFailed (e : IoError).

Definition fill_check (i : Inner) : Fill * Inner :=
  if wants_write (conn i) then (SendPending, i)
  else if negb (bool_decide (pending i = [])) then (HasData, i)
  else match process_new_packets (conn i) with
       | (Err e, c) => (FillFailed e, mkInner c (pending i))
       | (Ok (plain, closed), c) => (if (0 <? plain)%nat || closed then HasData else Receive, mkInner c (pending i))
       end.

(** [pending.extend_from_slice(&raw[..n])] *)
Definition received_bytes (bytes : list Z) (i : Inner) : Inner := mkInner (conn i) (pending i ++ bytes).

(** [n == 0]: tell rustls the connection ended. *)
Definition received_eof (i : Inner) : io_result unit * Inner :=
  match read_tls [] (conn i) with
  | (Err e, c) => (Err e, mkInner c (pending i))
  | (Ok _, c) => match process_new_packets c with
                 | (Err e, c) => (Err e, mkInner c (pending i))
                 | (Ok _, c) => (Ok tt, mkInner c (pending i))
                 end
  end.

(** A turn of [write_all]'s loop under [inner]: the records for one chunk. *)
Definition encrypt_chunk (chunk : list Z) (i : Inner) : io_result (list Z) * Inner :=
  match write_plain chunk (conn i) with
  | (Err e, c) => (Err e, mkInner c (pending i))
  | (Ok _, c) => let '(records, c) := take_records c in (Ok records, mkInner c (pending i))
  end.

(** [shutdown]'s and [drop]'s. *)
Definition close_records (i : Inner) : list Z * Inner :=
  let '(records, c) := take_records (send_close_notify (conn i)) in (records, mkInner c (pending i)).

(** ** Reading *)

Context `{!RustlsLaws C}.

(** Whatever [try_read] did, what it took from [pending] is a prefix of it,
    and records were only added. *)
Lemma try_read_prefix fuel ig len i r idle i' : try_read_loop fuel ig len i = Some (r, idle, i') ->
  pending i' `suffix_of` pending i /\ out (conn i) `prefix_of` out (conn i').
Proof.
  revert i. induction fuel as [|fuel IH]; intros i; [done|]. cbn [try_read_loop].
  pose proof (out_read_plain len (conn i)) as Ho. destruct (read_plain len (conn i)) as [[bytes|e] c]; simpl in Ho.
  { intros [= <- <- <-]. simpl. rewrite Ho. done. }
  destruct (is_kind WouldBlock e).
  2:{ destruct (_ && ig); intros [= <- <- <-]; simpl; by rewrite Ho. }
  case_bool_decide; [intros [= <- <- <-]; simpl; by rewrite Ho|].
  pose proof (out_read (pending i) c) as Ho2. destruct (read_tls (pending i) c) as [[n|e2] c2] eqn:Er; simpl in Ho2.
  2:{ intros [= <- <- <-]. simpl. by rewrite Ho2, Ho. }
  pose proof (out_process c2) as Ho3. rewrite Ho2, Ho in Ho3. assert (drop n (pending i) `suffix_of` pending i) as Hs by (exists (take n (pending i)); by rewrite take_drop).
  destruct (process_new_packets c2) as [[st|e3] c3]; simpl in Ho3; [|by intros [= <- <- <-]].
  destruct (wants_write c3); [by intros [= <- <- <-]|]. intros [H1 H2]%IH. simpl in *. split; by etrans.
Qed.

(** [try_read] returns: each turn of its loop takes bytes from what was
    received, so it ends after as many turns as there are. *)
Theorem try_read_ends ig len i : is_Some (try_read_loop (S (length (pending i))) ig len i).
Proof.
  remember (S (length (pending i))) as fuel eqn:E. assert (length (pending i) < fuel)%nat as Hf by lia. clear E. revert i Hf.
  induction fuel as [|fuel IH]; intros i Hf; [lia|]. cbn [try_read_loop]. destruct (read_plain len (conn i)) as [[bytes|e] c]; [done|].
  destruct (is_kind WouldBlock e); [|by destruct (_ && ig)]. case_bool_decide as Ep; [done|].
  destruct (read_tls (pending i) c) as [[n|e2] c2] eqn:Er; [|done]. apply read_takes in Er as [Hn Hp]. specialize (Hp Ep).
  destruct (process_new_packets c2) as [[st|e3] c3]; [|done]. destruct (wants_write c3); [done|]. apply IH. simpl. rewrite length_drop. lia.
Qed.

(** A TLS stream ends for its reader only when it ended for rustls: [try_read]
    returns the end of the stream only if rustls gave it (a [close_notify]),
    or the connection just dropped and the stream was told to ignore that. *)
Theorem no_silent_truncation fuel ig len i idle i' :
  try_read_loop fuel ig len i = Some (Ok (Some []), idle, i') ->
  exists c, read_plain len c = (Ok [], conn i') \/ (exists e, read_plain len c = (Err e, conn i') /\ kind e = UnexpectedEof /\ ig = true).
Proof using Type.
  revert i. induction fuel as [|fuel IH]; intros i; [done|]. cbn [try_read_loop]. destruct (read_plain len (conn i)) as [[bytes|e] c] eqn:Er.
  { intros [= -> <- <-]. eauto. }
  destruct (is_kind WouldBlock e) eqn:Ek.
  - case_bool_decide; [done|]. destruct (read_tls (pending i) c) as [[n|e2] c2]; [|done].
    destruct (process_new_packets c2) as [[st|e3] c3]; [|done]. destruct (wants_write c3); [done|]. apply IH.
  - destruct (is_kind UnexpectedEof e && ig) eqn:Eu; [|done]. intros [= <- <-]. apply andb_true_iff in Eu as [Eu ->].
    exists (conn i). right. exists e. split_and!; [done|by apply bool_decide_eq_true in Eu|done].
Qed.

(** ** The handshake

    It holds [inner] across its waits, so it is a loop of its own over the
    socket as [Wire] shows it. *)

Class Wire (W : Type) := {
  wire_now : W -> instant;
  (** One [read] of at most so much, or [write], waiting until the deadline. *)
  wire_read : deadline -> nat -> io W (io_result (list Z));
  wire_write : deadline -> list Z -> io W (io_result nat);
}.

(** A wait ends by its deadline, and with a timeout only past it. *)
Class WireLaws (W : Type) `{Wire W} : Prop := {
  read_by : forall at_ n w r w', wire_read (Some at_) n w = Some (r, w') -> wire_now w <= wire_now w' <= Z.max at_ (wire_now w);
  write_by : forall at_ d w r w', wire_write (Some at_) d w = Some (r, w') -> wire_now w <= wire_now w' <= Z.max at_ (wire_now w);
}.

Section Handshake.
Context {W : Type} `{Wire W}.

(** [while conn.wants_write() && conn.write_tls(&mut wire).is_ok() {}] *)
Fixpoint send_alert (fuel : nat) (d : deadline) (c : C) : io W C :=
  match fuel with
  | O => fun _ => None
  | S fuel =>
      if wants_write c then
        r ← wire_write d (out c);
        match r with Ok n => send_alert fuel d (drop_out n c) | Err _ => mret c end
      else mret c
  end.

(** [run_handshake]: on success the caller may use the stream. *)
Fixpoint run_handshake (fuel : nat) (d : deadline) (c : C) : io W (io_result unit * C) :=
  match fuel with
  | O => fun _ => None
  | S fuel =>
      if is_handshaking c || wants_write c then
        late ← get (fun w => past d (wire_now w));
        if late : bool then mret (Err timed_out, c)
        else if wants_write c then
          r ← wire_write d (out c);
          match r with Ok n => run_handshake fuel d (drop_out n c) | Err e => mret (Err e, c) end
        else
          r ← wire_read d (room c);
          match r with
          | Err e => mret (Err e, c)
          | Ok [] => mret (Err (err_kind UnexpectedEof), c)
          | Ok bytes =>
              match read_tls bytes c with
              | (Err e, c) => mret (Err e, c)
              | (Ok _, c) =>
                  match process_new_packets c with
                  | (Ok _, c) => run_handshake fuel d c
                  | (Err e, c) => c ← send_alert fuel d c; mret (Err e, c)
                  end
              end
          end
      else mret (Ok tt, c)
  end.

Lemma send_alert_by fuel at_ c w c' w' `{!WireLaws W} : send_alert fuel (Some at_) c w = Some (c', w') ->
  wire_now w <= wire_now w' <= Z.max at_ (wire_now w).
Proof.
  revert c w. induction fuel as [|fuel IH]; intros c w; [done|]. cbn [send_alert]. destruct (wants_write c); [|intros [= <- <-]; lia].
  unfold mbind, io_bind. destruct (wire_write _ _ _) as [[[n|e] w1]|] eqn:Hb; [apply write_by in Hb..|done].
  - intros Hr%IH. lia.
  - intros [= <- <-]. lia.
Qed.

(** The handshake as a whole is bounded by its deadline, however slowly its
    peer sends: when it returns no more time has passed than that (or none,
    if the deadline had passed before); and it succeeds only when the
    handshake is complete and everything there was to send has been. *)
Theorem handshake_by_deadline fuel at_ c w r c' w' `{!WireLaws W} : run_handshake fuel (Some at_) c w = Some ((r, c'), w') ->
  wire_now w <= wire_now w' <= Z.max at_ (wire_now w) /\ (r = Ok tt -> is_handshaking c' = false /\ out c' = []).
Proof.
  revert c w. induction fuel as [|fuel IH]; intros c w; [done|]. cbn [run_handshake].
  destruct (is_handshaking c || wants_write c) eqn:Eg.
  2:{ intros [= <- <- <-]. split; [lia|]. intros _. apply orb_false_iff in Eg as [-> Eg]. split; [done|].
      unfold wants_write in Eg. by apply negb_false_iff, bool_decide_eq_true in Eg. }
  unfold mbind at 1, io_bind at 1, get at 1. destruct (past _ _); [intros [= <- <- <-]; split; [lia|done]|].
  destruct (wants_write c); unfold mbind at 1, io_bind at 1.
  - destruct (wire_write _ _ _) as [[[n|e] w1]|] eqn:Hb; [apply write_by in Hb..|done].
    + intros [Hn Hr]%IH. split; [lia|done].
    + intros [= <- <- <-]. split; [lia|done].
  - destruct (wire_read _ _ _) as [[[[|b bytes]|e] w1]|] eqn:Hb; [apply read_by in Hb..|done].
    + intros [= <- <- <-]. split; [lia|done].
    + destruct (read_tls (b :: bytes) c) as [[n|e] c1]; [|intros [= <- <- <-]; split; [lia|done]].
      destruct (process_new_packets c1) as [[st|e] c2]; [intros [Hn Hr]%IH; split; [lia|done]|].
      unfold mbind, io_bind. destruct (send_alert fuel (Some at_) c2 w1) as [[c3 w2]|] eqn:Es; [|done]. apply send_alert_by in Es; [|done].
      intros [= <- <- <-]. split; [lia|done].
    + intros [= <- <- <-]. split; [lia|done].
Qed.

End Handshake.

(** ** The stream and its locks *)

(** [TlsStream]: who holds each lock, and [hand], the records the holder of the
    write lock has taken and not yet written.  [broken]: a write failed or
    the stream was aborted. *)
Record Stream := mkStream {
  inner : Inner; handshaken : bool;
  read_lock : option nat; write_lock : option nat; handshake_lock : option nat;
  hand : list Z;
  received : list Z; fed : list Z; made : list Z; sent : list Z; broken : bool }.

Definition with_locks (r w h : option nat) (s : Stream) : Stream :=
  mkStream (inner s) (handshaken s) r w h (hand s) (received s) (fed s) (made s) (sent s) (broken s).

(** The records a change of the connection added. *)
Definition added (c c' : C) : list Z := drop (length (out c)) (out c').

(** [inner] changed, [pending] getting shorter. *)
Definition with_inner (i : Inner) (s : Stream) : Stream :=
  mkStream i (handshaken s) (read_lock s) (write_lock s) (handshake_lock s) (hand s) (received s)
    (fed s ++ take (length (pending (inner s)) - length (pending i)) (pending (inner s)))
    (made s ++ added (conn (inner s)) (conn i)) (sent s) (broken s).

(** The holder of the write lock gets records out of rustls, which has none
    left; [i] is what [inner] was just before. *)
Definition with_hand (i i' : Inner) (records : list Z) (s : Stream) : Stream :=
  mkStream i' (handshaken s) (read_lock s) (write_lock s) (handshake_lock s) (hand s ++ records) (received s) (fed s)
    (made s ++ added (conn (inner s)) (conn i)) (sent s) (broken s).

(** The socket takes [n] bytes of [hand], or straight from rustls. *)
Definition put (n : nat) (s : Stream) : Stream :=
  mkStream (inner s) (handshaken s) (read_lock s) (write_lock s) (handshake_lock s) (drop n (hand s)) (received s) (fed s) (made s)
    (sent s ++ take n (hand s)) (broken s).
Definition put_out (n : nat) (s : Stream) : Stream :=
  let c := conn (inner s) in
  mkStream (mkInner (drop_out n c) (pending (inner s))) (handshaken s) (read_lock s) (write_lock s) (handshake_lock s) (hand s)
    (received s) (fed s) (made s) (sent s ++ take n (out c)) (broken s).

Definition receive (bytes : list Z) (s : Stream) : Stream :=
  mkStream (received_bytes bytes (inner s)) (handshaken s) (read_lock s) (write_lock s) (handshake_lock s) (hand s)
    (received s ++ bytes) (fed s) (made s) (sent s) (broken s).

(** The handshake reads from the socket straight into rustls. *)
Definition handshake_read (bytes : list Z) (c : C) (s : Stream) : Stream :=
  mkStream (mkInner c (pending (inner s))) (handshaken s) (read_lock s) (write_lock s) (handshake_lock s) (hand s)
    (received s ++ bytes) (fed s ++ bytes) (made s ++ added (conn (inner s)) c) (sent s) (broken s).

Definition break (s : Stream) : Stream :=
  mkStream (inner s) (handshaken s) (read_lock s) (write_lock s) (handshake_lock s) [] (received s) (fed s) (made s) (sent s) true.
Definition finish (s : Stream) : Stream :=
  mkStream (inner s) true (read_lock s) (write_lock s) (handshake_lock s) (hand s) (received s) (fed s) (made s) (sent s) (broken s).

Definition stream_new (c : C) : Stream := mkStream (mkInner c []) false None None None [] [] [] (out c) [] false.

Inductive step : Stream -> Stream -> Prop :=
  (** Locks. *)
  | k_lock_read s t : read_lock s = None -> step s (with_locks (Some t) (write_lock s) (handshake_lock s) s)
  | k_unlock_read s t : read_lock s = Some t -> step s (with_locks None (write_lock s) (handshake_lock s) s)
  | k_lock_write s t : write_lock s = None -> step s (with_locks (read_lock s) (Some t) (handshake_lock s) s)
  | k_unlock_write s t : write_lock s = Some t -> hand s = [] -> step s (with_locks (read_lock s) None (handshake_lock s) s)
  | k_lock_handshake s t : handshake_lock s = None -> step s (with_locks (read_lock s) (write_lock s) (Some t) s)
  | k_unlock_handshake s t : handshake_lock s = Some t -> step s (with_locks (read_lock s) (write_lock s) None s)
  (** [run_handshake] and [handshake_now]: a write, a read, one that rustls
      refused, the end. *)
  | k_hs_write s t n : handshake_lock s = Some t -> handshaken s = false -> step s (put_out n s)
  | k_hs_read s t bytes c r c' : handshake_lock s = Some t -> handshaken s = false ->
      read_tls bytes (conn (inner s)) = (Ok (length bytes), c) -> process_new_packets c = (r, c') -> step s (handshake_read bytes c' s)
  | k_hs_refused s t bytes e c : handshake_lock s = Some t -> handshaken s = false ->
      read_tls bytes (conn (inner s)) = (Err e, c) -> step s (handshake_read bytes c s)
  | k_hs_done s t : handshake_lock s = Some t -> handshaken s = false ->
      is_handshaking (conn (inner s)) = false -> wants_write (conn (inner s)) = false -> step s (finish s)
  (** [try_read]; [fill_by] and [fill_now]. *)
  | k_try_read s fuel ig len r idle i : handshaken s = true -> read_lock s = None ->
      try_read_loop fuel ig len (inner s) = Some (r, idle, i) -> step s (with_inner i s)
  | k_fill_check s t r i : handshaken s = true -> read_lock s = Some t -> fill_check (inner s) = (r, i) -> step s (with_inner i s)
  | k_receive s t bytes : handshaken s = true -> read_lock s = Some t -> step s (receive bytes s)
  | k_eof s t r i : handshaken s = true -> read_lock s = Some t -> received_eof (inner s) = (r, i) -> step s (with_inner i s)
  | k_write_now s t n : handshaken s = true -> read_lock s = Some t -> write_lock s = Some t -> hand s = [] -> step s (put_out n s)
  (** [watch] *)
  | k_watch s r c : process_new_packets (conn (inner s)) = (r, c) -> step s (with_inner (mkInner c (pending (inner s))) s)
  (** [write_all], [send_pending] and [shutdown], under the write lock. *)
  | k_encrypt s t chunk c : handshaken s = true -> write_lock s = Some t -> hand s = [] ->
      write_plain chunk (conn (inner s)) = (Ok tt, c) ->
      step s (with_hand (mkInner c (pending (inner s))) (encrypt_chunk chunk (inner s)).2 (out c) s)
  | k_encrypt_failed s t chunk e c : handshaken s = true -> write_lock s = Some t -> hand s = [] ->
      write_plain chunk (conn (inner s)) = (Err e, c) -> step s (with_inner (mkInner c (pending (inner s))) s)
  | k_send_pending s t : handshaken s = true -> write_lock s = Some t -> hand s = [] ->
      let '(records, c) := take_records (conn (inner s)) in
      step s (with_hand (inner s) (mkInner c (pending (inner s))) records s)
  | k_close_notify s t : handshaken s = true -> write_lock s = Some t -> hand s = [] ->
      let '(records, i) := close_records (inner s) in
      step s (with_hand (mkInner (send_close_notify (conn (inner s))) (pending (inner s))) i records s)
  | k_put s t n : write_lock s = Some t -> step s (put n s)
  (** A write to the socket failed: what was in hand is given up. *)
  | k_write_failed s t : write_lock s = Some t -> step s (break s)
  (** [abort], which takes no lock: any task may, at any time. *)
  | k_abort s : step s (break s).

Definition reachable (c : C) (s : Stream) : Prop := rtc step (stream_new c) s.

Record Inv (s : Stream) : Prop := {
  v_in : received s = fed s ++ pending (inner s);
  v_out : broken s = false -> made s = sent s ++ hand s ++ out (conn (inner s));
  v_before : handshaken s = false -> hand s = [] /\ pending (inner s) = [];
}.

Lemma added_prefix c c' : out c `prefix_of` out c' -> out c ++ added c c' = out c'.
Proof. intros [x E]. unfold added. rewrite E, drop_app_length. done. Qed.

Lemma inv_inner i s : Inv s -> pending i `suffix_of` pending (inner s) -> out (conn (inner s)) `prefix_of` out (conn i) -> Inv (with_inner i s).
Proof.
  intros [Hi Ho Hb] [x Hs] Hp. split; simpl.
  - rewrite Hi, Hs, length_app. replace (length x + length (pending i) - length (pending i))%nat with (length x) by lia.
    by rewrite take_app_length, <- app_assoc.
  - intros E. rewrite (Ho E), <- !app_assoc. by rewrite added_prefix.
  - intros E. destruct (Hb E) as [? Hpe]. split; [done|]. rewrite Hpe in Hs. by destruct (pending i), x.
Qed.

Lemma inv_hand i i' records s : Inv s -> handshaken s = true -> hand s = [] -> pending i' = pending (inner s) ->
  out (conn (inner s)) `prefix_of` out (conn i) -> records = out (conn i) -> out (conn i') = [] -> Inv (with_hand i i' records s).
Proof.
  intros [Hi Ho Hb] Hh He Hpe Hp -> Hn. split; simpl.
  - by rewrite Hpe.
  - intros E. rewrite (Ho E), He, Hn, app_nil_r, <- app_assoc. simpl. by rewrite added_prefix.
  - by rewrite Hh.
Qed.

Lemma inv_put_out n s : Inv s -> hand s = [] -> Inv (put_out n s).
Proof.
  intros [Hi Ho Hb] He. split; simpl; [done| |done]. intros E. rewrite (Ho E), He, out_drop, <- app_assoc. simpl. by rewrite take_drop.
Qed.

Lemma drop_all c : out (drop_out (length (out c)) c) = [].
Proof. rewrite out_drop. by apply drop_ge. Qed.

Lemma inv_fill_check s r i : Inv s -> fill_check (inner s) = (r, i) -> Inv (with_inner i s).
Proof.
  intros HI. unfold fill_check. destruct (wants_write _); [intros [= <- <-]; by apply inv_inner|].
  destruct (negb _); [intros [= <- <-]; by apply inv_inner|].
  pose proof (out_process (conn (inner s))) as Ho. destruct (process_new_packets (conn (inner s))) as [[[pl cl]|e] c]; intros [= <- <-];
    by apply inv_inner.
Qed.

Lemma inv_eof s r i : Inv s -> received_eof (inner s) = (r, i) -> Inv (with_inner i s).
Proof.
  intros HI. unfold received_eof. pose proof (out_read [] (conn (inner s))) as Ho.
  destruct (read_tls [] (conn (inner s))) as [[n|e] c]; simpl in Ho.
  - pose proof (out_process c) as Hp. rewrite Ho in Hp. destruct (process_new_packets c) as [[st|e] c2]; intros [= <- <-]; by apply inv_inner.
  - intros [= <- <-]. apply inv_inner; [done..|]. simpl. by rewrite Ho.
Qed.

Lemma tls_inv_step s s' : Inv s -> step s s' -> Inv s'.
Proof.
  intros HI Hst. pose proof HI as [Hi Ho Hb].
  destruct Hst as [s t E|s t E|s t E|s t E E2|s t E|s t E|s t n El Eh|s t bytes c r c' El Eh Er Ep|s t bytes e c El Eh Er|s t El Eh Ei Ew|s fuel ig len r idle i Eh El Et
    |s t r i Eh El Ef|s t bytes Eh El|s t r i Eh El Ef|s t n Eh Er Ew En|s r c Ep|s t chunk c Eh Ew En Ewp|s t chunk e c Eh Ew En Ewp
    |s t Eh Ew En|s t Eh Ew En|s t n Ew|s t Ew|s]; try (by split).
  - apply inv_put_out; [done|]. by apply Hb.
  - pose proof (out_read bytes (conn (inner s))) as H5. rewrite Er in H5. pose proof (out_process c) as H6. rewrite Ep in H6. simpl in H5, H6.
    rewrite H5 in H6. destruct (Hb Eh) as [Hh Hpe]. split; simpl; [|intros E; by rewrite (Ho E), <- !app_assoc, added_prefix|done].
    by rewrite Hi, Hpe, !app_nil_r.
  - pose proof (out_read bytes (conn (inner s))) as H5. rewrite Er in H5. simpl in H5. destruct (Hb Eh) as [Hh Hpe].
    split; simpl; [by rewrite Hi, Hpe, !app_nil_r| |done]. intros E. rewrite (Ho E), <- !app_assoc. by rewrite added_prefix by (by rewrite H5).
  - apply inv_inner; [done|eapply try_read_prefix; done..].
  - by eapply inv_fill_check.
  - split; simpl; [by rewrite Hi, <- app_assoc|done|]. by rewrite Eh.
  - by eapply inv_eof.
  - by apply inv_put_out.
  - pose proof (out_process (conn (inner s))) as H2. rewrite Ep in H2. by apply inv_inner.
  - pose proof (out_write_plain chunk (conn (inner s))) as H5. rewrite Ewp in H5. simpl in H5.
    apply inv_hand; try done; unfold encrypt_chunk, take_records; rewrite Ewp; [done|apply drop_all].
  - pose proof (out_write_plain chunk (conn (inner s))) as H5. rewrite Ewp in H5. by apply inv_inner.
  - apply inv_hand; try done. apply drop_all.
  - apply inv_hand; try done; [apply out_close|apply drop_all].
  - split; simpl; [done| |]; [intros E; rewrite (Ho E), <- !app_assoc; f_equal; by rewrite app_assoc, take_drop|].
    intros E. destruct (Hb E) as [-> ?]. by rewrite drop_nil.
  - split; simpl; [done|done|]. intros E. split; [done|by apply Hb].
  - split; simpl; [done|done|]. intros E. split; [done|by apply Hb].
Qed.

Lemma tls_reachable_inv c s : reachable c s -> Inv s.
Proof. intros H'. refine (rtc_invariant step Inv _ _ _ H' _); [eauto using tls_inv_step|]. split; simpl; done. Qed.

(** However tasks that read, write and shake hands interleave, the bytes
    that arrive are given to rustls in the order they arrived, each once, and
    the records rustls makes reach the socket in the order it made them, until
    a write fails or the stream is aborted: what was received is what was
    given to rustls and then what is kept; what was made is what was sent, then
    what the writer has in hand, then what rustls has queued. *)
Theorem tls_bytes_in_order c s : reachable c s ->
  received s = fed s ++ pending (inner s) /\ (broken s = false -> made s = sent s ++ hand s ++ out (conn (inner s))).
Proof. by intros [H1 H2 _]%tls_reachable_inv. Qed.

End Ops.
(** ** A session that does not encrypt *)

Module Toy.

(** Shaking hands, queued to send, received, and the connection has ended. *)
Record Conn := mkConn { hs : bool; q : list Z; inp : list Z; eof : bool }.

#[global] Instance toy_rustls : Rustls Conn := {|
  is_handshaking := hs;
  out := q;
  drop_out n c := mkConn (hs c) (drop n (q c)) (inp c) (eof c);
  room _ := 4096%nat;
  read_tls b c := (Ok (length b), mkConn (hs c) (q c) (inp c ++ b) (eof c || bool_decide (b = [])));
  process_new_packets c :=
    if hs c then (Ok (0%nat, false), mkConn (bool_decide (inp c = [])) (q c) [] (eof c)) else (Ok (length (inp c), false), c);
  read_plain n c :=
    match inp c with
    | [] => (Err (err_kind (if eof c then UnexpectedEof else WouldBlock)), c)
    | _ => (Ok (take n (inp c)), mkConn (hs c) (q c) (drop n (inp c)) (eof c))
    end;
  write_plain d c := (Ok tt, mkConn (hs c) (q c ++ d) (inp c) (eof c));
  send_close_notify c := mkConn (hs c) (q c ++ [0]) (inp c) (eof c) |}.

#[global] Instance toy_rustls_laws : RustlsLaws Conn.
Proof.
  split; intros; simpl in *; try done; simplify_eq; try done.
  - split; [lia|]. destruct b; simpl; [done|lia].
  - by destruct (hs c).
  - by destruct (inp c).
  - by apply prefix_app_r.
  - by apply prefix_app_r.
Qed.

(** A peer that answers once. *)
Record World := mkWorld { t_now : Z; arrives : list (list Z) }.

#[global] Instance toy_wire : Wire World := {|
  wire_now := t_now;
  wire_read d _ w := match arrives w with
    | b :: bs => Some (Ok b, mkWorld (t_now w) bs)
    | [] => Some (Err timed_out, mkWorld (match d with Some at_ => Z.max at_ (t_now w) | None => t_now w end) [])
    end;
  wire_write d b w := Some (Ok (length b), w) |}.

#[global] Instance toy_wire_laws : WireLaws World.
Proof. split; intros; simpl in *; [destruct (arrives w); simplify_eq; simpl; lia|simplify_eq; lia]. Qed.

Definition client : Conn := mkConn true [1; 1] [] false.
Definition session : Conn := mkConn false [] [] false.

(** A stream that shook hands and sent two bytes of three. *)
Definition s0 : Stream := stream_new client.
Definition s1 : Stream := put_out 2 (with_locks None None (Some 0%nat) s0).
Definition s2 : Stream := handshake_read [5] session s1.
Definition s3 : Stream := with_locks None (Some 1%nat) (Some 0%nat) (finish s2).
Definition s4 : Stream :=
  put 2 (with_hand (mkInner (mkConn false [7; 8; 9] [] false) []) (encrypt_chunk [7; 8; 9] (inner s3)).2 [7; 8; 9] s3).

Lemma toy_session_reachable : reachable client s4.
Proof.
  unfold reachable. eapply rtc_l; [apply (k_lock_handshake _ 0); done|]. eapply rtc_l; [apply (k_hs_write _ 0 2); done|]. fold s1.
  eapply rtc_l; [apply (k_hs_read _ 0 [5] (mkConn true [] [5] false) (Ok (0%nat, false)) session); done|]. fold s2.
  eapply rtc_l; [apply (k_hs_done _ 0); done|]. eapply rtc_l; [apply (k_lock_write _ 1); done|]. fold s3.
  eapply rtc_l; [apply (k_encrypt _ 1 [7; 8; 9] (mkConn false [7; 8; 9] [] false)); done|].
  eapply rtc_l; [apply (k_put _ 1 2); done|]. apply rtc_refl.
Qed.

End Toy.

Lemma tls_bytes_in_order_witness :
  sent Toy.s4 = [1; 1; 7; 8] /\ hand Toy.s4 = [9] /\ made Toy.s4 = sent Toy.s4 ++ hand Toy.s4 ++ out (conn (inner Toy.s4)).
Proof.
  split; [reflexivity|]. split; [reflexivity|]. exact (proj2 (tls_bytes_in_order Toy.client Toy.s4 Toy.toy_session_reachable) eq_refl).
Defined.

Lemma handshake_by_deadline_witness :
  let w' := Toy.mkWorld 0 [] in
  run_handshake 3 (Some 9) Toy.client (Toy.mkWorld 0 [[5]]) = Some ((Ok tt, Toy.session), w') /\
  wire_now w' <= Z.max 9 0 /\ is_handshaking Toy.session = false.
Proof.
  intros w'. assert (run_handshake 3 (Some 9) Toy.client (Toy.mkWorld 0 [[5]]) = Some ((Ok tt, Toy.session), w')) as E by (vm_compute; reflexivity).
  split; [exact E|]. destruct (handshake_by_deadline 3 9 Toy.client (Toy.mkWorld 0 [[5]]) (Ok tt) Toy.session w' E) as [H1 H2].
  split; [exact (proj2 H1)|exact (proj1 (H2 eq_refl))].
Defined.

(** The connection dropped, and the stream was told to ignore that. *)
Lemma no_silent_truncation_witness :
  let i := mkInner (Toy.mkConn false [] [] true) [] in
  try_read_loop 1 true 4 i = Some (Ok (Some []), false, i) /\
  exists c, read_plain 4 c = (Ok [], conn i) \/ (exists e, read_plain 4 c = (Err e, conn i) /\ kind e = UnexpectedEof /\ true = true).
Proof.
  intros i. assert (try_read_loop 1 true 4 i = Some (Ok (Some []), false, i)) as E by (vm_compute; reflexivity).
  split; [exact E|]. exact (no_silent_truncation 1 true 4 i false i E).
Defined.

End Tls.
