(* ===== verification/TlsPoll.v ===== *)
(** * Polling a TLS stream ([src/tls.rs])

    What a [Select] does with a TLS stream, none of which waits: [try_read],
    [fill_now] and [handshake_now], which make what progress the socket allows,
    the poll made of them ([read_now] of [src/net.rs]), and [watch], which
    says whether to wait.

    A call is a function of the stream as it finds it: which locks other tasks
    hold stays the same while it runs.  Besides its result it gives the holds
    of locks it released, each with whether it was idle, which decides whom
    the release wakes ([Held]). *)
From S2P Require Import Prelude Io Waiters Tls.
Local Open Scope Z_scope.
Local Open Scope roc_scope.

Module TlsPoll.
Import Tls.

(** The non-blocking socket: what has arrived ([unread]) and what was taken
    ([written]), a read of at most so many bytes, a write, [readable_now]. *)
Class Sock (W : Type) := {
  sock_now : W -> instant;
  unread : W -> list Z;
  written : W -> list Z;
  sock_read : nat -> W -> io_result (list Z) * W;
  sock_write : list Z -> W -> io_result nat * W;
  readable_now : W -> bool;
}.

(** A read gives what arrived first, a write takes from the front, at least a
    byte; what fails moves nothing. *)
Class SockLaws (W : Type) `{Sock W} : Prop := {
  read_gives : forall n w b w', sock_read n w = (Ok b, w') -> (length b <= n)%nat /\ unread w = b ++ unread w' /\ written w' = written w;
  read_fails : forall n w e w', sock_read n w = (Err e, w') -> unread w' = unread w /\ written w' = written w;
  write_takes : forall d w n w', d <> [] -> sock_write d w = (Ok n, w') ->
    (0 < n <= length d)%nat /\ written w' = written w ++ take n d /\ unread w' = unread w;
  write_fails : forall d w e w', sock_write d w = (Err e, w') -> unread w' = unread w /\ written w' = written w;
}.

Inductive LockName := ReadLock | WriteLock | HandshakeLock.

#[global] Instance LockName_dec : EqDecision LockName.
Proof. solve_decision. Defined.

(** A hold that was released: which lock, and [Held]'s [idle]. *)
Abbreviation Hold := (LockName * bool)%type.

Section Poll.
Context {C W : Type} `{Rustls C, Sock W}.

(** The stream as a call finds it; [*_busy]: another task holds the lock. *)
Record Poll := mkPoll {
  p_inner : @Inner C; p_handshaken : bool;
  read_busy : bool; write_busy : bool; handshake_busy : bool;
  sock : W }.

Definition set_inner (i : Inner) (s : Poll) : Poll :=
  mkPoll i (p_handshaken s) (read_busy s) (write_busy s) (handshake_busy s) (sock s).
Definition set_sock (w : W) (s : Poll) : Poll :=
  mkPoll (p_inner s) (p_handshaken s) (read_busy s) (write_busy s) (handshake_busy s) w.
Definition set_handshaken (s : Poll) : Poll :=
  mkPoll (p_inner s) true (read_busy s) (write_busy s) (handshake_busy s) (sock s).

(** [p_inner]'s connection alone. *)
Definition set_conn (c : C) (s : Poll) : Poll := set_inner (mkInner c (pending (p_inner s))) s.

(** The loop of [handshake_now], with its lock held. *)
Fixpoint handshake_loop (fuel : nat) (progress : bool) (s : Poll) : option (io_result bool * bool * Poll) :=
  match fuel with
  | O => None
  | S fuel =>
      let c := conn (p_inner s) in
      if negb (is_handshaking c) && negb (wants_write c) then Some (Ok true, false, set_handshaken s)
      else if wants_write c then
        match sock_write (out c) (sock s) with
        | (Ok n, w) => handshake_loop fuel true (set_sock w (set_conn (drop_out n c) s))
        | (Err e, w) =>
            if is_kind WouldBlock e then Some (Ok progress, negb progress, set_sock w s) else Some (Err e, false, set_sock w s)
        end
      else
        match sock_read (room c) (sock s) with
        | (Ok [], w) => Some (Err (err_kind UnexpectedEof), false, set_sock w s)
        | (Ok bytes, w) =>
            match read_tls bytes c with
            | (Err e, c) => Some (Err e, false, set_sock w (set_conn c s))
            | (Ok _, c) =>
                match process_new_packets c with
                | (Ok _, c) => handshake_loop fuel true (set_sock w (set_conn c s))
                | (Err e, c) =>
                    match sock_write (out c) w with
                    | (Ok n, w) => Some (Err e, false, set_sock w (set_conn (drop_out n c) s))
                    | (Err _, w) => Some (Err e, false, set_sock w (set_conn c s))
                    end
                end
            end
        | (Err e, w) =>
            if is_kind WouldBlock e then Some (Ok progress, negb progress, set_sock w s) else Some (Err e, false, set_sock w s)
        end
  end.

Variable handshake_deadline : deadline.

(** [handshake_now] *)
Definition handshake_now (fuel : nat) (s : Poll) : option (io_result bool * list Hold * Poll) :=
  if handshake_busy s then Some (Ok false, [], s)
  else if p_handshaken s then Some (Ok true, [(HandshakeLock, false)], s)
  else if past handshake_deadline (sock_now (sock s)) then Some (Err timed_out, [(HandshakeLock, false)], s)
  else match handshake_loop fuel false s with
       | Some (r, idle, s) => Some (r, [(HandshakeLock, idle)], s)
       | None => None
       end.

(** [fill_now]; the holds are released last taken first. *)
Definition fill_now (fuel : nat) (s : Poll) : option (io_result bool * list Hold * Poll) :=
  if negb (p_handshaken s) then handshake_now fuel s
  else if read_busy s then Some (Ok false, [], s)
  else
    match fill_check (p_inner s) with
    | (SendPending, _) =>
        if write_busy s then Some (Ok false, [(ReadLock, false)], s)
        else
          let c := conn (p_inner s) in
          match sock_write (out c) (sock s) with
          | (Ok n, w) => Some (Ok true, [(WriteLock, false); (ReadLock, false)], set_sock w (set_conn (drop_out n c) s))
          | (Err e, w) =>
              if is_kind WouldBlock e then Some (Ok false, [(WriteLock, true); (ReadLock, true)], set_sock w s)
              else Some (Err e, [(WriteLock, false); (ReadLock, false)], set_sock w s)
          end
    | (HasData, i) => Some (Ok true, [(ReadLock, false)], set_inner i s)
    | (FillFailed e, i) => Some (Err e, [(ReadLock, false)], set_inner i s)
    | (Receive, i) =>
        match sock_read (CHUNK + 2048) (sock s) with
        | (Ok [], w) =>
            let '(r, i) := received_eof i in Some (map_ok (fun _ => true) r, [(ReadLock, false)], set_sock w (set_inner i s))
        | (Ok bytes, w) => Some (Ok true, [(ReadLock, false)], set_sock w (set_inner (received_bytes bytes i) s))
        | (Err e, w) =>
            if is_kind WouldBlock e || is_kind InterruptedKind e then Some (Ok false, [(ReadLock, true)], set_sock w (set_inner i s))
            else Some (Err e, [(ReadLock, false)], set_sock w (set_inner i s))
        end
    end.

Variable ignore_eof : bool.

(** [try_read] *)
Definition try_read (fuel len : nat) (s : Poll) : option (io_result (option (list Z)) * list Hold * Poll) :=
  if negb (p_handshaken s) then Some (Ok None, [], s)
  else if read_busy s then Some (Ok None, [], s)
  else match try_read_loop fuel ignore_eof len (p_inner s) with
       | Some (r, idle, i) => Some (r, [(ReadLock, idle)], set_inner i s)
       | None => None
       end.

(** [read_now] of [src/net.rs], of a TLS stream. *)
Fixpoint read_now (fuel len : nat) (s : Poll) : option (io_result (option (list Z)) * list Hold * Poll) :=
  match fuel with
  | O => None
  | S fuel =>
      match try_read (S (length (pending (p_inner s)))) len s with
      | None => None
      | Some (Err e, h, s) => Some (Err e, h, s)
      | Some (Ok (Some bytes), h, s) => Some (Ok (Some bytes), h, s)
      | Some (Ok None, h, s) =>
          match fill_now fuel s with
          | None => None
          | Some (Err e, h', s) => Some (Err e, h ++ h', s)
          | Some (Ok false, h', s) => Some (Ok None, h ++ h', s)
          | Some (Ok true, h', s) =>
              match read_now fuel len s with Some (r, h'', s) => Some (r, h ++ h' ++ h'', s) | None => None end
          end
      end
  end.

(** [Watch] *)
Inductive Watch := Ready | Waiting (id : Z) (wants_write : bool).

(** What [watch] asks of the locks. *)
Definition busy (s : Poll) : bool := if p_handshaken s then read_busy s else handshake_busy s.

(** [watch], with [inner] free: the watchers, and what [inner] has become. *)
Definition watch (k : TaskWaker) (watchers : Waiters) (s : Poll) : Watch * Waiters * Poll :=
  let '(ws, id) := add_waker k watchers in
  if busy s then (Waiting id false, ws, s)
  else
    let '(buffered, s) :=
      if negb (bool_decide (pending (p_inner s) = [])) then (true, s)
      else match process_new_packets (conn (p_inner s)) with
           | (Ok (plain, closed), c) => ((0 <? plain)%nat || closed, set_conn c s)
           | (Err _, c) => (true, set_conn c s)
           end in
    if buffered || readable_now (sock s) then (Ready, remove id ws, s)
    else (Waiting id (wants_write (conn (p_inner s))), ws, s).

(** [Held::drop], of each hold: it wakes the watchers from [first] on, or all. *)
Definition held_drop `{WakeWorld V} (idle : bool) (first : Z) (watchers : Waiters) (v : V) : Waiters * V :=
  if idle then wake_from first watchers v else wake_all watchers v.

(** ** Polls return *)

Context `{!RustlsLaws C, !SockLaws W}.

Lemma wants_out (c : C) : wants_write c = true -> out c <> [].
Proof. unfold wants_write. by intros ?%negb_true_iff%bool_decide_eq_false. Qed.

(** Every turn of the handshake sends a byte or takes one that has arrived. *)
Lemma handshake_loop_ends (a b : nat) progress s :
  length (unread (sock s)) = a -> length (out (conn (p_inner s))) = b -> exists fuel, is_Some (handshake_loop fuel progress s).
Proof.
  revert b progress s. induction a as [a IHa] using lt_wf_ind. intros b. induction b as [b IHb] using lt_wf_ind.
  intros progress s Ha Hb. destruct (negb (is_handshaking (conn (p_inner s))) && negb (wants_write (conn (p_inner s)))) eqn:Ed.
  { exists 1%nat. cbn [handshake_loop]. by rewrite Ed. }
  destruct (wants_write (conn (p_inner s))) eqn:Ew.
  - destruct (sock_write (out (conn (p_inner s))) (sock s)) as [[n|e] w] eqn:Es.
    + pose proof (write_takes _ _ _ _ (wants_out _ Ew) Es) as (Hn & _ & Hu).
      destruct (IHb (length (out (drop_out n (conn (p_inner s))))) ltac:(rewrite out_drop, length_drop; lia) true
        (set_sock w (set_conn (drop_out n (conn (p_inner s))) s))) as [fuel Hf]; [simpl; by rewrite Hu|done|].
      exists (S fuel). cbn [handshake_loop]. rewrite Ew, Ed, Es. done.
    + exists 1%nat. cbn [handshake_loop]. rewrite Ew, Ed, Es. by case_match.
  - destruct (sock_read (room (conn (p_inner s))) (sock s)) as [[[|x bytes]|e] w] eqn:Es.
    + exists 1%nat. cbn [handshake_loop]. by rewrite Ew, Ed, Es.
    + apply read_gives in Es as Hg. destruct Hg as (_ & Hu & _).
      destruct (read_tls (x :: bytes) (conn (p_inner s))) as [[n|e] c1] eqn:Er; [|exists 1%nat; cbn [handshake_loop]; by rewrite Ew, Ed, Es, Er].
      destruct (process_new_packets c1) as [[st|e] c2] eqn:Ep.
      2:{ exists 1%nat. cbn [handshake_loop]. rewrite Ew, Ed, Es, Er, Ep. by destruct (sock_write (out c2) w) as [[]]. }
      destruct (IHa (length (unread w)) ltac:(rewrite <- Ha, Hu; simpl; rewrite length_app; lia) _ true (set_sock w (set_conn c2 s)) eq_refl eq_refl)
        as [fuel Hf].
      exists (S fuel). cbn [handshake_loop]. by rewrite Ew, Ed, Es, Er, Ep.
    + exists 1%nat. cbn [handshake_loop]. rewrite Ew, Ed, Es. by case_match.
Qed.

(** [fill_now] and [handshake_now] return, whatever they find: each turn of
    the handshake sends some of what there is to send or takes some of what
    has arrived. *)
Theorem fill_now_returns s : exists fuel, is_Some (fill_now fuel s).
Proof.
  unfold fill_now. destruct (p_handshaken s) eqn:Eh; simpl.
  - exists 0%nat. destruct (read_busy s); [done|]. destruct (fill_check (p_inner s)) as [[| | |e] i]; try done.
    + destruct (write_busy s); [done|]. destruct (sock_write _ _) as [[n|e] w]; [done|by case_match].
    + destruct (sock_read _ _) as [[[|x b]|e] w]; [by destruct (received_eof i)|done|by case_match].
  - unfold handshake_now. rewrite Eh. destruct (handshake_busy s); [by exists 0%nat|]. destruct (past _ _); [by exists 0%nat|].
    destruct (handshake_loop_ends _ _ false s eq_refl eq_refl) as [fuel [[[r idle] s'] Hf]]. exists fuel. by rewrite Hf.
Qed.

(** ** A hold is idle when nothing came of it *)

(** Nothing moved between the socket, [pending] and the caller. *)
Definition still (s s' : Poll) : Prop :=
  unread (sock s') = unread (sock s) /\ written (sock s') = written (sock s) /\
  pending (p_inner s') = pending (p_inner s) /\ p_handshaken s' = p_handshaken s.

Lemma still_refl s : still s s. Proof. done. Qed.

Lemma handshake_loop_idle fuel progress s r idle s' : handshake_loop fuel progress s = Some (r, idle, s') ->
  (idle = true -> r = Ok false) /\ (r = Ok false -> idle = true /\ progress = false /\ still s s').
Proof.
  revert progress s. induction fuel as [|fuel IH]; intros progress s; [done|]. cbn [handshake_loop].
  destruct (_ && _); [by intros [= <- <- <-]|]. destruct (wants_write _) eqn:Ew.
  - destruct (sock_write _ _) as [[n|e] w] eqn:Es; [intros [H1 H2]%IH; split; [done|]; intros E; by destruct (H2 E) as (_ & ? & _)|].
    apply write_fails in Es as [Hu Hw]. destruct (is_kind WouldBlock e); intros [= <- <- <-]; split; try done.
    + by destruct progress.
    + intros [= ->]. done.
  - destruct (sock_read _ _) as [[[|x bytes]|e] w] eqn:Es; [by intros [= <- <- <-]| |].
    + destruct (read_tls _ _) as [[n|e] c]; [|by intros [= <- <- <-]].
      destruct (process_new_packets c) as [[st|e] c2]; [|destruct (sock_write _ _) as [[]]; by intros [= <- <- <-]].
      intros [H1 H2]%IH. split; [done|]. intros E. by destruct (H2 E) as (_ & ? & _).
    + apply read_fails in Es as [Hu Hw]. destruct (is_kind WouldBlock e); intros [= <- <- <-]; split; try done.
      * by destruct progress.
      * intros [= ->]. done.
Qed.

Lemma fill_check_pending (i i' : Inner) r : fill_check i = (r, i') -> pending i' = pending i /\
  (r = SendPending -> i' = i /\ wants_write (conn i) = true) /\ (r = Receive -> pending i = []).
Proof.
  unfold fill_check. destruct (wants_write (conn i)); [by intros [= <- <-]|]. case_bool_decide; simpl; [|by intros [= <- <-]].
  destruct (process_new_packets (conn i)) as [[[p cl]|e] c]; intros [= <- <-]; split_and!; done || by destruct (_ || _).
Qed.

(** A poll that says it made no progress made none, and says so for one of
    three reasons: another task holds the lock it needs; there is something
    to send first, which another task is sending; or the socket would block
    and its holds were idle, so that the watchers who looked before it are
    left alone.  Only such holds are idle. *)
Theorem idle_means_nothing fuel s r h s' : fill_now fuel s = Some (r, h, s') ->
  (r = Ok false -> still s s' /\
     ((h = [] /\ busy s = true) \/
      (h = [(ReadLock, false)] /\ write_busy s = true /\ wants_write (conn (p_inner s)) = true) \/
      (h <> [] /\ forall x, x ∈ h -> x.2 = true))) /\
  (forall l, (l, true) ∈ h -> r = Ok false).
Proof.
  unfold fill_now, busy. destruct (p_handshaken s) eqn:Eh; simpl.
  - destruct (read_busy s); [intros [= <- <- <-]; split; [by auto using still_refl|by intros l ?%not_elem_of_nil]|].
    destruct (fill_check (p_inner s)) as [f i] eqn:Ef. apply fill_check_pending in Ef as (Hp & Hsp & Hrc).
    destruct f as [| | |e].
    + destruct (Hsp eq_refl) as [-> Hw]. destruct (write_busy s).
      { intros [= <- <- <-]. split; [|set_solver].
        intros _. split; [apply still_refl|]. auto. }
      destruct (sock_write _ _) as [[n|e] w] eqn:Es.
      { intros [= <- <- <-]. split; [done|]. set_solver. }
      apply write_fails in Es as [? ?]. destruct (is_kind WouldBlock e); intros [= <- <- <-]; (split; [|set_solver]); [|done].
      intros _. split; [done|]. right. right. split; [done|]. set_solver.
    + intros [= <- <- <-]. split; [done|]. set_solver.
    + destruct (sock_read _ _) as [[[|x b]|e] w] eqn:Es.
      * destruct (received_eof i) as [r' i']. intros [= <- <- <-]. split; [by destruct r'|]. set_solver.
      * intros [= <- <- <-]. split; [done|]. set_solver.
      * apply read_fails in Es as [? ?]. destruct (_ || _); intros [= <- <- <-]; (split; [|set_solver]); [|done].
        intros _. split; [done|]. right. right. split; [done|]. set_solver.
    + intros [= <- <- <-]. split; [done|]. set_solver.
  - unfold handshake_now. rewrite Eh. destruct (handshake_busy s).
    { intros [= <- <- <-]. split; [by auto using still_refl|]. by intros l ?%not_elem_of_nil. }
    destruct (past _ _); [intros [= <- <- <-]; split; [done|]; set_solver|].
    destruct (handshake_loop _ _ _) as [[[r' idle] s'']|] eqn:El; [|done]. apply handshake_loop_idle in El as [H1 H2].
    intros [= <- <- <-]. split.
    + intros E. destruct (H2 E) as (-> & _ & Hst). split; [done|]. right. right. split; [done|]. set_solver.
    + intros l Hl%list_elem_of_singleton. apply H1. by injection Hl.
Qed.

(** ** Polls are steps of the stream *)

(** The stream of [Tls.v] as a call finds it. *)
Definition sees (s : Poll) (st : @Stream C) : Prop :=
  inner st = p_inner s /\ handshaken st = p_handshaken s /\
  (read_busy s = false -> read_lock st = None) /\
  (write_busy s = false -> write_lock st = None /\ hand st = []) /\
  (handshake_busy s = false -> handshake_lock st = None).

(** Between them the same bytes left the socket and arrived at the stream,
    and the other way. *)
Definition moved (s s' : Poll) (st st' : @Stream C) : Prop := exists i o,
  unread (sock s) = i ++ unread (sock s') /\ received st' = received st ++ i /\
  written (sock s') = written (sock s) ++ o /\ sent st' = sent st ++ o.

Definition same_locks (st st' : @Stream C) : Prop :=
  read_lock st' = read_lock st /\ write_lock st' = write_lock st /\ handshake_lock st' = handshake_lock st /\ hand st' = hand st.

Definition same_busy (s s' : Poll) : Prop :=
  read_busy s' = read_busy s /\ write_busy s' = write_busy s /\ handshake_busy s' = handshake_busy s.

Lemma moved_nothing s s' st st' : unread (sock s') = unread (sock s) -> written (sock s') = written (sock s) ->
  received st' = received st -> sent st' = sent st -> moved s s' st st'.
Proof. intros E1 E2 E3 E4. exists [], []. rewrite E1, E2, E3, E4. by rewrite !app_nil_r. Qed.

Lemma moved_trans s1 s2 s3 st1 st2 st3 : moved s1 s2 st1 st2 -> moved s2 s3 st2 st3 -> moved s1 s3 st1 st3.
Proof.
  intros (i & o & E1 & E2 & E3 & E4) (i' & o' & F1 & F2 & F3 & F4). exists (i ++ i'), (o ++ o').
  rewrite E1, F1, F2, E2, F3, E3, F4, E4. by rewrite <- !app_assoc.
Qed.

(** [s'] was reached from [s], and [st'] from [st] along with it. *)
Definition along (s s' : Poll) (st : @Stream C) : Prop := exists st', rtc step st st' /\ same_locks st st' /\ same_busy s s' /\
  inner st' = p_inner s' /\ handshaken st' = p_handshaken s' /\ moved s s' st st'.

Lemma along_step s1 s2 s3 st1 st2 : step st1 st2 -> same_locks st1 st2 -> same_busy s1 s2 -> moved s1 s2 st1 st2 ->
  along s2 s3 st2 -> along s1 s3 st1.
Proof.
  intros Hs (L1 & L2 & L3 & L4) (B1 & B2 & B3) Hm (st3 & Hr & (M1 & M2 & M3 & M4) & (D1 & D2 & D3) & Hi & Hh & Hm').
  exists st3. split_and!; try done; try congruence; [by eapply rtc_l| | |by eapply moved_trans]; split_and!; congruence.
Qed.

Lemma along_refl s s' st : inner st = p_inner s' -> handshaken st = p_handshaken s' -> same_busy s s' ->
  unread (sock s') = unread (sock s) -> written (sock s') = written (sock s) -> along s s' st.
Proof. intros. exists st. split_and!; try done. by apply moved_nothing. Qed.

Lemma handshake_loop_along fuel progress s b idle s' st t : handshake_loop fuel progress s = Some (Ok b, idle, s') ->
  inner st = p_inner s -> handshaken st = false -> p_handshaken s = false -> handshake_lock st = Some t -> along s s' st.
Proof.
  revert progress s st. induction fuel as [|fuel IH]; intros progress s st; [done|]. cbn [handshake_loop].
  destruct (negb _ && negb _) eqn:Ed.
  { intros [= <- <- <-] Hi Hh Hp Hl. apply andb_true_iff in Ed as [E1%negb_true_iff E2%negb_true_iff].
    eapply (along_step _ (set_handshaken s) _ _ (finish st)); [apply (k_hs_done st t); by rewrite ?Hi|done|done|by apply moved_nothing|].
    by apply along_refl. }
  destruct (wants_write _) eqn:Ew.
  - destruct (sock_write _ _) as [[n|e] w] eqn:Es.
    + apply write_takes in Es as (Hn & Hw & Hu); [|by apply wants_out]. intros Hf Hi Hh Hp Hl.
      eapply (along_step _ (set_sock w (set_conn (drop_out n (conn (p_inner s))) s)) _ _ (put_out n st));
        [by apply (k_hs_write st t n)|done|done| |eapply IH; [done|simpl; by rewrite Hi|done..]].
      exists [], (take n (out (conn (p_inner s)))). simpl. rewrite Hu, Hw, Hi. by rewrite app_nil_r.
    + apply write_fails in Es as [Hu Hw]. destruct (is_kind WouldBlock e); [|done]. intros [= <- <- <-] Hi Hh Hp Hl. apply along_refl; try done. simpl. congruence.
  - destruct (sock_read _ _) as [[[|x bytes]|e] w] eqn:Es; [done| |].
    + apply read_gives in Es as (Hroom & Hu & Hw). destruct (read_tls _ _) as [[n|e] c] eqn:Er; [|done].
      apply read_room in Er as En; [|done]. subst n.
      destruct (process_new_packets c) as [[pst|e] c2] eqn:Ep; [|by destruct (sock_write _ _) as [[]]]. intros Hf Hi Hh Hp Hl.
      eapply (along_step _ (set_sock w (set_conn c2 s)) _ _ (handshake_read (x :: bytes) c2 st));
        [eapply (k_hs_read st t (x :: bytes) c (Ok pst) c2); try done; by rewrite Hi|done|done| |eapply IH; [done|simpl; by rewrite Hi|done..]].
      exists (x :: bytes), []. simpl. rewrite Hu, Hw. by rewrite !app_nil_r.
    + apply read_fails in Es as [Hu Hw]. destruct (is_kind WouldBlock e); [|done]. intros [= <- <- <-] Hi Hh Hp Hl. apply along_refl; try done. simpl. congruence.
Qed.

(** A call that takes the read lock: its steps are between taking and
    releasing it. *)
Lemma under_read_lock s s' st st' : sees s st -> read_busy s = false -> same_busy s s' ->
  rtc step (with_locks (Some 0%nat) (write_lock st) (handshake_lock st) st) st' ->
  read_lock st' = Some 0%nat -> write_lock st' = write_lock st -> handshake_lock st' = handshake_lock st -> hand st' = hand st ->
  inner st' = p_inner s' -> handshaken st' = p_handshaken s' -> moved s s' st st' ->
  exists st'', rtc step st st'' /\ sees s' st'' /\ moved s s' st st''.
Proof.
  intros (Hi & Hh & Hr & Hw & Hk) Hb (B1 & B2 & B3) Hs L1 L2 L3 L4 Hi' Hh' Hm. exists (with_locks None (write_lock st') (handshake_lock st') st').
  split_and!.
  - eapply rtc_l; [apply (k_lock_read st 0); by apply Hr|]. eapply rtc_r; [exact Hs|]. by eapply k_unlock_read.
  - split_and!; simpl; try done; rewrite ?B2, ?B3, ?L2, ?L3, ?L4; done.
  - done.
Qed.

Lemma fill_check_steps s st t r i : inner st = p_inner s -> handshaken st = true -> read_lock st = Some t -> fill_check (p_inner s) = (r, i) ->
  step st (with_inner i st).
Proof. intros Hi Hh Hl Ef. apply (k_fill_check st t r i); congruence. Qed.

(** There are records to send, and the socket takes some. *)
Lemma write_now_steps s st n w : sees s st -> p_handshaken s = true -> read_busy s = false -> write_busy s = false ->
  wants_write (conn (p_inner s)) = true -> sock_write (out (conn (p_inner s))) (sock s) = (Ok n, w) ->
  let s' := set_sock w (set_conn (drop_out n (conn (p_inner s))) s) in
  exists st', rtc step st st' /\ sees s' st' /\ moved s s' st st'.
Proof.
  intros Hst Eh Erb Ewb Hww Es. pose proof Hst as (Hi & Hh & Hr & Hw & Hk). destruct (Hw Ewb) as [Hwl Hhd].
  apply write_takes in Es as (Hn & Hwr & Hu); [|by apply wants_out]. rewrite Eh in Hh.
  set (st1 := with_locks (Some 0%nat) (Some 0%nat) (handshake_lock st) st).
  eapply (under_read_lock _ _ st (with_locks (Some 0%nat) None (handshake_lock st) (put_out n st1))); try done.
  - eapply rtc_l; [by apply (k_lock_write _ 0)|]. eapply rtc_l; [by apply (k_write_now st1 0 n)|].
    apply rtc_once. by apply (k_unlock_write (put_out n st1) 0).
  - simpl. by rewrite Hi.
  - simpl. congruence.
  - exists [], (take n (out (conn (p_inner s)))). simpl. rewrite Hu, Hwr, Hi. by rewrite app_nil_r.
Qed.

(** Nothing is at hand, so the socket is read. *)
Lemma read_now_steps s st i r w : sees s st -> p_handshaken s = true -> read_busy s = false ->
  fill_check (p_inner s) = (Receive, i) -> sock_read (CHUNK + 2048) (sock s) = (r, w) ->
  let s' i := set_sock w (set_inner i s) in
  forall i', (match r with
              | Ok [] => (received_eof i).2 = i'
              | Ok bytes => i' = received_bytes bytes i
              | Err _ => i' = i
              end) -> exists st', rtc step st st' /\ sees (s' i') st' /\ moved s (s' i') st st'.
Proof.
  intros Hst Eh Erb Ef Es s' i'. pose proof Hst as (Hi & Hh & Hr & Hw & Hk). rewrite Eh in Hh.
  set (st1 := with_inner i (with_locks (Some 0%nat) (write_lock st) (handshake_lock st) st)).
  assert (step (with_locks (Some 0%nat) (write_lock st) (handshake_lock st) st) st1) as Hs1 by (by eapply (fill_check_steps s)).
  destruct r as [[|x bytes]|e].
  - intros Ee. apply read_gives in Es as (_ & Hu & Hwr). destruct (received_eof i) as [r i''] eqn:Er. simpl in Ee. subst i''.
    eapply (under_read_lock _ _ st (with_inner i' st1)); try done; [|simpl; congruence|by apply moved_nothing].
    eapply rtc_l; [exact Hs1|]. apply rtc_once. by eapply (k_eof st1 0).
  - intros ->. apply read_gives in Es as (_ & Hu & Hwr).
    eapply (under_read_lock _ _ st (receive (x :: bytes) st1)); try done; [|simpl; congruence|].
    + eapply rtc_l; [exact Hs1|]. apply rtc_once. by apply (k_receive st1 0).
    + exists (x :: bytes), []. simpl. rewrite Hu, Hwr. by rewrite !app_nil_r.
  - intros ->. apply read_fails in Es as [Hu Hwr].
    eapply (under_read_lock _ _ st st1); try done; [by apply rtc_once|simpl; congruence|by apply moved_nothing].
Qed.

Lemma handshake_now_steps fuel s st b h s' : sees s st -> p_handshaken s = false -> handshake_now fuel s = Some (Ok b, h, s') ->
  exists st', rtc step st st' /\ sees s' st' /\ moved s s' st st'.
Proof.
  intros Hst Eh. pose proof Hst as (Hi & Hh & Hr & Hw & Hk). unfold handshake_now. rewrite Eh. destruct (handshake_busy s) eqn:Ehb.
  { intros [= <- <- <-]. exists st. split_and!; [apply rtc_refl|done|by apply moved_nothing]. }
  destruct (past _ _); [done|]. destruct (handshake_loop _ _ _) as [[[r' idle] s'']|] eqn:El; [|done]. intros [= -> <- ->].
  eapply (handshake_loop_along _ _ _ _ _ _ (with_locks (read_lock st) (write_lock st) (Some 0%nat) st) 0) in El
    as (st1 & Hs & (L1 & L2 & L3 & L4) & (B1 & B2 & B3) & Hi' & Hh' & Hm); [|done|simpl; congruence|done..].
  exists (with_locks (read_lock st1) (write_lock st1) None st1). simpl in L1, L2, L3, L4. split_and!; [| |done].
  - eapply rtc_l; [apply (k_lock_handshake st 0); by apply Hk|]. eapply rtc_r; [exact Hs|]. by eapply k_unlock_handshake.
  - split_and!; simpl; try done; rewrite ?B1, ?B2, ?L1, ?L2, ?L4; done.
Qed.

(** What a [fill_now] does that succeeds and that nothing comes between,
    handshake included, is a run of the steps of [Tls.v]: from a stream as the
    call finds it, the steps lead to one as the call leaves it, every byte that
    left the socket having arrived at the stream and every byte sent having
    reached the socket.  ([TlsSession.v] has the call with the others running
    in between, and its failures.) *)
Theorem fill_now_refines fuel s b h s' st : fill_now fuel s = Some (Ok b, h, s') -> sees s st ->
  exists st', rtc step st st' /\ sees s' st' /\ moved s s' st st'.
Proof.
  intros Hf Hst. unfold fill_now in Hf. destruct (p_handshaken s) eqn:Eh; simpl in Hf; [|by eapply handshake_now_steps].
  assert (exists st', rtc step st st' /\ sees s st' /\ moved s s st st') as Hsame by (exists st; split_and!; [apply rtc_refl|done|by apply moved_nothing]).
  destruct (read_busy s) eqn:Erb; [by injection Hf as <- <- <-|].
  destruct (fill_check (p_inner s)) as [f i] eqn:Ef. pose proof (fill_check_pending _ _ _ Ef) as (Hp & Hsp & Hrc). destruct f as [| | |e]; [| | |done].
  - destruct (Hsp eq_refl) as [-> Hww]. destruct (write_busy s) eqn:Ewb; [by injection Hf as <- <- <-|].
    destruct (sock_write _ _) as [[n|e] w] eqn:Es; [injection Hf as <- <- <-; by apply write_now_steps|].
    destruct (is_kind WouldBlock e); [|done]. injection Hf as <- <- <-. apply write_fails in Es as [? ?].
    exists st. split_and!; [apply rtc_refl|done|by apply moved_nothing].
  - injection Hf as <- <- <-. pose proof Hst as (Hi & Hh & _). rewrite Eh in Hh.
    eapply (under_read_lock _ _ st (with_inner i (with_locks (Some 0%nat) (write_lock st) (handshake_lock st) st))); try done;
      [apply rtc_once; by eapply (fill_check_steps s)|simpl; congruence|by apply moved_nothing].
  - destruct (sock_read _ _) as [[[|x bytes]|e] w] eqn:Es.
    + destruct (received_eof i) as [[[]|e] i'] eqn:Ee; [|done]. injection Hf as <- <- <-. eapply read_now_steps; try done. simpl. by rewrite Ee.
    + injection Hf as <- <- <-. by eapply read_now_steps.
    + destruct (_ || _); [|done]. injection Hf as <- <- <-. by eapply read_now_steps.
Qed.

(** ** Polling without end *)

(** While a TLS stream has something to send that cannot be sent (another
    task is writing, or the socket takes nothing), a [Select] on it does not
    wait if something has arrived: its poll reads nothing, changes nothing
    and says so, and [watch] says that the stream is ready; so it polls
    again, the same. *)
Theorem select_spins fuel len s k ws e e' : p_handshaken s = true -> read_busy s = false ->
  pending (p_inner s) = [] -> read_plain len (conn (p_inner s)) = (Err e, conn (p_inner s)) -> kind e = WouldBlock ->
  process_new_packets (conn (p_inner s)) = (Ok (0%nat, false), conn (p_inner s)) ->
  wants_write (conn (p_inner s)) = true -> readable_now (sock s) = true ->
  write_busy s = true \/ (sock_write (out (conn (p_inner s))) (sock s) = (Err e', sock s) /\ kind e' = WouldBlock) ->
  (exists h, read_now (S fuel) len s = Some (Ok None, h, s)) /\ exists ws', watch k ws s = (Ready, ws', s).
Proof using Type.
  intros Eh Erb Ep Er Ek Epr Ew Erd Hb. assert (set_inner (p_inner s) s = s) as Es by (by destruct s).
  assert (mkInner (conn (p_inner s)) [] = p_inner s) as Ei by (destruct (p_inner s); simpl in *; congruence).
  split.
  - cbn [read_now]. unfold try_read. rewrite Eh, Erb, Ep. cbn. rewrite Er. unfold is_kind at 1. rewrite bool_decide_true by done. rewrite Ep. cbn.
    rewrite Ei, Es. unfold fill_now, fill_check. rewrite Eh, Erb, Ew. cbn. destruct Hb as [->|[-> Hk]]; [by eexists|].
    destruct (write_busy s); [by eexists|]. unfold is_kind. rewrite bool_decide_true by done. eexists. do 2 f_equal. by destruct s.
  - unfold watch, busy, set_conn. rewrite Eh, Erb. destruct (add_waker k ws) as [ws' id]. rewrite (bool_decide_true (pending _ = [])) by done. cbn.
    rewrite Epr. cbn. rewrite Ep, Ei, Es, Erd. by eexists.
Qed.

End Poll.

(** ** A socket with a send buffer *)

Module ToySock.

Record World := mkWorld { arrived : list Z; took : list Z; space : nat }.

#[global] Instance toy_sock : Sock World := {|
  sock_now _ := 0;
  unread := arrived;
  written := took;
  sock_read n w :=
    if bool_decide (arrived w = []) then (Err (err_kind WouldBlock), w)
    else (Ok (take n (arrived w)), mkWorld (drop n (arrived w)) (took w) (space w));
  sock_write d w :=
    if bool_decide (space w = 0%nat) then (Err (err_kind WouldBlock), w)
    else let n := Nat.min (length d) (space w) in (Ok n, mkWorld (arrived w) (took w ++ take n d) (space w - n));
  readable_now w := negb (bool_decide (arrived w = [])) |}.

#[global] Instance toy_sock_laws : SockLaws World.
Proof.
  split; simpl; intros.
  - case_bool_decide; simplify_eq/=. rewrite length_take, take_drop. split_and!; [lia|done|done].
  - by case_bool_decide; simplify_eq.
  - case_bool_decide; simplify_eq/=. split_and!; [destruct d; [done|]; cbn [length]; lia|lia|done|done].
  - by case_bool_decide; simplify_eq.
Qed.

(** A stream whose handshake is to be answered with one byte; one whose
    handshake is done, with a reply to send. *)
Definition fresh : Poll := mkPoll (mkInner Toy.client []) false false false false (mkWorld [5; 6] [] 9).
Definition replying (write_busy : bool) : Poll :=
  mkPoll (mkInner (Toy.mkConn false [3] [] false) []) true false write_busy false (mkWorld [5] [] 0).

End ToySock.
Import ToySock.

Lemma fill_now_returns_witness : exists fuel, is_Some (fill_now None fuel fresh).
Proof. exact (fill_now_returns None fresh). Defined.

Lemma idle_means_nothing_witness :
  fill_now None 0 (replying false) = Some (Ok false, [(WriteLock, true); (ReadLock, true)], replying false) /\
  still (replying false) (replying false).
Proof.
  assert (fill_now None 0 (replying false) = Some (Ok false, [(WriteLock, true); (ReadLock, true)], replying false)) as E by (vm_compute; reflexivity).
  split; [exact E|]. exact (proj1 (proj1 (idle_means_nothing None _ _ _ _ _ E) eq_refl)).
Defined.

Lemma fill_now_refines_witness :
  let s' := mkPoll (mkInner Toy.session []) true false false false (mkWorld [] [1; 1] 7) in
  fill_now None 3 fresh = Some (Ok true, [(HandshakeLock, false)], s') /\
  exists st', rtc step (stream_new Toy.client) st' /\ sees s' st' /\ moved fresh s' (stream_new Toy.client) st'.
Proof.
  intros s'. assert (fill_now None 3 fresh = Some (Ok true, [(HandshakeLock, false)], s')) as E by (vm_compute; reflexivity).
  split; [exact E|]. apply (fill_now_refines None 3 fresh true [(HandshakeLock, false)] s' (stream_new Toy.client) E).
  split; [reflexivity|]. split; [reflexivity|]. split; [reflexivity|]. split; [intros _; split; reflexivity|reflexivity].
Defined.

Lemma select_spins_witness :
  (exists h, read_now None false 1 4 (replying true) = Some (Ok None, h, replying true)) /\
  exists ws', watch (WTask 0 1) Waiters_new (replying true) = (Ready, ws', replying true).
Proof. apply (select_spins None false 0 4 (replying true) (WTask 0 1) Waiters_new (err_kind WouldBlock) (err_kind WouldBlock)); try reflexivity. left. reflexivity. Defined.

End TlsPoll.
