(* ===== verification/TlsSession.v ===== *)
(** * What tasks do with a TLS stream ([src/tls.rs])

    The operations of [TlsStream] that may wait: the handshake, [fill_by],
    [write_all], [send_pending], [shutdown], the questions about the peer, and
    how client and server sessions are made; and those that never do ([abort],
    releasing the stream, and the polls of a [Select], [fill_now] and
    [handshake_now], which only try the locks).

    Each is the program of one task, [me].  Everywhere it uses what it shares
    (the mutex [inner], a flag, the socket, a wait, a lock) the other tasks and
    threads may run ([others_run]).  What they do is steps of [Tls.v], and they
    leave alone what [me] holds.  What [me] does is then shown to be such
    steps too. *)
From S2P Require Import Prelude TaskProto Io Sockets NetOps Tls TlsPoll TlsNames TlsConfig.
Local Open Scope Z_scope.
Local Open Scope roc_scope.

Module TlsSession.
Import Tls TlsNames.
Abbreviation LockName := TlsPoll.LockName.
Abbreviation ReadLock := TlsPoll.ReadLock.
Abbreviation WriteLock := TlsPoll.WriteLock.
Abbreviation HandshakeLock := TlsPoll.HandshakeLock.

(** [TlsStream]; which side it is, is which [Connection] it has. *)
Record TlsStream (C : Type) := mkTls {
  is_client : bool; t_inner : @Inner C; t_locks : LockName -> option nat;
  t_handshaken : bool; ignore_unexpected_eof : bool; aborted : bool; handshake_deadline : deadline }.
#[global] Arguments mkTls {C} _ _ _ _ _ _ _.
#[global] Arguments is_client {C} _.
#[global] Arguments t_inner {C} _.
#[global] Arguments t_locks {C} _ _.
#[global] Arguments t_handshaken {C} _.
#[global] Arguments ignore_unexpected_eof {C} _.
#[global] Arguments aborted {C} _.
#[global] Arguments handshake_deadline {C} _.

(** The world of a stream: the stream, its socket, its locks, and the tasks
    and threads that share them. *)
Class TlsWorld (W C : Type) := {
  tls : W -> TlsStream C;
  set_tls : TlsStream C -> W -> W;
  others_run : W -> W;
  (** [Lock::lock], waiting, and the release of a [Held]. *)
  lock_wait : LockName -> W -> W;
  lock_release : LockName -> W -> W;
  (** [Lock::try_lock]: whether it was free. *)
  lock_try : LockName -> W -> bool * W;
  socket_read : nat -> W -> io_result (list Z) * W;
  socket_write : list Z -> W -> io_result nat * W;
  socket_shutdown : Shutdown -> W -> io_result unit * W;
  (** [Conn::abort] *)
  socket_abort : W -> W;
  (** Ghost state: whether anything given out to be sent was given up (a write
      to the socket failed with records left, or the stream was aborted). *)
  lost : W -> bool;
  note_lost : W -> W;
}.

(** What rustls and webpki know of the peer: the name a client asked for, the
    certificates presented, the protocol agreed on; server names, and
    whether a certificate can be read and is for a name. *)
Class PeerInfo (C Name : Type) := {
  sni : C -> option str;
  certificates : C -> option (list (list Z));
  alpn_of : C -> option (list Z);
  server_name_of : str -> option Name;
  certificate_ok : list Z -> bool;
  valid_for : list Z -> Name -> bool;
}.

Section Session.
Context {W C : Type} `{Rustls C, Sched W, HasConn W, !TlsWorld W C}.

Definition set_inner (i : Inner) (s : TlsStream C) : TlsStream C :=
  mkTls (is_client s) i (t_locks s) (t_handshaken s) (ignore_unexpected_eof s) (aborted s) (handshake_deadline s).
Definition set_handshaken (s : TlsStream C) : TlsStream C :=
  mkTls (is_client s) (t_inner s) (t_locks s) true (ignore_unexpected_eof s) (aborted s) (handshake_deadline s).
Definition set_aborted (s : TlsStream C) : TlsStream C :=
  mkTls (is_client s) (t_inner s) (t_locks s) (t_handshaken s) (ignore_unexpected_eof s) true (handshake_deadline s).
Definition set_ignore (ignore : bool) (s : TlsStream C) : TlsStream C :=
  mkTls (is_client s) (t_inner s) (t_locks s) (t_handshaken s) ignore (aborted s) (handshake_deadline s).

(** [TlsStream::new] *)
Definition TlsStream_new (client : bool) (c : C) (d : deadline) : TlsStream C :=
  mkTls client (mkInner c []) (fun _ => None) false false false d.

(** ** What is shared *)

(** One use of something shared, at which the others may have run before. *)
Definition shared {A} (f : W -> A * W) : io W A := act (fun w => f (others_run w)).
Definition load {A} (f : TlsStream C -> A) : io W A := shared (fun w => (f (tls w), w)).
Definition store (f : TlsStream C -> TlsStream C) : io W unit := shared (fun w => (tt, set_tls (f (tls w)) w)).

(** [lock(&self.inner)] for as long as [f] takes. *)
Definition with_inner_locked {A} (f : Inner -> A * Inner) : io W A :=
  shared (fun w => let '(a, i) := f (t_inner (tls w)) in (a, set_tls (set_inner i (tls w)) w)).

(** [lock_read], [lock_write] or [lock_handshake], held while [m] runs. *)
Definition locked {A} (l : LockName) (m : io W A) : io W A :=
  _ ← act (fun w => (tt, lock_wait l w)); a ← m; _ ← act (fun w => (tt, lock_release l w)); mret a.

(** [try_lock_read], [try_lock_write] or [try_lock_handshake], with what to
    return when another has it. *)
Definition try_locked {A} (l : LockName) (busy : A) (m : io W A) : io W A :=
  got ← act (lock_try l);
  if got : bool then a ← m; _ ← act (fun w => (tt, lock_release l w)); mret a else mret busy.

(** [Conn::write_all]; when it fails, the rest of [data] is lost. *)
Definition conn_write_all (fuel : nat) (data : list Z) : io W (io_result unit) :=
  r ← write_all_with (length data) fuel data (fun data w => socket_write data (others_run w));
  match r with Ok _ => mret r | Err _ => _ ← act (fun w => (tt, note_lost w)); mret r end.

(** ** The handshake *)

(** [Wire]: a read or a write that waits until the deadline, or else under the
    socket's own timeout. *)
Definition Wire_read (fuel : nat) (d : deadline) (n : nat) : io W (io_result (list Z)) :=
  d ← get (fun w => match d with Some at_ => Some at_ | None => read_deadline w end);
  retry fuel false d (fun w => socket_read n (others_run w)).
Definition Wire_write (fuel : nat) (d : deadline) (data : list Z) : io W (io_result nat) :=
  d ← get (fun w => match d with Some at_ => Some at_ | None => write_deadline w end);
  retry fuel true d (fun w => socket_write data (others_run w)).

Definition tls_wire (fuel : nat) : Wire W := {| wire_now := now; wire_read := Wire_read fuel; wire_write := Wire_write fuel |}.

(** [handshake]; [inner] is held while [run_handshake] is. *)
Definition handshake (fuel : nat) : io W (io_result unit) :=
  done ← load t_handshaken;
  if done : bool then mret (Ok tt)
  else locked HandshakeLock (
    done ← load t_handshaken;
    if done : bool then mret (Ok tt)
    else
      d ← get (fun w => handshake_deadline (tls w));
      c ← get (fun w => conn (t_inner (tls w)));
      '(r, c) ← @run_handshake C _ W (tls_wire fuel) fuel d c;
      _ ← act (fun w => (tt, set_tls (set_inner (mkInner c (pending (t_inner (tls w)))) (tls w)) w));
      match r with
      | Ok _ => _ ← act (fun w => (tt, set_tls (set_handshaken (tls w)) w)); mret (Ok tt)
      | Err e => mret (Err e)
      end).

(** The loop of [handshake_now], which has [inner]: its result, and whether the
    handshake is done.  One [write_tls] is one write of what rustls has queued,
    if it has anything. *)
Fixpoint handshake_poll (fuel : nat) (progress : bool) (c : C) : io W (io_result bool * bool * C) :=
  match fuel with
  | O => fun _ => None
  | S fuel =>
      if negb (is_handshaking c) && negb (wants_write c) then mret (Ok true, true, c)
      else if wants_write c then
        r ← act (fun w => socket_write (out c) (others_run w));
        match r with
        | Ok n => handshake_poll fuel true (drop_out n c)
        | Err e => mret (if is_kind WouldBlock e then Ok progress else Err e, false, c)
        end
      else
        r ← act (fun w => socket_read (room c) (others_run w));
        match r with
        | Ok [] => mret (Err (err_kind UnexpectedEof), false, c)
        | Ok bytes =>
            match read_tls bytes c with
            | (Err e, c) => mret (Err e, false, c)
            | (Ok _, c) =>
                match process_new_packets c with
                | (Ok _, c) => handshake_poll fuel true c
                | (Err e, c) =>
                    if wants_write c then
                      r ← act (fun w => socket_write (out c) (others_run w));
                      mret (Err e, false, match r with Ok n => drop_out n c | Err _ => c end)
                    else mret (Err e, false, c)
                end
            end
        | Err e => mret (if is_kind WouldBlock e then Ok progress else Err e, false, c)
        end
  end.

(** [handshake_now] *)
Definition handshake_now (fuel : nat) : io W (io_result bool) :=
  try_locked HandshakeLock (Ok false) (
    done ← load t_handshaken;
    if done : bool then mret (Ok true)
    else
      late ← get (fun w => past (handshake_deadline (tls w)) (now w));
      if late : bool then mret (Err timed_out)
      else
        c ← get (fun w => conn (t_inner (tls w)));
        '(r, finished, c) ← handshake_poll fuel false c;
        _ ← act (fun w => (tt, set_tls (set_inner (mkInner c (pending (t_inner (tls w)))) (tls w)) w));
        _ ← (if finished : bool then act (fun w => (tt, set_tls (set_handshaken (tls w)) w)) else mret tt);
        mret r).

(** [pending_handshake_deadline] and [set_ignore_unexpected_eof] *)
Definition pending_handshake_deadline : io W deadline :=
  done ← load t_handshaken; if done : bool then mret None else load handshake_deadline.
Definition set_ignore_unexpected_eof (ignore : bool) : io W unit := store (set_ignore ignore).

(** ** Receiving *)

(** [send_pending] *)
Definition send_pending (fuel : nat) : io W (io_result unit) :=
  locked WriteLock (
    records ← with_inner_locked (fun i => let '(records, c) := take_records (conn i) in (records, mkInner c (pending i)));
    conn_write_all fuel records).

(** The socket read of [fill_by]: what came is kept for rustls. *)
Definition receive_more (w : W) : io_result nat * W :=
  match socket_read (CHUNK + 2048) (others_run w) with
  | (Ok bytes, w) =>
      let w := others_run w in (Ok (length bytes), set_tls (set_inner (received_bytes bytes (t_inner (tls w))) (tls w)) w)
  | (Err e, w) => (Err e, w)
  end.

(** [fill_by] and [fill] *)
Definition fill_by (fuel : nat) (by_ : deadline) : io W (io_result unit) :=
  done ← load t_handshaken;
  if negb done then handshake fuel
  else locked ReadLock (
    found ← with_inner_locked fill_check;
    match found with
    | SendPending => send_pending fuel
    | HasData => mret (Ok tt)
    | FillFailed e => mret (Err e)
    | Receive =>
        d ← get (fun w => earliest (read_deadline w) by_);
        n <-? retry fuel false d receive_more;
        if (n =? 0)%nat then with_inner_locked received_eof else mret (Ok tt)
    end).
Definition fill (fuel : nat) : io W (io_result unit) := fill_by fuel None.

(** What [fill_now] finds in [inner] before it reads: a result, if there is
    something for the caller. *)
Definition poll_check (i : Inner) : option (io_result bool) * Inner :=
  if negb (bool_decide (pending i = [])) then (Some (Ok true), i)
  else match process_new_packets (conn i) with
       | (Ok (plain, closed), c) => ((if (0 <? plain)%nat || closed then Some (Ok true) else None), mkInner c (pending i))
       | (Err e, c) => (Some (Err e), mkInner c (pending i))
       end.

(** One [write_tls], with [inner] and both locks held. *)
Definition poll_send (w : W) : io_result bool * W :=
  let i := t_inner (tls w) in
  if negb (wants_write (conn i)) then (Ok true, w)
  else match socket_write (out (conn i)) w with
       | (Ok n, w) => (Ok true, set_tls (set_inner (mkInner (drop_out n (conn i)) (pending i)) (tls w)) w)
       | (Err e, w) => (if is_kind WouldBlock e then Ok false else Err e, w)
       end.

(** [fill_now] *)
Definition fill_now (fuel : nat) : io W (io_result bool) :=
  done ← load t_handshaken;
  if negb done then handshake_now fuel
  else try_locked ReadLock (Ok false) (
    wants ← load (fun s => wants_write (conn (t_inner s)));
    if wants : bool then try_locked WriteLock (Ok false) (shared poll_send)
    else
      found ← with_inner_locked poll_check;
      match found with
      | Some r => mret r
      | None =>
          n ← act receive_more;
          match n with
          | Ok O => r ← with_inner_locked received_eof; mret (map_ok (fun _ => true) r)
          | Ok _ => mret (Ok true)
          | Err e => mret (if is_kind WouldBlock e || is_kind InterruptedKind e then Ok false else Err e)
          end
      end).

(** ** Sending *)

(** [for chunk in data.chunks(CHUNK)] *)
Fixpoint send_chunks (turns fuel : nat) (data : list Z) : io W (io_result unit) :=
  match data with
  | [] => mret (Ok tt)
  | _ =>
      match turns with
      | O => fun _ => None
      | S turns =>
          records <-? with_inner_locked (encrypt_chunk (take CHUNK data));
          _ <-? conn_write_all fuel records;
          send_chunks turns fuel (drop CHUNK data)
      end
  end.

(** [write_all] *)
Definition write_all (fuel : nat) (data : list Z) : io W (io_result unit) :=
  _ <-? handshake fuel;
  locked WriteLock (send_chunks (length data) fuel data).

(** ** Ending *)

(** [shutdown] *)
Definition shutdown (fuel : nat) (how : Shutdown) : io W (io_result unit) :=
  aborted ← load aborted;
  handshaken ← match how with ShutRead => mret false | _ => load t_handshaken end;
  _ ← (if handshaken && negb aborted
       then locked WriteLock (records ← with_inner_locked close_records; _ ← conn_write_all fuel records; mret tt)
       else mret tt);
  shared (socket_shutdown how).

(** [abort] *)
Definition abort : io W unit :=
  _ ← store set_aborted; shared (fun w => (tt, socket_abort w)).

(** [Write::write_all] of the socket itself, which doesn't wait. *)
Fixpoint socket_write_all (fuel : nat) (data : list Z) : io W (io_result unit) :=
  match data with
  | [] => mret (Ok tt)
  | _ =>
      match fuel with
      | O => fun _ => None
      | S fuel =>
          r ← act (socket_write data);
          match r with
          | Ok O => mret (Err (err_kind WriteZero))
          | Ok n => socket_write_all fuel (drop n data)
          | Err e => if is_kind InterruptedKind e then socket_write_all fuel data else mret (Err e)
          end
      end
  end.

(** [TlsStream::drop]: nobody else has the stream. *)
Definition tls_drop (fuel : nat) : io W unit :=
  s ← get tls;
  if negb (t_handshaken s) || aborted s then mret tt
  else
    let '(records, i) := close_records (t_inner s) in
    _ ← act (fun w => (tt, set_tls (set_inner i (tls w)) w));
    _ ← socket_write_all fuel records; mret tt.

(** ** The peer *)

Context {Name : Type} `{!PeerInfo C Name}.

(** [server_name], [alpn_protocol], [peer_certificates] and
    [peer_certificate_valid_for] *)
Definition server_name (fuel : nat) : io W (io_result (option str)) :=
  _ <-? handshake fuel;
  s ← load id;
  mret (Ok (if is_client s then None else normalize_name <$> sni (conn (t_inner s)))).

Definition alpn_protocol (fuel : nat) : io W (io_result (option (list Z))) :=
  _ <-? handshake fuel;
  s ← load id; mret (Ok (alpn_of (conn (t_inner s)))).

Definition peer_certificates (fuel : nat) : io W (io_result (list (list Z))) :=
  _ <-? handshake fuel;
  s ← load id; mret (Ok (default [] (certificates (conn (t_inner s))))).

Definition peer_certificate_valid_for (fuel : nat) (name : str) : io W (io_result bool) :=
  certs <-? peer_certificates fuel;
  match certs with
  | [] => mret (Ok false)
  | leaf :: _ =>
      match server_name_of name with
      | None => mret (Err (err_kind InvalidInput))
      | Some name => if certificate_ok leaf then mret (Ok (valid_for leaf name)) else mret (Err (err_kind InvalidData))
      end
  end.

(** ** Making a session *)

Context {Cert Key Anchor Pair : Type} `{!TlsConfig.Rustls Cert Key Anchor Pair}.

(** [ClientConnection::new] and [ServerConnection::new] *)
Variable ClientConnection_new : @TlsConfig.ClientConfig Anchor Pair -> Name -> option C.
Variable ServerConnection_new : @TlsConfig.ServerConfig Anchor Pair -> option C.

(** [client]: the stream is the world's once it is made. *)
Definition client (fuel : nat) (name ca_file : str) (alpn : list str) (cert : option (str * str)) (d : deadline) : io W (io_result unit) :=
  match server_name_of name with
  | None => mret (Err (err_kind OtherKind))
  | Some name =>
      match TlsConfig.client_config ca_file alpn cert with
      | Err e => mret (Err (TlsConfig.to_io e))
      | Ok config =>
          match ClientConnection_new config name with
          | None => mret (Err TlsConfig.tls_error)
          | Some c => _ ← act (fun w => (tt, set_tls (TlsStream_new true c d) w)); handshake fuel
          end
      end
  end.

(** [server] *)
Definition server (config : TlsConfig.ServerConfig) (d : deadline) : io W (io_result unit) :=
  match ServerConnection_new config with
  | None => mret (Err TlsConfig.tls_error)
  | Some c => _ ← act (fun w => (tt, set_tls (TlsStream_new false c d) w)); mret (Ok tt)
  end.

End Session.

(** ** What tasks do is steps of the stream *)

Section Facts.
Context {W C : Type} `{Rustls C, Sched W, HasConn W, !TlsWorld W C} {RL : RustlsLaws C}.
(** The task, and the bytes that left the socket's queue and that it took. *)
Context (me : nat) (arrived delivered : W -> list Z).
#[local] Abbreviation Stream := (@Stream C).

Definition lock_of (l : LockName) (st : Stream) : option nat :=
  match l with ReadLock => read_lock st | WriteLock => write_lock st | HandshakeLock => handshake_lock st end.
Definition set_lock (l : LockName) (t : option nat) (st : Stream) : Stream :=
  match l with
  | ReadLock => with_locks t (write_lock st) (handshake_lock st) st
  | WriteLock => with_locks (read_lock st) t (handshake_lock st) st
  | HandshakeLock => with_locks (read_lock st) (write_lock st) t st
  end.

(** The stream of [Tls.v] as it is in a world, [c] being its connection, which
    is not in the world while a handshake has it, and [x] what was read from
    the socket and is not in [pending] yet. *)
Record SeesC (c : C) (x : list Z) (w : W) (st : Stream) : Prop := {
  s_inner : inner st = mkInner c (pending (t_inner (tls w)));
  s_handshaken : handshaken st = t_handshaken (tls w);
  s_locks : forall l, lock_of l st = t_locks (tls w) l;
  s_free : write_lock st = None -> hand st = [];
  s_arrived : received st ++ x = arrived w;
  s_delivered : broken st = false -> sent st = delivered w;
  s_lost : broken st = lost w;
}.
Definition SeesX (x : list Z) (w : W) : Stream -> Prop := SeesC (conn (t_inner (tls w))) x w.
Definition Sees : W -> Stream -> Prop := SeesX [].

(** The others leave alone what [me] holds: its locks, and what it has in hand
    to write, unless the stream is aborted. *)
Definition kept (st st' : Stream) : Prop :=
  (forall l, lock_of l st = Some me <-> lock_of l st' = Some me) /\
  (write_lock st = Some me -> hand st' = hand st \/ broken st' = true /\ hand st' = []).

(** The others ran between these worlds: they did steps; none that read while
    [me] is reading, and, while [me] has the handshake's lock and so [inner],
    none that change that. *)
Definition others (w w' : W) : Prop :=
  (forall x st, SeesX x w st -> x = [] \/ read_lock st = Some me -> exists st', rtc step st st' /\ SeesX x w' st' /\ kept st st') /\
  (forall c st, SeesC c [] w st -> handshake_lock st = Some me -> handshaken st = false ->
     exists st', rtc step st st' /\ SeesC c [] w' st' /\ kept st st' /\ handshaken st' = false).

(** What the scheduler, the locks and the socket promise. *)
Class TlsLaws : Prop := {
  others_others : forall w, others w (others_run w);
  others_watch : forall f wr w, others w (watch_io f wr w).2;
  others_wait : forall d w, others w (wait_suspended d w).2;
  others_budget : forall w, others w (consume_budget w);
  (** The lock is [me]'s once it was free. *)
  lock_taken : forall l w st, Sees w st -> lock_of l st <> Some me ->
    exists st', rtc step st st' /\ kept st st' /\ lock_of l st' = None /\ Sees (lock_wait l w) (set_lock l (Some me) st');
  (** A lock that is tried is [me]'s if it was free, and else the others may
      have run, and that is all. *)
  lock_tried : forall l w st b w', Sees w st -> lock_of l st <> Some me -> lock_try l w = (b, w') ->
    exists st', rtc step st st' /\ kept st st' /\
      if b : bool then lock_of l st' = None /\ Sees w' (set_lock l (Some me) st') else Sees w' st';
  lock_given : forall l w st, Sees w st -> lock_of l st = Some me -> (l = WriteLock -> hand st = []) -> Sees (lock_release l w) (set_lock l None st);
  tls_set : forall s w, tls (set_tls s w) = s /\ arrived (set_tls s w) = arrived w /\ delivered (set_tls s w) = delivered w /\ lost (set_tls s w) = lost w;
  socket_read_ok : forall n w b w', socket_read n w = (Ok b, w') ->
    (length b <= n)%nat /\ tls w' = tls w /\ arrived w' = arrived w ++ b /\ delivered w' = delivered w /\ lost w' = lost w;
  socket_read_err : forall n w e w', socket_read n w = (Err e, w') -> tls w' = tls w /\ arrived w' = arrived w /\ delivered w' = delivered w /\ lost w' = lost w;
  socket_write_ok : forall d w n w', socket_write d w = (Ok n, w') ->
    (n <= length d)%nat /\ tls w' = tls w /\ arrived w' = arrived w /\ delivered w' = delivered w ++ take n d /\ lost w' = lost w;
  socket_write_err : forall d w e w', socket_write d w = (Err e, w') -> tls w' = tls w /\ arrived w' = arrived w /\ delivered w' = delivered w /\ lost w' = lost w;
  socket_shut : forall how w r w', socket_shutdown how w = (r, w') -> tls w' = tls w /\ arrived w' = arrived w /\ delivered w' = delivered w /\ lost w' = lost w;
  socket_aborted : forall w, tls (socket_abort w) = tls w /\ arrived (socket_abort w) = arrived w /\ delivered (socket_abort w) = delivered w /\ lost (socket_abort w) = true;
  lost_noted : forall w, tls (note_lost w) = tls w /\ arrived (note_lost w) = arrived w /\ delivered (note_lost w) = delivered w /\ lost (note_lost w) = true;
}.
Context {LAWS : TlsLaws}.

(** *** What steps keep *)

Lemma step_mono (st st' : Stream) : step st st' ->
  (broken st = true -> broken st' = true) /\ (handshaken st = true -> handshaken st' = true) /\
  ((write_lock st = None -> hand st = []) -> write_lock st' = None -> hand st' = []).
Proof using Type.
  destruct 1; cbn [broken handshaken write_lock hand with_locks with_inner with_hand put put_out receive handshake_read break finish]; split_and!; try done;
    intros; try congruence; auto.
Qed.

Lemma steps_mono (st st' : Stream) : rtc step st st' ->
  (broken st = true -> broken st' = true) /\ (handshaken st = true -> handshaken st' = true) /\
  ((write_lock st = None -> hand st = []) -> write_lock st' = None -> hand st' = []).
Proof using Type. induction 1 as [|st1 st2 st3 (J1 & J2 & J3)%step_mono _ (I1 & I2 & I3)]; [done|]. split_and!; auto. Qed.

(** What [me] holds: each lock or not, that the handshake is known to be done,
    and what it has in hand to write. *)
Record Own := mkOwn { o_locks : LockName -> bool; o_done : bool; o_hand : list Z }.
Definition owns (o : Own) (st : Stream) : Prop :=
  (forall l, lock_of l st = Some me <-> o_locks o l = true) /\ (o_done o = true -> handshaken st = true) /\
  (o_locks o WriteLock = true -> hand st = o_hand o \/ broken st = true /\ hand st = []).

Lemma owns_kept o st st' : rtc step st st' -> kept st st' -> owns o st -> owns o st'.
Proof using Type.
  intros Hs (Hl & Hh) (O1 & O2 & O3). destruct (steps_mono _ _ Hs) as (M1 & M2 & _). split_and!.
  - intros l. by rewrite <- Hl.
  - auto.
  - intros Hw. assert (write_lock st = Some me) as Hw' by (by apply (O1 WriteLock)).
    destruct (Hh Hw') as [->|[? ?]]; [|by right]. destruct (O3 Hw) as [?|[? ?]]; [by left|right; auto].
Qed.

(** [m] does steps of the stream from [P] to [Q]. *)
Definition steps_to {A} (P : W -> Stream -> Prop) (m : io W A) (Q : A -> W -> Stream -> Prop) : Prop :=
  forall w st a w', P w st -> m w = Some (a, w') -> exists st', rtc step st st' /\ Q a w' st'.

(** [P] is not affected by what the others do. *)
Definition stable (P : W -> Stream -> Prop) : Prop :=
  forall w w' st, others w w' -> P w st -> exists st', rtc step st st' /\ P w' st'.

Definition seen (o : Own) (w : W) (st : Stream) : Prop := Sees w st /\ owns o st.
(** While [me] runs the handshake, with the connection [c]. *)
Definition shaking (o : Own) (c : C) (w : W) (st : Stream) : Prop :=
  SeesC c [] w st /\ owns o st /\ handshake_lock st = Some me /\ handshaken st = false.
(** While [me] reads, having [x]. *)
Definition reading (o : Own) (x : list Z) (w : W) (st : Stream) : Prop := SeesX x w st /\ owns o st.

Lemma reading_stable o x : x = [] \/ o_locks o ReadLock = true -> stable (reading o x).
Proof using Type.
  intros Hx w w' st [Ho _] [Hs Hown]. destruct (Ho _ _ Hs) as (st' & Hr & Hs' & Hk).
  - destruct Hx as [Hx|Hx]; [by left|right]. by apply (proj1 Hown ReadLock).
  - exists st'. split; [done|]. split; [done|by eapply owns_kept].
Qed.

Lemma seen_stable o : stable (seen o).
Proof using Type. apply (reading_stable o []). by left. Qed.

Lemma shaking_stable o c : stable (shaking o c).
Proof using Type.
  intros w w' st [_ Ho] (Hs & Hown & Hl & Hh). destruct (Ho _ _ Hs Hl Hh) as (st' & Hr & Hs' & Hk & Hh'). exists st'. split; [done|].
  split_and!; try done; [by eapply owns_kept|]. by apply (proj1 Hk HandshakeLock).
Qed.

Lemma steps_ret {A} (P : W -> Stream -> Prop) (a : A) : steps_to P (mret a) (fun a' w st => a' = a /\ P w st).
Proof using Type. intros w st a' w' HP [= <- <-]. exists st. split; [apply rtc_refl|done]. Qed.

Lemma steps_bind {A B} P (m : io W A) Q (k : A -> io W B) R :
  steps_to P m Q -> (forall a, steps_to (Q a) (k a) R) -> steps_to P (m ≫= k) R.
Proof using Type.
  intros Hm Hk w st b w' HP. unfold mbind, io_bind. destruct (m w) as [[a w1]|] eqn:E; [|done]. intros E2.
  destruct (Hm _ _ _ _ HP E) as (st1 & Hs1 & HQ). destruct (Hk _ _ _ _ _ HQ E2) as (st2 & Hs2 & HR). exists st2. split; [by etrans|done].
Qed.

Lemma steps_weaken {A} (P P' : W -> Stream -> Prop) (m : io W A) (Q Q' : A -> W -> Stream -> Prop) :
  steps_to P' m Q' -> (forall w st, P w st -> P' w st) -> (forall a w st, Q' a w st -> Q a w st) -> steps_to P m Q.
Proof using Type. intros Hm HP HQ w st a w' Hw E. destruct (Hm _ _ _ _ (HP _ _ Hw) E) as (st' & ? & ?). exists st'. auto. Qed.

Lemma steps_get {A} (P : W -> Stream -> Prop) (f : W -> A) : steps_to P (get f) (fun _ => P).
Proof using Type. intros w st a w' HP [= <- <-]. exists st. split; [apply rtc_refl|done]. Qed.

Lemma steps_act {A} P (f : W -> A * W) Q :
  (forall w st a w', P w st -> f w = (a, w') -> exists st', rtc step st st' /\ Q a w' st') -> steps_to P (act f) Q.
Proof using Type. intros Hf w st a w' HP [= E]. by eapply Hf. Qed.

(** Something shared: the others ran, then [f]. *)
Lemma after_others P w st : stable P -> P w st -> exists st', rtc step st st' /\ P (others_run w) st'.
Proof using LAWS. intros Hst HP. eapply Hst; [apply others_others|done]. Qed.

Lemma steps_shared {A} P (f : W -> A * W) Q : stable P ->
  (forall w st a w', P w st -> f w = (a, w') -> exists st', rtc step st st' /\ Q a w' st') -> steps_to P (shared f) Q.
Proof using LAWS.
  intros Hst Hf. apply steps_act. intros w st a w' HP E. destruct (after_others P w st Hst HP) as (st1 & Hs1 & HP1).
  destruct (Hf _ _ _ _ HP1 E) as (st2 & Hs2 & HQ). exists st2. split; [by etrans|done].
Qed.

Lemma steps_try {A B} P (m : io W (io_result A)) Q (k : A -> io W (io_result B)) (R : io_result B -> W -> Stream -> Prop) :
  steps_to P m (fun r w st => match r with Ok a => Q a w st | Err e => R (Err e) w st end) ->
  (forall a, steps_to (Q a) (k a) R) -> steps_to P (try_bind m k) R.
Proof using Type.
  intros Hm Hk. eapply steps_bind; [exact Hm|]. intros [a|e]; [apply Hk|]. intros w st a w' HR [= <- <-]. exists st. split; [apply rtc_refl|done].
Qed.

(** [Conn::retry]: waits and unanswered tries keep [P]. *)
Lemma wait_io_stable P f wr d w st r w' : stable P -> P w st -> wait_io f wr d w = (r, w') -> exists st', rtc step st st' /\ P w' st'.
Proof using LAWS.
  intros Hst HP. unfold wait_io. destruct (past d (now w)); [intros [= <- <-]; exists st; split; [apply rtc_refl|done]|].
  destruct (Hst _ _ _ (others_watch f wr w) HP) as (st1 & Hs1 & HP1). destruct (watch_io f wr w) as [[e| |] w1]; cbn [snd] in HP1; [intros [= <- <-]; eauto..|].
  destruct (Hst _ _ _ (others_wait d w1) HP1) as (st2 & Hs2 & HP2). destruct (wait_suspended d w1) as [[] w2]; cbn [snd] in HP2; intros [= <- <-]; exists st2; (split; [by etrans|done]).
Qed.

Lemma steps_retry {R} P (Q : R -> W -> Stream -> Prop) fuel wr d op :
  stable P -> (forall a, stable (Q a)) ->
  steps_to P (act op) (fun r w st => match r with Ok a => Q a w st | Err _ => P w st end) ->
  steps_to P (retry fuel wr d op) (fun r w st => match r with Ok a => Q a w st | Err _ => P w st end).
Proof using LAWS.
  intros HP HQ Hop. induction fuel as [|fuel IH]; cbn [retry]; [by intros w st a w' _ [=]|]. eapply steps_bind; [exact Hop|]. intros [a|e].
  - eapply (steps_bind _ _ (fun _ => Q a)); [|intros _; eapply steps_weaken; [apply steps_ret|done|by intros ? ? ? [-> ?]]].
    apply steps_act. intros w st x w' Hw [= <- <-]. exact (HQ a _ _ _ (others_budget w) Hw).
  - destruct (is_kind WouldBlock e).
    + eapply steps_bind; [apply steps_get|]. intros f. eapply (steps_try _ _ (fun _ => P)).
      { apply steps_act. intros w st r w' Hw E. destruct (wait_io_stable _ _ _ _ _ _ _ _ HP Hw E) as (st' & Hs & HP'). exists st'. by destruct r. }
      intros _. eapply steps_bind; [apply steps_get|]. intros [|]; [|exact IH]. eapply steps_weaken; [apply steps_ret|done|by intros ? ? ? [-> ?]].
    + destruct (is_kind InterruptedKind e); [exact IH|]. eapply steps_weaken; [apply steps_ret|done|by intros ? ? ? [-> ?]].
Qed.

(** *** Locks *)

Definition with_hand_of (data : list Z) (o : Own) : Own := mkOwn (o_locks o) (o_done o) data.
Definition knowing (o : Own) : Own := mkOwn (o_locks o) true (o_hand o).
Definition taking (l : LockName) (o : Own) : Own :=
  mkOwn (fun l' => bool_decide (l' = l) || o_locks o l') (o_done o) (match l with WriteLock => [] | _ => o_hand o end).

Lemma lock_of_set l l' t st : lock_of l' (set_lock l t st) = if bool_decide (l' = l) then t else lock_of l' st.
Proof using Type. by destruct l, l'. Qed.

Lemma set_lock_rest l t (st : Stream) : hand (set_lock l t st) = hand st /\ broken (set_lock l t st) = broken st /\ handshaken (set_lock l t st) = handshaken st.
Proof using Type. by destruct l. Qed.

Lemma step_take l t (st : Stream) : lock_of l st = None -> step st (set_lock l (Some t) st).
Proof using Type. destruct l; [apply k_lock_read|apply k_lock_write|apply k_lock_handshake]. Qed.

Lemma step_give l t (st : Stream) : lock_of l st = Some t -> (l = WriteLock -> hand st = []) -> step st (set_lock l None st).
Proof using Type. destruct l; intros Hl Hh; [by eapply k_unlock_read|eapply k_unlock_write; eauto|by eapply k_unlock_handshake]. Qed.

Lemma owns_take l o st : (write_lock st = None -> hand st = []) -> lock_of l st = None -> owns o st -> owns (taking l o) (set_lock l (Some me) st).
Proof using Type.
  intros Hf Hl (O1 & O2 & O3). destruct (set_lock_rest l (Some me) st) as (R1 & R2 & R3). split_and!.
  - intros l'. rewrite lock_of_set. cbn. case_bool_decide; [done|apply O1].
  - by rewrite R3.
  - cbn. rewrite R1, R2. destruct l; cbn; [exact O3| |exact O3]. intros _. left. auto.
Qed.

Lemma owns_give l o o' st : o_locks o' = o_locks o -> o_locks o l = false -> (l <> WriteLock -> o_hand o' = o_hand o) ->
  owns (mkOwn (o_locks (taking l o)) (o_done o') (o_hand (taking l o))) st -> owns o' (set_lock l None st).
Proof using Type.
  intros El Hn Eh (O1 & O2 & O3). destruct (set_lock_rest l None st) as (R1 & R2 & R3). split_and!.
  - intros l'. rewrite lock_of_set, El. specialize (O1 l'). cbn in O1. case_bool_decide; [subst; by rewrite Hn|exact O1].
  - by rewrite R3.
  - rewrite R1, R2, El. cbn in O3. intros Hw. destruct l; try congruence; rewrite Eh by done; apply O3; by rewrite Hw, ?orb_true_r.
Qed.

(** What [me] does with a lock held starts with nothing in hand, and ends so. *)
Lemma steps_held {A} o (o' : A -> Own) l (m : io W A) : o_locks o l = false ->
  (forall a, o_locks (o' a) = o_locks o /\ (l <> WriteLock -> o_hand (o' a) = o_hand o)) ->
  steps_to (seen (taking l o)) m (fun a => seen (mkOwn (o_locks (taking l o)) (o_done (o' a)) (o_hand (taking l o)))) ->
  steps_to (seen (taking l o)) (a ← m; _ ← act (fun w => (tt, lock_release l w)); mret a) (fun a => seen (o' a)).
Proof using LAWS.
  intros Hn Ho Hm. eapply steps_bind; [exact Hm|]. intros a. destruct (Ho a) as [Ho1 Ho2].
  eapply (steps_bind _ _ (fun _ => seen (o' a))); [|intros _; eapply steps_weaken; [apply steps_ret|done|by intros ? ? ? [-> ?]]].
  apply steps_act. intros w st [] w' [Hs Hown] [= <-]. pose proof Hown as (O1 & _ & O3).
  assert (lock_of l st = Some me) as Hl by (apply O1; cbn; by rewrite bool_decide_eq_true_2).
  assert (l = WriteLock -> hand st = []) as Hh by (intros ->; destruct O3 as [O3|[_ O3]]; [done|exact O3|exact O3]).
  exists (set_lock l None st). split; [apply rtc_once; by eapply step_give|split; [by apply lock_given|by apply (owns_give l o)]].
Qed.

(** The lock was free after these steps, and is [me]'s. *)
Lemma seen_take l o w st st1 : o_locks o l = false -> owns o st -> (write_lock st = None -> hand st = []) ->
  rtc step st st1 -> kept st st1 -> lock_of l st1 = None -> Sees w (set_lock l (Some me) st1) ->
  exists st', rtc step st st' /\ seen (taking l o) w st'.
Proof using Type.
  intros Hn Hown Hf Hr Hk Hl Hs1. exists (set_lock l (Some me) st1). split; [eapply rtc_r; [exact Hr|by apply step_take]|]. split; [done|].
  apply owns_take; [|done|by eapply owns_kept]. by apply (steps_mono _ _ Hr).
Qed.

Lemma steps_locked {A} o (o' : A -> Own) l (m : io W A) : o_locks o l = false ->
  (forall a, o_locks (o' a) = o_locks o /\ (l <> WriteLock -> o_hand (o' a) = o_hand o)) ->
  steps_to (seen (taking l o)) m (fun a => seen (mkOwn (o_locks (taking l o)) (o_done (o' a)) (o_hand (taking l o)))) ->
  steps_to (seen o) (locked l m) (fun a => seen (o' a)).
Proof using LAWS.
  intros Hn Ho Hm. unfold locked. eapply (steps_bind _ _ (fun _ => seen (taking l o))); [|intros _; by apply steps_held].
  apply steps_act. intros w st [] w' [Hs Hown] [= <-]. pose proof Hown as (O1 & _ & _).
  destruct (lock_taken l w st Hs) as (st1 & Hr & Hk & Hl & Hs1); [rewrite O1; by rewrite Hn|].
  eapply seen_take; eauto. exact (s_free _ _ _ _ Hs).
Qed.

Lemma steps_try_locked {A} o (o' : A -> Own) l (busy : A) (m : io W A) : o_locks o l = false ->
  (forall a, o_locks (o' a) = o_locks o /\ (l <> WriteLock -> o_hand (o' a) = o_hand o)) ->
  (forall st, owns o st -> owns (o' busy) st) ->
  steps_to (seen (taking l o)) m (fun a => seen (mkOwn (o_locks (taking l o)) (o_done (o' a)) (o_hand (taking l o)))) ->
  steps_to (seen o) (try_locked l busy m) (fun a => seen (o' a)).
Proof using LAWS.
  intros Hn Ho Hb Hm. unfold try_locked. eapply (steps_bind _ _ (fun b : bool => seen (if b then taking l o else o))).
  - apply steps_act. intros w st b w' [Hs Hown] E. pose proof Hown as (O1 & _ & _).
    destruct (lock_tried l w st b w' Hs) as (st1 & Hr & Hk & Hst); [rewrite O1; by rewrite Hn|done|]. destruct b.
    + destruct Hst as [Hl Hs1]. eapply seen_take; eauto. exact (s_free _ _ _ _ Hs).
    + exists st1. split; [done|]. split; [done|by eapply owns_kept].
  - intros [|]; [by apply steps_held|]. eapply steps_weaken; [apply steps_ret|done|]. intros a w st [-> [Hs Hown]]. split; [done|by apply Hb].
Qed.

(** *** What [me] does with [inner] *)

Lemma sees_same c x w w' st : tls w' = tls w -> arrived w' = arrived w -> delivered w' = delivered w -> lost w' = lost w -> SeesC c x w st -> SeesC c x w' st.
Proof using Type. intros E1 E2 E3 E4 [I1 I2 I3 I4 I5 I6 I7]. split; rewrite ?E1, ?E2, ?E3, ?E4; auto. Qed.

Lemma steps_load_now o : steps_to (seen o) (load t_handshaken) (fun b w st => seen (if b then knowing o else o) w st /\ handshaken st = b).
Proof using LAWS.
  apply steps_shared; [apply seen_stable|]. intros w st b w' [Hs Hown] [= Eb <-]. exists st. split; [apply rtc_refl|]. pose proof (s_handshaken _ _ _ _ Hs) as Eh.
  split; [|congruence]. split; [done|]. destruct b; [|done]. destruct Hown as (O1 & O2 & O3). split_and!; [done| |done]. intros _. congruence.
Qed.

Lemma steps_load o : steps_to (seen o) (load t_handshaken) (fun b => seen (if b then knowing o else o)).
Proof using LAWS. eapply steps_weaken; [apply steps_load_now|done|]. by intros b w st [? _]. Qed.

Lemma steps_load_any {A} o (f : TlsStream C -> A) : steps_to (seen o) (load f) (fun _ => seen o).
Proof using LAWS. apply steps_shared; [apply seen_stable|]. intros w st b w' Hs [= Eb <-]. exists st. split; [apply rtc_refl|done]. Qed.

(** Two streams that differ in [inner], what was made and given to rustls, and
    what is in hand. *)
Definition same (st st' : Stream) : Prop :=
  (forall l, lock_of l st' = lock_of l st) /\ handshaken st' = handshaken st /\ received st' = received st /\ sent st' = sent st /\ broken st' = broken st.

Lemma owns_same o o' st st' : o_locks o' = o_locks o -> o_done o' = o_done o -> same st st' -> owns o st ->
  (o_locks o WriteLock = true -> hand st = o_hand o \/ broken st = true /\ hand st = [] -> hand st' = o_hand o' \/ broken st = true /\ hand st' = []) -> owns o' st'.
Proof using Type.
  intros E1 E2 (S1 & S2 & S3 & S4 & S5) (O1 & O2 & O3) Hh. split_and!; rewrite ?E1, ?E2, ?S2, ?S5; auto. intros l. rewrite S1. apply O1.
Qed.

Lemma steps_inner_many {A} o (o' : A -> Own) (f : Inner -> A * Inner) :
  (forall st a i, owns o st -> f (inner st) = (a, i) -> exists st', rtc step st st' /\ inner st' = i /\ same st st' /\ owns (o' a) st') ->
  steps_to (seen o) (with_inner_locked f) (fun a => seen (o' a)).
Proof using LAWS.
  intros Hf. apply steps_shared; [apply seen_stable|]. intros w st a w' [Hs Hown] E. pose proof Hs as [I1 I2 I3 I4 I5 I6 I7].
  assert (inner st = t_inner (tls w)) as Ei by (rewrite I1; by destruct (t_inner (tls w))).
  destruct (f (t_inner (tls w))) as [a' i] eqn:Ef. injection E as -> <-.
  destruct (Hf st a i Hown ltac:(by rewrite Ei)) as (st' & Hst & Hi & (S1 & S2 & S3 & S4 & S5) & Hown'). exists st'. split; [done|]. split; [|done].
  destruct (tls_set (set_inner i (tls w)) w) as (T1 & T2 & T3 & T4). unfold Sees, SeesX. split; rewrite ?T1, ?T2, ?T3, ?T4; cbn [t_inner t_handshaken t_locks set_inner].
  - rewrite Hi. by destruct i.
  - congruence.
  - intros l. by rewrite S1.
  - by apply (steps_mono _ _ Hst).
  - congruence.
  - rewrite S4, S5. exact I6.
  - rewrite S5. exact I7.
Qed.

Lemma steps_inner {A} o (o' : A -> Own) (f : Inner -> A * Inner) :
  (forall st a i, owns o st -> f (inner st) = (a, i) -> exists st', step st st' /\ inner st' = i /\ same st st' /\ owns (o' a) st') ->
  steps_to (seen o) (with_inner_locked f) (fun a => seen (o' a)).
Proof using LAWS.
  intros Hf. apply steps_inner_many. intros st a i Ho E. destruct (Hf st a i Ho E) as (st' & Hs & ?). exists st'. split; [by apply rtc_once|done].
Qed.

Lemma same_inner i (st : Stream) : same st (with_inner i st). Proof using Type. split_and!; done. Qed.
Lemma same_hand i i' r (st : Stream) : same st (with_hand i i' r st). Proof using Type. split_and!; done. Qed.

Lemma owns_hand_nil o st : owns o st -> o_locks o WriteLock = true -> o_hand o = [] -> hand st = [].
Proof using Type. intros (_ & _ & O3) Hw E. destruct (O3 Hw) as [->|[_ ->]]; done. Qed.

(** A change of [inner] that leaves what is in hand. *)
Lemma owns_inner o i st : owns o st -> owns o (with_inner i st).
Proof using Type. intros Ho. apply (owns_same o o st); [done|done|apply same_inner|done|done]. Qed.

(** The records [me] gets out of rustls are in its hand. *)
Lemma owns_records o i i' r st : owns o st -> o_locks o WriteLock = true -> o_hand o = [] -> owns (with_hand_of r o) (with_hand i i' r st).
Proof using Type.
  intros Ho Hw Hn. apply (owns_same o _ st); [done|done|apply same_hand|done|]. intros _ _. left. cbn. by rewrite (owns_hand_nil _ _ Ho Hw Hn).
Qed.

Lemma steps_fill_check o : o_locks o ReadLock = true -> o_done o = true -> steps_to (seen o) (with_inner_locked fill_check) (fun _ => seen o).
Proof using LAWS.
  intros Hl Hd. apply (steps_inner o (fun _ => o)). intros st a i Ho E. exists (with_inner i st). pose proof Ho as (O1 & O2 & _).
  split_and!; [eapply (k_fill_check st me); eauto; by apply (O1 ReadLock)|done|apply same_inner|by apply owns_inner].
Qed.

Lemma steps_eof o : o_locks o ReadLock = true -> o_done o = true -> steps_to (seen o) (with_inner_locked received_eof) (fun _ => seen o).
Proof using LAWS.
  intros Hl Hd. apply (steps_inner o (fun _ => o)). intros st a i Ho E. exists (with_inner i st). pose proof Ho as (O1 & O2 & _).
  split_and!; [eapply (k_eof st me); eauto; by apply (O1 ReadLock)|done|apply same_inner|by apply owns_inner].
Qed.

Lemma steps_poll_check o : steps_to (seen o) (with_inner_locked poll_check) (fun _ => seen o).
Proof using LAWS.
  apply (steps_inner_many o (fun _ => o)). intros st a i Ho E. unfold poll_check in E. destruct (negb _).
  - injection E as <- <-. exists st. split_and!; [apply rtc_refl|done|by split_and!|done].
  - destruct (process_new_packets (conn (inner st))) as [[[p cl]|e] c] eqn:Ep; injection E as <- <-; exists (with_inner (mkInner c (pending (inner st))) st);
      (split_and!; [apply rtc_once; by eapply k_watch|done|apply same_inner|by apply owns_inner]).
Qed.

Section Writing.
Variable o : Own.
Hypotheses (Hw : o_locks o WriteLock = true) (Hd : o_done o = true) (Hn : o_hand o = []).

Lemma steps_take : steps_to (seen o) (with_inner_locked (fun i => let '(records, c) := take_records (conn i) in (records, mkInner c (pending i))))
  (fun records => seen (with_hand_of records o)).
Proof using LAWS Hw Hd Hn.
  apply steps_inner. intros st a i Ho E. pose proof Ho as (O1 & O2 & _). pose proof (k_send_pending st me (O2 Hd) (proj2 (O1 WriteLock) Hw) (owns_hand_nil _ _ Ho Hw Hn)) as Hs.
  unfold take_records in E, Hs. cbn in E. injection E as <- <-. eexists. split_and!; [exact Hs|done|apply same_hand|by apply owns_records].
Qed.

Lemma steps_close : steps_to (seen o) (with_inner_locked close_records) (fun records => seen (with_hand_of records o)).
Proof using LAWS Hw Hd Hn.
  apply steps_inner. intros st a i Ho E. pose proof Ho as (O1 & O2 & _). pose proof (k_close_notify st me (O2 Hd) (proj2 (O1 WriteLock) Hw) (owns_hand_nil _ _ Ho Hw Hn)) as Hs.
  rewrite E in Hs. eexists. split_and!; [exact Hs|done|apply same_hand|by apply owns_records].
Qed.

Lemma steps_encrypt chunk : steps_to (seen o) (with_inner_locked (encrypt_chunk chunk))
  (fun r => seen (match r with Ok records => with_hand_of records o | Err _ => o end)).
Proof using LAWS Hw Hd Hn.
  apply (steps_inner o (fun r => match r with Ok records => with_hand_of records o | Err _ => o end)). intros st a i Ho E. pose proof Ho as (O1 & O2 & _).
  pose proof (k_encrypt st me chunk) as Hs. pose proof (k_encrypt_failed st me chunk) as Hf. unfold encrypt_chunk, take_records in *.
  destruct (write_plain chunk (conn (inner st))) as [[[]|e] c] eqn:Ew; injection E as <- <-.
  - eexists. split_and!; [apply (Hs c); auto; [by apply (O1 WriteLock)|by eapply owns_hand_nil]|done|apply same_hand|by apply owns_records].
  - eexists. split_and!; [apply (Hf e c); auto; [by apply (O1 WriteLock)|by eapply owns_hand_nil]|done|apply same_inner|by apply owns_inner].
Qed.
End Writing.

(** *** What [me] does with the socket *)

Lemma steps_write o data : o_locks o WriteLock = true ->
  steps_to (seen (with_hand_of data o)) (act (fun w => socket_write data (others_run w)))
    (fun r => seen (with_hand_of (match r with Ok n => drop n data | Err _ => data end) o)).
Proof using LAWS.
  intros Hw. apply (steps_shared _ (socket_write data)); [apply seen_stable|]. intros w st [n|e] w' [Hs Hown] E.
  - apply socket_write_ok in E as (En & E1 & E2 & E3 & E4). pose proof Hs as [I1 I2 I3 I4 I5 I6 I7]. pose proof Hown as (O1 & O2 & O3).
    assert (write_lock st = Some me) as Hl by (by apply (O1 WriteLock)).
    exists (put n st). split; [apply rtc_once; by eapply k_put|]. split.
    + unfold Sees, SeesX. split; rewrite ?E1, ?E2, ?E3, ?E4; cbn; try done; [by rewrite Hl|].
      intros Hb. rewrite (I6 Hb). destruct (O3 Hw) as [->|[? _]]; [done|congruence].
    + split_and!; [exact O1|exact O2|]. intros _. cbn. destruct (O3 Hw) as [->|[? ->]]; [by left|right; by rewrite drop_nil].
  - apply socket_write_err in E as (E1 & E2 & E3 & E4). exists st. split; [apply rtc_refl|]. split; [unfold Sees, SeesX; rewrite E1; by eapply sees_same|done].
Qed.

Lemma steps_done {A} (P : W -> Stream -> Prop) (a : A) : steps_to P (mret a) (fun _ => P).
Proof using Type. eapply steps_weaken; [apply steps_ret|done|by intros ? ? ? [-> ?]]. Qed.

(** A write that failed: what was in hand is lost. *)
Lemma steps_fail o data : o_locks o WriteLock = true ->
  steps_to (seen (with_hand_of data o)) (act (fun w => (tt, note_lost w))) (fun _ => seen (with_hand_of [] o)).
Proof using LAWS.
  intros Hw. apply steps_act. intros w st [] w' [[I1 I2 I3 I4 I5 I6 I7] (O1 & O2 & O3)] [= <-]. destruct (lost_noted w) as (T1 & T2 & T3 & T4).
  exists (break st). split; [apply rtc_once; eapply (k_write_failed st me); by apply (O1 WriteLock)|].
  split; [unfold Sees, SeesX; split; rewrite ?T1, ?T2, ?T3, ?T4; cbn; try done; by intros []|]. split_and!; [intros l; rewrite <- (O1 l); by destruct l|done|]. intros _. by left.
Qed.

Lemma steps_write_some o data writes fuel : o_locks o WriteLock = true ->
  steps_to (seen (with_hand_of data o)) (write_all_with writes fuel data (fun data w => socket_write data (others_run w)))
    (fun r w st => exists rest, seen (with_hand_of rest o) w st /\ (is_ok r = true -> rest = [])).
Proof using LAWS.
  intros Hw. revert data. induction writes as [|writes IH]; intros data; destruct data as [|b data];
    cbn [write_all_with]; try (eapply steps_weaken; [apply steps_ret|done|intros ? ? ? [-> ?]; by exists []]); [by intros w st a w' _ [=]|].
  eapply steps_bind; [apply steps_get|]. intros d. eapply (steps_try _ _ (fun n => seen (with_hand_of (drop n (b :: data)) o))).
  - eapply steps_weaken; [apply (steps_retry _ (fun n => seen (with_hand_of (drop n (b :: data)) o))); [apply seen_stable|intros; apply seen_stable|]|done|];
      [eapply steps_weaken; [by apply steps_write|done|by intros []]|].
    intros [n|e] w st Hs; [done|]. by exists (b :: data).
  - intros n. destruct (n =? 0)%nat; [|apply IH]. intros w st r w' HP [= <- <-]. exists st. split; [apply rtc_refl|]. by exists (drop n (b :: data)).
Qed.

Lemma steps_write_all o data fuel : o_locks o WriteLock = true ->
  steps_to (seen (with_hand_of data o)) (conn_write_all fuel data) (fun _ => seen (with_hand_of [] o)).
Proof using LAWS.
  intros Hw. eapply steps_bind; [by apply steps_write_some|]. intros [[]|e].
  - intros w st r w' (rest & Hs & Hr) [= <- <-]. exists st. split; [apply rtc_refl|]. by rewrite (Hr eq_refl) in Hs.
  - intros w st r w' (rest & Hs & _). refine (steps_bind _ _ _ _ (fun _ => seen (with_hand_of [] o)) (steps_fail o rest Hw) (fun _ => _) w st r w' Hs).
    apply steps_done.
Qed.

(** Nothing came of a read, or [pending] got what came. *)
Lemma steps_receive o : o_locks o ReadLock = true -> o_done o = true ->
  steps_to (seen o) (act receive_more) (fun _ => seen o).
Proof using LAWS.
  intros Hl Hd. apply steps_act. intros w st r w' HP E. destruct (after_others _ w st (seen_stable o) HP) as (st1 & Hr1 & [Hs1 Ho1]).
  unfold receive_more in E. destruct (socket_read _ (others_run w)) as [[b|e] w2] eqn:Er; injection E as <- <-.
  - apply socket_read_ok in Er as (_ & E1 & E2 & E3 & E4). assert (reading o b w2 st1) as HP2.
    { split; [|done]. destruct Hs1 as [I1 I2 I3 I4 I5 I6 I7]. rewrite app_nil_r in I5. unfold SeesX. split; rewrite ?E1, ?E2, ?E3, ?E4; try done. by rewrite I5. }
    destruct (after_others _ w2 st1 (reading_stable o b (or_intror Hl)) HP2) as (st2 & Hr2 & [Hs2 Ho2]). set (w3 := others_run w2) in *.
    exists (receive b st2). pose proof Ho2 as (O1 & O2 & O3). split; [etrans; [exact Hr1|]; eapply rtc_r; [exact Hr2|]; eapply (k_receive st2 me); auto; by apply (O1 ReadLock)|].
    split; [|split_and!; [exact O1|exact O2|exact O3]]. destruct Hs2 as [I1 I2 I3 I4 I5 I6 I7].
    destruct (tls_set (set_inner (received_bytes b (t_inner (tls w3))) (tls w3)) w3) as (T1 & T2 & T3 & T4).
    unfold Sees, SeesX. split; rewrite ?T1, ?T2, ?T3, ?T4; cbn; try done; [unfold received_bytes; by rewrite I1|by rewrite app_nil_r].
  - apply socket_read_err in Er as (E1 & E2 & E3 & E4). exists st1. split; [done|]. split; [unfold Sees, SeesX; rewrite E1; by eapply sees_same|done].
Qed.

(** *** The operations *)

Lemma owns_knows o b st : owns o st -> handshaken st = b -> owns (mkOwn (o_locks o) b (o_hand o)) st.
Proof using Type. intros (O1 & O2 & O3) <-. split_and!; done. Qed.

Lemma known_same o : o_done o = true -> knowing o = o. Proof using Type. destruct o; cbn; by intros ->. Qed.

(** The handshake's write, and its read, with what rustls makes of it. *)
Definition fed_to (b : list Z) (c : C) : C :=
  match b with
  | [] => c
  | _ => match read_tls b c with (Err _, c) => c | (Ok _, c) => (process_new_packets c).2 end
  end.

Lemma steps_shake_write o c : steps_to (shaking o c) (act (fun w => socket_write (out c) (others_run w)))
  (fun r w st => match r with Ok n => shaking o (drop_out n c) w st | Err _ => shaking o c w st end).
Proof using LAWS.
    apply (steps_shared _ (socket_write (out c))); [apply shaking_stable|]. intros w st [n|e] w' (Hs & Ho & Hl & Hh) E.
    + apply socket_write_ok in E as (En & E1 & E2 & E3 & E4). exists (put_out n st). split; [apply rtc_once; by eapply (k_hs_write st me)|].
      destruct Hs as [I1 I2 I3 I4 I5 I6 I7]. split_and!; [|exact Ho|exact Hl|exact Hh]. split; rewrite ?E1, ?E2, ?E3, ?E4; cbn; try done; rewrite I1; cbn; [done|].
      intros Hb. by rewrite (I6 Hb).
    + apply socket_write_err in E as (E1 & E2 & E3 & E4). exists st. split; [apply rtc_refl|]. split_and!; try done. by eapply sees_same.
Qed.

Lemma steps_hs_write o c f d : steps_to (shaking o c) (Wire_write f d (out c))
  (fun r => shaking o (match r with Ok n => drop_out n c | Err _ => c end)).
Proof using LAWS.
  eapply steps_bind; [apply steps_get|]. intros d'. eapply steps_weaken; [|done|].
  - apply (steps_retry _ (fun n => shaking o (drop_out n c))); [apply shaking_stable|intros; apply shaking_stable|apply steps_shake_write].
  - by intros [].
Qed.

Lemma steps_shake_read o c : steps_to (shaking o c) (act (fun w => socket_read (room c) (others_run w)))
  (fun r w st => match r with Ok b => shaking o (fed_to b c) w st /\ (length b <= room c)%nat | Err _ => shaking o c w st end).
Proof using RL LAWS.
    apply (steps_shared _ (socket_read (room c))); [apply shaking_stable|]. intros w st [b|e] w' (Hs & Ho & Hl & Hh) E.
    + apply socket_read_ok in E as (En & E1 & E2 & E3 & E4). pose proof Hs as [I1 I2 I3 I4 I5 I6 I7]. rewrite app_nil_r in I5. destruct b as [|x b].
      { exists st. split; [apply rtc_refl|]. split; [|done]. split_and!; try done. split; rewrite ?E1, ?E2, ?E3, ?E4; try done. by rewrite I5. }
      exists (handshake_read (x :: b) (fed_to (x :: b) c) st). split.
      * apply rtc_once. unfold fed_to. assert (conn (inner st) = c) as Ec by (by rewrite I1). destruct (read_tls (x :: b) c) as [[n|e] c1] eqn:Er.
        -- pose proof (read_room _ _ _ _ En Er) as ->. destruct (process_new_packets c1) as [r c2] eqn:Ep. cbn [snd]. eapply (k_hs_read st me); try done. by rewrite Ec.
        -- eapply (k_hs_refused st me); try done. by rewrite Ec.
      * split; [|done]. split_and!; [|exact Ho|exact Hl|exact Hh]. split; rewrite ?E1, ?E2, ?E3, ?E4; cbn [inner handshaken received sent broken handshake_read]; try done.
        -- by rewrite I1.
        -- by rewrite app_nil_r, I5.
    + apply socket_read_err in E as (E1 & E2 & E3 & E4). exists st. split; [apply rtc_refl|]. split_and!; try done. by eapply sees_same.
Qed.

Lemma steps_hs_read o c f d : steps_to (shaking o c) (Wire_read f d (room c))
  (fun r w st => shaking o (match r with Ok b => fed_to b c | Err _ => c end) w st /\ match r with Ok b => (length b <= room c)%nat | Err _ => True end).
Proof using RL LAWS.
  eapply steps_bind; [apply steps_get|]. intros d'. eapply steps_weaken; [|done|].
  - apply (steps_retry _ (fun b w st => shaking o (fed_to b c) w st /\ (length b <= room c)%nat)); [apply shaking_stable| |apply steps_shake_read].
    intros b w w' st Ho [HP Hb]. destruct (shaking_stable _ _ _ _ _ Ho HP) as (st' & ? & ?). by exists st'.
  - intros [b|e] w st; tauto.
Qed.

Lemma steps_alert o c f fuel d : steps_to (shaking o c) (@send_alert C _ W (tls_wire f) fuel d c) (shaking o).
Proof using LAWS.
  revert c. induction fuel as [|fuel IH]; intros c; cbn [send_alert]; [by intros w st a w' _ [=]|].
  destruct (wants_write c); [|eapply steps_weaken; [apply steps_ret|done|by intros ? ? ? [-> ?]]].
  eapply steps_bind; [apply steps_hs_write|]. intros [n|e]; [apply IH|]. eapply steps_weaken; [apply steps_ret|done|by intros ? ? ? [-> ?]].
Qed.

Lemma steps_run_handshake o c f fuel d : steps_to (shaking o c) (@run_handshake C _ W (tls_wire f) fuel d c)
  (fun rc w st => shaking o rc.2 w st /\ (rc.1 = Ok tt -> is_handshaking rc.2 = false /\ wants_write rc.2 = false)).
Proof using RL LAWS.
  assert (forall e c, steps_to (shaking o c) (mret (Err e, c))
    (fun (rc : io_result unit * C) w st => shaking o rc.2 w st /\ (rc.1 = Ok tt -> is_handshaking rc.2 = false /\ wants_write rc.2 = false))) as Hret.
  { intros e c'. eapply steps_weaken; [apply steps_ret|done|]. by intros ? ? ? [-> ?]. }
  revert c. induction fuel as [|fuel IH]; intros c; cbn [run_handshake]; [by intros w st a w' _ [=]|]. destruct (is_handshaking c || wants_write c) eqn:Eg.
  2:{ apply orb_false_iff in Eg as [? ?]. eapply steps_weaken; [apply steps_ret|done|]. by intros ? ? ? [-> ?]. }
  eapply steps_bind; [apply steps_get|]. intros [|]; [apply Hret|]. destruct (wants_write c).
  - eapply steps_bind; [apply steps_hs_write|]. intros [n|e]; [apply IH|apply Hret].
  - eapply steps_bind; [apply steps_hs_read|]. intros [[|x b]|e]; cbn [fed_to]; [eapply steps_weaken; [apply Hret|by intros ? ? [? ?]|done]| |eapply steps_weaken; [apply Hret|by intros ? ? [? ?]|done]].
    destruct (read_tls (x :: b) c) as [[n|e] c1]; [|eapply steps_weaken; [apply Hret|by intros ? ? [? ?]|done]].
    destruct (process_new_packets c1) as [[pst|e] c2]; cbn [snd]; [eapply steps_weaken; [apply IH|by intros ? ? [? ?]|done]|].
    eapply (steps_bind _ _ (shaking o)); [eapply steps_weaken; [apply steps_alert|by intros ? ? [? ?]|done]|apply Hret].
Qed.

(** The connection is back in the world. *)
Lemma shaking_seen o c w st : shaking o c w st ->
  seen o (set_tls (set_inner (mkInner c (pending (t_inner (tls w)))) (tls w)) w) st /\ handshaken st = false.
Proof using LAWS.
  intros (Hs & Ho & Hl & Hh). split; [split; [|done]|done]. destruct Hs as [I1 I2 I3 I4 I5 I6 I7].
  destruct (tls_set (set_inner (mkInner c (pending (t_inner (tls w)))) (tls w)) w) as (T1 & T2 & T3 & T4). unfold Sees, SeesX. split; rewrite ?T1, ?T2, ?T3, ?T4; done.
Qed.

Lemma steps_handshake o fuel : o_locks o HandshakeLock = false ->
  steps_to (seen o) (handshake fuel) (fun r => seen (if is_ok r then knowing o else o)).
Proof using RL LAWS.
  intros Hn. eapply steps_bind; [apply steps_load|]. intros [|]; [eapply steps_weaken; [apply steps_ret|done|by intros ? ? ? [-> ?]]|].
  apply (steps_locked o (fun r => if is_ok r then knowing o else o)); [done|by intros [|]|].
  eapply steps_bind; [apply steps_load_now|]. intros [|]; [eapply steps_weaken; [apply steps_ret|by intros ? ? [? _]|by intros ? ? ? [-> ?]]|].
  intros w st r w' [[Hs Ho] Hh]. unfold mbind, io_bind, get. destruct (@run_handshake _ _ _ _ _ _ _ w) as [[[r' c] w1]|] eqn:Er; [|done].
  eapply (steps_run_handshake (taking HandshakeLock o)) in Er as (st1 & Hr1 & HP1 & Hok); [|split_and!; [exact Hs|exact Ho|by apply (proj1 Ho HandshakeLock)|done]].
  cbn [fst snd] in HP1, Hok. pose proof HP1 as (Hs1 & _ & Hl1 & _). apply shaking_seen in HP1 as [[Hs2 Ho2] Hh2]. unfold act. set (w2 := set_tls _ w1) in *.
  destruct r' as [[]|e]; intros [= <- <-]; [|by exists st1]. destruct (Hok eq_refl) as [K1 K2]. exists (finish st1). split.
  - eapply rtc_r; [exact Hr1|]. apply (k_hs_done st1 me); try done; by rewrite (s_inner _ _ _ _ Hs1).
  - destruct (tls_set (set_handshaken (tls w2)) w2) as (T1 & T2 & T3 & T4). destruct Hs2 as [I1 I2 I3 I4 I5 I6 I7]. destruct Ho2 as (O1 & O2 & O3).
    split; [|split_and!; [exact O1|done|exact O3]]. unfold Sees, SeesX. split; rewrite ?T1, ?T2, ?T3, ?T4; done.
Qed.

(** The loop of a poll of the handshake. *)
Definition polled (o : Own) (x : io_result bool * bool * C) (w : W) (st : Stream) : Prop :=
  shaking o x.2 w st /\ (x.1.2 = true -> is_handshaking x.2 = false /\ wants_write x.2 = false).

Lemma steps_handshake_poll o fuel progress c : steps_to (shaking o c) (handshake_poll fuel progress c) (polled o).
Proof using RL LAWS.
  assert (forall (r : io_result bool) c, steps_to (shaking o c) (mret (r, false, c)) (polled o)) as Hret
    by (intros r c'; eapply steps_weaken; [apply steps_ret|done|by intros ? ? ? [-> ?]]).
  revert progress c. induction fuel as [|fuel IH]; intros progress c; cbn [handshake_poll]; [by intros w st a w' _ [=]|].
  destruct (negb (is_handshaking c) && negb (wants_write c)) eqn:Ed.
  { apply andb_true_iff in Ed as [?%negb_true_iff ?%negb_true_iff]. eapply steps_weaken; [apply steps_ret|done|]. intros x w st [-> ?]. by split. }
  destruct (wants_write c).
  - eapply steps_bind; [apply steps_shake_write|]. intros [n|e]; [apply IH|apply Hret].
  - eapply steps_bind; [apply steps_shake_read|]. intros [[|x b]|e]; [eapply steps_weaken; [apply Hret|by intros ? ? [? ?]|done]| |apply Hret].
    cbn [fed_to]. destruct (read_tls (x :: b) c) as [[n|e] c1]; [|eapply steps_weaken; [apply Hret|by intros ? ? [? ?]|done]].
    destruct (process_new_packets c1) as [[pst|e] c2]; cbn [snd]; [eapply steps_weaken; [apply IH|by intros ? ? [? ?]|done]|].
    destruct (wants_write c2); [|eapply steps_weaken; [apply Hret|by intros ? ? [? ?]|done]].
    eapply (steps_bind _ _ (fun r => shaking o (match r with Ok n => drop_out n c2 | Err _ => c2 end)));
      [eapply steps_weaken; [apply steps_shake_write|by intros ? ? [? ?]|by intros []]|]. intros r. apply Hret.
Qed.

(** A handshake that is done is noted. *)
Lemma finished_seen o c w st : seen o w st -> handshake_lock st = Some me -> handshaken st = false -> inner st = mkInner c (pending (t_inner (tls w))) ->
  is_handshaking c = false -> wants_write c = false ->
  step st (finish st) /\ seen (knowing o) (set_tls (set_handshaken (tls w)) w) (finish st).
Proof using LAWS.
  intros [[I1 I2 I3 I4 I5 I6 I7] (O1 & O2 & O3)] Hl Hh Ei K1 K2. split; [apply (k_hs_done st me); try done; by rewrite Ei|].
  destruct (tls_set (set_handshaken (tls w)) w) as (T1 & T2 & T3 & T4).
  split; [|split_and!; [exact O1|done|exact O3]]. unfold Sees, SeesX. split; rewrite ?T1, ?T2, ?T3, ?T4; done.
Qed.

Lemma steps_handshake_now o fuel : o_locks o HandshakeLock = false ->
  steps_to (seen o) (handshake_now fuel) (fun r w st => exists b, seen (mkOwn (o_locks o) b (o_hand o)) w st).
Proof using RL LAWS.
  intros Hn. eapply (steps_weaken _ (seen o) _ _ (fun _ => seen (mkOwn (o_locks o) false (o_hand o)))); [|done|by eauto].
  apply (steps_try_locked o (fun _ => mkOwn (o_locks o) false (o_hand o))); [done|done|by intros st (O1 & O2 & O3)|].
  set (o1 := mkOwn _ _ _). assert (forall o' w st, o_locks o' = o_locks (taking HandshakeLock o) -> o_hand o' = o_hand o -> seen o' w st -> seen o1 w st) as Hdrop.
  { intros o' w st E1 E2 [Hs (O1 & O2 & O3)]. split; [done|]. split_and!; [intros l; by rewrite (O1 l), E1|done|]. intros Hw. destruct O3 as [O3|?]; [by rewrite E1|left|by right]. by rewrite O3, E2. }
  eapply steps_bind; [apply steps_load_now|]. intros [|].
  { intros w st a w' [Hs _] [= <- <-]. exists st. split; [apply rtc_refl|]. by eapply Hdrop, Hs. }
  eapply steps_bind; [apply steps_get|]. intros [|].
  { intros w st a w' [Hs _] [= <- <-]. exists st. split; [apply rtc_refl|]. by eapply Hdrop, Hs. }
  intros w st r w' [[Hs Ho] Hh]. unfold mbind, io_bind, get. destruct (handshake_poll _ _ _ w) as [[[[r' fin] c] w1]|] eqn:Er; [|done].
  eapply (steps_handshake_poll (taking HandshakeLock o)) in Er as (st1 & Hr1 & HP1 & Hok); [|split_and!; [exact Hs|exact Ho|by apply (proj1 Ho HandshakeLock)|done]].
  cbn [fst snd] in HP1, Hok. pose proof HP1 as (Hs1 & _ & Hl1 & _). apply shaking_seen in HP1 as [Hs2 Hh2]. unfold act, mret, io_ret. set (w2 := set_tls _ w1) in *.
  destruct fin; intros [= <- <-].
  - destruct (Hok eq_refl) as [K1 K2]. pose proof (s_inner _ _ _ _ Hs1) as Ei.
    destruct (finished_seen _ c w2 st1 Hs2 Hl1 Hh2) as [Hf Hs3]; [|done..|].
    + rewrite Ei. f_equal. unfold w2. by rewrite (proj1 (tls_set _ _)).
    + exists (finish st1). split; [by eapply rtc_r|]. by eapply Hdrop, Hs3.
  - exists st1. split; [done|]. by eapply Hdrop, Hs2.
Qed.

Lemma steps_poll_send o : o_locks o ReadLock = true -> o_locks o WriteLock = true -> o_done o = true -> o_hand o = [] ->
  steps_to (seen o) (shared poll_send) (fun _ => seen o).
Proof using LAWS.
  intros Hr Hw Hd Hn. apply steps_shared; [apply seen_stable|]. intros w st r w' [Hs Ho] E. unfold poll_send in E. destruct (negb _); [injection E as <- <-; by exists st|].
  destruct (socket_write (out (conn (t_inner (tls w)))) w) as [[n|e] w1] eqn:Es; injection E as <- <-.
  - apply socket_write_ok in Es as (En & E1 & E2 & E3 & E4). pose proof Hs as [I1 I2 I3 I4 I5 I6 I7]. pose proof Ho as (O1 & O2 & O3).
    assert (hand st = []) as Hh by (by eapply owns_hand_nil). exists (put_out n st). split; [apply rtc_once; eapply (k_write_now st me); auto; [by apply (O1 ReadLock)|by apply (O1 WriteLock)]|].
    split; [|split_and!; [exact O1|exact O2|exact O3]].
    match goal with |- Sees (set_tls ?t w1) _ => destruct (tls_set t w1) as (T1 & T2 & T3 & T4) end.
    unfold Sees, SeesX. split; rewrite ?T1, ?T2, ?T3, ?T4, ?E2, ?E3, ?E4; cbn [t_inner t_handshaken t_locks set_inner conn pending put_out inner handshaken received sent broken hand]; rewrite ?E1; try done.
    + by rewrite I1.
    + intros Hb. rewrite (I6 Hb). by rewrite I1.
  - apply socket_write_err in Es as (E1 & E2 & E3 & E4). exists st. split; [apply rtc_refl|]. split; [unfold Sees, SeesX; rewrite E1; by eapply sees_same|done].
Qed.

Lemma steps_fill_now o fuel : (forall l, o_locks o l = false) ->
  steps_to (seen o) (fill_now fuel) (fun r w st => exists b, seen (mkOwn (o_locks o) b (o_hand o)) w st).
Proof using RL LAWS.
  intros Hn. eapply steps_bind; [apply steps_load|]. intros [|]; cbn [negb]; [|by apply steps_handshake_now].
  eapply (steps_weaken _ (seen (knowing o)) _ _ (fun _ => seen (knowing o))); [|done|intros r w st Hs; exists true; exact Hs].
  apply (steps_try_locked (knowing o) (fun _ => knowing o)); [apply Hn|done|done|].
  change (mkOwn _ _ _) with (taking ReadLock (knowing o)). eapply steps_bind; [apply steps_load_any|]. intros [|].
  - apply (steps_try_locked (taking ReadLock (knowing o)) (fun _ => taking ReadLock (knowing o))); [cbn; by rewrite Hn|done|done|].
    change (mkOwn _ _ _) with (taking WriteLock (taking ReadLock (knowing o))). by apply steps_poll_send.
  - eapply steps_bind; [apply steps_poll_check|]. intros [r|]; [apply steps_done|]. eapply steps_bind; [by apply steps_receive|].
    intros [[|n]|e]; [|apply steps_done|apply steps_done]. eapply steps_bind; [by apply steps_eof|]. intros r. apply steps_done.
Qed.

Lemma steps_send_pending o fuel : o_locks o WriteLock = false -> o_done o = true ->
  steps_to (seen o) (send_pending fuel) (fun _ => seen o).
Proof using LAWS.
  intros Hn Hd. apply (steps_locked o (fun _ => o)); [done|done|]. eapply steps_bind; [by apply steps_take|]. intros records.
  by apply (steps_write_all (taking WriteLock o)).
Qed.

Lemma steps_fill_by o fuel by_ : (forall l, o_locks o l = false) -> steps_to (seen o) (fill_by fuel by_) (fun r w st => exists b, seen (mkOwn (o_locks o) b (o_hand o)) w st).
Proof using RL LAWS.
  intros Hn. eapply steps_bind; [apply steps_load|]. intros [|]; cbn [negb].
  2:{ eapply steps_weaken; [by apply (steps_handshake o)|done|]. intros r w st Hs. destruct o as [l d h]. destruct r; [exists true|exists d]; exact Hs. }
  eapply steps_weaken; [|done|]; [|intros r w st Hs; exists true; exact Hs]. apply (steps_locked (knowing o) (fun _ => knowing o)); [apply Hn|done|].
  change (mkOwn _ _ _) with (taking ReadLock (knowing o)). eapply steps_bind; [by apply steps_fill_check|]. intros [| | |e]; [|apply steps_done| |apply steps_done].
  - apply steps_send_pending; [|done]. cbn. by rewrite Hn.
  - eapply steps_bind; [apply steps_get|]. intros d. eapply (steps_try _ _ (fun _ => seen (taking ReadLock (knowing o)))).
    + eapply steps_weaken; [apply (steps_retry _ (fun _ => seen (taking ReadLock (knowing o)))); [apply seen_stable|intros; apply seen_stable|]|done|by intros []].
      eapply steps_weaken; [by apply (steps_receive (taking ReadLock (knowing o)))|done|by intros []].
    + intros n. destruct (n =? 0)%nat; [by apply steps_eof|apply steps_done].
Qed.

Lemma steps_send_chunks o turns fuel data : o_locks o WriteLock = true -> o_done o = true -> o_hand o = [] ->
  steps_to (seen o) (send_chunks turns fuel data) (fun _ => seen o).
Proof using LAWS.
  intros Hw Hd Hh. revert data. assert (with_hand_of [] o = o) as Eo by (destruct o; cbn in *; by subst).
  induction turns as [|turns IH]; intros data; destruct data as [|b data]; cbn [send_chunks]; try apply steps_done; [by intros w st a w' _ [=]|].
  eapply (steps_try _ _ (fun records => seen (with_hand_of records o))); [eapply steps_weaken; [by apply (steps_encrypt o)|done|by intros []]|]. intros records.
  eapply (steps_try _ _ (fun _ => seen o)); [|intros _; apply IH]. eapply steps_weaken; [by apply (steps_write_all o)|done|]. rewrite Eo. by intros [].
Qed.

Lemma steps_tls_write_all o fuel data : (forall l, o_locks o l = false) -> steps_to (seen o) (write_all fuel data) (fun r w st => exists b, seen (mkOwn (o_locks o) b (o_hand o)) w st).
Proof using RL LAWS.
  intros Hn. eapply (steps_try _ _ (fun _ => seen (knowing o))).
  { eapply steps_weaken; [by apply (steps_handshake o)|done|]. intros [[]|e] w st Hs; [exact Hs|]. exists (o_done o). by destruct o. }
  intros _. eapply steps_weaken; [apply (steps_locked (knowing o) (fun _ => knowing o)); [apply Hn|done|]|done|intros r w st Hs; exists true; exact Hs].
  by apply steps_send_chunks.
Qed.

Lemma steps_shutdown o fuel how : (forall l, o_locks o l = false) -> steps_to (seen o) (shutdown fuel how) (fun r w st => exists b, seen (mkOwn (o_locks o) b (o_hand o)) w st).
Proof using LAWS.
  intros Hn. eapply steps_bind; [apply steps_load_any|]. intros ab. eapply (steps_bind _ _ (fun b : bool => seen (if b then knowing o else o))).
  { destruct how; [|apply steps_load..]. eapply steps_weaken; [apply steps_ret|done|by intros ? ? ? [-> ?]]. }
  intros hs. eapply (steps_bind _ _ (fun _ => seen (if hs : bool then knowing o else o))).
  - destruct hs; [|apply steps_done]. destruct ab; [apply steps_done|]. apply (steps_locked (knowing o) (fun _ => knowing o)); [apply Hn|done|].
    eapply steps_bind; [by apply steps_close|]. intros records. eapply steps_bind; [by apply (steps_write_all (taking WriteLock (knowing o)))|]. intros r. apply steps_done.
  - intros _. eapply steps_weaken; [apply (steps_shared (seen (if hs then knowing o else o)) _ (fun _ => seen (if hs then knowing o else o))); [apply seen_stable|]|done|].
    + intros w st r w' [Hs Ho] E. apply socket_shut in E as (E1 & E2 & E3 & E4). exists st. split; [apply rtc_refl|]. split; [unfold Sees, SeesX; rewrite E1; by eapply sees_same|done].
    + intros r w st Hs. exists (if hs then true else o_done o). destruct o, hs; exact Hs.
Qed.

Lemma steps_abort o : (forall l, o_locks o l = false) -> steps_to (seen o) abort (fun _ => seen o).
Proof using LAWS.
  intros Hn. eapply (steps_bind _ _ (fun _ => seen o)).
  - apply steps_shared; [apply seen_stable|]. intros w st [] w' [[I1 I2 I3 I4 I5 I6 I7] Ho] [= <-]. exists st. split; [apply rtc_refl|]. split; [|done].
    destruct (tls_set (set_aborted (tls w)) w) as (T1 & T2 & T3 & T4). unfold Sees, SeesX. split; rewrite ?T1, ?T2, ?T3, ?T4; done.
  - intros _. apply steps_shared; [apply seen_stable|]. intros w st [] w' [[I1 I2 I3 I4 I5 I6 I7] (O1 & O2 & O3)] [= <-]. destruct (socket_aborted w) as (T1 & T2 & T3 & T4).
    exists (break st). split; [apply rtc_once, k_abort|]. split; [unfold Sees, SeesX; split; rewrite ?T1, ?T2, ?T3, ?T4; done|]. split_and!; [exact O1|exact O2|]. by rewrite Hn.
Qed.

(** *** Any sequence of operations *)

Inductive Op := OpHandshake | OpFill (by_ : deadline) | OpWrite (data : list Z) | OpShutdown (how : Shutdown) | OpAbort | OpPoll.

Definition run_op (fuel : nat) (op : Op) : io W (io_result unit) :=
  match op with
  | OpHandshake => handshake fuel
  | OpFill by_ => fill_by fuel by_
  | OpWrite data => write_all fuel data
  | OpShutdown how => shutdown fuel how
  | OpAbort => _ ← abort; mret (Ok tt)
  | OpPoll => r ← fill_now fuel; mret (map_ok (fun _ => tt) r)
  end.

Fixpoint run_ops (fuel : nat) (ops : list Op) : io W (list (io_result unit)) :=
  match ops with [] => mret [] | op :: ops => r ← run_op fuel op; rs ← run_ops fuel ops; mret (r :: rs) end.

Definition idle (w : W) (st : Stream) : Prop := exists b, seen (mkOwn (fun _ => false) b []) w st.

Lemma steps_op fuel op : steps_to idle (run_op fuel op) (fun _ => idle).
Proof using RL LAWS.
  intros w st r w' [b Hs]. destruct op; cbn [run_op]; intros E.
  - destruct (steps_handshake (mkOwn (fun _ => false) b []) fuel eq_refl _ _ _ _ Hs E) as (st' & Hr & HP). exists st'. split; [done|]. destruct r; [by exists true|by exists b].
  - exact (steps_fill_by (mkOwn (fun _ => false) b []) fuel by_ (fun _ => eq_refl) _ _ _ _ Hs E).
  - exact (steps_tls_write_all (mkOwn (fun _ => false) b []) fuel data (fun _ => eq_refl) _ _ _ _ Hs E).
  - exact (steps_shutdown (mkOwn (fun _ => false) b []) fuel how (fun _ => eq_refl) _ _ _ _ Hs E).
  - refine (steps_bind idle _ (fun _ => idle) _ (fun _ => idle) _ (fun a => steps_done _ _) _ _ _ _ (ex_intro _ b Hs) E).
    intros w1 st1 a w2 [b1 Hs1] Ea. destruct (steps_abort (mkOwn (fun _ => false) b1 []) (fun _ => eq_refl) _ _ _ _ Hs1 Ea) as (st2 & ? & ?). exists st2. split; [done|by exists b1].
  - refine (steps_bind idle _ (fun _ => idle) _ (fun _ => idle) _ (fun a => steps_done _ _) _ _ _ _ (ex_intro _ b Hs) E).
    intros w1 st1 a w2 [b1 Hs1] Ea. exact (steps_fill_now (mkOwn (fun _ => false) b1 []) fuel (fun _ => eq_refl) _ _ _ _ Hs1 Ea).
Qed.

Lemma steps_ops fuel ops : steps_to idle (run_ops fuel ops) (fun _ => idle).
Proof using RL LAWS.
  induction ops as [|op ops IH]; cbn [run_ops]; [apply steps_done|]. eapply steps_bind; [apply steps_op|]. intros r. eapply steps_bind; [apply IH|]. intros rs. apply steps_done.
Qed.

(** A new stream, of which nothing was read and to which nothing was written. *)
Lemma new_idle cl c d w : tls w = TlsStream_new cl c d -> arrived w = [] -> delivered w = [] -> lost w = false -> idle w (stream_new c).
Proof using Type.
  intros E1 E2 E3 E4. exists false. split.
  - unfold Sees, SeesX. rewrite E1. split; rewrite ?E1, ?E2, ?E3, ?E4; try done. by intros [].
  - split_and!; try done. intros []; done.
Qed.

(** C13: Whatever a task does with a TLS stream (shakes hands, fills, writes, shuts
    down, aborts, or polls it for a [Select], which only tries the locks and
    never waits), in any order and whatever comes of it, failures included, while other tasks and threads use the stream too
    at every point where they can, is steps of the stream of [Tls.v], which end
    with the connection and the [pending] bytes the stream has.  So from
    the stream's making on, what came from the socket is what rustls was given,
    in order, and then what waits in [pending]; and as long as nobody, this task
    or another, had a write to the socket fail or aborted the stream ([lost] is
    the record of that), what the socket took, what another writer has in hand
    (nothing, when nobody writes) and what rustls has queued are together what
    rustls made, in order.  The task is left holding no lock. *)
Theorem task_operations_in_order cl c d fuel ops w rs w' :
  tls w = TlsStream_new cl c d -> arrived w = [] -> delivered w = [] -> lost w = false ->
  run_ops fuel ops w = Some (rs, w') ->
  exists st, reachable c st /\ inner st = t_inner (tls w') /\ handshaken st = t_handshaken (tls w') /\
    arrived w' = fed st ++ pending (t_inner (tls w')) /\
    (lost w' = false -> sent st = delivered w' /\ made st = delivered w' ++ hand st ++ out (conn (t_inner (tls w')))) /\
    (t_locks (tls w') WriteLock = None -> hand st = []) /\ (forall l, t_locks (tls w') l <> Some me).
Proof using RL LAWS.
  intros E1 E2 E3 E4 Hr. destruct (steps_ops fuel ops w (stream_new c) rs w' (new_idle cl c d w E1 E2 E3 E4) Hr) as (st & Hst & b & Hs & (O1 & _)).
  exists st. destruct Hs as [I1 I2 I3 I4 I5 I6 I7]. rewrite app_nil_r in I5. destruct (tls_reachable_inv c st Hst) as [V1 V2 _]. split_and!; [done| |done| | | |].
  - rewrite I1. by destruct (t_inner (tls w')).
  - by rewrite <- I5, V1, I1.
  - rewrite <- I7. intros Hb. split; [by apply I6|]. by rewrite (V2 Hb), <- (I6 Hb), I1.
  - rewrite <- (I3 WriteLock). exact I4.
  - intros l E. rewrite <- I3 in E. by apply O1 in E.
Qed.

(** *** Making a session *)

Context {Name : Type} `{!PeerInfo C Name} {Cert Key Anchor Pair : Type} `{!TlsConfig.Rustls Cert Key Anchor Pair}.
Variable ClientConnection_new : @TlsConfig.ClientConfig Anchor Pair -> Name -> option C.

(** A client gets a stream only over a session with a valid name and with the
    configuration it asked for, whose handshake is done. *)
Theorem client_shook_hands fuel name ca_file alpn cert d w w' : arrived w = [] -> delivered w = [] -> lost w = false ->
  client ClientConnection_new fuel name ca_file alpn cert d w = Some (Ok tt, w') ->
  t_handshaken (tls w') = true /\
  exists n config c, server_name_of name = Some n /\ TlsConfig.client_config ca_file alpn cert = Ok config /\ ClientConnection_new config n = Some c.
Proof using RL LAWS.
  intros E2 E3 E4. unfold client. destruct (server_name_of name) as [n|] eqn:En; [|done]. destruct (TlsConfig.client_config _ _ _) as [config|e] eqn:Ec; [|done].
  destruct (ClientConnection_new config n) as [c|] eqn:Econ; [|done]. unfold mbind, io_bind, act. intros Hh.
  destruct (tls_set (TlsStream_new true c d) w) as (T1 & T2 & T3 & T4).
  destruct (new_idle true c d (set_tls (TlsStream_new true c d) w)) as [b Hs]; [done|congruence..|].
  destruct (steps_handshake (mkOwn (fun _ => false) b []) fuel eq_refl _ _ _ _ Hs Hh) as (st & _ & [I1 I2 _ _ _ _ _] & (_ & O2 & _)).
  split; [|eauto 6]. rewrite <- I2. by apply O2.
Qed.

End Facts.

(** ** A task alone with its stream *)

Section Alone.
Context {W C : Type} `{Rustls C, SchedLaws W, HasConn W, !TlsWorld W C} (delivered : W -> list Z).

(** The others do nothing with the stream. *)
Class Alone : Prop := {
  alone_others : forall w, others_run w = w;
  alone_lock : forall l w, t_inner (tls (lock_wait l w)) = t_inner (tls w) /\ delivered (lock_wait l w) = delivered w;
  alone_release : forall l w, t_inner (tls (lock_release l w)) = t_inner (tls w) /\ delivered (lock_release l w) = delivered w;
  alone_set : forall s w, tls (set_tls s w) = s /\ delivered (set_tls s w) = delivered w;
  alone_lost : forall w, delivered (note_lost w) = delivered w;
}.
Context {AL : Alone} {WL : WriteLaws W delivered (fun data w => socket_write data (others_run w))}.

Lemma load_alone {A} (f : TlsStream C -> A) w : load f w = Some (f (tls w), w).
Proof using AL. unfold load, shared, act. by rewrite alone_others. Qed.

(** [close_notify] sent: all of it, or what the socket took of it. *)
Definition goodbye (c : C) (rw : io_result unit) (w w' : W) : Prop :=
  match rw with
  | Ok _ => delivered w' = delivered w ++ out (send_close_notify c)
  | Err e => exists k, delivered w' = delivered w ++ take k (out (send_close_notify c))
  end.

Lemma conn_write_alone fuel data w r w' : conn_write_all fuel data w = Some (r, w') ->
  match r with Ok _ => delivered w' = delivered w ++ data | Err _ => exists k, delivered w' = delivered w ++ take k data end.
Proof using All.
  unfold conn_write_all, mbind, io_bind, act, mret, io_ret. destruct (write_all_with _ _ _ _ w) as [[[[]|e] w1]|] eqn:Ew; [| |done];
    apply (write_all_spec delivered) in Ew; try done; intros [= <- <-]; [done|]. rewrite alone_lost. by destruct Ew as [Ew _].
Qed.

Lemma close_alone fuel w w' :
  locked WriteLock (records ← with_inner_locked close_records; _ ← conn_write_all fuel records; mret tt) w = Some (tt, w') ->
  exists rw, goodbye (conn (t_inner (tls w))) rw w w'.
Proof using All.
  unfold locked, with_inner_locked, shared, mbind, io_bind, act, mret, io_ret. rewrite alone_others. destruct (alone_lock WriteLock w) as [L1 L2]. set (w1 := lock_wait WriteLock w) in *.
  unfold close_records, take_records. cbn. rewrite L1. set (c := conn (t_inner (tls w))). set (w2 := set_tls _ w1).
  assert (delivered w2 = delivered w) as E2 by (unfold w2; rewrite <- L2; apply alone_set).
  destruct (conn_write_all fuel _ w2) as [[rw w3]|] eqn:Ew; [|done]. intros [= <-]. exists rw.
  apply conn_write_alone in Ew. destruct (alone_release WriteLock w3) as [_ R2]. rewrite E2 in Ew. unfold goodbye. rewrite R2.
  by destruct rw as [[]|e].
Qed.

(** How a session ends: unless only reading is shut down, or the handshake was
    never done, or the stream was aborted, the socket is first given what
    rustls had to send and its [close_notify] (all of it, or a write failed);
    and in those cases nothing at all. *)
Theorem shutdown_says_so fuel how w r w' : shutdown fuel how w = Some (r, w') ->
  let s := tls w in
  exists w1, socket_shutdown how w1 = (r, w') /\
  if (match how with ShutRead => false | _ => t_handshaken s end) && negb (aborted s) then exists rw, goodbye (conn (t_inner s)) rw w w1 else w1 = w.
Proof using All.
  intros E s. unfold shutdown in E. unfold mbind at 1, io_bind at 1 in E. rewrite load_alone in E. fold s in E.
  set (hs := match how with ShutRead => false | _ => t_handshaken s end).
  assert (match how with ShutRead => mret false | _ => load t_handshaken end w = Some (hs, w)) as Eh by (unfold hs, s; destruct how; [done|apply load_alone..]).
  unfold mbind at 1, io_bind at 1 in E. rewrite Eh in E. unfold mbind at 1, io_bind at 1 in E. destruct (hs && negb (aborted s)).
  - destruct (locked _ _ w) as [[[] w1]|] eqn:Ec; [|done]. apply close_alone in Ec. exists w1. split; [|done].
    unfold shared, act in E. rewrite alone_others in E. by injection E.
  - exists w. split; [|done]. cbn in E. unfold shared, act in E. rewrite alone_others in E. by injection E.
Qed.

Lemma alone_write data w r w' : socket_write data w = (r, w') ->
  match r with Ok n => (n <= length data)%nat /\ delivered w' = delivered w ++ take n data | Err _ => delivered w' = delivered w end.
Proof using All. intros E. rewrite <- (alone_others w) in E. destruct r as [n|e]; [exact (write_ok (WriteLaws := WL) _ _ _ _ E)|exact (write_err (WriteLaws := WL) _ _ _ _ E)]. Qed.

(** Releasing the stream. *)
Lemma socket_write_all_spec fuel data w r w' : socket_write_all fuel data w = Some (r, w') ->
  match r with Ok _ => delivered w' = delivered w ++ data | Err _ => exists k, delivered w' = delivered w ++ take k data end.
Proof using All.
  revert data w. induction fuel as [|fuel IH]; intros data w; destruct data as [|b data]; cbn [socket_write_all]; try done; try (intros [= <- <-]; by rewrite app_nil_r).
  unfold mbind, io_bind, act. destruct (socket_write (b :: data) w) as [[n|e] w1] eqn:Ew.
  - apply alone_write in Ew as [Hn Hd]. destruct n as [|n]; [intros [= <- <-]; by exists 0%nat|].
    intros Hr%IH. rewrite Hd in Hr. destruct r as [[]|e]; [by rewrite Hr, <- app_assoc, take_drop|]. destruct Hr as [k Hk]. exists (S n + k)%nat.
    rewrite Hk, <- app_assoc. f_equal. rewrite <- (take_drop (S n) (b :: data)) at 3. rewrite take_app, take_take, length_take. f_equal; f_equal; lia.
  - apply alone_write in Ew as Hd. destruct (is_kind InterruptedKind e); [intros Hr%IH; by rewrite Hd in Hr|].
    intros [= <- <-]. exists 0%nat. by rewrite Hd, app_nil_r.
Qed.

(** A stream released without being closed says so too, without waiting: but
    never one that was aborted, or whose handshake was never done. *)
Theorem drop_says_so fuel w w' : tls_drop fuel w = Some (tt, w') ->
  if t_handshaken (tls w) && negb (aborted (tls w)) then exists rw, goodbye (conn (t_inner (tls w))) rw w w' else w' = w.
Proof using All.
  unfold tls_drop, mbind, io_bind, get, act, mret, io_ret. set (s := tls w). destruct (t_handshaken s), (aborted s); cbn [negb orb andb]; try (by intros [= <-]).
  unfold close_records, take_records. set (w1 := set_tls _ w). destruct (socket_write_all _ _ w1) as [[rw w2]|] eqn:Ew; [|done]. intros [= <-].
  exists rw. apply socket_write_all_spec in Ew. assert (delivered w1 = delivered w) as E1 by apply alone_set. rewrite E1 in Ew. unfold goodbye. by destruct rw.
Qed.

(** *** Writing returns *)

(** If the socket answers each write after at most [N] unanswered tries, a write
    to a stream that has shaken hands returns, and so does its release. *)
Lemma send_chunks_returns (busy : W -> nat) (N : nat) turns data w :
  (forall data w e w1, socket_write data w = (Err e, w1) -> is_kind InterruptedKind e = true -> (busy w1 < busy w)%nat) ->
  (forall data d w e w1 f w2, socket_write data w = (Err e, w1) -> is_kind WouldBlock e = true -> wait_io f true d w1 = (Ok tt, w2) -> (busy w2 < busy w)%nat) ->
  (forall w, (busy w <= N)%nat) -> (length data <= turns)%nat -> exists r w', send_chunks turns (S N) data w = Some (r, w').
Proof using All.
  intros Hi Hb HN. revert data w. induction turns as [|turns IH]; intros data w Hl; destruct data as [|b data]; cbn [send_chunks];
    [eexists _, _; reflexivity|cbn in Hl; lia|eexists _, _; reflexivity|].
  unfold try_bind at 1, mbind at 1, io_bind at 1, with_inner_locked at 1, shared, act. destruct (encrypt_chunk _ _) as [[records|e] i]; [|eexists _, _; reflexivity].
  set (w1 := set_tls _ _). unfold try_bind, mbind, io_bind.
  destruct (write_all_returns delivered (fun data w => socket_write data (others_run w)) busy N (length records) records w1) as (r & w2 & Er);
    [intros ? ? ? ?; rewrite alone_others; apply Hi|intros ? ? ? ? ? ? ?; rewrite alone_others; apply Hb|done|done|].
  unfold conn_write_all, mbind, io_bind. rewrite Er. destruct r as [[]|e]; [|eexists _, _; reflexivity]. apply IH. rewrite length_drop. cbn [length] in *.
  assert (0 < CHUNK)%nat by (unfold CHUNK; lia). lia.
Qed.

Theorem tls_write_returns (busy : W -> nat) (N : nat) data w : t_handshaken (tls w) = true ->
  (forall data w e w1, socket_write data w = (Err e, w1) -> is_kind InterruptedKind e = true -> (busy w1 < busy w)%nat) ->
  (forall data d w e w1 f w2, socket_write data w = (Err e, w1) -> is_kind WouldBlock e = true -> wait_io f true d w1 = (Ok tt, w2) -> (busy w2 < busy w)%nat) ->
  (forall w, (busy w <= N)%nat) -> exists r w', write_all (S N) data w = Some (r, w').
Proof using All.
  intros Hh Hi Hb HN. unfold write_all, handshake, try_bind, mbind, io_bind. rewrite load_alone, Hh. unfold mret at 1, io_ret at 1. unfold locked, mbind, io_bind, act.
  destruct (send_chunks_returns busy N (length data) data (lock_wait WriteLock w) Hi Hb HN ltac:(done)) as (r & w' & ->). eexists _, _. reflexivity.
Qed.

End Alone.
(** ** A stream that doesn't encrypt, and a socket that takes two bytes at a time *)

Module ToySession.

Record World := mkWorld { w_now : Z; w_tls : TlsStream Toy.Conn; w_arrives : list (list Z); w_arrived : list Z; w_delivered : list Z; w_lost : bool }.

#[global] Instance toy_sched : Sched World := {|
  now := w_now;
  watch_io _ _ w := (WatchAdded, w);
  wait_suspended _ w := (Ready, mkWorld (w_now w + 1) (w_tls w) (w_arrives w) (w_arrived w) (w_delivered w) (w_lost w));
  consume_budget w := w |}.

#[global] Instance toy_sched_laws : SchedLaws World.
Proof. split; simpl; intros; simplify_eq; lia || done. Qed.

#[global] Instance toy_conn : HasConn World := fun _ => Conn_new 3.

Definition with_tls (s : TlsStream Toy.Conn) (w : World) : World := mkWorld (w_now w) s (w_arrives w) (w_arrived w) (w_delivered w) (w_lost w).
Definition set_holder (l : LockName) (t : option nat) (s : TlsStream Toy.Conn) : TlsStream Toy.Conn :=
  mkTls (is_client s) (t_inner s) (fun l' => if bool_decide (l' = l) then t else t_locks s l') (t_handshaken s) (ignore_unexpected_eof s) (aborted s) (handshake_deadline s).

Definition lose (w : World) : World := mkWorld (w_now w) (w_tls w) (w_arrives w) (w_arrived w) (w_delivered w) true.

#[global] Instance toy_world : TlsWorld World Toy.Conn := {|
  tls := w_tls;
  set_tls := with_tls;
  others_run w := w;
  (** Another task that has the lock gives up what it has in hand. *)
  lock_wait l w := with_tls (set_holder l (Some 0%nat) (w_tls w)) (match t_locks (w_tls w) l with Some _ => lose w | None => w end);
  lock_release l w := with_tls (set_holder l None (w_tls w)) w;
  lock_try l w := match t_locks (w_tls w) l with Some _ => (false, w) | None => (true, with_tls (set_holder l (Some 0%nat) (w_tls w)) w) end;
  socket_read n w := match w_arrives w with
    | b :: bs => if (length b <=? n)%nat then (Ok b, mkWorld (w_now w) (w_tls w) bs (w_arrived w ++ b) (w_delivered w) (w_lost w)) else (Err timed_out, w)
    | [] => (Ok [], w)
    end;
  socket_write d w := (Ok (Nat.min 2 (length d)), mkWorld (w_now w) (w_tls w) (w_arrives w) (w_arrived w) (w_delivered w ++ take (Nat.min 2 (length d)) d) (w_lost w));
  socket_shutdown _ w := (Ok tt, w);
  socket_abort := lose;
  lost := w_lost;
  note_lost := lose |}.

Lemma toy_others w w' : w_tls w' = w_tls w -> w_arrived w' = w_arrived w -> w_delivered w' = w_delivered w -> w_lost w' = w_lost w -> others 0 w_arrived w_delivered w w'.
Proof.
  intros E1 E2 E3 E4. split.
  - intros x st Hs _. exists st. split_and!; [apply rtc_refl| |split; [done|by left]]. unfold SeesX in *. cbn. rewrite E1. by eapply sees_same.
  - intros c st Hs Hl Hh. exists st. split_and!; [apply rtc_refl| |split; [done|by left]|done]. by eapply sees_same.
Qed.

#[global] Instance toy_tls_laws : TlsLaws 0 w_arrived w_delivered.
Proof.
  split; try (intros; by apply toy_others); try done.
  - intros l w st [I1 I2 I3 I4 I5 I6 I7] Hl. pose proof (I3 l) as El. cbn [tls toy_world] in El. destruct (lock_of l st) as [t|] eqn:El'.
    + exists (set_lock l None (break st)). assert (lock_of l (break st) = Some t) as Eb by (by destruct l). split_and!.
      * eapply rtc_l; [apply k_abort|]. apply rtc_once. eapply step_give; done.
      * split; [|right; destruct l; done]. intros l'. rewrite lock_of_set. case_bool_decide; [subst; split; congruence|by destruct l'].
      * rewrite lock_of_set. by rewrite bool_decide_eq_true_2.
      * unfold Sees, SeesX. cbn [lock_wait toy_world tls]. rewrite <- El. split; [by destruct l|by destruct l| |by destruct l|by destruct l|by destruct l|by destruct l].
        intros l'. rewrite !lock_of_set. cbn. case_bool_decide; [done|]. rewrite <- I3. by destruct l'.
    + exists st. split_and!; [apply rtc_refl|split; [done|by left]|done|]. unfold Sees, SeesX. cbn [lock_wait toy_world tls]. rewrite <- El.
      split; [by destruct l|by destruct l| |by destruct l; cbn in *; auto|by destruct l|by destruct l|by destruct l].
      intros l'. rewrite lock_of_set. cbn. case_bool_decide; [done|by rewrite <- I3].
  - intros l w st b w' Hs Hl E. pose proof Hs as [I1 I2 I3 I4 I5 I6 I7]. pose proof (I3 l) as El. cbn [tls toy_world] in El. exists st. split; [apply rtc_refl|]. split; [split; [done|by left]|].
    cbn in E. rewrite <- El in E. destruct (lock_of l st) as [t|] eqn:El'; injection E as <- <-; [done|]. split; [done|]. unfold Sees, SeesX.
    split; [by destruct l|by destruct l| |by destruct l; cbn in *; auto|by destruct l|by destruct l|by destruct l].
    intros l'. rewrite lock_of_set. cbn. case_bool_decide; [done|by rewrite <- I3].
  - intros l w st [I1 I2 I3 I4 I5 I6 I7] Hl Hh. unfold Sees, SeesX. split; [by destruct l|by destruct l| |by destruct l; cbn in *; auto|by destruct l|by destruct l|by destruct l].
    intros l'. rewrite lock_of_set. cbn. case_bool_decide; [done|by rewrite <- I3].
  - intros n w b w' E. cbn in E. destruct (w_arrives w) as [|b0 bs]; [injection E as <- <-; by rewrite app_nil_r; split_and!; [cbn; lia|..]|].
    destruct (Nat.leb_spec (length b0) n); [by injection E as <- <-|done].
  - intros n w e w' E. cbn in E. destruct (w_arrives w) as [|b0 bs]; [done|]. destruct (length b0 <=? n)%nat; [done|by injection E as <- <-].
  - intros d w n w' E. injection E as <- <-. split_and!; try done. destruct d as [|? []]; cbn; lia.
  - intros how w r w' [= <- <-]. done.
Qed.

#[global] Instance toy_alone : Alone w_delivered.
Proof. split; try done. intros l w. cbn. by destruct (t_locks (w_tls w) l). Qed.

#[global] Instance toy_write_laws : WriteLaws World w_delivered (fun data w => socket_write data (others_run w)).
Proof. split; try done. intros data w n w' [= <- <-]. split; [destruct data as [|? []]; cbn; lia|done]. Qed.

Definition start : World := mkWorld 0 (TlsStream_new true Toy.client (Some 9)) [[5]; [6; 7]] [] [] false.
Definition ops : list Op := [OpPoll; OpWrite [7; 8; 9]; OpFill None; OpPoll; OpShutdown ShutWrite].
Definition ended : World := default start (snd <$> run_ops 9 ops start).

End ToySession.

(** A client shakes hands in a poll, writes three bytes, receives two, polls
    again and closes: all rustls made was sent. *)
Lemma task_operations_in_order_witness :
  ToySession.w_delivered ToySession.ended = [1; 1; 7; 8; 9; 0] /\
  exists st, reachable Toy.client st /\ ToySession.w_arrived ToySession.ended = fed st ++ pending (t_inner (tls ToySession.ended)) /\
    made st = ToySession.w_delivered ToySession.ended ++ [] ++ out (conn (t_inner (tls ToySession.ended))).
Proof.
  split; [vm_compute; reflexivity|].
  destruct (task_operations_in_order 0 ToySession.w_arrived ToySession.w_delivered true Toy.client (Some 9) 9 ToySession.ops ToySession.start
    [Ok tt; Ok tt; Ok tt; Ok tt; Ok tt] ToySession.ended) as (st & Hr & _ & _ & Ha & Hm & Hh & _); [reflexivity..|vm_compute; reflexivity|].
  exists st. split; [exact Hr|split; [exact Ha|]]. rewrite <- Hh; [|vm_compute; reflexivity]. apply Hm. vm_compute. reflexivity.
Defined.

End TlsSession.
