(* ===== verification/StreamWatch.v ===== *)
(** * Selects waiting on TLS and Noise streams ([src/tls.rs], [src/noise.rs])

    A [Select] that polled a stream and got nothing registers with it
    ([watch]) and then waits for the socket; what the socket won't show it
    (another task left something behind, or its poll found a lock held) it is
    told by the release of the stream's locks: [Held::drop] of TLS and
    [Reading::drop] of Noise wake all watchers, or, if nothing came of the hold
    (it was idle), those that registered during it.

    Here is that protocol as a state machine of one stream, its handshake
    done: tasks that hold its read and write locks, wake-ups under way after
    a release, and watchers at each point of [watch].  A watcher that was
    woken, or gave up, is not in [watchers].  An event of the socket wakes
    every watcher registered before it: between [watch] and the suspension
    the worker handles no events, and [add_io] re-registers a socket that
    another worker watches.  A read of the non-blocking socket is not
    interrupted. *)
From S2P Require Import Prelude.
Local Open Scope Z_scope.

Module StreamWatch.

(** Why a hold was marked idle: [try_read] of TLS found nothing buffered; the
    socket had nothing and nothing was buffered; the socket took nothing of
    what must be sent first. *)
Inductive Idle := NothingBuffered | NothingToRead | SocketFull.

(** [Held] and [Reading]; [first]: the next watcher's id, read before the lock
    was taken. *)
Record Hold := mkHold { holder : nat; first : Z; idle : option Idle }.

(** Where a watcher is in [watch]: registered; the locks looked free; it looked
    for something to read; it waits. *)
Inductive Phase := Registered | NotBusy | Saw (ready : bool) | Waits.

(** Whether there is something a poll would take: [buffered] by the stream,
    or [readable] on the socket.  [polling]: the tasks between a [try_read]
    that found nothing and the [fill] that follows it.  [users]: tasks that
    lock [inner] without a hold ([server_name], [peer_certificates],
    [alpn_protocol], and [watch] itself).  [wakes]: the wake-ups under way,
    from an id on or of all.  Since all were last woken, [stuck]: a hold was
    idle although something may have been there to read; [missed]: a watcher
    found [inner] locked by one of [users]. *)
Record State := mkState {
  read_hold : option Hold; write_hold : option Hold; wakes : list (option Z);
  polling : gset nat; users : nat;
  next_id : Z; watchers : gmap Z Phase;
  buffered : bool; readable : bool; stuck : bool; missed : bool }.

Definition init : State := mkState None None [] ∅ 0 1 ∅ false false false false.

Definition set_watchers (ws : gmap Z Phase) (s : State) : State :=
  mkState (read_hold s) (write_hold s) (wakes s) (polling s) (users s) (next_id s) ws (buffered s) (readable s) (stuck s) (missed s).
Definition set_read (h : option Hold) (p : gset nat) (s : State) : State :=
  mkState h (write_hold s) (wakes s) p (users s) (next_id s) (watchers s) (buffered s) (readable s) (stuck s) (missed s).
Definition set_write (h : option Hold) (s : State) : State :=
  mkState (read_hold s) h (wakes s) (polling s) (users s) (next_id s) (watchers s) (buffered s) (readable s) (stuck s) (missed s).
Definition set_users (n : nat) (s : State) : State :=
  mkState (read_hold s) (write_hold s) (wakes s) (polling s) n (next_id s) (watchers s) (buffered s) (readable s) (stuck s) (missed s).
Definition set_wakes (l : list (option Z)) (s : State) : State :=
  mkState (read_hold s) (write_hold s) l (polling s) (users s) (next_id s) (watchers s) (buffered s) (readable s) (stuck s) (missed s).
Definition set_data (b r : bool) (s : State) : State :=
  mkState (read_hold s) (write_hold s) (wakes s) (polling s) (users s) (next_id s) (watchers s) b r (stuck s) (missed s).
Definition set_flags (st mi : bool) (s : State) : State :=
  mkState (read_hold s) (write_hold s) (wakes s) (polling s) (users s) (next_id s) (watchers s) (buffered s) (readable s) st mi.

Definition set_phase (id : Z) (p : Phase) (s : State) : State := set_watchers (<[id := p]> (watchers s)) s.

(** [add_waker] *)
Definition add_watcher (s : State) : State :=
  mkState (read_hold s) (write_hold s) (wakes s) (polling s) (users s) (next_id s + 1) (<[next_id s := Registered]> (watchers s))
    (buffered s) (readable s) (stuck s) (missed s).

(** Something has arrived: its event wakes who is registered. *)
Definition arrive (s : State) : State := set_data (buffered s) true (set_watchers ∅ s).

Definition mark_idle (why : Idle) (h : Hold) : Hold := mkHold (holder h) (first h) (Some why).

(** The release of a lock: the first half of [Held::drop], and whom the second
    is to wake. *)
Definition to_wake (h : Hold) : option Z := match idle h with Some _ => Some (first h) | None => None end.

(** [wake_from] and [wake_all] *)
Definition woken (from : option Z) (s : State) : State :=
  match from with
  | Some f => set_watchers (filter (fun '(id, _) => id < f) (watchers s)) s
  | None => set_flags false false (set_watchers ∅ s)
  end.

(** [tls]: the stream is TLS, not Noise. *)
Inductive step (tls : bool) : State -> State -> Prop :=
  | w_arrive s : step tls s (arrive s)
  (** [watch] *)
  | w_register s : step tls s (add_watcher s)
  | w_busy s id h : watchers s !! id = Some Registered -> read_hold s = Some h -> step tls s (set_phase id Waits s)
  | w_not_busy s id : watchers s !! id = Some Registered -> read_hold s = None -> step tls s (set_phase id NotBusy s)
  | w_inner_held s id : tls = true -> watchers s !! id = Some NotBusy -> read_hold s <> None \/ write_hold s <> None ->
      step tls s (set_phase id Waits s)
  | w_inner_used s id : tls = true -> watchers s !! id = Some NotBusy -> (0 < users s)%nat ->
      step tls s (set_flags (stuck s) true (set_phase id Waits s))
  | w_look s id : watchers s !! id = Some NotBusy -> step tls s (set_phase id (Saw (buffered s || readable s)) s)
  | w_ready s id : watchers s !! id = Some (Saw true) -> (tls = true -> read_hold s = None) ->
      step tls s (set_watchers (delete id (watchers s)) s)
  | w_ready_busy s id h : tls = true -> watchers s !! id = Some (Saw true) -> read_hold s = Some h -> step tls s (set_phase id Waits s)
  | w_nothing s id : watchers s !! id = Some (Saw false) -> step tls s (set_phase id Waits s)
  | w_unwatch s id : step tls s (set_watchers (delete id (watchers s)) s)
  | w_use s : tls = true -> step tls s (set_users (S (users s)) s)
  | w_unuse s n : users s = S n -> step tls s (set_users n s)
  (** [lock_read] and [try_lock_read] *)
  | w_lock_read s t f : read_hold s = None -> f <= next_id s -> step tls s (set_read (Some (mkHold t f None)) (polling s ∖ {[t]}) s)
  | w_fill_refused s t h : t ∈ polling s -> read_hold s = Some h -> holder h <> t -> step tls s (set_read (Some h) (polling s ∖ {[t]}) s)
  (** What a reader does: it takes something (off the socket, or of what is
      buffered), or finds nothing. *)
  | w_progress s h b r : read_hold s = Some h -> idle h = None -> (r = true -> readable s = true) -> step tls s (set_data b r s)
  | w_nothing_buffered s h : tls = true -> read_hold s = Some h -> idle h = None -> buffered s = false ->
      step tls s (set_read (Some (mark_idle NothingBuffered h)) ({[holder h]} ∪ polling s) s)
  | w_nothing_to_read s h : read_hold s = Some h -> idle h = None -> buffered s = false -> readable s = false ->
      step tls s (set_read (Some (mark_idle NothingToRead h)) (polling s) s)
  | w_socket_full s h g : tls = true -> read_hold s = Some h -> write_hold s = Some g -> holder g = holder h -> idle h = None -> idle g = None ->
      step tls s (set_flags true (missed s) (set_write (Some (mark_idle SocketFull g)) (set_read (Some (mark_idle SocketFull h)) (polling s) s)))
  | w_unlock_read s h : read_hold s = Some h -> step tls s (set_wakes (to_wake h :: wakes s) (set_read None (polling s) s))
  (** Writers. *)
  | w_lock_write s t f : tls = true -> write_hold s = None -> f <= next_id s -> step tls s (set_write (Some (mkHold t f None)) s)
  | w_unlock_write s g : write_hold s = Some g -> step tls s (set_wakes (to_wake g :: wakes s) (set_write None s))
  (** The second half of [Held::drop]. *)
  | w_wake s l1 from l2 : wakes s = l1 ++ from :: l2 -> step tls s (woken from (set_wakes (l1 ++ l2) s)).

Definition reachable (tls : bool) (s : State) : Prop := rtc (step tls) init s.

(** ** No watcher is forgotten *)

Definition avail (s : State) : bool := buffered s || readable s.

(** The hold's release will wake the watcher, as things are. *)
Definition will_wake (h : option Hold) (id : Z) : Prop := exists h', h = Some h' /\ (idle h' = None \/ first h' <= id).
Definition covers (from : option Z) (id : Z) : Prop := match from with Some f => f <= id | None => True end.

(** Somebody is about to wake the watcher or to look at the stream, or it is
    one of the two cases the protocol misses. *)
Definition attended (s : State) (id : Z) : Prop :=
  will_wake (read_hold s) id \/ will_wake (write_hold s) id \/ (exists x, x ∈ wakes s /\ covers x id) \/
  polling s <> ∅ \/ stuck s = true \/ missed s = true.

(** Watchers that will not look again. *)
Definition settled (p : Phase) : Prop := p = Waits \/ p = Saw false.

(** What an idle hold says of the watchers that registered before it. *)
Definition idle_ok (s : State) (h : Hold) (why : Idle) : Prop :=
  match why with
  | NothingBuffered => holder h ∈ polling s
  | NothingToRead => avail s = false
  | SocketFull => stuck s = true
  end.

Record Inv (tls : bool) (s : State) : Prop := {
  i_ids : forall id p, watchers s !! id = Some p -> id < next_id s;
  i_first : forall h, read_hold s = Some h \/ write_hold s = Some h -> first h <= next_id s;
  i_idle : forall h why id p, read_hold s = Some h -> idle h = Some why -> watchers s !! id = Some p -> id < first h -> idle_ok s h why;
  i_idle_write : forall g why id p, write_hold s = Some g -> idle g = Some why -> watchers s !! id = Some p -> id < first g -> stuck s = true;
  i_settled : forall id p, watchers s !! id = Some p -> settled p -> avail s = true -> attended s id;
  i_noise : tls = false -> polling s = ∅ /\ write_hold s = None /\ stuck s = false /\ missed s = false;
}.

Lemma held_attended tls s id p h : Inv tls s -> watchers s !! id = Some p -> read_hold s = Some h -> avail s = true -> attended s id.
Proof.
  intros HI Hw Hh Ha. destruct (idle h) as [why|] eqn:Ei; [|left; eexists; eauto].
  destruct (decide (first h <= id)) as [Hf|Hf]; [left; eexists; eauto|].
  pose proof (i_idle _ _ HI _ _ _ _ Hh Ei Hw ltac:(lia)) as Hk. destruct why; simpl in Hk; [|congruence|unfold attended; tauto].
  do 3 right. left. set_solver.
Qed.

Lemma held_write_attended tls s id p g : Inv tls s -> watchers s !! id = Some p -> write_hold s = Some g -> attended s id.
Proof.
  intros HI Hw Hg. destruct (idle g) as [why|] eqn:Ei; [|right; left; eexists; eauto].
  destruct (decide (first g <= id)) as [Hf|Hf]; [right; left; eexists; eauto|].
  do 4 right. left. eapply (i_idle_write _ _ HI); eauto. lia.
Qed.

(** Fewer watchers. *)
Lemma inv_fewer tls ws s : Inv tls s -> ws ⊆ watchers s -> Inv tls (set_watchers ws s).
Proof.
  intros [H1 H2 H3 H4 H5 H6] Hs. split; simpl; try done.
  - intros id p Hw. eapply H1, lookup_weaken; done.
  - intros h why id p Hh Hi Hw. by eapply H3, lookup_weaken.
  - intros g why id p Hg Hi Hw. by eapply H4, lookup_weaken.
  - intros id p Hw. by eapply H5, lookup_weaken.
Qed.

Lemma inv_phase tls id p0 p s : Inv tls s -> watchers s !! id = Some p0 -> (settled p -> avail s = true -> attended s id) ->
  Inv tls (set_phase id p s).
Proof.
  intros [H1 H2 H3 H4 H5 H6] Hw Hp.
  assert (forall id' p', <[id := p]> (watchers s) !! id' = Some p' -> exists p'', watchers s !! id' = Some p'') as Hold.
  { intros id' p' Hl. destruct (decide (id' = id)) as [->|Hn]; [eauto|]. rewrite lookup_insert_ne in Hl by done. eauto. }
  split; simpl; try done.
  - intros id' p' [p'' Hl]%Hold. by eapply H1.
  - intros h why id' p' Hh Hi [p'' Hl]%Hold. by eapply H3.
  - intros g why id' p' Hg Hi [p'' Hl]%Hold. by eapply H4.
  - intros id' p' Hl. destruct (decide (id' = id)) as [->|Hn].
    + rewrite lookup_insert_eq in Hl. injection Hl as ->. apply Hp.
    + rewrite lookup_insert_ne in Hl by done. by apply H5.
Qed.

Lemma inv_nobody tls s : (forall h, read_hold s = Some h \/ write_hold s = Some h -> first h <= next_id s) ->
  (tls = false -> polling s = ∅ /\ write_hold s = None /\ stuck s = false /\ missed s = false) -> watchers s = ∅ -> Inv tls s.
Proof. intros H1 H2 Hw. split; try done; rewrite Hw; done. Qed.

Lemma inv_register tls s : Inv tls s -> Inv tls (add_watcher s).
Proof.
  intros [H1 H2 H3 H4 H5 H6].
  assert (forall id p, <[next_id s := Registered]> (watchers s) !! id = Some p ->
    (id = next_id s /\ p = Registered) \/ watchers s !! id = Some p) as Hold.
  { intros id p Hl. destruct (decide (id = next_id s)) as [->|Hn].
    - rewrite lookup_insert_eq in Hl. injection Hl as <-. by left.
    - rewrite lookup_insert_ne in Hl by done. by right. }
  split; simpl; try done.
  - intros id p [[-> _]|Hl]%Hold; [lia|]. specialize (H1 _ _ Hl). lia.
  - intros h Hh. specialize (H2 h Hh). lia.
  - intros h why id p Hh Hi [[-> _]|Hl]%Hold Hlt; [specialize (H2 h (or_introl Hh)); lia|]. by eapply H3.
  - intros g why id p Hg Hi [[-> _]|Hl]%Hold Hlt; [specialize (H2 g (or_intror Hg)); lia|]. by eapply H4.
  - intros id p [[-> ->]|Hl]%Hold; [by intros [?|?]|]. by apply H5.
Qed.

Lemma inv_wake tls s l1 from l2 : Inv tls s -> wakes s = l1 ++ from :: l2 -> Inv tls (woken from (set_wakes (l1 ++ l2) s)).
Proof.
  intros HI Hw. pose proof HI as [H1 H2 H3 H4 H5 H6]. destruct from as [f|]; simpl.
  2:{ apply inv_nobody; [done|by intros E; destruct (H6 E) as (? & ? & _)|done]. }
  assert (filter (fun '(id, _) => id < f) (watchers s) ⊆ watchers s) as Hsub by apply map_filter_subseteq.
  pose proof (inv_fewer _ _ _ HI Hsub) as [J1 J2 J3 J4 J5 J6]. split; simpl in *; try done.
  intros id p Hl Hp Ha. destruct (J5 id p Hl Hp Ha) as [Hd|[Hd|[(x & Hx & Hc)|Hd]]].
  - by left.
  - right. by left.
  - right. right. left. simpl in Hx. rewrite Hw in Hx. apply elem_of_app in Hx as [Hx|[->|Hx]%elem_of_cons].
    + exists x. split; [|done]. by apply elem_of_app; left.
    + apply map_lookup_filter_Some in Hl as [_ Hl]. simpl in Hc. lia.
    + exists x. split; [|done]. by apply elem_of_app; right.
  - right. right. right. done.
Qed.

(** The read lock is taken, by a task that was perhaps in the middle of a
    poll, or found taken by it. *)
Lemma inv_lock_read tls s t f : Inv tls s -> read_hold s = None -> f <= next_id s ->
  Inv tls (set_read (Some (mkHold t f None)) (polling s ∖ {[t]}) s).
Proof.
  intros [H1 H2 H3 H4 H5 H6] Hn Hf. split; simpl; try done.
  - intros h [[= <-]|Hh]; [done|]. apply H2. by right.
  - by intros h why id p [= <-].
  - intros id p Hl Hp Ha. left. eexists. split; [done|by left].
  - intros E. destruct (H6 E) as (-> & ?). split; [set_solver|done].
Qed.

Lemma inv_refused tls s t h : Inv tls s -> read_hold s = Some h -> holder h <> t -> Inv tls (set_read (Some h) (polling s ∖ {[t]}) s).
Proof.
  intros HI Hh Ht. pose proof HI as [H1 H2 H3 H4 H5 H6].
  assert (forall why id p, idle h = Some why -> watchers s !! id = Some p -> id < first h -> idle_ok (set_read (Some h) (polling s ∖ {[t]}) s) h why) as Hk.
  { intros why id p Hi Hl Hlt. pose proof (H3 _ _ _ _ Hh Hi Hl Hlt) as Hk. destruct why; simpl in *; [set_solver|done|done]. }
  split; simpl; try done.
  - intros h' [[= <-]|Hg]; apply H2; auto.
  - intros h' why id p [= <-]. apply Hk.
  - intros id p Hl Hp Ha. destruct (idle h) as [why|] eqn:Ei; [|left; eexists; eauto].
    destruct (decide (first h <= id)); [left; eexists; eauto|]. specialize (Hk _ _ _ eq_refl Hl ltac:(lia)).
    destruct why; simpl in Hk; [do 3 right; left; set_solver|unfold avail in *; simpl in *; congruence|unfold attended; tauto].
  - intros E. destruct (H6 E) as (-> & ?). split; [set_solver|done].
Qed.

Lemma inv_progress tls s h b r : Inv tls s -> read_hold s = Some h -> idle h = None -> Inv tls (set_data b r s).
Proof.
  intros [H1 H2 H3 H4 H5 H6] Hh Hi. split; simpl; try done.
  - intros h' why id p Hh' Hi'. congruence.
  - intros id p Hl Hp Ha. left. eexists. split; [done|by left].
Qed.

(** The reader marks its hold idle. *)
Lemma inv_idle tls s h why p : Inv tls s -> read_hold s = Some h -> idle h = None -> (tls = false -> why = NothingToRead /\ p = polling s) ->
  polling s ⊆ p -> (why = NothingBuffered -> holder h ∈ p) -> (why = NothingToRead -> avail s = false) -> (why = SocketFull -> stuck s = true) ->
  Inv tls (set_read (Some (mark_idle why h)) p s).
Proof.
  intros [H1 H2 H3 H4 H5 H6] Hh Hi Ht Hp W1 W2 W3.
  assert (idle_ok (set_read (Some (mark_idle why h)) p s) (mark_idle why h) why) as Hk by (destruct why; simpl; auto).
  split; simpl; try done.
  - intros h' [[= <-]|Hg]; [apply (H2 h); by left|apply H2; by right].
  - intros h' why' id p' [= <-]. simpl. by intros [= <-].
  - intros id p' Hl Hs Ha. destruct why; simpl in Hk.
    + do 3 right. left. set_solver.
    + unfold avail in *. simpl in *. congruence.
    + do 4 right. by left.
  - intros E. destruct (Ht E) as [_ ->]. by apply H6.
Qed.

Lemma inv_stuck tls s : Inv tls s -> tls = true -> Inv tls (set_flags true (missed s) s).
Proof.
  intros [H1 H2 H3 H4 H5 H6] ->. split; simpl; try done.
  - intros h why id p Hh Hi Hl Hlt. specialize (H3 h why id p Hh Hi Hl Hlt). by destruct why.
  - intros id p Hl Hs Ha. do 4 right. by left.
Qed.

Lemma inv_missed tls s : Inv tls s -> tls = true -> Inv tls (set_flags (stuck s) true s).
Proof.
  intros [H1 H2 H3 H4 H5 H6] ->. split; simpl; try done.
  - intros id p Hl Hs Ha. do 5 right. done.
Qed.

(** The write lock is held otherwise: released with a wake-up to follow, or
    with all that depends on it settled. *)
Lemma inv_write tls s g l : Inv tls s -> tls = true -> wakes s ⊆ l -> (forall h, g = Some h -> first h <= next_id s) ->
  (forall h why, g = Some h -> idle h = Some why -> stuck s = true) ->
  (forall id, will_wake (write_hold s) id -> will_wake g id \/ (exists x, x ∈ l /\ covers x id) \/ stuck s = true) ->
  Inv tls (set_wakes l (set_write g s)).
Proof.
  intros [H1 H2 H3 H4 H5 H6] -> Hl Hf Hi Hw. split; simpl; try done.
  - intros h [Hh|Hh]; [apply H2; by left|by apply Hf].
  - intros h why id p Hg Hid _ _. by eapply Hi.
  - intros id p Hlk Hs Ha. destruct (H5 id p Hlk Hs Ha) as [Hd|[Hd|[(x & Hx & Hc)|Hd]]].
    + by left.
    + destruct (Hw id Hd) as [?|[?|?]]; unfold attended; simpl; tauto.
    + right. right. left. exists x. split; [by apply Hl|done].
    + right. right. right. done.
Qed.

Lemma inv_unlock_read tls s h : Inv tls s -> read_hold s = Some h -> Inv tls (set_wakes (to_wake h :: wakes s) (set_read None (polling s) s)).
Proof.
  intros [H1 H2 H3 H4 H5 H6] Hh. split; simpl; try done.
  - intros h' [?|Hg]; [done|]. apply H2. by right.
  - intros id p Hl Hs Ha. destruct (H5 id p Hl Hs Ha) as [(h' & E & Hc)|[Hd|[(x & Hx & Hc)|Hd]]].
    + rewrite Hh in E. injection E as <-. right. right. left. exists (to_wake h). split; [by apply elem_of_cons; left|].
      unfold to_wake, covers. destruct (idle h); [by destruct Hc|done].
    + right. by left.
    + right. right. left. exists x. split; [by apply elem_of_cons; right|done].
    + right. right. right. done.
Qed.

Lemma watch_inv_step tls s s' : Inv tls s -> step tls s s' -> Inv tls s'.
Proof.
  intros HI Hst. pose proof HI as [H1 H2 H3 H4 H5 H6].
  destruct Hst as [s|s|s id h E Eh|s id E Eh|s id Et E Eh|s id Et E Eu|s id E|s id E Er|s id h Et E Eh|s id E|s id|s Et|s n En
    |s t f En Ef|s t h Ht Eh Et|s h b r Eh Ei Er|s h Et Eh Ei Eb|s h Eh Ei Eb Er|s h g Et Eh Eg Ehg Ei Eig|s h Eh|s t f Et En Ef|s g Eg|s l1 from l2 Ew].
  - by apply inv_nobody.
  - by apply inv_register.
  - eapply inv_phase; [done..|]. intros _. by eapply held_attended.
  - eapply inv_phase; [done..|]. by intros [?|?].
  - eapply inv_phase; [done..|]. intros _ Ha. destruct Eh as [Hr|Hw].
    + destruct (read_hold s) as [h|] eqn:Eh; [|done]. by eapply held_attended.
    + destruct (write_hold s) as [g|] eqn:Eg; [|done]. by eapply held_write_attended.
  - apply (inv_phase tls id NotBusy Waits (set_flags (stuck s) true s)); [by apply inv_missed|done|]. intros _ _. do 5 right. done.
  - eapply inv_phase; [done..|]. intros Hs Ha. unfold avail in Ha. rewrite Ha in Hs. by destruct Hs.
  - apply inv_fewer; [done|]. apply delete_subseteq.
  - eapply inv_phase; [done..|]. intros _. by eapply held_attended.
  - eapply inv_phase; [done..|]. intros _ Ha. eapply H5; [done|by right|done].
  - apply inv_fewer; [done|]. apply delete_subseteq.
  - by split.
  - by split.
  - by apply inv_lock_read.
  - by apply inv_refused.
  - by eapply inv_progress.
  - apply inv_idle; try done; [by rewrite Et|set_solver|set_solver].
  - apply inv_idle; try done. intros _. unfold avail. by rewrite Eb, Er.
  - assert (Inv tls (set_read (Some (mark_idle SocketFull h)) (polling s) (set_flags true (missed s) s))) as HI2.
    { apply inv_idle; try done; [by apply inv_stuck|by rewrite Et]. }
    apply (inv_write tls _ (Some (mark_idle SocketFull g)) (wakes s)) in HI2; try done.
    + intros h' [= <-]. simpl. apply H2. by right.
    + intros id _. by right; right.
  - by apply inv_unlock_read.
  - apply (inv_write tls s (Some (mkHold t f None)) (wakes s)); try done.
    + by intros h [= <-].
    + by intros h why [= <-].
    + intros id (g & Eg & _). congruence.
  - destruct tls.
    + apply (inv_write true s None (to_wake g :: wakes s)); try done; [set_solver|].
      intros id (g' & Eg' & Hc). rewrite Eg in Eg'. injection Eg' as <-. right. left. exists (to_wake g). split; [by apply elem_of_cons; left|].
      unfold to_wake, covers. destruct (idle g); [by destruct Hc|done].
    + destruct (H6 eq_refl) as (_ & Hw & _). congruence.
  - by apply inv_wake.
Qed.

Lemma watch_reachable_inv tls s : reachable tls s -> Inv tls s.
Proof. intros Hr. refine (rtc_invariant (step tls) (Inv tls) _ _ _ Hr _); [eauto using watch_inv_step|]. apply inv_nobody; by try intros h [?|?]. Qed.

(** C25: A [Select] does not sleep on a stream that has something for it with
    nobody about: if a watcher waits while something is buffered or on the
    socket, a task holds a lock whose release will wake it, or a release is
    about to, or a task is in the middle of a poll.  For Noise that is all;
    for TLS there are two exceptions, a hold that was idle because the socket
    took nothing, and a watcher that found [inner] locked by a task without a
    hold. *)
Theorem watcher_attended tls s id : reachable tls s -> watchers s !! id = Some Waits -> buffered s || readable s = true ->
  will_wake (read_hold s) id \/ (exists x, x ∈ wakes s /\ covers x id) \/
  (tls = true /\ (will_wake (write_hold s) id \/ polling s <> ∅ \/ stuck s = true \/ missed s = true)).
Proof.
  intros HI%watch_reachable_inv Hw Ha. pose proof (i_settled _ _ HI id Waits Hw (or_introl eq_refl) Ha) as Hd.
  destruct tls; [unfold attended in Hd; tauto|]. destruct (i_noise _ _ HI eq_refl) as (Hp & Hg & Hs & Hm).
  destruct Hd as [?|[(g & E & _)|[?|[?|[?|?]]]]]; [by left|congruence|by right; left|done|congruence|congruence].
Qed.

(** *** What TLS misses *)

(** Nobody has anything to do with the stream. *)
Definition quiet (s : State) : Prop :=
  read_hold s = None /\ write_hold s = None /\ wakes s = [] /\ polling s = ∅ /\ users s = 0%nat.

(** [watch] takes [inner] being locked for a sign that somebody's release
    will wake it, but [server_name], [alpn_protocol], [peer_certificates] and
    [watch] itself lock it without a hold and wake nobody: a watcher that
    finds it locked by one of them is left waiting next to what is buffered,
    with nobody about. *)
Theorem inner_contention_strands : exists s, reachable true s /\ watchers s !! 1 = Some Waits /\ buffered s = true /\ quiet s /\ stuck s = false.
Proof.
  eexists. split.
  - unfold reachable. eapply rtc_l; [apply w_arrive|]. eapply rtc_l; [apply (w_lock_read _ _ 0 1); done|].
    eapply rtc_l; [eapply (w_progress _ _ _ true false); done|]. eapply rtc_l; [eapply w_unlock_read; done|].
    eapply rtc_l; [apply (w_wake _ _ [] None []); done|]. eapply rtc_l; [apply w_register|].
    eapply rtc_l; [apply (w_not_busy _ _ 1); done|]. eapply rtc_l; [by apply w_use|].
    eapply rtc_l; [apply (w_inner_used _ _ 1); try done; simpl; lia|]. eapply rtc_l; [by apply (w_unuse _ _ 0)|]. apply rtc_refl.
  - done.
Qed.

(** [fill_now] marks its hold idle when the socket does not take what has to
    be sent first, without having looked whether something has arrived: a
    watcher that registered before that hold and found it there is left
    waiting next to a readable socket, with nobody about. *)
Theorem full_socket_strands : exists s, reachable true s /\ watchers s !! 1 = Some Waits /\ readable s = true /\ quiet s /\ missed s = false.
Proof.
  eexists. split.
  - unfold reachable. eapply rtc_l; [apply w_arrive|]. eapply rtc_l; [apply w_register|]. eapply rtc_l; [apply (w_lock_read _ _ 0 2); done|].
    eapply rtc_l; [eapply (w_busy _ _ 1); done|]. eapply rtc_l; [apply (w_lock_write _ _ 0 2); done|].
    eapply rtc_l; [eapply w_socket_full; done|]. eapply rtc_l; [eapply w_unlock_write; done|]. eapply rtc_l; [eapply w_unlock_read; done|].
    eapply rtc_l; [apply (w_wake _ _ [] (Some 2) [Some 2]); done|]. eapply rtc_l; [apply (w_wake _ _ [] (Some 2) []); done|]. apply rtc_refl.
  - split_and!; done.
Qed.

(** A reader that is not idle holds the lock. *)
Lemma watcher_attended_witness :
  let s := set_data true false (set_phase 1 Waits (set_read (Some (mkHold 0 2 None)) (∅ ∖ {[0%nat]}) (add_watcher init))) in
  watchers s !! 1 = Some Waits /\
  (will_wake (read_hold s) 1 \/ (exists x, x ∈ wakes s /\ covers x 1) \/
   (false = true /\ (will_wake (write_hold s) 1 \/ polling s <> ∅ \/ stuck s = true \/ missed s = true))).
Proof.
  intros s. split; [reflexivity|]. apply (watcher_attended false s 1); [|reflexivity|reflexivity].
  eapply rtc_l; [apply w_register|]. eapply rtc_l; [apply (w_lock_read _ _ 0 2); [reflexivity|simpl; lia]|].
  eapply rtc_l; [eapply (w_busy _ _ 1); reflexivity|]. eapply rtc_l; [eapply (w_progress _ _ _ true false); [reflexivity|reflexivity|discriminate]|].
  apply rtc_refl.
Defined.

End StreamWatch.
